(* ===== verification/_CoqProject ===== *)
-Q . S2P
Prelude.v
CppMap.v
Bytes.v
HostFs.v
PathSpec.v
PathRule.v
GuestPath.v
RuntimeConfig.v
ElfPlan.v
ExecMediation.v
ExecPlan.v
Procfs.v
Interposer.v
WxStrategy.v
Launch.v
RuntimePlan.v
ExecRule.v
AlrElf.v
PreloadPath.v
PreloadExec.v
PreloadNss.v
PreloadProc.v
PreloadTty.v
CliConfig.v
CliTree.v
CliEnv.v
CliRun.v
Supervisor.v
FakerootDb.v
Fakeroot.v
DohWire.v
DohResolver.v
PulseTag.v
PulseStream.v
PulseServer.v
GpuRing.v
Wire.v
VkArena.v
VkCmdLog.v
VkSubmit.v
VkBatch.v
VkDriver.v
VkRender.v
VkHost.v
GlesDecode.v
GpuExecutor.v
ResolvBridge.v
Hostent.v
AppFilter.v
AppPty.v
AppPath.v
