(* ===== verification/Prelude.v ===== *)
(** * Android-on-Linux runtime: verification library

    The repository runs unmodified glibc Linux programs inside an Android app.
    Its C++ core decides, for a guest program, which host files its paths name,
    how an exec continues, what its [/proc] shows, how code may be mapped on the
    Android release at hand, how its OpenGL and Vulkan calls reach the GPU of the
    device, how its sound reaches the speaker, how it resolves host names and how it
    can believe to run as root.  The library models that core and proves it correct.

    ** Parts of the program and their models

    Paths below are under [src/app/src/main/cpp], and for the path rule under [src].

    - [Prelude], [CppMap], [Bytes]: byte strings, exceptions, [std::string] and
      [std::map] operations, fixed-width integers and little-endian fields.
    - [HostFs]: the system calls the runtime makes ([open], [pread], [stat]).  They
      belong to the kernel, so a [Host] record is a parameter; [HostLaws] states
      what pread(2) documents.
    - [PathSpec]: the abstract specification of guest paths: lexical normal forms
      over lists of components, and the host path a guest path denotes.
    - [PathRule]: [runtime/alr/src/common/alr_path_rule.h], the C rule that the preload library, the
      supervisor and the runtime share ([alr_rw], [alr_guest_canon], the in-place
      normalizer and its fast path).  [GuestPath]: the C++ translation
      [alr_runtime/alr_path.cpp] built on it.
    - [RuntimeConfig]: [alr_runtime/alr_config.cpp], the versioned text format by
      which one process hands a guest configuration to the next.
    - [ElfPlan]: [alr_runtime/alr_elf.cpp], the load plan of a guest ELF image.
    - [ExecMediation]: the decisions on a trapped [execve] of
      [alr_runtime/alr_exec.cpp] (path, environment, arguments) and the vectors the
      supervisor of [runtime_report.cpp] rebuilds from them.  [ExecPlan]: executable
      resolution, shebang parsing and the continuation plan of [alr_exec.cpp], and
      the packaged program [alr_runtime_trampoline.cpp] that checks the plan.
    - [Procfs], [Interposer]: the synthesized [/proc] files ([alr_procfs.cpp]) and
      the access decisions for them ([alr_interposer.cpp], [alr_hook.cpp]).
    - [WxStrategy]: [alr_wx.cpp], how guest code may become executable under the
      SELinux domain of the app.
    - [Launch]: [alr_launch.cpp] and [alr_trampoline.cpp], the only functions that
      start a child process.  [RuntimePlan]: [runtime_plan.cpp],
      [alr_runtime_launcher.cpp], [alr_env.cpp], which compose all of the above into
      the launch plans and the runtime report.
    - [GpuRing]: [alr_gpu/alr_gpu_ring.hpp] and its C port
      [guest_shim/alr_gpu_ring_c.h], the byte ring in shared memory; its operations
      run to completion, and (Module [Threads]) both threads interleaved byte by
      byte.  [Wire]: the little-endian readers and encoders both command streams use.
      [GlesDecode]: the wire format of OpenGL calls, the decoder
      [alr_gpu_decode.hpp] and the encoder [alr_gles_proto.h].  [GpuExecutor]: the
      guest's emit and flush ([alr_shim_runtime.c]) and the consume loop of the host
      ([alr_gpu_host_service.hpp]) around the ring.
    - [VkArena], [VkCmdLog], [VkSubmit]: the arena both sides of the Vulkan stream
      share ([alr_gpu/generated/alr_gpu_vk_arena.hpp]), the log of one command buffer,
      its recorder and its replay ([alr_gpu_vk_cmdlog.hpp]), and the submit and
      synchronisation operations of the batch stream ([alr_gpu_vk_cmd_dispatch.hpp]).
    - [VkBatch], [VkDriver], [VkRender], [VkHost]: the object stream of Vulkan: the requests
      and replies of [alr_gpu_vk_proto.hpp], their encoders and decoders on both sides and the
      batch decoder [decode_vk_batch] of [alr_gpu_vk_decode.hpp], which runs the operations of
      [VkSubmit] too; a driver that answers each call from the calls before it, and the live
      objects of such a history; the functions [vk_real_*] that render a clear, a draw or a
      present; those that create, look up and destroy instances, devices, queues, pools,
      modules and swapchains.
    - [FakerootDb], [Fakeroot]: [alr_fakeroot], the shared table of faked owners and
      modes, and the interposed calls that record and report them.
    - [DohWire], [DohResolver]: [alr_doh], DNS messages and base64url, and the
      [getaddrinfo] that resolves names over HTTPS.
    - [Supervisor], [ExecRule], [AlrElf]: the C runtime under [src/runtime/alr/src]: the
      ptrace loop that answers the system calls the app's filter traps
      ([supervisor/alr_supervisor.c] and its table), the decisions on the environment of
      an exec ([common/alr_exec_rule.c]) and the classifier of executables
      ([common/alr_elf.c]).
    - [PreloadPath], [PreloadExec], [PreloadNss], [PreloadProc], [PreloadTty]: the library
      [preload/alr_preload.c] that the C runtime puts between a guest and libc, by the
      calls it stands for: paths, links, sockets and raw system calls; the exec family and
      its environment; accounts, hosts and services; the files of [/proc] and the password
      lock; terminals.
    - [ResolvBridge], [Hostent]: how a guest resolves names: [getaddrinfo] of the preload
      library, the thread [cli/alr_resolvd.c] of the tool it asks over a socket, the messages
      [common/alr_resolv_proto.h] between them, and the records [gethostbyname] and its
      relatives lay out in a buffer.
    - [CliConfig], [CliTree], [CliEnv], [CliRun]: the tool [cli/alr.c] of the C runtime, by
      what it does: its settings and where they come from; the repair of an extracted tree
      (user databases, links, members [tar] could not link) and the choice of a release;
      the options and the environment of a launch; the launch itself, from the name of a
      tree to the program, vector, environment and directory that are executed.
    - [AppFilter], [AppPty], [AppPath]: the library [alr_interpose] that the app puts between a
      guest and libc: the seccomp filter its constructor installs and its scan for system
      call instructions; the terminals emulated on pairs of sockets, their table and the
      calls that use them; the wrappers of everything that takes a path, a socket address
      or a library, with the calls they make through the trampoline.
    - [PulseTag], [PulseStream], [PulseServer]: [alr_audio], the tagged values of the
      PulseAudio protocol, the playback streams and the mixer, and the server loop
      with its clients.

    Each file models the functions of its sources one definition per function,
    under the names of the source.  State is passed explicitly: a C++ function
    that may throw returns a [result], a computation that reads the kernel
    returns [io], undefined behaviour of a copy is [None], and the concurrent
    components and the audio server are step relations.  Files, Modules and definitions call each other
    as the sources do: [RuntimePlan] calls [Launch], [ExecPlan], [Procfs],
    [Interposer] and [WxStrategy], which call [RuntimeConfig], [ElfPlan] and
    [GuestPath], which calls [PathRule]; [GpuExecutor] calls [GlesDecode] and
    [GpuRing]; [VkSubmit] calls [VkCmdLog] and [VkArena], [VkBatch] is the decoder [VkSubmit] leaves
    open, and [VkHost] with [VkRender] over [VkDriver] the provider [VkBatch] leaves open; [PreloadExec] calls [AlrElf] and
    [PreloadPath], which calls [PathRule], and [PreloadProc] undoes what [PreloadExec]
    builds; [CliRun] calls [CliEnv], [CliConfig], [AlrElf] and [PathRule] and is proved
    against [PreloadExec]; [AppPath] calls [AppPty], and its calls are judged by the filter of
    [AppFilter]; [Hostent] calls [ResolvBridge], which calls [PreloadNss]; each of [Fakeroot],
    [DohResolver] and [PulseServer] calls the files of its component listed before it.

    ** What the theorems show

    - Confinement of paths ([GuestPath.translate_confined], [PathRule.alr_rw_refines]
      and the lemmas around [host_spec]): the bit-level C code refines the lexical
      specification, is idempotent, has an inverse, and no input leaves the rootfs.
    - Exec mediation ([exec_mediation_idempotent], [envp_injection_correct],
      [chromium_argv_correct]): decisions are stable when they are applied again
      and lose nothing of the guest's environment.
    - Formats ([config_roundtrip], [parse_runtime_config_valid],
      [elf_plan_correct], [parse_shebang_correct], [decode_roundtrip],
      [decode_truncated]): round trips, exact acceptance, behaviour on truncation.
    - Isolation ([mounts_view_correct], [guest_isolated], [launch_policy_safe],
      [wx_strategy_correct]): what a guest cannot see, name or cause.
    - Whole programs ([continuation_plan_end_to_end], [runtime_report_total]): the
      plan one program writes is the plan the other accepts; the report always
      exists.
    - The GPU path ([ring_fifo], [ring_race_free], [append_is_producer_run],
      [executed_prefix], [flush_synchronises], [flush_answered]): no byte is lost,
      torn or reordered in any interleaving; a flush that returned means executed
      commands; every flush is answered.
    - Vulkan ([submit_replays_recorded], [submit_logs_in_bounds], [requests_served],
      [bytes_executed], [render_balanced], [host_safe], [device_granted]): what the guest
      records is what the host replays, and no log of a guest is read outside it; requests
      reach the driver as the guest made them, their results come back as the driver gave
      them, and bytes that are no request reach nothing; no request leaks an object of a
      rendering, uses a dead one or asks the driver for what it does not have.
    - Fake root ([fakeroot_db_refines], [fakeroot_refines], [statx_agrees]): the open
      hash table is a finite map, and the interposed calls behave as a file system
      whose owners and modes the process may change.
    - The C runtime ([stop_resumed_once], [signals_faithful], [startup_race],
      [ld_preload_built], [classify_exact], [rpath_found], [is_go_exact]): no guest thread
      stays stopped, only the traps of the app's filter are answered, the registry
      survives the race between a thread and its parent, and the classifier reads what
      the headers of the image say.
    - The preload library ([loader_argv], [guest_cmdline], [child_environment],
      [path_search], [symlink_lands], [syscall_rewrites_paths], [unix_roundtrip],
      [link_identity], [accounts_exact], [termios_roundtrip]): what a program starts is what
      it asked for, with the arguments the kernel would have given it, and what it reads
      back (its command line, a link, an address, the identity of a file, an account, a
      terminal) is what it wrote or what the rootfs holds.
    - The command line tool ([launch_equals_exec], [launch_environment],
      [launch_handshake], [environment_bounds], [workdir_mapped], [tree_confined],
      [userdb_synced], [config_set_exact]): the first program of a launch is started as the
      guest would start it, in an environment whose readers agree and from which the preload
      library reads what the launch meant; a tree's links stay inside it; settings read
      back as written.
    - The interposer of the app ([calls_placed], [gated_untraced], [realpath_reopens],
      [filter_exact], [svcscan_exact], [requests_answered], [opened_by_name],
      [settings_shared]): every path a wrapper passes on is placed below the root or left
      alone for a stated reason, and none is traced; the filter decides its contract; a
      terminal answers every request, is opened by its name and shows at one end
      what was set at the other.
    - Names ([parse_response_exact], [build_query_exact], [query_answered],
      [doh_resolves], [guest_resolves], [hostent_in_buffer]): the parser accepts exactly the
      answers of the grammar it is for, reads only inside the message, and both resolvers
      return what was answered; the bridge carries questions and replies unchanged, and a
      look-up record is written inside its buffer and reads back as the answer.
    - Sound ([skip_value_exact], [push_is_fifo], [mixer_correct], [chunking_irrelevant],
      [control_answered], [data_frame_credit], [server_invariant]): the reader stays
      inside the frame, a stream is a bounded queue, the device plays the clipped sum
      of the queues, the server's behaviour does not depend on how the network cuts
      its input, every command is answered once, and streams, clients and the mixer
      stay consistent in every reachable state.

    A statement that needs a hypothesis has a witness that applies it at a concrete
    input ([..._witness]).  The [Example]s record inputs on which the code does
    something one may not expect.

    ** Fuel and bounds

    [split_loop] and the path loops run on the length of their input.  The reading
    loop [read_exact] of [ElfPlan] and the fuel of the callers is justified there by
    [HostLaws]: with at most [retries] interruptions in a row the stated fuel
    suffices, and more fuel changes nothing.  [decode_loop] of
    [GlesDecode] and [rd_loop] of [Wire] run on the length of the buffer, because an
    iteration consumes at least one byte ([decode_loop_fuel]); so do [skip_value] of
    [PulseTag] ([skip_value_exact] proves it enough) and [drain_frames] of
    [PulseServer] ([drain_loop_enough]).  [skip_name] of [DohWire] gets the fuel its
    pointer count allows, and the note loop of [AlrElf] the 127 records a segment can hold.  The scans of
    [PreloadNss] run on the length of the file, and answer that they do not end when a
    buffer of one byte makes [fgets] return nothing for ever.  The filter of [AppFilter] runs on
    the number of its instructions, since it only jumps forward ([ends_run]).  The turns of the resampling loop of [PulseStream] are
    bounded by a parameter: audio at the rate of the device does not use it.  Path buffers have the 4096 bytes of the
    source and at most 128 components; ring cursors wrap at 64 bits and lengths at 32.

    ** What is not modelled

    The Kotlin app and its JNI glue (user interface and Android services); vendored
    code ([third_party], PRoot); the device probes and the ptrace loop of
    [runtime_report.cpp] apart from the vectors it rebuilds (system calls on a
    foreign process; the loop of the C runtime is modelled in [Supervisor]); the Wayland compositor; the USB service; the generated
    operations of the Vulkan stream, the constant fields of its create-info structures and the
    ring thread around a batch; the EGL
    and presentation code of the GPU service; binding and polling the sockets of the
    audio server; the TLS connection of the resolver, which is a parameter that answers
    a request, and the accept loop of the resolver thread, which serves one client after the
    other; the commands of the command line tool that download, extract, copy
    and remove trees; [forkpty] and the assembly of the trampoline in the interposer of the
    app.  Weak memory is not modelled: the ring's release stores and acquire
    loads are taken as interleaving steps, the readers of the fake-root table are not
    interleaved with its writers, and the audio callback runs between the passes of the
    server loop, not between the frames of one pass.  Allocation failure is not
    modelled.

    ** Plan

    Next: the ptrace loop of the app, and the name tables and texture repacking of the guest shim. *)

From stdpp Require Export base tactics option list numbers gmap sorting.
From Stdlib Require Export Sorting.Sorted.
From Stdlib Require Export Lia ZArith.
From Stdlib Require Strings.Byte Strings.String.

Abbreviation byte := Corelib.Init.Byte.byte.
(** [std::string], [std::string_view], [std::vector<uint8_t>]: a byte list. *)
Abbreviation bytes := (list Corelib.Init.Byte.byte).

#[export] Instance byte_eq_dec : EqDecision byte := Stdlib.Strings.Byte.byte_eq_dec.
#[export] Instance byte_inhabited : Inhabited byte := populate Byte.x00.

(** String literals denote the bytes of the C++ literal. *)
Export Stdlib.Strings.String (string, String, EmptyString).
Export (notations) Stdlib.Strings.Byte.
String Notation string
  Stdlib.Strings.String.string_of_list_byte Stdlib.Strings.String.list_byte_of_string : stdpp_scope.
Definition str (s : string) : bytes := Stdlib.Strings.String.list_byte_of_string s.
Coercion str : string >-> list.
Definition strs (l : list string) : list bytes := str <$> l.

(** Hints and rewrite rules shared by the components. *)
Create HintDb cpp.
Create Rewrite HintDb cpp.

(** ** Bytes as unsigned integers *)

Definition byte_val (b : byte) : Z := Z.of_N (Stdlib.Strings.Byte.to_N b).

Definition byte_of (z : Z) : byte :=
  default Byte.x00 (Stdlib.Strings.Byte.of_N (Z.to_N (z mod 256))).

Lemma byte_val_range b : (0 ≤ byte_val b < 256)%Z.
Proof.
  unfold byte_val. pose proof (Stdlib.Strings.Byte.to_N_bounded b). lia.
Qed.

Lemma byte_val_of z : byte_val (byte_of z) = (z mod 256)%Z.
Proof.
  unfold byte_val, byte_of. pose proof (Z.mod_pos_bound z 256 eq_refl) as Hb.
  destruct (Stdlib.Strings.Byte.of_N (Z.to_N (z mod 256))) as [b|] eqn:E; simpl.
  - apply Stdlib.Strings.Byte.to_of_N in E. lia.
  - apply Stdlib.Strings.Byte.of_N_None_iff in E. lia.
Qed.

Lemma byte_val_inj b1 b2 : byte_val b1 = byte_val b2 → b1 = b2.
Proof.
  unfold byte_val. intros H%N2Z.inj.
  pose proof (Stdlib.Strings.Byte.of_to_N b1) as E1.
  pose proof (Stdlib.Strings.Byte.of_to_N b2) as E2. congruence.
Qed.

Lemma byte_of_val b : byte_of (byte_val b) = b.
Proof.
  apply byte_val_inj. rewrite byte_val_of.
  apply Z.mod_small, byte_val_range.
Qed.

#[export] Instance byte_countable : Countable byte := inj_countable' byte_val byte_of byte_of_val.

(** ** Exceptions

    A C++ function that may throw [std::invalid_argument] or
    [std::runtime_error] returns a [result]; [Throw w] carries [what()]. *)
Inductive result (A : Type) : Type :=
| Ok (a : A)
| Throw (what : bytes).
Arguments Ok {A} a.
Arguments Throw {A} what.

#[export] Instance result_ret : MRet result := λ A a, Ok a.
#[export] Instance result_bind : MBind result := λ A B f m,
  match m with Ok a => f a | Throw w => Throw w end.
#[export] Instance result_fmap : FMap result := λ A B f m,
  match m with Ok a => Ok (f a) | Throw w => Throw w end.

Definition is_ok {A} (r : result A) : bool :=
  match r with Ok _ => true | Throw _ => false end.

(** [if (c) throw std::invalid_argument(w);] *)
Definition throw_if (c : bool) (w : bytes) : result unit :=
  if c then Throw w else Ok tt.

(** [try { r } catch (const std::exception& exc) { h exc.what() }] *)
Definition try_catch {A} (r : result A) (h : bytes → A) : A :=
  match r with Ok a => a | Throw w => h w end.

Lemma bind_Ok {A B} (m : result A) (f : A → result B) (b : B) :
  (m ≫= f) = Ok b ↔ ∃ a, m = Ok a ∧ f a = Ok b.
Proof. destruct m; simpl; naive_solver. Qed.

Lemma throw_if_Ok c w u : throw_if c w = Ok u ↔ c = false.
Proof. destruct u, c; simpl; naive_solver. Qed.

(** Invert a chain of monadic binds that returned normally. *)
Ltac inv_ok :=
  repeat match goal with
  | H : Ok _ = Ok _ |- _ => injection H as H; try subst
  | H : Throw _ = Ok _ |- _ => discriminate H
  | H : Ok _ = Throw _ |- _ => discriminate H
  | H : (_ ≫= _) = Ok _ |- _ =>
      let a := fresh "a" in let E := fresh "E" in
      apply bind_Ok in H as (a & E & H)
  | H : mret _ = Ok _ |- _ => unfold mret, result_ret in H
  | H : throw_if _ _ = Ok _ |- _ => apply throw_if_Ok in H
  | H : negb _ = false |- _ => apply negb_false_iff in H
  end.

(** ** Byte strings: the [std::string] operations the sources use *)

(** Absolute means "non-empty and front() == '/'". *)
Definition slash : byte := "/"%byte.
Definition nul : byte := Byte.x00.
Definition newline : byte := Byte.x0a.
Definition tab : byte := Byte.x09.

(** [s.front() == '/'] on a non-empty string. *)
Definition starts_slash (s : bytes) : bool :=
  match s with c :: _ => bool_decide (c = slash) | [] => false end.

Fixpoint has_byte (c : byte) (s : bytes) : bool :=
  match s with
  | [] => false
  | b :: s' => bool_decide (b = c) || has_byte c s'
  end.

Lemma has_byte_false c s : has_byte c s = false ↔ c ∉ s.
Proof.
  induction s as [|b s IH]; simpl.
  - split; [intros _; apply not_elem_of_nil|done].
  - rewrite orb_false_iff, IH, bool_decide_eq_false, not_elem_of_cons.
    naive_solver.
Qed.

Lemma has_byte_true c s : has_byte c s = true ↔ c ∈ s.
Proof.
  pose proof (has_byte_false c s). destruct (has_byte c s), (decide (c ∈ s)); naive_solver.
Qed.

Lemma has_byte_app c s1 s2 : has_byte c (s1 ++ s2) = has_byte c s1 || has_byte c s2.
Proof. induction s1 as [|b s1 IH]; simpl; [done|]. by rewrite IH, orb_assoc. Qed.

(** A string value that survives [c_str()]: no embedded NUL. *)
Abbreviation no_nul s := (nul ∉ (s : bytes)).

(** [s.find(c, pos)] *)
Fixpoint find_from (c : byte) (s : bytes) : option nat :=
  match s with
  | [] => None
  | b :: s' => if decide (b = c) then Some 0 else S <$> find_from c s'
  end.
Definition find_byte (c : byte) (s : bytes) (pos : nat) : option nat :=
  Nat.add pos <$> find_from c (drop pos s).

(** What a C function sees of the buffer behind [s.c_str()]: up to the first NUL. *)
Definition c_str (s : bytes) : bytes :=
  match find_from nul s with Some k => take k s | None => s end.

(** [s.substr(pos, n)], and [s.substr(pos)]. *)
Definition substr (s : bytes) (pos n : nat) : bytes := take n (drop pos s).
Definition substr_from (s : bytes) (pos : nat) : bytes := drop pos s.

Fixpoint is_prefix (p s : bytes) : bool :=
  match p, s with
  | [], _ => true
  | _ :: _, [] => false
  | a :: p', b :: s' => bool_decide (a = b) && is_prefix p' s'
  end.

Lemma is_prefix_spec p s : is_prefix p s = true ↔ ∃ r, s = p ++ r.
Proof.
  revert s. induction p as [|a p IH]; intros [|b s]; simpl.
  - naive_solver.
  - naive_solver.
  - naive_solver.
  - rewrite andb_true_iff, bool_decide_eq_true, IH. naive_solver.
Qed.

(** [s.find(needle) != npos] *)
Fixpoint has_sub (needle s : bytes) : bool :=
  is_prefix needle s || match s with [] => false | _ :: s' => has_sub needle s' end.

Lemma has_sub_spec needle s :
  has_sub needle s = true ↔ ∃ l r, s = l ++ needle ++ r.
Proof.
  induction s as [|b s IH]; simpl.
  - rewrite orb_false_r, is_prefix_spec. split.
    + intros [r Hr]. by exists [], r.
    + intros (l & r & H). symmetry in H. apply app_nil in H as [-> H]. by exists r.
  - rewrite orb_true_iff, is_prefix_spec, IH. split.
    + intros [[r Hr]|(l & r & ->)]; [by exists [], r|by exists (b :: l), r].
    + intros ([|b' l] & r & H); simplify_eq/=; [left; eauto|right; eauto].
Qed.

(** [while (out.size() > 1 && out.back() == c) out.pop_back()], and the
    variant that may empty the string; both work on the reversed string. *)
Fixpoint drop_while (f : byte → bool) (s : bytes) : bytes :=
  match s with
  | b :: s' => if f b then drop_while f s' else s
  | [] => []
  end.
Definition trim_end (f : byte → bool) (s : bytes) : bytes :=
  reverse (drop_while f (reverse s)).

(** ** Splitting on a separator

    [split_loop] is the index loop the sources repeat
    ([while (start <= s.size()) { pos = s.find(c, start); ... }]);
    [split_on] is its list reading. *)
Fixpoint split_loop (fuel : nat) (c : byte) (s : bytes) (start : nat)
    (fields : list bytes) : list bytes :=
  match fuel with
  | 0 => fields
  | S fuel =>
      if decide (start ≤ length s) then
        match find_byte c s start with
        | None => fields ++ [substr_from s start]
        | Some k => split_loop fuel c s (S k) (fields ++ [substr s start (k - start)])
        end
      else fields
  end.

Fixpoint split_on (c : byte) (s : bytes) : list bytes :=
  match s with
  | [] => [[]]
  | b :: s' =>
      if decide (b = c) then [] :: split_on c s'
      else match split_on c s' with
           | f :: fs => (b :: f) :: fs
           | [] => [[b]]
           end
  end.

Fixpoint join_on (c : byte) (fs : list bytes) : bytes :=
  match fs with
  | [] => []
  | [f] => f
  | f :: fs' => f ++ c :: join_on c fs'
  end.

Section split.
Context (c : byte).

Lemma split_on_ne s : split_on c s ≠ [].
Proof. destruct s; simpl; [done|]. case_decide; [done|]. by case_match. Qed.

Lemma split_on_no_sep s : Forall (λ f, c ∉ f) (split_on c s).
Proof.
  induction s as [|b s IH]; simpl.
  - constructor; [apply not_elem_of_nil|constructor].
  - case_decide; [by constructor; [apply not_elem_of_nil|]|].
    case_match; simplify_eq; constructor; inversion IH; subst; auto;
      rewrite ?not_elem_of_cons; set_solver.
Qed.

Lemma split_on_app s1 s2 :
  c ∉ s1 → split_on c (s1 ++ c :: s2) = s1 :: split_on c s2.
Proof.
  induction s1 as [|b s1 IH]; intros Hn; simpl.
  - by rewrite decide_True.
  - apply not_elem_of_cons in Hn as [Hb Hn].
    rewrite decide_False, IH by auto. done.
Qed.

Lemma split_on_single s : c ∉ s → split_on c s = [s].
Proof.
  induction s as [|b s IH]; intros Hn; simpl; [done|].
  apply not_elem_of_cons in Hn as [Hb Hn]. by rewrite decide_False, IH by auto.
Qed.

Lemma split_on_cons_sep s : split_on c (c :: s) = [] :: split_on c s.
Proof. simpl. by rewrite decide_True. Qed.

Lemma split_on_join fs :
  fs ≠ [] → Forall (λ f, c ∉ f) fs → split_on c (join_on c fs) = fs.
Proof.
  induction fs as [|f fs IH]; intros Hne Hf; [done|].
  apply Forall_cons_1 in Hf as [Hf Hfs]. destruct fs as [|f' fs].
  - by apply split_on_single.
  - change (join_on c (f :: f' :: fs)) with (f ++ c :: join_on c (f' :: fs)).
    rewrite split_on_app by done. by rewrite IH.
Qed.

Lemma join_on_split s : join_on c (split_on c s) = s.
Proof.
  induction s as [|b s IH]; simpl; [done|]. case_decide as Hb.
  - subst b. destruct (split_on c s) eqn:E; [by destruct (split_on_ne s)|].
    by rewrite <- IH.
  - destruct (split_on c s) as [|f fs] eqn:E; [by destruct (split_on_ne s)|].
    rewrite <- IH. by destruct fs.
Qed.

Lemma find_from_None s : find_from c s = None → c ∉ s.
Proof.
  induction s as [|b s IH]; simpl; [intros _; apply not_elem_of_nil|].
  case_decide; [done|]. destruct (find_from c s); [done|].
  intros _. apply not_elem_of_cons; naive_solver.
Qed.

Lemma find_from_Some s k :
  find_from c s = Some k →
  ∃ r, s = take k s ++ c :: r ∧ (c ∉ take k s) ∧ r = drop (S k) s ∧ k < length s.
Proof.
  revert k. induction s as [|b s IH]; simpl; intros k Hk; [done|].
  case_decide.
  - simplify_eq. exists s. split; [done|]. split; [apply not_elem_of_nil|].
    split; [done|lia].
  - destruct (find_from c s) as [k'|] eqn:E; simplify_eq/=.
    destruct (IH k' eq_refl) as (r & Hs & Hn & Hr & Hlt).
    exists r. split; [by f_equal|]. split; [by apply not_elem_of_cons|].
    split; [done|lia].
Qed.

(** The index loop computes the list split, with fuel [length s + 1]. *)
Lemma split_loop_spec fuel s start acc :
  length s - start < fuel → start ≤ length s →
  split_loop fuel c s start acc = acc ++ split_on c (drop start s).
Proof.
  revert start acc. induction fuel as [|fuel IH]; intros start acc Hf Hs; [lia|].
  simpl. rewrite decide_True by done. unfold find_byte.
  destruct (find_from c (drop start s)) as [k|] eqn:E; simpl.
  - destruct (find_from_Some _ _ E) as (r & Hd & Hn & Hr & Hlt).
    rewrite length_drop in Hlt.
    rewrite IH by lia. rewrite <- app_assoc. f_equal.
    unfold substr. replace (start + k - start) with k by lia.
    rewrite Hd, split_on_app by done. rewrite <- Hd. simpl. do 2 f_equal.
    rewrite Hr, drop_drop. f_equal. lia.
  - apply find_from_None in E. by rewrite split_on_single.
Qed.

Lemma split_loop_on s :
  split_loop (S (length s)) c s 0 [] = split_on c s.
Proof. rewrite split_loop_spec by lia. done. Qed.
End split.

Lemma drop_while_end f s :
  drop_while f s = [] ∨ ∃ b r, drop_while f s = b :: r ∧ f b = false.
Proof.
  induction s as [|b s IH]; simpl; [by left|]. destruct (f b) eqn:E; eauto.
Qed.

Lemma drop_while_suffix f s :
  ∃ p, s = p ++ drop_while f s ∧ Forall (λ b, f b = true) p.
Proof.
  induction s as [|b s (p & Hs & Hp)]; simpl; [by exists []|].
  destruct (f b) eqn:E.
  - exists (b :: p). split; [simpl; congruence|by constructor].
  - by exists [].
Qed.

(** ** Lists *)

Lemma filter_all {A} (P : A → Prop) `{!∀ x, Decision (P x)} (l : list A) : Forall P l → filter P l = l.
Proof. induction 1 as [|x l Hx _ IH]; [done|]. by rewrite filter_cons_True, IH. Qed.
Lemma split_on_cut c s1 s2 : split_on c (s1 ++ c :: s2) = split_on c s1 ++ split_on c s2.
Proof.
  induction s1 as [|b s1 IH]; cbn [app]; [by rewrite split_on_cons_sep|]. cbn [split_on].
  destruct (decide (b = c)); [by rewrite IH|]. rewrite IH.
  destruct (split_on c s1) eqn:E; [by apply split_on_ne in E|done].
Qed.

(** ** Byte-lexicographic order: [std::string::operator<] *)

Fixpoint bytes_compare (s1 s2 : bytes) : comparison :=
  match s1, s2 with
  | [], [] => Eq
  | [], _ :: _ => Lt
  | _ :: _, [] => Gt
  | a :: s1', b :: s2' =>
      match (byte_val a ?= byte_val b)%Z with
      | Eq => bytes_compare s1' s2'
      | o => o
      end
  end.

Lemma bytes_compare_eq s1 s2 : bytes_compare s1 s2 = Eq ↔ s1 = s2.
Proof.
  revert s2. induction s1 as [|a s1 IH]; intros [|b s2]; simpl; try naive_solver.
  destruct (Z.compare_spec (byte_val a) (byte_val b)) as [E|E|E].
  - apply byte_val_inj in E as ->. rewrite IH. naive_solver.
  - split; [done|]. intros [= -> ->]. lia.
  - split; [done|]. intros [= -> ->]. lia.
Qed.

Lemma bytes_compare_antisym s1 s2 : bytes_compare s2 s1 = CompOpp (bytes_compare s1 s2).
Proof.
  revert s2. induction s1 as [|a s1 IH]; intros [|b s2]; simpl; try done.
  rewrite Z.compare_antisym. by destruct (byte_val a ?= byte_val b)%Z; simpl.
Qed.

Lemma bytes_compare_lt_trans s1 s2 s3 :
  bytes_compare s1 s2 = Lt → bytes_compare s2 s3 = Lt → bytes_compare s1 s3 = Lt.
Proof.
  revert s2 s3. induction s1 as [|a s1 IH]; intros [|b s2] [|c s3]; simpl; try done.
  destruct (Z.compare_spec (byte_val a) (byte_val b)),
    (Z.compare_spec (byte_val b) (byte_val c)),
    (Z.compare_spec (byte_val a) (byte_val c)); try done; try lia; eauto.
Qed.

Definition bytes_lt (s1 s2 : bytes) : Prop := bytes_compare s1 s2 = Lt.
#[export] Instance bytes_lt_dec : RelDecision bytes_lt :=
  λ s1 s2, comparison_eq_dec (bytes_compare s1 s2) Lt.
#[export] Instance bytes_lt_trans : Transitive bytes_lt.
Proof. intros ???. apply bytes_compare_lt_trans. Qed.
#[export] Instance bytes_lt_irrefl : Irreflexive bytes_lt.
Proof.
  intros s H. unfold bytes_lt in H. pose proof (proj2 (bytes_compare_eq s s) eq_refl).
  congruence.
Qed.

Lemma bytes_trichotomy s1 s2 : bytes_lt s1 s2 ∨ s1 = s2 ∨ bytes_lt s2 s1.
Proof.
  unfold bytes_lt. rewrite (bytes_compare_antisym s1 s2).
  destruct (bytes_compare s1 s2) eqn:E; simpl; auto.
  right. left. by apply bytes_compare_eq.
Qed.

(** ** Loops that may throw *)

(** [for (const auto& a : l) f(a);] *)
Fixpoint each {A} (f : A → result unit) (l : list A) : result unit :=
  match l with [] => Ok tt | a :: l' => f a;; each f l' end.

Lemma each_Ok {A} (f : A → result unit) l u :
  each f l = Ok u ↔ Forall (λ a, f a = Ok tt) l.
Proof.
  destruct u. induction l as [|a l IH]; simpl; [naive_solver|].
  rewrite Forall_cons, <- IH. destruct (f a) as [[]|]; simpl; naive_solver.
Qed.

Lemma mapM_Ok {A B} (f : A → result B) l k :
  mapM f l = Ok k ↔ Forall2 (λ a b, f a = Ok b) l k.
Proof.
  revert k. induction l as [|a l IH]; intros k; simpl.
  - split; [by intros [= <-]|by inversion 1].
  - split.
    + intros H. inv_ok. constructor; [done|]. by apply IH.
    + inversion 1 as [|?? ? ? Ha Hl]; subst. rewrite Ha. simpl.
      apply IH in Hl. by rewrite Hl.
Qed.

(** A loop that threads a state and may throw. *)
Fixpoint fold_result {S A} (f : S → A → result S) (s : S) (l : list A) : result S :=
  match l with [] => Ok s | a :: l' => s' ← f s a; fold_result f s' l' end.

Lemma fold_result_app {S A} (f : S → A → result S) s l1 l2 :
  fold_result f s (l1 ++ l2) = s' ← fold_result f s l1; fold_result f s' l2.
Proof.
  revert s. induction l1 as [|a l1 IH]; intros s; simpl; [done|].
  destruct (f s a); simpl; auto.
Qed.

(** Text made of newline-terminated lines. *)
Definition unlines (ls : list bytes) : bytes := concat ((λ l, l ++ [newline]) <$> ls).

Lemma split_on_unlines ls :
  Forall (λ l, newline ∉ l) ls → split_on newline (unlines ls) = ls ++ [[]].
Proof.
  induction 1 as [|l ls Hl Hls IH]; [done|].
  unfold unlines in *. cbn [fmap list_fmap concat]. rewrite <- (assoc_L (++)). cbn [app].
  by rewrite split_on_app, IH.
Qed.
