(* ===== verification/CppMap.v ===== *)
(** * [std::map<std::string, std::string>] and [std::to_string]

    The maps of the runtime (environments) are iterated in key order by the
    serializer and by the environment builders, so a map is an association list
    kept strictly sorted by key, with the operations of [std::map] the sources
    use: [operator[]] assignment, [find], [at], [count] and initializer lists.
    The file also holds the number printers ([std::to_string], [std::hex]). *)

From S2P Require Import Prelude.

Abbreviation smap := (list (bytes * bytes)).

Definition key_lt : relation (bytes * bytes) := λ p q, bytes_lt p.1 q.1.
#[export] Instance key_lt_dec : RelDecision key_lt := λ p q, bytes_lt_dec p.1 q.1.
#[export] Instance key_lt_trans : Transitive key_lt.
Proof. intros ???. unfold key_lt. apply bytes_lt_trans. Qed.

(** The representation invariant: strictly increasing keys. *)
Abbreviation smap_wf := (StronglySorted key_lt).

Fixpoint smap_find (k : bytes) (m : smap) : option bytes :=
  match m with
  | [] => None
  | (k', v) :: m' => if decide (k = k') then Some v else smap_find k m'
  end.

(** [m[k] = v] *)
Fixpoint smap_set (k v : bytes) (m : smap) : smap :=
  match m with
  | [] => [(k, v)]
  | (k', v') :: m' =>
      match bytes_compare k k' with
      | Lt => (k, v) :: m
      | Eq => (k, v) :: m'
      | Gt => (k', v') :: smap_set k v m'
      end
  end.

(** [std::map m = {{k, v}, ...}]: an equal key already present wins. *)
Definition smap_emplace (k v : bytes) (m : smap) : smap :=
  match smap_find k m with Some _ => m | None => smap_set k v m end.
Definition smap_of (l : list (bytes * bytes)) : smap :=
  foldl (λ m p, smap_emplace p.1 p.2 m) [] l.

(** [m.at(k)]: throws [std::out_of_range]. *)
Definition smap_at (k : bytes) (m : smap) : result bytes :=
  match smap_find k m with Some v => Ok v | None => Throw "map::at" end.

Lemma smap_set_keys k v m p :
  p ∈ smap_set k v m → p = (k, v) ∨ p ∈ m.
Proof.
  induction m as [|[k' v'] m IH]; simpl.
  - rewrite list_elem_of_singleton. auto.
  - destruct (bytes_compare k k'); rewrite !elem_of_cons; tauto.
Qed.

Lemma smap_set_wf k v m : smap_wf m → smap_wf (smap_set k v m).
Proof.
  induction 1 as [|[k' v'] m Hm IH Hall]; simpl.
  - repeat constructor.
  - destruct (bytes_compare k k') eqn:E.
    + apply bytes_compare_eq in E as ->. by constructor.
    + constructor; [by constructor|]. constructor; [done|].
      eapply Forall_impl; [exact Hall|]. intros q Hq.
      unfold key_lt in *; simpl in *. etrans; [exact E|exact Hq].
    + constructor; [done|]. apply Forall_forall. intros q Hq.
      apply smap_set_keys in Hq as [->|Hq].
      * unfold key_lt, bytes_lt; simpl. rewrite bytes_compare_antisym, E. done.
      * by eapply Forall_forall in Hall.
Qed.

Lemma smap_find_set_eq k v m : smap_find k (smap_set k v m) = Some v.
Proof.
  induction m as [|[k' v'] m IH]; simpl.
  - by rewrite decide_True.
  - destruct (bytes_compare k k') eqn:E; simpl; [by rewrite decide_True..|].
    rewrite decide_False; [done|]. intros ->.
    pose proof (proj2 (bytes_compare_eq k' k') eq_refl). congruence.
Qed.

Lemma smap_find_set_ne k k2 v m :
  k2 ≠ k → smap_find k2 (smap_set k v m) = smap_find k2 m.
Proof.
  intros Hne. induction m as [|[k' v'] m IH]; simpl.
  - by rewrite decide_False.
  - destruct (bytes_compare k k') eqn:E; simpl.
    + apply bytes_compare_eq in E as <-. by rewrite !decide_False.
    + by rewrite (decide_False (P := k2 = k)).
    + by rewrite IH.
Qed.

(** Assigning a key above all others appends: this is why re-inserting a
    sorted listing rebuilds it unchanged. *)
Lemma smap_set_last k v m :
  Forall (λ p, bytes_lt p.1 k) m → smap_set k v m = m ++ [(k, v)].
Proof.
  induction 1 as [|[k' v'] m Hk Hm IH]; simpl in *; [done|].
  unfold bytes_lt in Hk. rewrite bytes_compare_antisym, Hk; simpl. by rewrite IH.
Qed.

Lemma foldl_smap_set m0 m :
  smap_wf (m0 ++ m) →
  foldl (λ a p, smap_set p.1 p.2 a) m0 m = m0 ++ m.
Proof.
  revert m0. induction m as [|[k v] m IH]; intros m0 Hwf; simpl.
  - by rewrite app_nil_r.
  - rewrite smap_set_last.
    + rewrite IH; rewrite <- (assoc_L (++)); [done|exact Hwf].
    + clear IH. induction m0 as [|p m0 IH]; [constructor|].
      simpl in Hwf. inversion Hwf as [|?? Hw Hall]; subst. constructor; [|auto].
      apply Forall_app in Hall as [_ Hall]. by inversion Hall.
Qed.

(** ** Printing numbers *)

Definition digit (d : Z) : byte :=
  if (d <? 10)%Z then byte_of (48 + d) else byte_of (87 + d).
Definition upper_digit (d : Z) : byte :=
  if (d <? 10)%Z then byte_of (48 + d) else byte_of (55 + d).

Fixpoint digits (fuel : nat) (base n : Z) (acc : bytes) : bytes :=
  match fuel with
  | 0 => acc
  | S fuel =>
      let acc := digit (n mod base) :: acc in
      if (n <? base)%Z then acc else digits fuel base (n / base) acc
  end.

(** Fuel: a number below [2^k] has at most [k] digits in any base. *)
Definition print_nat (base n : Z) : bytes := digits (S (Z.to_nat (Z.log2 n))) base n [].

(** [std::to_string] and [out << int] *)
Definition to_string (n : Z) : bytes :=
  if (n <? 0)%Z then "-" ++ print_nat 10 (- n) else print_nat 10 n.
Definition size_string (n : nat) : bytes := to_string (Z.of_nat n).
(** [out << std::hex << v] *)
Definition to_hex (n : Z) : bytes := print_nat 16 n.
(** [std::setfill('0') << std::setw(w)] *)
Definition pad0 (w : nat) (s : bytes) : bytes :=
  replicate (w - length s) "0"%byte ++ s.

Example to_string_ex : to_string 48000 = "48000" ∧ to_string (-7) = "-7" ∧
  to_hex 0xff0 = "ff0" ∧ to_string 0 = "0".
Proof. done. Qed.

(** A number below [10^k] has at most [k] digits. *)
Lemma digits_le k fuel n acc :
  (0 < k)%nat → (0 ≤ n < 10 ^ Z.of_nat k)%Z → (length (digits fuel 10 n acc) ≤ k + length acc)%nat.
Proof.
  revert fuel n acc. induction k as [|k IH]; intros [|fuel] n acc Hk Hn; cbn [digits]; try lia.
  destruct (n <? 10)%Z eqn:E; [simpl; lia|].
  destruct k as [|k]; [cbn in Hn; lia|]. etrans; [apply IH; [lia|]|cbn [length]; lia].
  rewrite Nat2Z.inj_succ, Z.pow_succ_r in Hn by lia. pose proof (Z.div_lt_upper_bound n 10 (10 ^ Z.of_nat (S k))).
  pose proof (Z.div_pos n 10). lia.
Qed.

#[export] Hint Resolve smap_set_wf : cpp.
#[export] Hint Rewrite smap_find_set_eq : cpp.
