(* ===== verification/Bytes.v ===== *)
(** * Fixed-width little-endian integers in byte buffers

    The wire protocols, the rings and the ELF structures store unsigned
    integers little-endian ([memcpy] on the AArch64 and x86 targets).  The file
    holds the encoder, the decoder, their round trips, and the unsigned
    wrap-around of the fixed-width types. *)

From S2P Require Import Prelude.
Open Scope Z_scope.

(** Unsigned arithmetic wraps. *)
Definition u8 (z : Z) : Z := z mod 2 ^ 8.
Definition u16 (z : Z) : Z := z mod 2 ^ 16.
Definition u32 (z : Z) : Z := z mod 2 ^ 32.
Definition u64 (z : Z) : Z := z mod 2 ^ 64.
(** [static_cast<int64_t>] of an unsigned value. *)
Definition s64 (z : Z) : Z := if u64 z <? 2 ^ 63 then u64 z else u64 z - 2 ^ 64.
Definition s32 (z : Z) : Z := if u32 z <? 2 ^ 31 then u32 z else u32 z - 2 ^ 32.

Lemma u32_range z : 0 ≤ u32 z < 2 ^ 32.
Proof. apply Z.mod_pos_bound. lia. Qed.
Lemma u64_range z : 0 ≤ u64 z < 2 ^ 64.
Proof. apply Z.mod_pos_bound. lia. Qed.
Lemma u32_small z : 0 ≤ z < 2 ^ 32 → u32 z = z.
Proof. apply Z.mod_small. Qed.
Lemma u64_small z : 0 ≤ z < 2 ^ 64 → u64 z = z.
Proof. apply Z.mod_small. Qed.
Lemma s64_small z : 0 ≤ z < 2 ^ 63 → s64 z = z.
Proof. intros Hz. unfold s64. rewrite u64_small by lia. case_match; lia. Qed.

(** The high and the low part of a word put together again. *)
Lemma lor_shiftl_mod v k : 0 ≤ k → Z.lor (Z.shiftl (Z.shiftr v k) k) (v mod 2 ^ k) = v.
Proof.
  intros Hk. apply Z.bits_inj'. intros n Hn. rewrite Z.lor_spec, Z.shiftl_spec by done.
  destruct (Z.lt_ge_cases n k).
  - rewrite Z.testbit_neg_r by lia. by rewrite Z.mod_pow2_bits_low by lia.
  - rewrite Z.shiftr_spec, Z.mod_pow2_bits_high, orb_false_r by lia. f_equal. lia.
Qed.

Lemma lor_shiftl_add x y k : 0 ≤ k → 0 ≤ y < 2 ^ k → Z.lor (Z.shiftl x k) y = x * 2 ^ k + y.
Proof.
  intros Hk Hy. pose proof (lor_shiftl_mod (x * 2 ^ k + y) k Hk) as H.
  rewrite Z.shiftr_div_pow2, Z.div_add_l, Z.div_small, Z.add_0_r in H by lia.
  by rewrite Z.add_comm, Z.mod_add, Z.mod_small, Z.add_comm in H by lia.
Qed.

(** A byte string given by its values. *)
Definition bytes_of (l : list Z) : bytes := byte_of <$> l.
Lemma byte_of_eq z b : z mod 256 = byte_val b → byte_of z = b.
Proof. intros H. apply byte_val_inj. by rewrite byte_val_of. Qed.

(** The value of a little-endian byte string, and its encoding on [n] bytes. *)
Fixpoint le_val (s : bytes) : Z :=
  match s with [] => 0 | b :: s' => byte_val b + 256 * le_val s' end.
Fixpoint le_bytes (n : nat) (z : Z) : bytes :=
  match n with O => [] | S n' => byte_of z :: le_bytes n' (z / 256) end.

Lemma le_bytes_length n z : length (le_bytes n z) = n.
Proof. revert z. induction n as [|n IH]; intros z; simpl; auto. Qed.

Lemma le_val_bytes n z : le_val (le_bytes n z) = z mod 256 ^ Z.of_nat n.
Proof.
  revert z. induction n as [|n IH]; intros z.
  - simpl. by rewrite Z.mod_1_r.
  - cbn [le_bytes le_val]. rewrite byte_val_of, IH.
    rewrite Nat2Z.inj_succ, Z.pow_succ_r by lia.
    rewrite (Z.rem_mul_r z 256) by lia. lia.
Qed.

Lemma le_val_range s : 0 ≤ le_val s < 256 ^ Z.of_nat (length s).
Proof.
  induction s as [|b s IH]; cbn [le_val length]; [lia|].
  rewrite Nat2Z.inj_succ, Z.pow_succ_r by lia. pose proof (byte_val_range b). nia.
Qed.

Lemma le_bytes_val s : le_bytes (length s) (le_val s) = s.
Proof.
  induction s as [|b s IH]; [done|]. cbn [le_val length le_bytes].
  pose proof (byte_val_range b) as Hb. f_equal.
  - apply byte_val_inj. rewrite byte_val_of.
    rewrite Z.add_mod, Z.mul_mod, Z.mod_same, Z.mul_0_l by lia.
    rewrite Z.mod_0_l, Z.add_0_r, Z.mod_mod by lia. by apply Z.mod_small.
  - rewrite (Z.mul_comm 256), Z.div_add, Z.div_small by lia. simpl. apply IH.
Qed.

Lemma le_val4 z : 0 ≤ z < 2 ^ 32 → le_val (le_bytes 4 z) = z.
Proof. intros Hz. rewrite le_val_bytes. by apply Z.mod_small. Qed.
Lemma le_val8 z : 0 ≤ z < 2 ^ 64 → le_val (le_bytes 8 z) = z.
Proof. intros Hz. rewrite le_val_bytes. by apply Z.mod_small. Qed.
Lemma le_val2 z : 0 ≤ z < 2 ^ 16 → le_val (le_bytes 2 z) = z.
Proof. intros Hz. rewrite le_val_bytes. by apply Z.mod_small. Qed.

(** The little-endian field of [n] bytes at byte offset [off] of a structure. *)
Definition field (off n : nat) (s : bytes) : Z := le_val (take n (drop off s)).

Lemma field_range off n s : 0 ≤ field off n s < 256 ^ Z.of_nat n.
Proof.
  unfold field. pose proof (le_val_range (take n (drop off s))) as H.
  rewrite length_take in H. split; [lia|].
  eapply Z.lt_le_trans; [apply H|]. apply Z.pow_le_mono_r; lia.
Qed.

Lemma find_from_app_sep c s r : c ∉ s → find_from c (s ++ c :: r) = Some (length s).
Proof.
  induction s as [|b s IH]; intros Hs; cbn [app find_from length].
  - by rewrite decide_True.
  - apply not_elem_of_cons in Hs as [Hb Hs]. rewrite decide_False by done. by rewrite IH.
Qed.

(** ** Big-endian numbers *)

Definition be_bytes (n : nat) (z : Z) : bytes := reverse (le_bytes n z).
Definition be_num (s : bytes) : Z := le_val (reverse s).
Lemma be_bytes_length n z : length (be_bytes n z) = n.
Proof. unfold be_bytes. by rewrite length_reverse, le_bytes_length. Qed.
Lemma be_num_range s : 0 ≤ be_num s < 256 ^ Z.of_nat (length s).
Proof. unfold be_num. rewrite <- length_reverse. apply le_val_range. Qed.
Lemma be_bytes_num s : be_bytes (length s) (be_num s) = s.
Proof.
  unfold be_bytes, be_num. rewrite <- (length_reverse s), le_bytes_val. apply reverse_involutive.
Qed.
Lemma be_num_bytes n z : 0 ≤ z < 256 ^ Z.of_nat n → be_num (be_bytes n z) = z.
Proof.
  intros Hz. unfold be_num, be_bytes. rewrite reverse_involutive, le_val_bytes.
  by apply Z.mod_small.
Qed.
Lemma le_val_snoc s b : le_val (s ++ [b]) = le_val s + 256 ^ Z.of_nat (length s) * byte_val b.
Proof.
  induction s as [|c s IH]; cbn [app le_val length]; [lia|].
  rewrite IH, Nat2Z.inj_succ, Z.pow_succ_r by lia. lia.
Qed.
Lemma be_num_cons b s : be_num (b :: s) = byte_val b * 256 ^ Z.of_nat (length s) + be_num s.
Proof. unfold be_num. rewrite reverse_cons, le_val_snoc, length_reverse. lia. Qed.
(** The usual reading loop. *)
Lemma be_num_fold s v :
  foldl (λ v b, v * 256 + byte_val b) v s = v * 256 ^ Z.of_nat (length s) + be_num s.
Proof.
  revert v. induction s as [|b s IH]; intros v; cbn [foldl].
  - change (be_num []) with 0. cbn. lia.
  - rewrite IH, be_num_cons. cbn [length]. rewrite Nat2Z.inj_succ, Z.pow_succ_r by lia. lia.
Qed.

#[export] Hint Rewrite le_bytes_length : cpp.
Close Scope Z_scope.
