(* ===== verification/HostFs.v ===== *)
(** * The file system calls of the runtime

    [open], [pread], [read] and [stat] belong to the kernel: a [Host] is a
    parameter of the definitions that call them.  A successful [open] is modelled
    by the contents behind the descriptor.  [host_pread t c off n] answers the
    [t]-th read of the run: the kernel may return fewer bytes than asked and may
    be interrupted, and the answer may change from call to call.  [HostLaws] is
    what pread(2) documents and the code relies on. *)

From S2P Require Import Prelude CppMap Bytes.

Inductive read_answer := RData (d : bytes) | RErr (errno : Z).

(** What the code reads off [struct stat]. *)
Record file_stat := mk_stat { st_isreg : bool; st_size : Z }.

Record Host := mk_host {
  host_open : bytes → Z + bytes;
  host_pread : nat → bytes → Z → nat → read_answer;
  host_stat : bytes → Z + file_stat;
  strerror : Z → bytes;
  getuid : Z;
  getgid : Z;
}.

Definition EINTR : Z := 4.

(** [action failed errno=E message=M] *)
Definition errno_message (H : Host) (errno : Z) (action : bytes) : bytes :=
  action ++ " failed errno=" ++ to_string errno ++ " message=" ++ strerror H errno.

(** Data returned by a read is a prefix of the file from the offset, non-empty
    unless the offset is past the end; a file on a working device only fails
    with EINTR or on a negative offset; at most [retries] interruptions come in
    a row. *)
Record HostLaws (H : Host) (retries : nat) : Prop := {
  pread_data : ∀ t c off n d, host_pread H t c off n = RData d →
    (0 ≤ off)%Z ∧ length d ≤ n ∧ d `prefix_of` drop (Z.to_nat off) c;
  pread_eof : ∀ t c off n, 0 < n → host_pread H t c off n = RData [] →
    (Z.of_nat (length c) ≤ off)%Z;
  pread_err : ∀ t c off n e, host_pread H t c off n = RErr e → e = EINTR ∨ (off < 0)%Z;
  pread_fair : ∀ t c off n,
    ∃ k, k ≤ retries ∧ host_pread H (t + k) c off n ≠ RErr EINTR ∧
         ∀ j, j < k → host_pread H (t + j) c off n = RErr EINTR;
  open_size : ∀ p c, host_open H p = inr c → (Z.of_nat (length c) < 2 ^ 63)%Z;
}.

(** ** Reading: computations that consume kernel answers

    [None] is a loop that has not finished within its fuel. *)
Definition io (A : Type) : Type := nat → option (A * nat).
#[export] Instance io_ret : MRet io := λ A a t, Some (a, t).
#[export] Instance io_bind : MBind io := λ A B f m t,
  match m t with Some (a, t') => f a t' | None => None end.

(** A kernel that answers every read in full. *)
Definition plain_pread (_ : nat) (c : bytes) (off : Z) (n : nat) : read_answer :=
  if (off <? 0)%Z then RErr 22 else RData (take n (drop (Z.to_nat off) c)).

(** A kernel that is interrupted on every third call and returns at most 24
    bytes per read: it satisfies the laws. *)
Definition choppy_pread (t : nat) (c : bytes) (off : Z) (n : nat) : read_answer :=
  if decide (t mod 3 = 0) then RErr EINTR
  else if (off <? 0)%Z then RErr 22
  else RData (take (n `min` 24) (drop (Z.to_nat off) c)).

Definition choppy_host (files : bytes → Z + bytes) : Host :=
  mk_host files choppy_pread
    (λ p, match files p with
          | inl e => inl e
          | inr c => inr (mk_stat true (Z.of_nat (length c)))
          end)
    (λ _, "error") 10123 10123.

Lemma choppy_laws files :
  (∀ p c, files p = inr c → (Z.of_nat (length c) < 2 ^ 63)%Z) →
  HostLaws (choppy_host files) 1.
Proof.
  intros Hsize. split; cbn [host_pread host_open choppy_host]; [..|exact Hsize];
    unfold choppy_pread; intros t c off n.
  - intros d H. case_decide; [done|]. destruct (off <? 0)%Z eqn:E; [done|].
    injection H as <-. split; [lia|]. split; [rewrite length_take; lia|apply prefix_take].
  - intros Hn H. case_decide; [done|]. destruct (off <? 0)%Z eqn:E; [done|].
    injection H as H. apply (f_equal length) in H.
    rewrite length_take, length_drop in H. cbn [length] in H. lia.
  - intros e H. case_decide; [left; congruence|]. destruct (off <? 0)%Z eqn:E; [|done].
    right. lia.
  - destruct (decide (t mod 3 = 0)) as [Ht|Ht].
    + exists 1. split; [lia|]. rewrite decide_False.
      * split; [by destruct (off <? 0)%Z|]. intros j Hj. replace (t + j) with t by lia.
        by rewrite decide_True.
      * rewrite Nat.Div0.add_mod, Ht. done.
    + exists 0. split; [lia|]. rewrite Nat.add_0_r, decide_False by done.
      split; [by destruct (off <? 0)%Z|]. intros j Hj. lia.
Qed.
