(* ===== verification/PathSpec.v ===== *)
(** * Lexical guest paths: the specification both path rules implement

    A guest path is read as its list of '/'-separated components.  [canon]
    resolves ".", ".." and empty components with ".." clamped at the root;
    [render] prints an absolute path.  [alr_path.cpp] and [alr_path_rule.h]
    implement this with different machinery; the lemmas here are what the
    equivalence, confinement and idempotence theorems share. *)

From S2P Require Import Prelude.

Definition dot : bytes := ".".
Definition dotdot : bytes := "..".

(** A component that survives normalization. *)
Definition plain (c : bytes) : Prop :=
  c ≠ [] ∧ c ≠ dot ∧ c ≠ dotdot ∧ slash ∉ c.

(** One component against the stack of kept ones (the back of the vector is
    the head of the list). *)
Definition push_component (stack : list bytes) (c : bytes) : list bytes :=
  if decide (c = [] ∨ c = dot) then stack
  else if decide (c = dotdot) then match stack with [] => [] | _ :: s => s end
  else c :: stack.

Definition canon_from (stack : list bytes) (cs : list bytes) : list bytes :=
  foldl push_component stack cs.

(** Canonical components of a path, outermost first. *)
Definition canon (p : bytes) : list bytes := reverse (canon_from [] (split_on slash p)).

Definition render (cs : list bytes) : bytes :=
  match cs with [] => "/" | _ => concat ((λ c, slash :: c) <$> cs) end.

(** The lexical normal form of an absolute path. *)
Definition lexical (p : bytes) : bytes := render (canon p).

Lemma push_plain stack c : plain c → push_component stack c = c :: stack.
Proof.
  intros (H1 & H2 & H3 & _). unfold push_component.
  rewrite decide_False by tauto. by rewrite decide_False.
Qed.

Lemma push_component_plain stack c :
  slash ∉ c → Forall plain stack → Forall plain (push_component stack c).
Proof.
  intros Hc Hs. unfold push_component. repeat case_decide; auto.
  - destruct Hs; auto.
  - constructor; [|done]. unfold plain. tauto.
Qed.

Lemma canon_from_plain stack cs :
  Forall (λ c, slash ∉ c) cs → Forall plain stack → Forall plain (canon_from stack cs).
Proof.
  revert stack. induction cs as [|c cs IH]; intros stack Hcs Hs; simpl; [done|].
  inversion Hcs; subst. apply IH; [done|]. by apply push_component_plain.
Qed.

Lemma canon_plain p : Forall plain (canon p).
Proof.
  apply Forall_reverse, canon_from_plain; [apply split_on_no_sep|constructor].
Qed.

Lemma canon_from_id stack cs :
  Forall plain cs → canon_from stack cs = reverse cs ++ stack.
Proof.
  revert stack. induction cs as [|c cs IH]; intros stack Hcs; simpl; [done|].
  inversion Hcs; subst. rewrite push_plain, IH by done.
  by rewrite reverse_cons, <- (assoc_L (++)).
Qed.

Lemma plain_no_slash cs : Forall plain cs → Forall (λ c, slash ∉ c) cs.
Proof. intros H. eapply Forall_impl; [exact H|]. unfold plain. tauto. Qed.

Lemma concat_slash c cs :
  concat ((λ c, slash :: c) <$> (c :: cs)) = slash :: join_on slash (c :: cs).
Proof.
  revert c. induction cs as [|c' cs IH]; intros c; simpl.
  - by rewrite app_nil_r.
  - specialize (IH c'). simpl in IH. by rewrite IH.
Qed.

(** Every absolute string is a slash followed by its joined components. *)
Lemma absolute_join p :
  starts_slash p = true →
  ∃ cs, cs ≠ [] ∧ Forall (λ c, slash ∉ c) cs ∧
        p = slash :: join_on slash cs ∧ split_on slash p = [] :: cs.
Proof.
  destruct p as [|b p]; [done|]. simpl. intros Hb%bool_decide_eq_true. subst b.
  exists (split_on slash p). split; [apply split_on_ne|].
  split; [apply split_on_no_sep|]. rewrite join_on_split. split; [done|].
  by rewrite decide_True.
Qed.

Lemma canon_from_nil stack cs : canon_from stack ([] :: cs) = canon_from stack cs.
Proof. done. Qed.

(** Rendering plain components is a section of [canon]. *)
Lemma canon_render cs : Forall plain cs → canon (render cs) = cs.
Proof.
  intros Hcs. unfold canon, render. destruct cs as [|c cs]; [done|].
  rewrite concat_slash, split_on_cons_sep, canon_from_nil, split_on_join;
    [|done|by apply plain_no_slash].
  by rewrite canon_from_id, app_nil_r, reverse_involutive.
Qed.

Lemma lexical_idempotent p : lexical (lexical p) = lexical p.
Proof. unfold lexical. by rewrite canon_render by apply canon_plain. Qed.

Lemma render_absolute cs : starts_slash (render cs) = true.
Proof. by destruct cs. Qed.

Lemma render_inj cs1 cs2 :
  Forall plain cs1 → Forall plain cs2 → render cs1 = render cs2 → cs1 = cs2.
Proof.
  intros H1 H2 H. rewrite <- (canon_render cs1), <- (canon_render cs2) by done.
  by rewrite H.
Qed.

(** A path whose components are all plain is its own normal form. *)
Lemma lexical_plain cs :
  cs ≠ [] → Forall plain cs →
  lexical (slash :: join_on slash cs) = slash :: join_on slash cs.
Proof.
  intros Hne Hcs. destruct cs as [|c cs]; [done|].
  rewrite <- concat_slash. change (concat _) with (render (c :: cs)).
  unfold lexical. by rewrite canon_render.
Qed.

Lemma push_component_nul stack c b :
  b ∉ c → Forall (λ d, b ∉ d) stack → Forall (λ d, b ∉ d) (push_component stack c).
Proof.
  intros. unfold push_component. repeat case_decide; auto.
  by destruct stack; [|eapply Forall_cons_1].
Qed.

(** Normalizing introduces no byte but '/'. *)
Lemma lexical_bytes p b : b ≠ slash → b ∉ p → b ∉ lexical p.
Proof.
  intros Hb Hp.
  assert (Hs : Forall (λ d, b ∉ d) (split_on slash p)).
  { induction p as [|x p IH]; simpl; [by repeat constructor; apply not_elem_of_nil|].
    apply not_elem_of_cons in Hp as [Hx Hp]. specialize (IH Hp).
    case_decide; [by constructor; [apply not_elem_of_nil|]|].
    destruct (split_on slash p); inversion IH; subst; repeat constructor; auto;
      apply not_elem_of_cons; auto using not_elem_of_nil. }
  assert (Hc : Forall (λ d, b ∉ d) (canon p)).
  { apply Forall_reverse. unfold canon_from. revert Hs.
    generalize (split_on slash p). intros cs.
    assert (Hst : Forall (λ d, b ∉ d) (@nil bytes)) by constructor.
    revert Hst. generalize (@nil bytes).
    induction cs as [|c cs IH]; intros st Hst Hcs; simpl; [done|].
    inversion Hcs; subst. apply IH; [by apply push_component_nul|done]. }
  unfold lexical, render. destruct (canon p) as [|c cs].
  - by intros [->|H%not_elem_of_nil]%elem_of_cons.
  - intros Hin%list_elem_of_In. apply in_concat in Hin as (d & Hin & Hd).
    apply list_elem_of_In in Hin, Hd.
    apply list_elem_of_fmap in Hin as (c' & -> & Hin).
    apply elem_of_cons in Hd as [->|Hd]; [done|].
    rewrite Forall_forall in Hc. by apply (Hc c').
Qed.
