(* ===== verification/PathRule.v ===== *)
(** * [runtime/alr/src/common/alr_path_rule.h]

    The guest-to-host path rule, in the buffer-and-stack form of the C header.
    A [const char *p] is the bytes before its terminating NUL; reading the
    terminator is reading past the end of the list.  A pointer result is
    [RwSame] when the C function returns its argument, [RwBuf b] when it
    returns [buf] holding [b], and [RwErr e] when it returns NULL with [*err]. *)

From S2P Require Import Prelude PathSpec.

Definition ALR_PBUF : nat := 4096.
Definition ALR_MAX_DEPTH : nat := 128.

Inductive alr_error := ALR_E_TOOLONG | ALR_E_DEPTH.

(** Component-boundary prefix test. *)
Definition alr_path_under (p prefix : bytes) : bool :=
  match prefix with
  | [] => false
  | _ => is_prefix prefix p &&
         match drop (length prefix) p with
         | [] => true
         | c :: _ => bool_decide (c = slash)
         end
  end.

Definition alr_is_sysdir (p : bytes) : bool :=
  alr_path_under p "/proc" || alr_path_under p "/sys" || alr_path_under p "/dev".

(** What the pre-scan sees after a '/': the end or a '/' closes the component. *)
Definition at_end (s : bytes) : bool :=
  match s with [] => true | c :: _ => bool_decide (c = slash) end.

(** The scan [for (s = p; *s; s++)]; [first] is [s == p]. *)
Fixpoint alr_needs_normalize_from (first : bool) (s : bytes) : bool :=
  match s with
  | [] => false
  | b :: s1 =>
      if decide (b = slash) then
        match s1 with
        | [] => negb first
        | b1 :: s2 =>
            if decide (b1 = slash) then true
            else if decide (b1 = "."%byte) then
              if at_end s2 then true
              else match s2 with
                   | b2 :: s3 =>
                       if bool_decide (b2 = "."%byte) && at_end s3 then true
                       else alr_needs_normalize_from false s1
                   | [] => alr_needs_normalize_from false s1
                   end
            else alr_needs_normalize_from false s1
        end
      else alr_needs_normalize_from false s1
  end.
Definition alr_needs_normalize (p : bytes) : bool := alr_needs_normalize_from true p.

(** [while ( *s && *s != '/' ) s++]: the component and what follows it. *)
Fixpoint take_component (s : bytes) : bytes * bytes :=
  match s with
  | [] => ([], [])
  | b :: s' =>
      if decide (b = slash) then ([], s)
      else let '(c, r) := take_component s' in (b :: c, r)
  end.

(** The normalizer loop. [out] is [out[0..o)]; [stack] holds the rewind
    offsets, innermost first, so [depth = length stack]. *)
Fixpoint alr_normalize_loop (fuel : nat) (s out : bytes) (stack : list nat)
    (outsz : nat) : option bytes :=
  match fuel with
  | 0 => None
  | S fuel =>
      match drop_while (λ b, bool_decide (b = slash)) s with
      | [] => Some out
      | s1 =>
          let '(comp, rest) := take_component s1 in
          if decide (comp = dot) then alr_normalize_loop fuel rest out stack outsz
          else if decide (comp = dotdot) then
            match stack with
            | o :: stack' => alr_normalize_loop fuel rest (take o out) stack' outsz
            | [] => alr_normalize_loop fuel rest out stack outsz
            end
          else if decide (ALR_MAX_DEPTH ≤ length stack) then None
          else
            let stack' := length out :: stack in
            if decide (1 < length out) then
              if decide (outsz ≤ length out + 1) then None
              else
                let out1 := out ++ [slash] in
                if decide (outsz ≤ length out1 + length comp) then None
                else alr_normalize_loop fuel rest (out1 ++ comp) stack' outsz
            else
              if decide (outsz ≤ length out + length comp) then None
              else alr_normalize_loop fuel rest (out ++ comp) stack' outsz
      end
  end.

(** [Some out] is the C return value 1; the fuel is the path length plus one,
    and every iteration consumes at least one byte. *)
Definition alr_normalize_guest_abs (p : bytes) (outsz : nat) : option bytes :=
  if decide (outsz < 2) then None
  else alr_normalize_loop (S (length p)) p [slash] [] outsz.

Inductive rw_result :=
| RwSame
| RwBuf (b : bytes)
| RwErr (e : alr_error).

(** [alr_rw(p, root, root_len, buf, bufsz, &err)] for a non-NULL [p]. *)
Definition alr_rw (p root : bytes) (bufsz : nat) : rw_result :=
  if negb (starts_slash p) then RwSame
  else if bool_decide (root = []) then RwSame
  else
    let prefixed (q : bytes) (unchanged : rw_result) : rw_result :=
      if alr_is_sysdir q then unchanged
      else if alr_path_under q root then unchanged
      else if bool_decide (q = [slash]) then
        if decide (bufsz < length root + 1) then RwErr ALR_E_TOOLONG else RwBuf root
      else if decide (bufsz < length root + length q + 1) then RwErr ALR_E_TOOLONG
      else RwBuf (root ++ q) in
    if alr_needs_normalize p then
      match alr_normalize_guest_abs p bufsz with
      | None => RwErr ALR_E_TOOLONG
      | Some q => prefixed q (RwBuf q)
      end
    else prefixed p RwSame.

(** The string the returned pointer denotes. *)
Definition rw_string (p : bytes) (r : rw_result) : option bytes :=
  match r with RwSame => Some p | RwBuf b => Some b | RwErr _ => None end.

(** [alr_guest_canon(h, root, root_len, buf, bufsz)], as the returned string. *)
Definition alr_guest_canon (h root : bytes) (bufsz : nat) : bytes :=
  if bool_decide (root = []) then h
  else if negb (alr_path_under h root) then h
  else
    let n := length h - length root in
    if decide (n = 0) then if decide (bufsz < 2) then h else [slash]
    else if decide (bufsz < n + 1) then h
    else drop (length root) h.

Definition alr_trim_root (root : bytes) : bytes :=
  match root with
  | [] => []
  | c :: r => c :: trim_end (λ b, bool_decide (b = slash)) r
  end.

(** ** The pre-scan decides normality *)

Lemma needs_skip c r :
  slash ∉ c → alr_needs_normalize_from false (c ++ r) = alr_needs_normalize_from false r.
Proof.
  induction c as [|b c IH]; intros Hc; [done|].
  apply not_elem_of_cons in Hc as [Hb Hc]. simpl. rewrite decide_False by done. auto.
Qed.

Lemma at_end_cons b s : b ≠ slash → at_end (b :: s) = false.
Proof. intros. simpl. by apply bool_decide_eq_false. Qed.

Lemma needs_component c r first :
  slash ∉ c → c ≠ [] → at_end r = true →
  alr_needs_normalize_from first (slash :: c ++ r) =
  bool_decide (c = dot ∨ c = dotdot) || alr_needs_normalize_from false r.
Proof.
  intros Hc Hne Hr. rewrite <- (needs_skip c r) by done.
  destruct c as [|b1 c]; [done|]. apply not_elem_of_cons in Hc as [Hb1 Hc].
  assert (Hrest : alr_needs_normalize_from false ((b1 :: c) ++ r) =
                  alr_needs_normalize_from false (c ++ r)).
  { simpl. by rewrite decide_False. }
  rewrite Hrest. simpl.
  rewrite (decide_False (P := b1 = slash)) by done.
  rewrite (decide_False (P := b1 = slash)) by done.
  case_decide as Hd.
  - subst b1. destruct c as [|b2 c].
    + simpl. by rewrite Hr.
    + apply not_elem_of_cons in Hc as [Hb2 Hc].
      change ((b2 :: c) ++ r) with (b2 :: (c ++ r)). rewrite at_end_cons by done.
      destruct (decide (b2 = "."%byte)) as [->|Hd2].
      * rewrite bool_decide_eq_true_2 by done. destruct c as [|b3 c]; simpl.
        -- by rewrite Hr.
        -- apply not_elem_of_cons in Hc as [Hb3 Hc].
           rewrite (bool_decide_eq_false_2 (b3 = slash)) by done.
           done.
      * rewrite (bool_decide_eq_false_2 (b2 = "."%byte)) by done. simpl.
        rewrite bool_decide_eq_false_2; [done|].
        cbv; intros [?|?]; simplify_eq.
  - rewrite bool_decide_eq_false_2; [done|]. cbv; intros [?|?]; simplify_eq.
Qed.

Lemma needs_normalize_plain cs first :
  cs ≠ [] → Forall (λ c, slash ∉ c) cs →
  alr_needs_normalize_from first (slash :: join_on slash cs) = false →
  (first = true ∧ cs = [[]]) ∨ Forall plain cs.
Proof.
  revert first. induction cs as [|c cs IH]; intros first Hne Hcs Hf; [done|].
  apply Forall_cons in Hcs as [Hc Hcs].
  destruct (decide (c = [])) as [->|Hcne].
  { destruct cs as [|c' cs]; simpl in Hf.
    - destruct first; [by left|done].
    - done. }
  right. destruct cs as [|c' cs].
  - change (join_on slash [c]) with c in Hf.
    rewrite <- (app_nil_r c), needs_component in Hf by done.
    apply orb_false_iff in Hf as [Hf _]. apply bool_decide_eq_false in Hf.
    repeat constructor; tauto.
  - change (join_on slash (c :: c' :: cs))
      with (c ++ slash :: join_on slash (c' :: cs)) in Hf.
    rewrite needs_component in Hf; [|done|done|by apply bool_decide_eq_true].
    apply orb_false_iff in Hf as [Hf Hrec]. apply bool_decide_eq_false in Hf.
    constructor; [unfold plain; tauto|].
    destruct (IH false) as [[? _]|?]; done.
Qed.

Lemma needs_normalize_false_plain cs first :
  cs ≠ [] → Forall plain cs →
  alr_needs_normalize_from first (slash :: join_on slash cs) = false.
Proof.
  revert first. induction cs as [|c cs IH]; intros first Hne Hcs; [done|].
  apply Forall_cons in Hcs as [Hc Hcs]. destruct Hc as (H1 & H2 & H3 & H4).
  destruct cs as [|c' cs].
  - change (join_on slash [c]) with c.
    rewrite <- (app_nil_r c), needs_component by done.
    rewrite bool_decide_eq_false_2 by tauto. done.
  - change (join_on slash (c :: c' :: cs)) with (c ++ slash :: join_on slash (c' :: cs)).
    rewrite needs_component; [|done|done|by apply bool_decide_eq_true].
    rewrite bool_decide_eq_false_2 by tauto. by apply IH.
Qed.

(** The fast path is taken exactly on the paths normalization leaves alone. *)
Lemma needs_normalize_iff p :
  starts_slash p = true → alr_needs_normalize p = false ↔ lexical p = p.
Proof.
  intros Hp. destruct (absolute_join p Hp) as (cs & Hne & Hcs & -> & Hsp).
  unfold alr_needs_normalize. split.
  - intros Hf. apply needs_normalize_plain in Hf as [[_ ->]|Hpl]; [done| |done|done].
    by apply lexical_plain.
  - intros Hl. assert (Hr : render (canon (slash :: join_on slash cs)) =
      slash :: join_on slash cs) by done.
    pose proof (canon_plain (slash :: join_on slash cs)) as Hpl.
    destruct (canon (slash :: join_on slash cs)) as [|d ds] eqn:E.
    + unfold render in Hr. by rewrite <- Hr.
    + unfold render in Hr. rewrite concat_slash in Hr. rewrite <- Hr.
      by apply needs_normalize_false_plain.
Qed.

(** ** The buffer normalizer computes the lexical normal form *)

Lemma take_component_spec s c r :
  take_component s = (c, r) → s = c ++ r ∧ (slash ∉ c) ∧ at_end r = true.
Proof.
  revert c r. induction s as [|b s IH]; simpl; intros c r H.
  - simplify_eq. split; [done|]. split; [apply not_elem_of_nil|done].
  - case_decide as Hb; simplify_eq.
    + split; [done|]. split; [apply not_elem_of_nil|]. by apply bool_decide_eq_true.
    + destruct (take_component s) as [c' r'] eqn:E; simplify_eq.
      destruct (IH c' r eq_refl) as (-> & Hc & Hr).
      split; [done|]. split; [|done]. by apply not_elem_of_cons.
Qed.

Lemma canon_from_component st c r :
  slash ∉ c → at_end r = true →
  canon_from st (split_on slash (c ++ r)) =
  canon_from (push_component st c) (split_on slash r).
Proof.
  intros Hc Hr. destruct r as [|b r].
  - by rewrite app_nil_r, split_on_single.
  - simpl in Hr. apply bool_decide_eq_true in Hr. subst b.
    by rewrite split_on_app, split_on_cons_sep.
Qed.

Lemma drop_slashes st s s1 :
  drop_while (λ b, bool_decide (b = slash)) s = s1 →
  canon_from st (split_on slash s) = canon_from st (split_on slash s1) ∧
  length s1 ≤ length s.
Proof.
  intros <-. induction s as [|b s [IH Hl]]; [done|]. simpl drop_while.
  destruct (bool_decide (b = slash)) eqn:E; [|done].
  apply bool_decide_eq_true in E. subst b. rewrite split_on_cons_sep.
  split; [exact IH|simpl; lia].
Qed.

Lemma drop_slashes_head s b s1 :
  drop_while (λ b, bool_decide (b = slash)) s = b :: s1 → b ≠ slash.
Proof.
  intros H. destruct (drop_while_end (λ b, bool_decide (b = slash)) s)
    as [E|(b' & r & E & Hb)]; [congruence|].
  rewrite E in H. simplify_eq. by apply bool_decide_eq_false in Hb.
Qed.

(** The rewind offsets are the buffer lengths before each kept component. *)
Inductive stack_ok : list bytes → list nat → Prop :=
| stack_ok_nil : stack_ok [] []
| stack_ok_cons c st offs :
    stack_ok st offs →
    stack_ok (c :: st) (length (render (reverse st)) :: offs).

Lemma render_snoc st c :
  render (reverse (c :: st)) =
  match st with [] => slash :: c | _ => render (reverse st) ++ slash :: c end.
Proof.
  rewrite reverse_cons. destruct st as [|d st]; simpl; [by rewrite app_nil_r|].
  rewrite reverse_cons. unfold render.
  destruct (reverse st ++ [d]) as [|x xs] eqn:E; [by destruct (reverse st)|].
  change (((x :: xs) ++ [c])) with (x :: (xs ++ [c])).
  change (x :: (xs ++ [c])) with ((x :: xs) ++ [c]).
  rewrite fmap_app, concat_app. simpl. by rewrite app_nil_r.
Qed.

Lemma take_render st c :
  take (length (render (reverse st))) (render (reverse (c :: st))) = render (reverse st).
Proof.
  rewrite render_snoc. destruct st as [|d st]; [done|]. by rewrite take_app_length.
Qed.

Lemma stack_ok_length st offs : stack_ok st offs → length offs = length st.
Proof. induction 1; simpl; congruence. Qed.

Lemma render_length st :
  Forall plain st → (1 < length (render (reverse st)) ↔ st ≠ []).
Proof.
  intros Hpl. destruct st as [|c st]; [simpl; split; [lia|done]|].
  apply Forall_cons in Hpl as [(Hc & _) _]. rewrite render_snoc.
  split; [done|intros _]. destruct c; [done|].
  destruct st; rewrite ?length_app; simpl; lia.
Qed.

Section normalize.
Context (outsz : nat).

Lemma normalize_loop_sound fuel s st offs res :
  Forall plain st → stack_ok st offs →
  alr_normalize_loop fuel s (render (reverse st)) offs outsz = Some res →
  res = render (reverse (canon_from st (split_on slash s))).
Proof.
  revert s st offs. induction fuel as [|fuel IH]; intros s st offs Hpl Hok Hres; [done|].
  cbn [alr_normalize_loop] in Hres. destruct (drop_while _ s) as [|b s1] eqn:Es.
  { apply (drop_slashes st) in Es as [-> _]. by simplify_eq. }
  apply (drop_slashes st) in Es as Hs. destruct Hs as [-> _].
  destruct (take_component (b :: s1)) as [c r] eqn:Ec.
  apply take_component_spec in Ec as Hc. destruct Hc as (Hsplit & Hnc & Hr).
  rewrite Hsplit, canon_from_component by done.
  assert (Hpc := push_component_plain st c Hnc Hpl).
  assert (Hcne : c ≠ []).
  { intros ->. apply drop_slashes_head in Es. simpl in Hsplit. subst r.
    simpl in Hr. by apply bool_decide_eq_true in Hr. }
  unfold push_component in *.
  destruct (decide (c = dot)) as [->|Hd].
  { rewrite decide_True in * by auto. eauto. }
  rewrite (decide_False (P := _ ∨ _)) in * by tauto.
  destruct (decide (c = dotdot)) as [->|Hdd].
  { inversion Hok; subst; [eapply (IH r []); eauto using stack_ok|].
    rewrite take_render in Hres. eapply IH; eauto. }
  destruct (decide (ALR_MAX_DEPTH ≤ _)) as [|Hdep]; [done|].
  assert (Hok' : stack_ok (c :: st) (length (render (reverse st)) :: offs))
    by by constructor.
  pose proof (render_length st Hpl) as Hlen.
  eapply (IH r (c :: st)); [done|exact Hok'|]. rewrite render_snoc, <- Hres.
  destruct (decide (1 < _)) as [Hl|Hl]; repeat (case_decide; [done|]).
  - apply Hlen in Hl. destruct st; [done|]. by rewrite <- (assoc_L (++)).
  - destruct st as [|d st]; [done|]. by destruct Hl; apply Hlen.
Qed.

(** What the rest of the path still needs in the buffer: every component
    after the first brings its own '/'. *)
Definition fits (st : list bytes) (s : bytes) : Prop :=
  length (render (reverse st)) + length s < outsz + (if decide (st = []) then 1 else 0) ∧
  length st + length (split_on slash s) ≤ ALR_MAX_DEPTH + 1.

Lemma split_on_component c r :
  slash ∉ c → at_end r = true →
  length (split_on slash (c ++ r)) = length (split_on slash r).
Proof.
  intros Hc Hr. destruct r as [|b r].
  - by rewrite app_nil_r, split_on_single.
  - simpl in Hr. apply bool_decide_eq_true in Hr. subst b.
    by rewrite split_on_app, split_on_cons_sep.
Qed.

Lemma drop_slashes_length s s1 :
  drop_while (λ b, bool_decide (b = slash)) s = s1 → at_end s = true →
  s1 = [] ∨ (length s1 < length s ∧ length (split_on slash s1) < length (split_on slash s)).
Proof.
  intros <- Hs. destruct s as [|b s]; [by left|]. simpl in Hs.
  apply bool_decide_eq_true in Hs. subst b. right. rewrite split_on_cons_sep.
  simpl. clear. induction s as [|b s IH]; [simpl; lia|]. simpl drop_while.
  destruct (bool_decide (b = slash)) eqn:E; [|simpl; lia].
  apply bool_decide_eq_true in E. subst b. rewrite split_on_cons_sep. simpl in *. lia.
Qed.

Lemma normalize_loop_complete fuel s st offs :
  Forall plain st → stack_ok st offs → at_end s = true →
  length s < fuel → fits st s →
  is_Some (alr_normalize_loop fuel s (render (reverse st)) offs outsz).
Proof.
  revert s st offs. induction fuel as [|fuel IH];
    intros s st offs Hpl Hok Hs Hf [Hlen Hdep]; [lia|].
  cbn [alr_normalize_loop]. destruct (drop_while _ s) as [|b s1] eqn:Es; [by eexists|].
  apply drop_slashes_length in Es as Hs1; [|done].
  destruct Hs1 as [?|[Hl1 Hd1]]; [done|].
  destruct (take_component (b :: s1)) as [c r] eqn:Ec.
  apply take_component_spec in Ec as (Hsplit & Hnc & Hr).
  rewrite Hsplit in Hl1, Hd1. rewrite length_app in Hl1.
  rewrite split_on_component in Hd1 by done.
  assert (Hpc := push_component_plain st c Hnc Hpl).
  assert (Hcne : c ≠ []).
  { intros ->. apply drop_slashes_head in Es. simpl in Hsplit. subst r.
    simpl in Hr. by apply bool_decide_eq_true in Hr. }
  destruct c as [|c0 c]; [done|]. cbn [length] in Hl1.
  unfold push_component in *.
  destruct (decide (c0 :: c = dot)) as [Hd|Hd].
  { apply IH; auto; [lia|]. split; lia. }
  rewrite (decide_False (P := _ ∨ _)) in * by (intros [?|?]; done).
  destruct (decide (c0 :: c = dotdot)) as [Hdd|Hdd].
  { inversion Hok as [|d st' offs']; subst.
    - apply (IH r [] []); auto using stack_ok; [lia|]. split; [|simpl in *; lia].
      rewrite decide_True in * by done. lia.
    - rewrite take_render. apply IH; auto; [lia|]. split; [|simpl in *; lia].
      pose proof (f_equal length (take_render st' d)) as Ht.
      rewrite length_take in Ht. rewrite decide_False in Hlen by done. lia. }
  assert (Hr1 : 1 ≤ length (split_on slash r)).
  { pose proof (split_on_ne slash r). destruct (split_on slash r); simpl; [done|lia]. }
  rewrite (decide_False (P := ALR_MAX_DEPTH ≤ _))
    by (rewrite (stack_ok_length _ _ Hok); lia).
  assert (Hok' : stack_ok ((c0 :: c) :: st) (length (render (reverse st)) :: offs))
    by by constructor.
  pose proof (render_length st Hpl) as Hrl.
  assert (Hout : length (render (reverse ((c0 :: c) :: st))) =
    length (render (reverse st)) + (if decide (st = []) then 0 else 1) + S (length c)).
  { rewrite render_snoc. destruct st; [done|].
    rewrite decide_False by done. rewrite length_app. simpl. lia. }
  assert (Hfit : fits ((c0 :: c) :: st) r).
  { split; [|cbn [length]; lia]. rewrite Hout, (decide_False (P := _ :: _ = [])) by done.
    case_decide; lia. }
  assert (Hrec := IH r ((c0 :: c) :: st) _ Hpc Hok' Hr ltac:(lia) Hfit).
  destruct Hfit as [Hfit _]. rewrite Hout in Hfit.
  rewrite (decide_False (P := _ :: _ = [])) in Hfit by done.
  rewrite render_snoc in Hrec.
  destruct (decide (1 < _)) as [Hl|Hl].
  - apply Hrl in Hl. rewrite (decide_False (P := st = [])) in Hfit by done.
    rewrite !decide_False by (rewrite ?length_app; simpl; lia).
    destruct st; [done|]. by rewrite <- (assoc_L (++)).
  - destruct st as [|d st]; [|by destruct Hl; apply Hrl].
    rewrite decide_True in Hfit by done.
    rewrite decide_False by (simpl in *; lia). done.
Qed.
End normalize.

(** ** The rewrite rule *)

(** Where a guest path lives on the host: the kernel's virtual filesystems and
    paths already under the rootfs are left alone, the guest root is the rootfs
    itself, everything else is prefixed.  The decision is made on the lexical
    normal form. *)
Definition host_spec (root p : bytes) : bytes :=
  let q := lexical p in
  if alr_is_sysdir q || alr_path_under q root then q
  else if decide (q = [slash]) then root
  else root ++ q.

Lemma path_under_spec p prefix :
  alr_path_under p prefix = true ↔
  prefix ≠ [] ∧ ∃ r, p = prefix ++ r ∧ at_end r = true.
Proof.
  destruct prefix as [|b prefix]; [simpl; naive_solver|].
  unfold alr_path_under. rewrite andb_true_iff, is_prefix_spec.
  split.
  - intros [[r ->] H]. split; [done|]. exists r. split; [done|].
    by rewrite drop_app_length in H.
  - intros [_ (r & -> & Hr)]. split; [by eexists|]. by rewrite drop_app_length.
Qed.

Lemma normalize_guest_abs_sound p outsz q :
  alr_normalize_guest_abs p outsz = Some q → q = lexical p.
Proof.
  unfold alr_normalize_guest_abs. case_decide; [done|]. intros Hq.
  change [slash] with (render (reverse [])) in Hq.
  apply normalize_loop_sound in Hq; [|constructor|constructor]. done.
Qed.

Lemma normalize_guest_abs_complete p outsz :
  starts_slash p = true → length p < outsz →
  length (split_on slash p) ≤ S ALR_MAX_DEPTH →
  alr_normalize_guest_abs p outsz = Some (lexical p).
Proof.
  intros Hp Hlen Hdep. unfold alr_normalize_guest_abs.
  assert (1 ≤ length p) by (destruct p; simpl; [done|lia]).
  rewrite decide_False by lia.
  destruct (normalize_loop_complete outsz (S (length p)) p [] []) as [q Hq].
  - constructor.
  - constructor.
  - by destruct p.
  - lia.
  - split; [rewrite decide_True by done; simpl; lia|simpl length; lia].
  - change [slash] with (render (reverse [])). rewrite Hq. f_equal.
    eapply normalize_loop_sound; eauto; constructor.
Qed.

Lemma host_spec_rw p root bufsz h :
  starts_slash p = true → root ≠ [] →
  rw_string p (alr_rw p root bufsz) = Some h → h = host_spec root p.
Proof.
  intros Hp Hroot. unfold alr_rw. rewrite Hp, bool_decide_eq_false_2 by done. cbn [negb].
  assert (Hq : ∀ q res, lexical p = q → rw_string p res = Some q →
    rw_string p (if alr_is_sysdir q then res
      else if alr_path_under q root then res
      else if bool_decide (q = [slash])
        then if decide (bufsz < length root + 1) then RwErr ALR_E_TOOLONG else RwBuf root
      else if decide (bufsz < length root + length q + 1)
        then RwErr ALR_E_TOOLONG else RwBuf (root ++ q)) = Some h →
    h = host_spec root p).
  { intros q res Hlex Hres. unfold host_spec. rewrite Hlex.
    destruct (alr_is_sysdir q); simpl; [congruence|].
    destruct (alr_path_under q root); simpl; [congruence|].
    destruct (decide (q = [slash])) as [->|Hne].
    - rewrite bool_decide_eq_true_2 by done. case_decide; simpl; congruence.
    - rewrite bool_decide_eq_false_2 by done. case_decide; simpl; congruence. }
  destruct (alr_needs_normalize p) eqn:E.
  - destruct (alr_normalize_guest_abs p bufsz) as [q|] eqn:En; [|done].
    apply normalize_guest_abs_sound in En as ->. by apply Hq.
  - apply needs_normalize_iff in E; [|done]. by apply Hq.
Qed.

Lemma alr_rw_fits p root bufsz :
  starts_slash p = true → root ≠ [] → length p < bufsz →
  length (split_on slash p) ≤ S ALR_MAX_DEPTH →
  length root + length (lexical p) + 1 ≤ bufsz →
  rw_string p (alr_rw p root bufsz) = Some (host_spec root p).
Proof.
  intros Hp Hroot Hlen Hdep Hbuf.
  destruct (rw_string p (alr_rw p root bufsz)) as [h|] eqn:E;
    [by erewrite <- host_spec_rw|].
  exfalso. revert E. unfold alr_rw.
  rewrite Hp, bool_decide_eq_false_2, normalize_guest_abs_complete by done. cbn [negb].
  destruct (alr_needs_normalize p) eqn:En.
  - repeat case_match; done || (intros _; simpl in *; lia).
  - apply needs_normalize_iff in En; [|done]. rewrite En in Hbuf.
    repeat case_match; done || (intros _; simpl in *; lia).
Qed.

Lemma lexical_app root p :
  lexical root = root → root ≠ [slash] → lexical p ≠ [slash] →
  lexical (root ++ lexical p) = root ++ lexical p.
Proof.
  intros Hr Hrne Hpne. pose proof (canon_plain root) as Hrp.
  pose proof (canon_plain p) as Hpp. unfold lexical in Hr, Hpne |- *.
  destruct (canon root) as [|r rs] eqn:Er; [by destruct Hrne|].
  destruct (canon p) as [|q qs] eqn:Eq; [done|].
  assert (E : root ++ render (q :: qs) = render ((r :: rs) ++ (q :: qs))).
  { rewrite <- Hr. unfold render at 1 2. cbn [app]. unfold render.
    change (r :: rs ++ q :: qs) with ((r :: rs) ++ (q :: qs)).
    by rewrite fmap_app, concat_app. }
  by rewrite E, canon_render by by apply Forall_app.
Qed.

(** ** Properties *)

(** The C normalizer, with its output buffer and rewind stack, computes the
    lexical normal form whenever it succeeds, and it succeeds on every path
    that is shorter than the buffer and has at most [ALR_MAX_DEPTH]
    components: so its fuel suffices and the guards reject nothing else. *)
Theorem alr_normalize_guest_abs_correct p outsz :
  starts_slash p = true →
  (∀ q, alr_normalize_guest_abs p outsz = Some q → q = lexical p) ∧
  (length p < outsz → length (split_on slash p) ≤ S ALR_MAX_DEPTH →
   alr_normalize_guest_abs p outsz = Some (lexical p)).
Proof.
  intros Hp. split; [intros q; apply normalize_guest_abs_sound|].
  by apply normalize_guest_abs_complete.
Qed.

Lemma alr_normalize_guest_abs_correct_witness :
  alr_normalize_guest_abs "/usr/./lib//../bin/../../../etc/x/" 4096 = Some ("/etc/x" : bytes).
Proof.
  rewrite (proj2 (alr_normalize_guest_abs_correct
    "/usr/./lib//../bin/../../../etc/x/" 4096 eq_refl)); [done|vm_compute; lia|vm_compute; lia].
Defined.

(** The pre-scan that skips the normalizer is exact: it answers 0 on an
    absolute path if and only if normalization would not change that path. *)
Theorem alr_needs_normalize_exact p :
  starts_slash p = true → (alr_needs_normalize p = false ↔ lexical p = p).
Proof. apply needs_normalize_iff. Qed.

Lemma alr_needs_normalize_exact_witness :
  alr_needs_normalize "/usr/.config" = false ∧ alr_needs_normalize "/a/.." ≠ false.
Proof.
  split; [by apply (alr_needs_normalize_exact "/usr/.config")|].
  by rewrite (alr_needs_normalize_exact "/a/..").
Defined.

(** C2. [alr_rw] refines the rewrite specification: any string it returns for an
    absolute path is [host_spec], i.e. the sysdir and already-under-root tests
    see the normalized path, and it returns one whenever the path, its depth
    and the prefixed result fit. *)
Theorem alr_rw_refines p root bufsz :
  starts_slash p = true → root ≠ [] →
  (∀ h, rw_string p (alr_rw p root bufsz) = Some h → h = host_spec root p) ∧
  (length p < bufsz → length (split_on slash p) ≤ S ALR_MAX_DEPTH →
   length root + length (lexical p) + 1 ≤ bufsz →
   rw_string p (alr_rw p root bufsz) = Some (host_spec root p)).
Proof.
  intros Hp Hr. split; [intros h; by apply host_spec_rw|by apply alr_rw_fits].
Qed.

Lemma alr_rw_refines_witness :
  rw_string "/proc/../etc/passwd" (alr_rw "/proc/../etc/passwd" "/r" ALR_PBUF)
  = Some ("/r/etc/passwd" : bytes).
Proof.
  rewrite (proj2 (alr_rw_refines "/proc/../etc/passwd" "/r" ALR_PBUF eq_refl
    ltac:(done))); [done|vm_compute; lia..].
Defined.

(** Rewriting is idempotent for a normalized rootfs other than "/": a host path
    handed back to the rule is not prefixed a second time. *)
Theorem host_rewrite_idempotent root p :
  lexical root = root → root ≠ [slash] → root ≠ [] →
  host_spec root (host_spec root p) = host_spec root p.
Proof.
  intros Hr Hrs Hrne.
  assert (Hfix : ∀ h, lexical h = h →
    alr_is_sysdir h || alr_path_under h root = true → host_spec root h = h).
  { intros h Hh Ht. unfold host_spec. by rewrite Hh, Ht. }
  unfold host_spec at 2 3. case_match eqn:E.
  - apply Hfix; [apply lexical_idempotent|done].
  - case_decide as Hq.
    + apply Hfix; [done|]. apply orb_true_iff; right. apply path_under_spec.
      split; [done|]. exists []. by rewrite app_nil_r.
    + apply Hfix; [by apply lexical_app|].
      apply orb_true_iff; right. apply path_under_spec. split; [done|].
      exists (lexical p). split; [done|]. unfold lexical.
      pose proof (render_absolute (canon p)). by destruct (render (canon p)).
Qed.

Lemma host_rewrite_idempotent_witness :
  host_spec "/r" (host_spec "/r" "/etc/os-release") = ("/r/etc/os-release" : bytes).
Proof. by rewrite (host_rewrite_idempotent "/r" "/etc/os-release"). Defined.

(** [alr_guest_canon] undoes the rewrite: mapping a guest path into the rootfs
    and its host path back yields the normalized guest path, for every path
    the rule redirects and a buffer that holds it. *)
Theorem guest_canon_rewrite root p bufsz :
  root ≠ [] → alr_is_sysdir (lexical p) = false →
  alr_path_under (lexical p) root = false →
  2 ≤ bufsz → length (lexical p) < bufsz →
  alr_guest_canon (host_spec root p) root bufsz = lexical p.
Proof.
  intros Hr Hsys Hund H2 Hb. unfold host_spec. rewrite Hsys, Hund. cbn [orb].
  unfold alr_guest_canon. rewrite bool_decide_eq_false_2 by done.
  assert (Hin : ∀ q, at_end q = true → alr_path_under (root ++ q) root = true).
  { intros q Hq. apply path_under_spec. eauto. }
  case_decide as Hq.
  - rewrite <- (app_nil_r root) at 1. rewrite Hin by done. cbn [negb].
    rewrite decide_True by lia. rewrite decide_False by lia. done.
  - rewrite Hin; cbn [negb].
    + rewrite length_app.
      assert (length (lexical p) ≠ 0).
      { unfold lexical. pose proof (render_absolute (canon p)).
        destruct (render (canon p)); simpl in *; [done|lia]. }
      rewrite decide_False by lia. rewrite decide_False by lia.
      by rewrite drop_app_length.
    + unfold lexical. pose proof (render_absolute (canon p)).
      by destruct (render (canon p)).
Qed.

Lemma guest_canon_rewrite_witness :
  alr_guest_canon (host_spec "/r" "/usr/../bin/sh") "/r" ALR_PBUF = ("/bin/sh" : bytes).
Proof.
  rewrite (guest_canon_rewrite "/r" "/usr/../bin/sh"); [done..|vm_compute; lia|vm_compute; lia].
Defined.
