(* ===== verification/GuestPath.v ===== *)
(** * [alr_runtime/alr_path.cpp]: guest path normalization and translation

    [normalize_guest_path] works on [std::string_view] components;
    [translate_rootfs_path] delegates the host rewrite to the shared C rule of
    PathRule.v through a 4096-byte buffer, and falls back to plain prefixing
    when the rule reports an overflow. *)

From S2P Require Import Prelude PathSpec PathRule.

Record PathTranslation := mk_translation {
  guest_path : bytes;
  host_path : bytes;
  escaped_rootfs : bool;
}.

Definition reject_nul (value : bytes) (name : bytes) : result unit :=
  throw_if (has_byte nul value) (name ++ " must not contain NUL bytes").

(** [out.size() > 1 && out.back() == '/'] guards every [pop_back]. *)
Definition trim_trailing_slashes (path : bytes) : bytes :=
  match path with
  | [] => []
  | c :: r => c :: trim_end (λ b, bool_decide (b = slash)) r
  end.

(** The loop over [path.find('/', pos)] feeding a vector of views; the vector
    is kept back first, as in [PathSpec.push_component]. *)
Definition append_components (components : list bytes) (path : bytes) : list bytes :=
  foldl (λ cs component,
    if decide (component = [] ∨ component = ".") then cs
    else if decide (component = "..") then
      match cs with [] => [] | _ :: cs' => cs' end
    else component :: cs)
  components (split_loop (S (length path)) slash path 0 []).

Definition components_to_absolute_path (components : list bytes) : bytes :=
  match components with
  | [] => "/"
  | _ => foldl (λ out component, out ++ "/" ++ component) [] (reverse components)
  end.

Definition is_guest_absolute_path (path : bytes) : bool := starts_slash path.

Definition normalize_guest_path (path cwd : bytes) : result bytes :=
  reject_nul path "path";;
  reject_nul cwd "cwd";;
  throw_if (negb (is_guest_absolute_path cwd)) "cwd must be an absolute guest path";;
  mret (components_to_absolute_path
    (if is_guest_absolute_path path then append_components [] path
     else append_components (append_components [] cwd) path)).

Definition translate_rootfs_path (rootfs_dir cwd path : bytes) : result PathTranslation :=
  reject_nul rootfs_dir "rootfs_dir";;
  throw_if (negb (is_guest_absolute_path rootfs_dir))
    "rootfs_dir must be an absolute host path";;
  let rootfs := trim_trailing_slashes rootfs_dir in
  guest ← normalize_guest_path path cwd;
  let host :=
    match rw_string guest (alr_rw guest rootfs 4096) with
    | None => if decide (guest = "/") then rootfs else rootfs ++ guest
    | Some rewritten => rewritten
    end in
  mret (mk_translation guest host false).

(** ** Link with the lexical specification *)

Lemma append_components_canon cs p :
  append_components cs p = canon_from cs (split_on slash p).
Proof. unfold append_components. by rewrite split_loop_on. Qed.

Lemma components_to_absolute_path_render cs :
  components_to_absolute_path cs = render (reverse cs).
Proof.
  unfold components_to_absolute_path, render. destruct cs as [|c cs]; [done|].
  assert (E : ∀ l acc, foldl (λ out component, out ++ "/" ++ component) acc l =
    acc ++ concat ((λ c, slash :: c) <$> l)).
  { induction l as [|x l IH]; intros acc; simpl; [by rewrite app_nil_r|].
    rewrite IH, <- (assoc_L (++)). done. }
  rewrite E. cbn [app]. destruct (reverse (c :: cs)) eqn:Er; [|done].
  by apply (f_equal length) in Er; rewrite length_reverse in Er.
Qed.

(** What [normalize_guest_path] means: the path itself when absolute, the path
    appended to the working directory otherwise. *)
Definition resolved (path cwd : bytes) : bytes :=
  if starts_slash path then path else cwd ++ slash :: path.

Lemma split_on_app_sep c s1 s2 :
  split_on c (s1 ++ c :: s2) = split_on c s1 ++ split_on c s2.
Proof.
  induction s1 as [|b s1 IH]; simpl; [by rewrite decide_True|].
  rewrite IH. case_decide; [done|].
  destruct (split_on c s1) eqn:E; [by destruct (split_on_ne c s1)|done].
Qed.

Lemma canon_from_app st cs1 cs2 :
  canon_from st (cs1 ++ cs2) = canon_from (canon_from st cs1) cs2.
Proof. apply foldl_app. Qed.

Lemma normalize_lexical path cwd q :
  normalize_guest_path path cwd = Ok q ↔
  no_nul path ∧ no_nul cwd ∧ starts_slash cwd = true ∧ q = lexical (resolved path cwd).
Proof.
  unfold normalize_guest_path, reject_nul, throw_if, is_guest_absolute_path.
  destruct (has_byte nul path) eqn:Ep.
  { simpl. split; [done|]. intros (H%has_byte_false & _). congruence. }
  destruct (has_byte nul cwd) eqn:Ec.
  { simpl. split; [done|]. intros (_ & H%has_byte_false & _). congruence. }
  apply has_byte_false in Ep, Ec. destruct (starts_slash cwd) eqn:Es; simpl.
  2: { split; [done|]. intros (_ & _ & H & _). congruence. }
  unfold resolved, lexical, canon. destruct (starts_slash path);
    rewrite !append_components_canon, components_to_absolute_path_render;
    rewrite ?split_on_app_sep, ?canon_from_app;
    (split; [by intros [= <-]|by intros (_ & _ & _ & ->)]).
Qed.

Lemma resolved_absolute path cwd :
  starts_slash cwd = true → starts_slash (resolved path cwd) = true.
Proof. unfold resolved. intros. case_match; [done|]. by destruct cwd. Qed.

Lemma normalize_absolute p q :
  starts_slash p = true → normalize_guest_path p "/" = Ok q → q = lexical p.
Proof.
  intros Hp Hq. apply normalize_lexical in Hq as (_ & _ & _ & ->).
  unfold resolved. by rewrite Hp.
Qed.

Lemma translate_Ok rootfs_dir cwd path t :
  translate_rootfs_path rootfs_dir cwd path = Ok t →
  no_nul rootfs_dir ∧ starts_slash rootfs_dir = true ∧
  normalize_guest_path path cwd = Ok (guest_path t) ∧
  lexical (guest_path t) = guest_path t ∧
  starts_slash (guest_path t) = true ∧
  (host_path t = host_spec (trim_trailing_slashes rootfs_dir) (guest_path t) ∨
   host_path t = if decide (guest_path t = "/") then trim_trailing_slashes rootfs_dir
                 else trim_trailing_slashes rootfs_dir ++ guest_path t).
Proof.
  unfold translate_rootfs_path, reject_nul. intros H. inv_ok. cbn [guest_path host_path].
  match goal with Hn : normalize_guest_path _ _ = Ok _ |- _ =>
    rewrite Hn; apply normalize_lexical in Hn as (_ & _ & Hcwd & ->) end.
  split; [by apply has_byte_false|]. split; [done|]. split; [done|].
  split; [apply lexical_idempotent|]. split; [apply render_absolute|].
  destruct (rw_string _ _) as [h|] eqn:Er; [left|by right].
  apply host_spec_rw in Er; [done|apply render_absolute|].
  by destruct rootfs_dir.
Qed.

(** The relative path below a directory made of the given components. *)
Definition subpath (cs : list bytes) : bytes := concat ((λ c, slash :: c) <$> cs).

Lemma render_subpath cs : cs ≠ [] → render cs = subpath cs.
Proof. by destruct cs. Qed.

(** Cutting a normal path at a component boundary leaves plain components. *)
Lemma normal_suffix_plain root p r :
  root ≠ [] → lexical p = p → p = root ++ r → at_end r = true →
  ∃ cs, Forall plain cs ∧ r = subpath cs.
Proof.
  intros Hroot Hp -> Hr. destruct r as [|b r]; [by exists []|].
  simpl in Hr. apply bool_decide_eq_true in Hr. subst b.
  pose proof (canon_plain (root ++ slash :: r)) as Hpl. unfold lexical in Hp.
  destruct (canon (root ++ slash :: r)) as [|g gs].
  { simpl in Hp. destruct root as [|b [|b' root]]; done. }
  unfold render in Hp. rewrite concat_slash in Hp.
  apply (f_equal (split_on slash)) in Hp.
  rewrite split_on_cons_sep, split_on_join, split_on_app_sep in Hp;
    [|done|by apply plain_no_slash].
  exists (split_on slash r). split.
  - destruct (split_on slash root) as [|x xs] eqn:E; [by destruct (split_on_ne slash root)|].
    injection Hp as _ Hp. rewrite Hp in Hpl. by apply Forall_app in Hpl as [_ Hpl].
  - unfold subpath. destruct (split_on slash r) eqn:E; [by destruct (split_on_ne slash r)|].
    by rewrite concat_slash, <- E, join_on_split.
Qed.

Lemma translate_host_cases rootfs_dir cwd path t :
  translate_rootfs_path rootfs_dir cwd path = Ok t →
  let root := trim_trailing_slashes rootfs_dir in
  alr_is_sysdir (host_path t) = true ∧ host_path t = guest_path t ∨
  ∃ cs, Forall plain cs ∧ host_path t = root ++ subpath cs.
Proof.
  intros (_ & Hs & _ & Hlex & Habs & Hh)%translate_Ok root.
  assert (Hroot : root ≠ []) by (subst root; by destruct rootfs_dir).
  assert (Hpre : guest_path t ≠ [slash] →
    ∃ cs, Forall plain cs ∧ root ++ guest_path t = root ++ subpath cs).
  { intros Hne. exists (canon (guest_path t)). split; [apply canon_plain|].
    rewrite <- Hlex at 1. unfold lexical. rewrite render_subpath; [done|].
    intros E. apply Hne. rewrite <- Hlex. unfold lexical. by rewrite E. }
  destruct Hh as [Hh|Hh]; fold root in Hh.
  - unfold host_spec in Hh. rewrite Hlex in Hh.
    destruct (alr_is_sysdir (guest_path t)) eqn:Es; simpl in Hh;
      [left; by rewrite Hh|right].
    destruct (alr_path_under (guest_path t) root) eqn:Eu.
    + apply path_under_spec in Eu as (_ & r & Hg & Hr).
      destruct (normal_suffix_plain root (guest_path t) r Hroot Hlex Hg Hr) as (cs & ? & ->).
      exists cs. by rewrite Hh, Hg.
    + case_decide as Hq; [|rewrite Hh; by apply Hpre].
      exists []. rewrite Hh. split; [constructor|by rewrite app_nil_r].
  - right. case_decide as Hq; [|rewrite Hh; by apply Hpre].
    exists []. rewrite Hh. split; [constructor|by rewrite app_nil_r].
Qed.

(** ** Properties *)

(** [normalize_guest_path] throws exactly on a NUL byte in either argument or a
    relative working directory; otherwise the result is the rendering of plain
    components (absolute, no empty, "." or ".." component, no trailing slash),
    and normalizing it again from any valid working directory changes nothing. *)
Theorem normalize_guest_path_canonical path cwd :
  (is_ok (normalize_guest_path path cwd) = true ↔
   no_nul path ∧ no_nul cwd ∧ is_guest_absolute_path cwd = true) ∧
  ∀ q, normalize_guest_path path cwd = Ok q →
    (∃ cs, Forall plain cs ∧ q = render cs) ∧
    normalize_guest_path q cwd = Ok q.
Proof.
  split.
  - split.
    + destruct (normalize_guest_path path cwd) as [q|] eqn:E; [|done].
      apply normalize_lexical in E. tauto.
    + intros (H1 & H2 & H3).
      by rewrite (proj2 (normalize_lexical path cwd (lexical (resolved path cwd)))).
  - intros q Hq. apply normalize_lexical in Hq as (H1 & H2 & H3 & ->). split.
    + exists (canon (resolved path cwd)). split; [apply canon_plain|done].
    + apply normalize_lexical. split.
      { apply lexical_bytes; [done|]. unfold resolved.
        case_match; [done|]. rewrite elem_of_app, elem_of_cons. naive_solver. }
      split; [done|]. split; [done|]. unfold resolved at 2.
      assert (Ha : starts_slash (lexical (resolved path cwd)) = true)
        by apply render_absolute.
      by rewrite Ha, lexical_idempotent.
Qed.

(** C1. Rootfs confinement: every translated path is either a kernel virtual
    filesystem path (/proc, /sys, /dev), unchanged, or the rootfs followed by
    plain components: no ".." of the input can name anything outside the
    rootfs, whatever the input, including on the over-long-path fallback. *)
Theorem translate_confined rootfs_dir cwd path t :
  translate_rootfs_path rootfs_dir cwd path = Ok t →
  (alr_is_sysdir (host_path t) = true ∧ host_path t = guest_path t) ∨
  (∃ cs, Forall plain cs ∧
         host_path t = trim_trailing_slashes rootfs_dir ++ subpath cs).
Proof. apply translate_host_cases. Qed.

Lemma translate_confined_witness :
  ∃ t, translate_rootfs_path "/data/rootfs/" "/home" "../../../etc//passwd" = Ok t ∧
    host_path t = "/data/rootfs/etc/passwd" ∧
    ((alr_is_sysdir (host_path t) = true ∧ host_path t = guest_path t) ∨
     (∃ cs, Forall plain cs ∧
         host_path t = trim_trailing_slashes "/data/rootfs/" ++ subpath cs)).
Proof.
  eexists. split; [vm_compute; reflexivity|]. split; [vm_compute; reflexivity|].
  apply (translate_confined "/data/rootfs/" "/home" "../../../etc//passwd").
  vm_compute. reflexivity.
Defined.
