(* ===== verification/RuntimeConfig.v ===== *)
(** * [alr_runtime/alr_config.cpp]: the runtime configuration contract

    [serialize_runtime_config] validates a configuration and prints it as
    escaped tab-separated line records; [parse_runtime_config] reads the records
    back and validates.  [config.env] is a [std::map] (CppMap.v), [binds] a
    vector sorted by [std::sort]: the comparator is a total order on the pairs,
    so the sorted vector is unique and any sorting function models it. *)

From S2P Require Import Prelude CppMap PathSpec PathRule GuestPath.

Record BindMount := mk_bind { bind_guest : bytes; bind_host : bytes }.

Record RuntimeConfig := mk_config {
  package_name : bytes;
  rootfs_dir : bytes;
  cwd : bytes;
  program : bytes;
  env : smap;
  binds : list BindMount;
  hook_path : bytes;
  interposer_path : bytes;
  bridge_path : bytes;
  fake_root : bool;
  verbose : Z;
  trace_path : bool;
  trace_exec : bool;
}.

Record SerializedRuntimeConfig := mk_serialized { text : bytes; checksum_hex : bytes }.

#[export] Instance BindMount_eq_dec : EqDecision BindMount.
Proof. solve_decision. Defined.

(** [RuntimeConfig config;] with the default member initializers. *)
Definition default_config : RuntimeConfig :=
  mk_config [] [] "/" [] [] [] [] [] [] false 0 false false.

Definition kFormat : bytes := "alr-config-v1".

(** ** Validators *)

Definition is_absolute_host_path (path : bytes) : bool := starts_slash path.

Definition reject_empty (value name : bytes) : result unit :=
  throw_if (bool_decide (value = [])) (name ++ " must not be empty").

Definition reject_nul (value name : bytes) : result unit :=
  throw_if (has_byte nul value) (name ++ " must not contain NUL bytes").

Definition require_absolute_host (value name : bytes) : result unit :=
  reject_empty value name;;
  reject_nul value name;;
  throw_if (negb (is_absolute_host_path value)) (name ++ " must be an absolute host path").

Definition require_optional_absolute_host (value name : bytes) : result unit :=
  reject_nul value name;;
  throw_if (negb (bool_decide (value = [])) && negb (is_absolute_host_path value))
    (name ++ " must be an absolute host path when set").

(** [std::iscntrl] in the "C" locale. *)
Definition iscntrl (c : byte) : bool :=
  (byte_val c <? 0x20)%Z || (byte_val c =? 0x7f)%Z.

Definition validate_env_key (key : bytes) : result unit :=
  reject_empty key "env key";;
  reject_nul key "env key";;
  each (λ c, throw_if (bool_decide (c = "="%byte) || iscntrl c)
               "env key contains an invalid character") key.

Definition normalize_required_guest_path (path name : bytes) : result bytes :=
  reject_empty path name;;
  reject_nul path name;;
  throw_if (negb (is_guest_absolute_path path)) (name ++ " must be an absolute guest path");;
  normalize_guest_path path "/".

(** The comparator of [std::sort], as the order "not greater than". *)
Definition bind_lt (l r : BindMount) : Prop :=
  if decide (bind_guest l = bind_guest r) then bytes_lt (bind_host l) (bind_host r)
  else bytes_lt (bind_guest l) (bind_guest r).
Definition bind_le : relation BindMount := λ l r, ¬ bind_lt r l.
#[export] Instance bind_lt_dec : RelDecision bind_lt.
Proof. intros l r. unfold bind_lt. case_decide; apply _. Defined.
#[export] Instance bind_le_dec : RelDecision bind_le.
Proof. intros l r. unfold bind_le. apply _. Defined.

Definition sort_binds (l : list BindMount) : list BindMount := merge_sort bind_le l.

Definition validate_bind (b : BindMount) : result BindMount :=
  g ← normalize_required_guest_path (bind_guest b) "bind guest_path";
  require_absolute_host (bind_host b) "bind host_path";;
  mret (mk_bind g (bind_host b)).

Definition validate_runtime_config (c : RuntimeConfig) : result RuntimeConfig :=
  reject_empty (package_name c) "package_name";;
  reject_nul (package_name c) "package_name";;
  require_absolute_host (rootfs_dir c) "rootfs_dir";;
  cwd' ← normalize_required_guest_path (cwd c) "cwd";
  program' ← normalize_required_guest_path (program c) "program";
  require_optional_absolute_host (hook_path c) "hook_path";;
  require_optional_absolute_host (interposer_path c) "interposer_path";;
  require_optional_absolute_host (bridge_path c) "bridge_path";;
  throw_if ((verbose c <? 0)%Z || (2 <? verbose c)%Z) "verbose must be between 0 and 2";;
  each (λ kv, validate_env_key kv.1;; reject_nul kv.2 "env value") (env c);;
  binds' ← mapM validate_bind (binds c);
  mret (mk_config (package_name c) (rootfs_dir c) cwd' program' (env c)
          (sort_binds binds') (hook_path c) (interposer_path c) (bridge_path c)
          (fake_root c) (verbose c) (trace_path c) (trace_exec c)).

(** ** Field escaping *)

Definition escape_byte (c : byte) : bytes :=
  if bool_decide (c = "%"%byte) || bool_decide (c = newline) ||
     bool_decide (c = Byte.x0d) || bool_decide (c = tab) ||
     (byte_val c <? 0x20)%Z || (byte_val c =? 0x7f)%Z
  then ["%"%byte; upper_digit (byte_val c / 16); upper_digit (byte_val c mod 16)]
  else [c].
Definition escape_field (value : bytes) : bytes := value ≫= escape_byte.

(** [None] is -1. *)
Definition hex_value (c : byte) : option Z :=
  let v := byte_val c in
  if (48 <=? v)%Z && (v <=? 57)%Z then Some (v - 48)%Z
  else if (97 <=? v)%Z && (v <=? 102)%Z then Some (10 + (v - 97))%Z
  else if (65 <=? v)%Z && (v <=? 70)%Z then Some (10 + (v - 65))%Z
  else None.

Fixpoint unescape_field (value : bytes) : result bytes :=
  match value with
  | [] => Ok []
  | c :: rest =>
      if decide (c = "%"%byte) then
        match rest with
        | h :: l :: rest' =>
            match hex_value h, hex_value l with
            | Some high, Some low =>
                out ← unescape_field rest';
                mret (byte_of (Z.lor (Z.shiftl high 4) low) :: out)
            | _, _ => Throw "invalid escape in runtime config"
            end
        | _ => Throw "truncated escape in runtime config"
        end
      else out ← unescape_field rest; mret (c :: out)
  end.

Definition split_tabs (line : bytes) : list bytes := split_loop (S (length line)) tab line 0 [].

Definition bool_text (value : bool) : bytes := if value then "1" else "0".

Definition parse_bool (value name : bytes) : result bool :=
  if decide (value = "0") then Ok false
  else if decide (value = "1") then Ok true
  else Throw (name ++ " must be 0 or 1").

Definition parse_int (value name : bytes) : result Z :=
  if decide (value = [] ∨ 2 < length value) then Throw (name ++ " is out of range")
  else fold_result (λ parsed c,
         if (byte_val c <? 48)%Z || (57 <? byte_val c)%Z
         then Throw (name ++ " must be numeric")
         else Ok (parsed * 10 + (byte_val c - 48))%Z) 0%Z value.

(** ** Serializing *)

(** The FNV-1a hash wraps at 64 bits. *)
Definition fnv_step (hash : Z) (c : byte) : Z :=
  (Z.lxor hash (byte_val c) * 1099511628211) mod 2 ^ 64.
Definition runtime_config_checksum_hex (text : bytes) : bytes :=
  pad0 16 (to_hex (foldl fnv_step 1469598103934665603%Z text)).

(** One record, without its newline. *)
Definition append_record (kind key value : bytes) : bytes :=
  kind ++ tab :: escape_field key ++ tab :: escape_field value.

Definition config_fields (c : RuntimeConfig) : list bytes :=
  [ append_record "field" "package_name" (package_name c);
    append_record "field" "rootfs_dir" (rootfs_dir c);
    append_record "field" "cwd" (cwd c);
    append_record "field" "program" (program c);
    append_record "field" "hook_path" (hook_path c);
    append_record "field" "interposer_path" (interposer_path c);
    append_record "field" "bridge_path" (bridge_path c);
    append_record "flag" "fake_root" (bool_text (fake_root c));
    append_record "flag" "verbose" (to_string (verbose c));
    append_record "flag" "trace_path" (bool_text (trace_path c));
    append_record "flag" "trace_exec" (bool_text (trace_exec c)) ].

Definition config_records (c : RuntimeConfig) : list bytes :=
  config_fields c ++
  ((λ kv, append_record "env" kv.1 kv.2) <$> env c) ++
  ((λ b, append_record "bind" (bind_guest b) (bind_host b)) <$> binds c).

Definition serialize_runtime_config (input : RuntimeConfig) : result SerializedRuntimeConfig :=
  config ← validate_runtime_config input;
  let text := unlines (kFormat :: config_records config) in
  mret (mk_serialized text (runtime_config_checksum_hex text)).

(** ** Parsing *)

Definition set_field (c : RuntimeConfig) (key value : bytes) : result RuntimeConfig :=
  let '(mk_config pn rd cw pr ev bs hk ip br fr vb tp te) := c in
  if decide (key = "package_name") then Ok (mk_config value rd cw pr ev bs hk ip br fr vb tp te)
  else if decide (key = "rootfs_dir") then Ok (mk_config pn value cw pr ev bs hk ip br fr vb tp te)
  else if decide (key = "cwd") then Ok (mk_config pn rd value pr ev bs hk ip br fr vb tp te)
  else if decide (key = "program") then Ok (mk_config pn rd cw value ev bs hk ip br fr vb tp te)
  else if decide (key = "hook_path") then Ok (mk_config pn rd cw pr ev bs value ip br fr vb tp te)
  else if decide (key = "interposer_path") then
    Ok (mk_config pn rd cw pr ev bs hk value br fr vb tp te)
  else if decide (key = "bridge_path") then Ok (mk_config pn rd cw pr ev bs hk ip value fr vb tp te)
  else Throw "unknown runtime config field".

Definition set_flag (c : RuntimeConfig) (key value : bytes) : result RuntimeConfig :=
  let '(mk_config pn rd cw pr ev bs hk ip br fr vb tp te) := c in
  if decide (key = "fake_root") then
    b ← parse_bool value "fake_root"; mret (mk_config pn rd cw pr ev bs hk ip br b vb tp te)
  else if decide (key = "verbose") then
    n ← parse_int value "verbose"; mret (mk_config pn rd cw pr ev bs hk ip br fr n tp te)
  else if decide (key = "trace_path") then
    b ← parse_bool value "trace_path"; mret (mk_config pn rd cw pr ev bs hk ip br fr vb b te)
  else if decide (key = "trace_exec") then
    b ← parse_bool value "trace_exec"; mret (mk_config pn rd cw pr ev bs hk ip br fr vb tp b)
  else Throw "unknown runtime config flag".

Definition apply_record (c : RuntimeConfig) (kind key value : bytes) : result RuntimeConfig :=
  if decide (kind = "field") then set_field c key value
  else if decide (kind = "flag") then set_flag c key value
  else
    let '(mk_config pn rd cw pr ev bs hk ip br fr vb tp te) := c in
    if decide (kind = "env") then
      Ok (mk_config pn rd cw pr (smap_set key value ev) bs hk ip br fr vb tp te)
    else if decide (kind = "bind") then
      Ok (mk_config pn rd cw pr ev (bs ++ [mk_bind key value]) hk ip br fr vb tp te)
    else Throw "unknown runtime config record kind".

(** One iteration of the line loop; the state is [(saw_header, config)]. *)
Definition parse_line (st : bool * RuntimeConfig) (line : bytes)
    : result (bool * RuntimeConfig) :=
  let '(saw_header, c) := st in
  if negb saw_header then
    throw_if (negb (bool_decide (line = kFormat))) "unsupported runtime config format";;
    mret (true, c)
  else match line with
  | [] => mret (true, c)
  | _ =>
      match split_tabs line with
      | [f0; f1; f2] =>
          kind ← unescape_field f0;
          key ← unescape_field f1;
          value ← unescape_field f2;
          c' ← apply_record c kind key value;
          mret (true, c')
      | _ => Throw "runtime config record must have three fields"
      end
  end.

Definition parse_runtime_config (text : bytes) : result RuntimeConfig :=
  reject_empty text "runtime config";;
  reject_nul text "runtime config";;
  st ← fold_result parse_line (false, default_config)
         (split_loop (S (length text)) newline text 0 []);
  validate_runtime_config st.2.

(** ** Escaping lemmas *)

Lemma unescape_escape_byte b r :
  unescape_field (escape_byte b ++ r) = out ← unescape_field r; mret (b :: out).
Proof. destruct b; reflexivity. Qed.

Lemma unescape_escape v : unescape_field (escape_field v) = Ok v.
Proof.
  induction v as [|b v IH]; [done|]. unfold escape_field in *. cbn [mbind list_bind].
  by rewrite unescape_escape_byte, IH.
Qed.

Definition printing (c : byte) : Prop := c ≠ tab ∧ c ≠ newline ∧ c ≠ nul.

Lemma escape_field_printing v : Forall printing (escape_field v).
Proof.
  apply Forall_bind. apply Forall_true. intros b. unfold printing.
  destruct b; repeat constructor; done.
Qed.

Lemma printing_tab v : Forall printing v → tab ∉ v.
Proof. intros H Hin. rewrite Forall_forall in H. by destruct (H _ Hin). Qed.

(** The record kinds: printable, non-empty, and unchanged by unescaping. *)
Definition kind_ok (k : bytes) : Prop :=
  k ≠ [] ∧ Forall printing k ∧ unescape_field k = Ok k.

Lemma kinds_ok :
  kind_ok "field" ∧ kind_ok "flag" ∧ kind_ok "env" ∧ kind_ok "bind".
Proof. repeat split; try done; repeat constructor; done. Qed.

Lemma parse_record_line c k key v :
  kind_ok k →
  parse_line (true, c) (append_record k key v) =
  c' ← apply_record c k key v; mret (true, c').
Proof.
  intros (Hne & Hk & Hu). unfold parse_line. cbn [negb].
  assert (E : split_tabs (append_record k key v) = [k; escape_field key; escape_field v]).
  { unfold split_tabs, append_record. rewrite split_loop_on.
    rewrite split_on_app, split_on_app, split_on_single;
      auto using printing_tab, escape_field_printing. }
  destruct (append_record k key v) eqn:Ea.
  { by destruct k. }
  rewrite E, Hu, !unescape_escape. done.
Qed.

Lemma append_record_clean k key v b :
  kind_ok k → b = newline ∨ b = nul → b ∉ append_record k key v.
Proof.
  intros (_ & Hk & _) Hb. unfold append_record.
  assert (Hcl : ∀ s, Forall printing s → b ∉ s).
  { intros s Hs Hin. rewrite Forall_forall in Hs. destruct (Hs _ Hin) as (_&?&?).
    naive_solver. }
  assert (b ≠ tab) by (destruct Hb as [-> | ->]; done).
  rewrite elem_of_app, elem_of_cons, elem_of_app, elem_of_cons.
  intros [Hx|[Hx|[Hx|[Hx|Hx]]]]; try done; revert Hx; apply Hcl; auto using escape_field_printing.
Qed.

(** ** The order on bind mounts *)

Lemma bytes_lt_asymm a b : bytes_lt a b → bytes_lt b a → False.
Proof. intros H1 H2. apply (irreflexivity bytes_lt a). by etrans. Qed.

Lemma bind_le_alt l r : bind_le l r ↔ bind_lt l r ∨ l = r.
Proof.
  unfold bind_le, bind_lt. destruct l as [g1 h1], r as [g2 h2]; simpl.
  pose proof (irreflexivity bytes_lt) as Hirr.
  destruct (bytes_trichotomy g1 g2) as [Hg|[->|Hg]],
    (bytes_trichotomy h1 h2) as [Hh|[->|Hh]]; repeat case_decide; subst;
    split; intros Hx; try destruct Hx as [Hx|Hx]; simplify_eq; auto;
    try (intros ?); try (exfalso; by eauto using bytes_lt_asymm);
    exfalso; try eapply Hirr; eauto using bytes_lt_asymm.
Qed.

#[export] Instance bind_lt_trans : Transitive bind_lt.
Proof.
  intros [g1 h1] [g2 h2] [g3 h3]. unfold bind_lt; simpl.
  repeat case_decide; simplify_eq; intros Hx Hy; try done; try by etrans.
  exfalso. by eauto using bytes_lt_asymm.
Qed.
#[export] Instance bind_lt_irrefl : Irreflexive bind_lt.
Proof. intros [g h] H. unfold bind_lt in H. simpl in H. case_decide; [|done].
  by apply (irreflexivity bytes_lt h). Qed.
#[export] Instance bind_le_trans : Transitive bind_le.
Proof.
  intros a b c. rewrite !bind_le_alt. intros [H1| ->] [H2| ->]; auto. left. by etrans.
Qed.
#[export] Instance bind_le_antisymm : AntiSymm (=) bind_le.
Proof.
  intros a b. rewrite !bind_le_alt. intros [H1|?] [H2|?]; auto.
  exfalso. apply (irreflexivity bind_lt a). by etrans.
Qed.
#[export] Instance bind_le_total : Total bind_le.
Proof.
  intros a b. rewrite !bind_le_alt. unfold bind_lt.
  destruct a as [g1 h1], b as [g2 h2]; simpl.
  destruct (bytes_trichotomy g1 g2) as [H|[->|H]],
    (bytes_trichotomy h1 h2) as [H'|[->|H']]; repeat case_decide; naive_solver.
Qed.

Lemma sort_binds_sorted l : StronglySorted bind_le (sort_binds l).
Proof. apply StronglySorted_merge_sort; apply _. Qed.

Lemma sort_binds_fixed l : sort_binds (sort_binds l) = sort_binds l.
Proof.
  apply (StronglySorted_unique bind_le); [apply sort_binds_sorted..|].
  unfold sort_binds. apply merge_sort_Permutation.
Qed.

(** ** Validation is idempotent *)

Lemma normalize_required_idem p n q :
  normalize_required_guest_path p n = Ok q → normalize_required_guest_path q n = Ok q.
Proof.
  unfold normalize_required_guest_path, is_guest_absolute_path. intros H. inv_ok.
  apply normalize_lexical in H as (Hp & Hs & Habs & ->).
  unfold resolved. match goal with Hq : starts_slash p = true |- _ => rewrite Hq end.
  pose proof (render_absolute (canon p)) as Hr. fold (lexical p) in Hr.
  assert (Hnul : no_nul (lexical p)) by (by apply lexical_bytes).
  unfold reject_empty, reject_nul. rewrite Hr, bool_decide_false by (by destruct (lexical p)).
  rewrite (proj2 (has_byte_false _ _) Hnul). cbn.
  apply normalize_lexical. unfold resolved. rewrite Hr. by rewrite lexical_idempotent.
Qed.

Lemma normalize_required_fixed p n q :
  normalize_required_guest_path p n = Ok q → lexical p = p → q = p.
Proof.
  unfold normalize_required_guest_path, is_guest_absolute_path. intros H Hp. inv_ok.
  apply normalize_absolute in H; congruence.
Qed.

Lemma validate_bind_idem b b' : validate_bind b = Ok b' → validate_bind b' = Ok b'.
Proof.
  unfold validate_bind. intros H. inv_ok. cbn [bind_guest bind_host].
  rewrite (normalize_required_idem _ _ _ E). cbn [mbind result_bind]. by rewrite E0.
Qed.

Lemma validate_binds_sorted bs bs' :
  mapM validate_bind bs = Ok bs' → mapM validate_bind (sort_binds bs') = Ok (sort_binds bs').
Proof.
  intros Hm%mapM_Ok. apply mapM_Ok.
  assert (Hf : Forall (λ b, validate_bind b = Ok b) bs').
  { induction Hm; constructor; eauto using validate_bind_idem. }
  assert (Hs : Forall (λ b, validate_bind b = Ok b) (sort_binds bs')).
  { unfold sort_binds. by rewrite merge_sort_Permutation. }
  induction Hs; constructor; auto.
Qed.

(** Rewrite with the checks and normalizations that succeeded. *)
Ltac step_validate :=
  repeat match goal with
  | H : ?m = Ok _ |- context [?m ≫= _] => rewrite H; cbn [mbind result_bind]
  | H : normalize_required_guest_path ?p ?n = Ok ?q
      |- context [normalize_required_guest_path ?q ?n] =>
      rewrite (normalize_required_idem p n q H); cbn [mbind result_bind]
  | H : mapM validate_bind _ = Ok ?l |- context [mapM validate_bind (sort_binds ?l)] =>
      rewrite (validate_binds_sorted _ _ H); cbn [mbind result_bind]
  end.

(** Reading the fields off a validated configuration. *)
Lemma validate_spec c c' :
  validate_runtime_config c = Ok c' →
  validate_runtime_config c' = Ok c' ∧ env c' = env c ∧
  (0 ≤ verbose c' ≤ 2)%Z ∧ StronglySorted bind_le (binds c').
Proof.
  unfold validate_runtime_config. intros H. inv_ok.
  repeat match goal with u : unit |- _ => destruct u end.
  cbn [package_name rootfs_dir cwd program env binds hook_path interposer_path
       bridge_path verbose fake_root trace_path trace_exec].
  step_validate.
  match goal with Hv : _ || _ = false |- _ =>
    rewrite Hv; apply orb_false_iff in Hv as [Hlo Hhi] end.
  cbn [throw_if mbind result_bind]. step_validate.
  rewrite sort_binds_fixed. repeat split; auto using sort_binds_sorted; lia.
Qed.

Lemma validate_program c c' :
  validate_runtime_config c = Ok c' →
  normalize_required_guest_path (program c) "program" = Ok (program c') ∧
  rootfs_dir c' = rootfs_dir c.
Proof. unfold validate_runtime_config. intros H. inv_ok. done. Qed.

Lemma normalize_required_Ok p n q :
  normalize_required_guest_path p n = Ok q →
  no_nul p ∧ starts_slash p = true ∧ q = lexical p.
Proof.
  unfold normalize_required_guest_path, is_guest_absolute_path, reject_nul. intros H. inv_ok.
  apply normalize_absolute in H; [|done]. by rewrite <- has_byte_false.
Qed.

Lemma validate_bind_Ok b b' :
  validate_bind b = Ok b' →
  no_nul (bind_guest b) ∧ starts_slash (bind_guest b) = true ∧
  starts_slash (bind_host b) = true ∧ b' = mk_bind (lexical (bind_guest b)) (bind_host b).
Proof.
  unfold validate_bind, require_absolute_host, is_absolute_host_path. intros H. inv_ok.
  match goal with Hn : normalize_required_guest_path _ _ = Ok _ |- _ =>
    apply normalize_required_Ok in Hn as (? & ? & ->) end. done.
Qed.

Lemma mapM_fixed {A} (f : A → result A) l :
  mapM f l = Ok l → Forall (λ a, f a = Ok a) l.
Proof.
  intros H%mapM_Ok. induction l as [|a l IH]; constructor; inversion H; subst; auto.
Qed.

(** What holds of the fields of a validated configuration. *)
Lemma validated_fields c :
  validate_runtime_config c = Ok c →
  (no_nul (cwd c) ∧ starts_slash (cwd c) = true) ∧
  (no_nul (rootfs_dir c) ∧ starts_slash (rootfs_dir c) = true) ∧
  Forall (λ b, (no_nul (bind_guest b) ∧ starts_slash (bind_guest b) = true ∧
                lexical (bind_guest b) = bind_guest b) ∧
               starts_slash (bind_host b) = true) (binds c).
Proof.
  intros Hv. pose proof Hv as H. unfold validate_runtime_config in H.
  unfold require_absolute_host, is_absolute_host_path, reject_nul in H. inv_ok.
  match goal with Hc : normalize_required_guest_path (cwd c) _ = Ok _ |- _ =>
    apply normalize_required_Ok in Hc as (? & ? & ?) end.
  split; [done|]. split; [by rewrite <- has_byte_false|].
  assert (Hall : Forall (λ b, validate_bind b = Ok b) (binds c)).
  { match goal with Hm : mapM validate_bind _ = Ok ?bs |- _ =>
      apply validate_binds_sorted in Hm end.
    rewrite <- H. cbn [binds]. by apply mapM_fixed. }
  eapply Forall_impl; [exact Hall|]. intros b Hb. apply validate_bind_Ok in Hb as (? & ? & ? & Hb).
  apply (f_equal bind_guest) in Hb. cbn [bind_guest] in Hb. auto.
Qed.

(** ** Parsing what was serialized *)

Definition with_env_binds (c : RuntimeConfig) (ev : smap) (bs : list BindMount) : RuntimeConfig :=
  mk_config (package_name c) (rootfs_dir c) (cwd c) (program c) ev bs (hook_path c)
    (interposer_path c) (bridge_path c) (fake_root c) (verbose c) (trace_path c) (trace_exec c).

Lemma parse_env_records c ev l :
  fold_result parse_line (true, with_env_binds c ev [])
    ((λ kv, append_record "env" kv.1 kv.2) <$> l) =
  Ok (true, with_env_binds c (foldl (λ a p, smap_set p.1 p.2 a) ev l) []).
Proof.
  revert ev. induction l as [|[k v] l IH]; intros ev; [done|].
  cbn [fmap list_fmap fold_result fst snd].
  rewrite parse_record_line by apply kinds_ok.
  change (apply_record (with_env_binds c ev []) "env" k v)
    with (Ok (with_env_binds c (smap_set k v ev) [])).
  cbn [mbind result_bind mret result_ret]. by rewrite IH.
Qed.

Lemma parse_bind_records c ev bs l :
  fold_result parse_line (true, with_env_binds c ev bs)
    ((λ b, append_record "bind" (bind_guest b) (bind_host b)) <$> l) =
  Ok (true, with_env_binds c ev (bs ++ l)).
Proof.
  revert bs. induction l as [|[g h] l IH]; intros bs.
  - by rewrite app_nil_r.
  - cbn [fmap list_fmap fold_result bind_guest bind_host].
    rewrite parse_record_line by apply kinds_ok.
    change (apply_record (with_env_binds c ev bs) "bind" g h)
      with (Ok (with_env_binds c ev (bs ++ [mk_bind g h]))).
    cbn [mbind result_bind mret result_ret]. rewrite IH. by rewrite <- (assoc_L (++)).
Qed.

Lemma parse_bool_text b n : parse_bool (bool_text b) n = Ok b.
Proof. by destruct b. Qed.

Lemma parse_int_text v n : (0 ≤ v ≤ 2)%Z → parse_int (to_string v) n = Ok v.
Proof.
  intros Hv. assert (v = 0 ∨ v = 1 ∨ v = 2)%Z as [->|[->| ->]] by lia; done.
Qed.

Lemma fold_record c k key v c' l :
  kind_ok k → apply_record c k key v = Ok c' →
  fold_result parse_line (true, c) (append_record k key v :: l) =
  fold_result parse_line (true, c') l.
Proof. intros Hk Ha. cbn [fold_result]. by rewrite parse_record_line, Ha by done. Qed.

Lemma parse_fields c :
  (0 ≤ verbose c ≤ 2)%Z →
  fold_result parse_line (true, default_config) (config_fields c) =
  Ok (true, with_env_binds c [] []).
Proof.
  intros Hv. destruct c as [pn rd cw pr ev bs hk ip br fr vb tp te].
  cbn [verbose] in Hv. unfold config_fields, with_env_binds.
  cbn [package_name rootfs_dir cwd program env binds hook_path interposer_path
       bridge_path verbose fake_root trace_path trace_exec].
  assert (vb = 0 ∨ vb = 1 ∨ vb = 2)%Z as [->|[->| ->]] by lia; destruct fr, tp, te;
    repeat (erewrite fold_record; [|apply kinds_ok|reflexivity]); reflexivity.
Qed.

Lemma parse_records c :
  (0 ≤ verbose c ≤ 2)%Z → smap_wf (env c) →
  fold_result parse_line (true, default_config) (config_records c) = Ok (true, c).
Proof.
  intros Hv Hwf. unfold config_records. rewrite fold_result_app, parse_fields by done.
  cbn [mbind result_bind]. rewrite fold_result_app, parse_env_records. cbn [mbind result_bind].
  rewrite (foldl_smap_set []) by done. rewrite parse_bind_records. by destruct c.
Qed.

Lemma config_records_clean c b :
  b = newline ∨ b = nul → Forall (λ l, b ∉ l) (config_records c).
Proof.
  intros Hb. pose proof kinds_ok as (Hf & Hg & He & Hd).
  unfold config_records, config_fields. repeat apply Forall_app_2;
    repeat constructor; auto using append_record_clean;
    apply Forall_fmap, Forall_true; intros; apply append_record_clean; auto.
Qed.

Lemma unlines_clean b ls : b ≠ newline → Forall (λ l, b ∉ l) ls → b ∉ unlines ls.
Proof.
  intros Hb Hls. unfold unlines. induction Hls as [|l ls Hl _ IH]; [apply not_elem_of_nil|].
  cbn [fmap list_fmap concat]. rewrite !elem_of_app, list_elem_of_singleton. naive_solver.
Qed.

Lemma parse_serialized c :
  validate_runtime_config c = Ok c → smap_wf (env c) →
  parse_runtime_config (unlines (kFormat :: config_records c)) = Ok c.
Proof.
  intros Hv Hwf. destruct (validate_spec _ _ Hv) as (_ & _ & Hverb & _).
  assert (Hclean : ∀ b, b = newline ∨ b = nul →
    Forall (λ l, b ∉ l) (kFormat :: config_records c)).
  { intros b Hb. constructor; [|by apply config_records_clean].
    apply has_byte_false. by destruct Hb as [-> | ->]. }
  unfold parse_runtime_config, reject_nul.
  rewrite (proj2 (has_byte_false nul _)) by (apply unlines_clean; auto).
  rewrite split_loop_on, split_on_unlines by auto.
  change (reject_empty (unlines _) _) with (Ok tt).
  cbn [mbind result_bind throw_if app fold_result].
  change (parse_line (false, default_config) kFormat) with (Ok (true, default_config)).
  cbn [mbind result_bind].
  rewrite fold_result_app, parse_records by done. exact Hv.
Qed.

Lemma serialize_parse c s :
  smap_wf (env c) → serialize_runtime_config c = Ok s →
  ∃ c', validate_runtime_config c = Ok c' ∧ validate_runtime_config c' = Ok c' ∧
    parse_runtime_config (text s) = Ok c' ∧
    checksum_hex s = runtime_config_checksum_hex (text s) ∧
    text s = unlines (kFormat :: config_records c').
Proof.
  intros Hwf H. unfold serialize_runtime_config in H. inv_ok.
  destruct (validate_spec _ _ E) as (Hv & Henv & _). exists a. repeat split; [done|done|].
  apply parse_serialized; [done|]. by rewrite Henv.
Qed.

(** The environment a parse builds is a well-formed map. *)
Lemma apply_record_wf c k key v c' :
  apply_record c k key v = Ok c' → smap_wf (env c) → smap_wf (env c').
Proof.
  unfold apply_record, set_field, set_flag. destruct c. cbn [env]. intros H Hwf.
  repeat case_decide; inv_ok; cbn [env]; auto with cpp.
Qed.

Lemma parse_lines_wf st ls st' :
  fold_result parse_line st ls = Ok st' → smap_wf (env st.2) → smap_wf (env st'.2).
Proof.
  revert st. induction ls as [|l ls IH]; intros [saw c] H Hwf; cbn [fold_result] in H; inv_ok.
  - done.
  - eapply IH; [exact H|]. unfold parse_line in E. destruct saw; cbn [negb] in E.
    + destruct l as [|x l]; [by inv_ok|].
      destruct (split_tabs _) as [|? [|? [|? [|]]]]; inv_ok.
      cbn [snd] in *. by eapply apply_record_wf.
    + by inv_ok.
Qed.

Lemma parse_Ok_valid t c :
  parse_runtime_config t = Ok c → validate_runtime_config c = Ok c ∧ smap_wf (env c).
Proof.
  unfold parse_runtime_config. intros H. inv_ok.
  match goal with Hl : fold_result _ _ _ = Ok _ |- _ => apply parse_lines_wf in Hl; [|constructor] end.
  apply validate_spec in H as (Hv & -> & _ & _). done.
Qed.

(** ** Properties *)

(** C6. Round trip: parsing a serialized configuration gives exactly the validated
    configuration (paths normalized, bind mounts sorted), for every field
    content, control characters and '%' included; and serializing that
    configuration again prints the same text and checksum. *)
Theorem config_roundtrip input s :
  smap_wf (env input) →
  serialize_runtime_config input = Ok s →
  ∃ config, validate_runtime_config input = Ok config ∧
    parse_runtime_config (text s) = Ok config ∧
    serialize_runtime_config config = Ok s.
Proof.
  intros Hwf H. destruct (serialize_parse _ _ Hwf H) as (c & Hv & Hv' & Hp & Hc & Ht).
  exists c. split; [done|]. split; [done|].
  unfold serialize_runtime_config. rewrite Hv'. cbn [mbind result_bind].
  destruct s; cbn [text checksum_hex] in *. by rewrite Hc, <- Ht.
Qed.

Definition sample_config : RuntimeConfig :=
  mk_config "dev.chanwoo.androlinux" "/data/rootfs" "/home/../root" "/usr//bin/env"
    [(str "A", str "x%y"); (str "PATH", str "/bin:/usr/bin")]
    [mk_bind "/tmp/." "/data/tmp"; mk_bind "/mnt" "/sdcard"] [] "/data/libi.so" []
    true 2 false true.

Lemma config_roundtrip_witness :
  ∃ s config, serialize_runtime_config sample_config = Ok s ∧
    binds config = [mk_bind "/mnt" "/sdcard"; mk_bind "/tmp" "/data/tmp"] ∧
    program config = "/usr/bin/env" ∧
    validate_runtime_config sample_config = Ok config ∧
    parse_runtime_config (text s) = Ok config ∧
    serialize_runtime_config config = Ok s.
Proof.
  assert (Hs : ∃ s, serialize_runtime_config sample_config = Ok s)
    by (eexists; vm_compute; reflexivity).
  destruct Hs as [s Hs].
  destruct (config_roundtrip sample_config s) as (c & Hv & Hp & Hr); [|exact Hs|].
  - repeat constructor.
  - exists s, c. split; [exact Hs|].
    assert (Hc : validate_runtime_config sample_config = Ok c) by exact Hv.
    vm_compute in Hc. injection Hc as <-.
    split; [vm_compute; reflexivity|]. split; [vm_compute; reflexivity|]. auto.
Defined.

(** C13. Whatever text [parse_runtime_config] accepts, the configuration it returns
    is valid and canonical: validation leaves it unchanged, [verbose] is within
    0..2, the bind mounts are sorted, the environment is a well-formed map, and
    it serializes to a text that parses back to it. *)
Theorem parse_runtime_config_valid t config :
  parse_runtime_config t = Ok config →
  validate_runtime_config config = Ok config ∧
  (0 ≤ verbose config ≤ 2)%Z ∧ StronglySorted bind_le (binds config) ∧
  smap_wf (env config) ∧
  ∃ s, serialize_runtime_config config = Ok s ∧ parse_runtime_config (text s) = Ok config.
Proof.
  intros [Hv Hwf]%parse_Ok_valid. destruct (validate_spec _ _ Hv) as (_ & _ & ? & ?).
  repeat split; try done; try lia.
  unfold serialize_runtime_config. rewrite Hv. eexists. split; [reflexivity|].
  by apply parse_serialized.
Qed.

Definition sample_text : bytes :=
  unlines [kFormat; append_record "field" "package_name" "p";
    append_record "field" "rootfs_dir" "/r"; append_record "field" "program" "/a/./b";
    append_record "env" "Z" "1"; append_record "env" "A" "2"; append_record "env" "Z" "3"].

Lemma parse_runtime_config_valid_witness :
  ∃ config, parse_runtime_config sample_text = Ok config ∧
    env config = [(str "A", str "2"); (str "Z", str "3")] ∧
    program config = "/a/b" ∧
    validate_runtime_config config = Ok config ∧ (0 ≤ verbose config ≤ 2)%Z ∧
    StronglySorted bind_le (binds config) ∧ smap_wf (env config) ∧
    ∃ s, serialize_runtime_config config = Ok s ∧ parse_runtime_config (text s) = Ok config.
Proof.
  eexists. split; [vm_compute; reflexivity|]. split; [vm_compute; reflexivity|].
  split; [vm_compute; reflexivity|].
  apply (parse_runtime_config_valid sample_text). vm_compute. reflexivity.
Defined.
