(* ===== verification/ElfPlan.v ===== *)
(** * [alr_runtime/alr_elf.cpp]: the ELF load plan

    [build_elf_load_plan] reads the ELF header and the program headers of a host
    file with [pread] and computes the address range to map, the interpreter and
    the plan status.  Structures are read with [memcpy] layout (alr_elf_format.hpp);
    addresses are 64-bit and wrap. *)

From S2P Require Import Prelude CppMap Bytes HostFs.

Inductive ElfLoadPlanStatus := Unsupported | StaticExecutable | InterpreterNeeded.

Record ElfLoadPlan := mk_plan {
  plan_valid : bool;
  plan_status : ElfLoadPlanStatus;
  plan_error : bytes;
  elf_class : bytes;
  machine : bytes;
  elf_type : bytes;
  entry : Z;
  min_vaddr : Z;
  max_vaddr : Z;
  load_segment_count : Z;
  interpreter : bytes;
  plan_report : bytes;
}.

Definition empty_plan : ElfLoadPlan := mk_plan false Unsupported [] [] [] [] 0 0 0 0 [] [].

(** ** alr_elf_format.hpp *)

Definition ELFMAG : bytes := Byte.x7f :: str "ELF".
Definition ELFCLASS64 : Z := 2.
Definition ELFDATA2LSB : Z := 1.
Definition EV_CURRENT : Z := 1.
Definition ET_EXEC : Z := 2.
Definition ET_DYN : Z := 3.
Definition EM_AARCH64 : Z := 183.
Definition PT_LOAD : Z := 1.
Definition PT_INTERP : Z := 3.
Definition sizeof_Ehdr : nat := 64.
Definition sizeof_Phdr : nat := 56.

Record Ehdr := mk_ehdr {
  e_ident : bytes;
  e_type : Z;
  e_machine : Z;
  e_entry : Z;
  e_phoff : Z;
  e_phentsize : Z;
  e_phnum : Z;
}.
Record Phdr := mk_phdr {
  p_type : Z;
  p_offset : Z;
  p_vaddr : Z;
  p_filesz : Z;
  p_memsz : Z;
}.

Definition Ehdr_of (s : bytes) : Ehdr :=
  mk_ehdr (take 16 s) (field 16 2 s) (field 18 2 s) (field 24 8 s) (field 32 8 s)
    (field 54 2 s) (field 56 2 s).
Definition Phdr_of (s : bytes) : Phdr :=
  mk_phdr (field 0 4 s) (field 8 8 s) (field 16 8 s) (field 32 8 s) (field 40 8 s).

(** ** Reading *)

Section elf.
Context (H : Host).

Fixpoint read_exact (fuel : nat) (c : bytes) (size : nat) (offset : Z) (out : bytes)
    : io (result bytes) := λ t,
  match fuel with
  | 0 => None
  | S fuel =>
      if decide (length out < size) then
        match host_pread H t c (s64 (offset + Z.of_nat (length out))) (size - length out) with
        | RData [] => Some (Throw "unexpected EOF while reading ELF", S t)
        | RData d => read_exact fuel c size offset (out ++ d) (S t)
        | RErr e =>
            if decide (e ≠ EINTR) then Some (Throw (errno_message H e "pread ELF"), S t)
            else read_exact fuel c size offset out (S t)
        end
      else Some (Ok out, t)
  end.

(** [std::string(buffer, strnlen(buffer, size))] *)
Fixpoint c_string (s : bytes) : bytes :=
  match s with
  | [] => []
  | b :: s' => if decide (b = nul) then [] else b :: c_string s'
  end.

Definition read_string_at (fuel : nat) (c : bytes) (offset size : Z) : io (result bytes) :=
  if (size =? 0)%Z || (4096 <? size)%Z then mret (Throw "invalid ELF string size")
  else r ← read_exact fuel c (Z.to_nat size) offset []; mret (c_string <$> r).

(** ** Reporting *)

Definition type_name (type : Z) : bytes :=
  if (type =? ET_EXEC)%Z then "exec" else if (type =? ET_DYN)%Z then "dyn" else "unsupported".
Definition machine_name (machine : Z) : bytes :=
  if (machine =? EM_AARCH64)%Z then "aarch64" else "unsupported".
Definition hex_value (value : Z) : bytes := "0x" ++ to_hex value.

Definition elf_load_plan_status_name (status : ElfLoadPlanStatus) : bytes :=
  match status with
  | Unsupported => "unsupported"
  | StaticExecutable => "static-executable"
  | InterpreterNeeded => "interpreter-needed"
  end.

Definition eol : bytes := [newline].

Definition build_report (plan : ElfLoadPlan) : bytes :=
  "ALR ELF LOAD PLAN: " ++ (if plan_valid plan then "PASS" else "FAIL") ++
  eol ++ "ALR ELF STATIC HELLO CANDIDATE: " ++
    (match plan_status plan with StaticExecutable => "PASS" | _ => "SKIP" end) ++
  eol ++ "alr elf class=" ++ elf_class plan ++
  eol ++ "alr elf machine=" ++ machine plan ++
  eol ++ "alr elf type=" ++ elf_type plan ++
  eol ++ "alr elf status=" ++ elf_load_plan_status_name (plan_status plan) ++
  eol ++ "alr elf entry=" ++ hex_value (entry plan) ++
  eol ++ "alr elf min vaddr=" ++ hex_value (min_vaddr plan) ++
  eol ++ "alr elf max vaddr=" ++ hex_value (max_vaddr plan) ++
  eol ++ "alr elf interp=" ++
    (if bool_decide (interpreter plan = []) then str "none" else interpreter plan) ++
  eol ++ "alr elf load segments=" ++ to_string (load_segment_count plan) ++
  (if bool_decide (plan_error plan = []) then []
   else eol ++ "alr elf error=" ++ plan_error plan).

(** ** The plan *)

Definition with_error (p : ElfLoadPlan) (e : bytes) : ElfLoadPlan :=
  let '(mk_plan v st _ cl ma ty en lo hi n it re) := p in mk_plan v st e cl ma ty en lo hi n it re.
Definition with_report (p : ElfLoadPlan) : ElfLoadPlan :=
  let '(mk_plan v st er cl ma ty en lo hi n it _) := p in
  mk_plan v st er cl ma ty en lo hi n it (build_report p).
Definition with_header (p : ElfLoadPlan) (cl ma ty : bytes) (en : Z) : ElfLoadPlan :=
  let '(mk_plan v st er _ _ _ _ lo hi n it re) := p in mk_plan v st er cl ma ty en lo hi n it re.
Definition count_segment (p : ElfLoadPlan) : ElfLoadPlan :=
  let '(mk_plan v st er cl ma ty en lo hi n it re) := p in
  mk_plan v st er cl ma ty en lo hi (u32 (n + 1)) it re.
Definition with_interpreter (p : ElfLoadPlan) (it : bytes) : ElfLoadPlan :=
  let '(mk_plan v st er cl ma ty en lo hi n _ re) := p in mk_plan v st er cl ma ty en lo hi n it re.
Definition with_range (p : ElfLoadPlan) (lo hi : Z) : ElfLoadPlan :=
  let '(mk_plan _ _ er cl ma ty en _ _ n it re) := p in
  mk_plan true (if bool_decide (it = []) then StaticExecutable else InterpreterNeeded)
    er cl ma ty en lo hi n it re.

(** The locals of the header loop: the plan being filled and the running range.
    A throw keeps the plan as it is at that point. *)
Record scan := mk_scan { sc_plan : ElfLoadPlan; sc_min : Z; sc_max : Z; has_load : bool }.

(** One iteration of the program header loop. *)
Definition scan_phdr (fuel : nat) (c : bytes) (eh : Ehdr) (s : scan) (i : Z)
    : io (scan * option bytes) :=
  r ← read_exact fuel c sizeof_Phdr (u64 (e_phoff eh + i * e_phentsize eh)) [];
  match r with
  | Throw w => mret (s, Some w)
  | Ok b =>
      let ph := Phdr_of b in
      if (p_type ph =? PT_LOAD)%Z then
        let plan := count_segment (sc_plan s) in
        let segment_end := u64 (p_vaddr ph + p_memsz ph) in
        if (segment_end <? p_vaddr ph)%Z
        then mret (mk_scan plan (sc_min s) (sc_max s) true,
                   Some (str "ELF PT_LOAD segment address overflow"))
        else mret (mk_scan plan (Z.min (sc_min s) (p_vaddr ph)) (Z.max (sc_max s) segment_end) true,
                   None)
      else if (p_type ph =? PT_INTERP)%Z then
        r ← read_string_at fuel c (p_offset ph) (p_filesz ph);
        match r with
        | Throw w => mret (s, Some w)
        | Ok it => mret (mk_scan (with_interpreter (sc_plan s) it) (sc_min s) (sc_max s) (has_load s),
                         None)
        end
      else mret (s, None)
  end.

(** [for (i = 0; i < e_phnum; ++i)], with [n] headers left. *)
Fixpoint scan_phdrs (fuel : nat) (c : bytes) (eh : Ehdr) (n : nat) (i : Z) (s : scan)
    : io (scan * option bytes) :=
  match n with
  | 0 => mret (s, None)
  | S n =>
      r ← scan_phdr fuel c eh s i;
      match r with
      | (s', None) => scan_phdrs fuel c eh n (i + 1) s'
      | (s', Some w) => mret (s', Some w)
      end
  end.

Definition header_supported (eh : Ehdr) : bool :=
  (field 4 1 (e_ident eh) =? ELFCLASS64)%Z && (field 5 1 (e_ident eh) =? ELFDATA2LSB)%Z &&
  (field 6 1 (e_ident eh) =? EV_CURRENT)%Z && (e_machine eh =? EM_AARCH64)%Z &&
  (e_phentsize eh =? Z.of_nat sizeof_Phdr)%Z.

(** The plan once the loop is done. *)
Definition finish_scan (s : scan) : ElfLoadPlan :=
  let plan := sc_plan s in
  if negb (has_load s) then with_error plan "ELF has no PT_LOAD segments"
  else if negb (bool_decide (elf_type plan = str "exec")) && negb (bool_decide (elf_type plan = str "dyn"))
  then with_error plan "unsupported ELF type"
  else with_range plan (sc_min s) (sc_max s).

Definition plan_body (fuel : nat) (c : bytes) : io ElfLoadPlan :=
  r ← read_exact fuel c sizeof_Ehdr 0 [];
  match r with
  | Throw w => mret (with_error empty_plan w)
  | Ok b =>
      let eh := Ehdr_of b in
      if negb (bool_decide (take 4 (e_ident eh) = ELFMAG))
      then mret (with_error empty_plan "not an ELF file")
      else
        let class := if (field 4 1 (e_ident eh) =? ELFCLASS64)%Z
                     then str "elf64" else str "unsupported" in
        if negb (header_supported eh)
        then mret (with_error (with_header empty_plan class (machine_name (e_machine eh))
                     (type_name (e_type eh)) 0) "unsupported ELF header")
        else
          let plan := with_header empty_plan class "aarch64" (type_name (e_type eh)) (e_entry eh) in
          r ← scan_phdrs fuel c eh (Z.to_nat (e_phnum eh)) 0 (mk_scan plan (2 ^ 64 - 1) 0 false);
          match r with
          | (s, None) => mret (finish_scan s)
          | (s, Some w) => mret (with_error (sc_plan s) w)
          end
  end.

Definition build_elf_load_plan (fuel : nat) (host_path : bytes) : io ElfLoadPlan :=
  match host_open H host_path with
  | inl e => mret (with_report (with_error empty_plan (errno_message H e "open ELF")))
  | inr c => plan ← plan_body fuel c; mret (with_report plan)
  end.

End elf.

(** ** What the file must contain *)

(** The bytes at a file offset, when they are all there. *)
Definition slice (c : bytes) (off : Z) (n : nat) : option bytes :=
  if decide (0 ≤ off ∧ off + Z.of_nat n ≤ Z.of_nat (length c))%Z
  then Some (take n (drop (Z.to_nat off) c)) else None.

Definition phdr_at (c : bytes) (eh : Ehdr) (i : Z) : option Phdr :=
  Phdr_of <$> slice c (s64 (u64 (e_phoff eh + i * e_phentsize eh))) sizeof_Phdr.
Fixpoint phdrs_from (c : bytes) (eh : Ehdr) (n : nat) (i : Z) : option (list Phdr) :=
  match n with
  | 0 => Some []
  | S n => ph ← phdr_at c eh i; phs ← phdrs_from c eh n (i + 1); Some (ph :: phs)
  end.

Definition interp_at (c : bytes) (ph : Phdr) : option bytes :=
  if (p_filesz ph =? 0)%Z || (4096 <? p_filesz ph)%Z then None
  else c_string <$> slice c (s64 (p_offset ph)) (Z.to_nat (p_filesz ph)).

Definition is_load (ph : Phdr) : bool := (p_type ph =? PT_LOAD)%Z.
Definition is_interp (ph : Phdr) : bool := (p_type ph =? PT_INTERP)%Z.

(** A program header the plan accepts: a segment that does not wrap, an
    interpreter string that can be read. *)
Definition phdr_ok (c : bytes) (ph : Phdr) : Prop :=
  (is_load ph = true → (p_vaddr ph + p_memsz ph < 2 ^ 64)%Z) ∧
  (is_interp ph = true → is_Some (interp_at c ph)).

Record elf_image (c : bytes) (eh : Ehdr) (phs : list Phdr) : Prop := {
  img_header : Ehdr_of <$> slice c 0 sizeof_Ehdr = Some eh;
  img_magic : take 4 (e_ident eh) = ELFMAG;
  img_supported : header_supported eh = true;
  img_type : e_type eh = ET_EXEC ∨ e_type eh = ET_DYN;
  img_phdrs : phdrs_from c eh (Z.to_nat (e_phnum eh)) 0 = Some phs;
  img_ok : Forall (phdr_ok c) phs;
  img_load : ∃ ph, ph ∈ phs ∧ is_load ph = true;
}.

(** The interpreter of an image: the string of its last PT_INTERP header. *)
Definition image_interp (c : bytes) (phs : list Phdr) : bytes :=
  foldl (λ it ph, if negb (is_load ph) && is_interp ph then default it (interp_at c ph) else it) [] phs.

(** ** [read_exact] returns the slice, whatever the kernel does in between *)

Section reading.
Context (H : Host) (retries : nat) (laws : HostLaws H retries).
Context (c : bytes) (Hc : (Z.of_nat (length c) < 2 ^ 63)%Z).

(** Fuel for one [read_exact] of [size] bytes. *)
Definition read_fuel (size : nat) : nat := S (size * S retries + retries).

Lemma read_exact_eintr k fuel size offset out t :
  length out < size →
  (∀ j, j < k → host_pread H (t + j) c (s64 (offset + Z.of_nat (length out)))
                  (size - length out) = RErr EINTR) →
  read_exact H (k + fuel) c size offset out t = read_exact H fuel c size offset out (t + k).
Proof.
  revert t. induction k as [|k IH]; intros t Hlt Hj; [by rewrite Nat.add_0_r|].
  change (S k + fuel) with (S (k + fuel)). cbn [read_exact].
  rewrite decide_True by done. pose proof (Hj 0 ltac:(lia)) as H0.
  rewrite Nat.add_0_r in H0. rewrite H0. rewrite decide_False by (intros Hx; by apply Hx).
  rewrite IH; [f_equal; lia|done|].
  intros j Hlt'. rewrite <- (Hj (S j)) by lia. f_equal. lia.
Qed.

(** One answered read: EOF, data, or a real error. *)
Lemma read_exact_step fuel size offset out t :
  length out < size → retries < fuel →
  ∃ k ans, k ≤ retries ∧ ans ≠ RErr EINTR ∧
    host_pread H (t + k) c (s64 (offset + Z.of_nat (length out))) (size - length out) = ans ∧
    read_exact H fuel c size offset out t =
    match ans with
    | RData [] => Some (Throw "unexpected EOF while reading ELF", S (t + k))
    | RData d => read_exact H (fuel - S k) c size offset (out ++ d) (S (t + k))
    | RErr e => Some (Throw (errno_message H e "pread ELF"), S (t + k))
    end.
Proof.
  intros Hlt Hf.
  destruct (pread_fair H retries laws t c (s64 (offset + Z.of_nat (length out)))
    (size - length out)) as (k & Hk & Hne & Hj).
  exists k, (host_pread H (t + k) c (s64 (offset + Z.of_nat (length out))) (size - length out)).
  split; [done|]. split; [done|]. split; [done|].
  replace fuel with (k + S (fuel - S k)) at 1 by lia.
  rewrite read_exact_eintr by done. cbn [read_exact]. rewrite decide_True by done.
  destruct (host_pread H (t + k) _ _ _) as [d|e]; [by destruct d|].
  rewrite decide_True by (intros ->; by apply Hne). done.
Qed.

Definition read_spec (size : nat) (offset : Z) (r : result bytes) : Prop :=
  match slice c (s64 offset) size with Some d => r = Ok d | None => is_ok r = false end.

Lemma read_exact_negative fuel size offset t :
  0 < size → retries < fuel → (s64 offset < 0)%Z →
  ∃ r t', read_exact H fuel c size offset [] t = Some (r, t') ∧ is_ok r = false.
Proof.
  intros Hs Hf Hneg. destruct (read_exact_step fuel size offset [] t Hs Hf)
    as (k & ans & _ & _ & Ha & ->).
  cbn [length Z.of_nat] in Ha. rewrite Z.add_0_r in Ha.
  destruct ans as [d|e]; [|eauto].
  destruct (pread_data H retries laws _ _ _ _ _ Ha) as [? _]. lia.
Qed.

Lemma read_exact_positive m fuel size offset out t :
  (0 ≤ offset < 2 ^ 63)%Z → 0 < size → m = size - length out → length out ≤ size →
  m * S retries + retries < fuel →
  (out = [] ∨ (offset + Z.of_nat (length out) ≤ Z.of_nat (length c))%Z) →
  out = take (length out) (drop (Z.to_nat offset) c) →
  ∃ r t', read_exact H fuel c size offset out t = Some (r, t') ∧ read_spec size offset r.
Proof.
  intros Ho Hs. revert fuel out t. induction m as [m IH] using lt_wf_ind.
  intros fuel out t -> Hle Hf Hin Hout.
  unfold read_spec, slice. rewrite s64_small by lia.
  destruct (decide (length out = size)) as [Heq|Hne].
  { assert (out ≠ []) by (intros ->; simpl in *; lia).
    destruct fuel; [lia|]. cbn [read_exact]. rewrite decide_False by lia.
    rewrite decide_True by (destruct Hin; [done|lia]). eexists _, _. split; [done|].
    rewrite <- Heq. by f_equal. }
  assert (Hoff : (s64 (offset + Z.of_nat (length out)) = offset + Z.of_nat (length out))%Z).
  { apply s64_small. destruct Hin as [->|]; [simpl|]; lia. }
  destruct (read_exact_step fuel size offset out t) as (k & ans & Hk & Hne' & Ha & ->);
    [lia|nia|].
  rewrite Hoff in Ha. destruct ans as [d|e].
  - destruct d as [|b d].
    + apply (pread_eof H retries laws) in Ha; [|lia].
      rewrite decide_False by lia. by eexists _, _.
    + destruct (pread_data H retries laws _ _ _ _ _ Ha) as (_ & Hld & Hpre).
      set (dd := b :: d) in *. assert (Hdd : 0 < length dd) by (simpl; lia).
      destruct Hpre as [rest Hrest].
      assert (Hlen : length (drop (Z.to_nat (offset + Z.of_nat (length out))) c) =
                     length dd + length rest) by (rewrite Hrest; apply length_app).
      rewrite length_drop in Hlen.
      assert (Hnew : out ++ dd = take (length (out ++ dd)) (drop (Z.to_nat offset) c)).
      { rewrite length_app, <- take_take_drop, <- Hout. f_equal. rewrite drop_drop.
        replace (Z.to_nat offset + length out) with
          (Z.to_nat (offset + Z.of_nat (length out))) by lia.
        by rewrite Hrest, take_app_length. }
      assert (Hll : length (out ++ dd) = length out + length dd) by apply length_app.
      destruct (IH (size - length (out ++ dd)) ltac:(lia) (fuel - S k) (out ++ dd) (S (t + k)))
        as (r & t' & Hr & Hspec); [lia|lia|nia|right; lia|done|].
      exists r, t'. split; [exact Hr|]. unfold read_spec, slice in Hspec.
      by rewrite s64_small in Hspec by lia.
  - apply (pread_err H retries laws) in Ha as [->|Ha]; [done|lia].
Qed.

Lemma read_exact_spec fuel size offset t :
  (0 ≤ offset < 2 ^ 64)%Z → 0 < size → read_fuel size ≤ fuel →
  ∃ r t', read_exact H fuel c size offset [] t = Some (r, t') ∧ read_spec size offset r.
Proof.
  unfold read_fuel. intros Ho Hs Hf. destruct (decide (offset < 2 ^ 63)%Z).
  - apply (read_exact_positive size); cbn [length]; auto; lia.
  - assert (Hneg : (s64 offset < 0)%Z) by (unfold s64; rewrite u64_small by lia; case_match; lia).
    destruct (read_exact_negative fuel size offset t) as (r & t' & Hr & Hk); [lia|pose proof (Nat.le_0_l (size * S retries)); lia|done|].
    exists r, t'. split; [done|]. unfold read_spec, slice. by rewrite decide_False by lia.
Qed.

Lemma read_fuel_mono n m : n ≤ m → read_fuel n ≤ read_fuel m.
Proof using Type. clear c Hc. unfold read_fuel. nia. Qed.

Context (fuel : nat) (Hfuel : read_fuel 4096 ≤ fuel).

Lemma read_string_spec ph t :
  (0 ≤ p_offset ph < 2 ^ 64)%Z → (0 ≤ p_filesz ph)%Z →
  ∃ r t', read_string_at H fuel c (p_offset ph) (p_filesz ph) t = Some (r, t') ∧
    match interp_at c ph with Some s => r = Ok s | None => is_ok r = false end.
Proof.
  intros Ho Hz. unfold read_string_at, interp_at.
  destruct ((p_filesz ph =? 0)%Z || (4096 <? p_filesz ph)%Z) eqn:E; [by eexists _, _|].
  apply orb_false_iff in E as [E1 E2]. apply Z.eqb_neq in E1. apply Z.ltb_ge in E2.
  destruct (read_exact_spec fuel (Z.to_nat (p_filesz ph)) (p_offset ph) t)
    as (r & t' & Hr & Hspec); [done|lia|etrans; [|exact Hfuel]; apply read_fuel_mono; lia|].
  unfold mbind, io_bind. rewrite Hr. eexists _, _. split; [done|].
  unfold read_spec in Hspec. destruct (slice _ _ _); cbn [fmap option_fmap option_map]; [by subst|].
  by destruct r.
Qed.

(** ** The header loop as a fold *)

Definition step_phdr (s : scan) (ph : Phdr) : scan :=
  if is_load ph then
    mk_scan (count_segment (sc_plan s)) (Z.min (sc_min s) (p_vaddr ph))
      (Z.max (sc_max s) (p_vaddr ph + p_memsz ph)) true
  else if is_interp ph then
    mk_scan (with_interpreter (sc_plan s) (default [] (interp_at c ph))) (sc_min s) (sc_max s)
      (has_load s)
  else s.

Lemma scan_phdr_spec eh s i t :
  ∃ s' t', ∃ w : option bytes, scan_phdr H fuel c eh s i t = Some ((s', w), t') ∧
    match phdr_at c eh i with
    | Some ph => (phdr_ok c ph → w = None ∧ s' = step_phdr s ph) ∧ (w = None → phdr_ok c ph)
    | None => is_Some w
    end.
Proof.
  unfold scan_phdr. unfold mbind, io_bind.
  destruct (read_exact_spec fuel sizeof_Phdr (u64 (e_phoff eh + i * e_phentsize eh)) t)
    as (r & t1 & Hr & Hspec);
    [apply u64_range|unfold sizeof_Phdr; lia
    |etrans; [|exact Hfuel]; apply read_fuel_mono; unfold sizeof_Phdr; lia|].
  rewrite Hr. unfold read_spec in Hspec. unfold phdr_at.
  destruct (slice c _ sizeof_Phdr) as [b|]; cbn [fmap option_fmap option_map].
  2: { destruct r; [done|]. eexists _, _, _. split; [done|by eexists]. }
  rewrite Hspec. cbv beta iota zeta. set (ph := Phdr_of b).
  assert (Hrange : (0 ≤ p_vaddr ph < 2 ^ 64 ∧ 0 ≤ p_memsz ph < 2 ^ 64 ∧
    0 ≤ p_offset ph < 2 ^ 64 ∧ 0 ≤ p_filesz ph)%Z)
    by (repeat split; apply field_range).
  destruct Hrange as (Hv & Hm & Ho & Hz). unfold phdr_ok, step_phdr, is_load, is_interp.
  destruct (p_type ph =? PT_LOAD)%Z eqn:El.
  - assert (Ei : (p_type ph =? PT_INTERP)%Z = false)
      by (apply Z.eqb_eq in El; rewrite El; done).
    rewrite Ei. destruct (u64 _ <? p_vaddr ph)%Z eqn:Ew; eexists _, _, _; (split; [done|]).
    + split; [|done]. intros [Hlt _]. exfalso. specialize (Hlt eq_refl).
      rewrite u64_small in Ew by lia. lia.
    + assert (Hlt : (p_vaddr ph + p_memsz ph < 2 ^ 64)%Z).
      { apply Z.ltb_ge in Ew. unfold u64 in Ew.
        destruct (decide (p_vaddr ph + p_memsz ph < 2 ^ 64)%Z); [done|].
        rewrite <- (Z_mod_plus_full _ (-1)), Z.mod_small in Ew by lia. lia. }
      split; [|naive_solver]. intros _. rewrite u64_small by lia. done.
  - destruct (p_type ph =? PT_INTERP)%Z eqn:Ei.
    + destruct (read_string_spec ph t1 Ho Hz) as (r' & t2 & Hr' & Hi). rewrite Hr'.
      destruct (interp_at c ph) as [it|].
      * rewrite Hi. eexists _, _, _. split; [done|]. split; [done|].
        intros _. split; [done|]. intros _. by eexists.
      * destruct r' as [|w]; [done|]. eexists _, _, (Some w). split; [done|].
        split; [|done]. intros [_ Hx]. destruct (Hx eq_refl). done.
    + eexists _, _, None. split; [done|]. split; [done|]. intros _. split; done.
Qed.

Lemma scan_phdrs_spec eh n i s t :
  ∃ s' t', ∃ w : option bytes, scan_phdrs H fuel c eh n i s t = Some ((s', w), t') ∧
    (∀ phs, phdrs_from c eh n i = Some phs → Forall (phdr_ok c) phs →
       w = None ∧ s' = foldl step_phdr s phs) ∧
    (w = None → ∃ phs, phdrs_from c eh n i = Some phs ∧ Forall (phdr_ok c) phs).
Proof.
  revert i s t. induction n as [|n IH]; intros i s t; cbn [scan_phdrs phdrs_from].
  { eexists _, _, None. split; [done|]. split.
    - by intros phs [= <-] _.
    - intros _. exists []. by split. }
  unfold mbind at 1, io_bind.
  destruct (scan_phdr_spec eh s i t) as (s1 & t1 & w & -> & Hw).
  destruct (phdr_at c eh i) as [ph|]; cbn [mbind option_bind].
  2: { destruct Hw as [e ->]. eexists _, _, (Some e). split; [done|]. split; [done|].
       intros Hx. discriminate Hx. }
  destruct Hw as [Hok Hnone]. destruct w as [e|].
  - eexists _, _, (Some e). split; [done|]. split; [|done].
    intros phs Hphs Hall. destruct (phdrs_from c eh n (i + 1)); [|done].
    cbn in Hphs. inversion Hphs; subst. inversion Hall; subst. by destruct Hok.
  - destruct (IH (i + 1)%Z s1 t1) as (s2 & t2 & w & -> & Hsome & Hw). eexists _, _, _.
    split; [done|]. specialize (Hnone eq_refl). destruct (Hok Hnone) as [_ ->]. split.
    + intros phs Hphs Hall. destruct (phdrs_from c eh n (i + 1)) as [phs'|]; [|done].
      cbn in Hphs. inversion Hphs; subst. inversion Hall; subst. by apply Hsome.
    + intros Hwn. destruct (Hw Hwn) as (phs' & -> & Hall). eexists. split; [done|].
      by constructor.
Qed.

End reading.

(** ** The fold computes the range, the count and the interpreter *)

Definition phdr_range (ph : Phdr) : Prop :=
  (0 ≤ p_vaddr ph < 2 ^ 64 ∧ 0 ≤ p_memsz ph)%Z.

Lemma phdrs_from_range c eh n i phs :
  phdrs_from c eh n i = Some phs → Forall phdr_range phs ∧ length phs = n.
Proof.
  revert i phs. induction n as [|n IH]; intros i phs; cbn [phdrs_from].
  - intros [= <-]. by split.
  - unfold phdr_at. destruct (slice _ _ _) as [b|]; [|done]. cbn [fmap option_fmap option_map mbind option_bind].
    destruct (phdrs_from c eh n (i + 1)) as [l|] eqn:E; [|done]. intros [= <-].
    destruct (IH _ _ E) as [Hl <-]. split; [|done]. constructor; [|done].
    split; [apply field_range|]. apply (field_range 40 8 b).
Qed.

Definition start_scan (p : ElfLoadPlan) : scan := mk_scan p (2 ^ 64 - 1) 0 false.

Definition range_of (phs : list Phdr) (lo hi : Z) : Prop :=
  (∀ ph, ph ∈ phs → is_load ph = true → (lo ≤ p_vaddr ph ∧ p_vaddr ph + p_memsz ph ≤ hi)%Z) ∧
  (∃ ph, ph ∈ phs ∧ is_load ph = true ∧ p_vaddr ph = lo) ∧
  (∃ ph, ph ∈ phs ∧ is_load ph = true ∧ (p_vaddr ph + p_memsz ph = hi)%Z).

Lemma fold_scan_range c p phs :
  Forall phdr_range phs →
  let s := foldl (step_phdr c) (start_scan p) phs in
  has_load s = existsb is_load phs ∧
  (if has_load s then range_of phs (sc_min s) (sc_max s)
   else sc_min s = 2 ^ 64 - 1 ∧ sc_max s = 0)%Z.
Proof.
  induction phs as [|ph phs IH] using rev_ind; intros Hr; [done|].
  apply Forall_app in Hr as [Hr [Hph _]%Forall_cons]. specialize (IH Hr).
  rewrite foldl_app. cbn [foldl]. rewrite existsb_app. cbn [existsb].
  set (s := foldl _ _ phs) in *. destruct IH as [Hl IH]. rewrite orb_false_r, <- Hl.
  unfold step_phdr. destruct (is_load ph) eqn:El.
  - cbn [has_load sc_min sc_max]. rewrite orb_true_r. split; [done|].
    destruct Hph as [Hv Hm]. unfold range_of.
    setoid_rewrite elem_of_app. setoid_rewrite list_elem_of_singleton.
    destruct (has_load s); [destruct IH as (Hall & (p1 & H1 & L1 & E1) & (p2 & H2 & L2 & E2))
                           |destruct IH as [-> ->]].
    + split; [intros q [Hq| ->] Lq; [specialize (Hall q Hq Lq)|]; lia|]. split.
      * destruct (Z.le_gt_cases (sc_min s) (p_vaddr ph));
          [exists p1|exists ph]; (split; [tauto|]); split; auto; lia.
      * destruct (Z.le_gt_cases (p_vaddr ph + p_memsz ph) (sc_max s));
          [exists p2|exists ph]; (split; [tauto|]); split; auto; lia.
    + assert (Hnone : ∀ q, q ∈ phs → is_load q = true → False).
      { intros q Hq Lq. assert (existsb is_load phs = true); [|congruence].
        apply existsb_exists. exists q. split; [by apply list_elem_of_In|done]. }
      split; [intros q [Hq| ->] Lq; [destruct (Hnone q Hq Lq)|lia]|].
      split; exists ph; (split; [tauto|]); split; auto; lia.
  - rewrite orb_false_r.
    assert (Hsame : ∀ s', has_load s' = has_load s → sc_min s' = sc_min s → sc_max s' = sc_max s →
      has_load s' = has_load s ∧ (if has_load s' then range_of (phs ++ [ph]) (sc_min s') (sc_max s')
        else sc_min s' = 2 ^ 64 - 1 ∧ sc_max s' = 0)%Z).
    { intros s' E1 E2 E3. rewrite E1, E2, E3. split; [done|]. destruct (has_load s); [|done].
      destruct IH as (Hall & (p1 & H1 & L1 & M1) & (p2 & H2 & L2 & M2)).
      split; [|split].
      - intros q [Hq|Hq%list_elem_of_singleton]%elem_of_app Lq; [auto|congruence].
      - exists p1. rewrite elem_of_app. auto.
      - exists p2. rewrite elem_of_app. auto. }
    destruct (is_interp ph); by apply Hsame.
Qed.

Lemma fold_scan_plan c p phs :
  Forall (phdr_ok c) phs → (Z.of_nat (length phs) < 2 ^ 32)%Z →
  load_segment_count p = 0%Z → interpreter p = [] →
  let p' := sc_plan (foldl (step_phdr c) (start_scan p) phs) in
  load_segment_count p' = Z.of_nat (length (filter (λ ph, is_load ph = true) phs)) ∧
  interpreter p' = image_interp c phs ∧
  plan_valid p' = plan_valid p ∧ plan_status p' = plan_status p ∧ min_vaddr p' = min_vaddr p ∧
  max_vaddr p' = max_vaddr p ∧ elf_type p' = elf_type p ∧ entry p' = entry p.
Proof.
  intros Hok Hlen Hn Hi. induction phs as [|ph phs IH] using rev_ind.
  { cbn. rewrite Hn, Hi. done. }
  apply Forall_app in Hok as [Hok [Hph _]%Forall_cons].
  rewrite length_app in Hlen. cbn [length] in Hlen.
  specialize (IH Hok ltac:(lia)). unfold image_interp. rewrite !foldl_app. cbn [foldl].
  fold (image_interp c phs). set (s := foldl _ _ phs) in *. cbv zeta in *.
  destruct IH as (H1 & H2 & Hrest). rewrite filter_app, length_app.
  unfold step_phdr. destruct (is_load ph) eqn:El.
  - rewrite filter_cons_True by done. cbn [sc_plan filter list_filter length negb andb].
    destruct (sc_plan s); cbn in *. rewrite H1. split; [|done]. rewrite u32_small; [lia|].
    pose proof (length_filter (λ ph, is_load ph = true) phs). lia.
  - rewrite filter_cons_False by congruence. cbn [filter list_filter length negb andb].
    rewrite Nat.add_0_r. destruct (is_interp ph) eqn:Ei; [|done].
    destruct Hph as [_ Hx]. destruct (Hx Ei) as [it Hit]. rewrite Hit. cbn [sc_plan default from_option].
    by destruct (sc_plan s); cbn in *.
Qed.

Lemma type_name_cases ty :
  negb (bool_decide (type_name ty = str "exec")) && negb (bool_decide (type_name ty = str "dyn")) =
  negb ((ty =? ET_EXEC)%Z || (ty =? ET_DYN)%Z).
Proof. unfold type_name. destruct (ty =? ET_EXEC)%Z, (ty =? ET_DYN)%Z; reflexivity. Qed.

Definition plan_of_image (c : bytes) (eh : Ehdr) (phs : list Phdr) (plan : ElfLoadPlan) : Prop :=
  plan_valid plan = true ∧ entry plan = e_entry eh ∧
  load_segment_count plan = Z.of_nat (length (filter (λ ph, is_load ph = true) phs)) ∧
  interpreter plan = image_interp c phs ∧
  plan_status plan = (if bool_decide (image_interp c phs = []) then StaticExecutable
                      else InterpreterNeeded) ∧
  range_of phs (min_vaddr plan) (max_vaddr plan).

Definition plan_rejected (plan : ElfLoadPlan) : Prop :=
  plan_valid plan = false ∧ plan_status plan = Unsupported ∧
  min_vaddr plan = 0%Z ∧ max_vaddr plan = 0%Z.

Lemma finish_scan_spec c (cl ma : bytes) eh phs en ty :
  Forall (phdr_ok c) phs → Forall phdr_range phs → (Z.of_nat (length phs) < 2 ^ 32)%Z →
  e_entry eh = en →
  let plan := finish_scan (foldl (step_phdr c)
    (start_scan (with_header empty_plan cl ma (type_name ty) en)) phs) in
  if existsb is_load phs && ((ty =? ET_EXEC)%Z || (ty =? ET_DYN)%Z)
  then plan_of_image c eh phs plan else plan_rejected plan.
Proof.
  intros Hok Hr Hlen <-.
  destruct (fold_scan_plan c (with_header empty_plan cl ma (type_name ty) (e_entry eh)) phs)
    as (H1 & H2 & H3 & H4 & H5 & H6 & H7 & H8); [done|done|done|done|].
  destruct (fold_scan_range c (with_header empty_plan cl ma (type_name ty) (e_entry eh)) phs Hr)
    as [Hl Hrange].
  cbv zeta. set (s := foldl _ _ phs) in *. unfold finish_scan. rewrite <- Hl.
  assert (Hty : elf_type (sc_plan s) = type_name ty) by (rewrite H7; done).
  rewrite Hty, type_name_cases. destruct (has_load s); cbn [negb andb].
  - unfold plan_of_image, plan_rejected. rewrite <- H2, <- H1.
    destruct (_ || _); cbn [negb]; destruct (sc_plan s); cbn in *; auto 10.
  - unfold plan_rejected. by destruct (sc_plan s); cbn in *.
Qed.

(** No iteration touches the verdict or the range of the plan. *)
Definition kept (p p' : ElfLoadPlan) : Prop :=
  plan_valid p' = plan_valid p ∧ plan_status p' = plan_status p ∧
  min_vaddr p' = min_vaddr p ∧ max_vaddr p' = max_vaddr p.

Lemma scan_phdr_kept H fuel c eh s i t s' w t' :
  scan_phdr H fuel c eh s i t = Some ((s', w), t') → kept (sc_plan s) (sc_plan s').
Proof.
  unfold scan_phdr, mbind, io_bind, mret, io_ret. intros Hs.
  repeat case_match; simplify_eq/=; try (by destruct (sc_plan s)); done.
Qed.

Lemma scan_phdrs_kept H fuel c eh n i s t s' w t' :
  scan_phdrs H fuel c eh n i s t = Some ((s', w), t') → kept (sc_plan s) (sc_plan s').
Proof.
  revert i s t. induction n as [|n IH]; intros i s t; cbn [scan_phdrs].
  - intros [= <- _ _]. done.
  - unfold mbind, io_bind. destruct (scan_phdr H fuel c eh s i t) as [[[s1 w1] t1]|] eqn:E; [|done].
    apply scan_phdr_kept in E. destruct w1; [by intros [= <- _ _]|].
    intros Hs%IH. unfold kept in *. naive_solver congruence.
Qed.

(** On every kernel that follows the laws the plan body terminates, and its plan
    is the plan of the image or a rejection. *)
Lemma plan_body_spec H retries c fuel t :
  HostLaws H retries → (Z.of_nat (length c) < 2 ^ 63)%Z → read_fuel retries 4096 ≤ fuel →
  ∃ plan t', plan_body H fuel c t = Some (plan, t') ∧
    ((∃ eh phs, elf_image c eh phs ∧ plan_of_image c eh phs plan) ∨
     ((∀ eh phs, ¬ elf_image c eh phs) ∧ plan_rejected plan)).
Proof.
  intros laws Hc Hf. unfold plan_body. unfold mbind, io_bind.
  assert (Hf64 : read_fuel retries sizeof_Ehdr ≤ fuel).
  { etrans; [|exact Hf]. apply read_fuel_mono. unfold sizeof_Ehdr. lia. }
  destruct (read_exact_spec H retries laws c Hc fuel sizeof_Ehdr 0 t)
    as (r & t1 & -> & Hspec); [lia|unfold sizeof_Ehdr; lia|done|].
  unfold read_spec in Hspec. rewrite s64_small in Hspec by lia.
  destruct (slice c 0 sizeof_Ehdr) as [b|] eqn:Eb.
  2: { destruct r; [done|]. eexists _, _. split; [done|]. right. split; [|done].
       intros eh phs [Hh]. by rewrite Eb in Hh. }
  rewrite Hspec. set (eh := Ehdr_of b).
  assert (Heh : ∀ eh' phs, elf_image c eh' phs → eh' = eh).
  { intros eh' phs [Hh]. rewrite Eb in Hh. by injection Hh as <-. }
  case_bool_decide as Hmag; cbn [negb].
  2: { eexists _, _. split; [done|]. right. split; [|done].
       intros eh' phs Hi. apply Hmag. rewrite <- (Heh _ _ Hi). apply Hi. }
  destruct (header_supported eh) eqn:Hsup; cbn [negb].
  2: { eexists _, _. split; [done|]. right. split; [|done].
       intros eh' phs Hi. pose proof (img_supported _ _ _ Hi) as Hs.
       rewrite (Heh _ _ Hi) in Hs. congruence. }
  destruct (scan_phdrs_spec H retries laws c Hc fuel Hf eh (Z.to_nat (e_phnum eh)) 0
    (start_scan (with_header empty_plan
      (if (field 4 1 (e_ident eh) =? ELFCLASS64)%Z then str "elf64" else str "unsupported")
      "aarch64" (type_name (e_type eh)) (e_entry eh))) t1) as (s & t2 & w & Hscan & Hall & Hnone).
  unfold start_scan in Hscan. rewrite Hscan. destruct w as [w|].
  { eexists _, _. split; [done|]. right. split.
    - intros eh' phs Hi. pose proof (Heh _ _ Hi) as ->. destruct Hi.
      by destruct (Hall phs).
    - by destruct (scan_phdrs_kept H fuel c eh _ _ _ _ _ _ _ Hscan) as (K1 & K2 & K3 & K4);
        cbn in *; destruct (sc_plan s); cbn in *. }
  destruct (Hnone eq_refl) as (phs & Hphs & Hok). destruct (Hall phs Hphs Hok) as [_ ->].
  eexists _, _. split; [done|].
  destruct (phdrs_from_range _ _ _ _ _ Hphs) as [Hr Hlen].
  pose proof (field_range 56 2 b) as Hnum. change (field 56 2 b) with (e_phnum eh) in Hnum.
  change (256 ^ Z.of_nat 2)%Z with 65536%Z in Hnum.
  pose proof (finish_scan_spec c
    (if (field 4 1 (e_ident eh) =? ELFCLASS64)%Z then str "elf64" else str "unsupported")
    "aarch64" eh phs (e_entry eh) (e_type eh) Hok Hr) as Hfin.
  specialize (Hfin ltac:(rewrite Hlen; lia) eq_refl). cbv zeta in Hfin.
  destruct (existsb is_load phs) eqn:El; cbn [andb] in Hfin;
    [destruct ((e_type eh =? ET_EXEC)%Z || (e_type eh =? ET_DYN)%Z) eqn:Et|].
  - left. exists eh, phs. split; [|exact Hfin]. split; auto.
    + by rewrite Eb.
    + apply orb_true_iff in Et. rewrite !Z.eqb_eq in Et. exact Et.
    + apply existsb_exists in El as (ph & Hin & Hl). exists ph.
      split; [by apply list_elem_of_In|done].
  - right. split; [|exact Hfin]. intros eh' phs' Hi. pose proof (Heh _ _ Hi) as ->.
    apply orb_false_iff in Et. rewrite !Z.eqb_neq in Et. destruct (img_type _ _ _ Hi); tauto.
  - right. split; [|exact Hfin]. intros eh' phs' Hi. pose proof (Heh _ _ Hi) as ->.
    destruct (img_load _ _ _ Hi) as (ph & Hin & Hl).
    pose proof (img_phdrs _ _ _ Hi) as Hp. rewrite Hphs in Hp. injection Hp as <-.
    assert (existsb is_load phs = true); [|congruence].
    apply existsb_exists. exists ph. split; [by apply list_elem_of_In|done].
Qed.

Lemma build_elf_load_plan_total H retries fuel path t :
  HostLaws H retries → read_fuel retries 4096 ≤ fuel →
  ∃ plan t', build_elf_load_plan H fuel path t = Some (plan, t').
Proof.
  intros laws Hf. unfold build_elf_load_plan, mbind, io_bind.
  destruct (host_open H path) as [e|c] eqn:Ho; [by eexists _, _|].
  destruct (plan_body_spec H retries c fuel t laws (open_size _ _ laws _ _ Ho) Hf)
    as (plan & t' & -> & _). by eexists _, _.
Qed.

(** ** Property *)

(** C8. For every file and every kernel that follows the documented behaviour of
    pread (short reads and EINTR included), [build_elf_load_plan] terminates
    within the stated fuel, and its plan is valid exactly on AArch64 ELF64
    executables with readable, non-wrapping program headers; then the range is
    exactly the span of the PT_LOAD segments, the count, the entry and the last
    interpreter are those of the image, and the status is static exactly when
    there is no interpreter. Otherwise the plan is unsupported with an empty
    range. *)
Theorem elf_plan_correct H retries path c fuel t :
  HostLaws H retries → host_open H path = inr c → read_fuel retries 4096 ≤ fuel →
  ∃ plan t', build_elf_load_plan H fuel path t = Some (plan, t') ∧
    (plan_valid plan = true ↔ ∃ eh phs, elf_image c eh phs) ∧
    (if plan_valid plan
     then ∃ eh phs, elf_image c eh phs ∧ plan_of_image c eh phs plan
     else plan_rejected plan).
Proof.
  intros laws Hopen Hf. unfold build_elf_load_plan, mbind, io_bind. rewrite Hopen.
  destruct (plan_body_spec H retries c fuel t laws (open_size _ _ laws _ _ Hopen) Hf)
    as (plan & t' & -> & [(eh & phs & Hi & Hp)|[Hno Hr]]).
  - exists (with_report plan), t'. split; [done|].
    assert (Hp' : plan_of_image c eh phs (with_report plan))
      by (unfold plan_of_image in *; destruct plan; exact Hp).
    pose proof Hp' as (-> & _). split; [split; eauto|]. by exists eh, phs.
  - exists (with_report plan), t'. split; [done|].
    assert (Hr' : plan_rejected (with_report plan))
      by (unfold plan_rejected in *; destruct plan; exact Hr).
    pose proof Hr' as (-> & _). split; [|done].
    split; [done|]. intros (eh & phs & Hi). by destruct (Hno eh phs).
Qed.

Definition sample_elf : bytes :=
  ELFMAG ++ [byte_of 2; byte_of 1; byte_of 1] ++ le_bytes 9 0 ++
  le_bytes 2 2 ++ le_bytes 2 183 ++ le_bytes 4 1 ++ le_bytes 8 0x400100 ++ le_bytes 8 64 ++
  le_bytes 8 0 ++ le_bytes 4 0 ++ le_bytes 2 64 ++ le_bytes 2 56 ++ le_bytes 2 2 ++ le_bytes 6 0 ++
  (le_bytes 4 1 ++ le_bytes 4 5 ++ le_bytes 8 0 ++ le_bytes 8 0x400000 ++ le_bytes 8 0x400000 ++
   le_bytes 8 0x200 ++ le_bytes 8 0x300 ++ le_bytes 8 0x1000) ++
  (le_bytes 4 3 ++ le_bytes 4 4 ++ le_bytes 8 176 ++ le_bytes 8 0 ++ le_bytes 8 0 ++
   le_bytes 8 17 ++ le_bytes 8 17 ++ le_bytes 8 1) ++ str "/lib/ld-linux.so" ++ [nul].

Definition sample_files (p : bytes) : Z + bytes :=
  if decide (p = str "/bin/sh") then inr sample_elf else inl 2%Z.

Lemma elf_plan_correct_witness :
  ∃ plan t', build_elf_load_plan (choppy_host sample_files) (read_fuel 1 4096) "/bin/sh" 0 =
      Some (plan, t') ∧
    plan_status plan = InterpreterNeeded ∧ interpreter plan = str "/lib/ld-linux.so" ∧
    min_vaddr plan = 0x400000%Z ∧ max_vaddr plan = 0x400300%Z ∧
    (plan_valid plan = true ↔ ∃ eh phs, elf_image sample_elf eh phs) ∧
    (if plan_valid plan
     then ∃ eh phs, elf_image sample_elf eh phs ∧ plan_of_image sample_elf eh phs plan
     else plan_rejected plan).
Proof.
  destruct (elf_plan_correct (choppy_host sample_files) 1 "/bin/sh" sample_elf
    (read_fuel 1 4096) 0) as (plan & t' & Hb & Hrest).
  - apply choppy_laws. intros p c. unfold sample_files. case_decide; [|done].
    intros [= <-]. vm_compute. done.
  - done.
  - done.
  - exists plan, t'. split; [exact Hb|]. vm_compute in Hb. injection Hb as <- <-.
    repeat (split; [vm_compute; reflexivity|]). exact Hrest.
Defined.
