(* ===== verification/ExecMediation.v ===== *)
(** * [alr_runtime/alr_exec.cpp], the pure exec-mediation decisions

    [decide_exec_path_mediation] (the program path of an execve),
    [decide_exec_envp_injection] (LD_PRELOAD and ALR_ROOTFS of the child) and
    [decide_chromium_child_argv] (sandbox switches), with the rebuilding of the
    environment and argument vectors the supervisor performs on their
    decisions (runtime_report.cpp). *)

From S2P Require Import Prelude CppMap PathSpec PathRule GuestPath.

(** ** Program path *)

Definition path_under (path dir : bytes) : bool :=
  if bool_decide (dir = []) then false
  else if decide (length path < length dir) then false
  else if negb (bool_decide (take (length dir) path = dir)) then false
  else if decide (length path = length dir) then true
  else match drop (length dir) path with c :: _ => bool_decide (c = slash) | [] => false end.

Record ExecPathMediation := mk_mediation {
  em_guest_path : bytes;
  em_host_path : bytes;
  should_rewrite : bool;
  em_reason : bytes;
}.

Definition decide_exec_path_mediation (rootfs_dir guest_path : bytes)
    : result ExecPathMediation :=
  match guest_path with
  | [] => Ok (mk_mediation guest_path [] false "empty")
  | c :: _ =>
      if decide (c ≠ slash) then Ok (mk_mediation guest_path [] false "relative")
      else if path_under guest_path "/proc" || path_under guest_path "/sys" ||
              path_under guest_path "/dev"
      then Ok (mk_mediation guest_path [] false "sysdir")
      else if path_under guest_path rootfs_dir
      then Ok (mk_mediation guest_path [] false "already-host")
      else
        t ← translate_rootfs_path rootfs_dir "/" guest_path;
        mret (mk_mediation guest_path (host_path t) true "rewrite")
  end.

(** The path the kernel loads once the supervisor has acted on the decision. *)
Definition mediated_path (m : ExecPathMediation) : bytes :=
  if should_rewrite m then em_host_path m else em_guest_path m.

(** ** Environment entries *)

Definition split_env_entry (entry : bytes) : bytes * bytes :=
  match find_byte "="%byte entry 0 with
  | None => (entry, [])
  | Some eq => (substr entry 0 eq, substr_from entry (S eq))
  end.

(** The [while (start <= list.size())] loop, returning early on a match. *)
Fixpoint colon_list_loop (fuel : nat) (list needle : bytes) (start : nat) : bool :=
  match fuel with
  | 0 => false
  | S fuel =>
      if decide (start ≤ length list) then
        match find_byte ":"%byte list start with
        | None => bool_decide (substr list start (length list - start) = needle)
        | Some colon =>
            if decide (substr list start (colon - start) = needle) then true
            else colon_list_loop fuel list needle (S colon)
        end
      else false
  end.
Definition colon_list_contains (list needle : bytes) : bool :=
  if bool_decide (needle = []) then false
  else colon_list_loop (S (length list)) list needle 0.

Record ExecEnvpInjection := mk_injection {
  interpose_so : bytes;
  rootfs_value : bytes;
  add_entries : list bytes;
  replace_ld_preload : bool;
  ld_preload_value : bytes;
  inj_should_inject : bool;
  inj_reason : bytes;
}.

(** The scan for the first LD_PRELOAD value and for ALR_ROOTFS. *)
Definition scan_entry (st : option bytes * bool) (entry : bytes) : option bytes * bool :=
  let '(ld, have_rootfs) := st in
  let '(key, value) := split_env_entry entry in
  if bool_decide (ld = None) && bool_decide (key = str "LD_PRELOAD") then (Some value, have_rootfs)
  else if negb have_rootfs && bool_decide (key = str "ALR_ROOTFS") then (ld, true)
  else st.
Definition scan_env (env_entries : list bytes) : option bytes * bool :=
  foldl scan_entry (None, false) env_entries.

(** The [append] lambda; the state is [(built, seen)]. *)
Definition append_preload (st : bytes * list bytes) (v : bytes) : bytes * list bytes :=
  let '(built, seen) := st in
  if bool_decide (v = []) then st
  else if bool_decide (v ∈ seen) then st
  else (if bool_decide (built = []) then v else built ++ ":" ++ v, seen ++ [v]).

Definition desired_shims (rootfs_dir : bytes) (fakeroot : bool) : list bytes :=
  (if fakeroot then [rootfs_dir ++ "/usr/lib/androlinux/libalr_fakeroot.so"] else []) ++
  [rootfs_dir ++ "/usr/lib/androlinux/libalr_interpose.so"].

(** [if (!built.empty()) built += ':'; built += so;] for every shim. *)
Definition join_shims (desired : list bytes) : bytes :=
  foldl (λ built so, (if bool_decide (built = []) then [] else built ++ ":") ++ so) [] desired.

Definition decide_exec_envp_injection (rootfs_dir : bytes) (env_entries : list bytes)
    (fakeroot : bool) : ExecEnvpInjection :=
  if bool_decide (rootfs_dir = []) then mk_injection [] [] [] false [] false "already"
  else
    let interpose := rootfs_dir ++ "/usr/lib/androlinux/libalr_interpose.so" in
    let desired := desired_shims rootfs_dir fakeroot in
    let '(ld, have_rootfs) := scan_env env_entries in
    let have_ld_preload := bool_decide (is_Some ld) in
    let existing := default [] ld in
    let ld_preload_satisfied :=
      have_ld_preload && forallb (colon_list_contains existing) desired in
    let need_ld := negb ld_preload_satisfied in
    let need_rootfs := negb have_rootfs in
    let replace := need_ld && have_ld_preload in
    let value :=
      if need_ld then
        if have_ld_preload then
          (foldl append_preload ([], [])
             (desired ++ split_loop (S (length existing)) ":"%byte existing 0 [])).1
        else join_shims desired
      else [] in
    let add := (if need_ld then ["LD_PRELOAD=" ++ value] else []) ++
               (if need_rootfs then ["ALR_ROOTFS=" ++ rootfs_dir] else []) in
    let inject := negb (bool_decide (add = [])) || replace in
    mk_injection interpose rootfs_dir add replace value inject
      (if negb inject then str "already"
       else if replace then if fakeroot then str "prepend-fakeroot" else str "prepend-ld"
       else if need_ld && need_rootfs then str "inject-both"
       else if need_ld then str "inject-ld"
       else str "inject-rootfs").

(** The environment vector the supervisor writes: every guest entry except a
    replaced "LD_PRELOAD=...", then the added entries. *)
Definition rebuild_envp (inj : ExecEnvpInjection) (env_entries : list bytes) : list bytes :=
  if inj_should_inject inj then
    filter (λ e, (replace_ld_preload inj && is_prefix "LD_PRELOAD=" e) = false) env_entries
      ++ add_entries inj
  else env_entries.

(** ** Chromium children *)

(** [p.substr(p.find_last_of('/') + 1)] *)
Definition path_basename (p : bytes) : bytes :=
  default p (last (split_on slash p)).

Record ChromiumChildArgv := mk_chromium {
  cc_should_inject : bool;
  add_flags : list bytes;
  cc_reason : bytes;
}.

Definition kSandboxFlags : list bytes :=
  strs ["--no-sandbox"; "--disable-seccomp-filter-sandbox"; "--disable-setuid-sandbox";
        "--disable-namespace-sandbox"; "--disable-gpu-sandbox"].

Definition decide_chromium_child_argv (program_path : bytes) (argv : list bytes)
    : ChromiumChildArgv :=
  let base := path_basename program_path in
  if negb (bool_decide (base = str "chromium")) && negb (bool_decide (base = str "chrome"))
  then mk_chromium false [] "not-chromium"
  else
    let missing := filter (λ flag, flag ∉ argv) kSandboxFlags in
    if bool_decide (missing = []) then mk_chromium false [] "already"
    else mk_chromium true missing "inject".

(** The argument vector the supervisor writes. *)
Definition rebuild_argv (c : ChromiumChildArgv) (argv : list bytes) : list bytes :=
  if cc_should_inject c then argv ++ add_flags c else argv.

(** ** Program path lemmas *)

(** The [string_view] prefix test agrees with the C one. *)
Lemma path_under_alr p d : path_under p d = alr_path_under p d.
Proof.
  unfold path_under, alr_path_under. destruct d as [|c d]; [done|].
  rewrite bool_decide_false by done. set (dir := c :: d).
  destruct (is_prefix dir p) eqn:Hp.
  - apply is_prefix_spec in Hp as [r ->].
    rewrite decide_False by (rewrite length_app; lia).
    rewrite take_app_length, drop_app_length, bool_decide_true by done. cbn [negb andb].
    destruct r as [|x r].
    + rewrite decide_True by (rewrite length_app; simpl; lia). done.
    + rewrite decide_False by (rewrite length_app; simpl; lia). done.
  - case_decide; [done|]. case_bool_decide as Ht; [|done]. exfalso.
    assert (Hx : is_prefix dir p = true).
    { apply is_prefix_spec. exists (drop (length dir) p). by rewrite <- Ht, take_drop at 1. }
    congruence.
Qed.

Lemma mediation_sysdir p :
  path_under p "/proc" || path_under p "/sys" || path_under p "/dev" = alr_is_sysdir p.
Proof. by rewrite !path_under_alr. Qed.

Lemma trim_nonempty root : starts_slash root = true → trim_trailing_slashes root ≠ [].
Proof. by destruct root. Qed.

(** A rewritten path is recognised by one of the two guards. *)
Lemma mediated_host_guarded root cwd p t :
  translate_rootfs_path root cwd p = Ok t → trim_trailing_slashes root = root →
  alr_is_sysdir (host_path t) || alr_path_under (host_path t) root = true.
Proof.
  intros Ht Htrim. pose proof (translate_Ok _ _ _ _ Ht) as (_ & Hs & _).
  destruct (translate_host_cases _ _ _ _ Ht) as [[Hd _]|(cs & Hcs & Hh)]; [by rewrite Hd|].
  apply orb_true_iff. right. rewrite Hh, Htrim. apply path_under_spec.
  split; [by destruct root|]. exists (subpath cs). split; [done|].
  by destruct cs.
Qed.

(** ** Environment lemmas *)

(** What [getenv] would see: the value of the first entry with the key. *)
Fixpoint env_value (key : bytes) (entries : list bytes) : option bytes :=
  match entries with
  | [] => None
  | e :: es =>
      if decide ((split_env_entry e).1 = key) then Some (split_env_entry e).2
      else env_value key es
  end.

Lemma scan_env_from ld b es :
  foldl scan_entry (ld, b) es =
  (match ld with Some _ => ld | None => env_value "LD_PRELOAD" es end,
   b || bool_decide (is_Some (env_value "ALR_ROOTFS" es))).
Proof.
  revert ld b. induction es as [|e es IH]; intros ld b.
  { cbn [foldl env_value]. destruct ld; by rewrite orb_false_r. }
  cbn [foldl env_value]. unfold scan_entry at 2.
  destruct (split_env_entry e) as [k v]. cbn [fst snd].
  destruct (decide (k = str "LD_PRELOAD")) as [->|Hk].
  - rewrite (bool_decide_true (str "LD_PRELOAD" = _)) by done.
    rewrite (bool_decide_false (str "LD_PRELOAD" = str "ALR_ROOTFS")) by done.
    rewrite (decide_False (P := str "LD_PRELOAD" = str "ALR_ROOTFS")) by done.
    rewrite andb_true_r, andb_false_r.
    destruct ld as [l|]; [rewrite (bool_decide_false (Some l = None)) by done|
                          rewrite (bool_decide_true (None = None)) by done]; by rewrite IH.
  - rewrite (bool_decide_false (k = _)) by done. rewrite andb_false_r.
    destruct (decide (k = str "ALR_ROOTFS")) as [->|Hr].
    + rewrite (bool_decide_true (str "ALR_ROOTFS" = _)) by done. rewrite andb_true_r.
      rewrite (bool_decide_true (is_Some (Some v))) by (eexists; done).
      destruct b; cbn [negb]; rewrite IH; by rewrite ?orb_true_r.
    + rewrite (bool_decide_false (k = _)) by done. rewrite andb_false_r. by rewrite IH.
Qed.

Lemma scan_env_spec es :
  scan_env es = (env_value "LD_PRELOAD" es, bool_decide (is_Some (env_value "ALR_ROOTFS" es))).
Proof. unfold scan_env. by rewrite scan_env_from. Qed.

Lemma env_value_app k es1 es2 :
  env_value k (es1 ++ es2) =
  match env_value k es1 with Some v => Some v | None => env_value k es2 end.
Proof.
  induction es1 as [|e es1 IH]; cbn [app env_value]; [done|]. by case_decide.
Qed.

Lemma split_ld_entry v : split_env_entry ("LD_PRELOAD=" ++ v) = (str "LD_PRELOAD", v).
Proof. done. Qed.
Lemma split_rootfs_entry v : split_env_entry ("ALR_ROOTFS=" ++ v) = (str "ALR_ROOTFS", v).
Proof. done. Qed.

(** An entry with key LD_PRELOAD is bare or starts with "LD_PRELOAD=". *)
Lemma ld_entry_cases e :
  (split_env_entry e).1 = str "LD_PRELOAD" →
  e = str "LD_PRELOAD" ∨ is_prefix "LD_PRELOAD=" e = true.
Proof.
  unfold split_env_entry, find_byte. change (drop 0 e) with e.
  destruct (find_from "="%byte e) as [k|] eqn:E; cbn [fmap option_fmap option_map]; [|by left].
  destruct (find_from_Some _ _ _ E) as (r & He & _). change (0 + k) with k.
  unfold substr. cbn [fst]. change (drop 0 e) with e. intros Hk.
  right. apply is_prefix_spec. exists r. rewrite He, Hk. done.
Qed.

Lemma not_prefix_not_key e :
  is_prefix "LD_PRELOAD=" e = true → (split_env_entry e).1 = str "LD_PRELOAD".
Proof. intros [r ->]%is_prefix_spec. by rewrite split_ld_entry. Qed.

Lemma env_value_filter_ld (f : bytes → bool) es :
  (∀ e, f e = true → (split_env_entry e).1 = str "LD_PRELOAD") →
  env_value "ALR_ROOTFS" (filter (λ e, f e = false) es) = env_value "ALR_ROOTFS" es.
Proof.
  intros Hf. induction es as [|e es IH]; [done|].
  destruct (f e) eqn:Ef.
  - rewrite filter_cons_False by congruence. cbn [env_value].
    rewrite (Hf e Ef), decide_False by done. done.
  - rewrite filter_cons_True by done. cbn [env_value]. by rewrite IH.
Qed.

Lemma env_value_dropped es :
  str "LD_PRELOAD" ∉ es →
  env_value "LD_PRELOAD" (filter (λ e, is_prefix "LD_PRELOAD=" e = false) es) = None.
Proof.
  induction es as [|e es IH]; intros Hb; [done|].
  apply not_elem_of_cons in Hb as [Hne Hb].
  destruct (is_prefix "LD_PRELOAD=" e) eqn:Ep.
  - rewrite filter_cons_False by congruence. auto.
  - rewrite filter_cons_True by done. cbn [env_value].
    rewrite decide_False; [auto|]. intros [->|Hx]%ld_entry_cases; [done|congruence].
Qed.

(** ** Colon lists *)

Lemma colon_list_loop_spec fuel l needle start :
  length l - start < fuel → start ≤ length l →
  colon_list_loop fuel l needle start =
  bool_decide (needle ∈ split_on ":"%byte (drop start l)).
Proof.
  revert start. induction fuel as [|fuel IH]; intros start Hf Hs; [lia|].
  cbn [colon_list_loop]. rewrite decide_True by done. unfold find_byte.
  destruct (find_from ":"%byte (drop start l)) as [k|] eqn:E;
    cbn [fmap option_fmap option_map].
  - destruct (find_from_Some _ _ _ E) as (r & Hd & Hn & Hr & Hlt).
    rewrite length_drop in Hlt. unfold substr.
    replace (start + k - start) with k by lia.
    assert (Hr' : drop (S (start + k)) l = r).
    { rewrite Hr, drop_drop. f_equal. lia. }
    assert (Hsp : split_on ":"%byte (drop start l) =
                  take k (drop start l) :: split_on ":"%byte r).
    { rewrite Hd at 1. by apply split_on_app. }
    rewrite IH, Hr', Hsp by lia.
    case_decide as Hx; symmetry.
    + apply bool_decide_eq_true. subst. left.
    + apply bool_decide_ext. rewrite elem_of_cons. naive_solver.
  - apply find_from_None in E. rewrite split_on_single by done.
    unfold substr. rewrite take_ge by (rewrite length_drop; lia).
    apply bool_decide_ext. rewrite list_elem_of_singleton. naive_solver.
Qed.

Lemma colon_list_contains_spec l needle :
  colon_list_contains l needle = true ↔ needle ≠ [] ∧ needle ∈ split_on ":"%byte l.
Proof.
  unfold colon_list_contains. case_bool_decide; [naive_solver|].
  rewrite colon_list_loop_spec by lia. rewrite bool_decide_eq_true. naive_solver.
Qed.

Lemma join_on_snoc c l x :
  join_on c (l ++ [x]) = match l with [] => x | _ => join_on c l ++ c :: x end.
Proof.
  induction l as [|y l IH]; [done|]. destruct l as [|z l]; [done|].
  change (join_on c ((y :: z :: l) ++ [x])) with (y ++ c :: join_on c ((z :: l) ++ [x])).
  rewrite IH. change (join_on c (y :: z :: l)) with (y ++ c :: join_on c (z :: l)).
  by rewrite <- (assoc_L (++)).
Qed.

Lemma join_on_nil c l : Forall (λ x, x ≠ []) l → join_on c l = [] → l = [].
Proof.
  intros Hne Hj. destruct l as [|x [|y l]]; [done| |].
  - inversion Hne; subst. simpl in Hj. done.
  - simpl in Hj. by apply app_eq_nil in Hj as [_ ?].
Qed.

(** The [append] lambda keeps [built] the ':'-join of [seen]. *)
Lemma append_preload_inv l built seen :
  Forall (λ x, x ≠ []) seen → built = join_on ":"%byte seen →
  ∃ seen', foldl append_preload (built, seen) l = (join_on ":"%byte seen', seen') ∧
    Forall (λ x, x ≠ []) seen' ∧
    (∀ x, x ∈ seen' ↔ x ∈ seen ∨ (x ∈ l ∧ x ≠ [])).
Proof.
  revert built seen. induction l as [|v l IH]; intros built seen Hne ->.
  { exists seen. split; [done|]. split; [done|]. intros x.
    rewrite elem_of_nil. naive_solver. }
  cbn [foldl]. unfold append_preload at 2.
  case_bool_decide as Hv.
  { destruct (IH _ _ Hne eq_refl) as (s & -> & Hs & Hin). exists s.
    split; [done|]. split; [done|]. intros x. rewrite Hin, elem_of_cons. naive_solver. }
  case_bool_decide as Hd.
  { destruct (IH _ _ Hne eq_refl) as (s & -> & Hs & Hin). exists s.
    split; [done|]. split; [done|]. intros x. rewrite Hin, elem_of_cons. naive_solver. }
  destruct (IH (if bool_decide (join_on ":"%byte seen = []) then v
                else join_on ":"%byte seen ++ ":" ++ v) (seen ++ [v])) as (s & E & Hs & Hin).
  - apply Forall_app_2; [done|]. by constructor.
  - rewrite join_on_snoc. case_bool_decide as Hj.
    + apply join_on_nil in Hj as ->; done.
    + by destruct seen.
  - exists s. rewrite E. split; [done|]. split; [done|]. intros x.
    rewrite Hin, elem_of_app, list_elem_of_singleton, elem_of_cons. naive_solver.
Qed.

Lemma join_shims_join l : Forall (λ x, x ≠ []) l → join_shims l = join_on ":"%byte l.
Proof.
  unfold join_shims. induction l as [|x l IH] using rev_ind; intros Hne; [done|].
  apply Forall_app in Hne as [Hl Hx]. rewrite foldl_app. cbn [foldl].
  rewrite IH, join_on_snoc by done. case_bool_decide as Hj.
  - by apply join_on_nil in Hj as ->.
  - destruct l; [done|]. by rewrite <- (assoc_L (++)).
Qed.

Lemma split_join_seen l :
  Forall (λ x, ":"%byte ∉ x) l → l ≠ [] → split_on ":"%byte (join_on ":"%byte l) = l.
Proof. intros. by apply split_on_join. Qed.

Lemma desired_shims_ok root fk :
  ":"%byte ∉ root →
  Forall (λ x, x ≠ [] ∧ ":"%byte ∉ x) (desired_shims root fk) ∧ desired_shims root fk ≠ [].
Proof.
  intros Hc. unfold desired_shims.
  assert (Hs : ∀ s : bytes, has_byte ":"%byte s = false → s ≠ [] →
    root ++ s ≠ [] ∧ ":"%byte ∉ root ++ s).
  { intros s Hh Hne. split; [by intros [_ ?]%app_eq_nil|].
    apply has_byte_false in Hh. rewrite elem_of_app. tauto. }
  destruct fk; cbn [app]; (split; [|done]); repeat constructor; by apply Hs.
Qed.

(** The injected LD_PRELOAD value lists every shim and every guest preload. *)
Lemma injected_value_elements root fk existing :
  ":"%byte ∉ root →
  let v := (foldl append_preload ([], [])
     (desired_shims root fk ++ split_loop (S (length existing)) ":"%byte existing 0 [])).1 in
  (∀ x, x ∈ desired_shims root fk → x ∈ split_on ":"%byte v) ∧
  (∀ x, x ∈ split_on ":"%byte existing → x ≠ [] → x ∈ split_on ":"%byte v).
Proof.
  intros Hc v. destruct (desired_shims_ok root fk Hc) as [Hok Hne].
  destruct (append_preload_inv (desired_shims root fk ++
      split_loop (S (length existing)) ":"%byte existing 0 []) [] []) as (s & E & Hs & Hin);
    [constructor|done|].
  rewrite split_loop_on in *.
  assert (Hv : v = join_on ":"%byte s) by (subst v; by rewrite split_loop_on, E).
  assert (Hin' : ∀ x, x ∈ desired_shims root fk → x ∈ s).
  { intros x Hx. apply Hin. right. rewrite elem_of_app. split; [by left|].
    rewrite Forall_forall in Hok. by apply Hok. }
  assert (Hsp : split_on ":"%byte v = s).
  { rewrite Hv. apply split_on_join.
    - destruct (desired_shims root fk) as [|d ds]; [done|].
      intros ->. destruct (not_elem_of_nil d). apply Hin'. left.
    - apply Forall_forall. intros x [Hx|[Hx _]]%Hin; [by apply not_elem_of_nil in Hx|].
      apply elem_of_app in Hx as [Hx|Hx].
      + rewrite Forall_forall in Hok. by apply Hok.
      + pose proof (split_on_no_sep ":"%byte existing) as Hf.
        rewrite Forall_forall in Hf. by apply Hf. }
  rewrite Hsp. split; [exact Hin'|]. intros x Hx Hxne.
  apply Hin. right. rewrite elem_of_app. auto.
Qed.

(** What an environment needs for the decision to be "already". *)
Lemma envp_satisfied root es fk v :
  root ≠ [] → ":"%byte ∉ root →
  env_value "LD_PRELOAD" es = Some v → is_Some (env_value "ALR_ROOTFS" es) →
  (∀ x, x ∈ desired_shims root fk → x ∈ split_on ":"%byte v) →
  inj_should_inject (decide_exec_envp_injection root es fk) = false.
Proof.
  intros Hr Hc Hld Hrf Hall. unfold decide_exec_envp_injection.
  rewrite bool_decide_false by done. rewrite scan_env_spec, Hld.
  rewrite (bool_decide_true _ Hrf). change (default [] (Some v)) with v.
  rewrite (bool_decide_true (is_Some (Some v))) by (eexists; done).
  assert (Hf : forallb (colon_list_contains v) (desired_shims root fk) = true).
  { apply forallb_forall. intros x Hx%list_elem_of_In. apply colon_list_contains_spec.
    destruct (desired_shims_ok root fk Hc) as [Hok _]. rewrite Forall_forall in Hok.
    split; [by apply Hok|auto]. }
  rewrite Hf. done.
Qed.

(** ** The rebuilt environment *)

Lemma rebuild_envp_app inj es :
  inj_should_inject inj = negb (bool_decide (add_entries inj = [])) || replace_ld_preload inj →
  rebuild_envp inj es =
  filter (λ e, (replace_ld_preload inj && is_prefix "LD_PRELOAD=" e) = false) es
    ++ add_entries inj.
Proof.
  intros Hi. unfold rebuild_envp. rewrite Hi.
  destruct (replace_ld_preload inj); [by rewrite orb_true_r|].
  rewrite orb_false_r. case_bool_decide as Ha; [|done]. rewrite Ha, app_nil_r. cbn [negb andb].
  clear. induction es as [|e es IH]; [done|]. rewrite filter_cons_True by done. by f_equal.
Qed.

Lemma filter_ld_prefix b (es add : list bytes) :
  filter (λ e, is_prefix "LD_PRELOAD=" e = false) es `prefix_of`
  filter (λ e, is_prefix "LD_PRELOAD=" e = false)
    (filter (λ e, (b && is_prefix "LD_PRELOAD=" e) = false) es ++ add).
Proof.
  rewrite filter_app, list_filter_filter_l; [by apply prefix_app_r|].
  intros e ->. by rewrite andb_false_r.
Qed.

Lemma rootfs_kept b es add :
  env_value "ALR_ROOTFS" (filter (λ e, (b && is_prefix "LD_PRELOAD=" e) = false) es ++ add) =
  match env_value "ALR_ROOTFS" es with Some v => Some v | None => env_value "ALR_ROOTFS" add end.
Proof.
  rewrite env_value_app, (env_value_filter_ld (λ e, b && is_prefix "LD_PRELOAD=" e)); [done|].
  intros e [_ He]%andb_true_iff. by apply not_prefix_not_key.
Qed.

Lemma env_value_ld_cons v add :
  env_value "LD_PRELOAD" (("LD_PRELOAD=" ++ v) :: add) = Some v.
Proof. cbn [env_value]. by rewrite split_ld_entry, decide_True. Qed.

Lemma env_value_rootfs_last add root :
  is_Some (env_value "ALR_ROOTFS" (add ++ ["ALR_ROOTFS=" ++ root])).
Proof.
  rewrite env_value_app. destruct (env_value _ add); [by eexists|].
  cbn [env_value]. rewrite split_rootfs_entry, decide_True by done. by eexists.
Qed.

Lemma filter_keep (es : list bytes) :
  filter (λ e, (false && is_prefix "LD_PRELOAD=" e) = false) es = es.
Proof. induction es as [|e es IH]; [done|]. rewrite filter_cons_True by done. by f_equal. Qed.

Lemma rebuild_spec root es fk :
  root ≠ [] → ":"%byte ∉ root → str "LD_PRELOAD" ∉ es →
  let es' := rebuild_envp (decide_exec_envp_injection root es fk) es in
  (∃ v, env_value "LD_PRELOAD" es' = Some v ∧
     (∀ shim, shim ∈ desired_shims root fk → shim ∈ split_on ":"%byte v) ∧
     (∀ old e, env_value "LD_PRELOAD" es = Some old →
        e ∈ split_on ":"%byte old → e ≠ [] → e ∈ split_on ":"%byte v)) ∧
  is_Some (env_value "ALR_ROOTFS" es') ∧
  filter (λ e, is_prefix "LD_PRELOAD=" e = false) es `prefix_of`
    filter (λ e, is_prefix "LD_PRELOAD=" e = false) es'.
Proof.
  intros Hr Hc Hbare. unfold decide_exec_envp_injection.
  rewrite bool_decide_false by done. rewrite scan_env_spec.
  destruct (desired_shims_ok root fk Hc) as [Hok Hne].
  destruct (injected_value_elements root fk (default [] (env_value "LD_PRELOAD" es)) Hc)
    as [Hsh Hold].
  set (v0 := (foldl append_preload _ _).1) in *. cbv zeta.
  rewrite rebuild_envp_app by done. cbn [replace_ld_preload add_entries].
  split; [|split; [|apply filter_ld_prefix]].
  - destruct (env_value "LD_PRELOAD" es) as [old|] eqn:Eld; cbn [from_option] in *; unfold id in *.
    + rewrite (bool_decide_true (is_Some (Some old))) by (eexists; done). cbn [andb].
      destruct (forallb (colon_list_contains old) (desired_shims root fk)) eqn:Ef; cbn [negb andb].
      * exists old. rewrite filter_keep. split; [by rewrite env_value_app, Eld|].
        split; [|naive_solver]. intros x Hx. rewrite forallb_forall in Ef.
        by apply list_elem_of_In, Ef, colon_list_contains_spec in Hx as [_ ?].
      * exists v0. split; [|split; [done|naive_solver]].
        rewrite env_value_app, env_value_dropped by done. cbn [app]. apply env_value_ld_cons.
    + rewrite (bool_decide_false (is_Some None)) by (by intros [? ?]). cbn [andb negb].
      rewrite filter_keep. exists (join_shims (desired_shims root fk)).
      split; [by rewrite env_value_app, Eld; apply env_value_ld_cons|].
      split; [|naive_solver]. intros x Hx.
      rewrite join_shims_join by (eapply Forall_impl; [exact Hok|naive_solver]).
      rewrite split_on_join; [done|done|]. eapply Forall_impl; [exact Hok|naive_solver].
  - rewrite rootfs_kept. destruct (env_value "ALR_ROOTFS" es); [by eexists|].
    rewrite (bool_decide_false (is_Some None)) by (by intros [? ?]). cbn [negb].
    apply env_value_rootfs_last.
Qed.


(** ** Properties *)

(** Exec path mediation reaches a fixed point in one step: mediating the path
    the kernel is given is never rewritten again and names the same file, so a
    path can cross any number of nested execs. (The rootfs is configured
    without a trailing slash; with one, the guard of the second pass does not
    recognise its own result.) *)
Theorem exec_mediation_idempotent rootfs path m :
  trim_trailing_slashes rootfs = rootfs →
  decide_exec_path_mediation rootfs path = Ok m →
  ∃ m', decide_exec_path_mediation rootfs (mediated_path m) = Ok m' ∧
    should_rewrite m' = false ∧ mediated_path m' = mediated_path m.
Proof.
  intros Htrim Hm.
  assert (Hkeep : ∀ p r, decide_exec_path_mediation rootfs p = Ok (mk_mediation p [] false r) →
    ∃ m', decide_exec_path_mediation rootfs p = Ok m' ∧ should_rewrite m' = false ∧
          mediated_path m' = p).
  { intros p r Hp. eexists. split; [exact Hp|done]. }
  pose proof Hm as Hm0. unfold decide_exec_path_mediation in Hm.
  destruct path as [|c p]; [inv_ok; by eapply Hkeep|].
  case_decide; [inv_ok; by eapply Hkeep|].
  rewrite mediation_sysdir in Hm. destruct (alr_is_sysdir _); [inv_ok; by eapply Hkeep|].
  destruct (path_under (c :: p) rootfs); [inv_ok; by eapply Hkeep|].
  apply bind_Ok in Hm as (t & Ht & Hm). inv_ok. cbn [mediated_path should_rewrite em_host_path].
  pose proof (mediated_host_guarded _ _ _ _ Ht Htrim) as Hg.
  unfold decide_exec_path_mediation. rewrite mediation_sysdir, path_under_alr.
  destruct (host_path t) as [|c' h]; [by eexists|].
  case_decide; [by eexists|].
  apply orb_true_iff in Hg as [-> |Hg]; [by eexists|].
  destruct (alr_is_sysdir _); [by eexists|]. rewrite Hg. by eexists.
Qed.

Lemma exec_mediation_idempotent_witness :
  ∃ m, decide_exec_path_mediation "/data/r" "/usr/../bin/sh" = Ok m ∧
    em_host_path m = "/data/r/bin/sh" ∧
    ∃ m', decide_exec_path_mediation "/data/r" (mediated_path m) = Ok m' ∧
      should_rewrite m' = false ∧ mediated_path m' = mediated_path m.
Proof.
  eexists. split; [vm_compute; reflexivity|]. split; [reflexivity|].
  apply (exec_mediation_idempotent "/data/r" "/usr/../bin/sh"); vm_compute; reflexivity.
Defined.

(** The guards of [decide_exec_path_mediation] look at the path before it is
    normalized: a path that only enters a kernel directory lexically is left
    native, while the shared rule of alr_path_rule.h redirects it. *)
Example mediation_unnormalized_sysdir :
  decide_exec_path_mediation "/data/r" "/proc/../bin/sh" =
    Ok (mk_mediation "/proc/../bin/sh" [] false "sysdir") ∧
  rw_string "/proc/../bin/sh" (alr_rw "/proc/../bin/sh" "/data/r" 4096) =
    Some (str "/data/r/bin/sh").
Proof. split; vm_compute; reflexivity. Qed.


Definition sample_env : list bytes :=
  strs ["HOME=/root"; "LD_PRELOAD=/opt/x.so:/opt/y.so"; "TERM=xterm"].


(** A bare "LD_PRELOAD" entry defeats the idempotence: the supervisor drops
    only "LD_PRELOAD=..." entries, so the bare one keeps hiding the injected
    value and every exec of the chain injects again. *)
Example envp_injection_bare_entry :
  let inj := decide_exec_envp_injection "/r" (strs ["LD_PRELOAD"]) false in
  let env1 := rebuild_envp inj (strs ["LD_PRELOAD"]) in
  env1 = strs ["LD_PRELOAD"; "LD_PRELOAD=/r/usr/lib/androlinux/libalr_interpose.so";
               "ALR_ROOTFS=/r"] ∧
  inj_should_inject (decide_exec_envp_injection "/r" env1 false) = true.
Proof. split; vm_compute; reflexivity. Qed.

Lemma no_missing (flags argv : list bytes) :
  (∀ f, f ∈ flags → f ∈ argv) → filter (λ f, f ∉ argv) flags = [].
Proof.
  induction flags as [|f fs IH]; intros H; [done|]. rewrite filter_cons_False.
  - apply IH. intros g Hg. apply H. by right.
  - intros Hn. apply Hn, H. left.
Qed.

(** Chromium children: the rebuilt argument vector extends the original one
    (argv[0] untouched), carries every sandbox switch, adds none that was
    there, and is left alone by the next decision. *)
Theorem chromium_argv_correct program argv :
  path_basename program = str "chromium" ∨ path_basename program = str "chrome" →
  let argv' := rebuild_argv (decide_chromium_child_argv program argv) argv in
  (∃ added, argv' = argv ++ added ∧ ∀ f, f ∈ added → f ∈ kSandboxFlags ∧ f ∉ argv) ∧
  (∀ f, f ∈ kSandboxFlags → f ∈ argv') ∧
  cc_should_inject (decide_chromium_child_argv program argv') = false.
Proof.
  intros Hb. unfold decide_chromium_child_argv. cbv zeta.
  assert (Hbase : negb (bool_decide (path_basename program = str "chromium")) &&
    negb (bool_decide (path_basename program = str "chrome")) = false).
  { by destruct Hb as [-> | ->]. }
  rewrite Hbase. set (missing := filter _ kSandboxFlags).
  assert (Hargv : rebuild_argv (if bool_decide (missing = []) then mk_chromium false [] "already"
      else mk_chromium true missing "inject") argv = argv ++ missing).
  { clear Hbase. destruct (bool_decide_reflect (missing = [])) as [Hm|Hm]; unfold rebuild_argv; cbn [cc_should_inject add_flags]; [by rewrite Hm, app_nil_r|done]. }
  cbv zeta. rewrite Hargv.
  assert (Hall : ∀ f, f ∈ kSandboxFlags → f ∈ argv ++ missing).
  { intros f Hf. rewrite elem_of_app. destruct (decide (f ∈ argv)); [by left|right].
    by apply list_elem_of_filter. }
  split; [|split; [exact Hall|]].
  - exists missing. split; [done|]. intros f [? ?]%list_elem_of_filter. done.
  - rewrite bool_decide_true; [done|]. apply no_missing. exact Hall.
Qed.

Lemma chromium_argv_correct_witness :
  let argv := strs ["chromium"; "--type=zygote"; "--no-sandbox"] in
  let argv' := rebuild_argv (decide_chromium_child_argv "/r/usr/lib/chromium/chromium" argv) argv in
  argv' = strs ["chromium"; "--type=zygote"; "--no-sandbox"; "--disable-seccomp-filter-sandbox";
    "--disable-setuid-sandbox"; "--disable-namespace-sandbox"; "--disable-gpu-sandbox"] ∧
  cc_should_inject (decide_chromium_child_argv "/r/usr/lib/chromium/chromium" argv') = false.
Proof.
  split; [vm_compute; reflexivity|].
  apply (chromium_argv_correct "/r/usr/lib/chromium/chromium"). left. vm_compute. reflexivity.
Defined.
