(* ===== verification/ExecPlan.v ===== *)
(** * [alr_runtime/alr_exec.cpp], resolution and the continuation plan, and
    [alr_runtime_trampoline.cpp], the program the plan starts

    [resolve_guest_executable] looks the program up in the guest PATH, stats and
    probes the host file, and classifies it; [build_exec_continuation_plan]
    prepares argv and environment for the packaged trampoline.  The trampoline's
    [main] checks what it was handed. *)

From S2P Require Import Prelude CppMap PathSpec PathRule GuestPath RuntimeConfig HostFs ExecMediation.
From S2P Require Import ElfPlan.

Inductive ExecutableKind := Missing | Elf | Shebang | UnsupportedKind.
Inductive ExecContinuationKind := Execve | Execvp | PosixSpawn.
#[export] Instance ExecContinuationKind_eq_dec : EqDecision ExecContinuationKind.
Proof. solve_decision. Defined.

Record ShebangInfo := mk_shebang { sb_interpreter : bytes; sb_argument : bytes }.

Record ExecutableResolution := mk_resolution {
  er_translation : PathTranslation;
  er_kind : ExecutableKind;
  er_resolved : bool;
  er_classified : bool;
  er_shebang : ShebangInfo;
  er_strategy : bytes;
  er_error : bytes;
  er_report : bytes;
}.

Definition empty_resolution : ExecutableResolution :=
  mk_resolution (mk_translation [] [] false) Missing false false (mk_shebang [] [])
    "plan-only" [] [].

Record ExecContinuationPlan := mk_cplan {
  cp_resolution : ExecutableResolution;
  cp_kind : ExecContinuationKind;
  cp_planned : bool;
  cp_path_lookup : bool;
  cp_uses_packaged_trampoline : bool;
  cp_config_handoff : bool;
  cp_argv : list bytes;
  cp_env_overrides : list bytes;
  cp_error : bytes;
  cp_report : bytes;
}.

(** ** Candidates *)

Definition kProbeBytes : nat := 256.

Definition split_colon_paths (value : bytes) : list bytes :=
  filter (λ part, part ≠ [] ∧ is_guest_absolute_path part = true)
    (split_loop (S (length value)) ":"%byte value 0 []).

Definition join_guest_path (dir name : bytes) : bytes :=
  if bool_decide (dir = str "/") then "/" ++ name else dir ++ "/" ++ name.

Definition is_plain_command_name (value : bytes) : bool :=
  negb (bool_decide (value = [])) && negb (has_byte slash value).

Definition requires_path_lookup (requested : bytes) (kind : ExecContinuationKind) : bool :=
  bool_decide (kind = Execvp) && is_plain_command_name requested.

Definition configured_trampoline_path (c : RuntimeConfig) : bytes :=
  default [] (smap_find "ALR_TRAMPOLINE_PATH" (env c)).

Definition default_path : bytes :=
  "/usr/local/sbin:/usr/local/bin:/usr/sbin:/usr/bin:/sbin:/bin".

Definition candidate_guest_paths (c : RuntimeConfig) (requested : bytes) : result (list bytes) :=
  throw_if (bool_decide (requested = [])) "requested program must not be empty";;
  if is_guest_absolute_path requested || has_byte slash requested
  then p ← normalize_guest_path requested (cwd c); mret [p]
  else
    throw_if (negb (is_plain_command_name requested))
      "requested program must be an absolute path or PATH command name";;
    mapM (λ dir, normalize_guest_path (join_guest_path dir requested) "/")
      (split_colon_paths (default default_path (smap_find "PATH" (env c)))).

(** ** Classification *)

Definition is_eol (c : byte) : bool := bool_decide (c = newline) || bool_decide (c = Byte.x0d).
Definition is_blank (c : byte) : bool := bool_decide (c = " "%byte) || bool_decide (c = tab).

(** The bytes before the first one satisfying [f]. *)
Fixpoint take_until (f : byte → bool) (s : bytes) : bytes :=
  match s with [] => [] | c :: s' => if f c then [] else c :: take_until f s' end.

Definition parse_shebang (s : bytes) : ShebangInfo :=
  let line := take_until is_eol (drop 2 s) in
  let trimmed := trim_end is_blank (drop_while is_blank line) in
  let word := take_until is_blank trimmed in
  if decide (length word = length trimmed) then mk_shebang trimmed []
  else mk_shebang word (drop_while is_blank (drop (length word) trimmed)).

Definition classify_bytes (s : bytes) (shebang : ShebangInfo) : ExecutableKind * ShebangInfo :=
  if is_prefix ELFMAG s then (Elf, shebang)
  else if is_prefix "#!" s then
    let sb := parse_shebang s in
    (if bool_decide (sb_interpreter sb = []) then UnsupportedKind else Shebang, sb)
  else (UnsupportedKind, shebang).

(** ** Reports *)

Definition executable_kind_name (kind : ExecutableKind) : bytes :=
  match kind with
  | Missing => "missing" | Elf => "elf" | Shebang => "shebang" | UnsupportedKind => "unsupported"
  end.
Definition exec_continuation_kind_name (kind : ExecContinuationKind) : bytes :=
  match kind with Execve => "execve" | Execvp => "execvp" | PosixSpawn => "posix_spawn" end.

Definition pass (b : bool) : bytes := if b then "PASS" else "FAIL".
(** [if (!v.empty()) out << eol << label << v;] *)
Definition opt_line (label v : bytes) : bytes :=
  if bool_decide (v = []) then [] else eol ++ label ++ v.

Definition resolution_report (r : ExecutableResolution) : bytes :=
  "ALR EXEC RESOLVE: " ++ pass (er_resolved r) ++
  eol ++ "ALR EXEC CLASSIFY: " ++ pass (er_classified r) ++
  eol ++ "ALR EXEC STRATEGY: " ++ er_strategy r ++
  eol ++ "alr exec guest path=" ++ guest_path (er_translation r) ++
  eol ++ "alr exec host path=" ++ host_path (er_translation r) ++
  eol ++ "alr exec kind=" ++ executable_kind_name (er_kind r) ++
  opt_line "alr exec shebang interpreter=" (sb_interpreter (er_shebang r)) ++
  opt_line "alr exec shebang argument=" (sb_argument (er_shebang r)) ++
  opt_line "alr exec error=" (er_error r).

Definition plan_status_text (p : ExecContinuationPlan) : bytes := pass (cp_planned p).
Definition kind_line_status (p : ExecContinuationPlan) (kind : ExecContinuationKind) : bytes :=
  if bool_decide (cp_kind p = kind) then plan_status_text p else "SKIP".

Definition build_continuation_report (p : ExecContinuationPlan) : bytes :=
  "ALR EXEC CONTINUITY PLAN: " ++ plan_status_text p ++
  eol ++ "ALR EXECVE CHILD CONTINUITY PLAN: " ++ kind_line_status p Execve ++
  eol ++ "ALR EXECVP PATH LOOKUP PLAN: " ++ kind_line_status p Execvp ++
  eol ++ "ALR POSIX_SPAWN CHILD PLAN: " ++ kind_line_status p PosixSpawn ++
  eol ++ "ALR EXEC CONTINUITY TRAMPOLINE: " ++ pass (cp_uses_packaged_trampoline p) ++
  eol ++ "ALR EXEC CONTINUITY CONFIG HANDOFF: " ++ pass (cp_config_handoff p) ++
  eol ++ "alr exec continuation kind=" ++ exec_continuation_kind_name (cp_kind p) ++
  eol ++ "alr exec continuation path lookup=" ++
    (if cp_path_lookup p then str "true" else str "false") ++
  eol ++ "alr exec continuation target guest path=" ++ guest_path (er_translation (cp_resolution p)) ++
  eol ++ "alr exec continuation host path diagnostic=" ++
    host_path (er_translation (cp_resolution p)) ++
  eol ++ "alr exec continuation argv count=" ++ size_string (length (cp_argv p)) ++
  (match cp_argv p with [] => [] | a :: _ => eol ++ "alr exec continuation argv0=" ++ a end) ++
  eol ++ "alr exec continuation env overrides=" ++ size_string (length (cp_env_overrides p)) ++
  opt_line "alr exec continuation error=" (cp_error p).

Definition with_er_report (r : ExecutableResolution) : ExecutableResolution :=
  let '(mk_resolution tr k re cl sb st er _) := r in
  mk_resolution tr k re cl sb st er (resolution_report r).
Definition with_cp_report (p : ExecContinuationPlan) : ExecContinuationPlan :=
  let '(mk_cplan r k pl lk tr ho ar ev er _) := p in
  mk_cplan r k pl lk tr ho ar ev er (build_continuation_report p).
Definition with_cp_error (p : ExecContinuationPlan) (e : bytes) : ExecContinuationPlan :=
  let '(mk_cplan r k pl lk tr ho ar ev _ re) := p in mk_cplan r k pl lk tr ho ar ev e re.

(** ** Resolution *)

Section resolve.
Context (H : Host).

(** One [read] of at most [kProbeBytes] at the start of the file. *)
Definition read_prefix (host : bytes) (t : nat) : result bytes * nat :=
  match host_open H host with
  | inl e => (Throw (errno_message H e "open executable"), t)
  | inr c =>
      match host_pread H t c 0 kProbeBytes with
      | RData d => (Ok d, S t)
      | RErr e => (Throw (errno_message H e "read executable"), S t)
      end
  end.

(** What happens once [stat] has succeeded on a regular file. *)
Definition probe (r : ExecutableResolution) (t : nat) : ExecutableResolution * nat :=
  let '(mk_resolution tr _ _ cl sb st er _) := r in
  let '(content, t') := read_prefix (host_path tr) t in
  (with_er_report
    match content with
    | Ok s => let '(k, sb') := classify_bytes s sb in mk_resolution tr k true true sb' st [] []
    | Throw w => mk_resolution tr UnsupportedKind true cl sb st w []
    end, t').

(** The candidate loop; the flag says whether it returned. *)
Fixpoint resolve_loop (c : RuntimeConfig) (candidates : list bytes) (r : ExecutableResolution)
    (t : nat) : result (bool * ExecutableResolution) * nat :=
  match candidates with
  | [] => (Ok (false, r), t)
  | g :: rest =>
      match translate_rootfs_path (rootfs_dir c) (cwd c) g with
      | Throw w => (Throw w, t)
      | Ok tr =>
          let '(mk_resolution _ k re cl sb st er rep) := r in
          match host_stat H (host_path tr) with
          | inl e =>
              resolve_loop c rest
                (mk_resolution tr k re cl sb st (errno_message H e "stat executable") rep) t
          | inr (mk_stat false _) =>
              (Ok (true, with_er_report (mk_resolution tr UnsupportedKind true true sb st
                 "resolved executable is not a regular file" [])), t)
          | inr (mk_stat true _) =>
              let '(r', t') := probe (mk_resolution tr k re cl sb st er rep) t in
              (Ok (true, r'), t')
          end
      end
  end.

Definition resolve_guest_executable (c : RuntimeConfig) (requested : bytes) (t : nat)
    : result ExecutableResolution * nat :=
  match candidate_guest_paths c requested with
  | Throw w => (Throw w, t)
  | Ok candidates =>
      let '(res, t') := resolve_loop c candidates empty_resolution t in
      (br ← res;
       let '(returned, r) := br : bool * ExecutableResolution in
       if returned then mret r
       else
         tr ← match guest_path (er_translation r), candidates with
              | [], g :: _ => translate_rootfs_path (rootfs_dir c) (cwd c) g
              | _, _ => mret (er_translation r)
              end;
         mret (with_er_report (mk_resolution tr Missing false false (er_shebang r)
                 (er_strategy r) (er_error r) [])), t')
  end.

(** ** The continuation plan *)

Definition child_config_for_continuation (c : RuntimeConfig) (r : ExecutableResolution)
    : RuntimeConfig :=
  let g := guest_path (er_translation r) in
  let '(mk_config pn rd cw _ ev bs hk ip br fr vb tp te) := c in
  mk_config pn rd cw g
    (smap_set "ALR_CONTINUATION_TARGET_GUEST_PATH" g (smap_set "ALR_PROGRAM" g ev))
    bs hk ip br fr vb tp te.

(** [{"ALR_CONFIG_TEXT=" + text, ...}] *)
Definition continuation_env (s : SerializedRuntimeConfig) (kind : ExecContinuationKind)
    (g : bytes) (argc : nat) (lookup : bool) : list bytes :=
  [ "ALR_CONFIG_TEXT=" ++ text s;
    "ALR_CONFIG_CHECKSUM=" ++ checksum_hex s;
    "ALR_CONTINUATION_KIND=" ++ exec_continuation_kind_name kind;
    "ALR_CONTINUATION_TARGET_GUEST_PATH=" ++ g;
    "ALR_CONTINUATION_ARGC=" ++ size_string argc;
    "ALR_CONTINUATION_PATH_LOOKUP=" ++ (if lookup then "1" else "0") ].

Definition build_exec_continuation_plan (c : RuntimeConfig) (requested : bytes)
    (arguments : list bytes) (kind : ExecContinuationKind) (t : nat)
    : ExecContinuationPlan * nat :=
  let lookup := requires_path_lookup requested kind in
  let plan0 r tramp := mk_cplan r kind false lookup tramp false [] [] [] [] in
  let '(res, t') := resolve_guest_executable c requested t in
  (match res with
   | Throw w => with_cp_report (with_cp_error (plan0 empty_resolution false) w)
   | Ok r =>
       if negb (er_resolved r) || (match er_kind r with Missing => true | _ => false end) then
         with_cp_report (with_cp_error (plan0 r false)
           (if bool_decide (er_error r = []) then str "child executable was not resolved"
            else er_error r))
       else if match er_kind r with UnsupportedKind => true | _ => false end then
         with_cp_report (with_cp_error (plan0 r false) "child executable kind is unsupported")
       else
         let trampoline := configured_trampoline_path c in
         let g := guest_path (er_translation r) in
         if bool_decide (trampoline = []) then
           with_cp_report (with_cp_error (plan0 r false) "ALR_TRAMPOLINE_PATH is not configured")
         else
           match serialize_runtime_config (child_config_for_continuation c r) with
           | Throw w => with_cp_report (with_cp_error (plan0 r true) w)
           | Ok s =>
               match parse_runtime_config (text s) with
               | Throw w => with_cp_report (with_cp_error (plan0 r true) w)
               | Ok parsed =>
                   let handoff := bool_decide (program parsed = g) &&
                     bool_decide (rootfs_dir parsed = rootfs_dir c) &&
                     bool_decide (runtime_config_checksum_hex (text s) = checksum_hex s) in
                   with_cp_report (mk_cplan r kind handoff lookup true handoff
                     ([trampoline; str "--continue-exec"; str "--kind";
                       exec_continuation_kind_name kind; str "--"; g] ++ arguments)
                     (continuation_env s kind g (length arguments) lookup) [] [])
               end
           end
   end, t').

End resolve.

(** ** [alr_runtime_trampoline.cpp] *)

(** [std::getenv]: the value of the first entry with the key; an environment
    entry of a process ends at its first NUL. *)
Definition required_env (envp : list bytes) (key : bytes) : result bytes :=
  match env_value key envp with
  | Some (c :: v) => Ok (c :: v)
  | _ => Throw ("missing env " ++ key)
  end.

Definition env_or_none (envp : list bytes) (key : bytes) : bytes :=
  match env_value key envp with Some (c :: v) => c :: v | _ => "none" end.

(** The argument scan from [index]; the state is [(kind, target_arg, extra_argc)]. *)
Fixpoint scan_args (fuel : nat) (argv : list bytes) (st : bytes * bytes * Z) : bytes * bytes * Z :=
  match fuel with
  | 0 => st
  | S fuel =>
      let '(kind, target, extra) := st in
      match argv with
      | [] => st
      | arg :: rest =>
          match rest with
          | v :: rest' =>
              if decide (arg = str "--kind") then scan_args fuel rest' (v, target, extra)
              else if decide (arg = str "--") then (kind, v, Z.of_nat (length rest'))
              else scan_args fuel rest st
          | [] => scan_args fuel rest st
          end
      end
  end.

(** The exit code and what is written to stdout. *)
Definition run_continue_exec (argv envp : list bytes) : Z * bytes :=
  let '(kind, target_arg, extra_argc) :=
    scan_args (length argv) (drop 2 argv) (str "missing", str "missing", 0%Z) in
  try_catch
    (config_text ← required_env envp "ALR_CONFIG_TEXT";
     expected_checksum ← required_env envp "ALR_CONFIG_CHECKSUM";
     parsed ← parse_runtime_config config_text;
     let checksum_ok := bool_decide (runtime_config_checksum_hex config_text = expected_checksum) in
     continuation_kind ← required_env envp "ALR_CONTINUATION_KIND";
     continuation_target ← required_env envp "ALR_CONTINUATION_TARGET_GUEST_PATH";
     let target_ok := bool_decide (program parsed = continuation_target) &&
                      bool_decide (target_arg = continuation_target) in
     let kind_ok := bool_decide (kind = continuation_kind) in
     mret (if checksum_ok && target_ok && kind_ok then 0%Z else 3%Z,
       "ALR TRAMPOLINE CONTINUE EXEC: " ++ pass (checksum_ok && target_ok && kind_ok) ++
       eol ++ "ALR TRAMPOLINE CONTINUE CONFIG: " ++ pass target_ok ++
       eol ++ "ALR TRAMPOLINE CONTINUE CHECKSUM: " ++ pass checksum_ok ++
       eol ++ "ALR TRAMPOLINE CONTINUE KIND: " ++ pass kind_ok ++
       eol ++ "alr trampoline continue mode=dry-run" ++
       eol ++ "alr trampoline continue kind=" ++ kind ++
       eol ++ "alr trampoline continue target guest=" ++ continuation_target ++
       eol ++ "alr trampoline continue argv target=" ++ target_arg ++
       eol ++ "alr trampoline continue extra argc=" ++ to_string extra_argc ++
       eol ++ "alr trampoline continue rootfs=" ++ rootfs_dir parsed ++ eol))
    (λ _, (4%Z, [])).

Definition run_preflight (envp : list bytes) : Z * bytes :=
  (0%Z,
   "ALR TRAMPOLINE PREFLIGHT: reached (the trampoline is running)" ++
   eol ++ "alr trampoline mode=" ++ env_or_none envp "ALR_TRAMPOLINE_MODE" ++
   eol ++ "alr trampoline config checksum=" ++ env_or_none envp "ALR_CONFIG_CHECKSUM" ++
   eol ++ "alr trampoline target guest=" ++ env_or_none envp "ALR_TRAMPOLINE_TARGET_GUEST_PATH" ++
   eol ++ "alr trampoline target host=" ++ env_or_none envp "ALR_TRAMPOLINE_TARGET_HOST_PATH" ++
   eol ++ "alr trampoline elf status=" ++ env_or_none envp "ALR_TRAMPOLINE_ELF_STATUS" ++ eol).

Definition trampoline_main (argv envp : list bytes) : Z * bytes :=
  match argv with
  | _ :: mode :: _ =>
      if decide (mode = str "--preflight") then run_preflight envp
      else if decide (mode = str "--continue-exec") then run_continue_exec argv envp
      else (2%Z, [])
  | _ => (2%Z, [])
  end.

(** ** Shebang lines *)

Lemma take_until_app f s r :
  Forall (λ c, f c = false) s → (r = [] ∨ ∃ c r', r = c :: r' ∧ f c = true) →
  take_until f (s ++ r) = s.
Proof.
  induction 1 as [|c s Hc Hs IH]; intros Hr; cbn [app take_until].
  - destruct Hr as [->|(c & r' & -> & Hc)]; [done|]. cbn [take_until]. by rewrite Hc.
  - by rewrite Hc, IH.
Qed.

Lemma drop_while_app f s r :
  Forall (λ c, f c = true) s → drop_while f (s ++ r) = drop_while f r.
Proof. induction 1 as [|c s Hc Hs IH]; cbn [app drop_while]; [done|]. by rewrite Hc. Qed.

Lemma drop_while_stop f s : (∀ c r, s = c :: r → f c = false) → drop_while f s = s.
Proof. destruct s as [|c s]; [done|]. intros H. cbn [drop_while]. by rewrite (H c s). Qed.

Lemma trim_end_app f s r :
  Forall (λ c, f c = true) r → (∀ c s', s = s' ++ [c] → f c = false) →
  trim_end f (s ++ r) = s.
Proof.
  intros Hr Hs. unfold trim_end. rewrite reverse_app, drop_while_app by (by apply Forall_reverse).
  rewrite drop_while_stop; [by rewrite reverse_involutive|].
  intros c s' E. apply (Hs c (reverse s')). apply (f_equal reverse) in E.
  rewrite reverse_involutive, reverse_cons in E. done.
Qed.

(** A non-empty word without blanks or line ends. *)
Definition word (w : bytes) : Prop :=
  w ≠ [] ∧ Forall (λ c, is_blank c = false) w ∧ Forall (λ c, is_eol c = false) w.
(** An argument: empty, or without line ends and not blank at either end. *)
Definition trimmed_arg (a : bytes) : Prop :=
  Forall (λ c, is_eol c = false) a ∧
  (∀ c r, a = c :: r → is_blank c = false) ∧ (∀ c r, a = r ++ [c] → is_blank c = false).
Definition blanks (s : bytes) : Prop := Forall (λ c, is_blank c = true) s.

Lemma blank_not_eol s : blanks s → Forall (λ c, is_eol c = false) s.
Proof.
  intros H. eapply Forall_impl; [exact H|]. intros c Hc. unfold is_blank in Hc.
  apply orb_true_iff in Hc as [Hc|Hc]; apply bool_decide_eq_true in Hc; by subst.
Qed.

Lemma last_app_ne (w r s : bytes) (c : byte) :
  r ≠ [] → w ++ r = s ++ [c] → ∃ r', r = r' ++ [c].
Proof.
  intros Hr E. destruct (exists_last Hr) as (r' & x & ->). exists r'.
  rewrite (assoc_L (++)) in E. apply app_inj_tail in E as [_ ->]. done.
Qed.

Lemma parse_shebang_line lead w mid a trail rest :
  blanks lead → word w → blanks mid → trimmed_arg a → blanks trail →
  (a ≠ [] → mid ≠ []) →
  (rest = [] ∨ ∃ c r, rest = c :: r ∧ is_eol c = true) →
  parse_shebang ("#!" ++ lead ++ w ++ mid ++ a ++ trail ++ rest) = mk_shebang w a.
Proof.
  intros Hl (Hwne & Hwb & Hwe) Hm (Hae & Hah & Hat) Ht Hsep Hrest. unfold parse_shebang.
  change (drop 2 ("#!" ++ ?x)) with x.
  assert (Hline : take_until is_eol (lead ++ w ++ mid ++ a ++ trail ++ rest) =
                  lead ++ w ++ mid ++ a ++ trail).
  { rewrite !(assoc_L (++)). apply take_until_app; [|done].
    repeat apply Forall_app_2; auto using blank_not_eol. }
  rewrite Hline, drop_while_app by done.
  assert (Hstop : ∀ c r, w ++ mid ++ a ++ trail = c :: r → is_blank c = false).
  { intros c r E. destruct w as [|x w]; [done|]. injection E as -> _. by inversion Hwb. }
  rewrite (drop_while_stop _ _ Hstop).
  set (body := match a with [] => w | _ => w ++ mid ++ a end).
  assert (Hbody : trim_end is_blank (w ++ mid ++ a ++ trail) = body).
  { subst body. destruct a as [|x a].
    - cbn [app]. apply trim_end_app; [by apply Forall_app_2|]. intros c s' ->.
      apply Forall_app in Hwb as [_ Hwb]. by inversion Hwb.
    - replace (w ++ mid ++ (x :: a) ++ trail) with ((w ++ mid ++ x :: a) ++ trail)
        by (by rewrite <- !(assoc_L (++))).
      apply trim_end_app; [done|]. intros c s' E. rewrite (assoc_L (++)) in E.
      apply last_app_ne in E as [r' E]; [|done]. by apply (Hat c r'). }
  rewrite Hbody. subst body. destruct a as [|x a].
  - assert (Hw : take_until is_blank w = w).
    { rewrite <- (app_nil_r w) at 1. apply take_until_app; auto. }
    by rewrite Hw, decide_True.
  - destruct mid as [|y mid]; [by destruct Hsep|]. apply Forall_cons in Hm as [Hy Hm].
    assert (Hw : take_until is_blank (w ++ (y :: mid) ++ x :: a) = w).
    { apply take_until_app; [done|]. right. eexists _, _. done. }
    rewrite Hw, decide_False by (rewrite !length_app; simpl; lia).
    rewrite drop_app_length. f_equal.
    rewrite drop_while_app by (by constructor). by apply drop_while_stop.
Qed.

(** ** Resolution *)

Section resolution.
Context (H : Host) (c : RuntimeConfig).

Definition stat_fails (g : bytes) : Prop :=
  ∃ tr e, translate_rootfs_path (rootfs_dir c) (cwd c) g = Ok tr ∧
          host_stat H (host_path tr) = inl e.
Definition stat_ok (g : bytes) (tr : PathTranslation) : Prop :=
  translate_rootfs_path (rootfs_dir c) (cwd c) g = Ok tr ∧
  ∃ b, host_stat H (host_path tr) = inr b.

Lemma classify_not_missing s sb :
  (match (classify_bytes s sb).1 with Missing => false | _ => true end) = true.
Proof.
  unfold classify_bytes. destruct (is_prefix ELFMAG s); [done|].
  destruct (is_prefix "#!" s); [|done]. cbn [fst]. by case_bool_decide.
Qed.

Lemma probe_fields r t r' t' :
  probe H r t = (r', t') →
  er_translation r' = er_translation r ∧ er_resolved r' = true ∧
  (match er_kind r' with Missing => false | _ => true end) = true.
Proof.
  unfold probe. destruct r. destruct (read_prefix _ _ _) as [[s|w] t1]; intros [= <- <-]; [|done].
  pose proof (classify_not_missing s er_shebang0) as Hk.
  by destruct (classify_bytes s er_shebang0).
Qed.

Lemma resolve_loop_spec cands r t ret r' t' :
  er_resolved r = false →
  resolve_loop H c cands r t = (Ok (ret, r'), t') →
  if ret then
    er_resolved r' = true ∧ (match er_kind r' with Missing => false | _ => true end) = true ∧
    ∃ pre g post, cands = pre ++ g :: post ∧ Forall stat_fails pre ∧ stat_ok g (er_translation r')
  else Forall stat_fails cands ∧ er_resolved r' = false.
Proof.
  revert r t. induction cands as [|g rest IH]; intros r t Hr; cbn [resolve_loop].
  { intros [= <- <- <-]. split; [constructor|done]. }
  destruct (translate_rootfs_path _ _ g) as [tr|w] eqn:Et; [|done].
  destruct r as [tr0 k re cl sb st er rep].
  destruct (host_stat H (host_path tr)) as [e|[[] size]] eqn:Es.
  - intros Hl. apply IH in Hl; [|done]. destruct ret.
    + destruct Hl as (H1 & H2 & pre & g' & post & -> & Hpre & Hok).
      split; [done|]. split; [done|]. exists (g :: pre), g', post. split; [done|].
      split; [|done]. constructor; [|done]. by exists tr, e.
    + destruct Hl as [Hall Hre]. split; [|done]. constructor; [|done]. by exists tr, e.
  - destruct (probe H _ t) as [r1 t1] eqn:Ep. intros [= <- <- <-].
    apply probe_fields in Ep as (Htr & H1 & H2). split; [done|]. split; [done|].
    exists [], g, rest. split; [done|]. split; [constructor|]. rewrite Htr.
    split; [done|by eexists].
  - intros [= <- <- <-]. split; [done|]. split; [done|]. exists [], g, rest.
    split; [done|]. split; [constructor|]. split; [done|by eexists].
Qed.

Lemma resolve_spec requested cands t r t' :
  candidate_guest_paths c requested = Ok cands →
  resolve_guest_executable H c requested t = (Ok r, t') →
  (if er_resolved r
   then ∃ pre g post, cands = pre ++ g :: post ∧ Forall stat_fails pre ∧ stat_ok g (er_translation r)
   else Forall stat_fails cands) ∧
  er_resolved r = match er_kind r with Missing => false | _ => true end.
Proof.
  intros Hc. unfold resolve_guest_executable. rewrite Hc.
  destruct (resolve_loop H c cands empty_resolution t) as [res t1] eqn:El.
  intros [= Hr <-]. apply bind_Ok in Hr as ([ret r1] & -> & Hr).
  apply resolve_loop_spec in El; [|done]. destruct ret.
  - injection Hr as <-. destruct El as (H1 & H2 & Hex). by rewrite H1, H2.
  - destruct El as [Hall _]. apply bind_Ok in Hr as (tr & _ & [= <-]). done.
Qed.
End resolution.

(** ** The plan *)

Section plan.
Context (H : Host) (c : RuntimeConfig) (Hwf : smap_wf (env c)).

Lemma resolve_candidates requested t r t' :
  resolve_guest_executable H c requested t = (Ok r, t') →
  ∃ cands, candidate_guest_paths c requested = Ok cands.
Proof. unfold resolve_guest_executable. destruct (candidate_guest_paths _ _); [eauto|done]. Qed.

(** The guest path of a resolved program is in normal form. *)
Lemma resolved_guest_normal requested t r t' :
  resolve_guest_executable H c requested t = (Ok r, t') → er_resolved r = true →
  let g := guest_path (er_translation r) in lexical g = g ∧ starts_slash g = true.
Proof.
  intros Hr Hres. destruct (resolve_candidates _ _ _ _ Hr) as [cands Hc].
  destruct (resolve_spec H c _ _ _ _ _ Hc Hr) as [Hex _]. rewrite Hres in Hex.
  destruct Hex as (pre & g & post & _ & _ & Htr & _). apply translate_Ok in Htr. cbv zeta. tauto.
Qed.

Lemma child_config_wf r : smap_wf (env (child_config_for_continuation c r)).
Proof. unfold child_config_for_continuation. destruct c; cbn in *. auto with cpp. Qed.

Lemma child_config_program r :
  program (child_config_for_continuation c r) = guest_path (er_translation r) ∧
  rootfs_dir (child_config_for_continuation c r) = rootfs_dir c.
Proof. by destruct c. Qed.

(** A child configuration that serializes is always handed over intact. *)
Lemma handoff_complete requested t r t' s :
  resolve_guest_executable H c requested t = (Ok r, t') → er_resolved r = true →
  serialize_runtime_config (child_config_for_continuation c r) = Ok s →
  ∃ parsed, parse_runtime_config (text s) = Ok parsed ∧
    program parsed = guest_path (er_translation r) ∧ rootfs_dir parsed = rootfs_dir c ∧
    runtime_config_checksum_hex (text s) = checksum_hex s ∧
    text s = unlines (kFormat :: config_records parsed).
Proof.
  intros Hr Hres Hs.
  destruct (serialize_parse _ _ (child_config_wf r) Hs) as (c' & Hv & _ & Hp & Hck & Ht).
  apply validate_program in Hv as [Hprog Hroot].
  destruct (child_config_program r) as [E1 E2]. rewrite E1 in Hprog. rewrite E2 in Hroot.
  destruct (resolved_guest_normal _ _ _ _ Hr Hres) as [Hlex _].
  exists c'. apply normalize_required_fixed in Hprog; [|done]. auto.
Qed.

Definition runnable (k : ExecutableKind) : bool := match k with Elf | Shebang => true | _ => false end.

Definition plan_conditions (requested : bytes) (t t' : nat) (r : ExecutableResolution)
    (s : SerializedRuntimeConfig) : Prop :=
  resolve_guest_executable H c requested t = (Ok r, t') ∧ er_resolved r = true ∧
  runnable (er_kind r) = true ∧ configured_trampoline_path c ≠ [] ∧
  serialize_runtime_config (child_config_for_continuation c r) = Ok s.

(** The successful plan, spelled out. *)
Lemma plan_planned requested args kind t p t' :
  build_exec_continuation_plan H c requested args kind t = (p, t') →
  ((∃ r s, plan_conditions requested t t' r s) → cp_planned p = true) ∧
  (cp_planned p = true → ∃ r s, plan_conditions requested t t' r s ∧
    cp_argv p = [configured_trampoline_path c; str "--continue-exec"; str "--kind";
       exec_continuation_kind_name kind; str "--"; guest_path (er_translation r)] ++ args ∧
    cp_env_overrides p = continuation_env s kind (guest_path (er_translation r)) (length args)
       (requires_path_lookup requested kind)).
Proof.
  unfold build_exec_continuation_plan, plan_conditions.
  destruct (resolve_guest_executable H c requested t) as [[r|w] t1] eqn:Er; intros [= <- <-].
  2: { split; [|done]. by intros (r & s & [=] & _). }
  destruct (er_resolved r) eqn:Eres; cbn [negb orb].
  2: { split; [|done]. intros (r' & s & [= ->] & ? & _). congruence. }
  destruct (er_kind r) eqn:Ek;
    try (split; [|done]; intros (r' & s & [= ->] & _ & Hk & _); by rewrite Ek in Hk).
  all: case_bool_decide as Ht;
    [split; [|done]; intros (r' & s & [= ->] & _ & _ & Hx & _); done|];
    destruct (serialize_runtime_config _) as [s|w] eqn:Es;
    [|split; [|done]; intros (r' & s & [= ->] & _ & _ & _ & Hx); congruence];
    destruct (handoff_complete _ _ _ _ _ Er Eres Es) as (pa & Hp & Hprog & Hroot & Hck & _);
    rewrite Hp, !bool_decide_true by done; cbn [andb with_cp_report cp_planned cp_argv cp_env_overrides];
    (split; [done|intros _; exists r, s; rewrite Ek; auto 10]).
Qed.

Lemma checksum_nonempty x : runtime_config_checksum_hex x ≠ [].
Proof.
  unfold runtime_config_checksum_hex, pad0. intros E. apply (f_equal length) in E.
  rewrite length_app, length_replicate in E. cbn [length] in E. lia.
Qed.

Lemma required_env_value envp k v :
  env_value k envp = Some v → v ≠ [] → required_env envp k = Ok v.
Proof. unfold required_env. intros -> Hv. by destruct v. Qed.

Lemma kind_name_nonempty kind : exec_continuation_kind_name kind ≠ [].
Proof. by destruct kind. Qed.

(** The trampoline accepts what a successful plan hands over. *)
Lemma handoff_accepted requested t r t' s kind args lookup envp :
  plan_conditions requested t t' r s →
  let g := guest_path (er_translation r) in
  (∀ k v, env_value k (continuation_env s kind g (length args) lookup) = Some v →
          env_value k envp = Some v) →
  (trampoline_main ([configured_trampoline_path c; str "--continue-exec"; str "--kind";
       exec_continuation_kind_name kind; str "--"; g] ++ args) envp).1 = 0%Z.
Proof.
  intros (Hr & Hres & _ & _ & Hs) g Henv.
  destruct (handoff_complete _ _ _ _ _ Hr Hres Hs) as (pa & Hp & Hprog & _ & Hck & Ht).
  destruct (resolved_guest_normal _ _ _ _ Hr Hres) as [_ Habs]. fold g in Habs, Hprog.
  change (trampoline_main ([?a; str "--continue-exec"; ?b; ?d; ?e; ?f] ++ args) envp)
    with (run_continue_exec ([a; str "--continue-exec"; b; d; e; f] ++ args) envp).
  unfold run_continue_exec.
  change (scan_args _ _ _) with (exec_continuation_kind_name kind, g, Z.of_nat (length args)).
  rewrite (required_env_value envp "ALR_CONFIG_TEXT" (text s));
    [|by apply Henv|by rewrite Ht].
  rewrite (required_env_value envp "ALR_CONFIG_CHECKSUM" (checksum_hex s));
    [|by apply Henv|rewrite <- Hck; apply checksum_nonempty].
  rewrite (required_env_value envp "ALR_CONTINUATION_KIND" (exec_continuation_kind_name kind));
    [|by apply Henv|apply kind_name_nonempty].
  rewrite (required_env_value envp "ALR_CONTINUATION_TARGET_GUEST_PATH" g);
    [|by apply Henv|by destruct g].
  cbn [mbind result_bind]. rewrite Hp. cbn [mbind result_bind].
  by rewrite !bool_decide_true by done.
Qed.
End plan.

(** ** Properties *)

(** The executable found is the first candidate whose [stat] succeeds; nothing
    is reported resolved that [stat] did not find, and kind Missing is reported
    exactly when every candidate failed. *)
Theorem resolve_first_candidate H c requested cands t r t' :
  candidate_guest_paths c requested = Ok cands →
  resolve_guest_executable H c requested t = (Ok r, t') →
  (if er_resolved r
   then ∃ pre g post, cands = pre ++ g :: post ∧ Forall (stat_fails H c) pre ∧
          stat_ok H c g (er_translation r)
   else Forall (stat_fails H c) cands) ∧
  er_resolved r = match er_kind r with Missing => false | _ => true end.
Proof. apply resolve_spec. Qed.

Definition exec_files (p : bytes) : Z + bytes :=
  if decide (p = str "/r/usr/bin/env") then inr (str "#! /bin/busybox  env " ++ eol)
  else if decide (p = str "/r/bin/tool") then inr (ELFMAG ++ str "...")
  else inl 2%Z.
Definition exec_host : Host := choppy_host exec_files.
Definition exec_config : RuntimeConfig :=
  mk_config "pkg" "/r" "/" "/bin/init"
    [(str "ALR_TRAMPOLINE_PATH", str "/data/tramp"); (str "PATH", str "/sbin:rel:/usr/bin")]
    [] [] [] [] false 0 false false.

Lemma resolve_first_candidate_witness :
  ∃ cands r t', candidate_guest_paths exec_config "env" = Ok cands ∧
    cands = strs ["/sbin/env"; "/usr/bin/env"] ∧
    resolve_guest_executable exec_host exec_config "env" 1 = (Ok r, t') ∧
    er_shebang r = mk_shebang "/bin/busybox" "env" ∧
    (if er_resolved r
     then ∃ pre g post, cands = pre ++ g :: post ∧ Forall (stat_fails exec_host exec_config) pre ∧
            stat_ok exec_host exec_config g (er_translation r)
     else Forall (stat_fails exec_host exec_config) cands) ∧
    er_resolved r = match er_kind r with Missing => false | _ => true end.
Proof.
  do 3 eexists. split; [vm_compute; reflexivity|]. split; [vm_compute; reflexivity|].
  split; [vm_compute; reflexivity|]. split; [vm_compute; reflexivity|].
  apply (resolve_first_candidate exec_host exec_config "env" _ 1 _ 2); vm_compute; reflexivity.
Defined.

(** A "#!" line is read back: interpreter and argument are recovered exactly,
    whatever blanks surround them and whatever follows the line end. *)
Theorem parse_shebang_correct lead w mid a trail rest :
  blanks lead → word w → blanks mid → trimmed_arg a → blanks trail →
  (a ≠ [] → mid ≠ []) →
  (rest = [] ∨ ∃ c r, rest = c :: r ∧ is_eol c = true) →
  classify_bytes ("#!" ++ lead ++ w ++ mid ++ a ++ trail ++ rest) (mk_shebang [] []) =
  (Shebang, mk_shebang w a).
Proof.
  intros Hl Hw Hm Ha Ht Hs Hr. unfold classify_bytes.
  rewrite (parse_shebang_line lead w mid a trail rest) by done.
  change (is_prefix ELFMAG ("#!" ++ ?x)) with false.
  change (is_prefix "#!" ("#!" ++ ?x)) with true. cbn [sb_interpreter].
  destruct Hw as (Hne & _). by rewrite bool_decide_false.
Qed.

Lemma parse_shebang_correct_witness :
  classify_bytes ("#!" ++ " " ++ "/bin/sh" ++ [tab] ++ "-e x" ++ " " ++ [newline]) (mk_shebang [] []) =
  (Shebang, mk_shebang "/bin/sh" "-e x").
Proof.
  apply (parse_shebang_correct " " "/bin/sh" [tab] "-e x" " " [newline]).
  - by repeat constructor.
  - by repeat constructor.
  - by repeat constructor.
  - split; [by repeat constructor|]. split; [by intros ?? [= <- _]|].
    intros x r E. apply (f_equal last) in E. rewrite last_snoc in E. by injection E as <-.
  - by repeat constructor.
  - done.
  - right. by eexists _, [].
Defined.

(** C14. Continuation plans work end to end: a plan exists exactly when the program
    resolves to an ELF or shebang file, a trampoline is configured and the child
    configuration validates; and then the trampoline's [main], started with the
    planned argv in any environment where the overrides are what [getenv] sees,
    accepts the hand-off (checksum, target and kind) and exits with 0. *)
Theorem continuation_plan_end_to_end H c requested args kind t p t' envp :
  smap_wf (env c) →
  build_exec_continuation_plan H c requested args kind t = (p, t') →
  (∀ k v, env_value k (cp_env_overrides p) = Some v → env_value k envp = Some v) →
  (cp_planned p = true ↔
   ∃ r, resolve_guest_executable H c requested t = (Ok r, t') ∧ er_resolved r = true ∧
     runnable (er_kind r) = true ∧ configured_trampoline_path c ≠ [] ∧
     is_ok (validate_runtime_config (child_config_for_continuation c r)) = true) ∧
  (cp_planned p = true → (trampoline_main (cp_argv p) envp).1 = 0%Z).
Proof.
  intros Hwf Hp Henv. destruct (plan_planned H c Hwf _ _ _ _ _ _ Hp) as [Hif Honly]. split; [split|].
  - intros (r & s & (Hr & H1 & H2 & H3 & Hs) & _)%Honly. exists r. repeat split; auto.
    unfold serialize_runtime_config in Hs. by destruct (validate_runtime_config _).
  - intros (r & Hr & H1 & H2 & H3 & Hv). apply Hif. unfold plan_conditions.
    unfold serialize_runtime_config. destruct (validate_runtime_config _) eqn:E; [|done].
    exists r. eexists. rewrite E. repeat split; auto.
  - intros (r & s & Hcond & -> & Henvs)%Honly. rewrite Henvs in Henv.
    by eapply handoff_accepted.
Qed.

Lemma continuation_plan_end_to_end_witness :
  ∃ p t', build_exec_continuation_plan exec_host exec_config "/bin/tool" (strs ["-v"; "x"]) Execve 1 =
      (p, t') ∧
    cp_planned p = true ∧
    (trampoline_main (cp_argv p) (cp_env_overrides p ++ strs ["A=b"])).1 = 0%Z.
Proof.
  assert (Hp : ∃ p t', build_exec_continuation_plan exec_host exec_config "/bin/tool"
    (strs ["-v"; "x"]) Execve 1 = (p, t') ∧ cp_planned p = true).
  { do 2 eexists. split; [vm_compute; reflexivity|]. vm_compute. reflexivity. }
  destruct Hp as (p & t' & Hp & Hpl). exists p, t'. split; [exact Hp|]. split; [exact Hpl|].
  apply (continuation_plan_end_to_end exec_host exec_config "/bin/tool" (strs ["-v"; "x"])
    Execve 1 p t'); [|exact Hp| |exact Hpl].
  - repeat constructor.
  - intros k v Hv. by rewrite env_value_app, Hv.
Defined.
