(* ===== verification/Procfs.v ===== *)
(** * [alr_runtime/alr_procfs.cpp]: the synthesized procfs views

    What a guest sees in /proc/self/exe, /proc/self/status and /proc/mounts.
    [build_procfs_virtualization_plan] never reads the host /proc; the mount
    table it renders must not show where the rootfs and the bind mounts live on
    the Android side. *)

From S2P Require Import Prelude CppMap PathSpec PathRule GuestPath RuntimeConfig HostFs ElfPlan.
From S2P Require Import ExecMediation ExecPlan.

Record ProcfsSelfExeView := mk_exe_view {
  guest_view : bytes;
  host_truth : bytes;
  requires_virtualization : bool;
  interpose_paths : list bytes;
  interpose_syscalls : list bytes;
  exe_valid : bool;
}.
Record ProcfsSelfStatusView := mk_status_view {
  st_name : bytes;
  st_uid : Z;
  st_gid : Z;
  st_fakeroot : bool;
  st_lines : list bytes;
  status_valid : bool;
}.
Record ProcfsMountEntry := mk_mount {
  mnt_source : bytes;
  mnt_target : bytes;
  mnt_fstype : bytes;
  mnt_options : bytes;
  mnt_host_backing : bytes;
}.
Record ProcfsMountsView := mk_mounts_view {
  mnt_entries : list ProcfsMountEntry;
  leaked_host_tokens : list bytes;
  has_guest_root : bool;
  has_proc : bool;
  mounts_valid : bool;
}.
Record ProcfsHostFacts := mk_facts {
  self_exe_truth : bytes;
  has_identity : bool;
  facts_uid : Z;
  facts_gid : Z;
}.
Record ProcfsVirtualizationPlan := mk_procfs_plan {
  pv_self_exe : ProcfsSelfExeView;
  pv_self_status : ProcfsSelfStatusView;
  pv_mounts : ProcfsMountsView;
  pv_planned : bool;
  pv_error : bytes;
  pv_report : bytes;
}.

Definition generic_host_leak_tokens : list bytes :=
  strs ["/data/"; "/system"; "/vendor"; "/apex"; "/storage"; "/mnt/"; "/dev/block"; "magisk"].

Definition config_env_value (c : RuntimeConfig) (key : bytes) : bytes :=
  default [] (smap_find key (env c)).

Definition basename_of (guest_path : bytes) : bytes :=
  match guest_path with [] => [] | _ => path_basename guest_path end.

Definition join_csv (values : list bytes) : bytes := join_on ","%byte values.

Section procfs.
Context (H : Host).

Definition resolve_guest_view (c : RuntimeConfig) (requested : bytes) (t : nat) : bytes * nat :=
  let '(res, t') := resolve_guest_executable H c requested t in
  let lexical_view :=
    if negb (bool_decide (requested = [])) && has_byte slash requested
    then try_catch (normalize_guest_path requested (cwd c)) (λ _, []) else [] in
  (match res with
   | Ok r => match guest_path (er_translation r) with [] => lexical_view | g => g end
   | Throw _ => lexical_view
   end, t').

Definition build_self_exe_view (c : RuntimeConfig) (requested : bytes) (facts : ProcfsHostFacts)
    (t : nat) : ProcfsSelfExeView * nat :=
  let '(view, t') := resolve_guest_view c requested t in
  let truth := if bool_decide (self_exe_truth facts = [])
               then config_env_value c "ALR_TRAMPOLINE_PATH" else self_exe_truth facts in
  (mk_exe_view view truth
     (negb (bool_decide (truth = [])) && negb (bool_decide (truth = view)))
     (strs ["/proc/self/exe"; "/proc/<pid>/exe"]) (strs ["readlink"; "readlinkat"; "openat"])
     (is_guest_absolute_path view), t').

Definition id_line (label : bytes) (id : Z) : bytes :=
  let s := to_string id in label ++ s ++ [tab] ++ s ++ [tab] ++ s ++ [tab] ++ s.

Definition build_self_status_view (c : RuntimeConfig) (exe : ProcfsSelfExeView)
    (facts : ProcfsHostFacts) : ProcfsSelfStatusView :=
  let name := basename_of (guest_view exe) in
  let '(uid, gid) :=
    if fake_root c then (0, 0)%Z
    else if has_identity facts then (facts_uid facts, facts_gid facts)
    else (getuid H, getgid H) in
  mk_status_view name uid gid (fake_root c)
    ["Name:" ++ [tab] ++ name; id_line ("Uid:" ++ [tab]) uid; id_line ("Gid:" ++ [tab]) gid]
    (negb (bool_decide (name = [])) && (0 <=? uid)%Z && (0 <=? gid)%Z).

(** The entries pushed before the binds. *)
Definition base_mounts (c : RuntimeConfig) : list ProcfsMountEntry :=
  [ mk_mount "alr_rootfs" "/" "overlay" "rw,relatime" (rootfs_dir c);
    mk_mount "proc" "/proc" "proc" "rw,nosuid,nodev,noexec,relatime" [];
    mk_mount "sysfs" "/sys" "sysfs" "rw,nosuid,nodev,noexec,relatime" [];
    mk_mount "tmpfs" "/tmp" "tmpfs" "rw,nosuid,nodev,relatime" [];
    mk_mount "devpts" "/dev/pts" "devpts" "rw,nosuid,noexec,relatime" [];
    mk_mount "tmpfs" "/dev/shm" "tmpfs" "rw,nosuid,nodev,relatime" [] ].

Definition bind_mount (c : RuntimeConfig) (b : BindMount) : ProcfsMountEntry :=
  mk_mount "alr_bind"
    (try_catch (normalize_guest_path (bind_guest b) (cwd c)) (λ _, bind_guest b))
    "none" "rw,bind,relatime" (bind_host b).

(** The two columns the leak guard scans. *)
Definition guard_text (entries : list ProcfsMountEntry) : bytes :=
  foldl (λ acc e, acc ++ mnt_source e ++ " " ++ mnt_options e ++ eol) [] entries.

Definition leak_tokens (c : RuntimeConfig) : list bytes :=
  generic_host_leak_tokens ++
  (if bool_decide (rootfs_dir c = []) then [] else [rootfs_dir c]) ++
  filter (λ h, h ≠ []) (bind_host <$> binds c).

Definition build_mounts_view (c : RuntimeConfig) : ProcfsMountsView :=
  let entries := base_mounts c ++ (bind_mount c <$> binds c) in
  let root := existsb (λ e, bool_decide (mnt_target e = str "/")) entries in
  let proc := existsb (λ e, bool_decide (mnt_target e = str "/proc")) entries in
  let leaked := filter (λ token, token ≠ [] ∧ has_sub token (guard_text entries) = true)
                  (leak_tokens c) in
  mk_mounts_view entries leaked root proc
    (root && proc && negb (bool_decide (length entries = 0))).

Definition self_exe_plan_ok (v : ProcfsSelfExeView) : bool :=
  exe_valid v && requires_virtualization v &&
  negb (bool_decide (interpose_paths v = [])) && negb (bool_decide (interpose_syscalls v = [])).

Definition bool_word (b : bool) : bytes := if b then "true" else "false".

Fixpoint mount_lines (i : nat) (entries : list ProcfsMountEntry) : bytes :=
  match entries with
  | [] => []
  | e :: es =>
      eol ++ "alr procfs mount[" ++ size_string i ++ "]=" ++ mnt_source e ++ " " ++ mnt_target e ++
      " " ++ mnt_fstype e ++ " " ++ mnt_options e ++ mount_lines (S i) es
  end.

Definition procfs_report (p : ProcfsVirtualizationPlan) : bytes :=
  let exe := pv_self_exe p in
  let status := pv_self_status p in
  let mounts := pv_mounts p in
  "ALR PROCFS PLAN: " ++ pass (pv_planned p) ++
  eol ++ "ALR PROCFS SELF EXE PLAN: " ++ pass (self_exe_plan_ok exe) ++
  eol ++ "ALR PROCFS SELF STATUS FAKEROOT PLAN: " ++ pass (status_valid status) ++
  eol ++ "ALR PROCFS MOUNTS PLAN: " ++ pass (mounts_valid mounts) ++
  eol ++ "ALR PROCFS HOST LEAK GUARD: " ++
    pass (bool_decide (leaked_host_tokens mounts = [])) ++
  eol ++ "alr procfs self exe guest view=" ++ guest_view exe ++
  eol ++ "alr procfs self exe host truth=" ++ host_truth exe ++
  eol ++ "alr procfs self exe requires virtualization=" ++ bool_word (requires_virtualization exe) ++
  eol ++ "alr procfs self exe interpose paths=" ++ join_csv (interpose_paths exe) ++
  eol ++ "alr procfs self exe interpose syscalls=" ++ join_csv (interpose_syscalls exe) ++
  eol ++ "alr procfs self status name=" ++ st_name status ++
  eol ++ "alr procfs self status uid=" ++ to_string (st_uid status) ++
  eol ++ "alr procfs self status gid=" ++ to_string (st_gid status) ++
  eol ++ "alr procfs self status fakeroot=" ++ bool_word (st_fakeroot status) ++
  eol ++ "alr procfs mounts entries=" ++ size_string (length (mnt_entries mounts)) ++
  eol ++ "alr procfs mounts has guest root=" ++ bool_word (has_guest_root mounts) ++
  eol ++ "alr procfs mounts has proc=" ++ bool_word (has_proc mounts) ++
  eol ++ "alr procfs mounts host leak tokens=" ++ size_string (length (leaked_host_tokens mounts)) ++
  mount_lines 0 (mnt_entries mounts) ++
  opt_line "alr procfs error=" (pv_error p).

Definition render_guest_mounts (m : ProcfsMountsView) : bytes :=
  unlines ((λ e, mnt_source e ++ " " ++ mnt_target e ++ " " ++ mnt_fstype e ++ " " ++
                 mnt_options e ++ " 0 0") <$> mnt_entries m).

Definition build_procfs_virtualization_plan (c : RuntimeConfig) (requested : bytes)
    (facts : ProcfsHostFacts) (t : nat) : ProcfsVirtualizationPlan * nat :=
  let '(exe, t') := build_self_exe_view c requested facts t in
  let status := build_self_status_view c exe facts in
  let mounts := build_mounts_view c in
  let planned := self_exe_plan_ok exe && status_valid status && mounts_valid mounts &&
                 bool_decide (leaked_host_tokens mounts = []) in
  let error :=
    if planned then []
    else if negb (exe_valid exe) then str "self-exe guest view could not be resolved"
    else if negb (requires_virtualization exe) then
      str "self-exe host truth is unknown so virtualization gap is undefined"
    else if negb (status_valid status) then str "self-status identity is incomplete"
    else if negb (mounts_valid mounts) then
      str "synthesized mount table is missing the guest root or /proc"
    else if negb (bool_decide (leaked_host_tokens mounts = [])) then
      str "synthesized mount table leaks an android host path"
    else [] in
  let plan := mk_procfs_plan exe status mounts planned error in
  (plan (procfs_report (plan [])), t').

End procfs.

(** ** The leak guard *)

Lemma guard_text_concat entries acc :
  foldl (λ acc e, acc ++ mnt_source e ++ " " ++ mnt_options e ++ eol) acc entries =
  acc ++ concat ((λ e, mnt_source e ++ " " ++ mnt_options e ++ eol) <$> entries).
Proof.
  revert acc. induction entries as [|e es IH]; intros acc; [by rewrite app_nil_r|].
  cbn [foldl fmap list_fmap concat]. rewrite IH. by rewrite <- (assoc_L (++)).
Qed.

(** A byte that none of the synthetic source and option labels contains. *)
Definition absent (b : byte) : Prop :=
  b ∉ (guard_text (base_mounts default_config) ++
       guard_text [bind_mount default_config (mk_bind "/" "/")]).

Lemma guard_text_absent c b :
  absent b → b ∉ guard_text (base_mounts c ++ (bind_mount c <$> binds c)).
Proof.
  unfold absent. rewrite not_elem_of_app. intros [Hbase Hbind].
  unfold guard_text in *. rewrite guard_text_concat, fmap_app, concat_app, app_nil_l.
  rewrite not_elem_of_app. split.
  - exact Hbase.
  - induction (binds c) as [|x xs IH]; [apply not_elem_of_nil|].
    cbn [fmap list_fmap concat]. rewrite not_elem_of_app. split; [exact Hbind|exact IH].
Qed.

Lemma absent_check b :
  has_byte b (guard_text (base_mounts default_config) ++
       guard_text [bind_mount default_config (mk_bind "/" "/")]) = false → absent b.
Proof. apply has_byte_false. Qed.

Lemma has_sub_byte needle s b : b ∈ needle → b ∉ s → has_sub needle s = false.
Proof.
  intros Hb Hs. apply not_true_is_false. intros (l & r & ->)%has_sub_spec.
  apply Hs. rewrite !elem_of_app. auto.
Qed.

Lemma absolute_has_slash p : starts_slash p = true → slash ∈ p.
Proof. destruct p as [|b p]; [done|]. cbn. intros ->%bool_decide_eq_true. left. Qed.

Lemma leaked_none c :
  starts_slash (rootfs_dir c) = true →
  Forall (λ b, starts_slash (bind_host b) = true) (binds c) →
  leaked_host_tokens (build_mounts_view c) = [].
Proof.
  intros Hroot Hbinds. cbn [leaked_host_tokens build_mounts_view].
  assert (Htok : ∀ tok, tok ∈ leak_tokens c → slash ∈ tok ∨ "g"%byte ∈ tok).
  { intros tok. unfold leak_tokens. rewrite !elem_of_app. intros [Hg|[Hr|Hb]].
    - assert (Hall : Forall (λ s, has_byte slash s || has_byte "g"%byte s = true)
        generic_host_leak_tokens) by (repeat constructor).
      rewrite Forall_forall in Hall. specialize (Hall tok Hg).
      apply orb_true_iff in Hall. by rewrite !has_byte_true in Hall.
    - left. case_bool_decide; [by apply not_elem_of_nil in Hr|].
      apply list_elem_of_singleton in Hr as ->. by apply absolute_has_slash.
    - left. apply list_elem_of_filter in Hb as [_ Hb].
      apply list_elem_of_fmap in Hb as (b & -> & Hb). rewrite Forall_forall in Hbinds.
      by apply absolute_has_slash, Hbinds. }
  assert (Hnone : ∀ tok, tok ∈ leak_tokens c →
    has_sub tok (guard_text (base_mounts c ++ (bind_mount c <$> binds c))) = false).
  { intros tok [Hs|Hg]%Htok.
    - apply (has_sub_byte _ _ slash Hs), guard_text_absent, absent_check. done.
    - apply (has_sub_byte _ _ "g"%byte Hg), guard_text_absent, absent_check. done. }
  induction (leak_tokens c) as [|tok toks IH]; [done|].
  rewrite filter_cons_False.
  - apply IH; intros tok' Hin; [apply Htok|apply Hnone]; by right.
  - intros [_ Hx]. rewrite Hnone in Hx; [done|left].
Qed.

(** ** The rendered table *)

Definition space : byte := " "%byte.
Definition field_ok (s : bytes) : Prop := (space ∉ s) ∧ (newline ∉ s).

Definition mount_row (e : ProcfsMountEntry) : list bytes :=
  [mnt_source e; mnt_target e; mnt_fstype e; mnt_options e; str "0"; str "0"].

Definition entry_ok (e : ProcfsMountEntry) : Prop := Forall field_ok (mount_row e).

Definition mount_line (e : ProcfsMountEntry) : bytes :=
  mnt_source e ++ " " ++ mnt_target e ++ " " ++ mnt_fstype e ++ " " ++ mnt_options e ++ " 0 0".

Lemma mount_line_join e : mount_line e = join_on space (mount_row e).
Proof. reflexivity. Qed.

Lemma join_on_bytes b c fs :
  b ≠ c → Forall (λ f, b ∉ f) fs → b ∉ join_on c fs.
Proof.
  intros Hne. induction 1 as [|f fs Hf Hfs IH]; [apply not_elem_of_nil|].
  destruct fs as [|g fs]; [done|]. change (join_on c (f :: g :: fs)) with (f ++ c :: join_on c (g :: fs)).
  rewrite elem_of_app, elem_of_cons. naive_solver.
Qed.

(** Reading the table back: one line per entry, six fields per line. *)
Lemma render_rows m :
  Forall entry_ok (mnt_entries m) →
  split_on space <$> split_on newline (render_guest_mounts m) =
  (mount_row <$> mnt_entries m) ++ [[[]]].
Proof.
  intros Hok. unfold render_guest_mounts. fold mount_line.
  change (λ e : ProcfsMountEntry, _) with mount_line.
  rewrite split_on_unlines.
  - rewrite fmap_app. f_equal. induction Hok as [|e es He _ IH]; [done|].
    cbn [fmap list_fmap]. f_equal; [|exact IH]. rewrite mount_line_join.
    apply split_on_join; [done|]. eapply Forall_impl; [exact He|]. by intros x [? _].
  - apply Forall_fmap. eapply Forall_impl; [exact Hok|]. intros e He.
    unfold compose. rewrite mount_line_join. apply join_on_bytes; [done|].
    eapply Forall_impl; [exact He|]. by intros x [_ ?].
Qed.

(** What the guest is meant to see: nothing of the host side. *)
Definition base_rows : list (list bytes) :=
  strs <$>
  [ ["alr_rootfs"; "/"; "overlay"; "rw,relatime"; "0"; "0"];
    ["proc"; "/proc"; "proc"; "rw,nosuid,nodev,noexec,relatime"; "0"; "0"];
    ["sysfs"; "/sys"; "sysfs"; "rw,nosuid,nodev,noexec,relatime"; "0"; "0"];
    ["tmpfs"; "/tmp"; "tmpfs"; "rw,nosuid,nodev,relatime"; "0"; "0"];
    ["devpts"; "/dev/pts"; "devpts"; "rw,nosuid,noexec,relatime"; "0"; "0"];
    ["tmpfs"; "/dev/shm"; "tmpfs"; "rw,nosuid,nodev,relatime"; "0"; "0"] ].
Definition bind_row (guest : bytes) : list bytes :=
  [str "alr_bind"; guest; str "none"; str "rw,bind,relatime"; str "0"; str "0"].

Lemma field_ok_check (s : bytes) : has_byte space s || has_byte newline s = false → field_ok s.
Proof. intros [H1 H2]%orb_false_iff. by apply has_byte_false in H1, H2. Qed.

Lemma base_mounts_ok c : Forall entry_ok (base_mounts c).
Proof.
  repeat constructor; by apply field_ok_check.
Qed.

(** The normalized targets of a validated configuration are its own. *)
Lemma bind_target_fixed c b :
  no_nul (cwd c) → starts_slash (cwd c) = true → no_nul (bind_guest b) →
  starts_slash (bind_guest b) = true → lexical (bind_guest b) = bind_guest b →
  mnt_target (bind_mount c b) = bind_guest b.
Proof.
  intros Hc1 Hc2 H1 H2 H3. unfold bind_mount. cbn [mnt_target].
  rewrite (proj2 (normalize_lexical (bind_guest b) (cwd c) (bind_guest b))); [done|].
  split; [done|]. split; [done|]. split; [done|]. unfold resolved. by rewrite H2, H3.
Qed.

(** ** Properties *)


Definition mounts_config : RuntimeConfig :=
  mk_config "pkg" "/data/user/0/app/rootfs" "/" "/bin/init" [] [mk_bind "/mnt/share" "/storage/emulated/0"]
    [] [] [] true 0 false false.


(** A newline in a bind target adds a line of the guest's choosing to the table:
    the renderer does not escape fields. *)
Example mounts_line_injection :
  let c := mk_config "pkg" "/r" "/" "/bin/init" []
             [mk_bind ("/a" ++ [newline] ++ "x /data none rw 0 0") "/h"] [] [] [] true 0 false false in
  is_ok (validate_runtime_config c) = true ∧
  str "x /data none rw 0 0 none rw,bind,relatime 0 0" ∈
    split_on newline (render_guest_mounts (build_mounts_view c)).
Proof. split; [vm_compute; reflexivity|]. apply list_elem_of_In. vm_compute. tauto. Qed.

(** The plan succeeds exactly when the guest view is absolute and names a
    program, the host truth is known and differs from it, and the identity is
    not negative; the error text is empty exactly then; and under fakeroot the
    guest always reads uid and gid 0. *)
Theorem procfs_plan_correct H c requested facts t p t' :
  validate_runtime_config c = Ok c →
  build_procfs_virtualization_plan H c requested facts t = (p, t') →
  let exe := pv_self_exe p in
  let status := pv_self_status p in
  (pv_planned p = true ↔
     starts_slash (guest_view exe) = true ∧ path_basename (guest_view exe) ≠ [] ∧
     host_truth exe ≠ [] ∧ host_truth exe ≠ guest_view exe ∧
     (0 ≤ st_uid status)%Z ∧ (0 ≤ st_gid status)%Z) ∧
  (pv_error p = [] ↔ pv_planned p = true) ∧
  (fake_root c = true → st_uid status = 0%Z ∧ st_gid status = 0%Z ∧
     st_lines status = ["Name:" ++ [tab] ++ basename_of (guest_view exe);
       "Uid:" ++ [tab] ++ "0" ++ [tab] ++ "0" ++ [tab] ++ "0" ++ [tab] ++ "0";
       "Gid:" ++ [tab] ++ "0" ++ [tab] ++ "0" ++ [tab] ++ "0" ++ [tab] ++ "0"]).
Proof.
  intros Hv. destruct (validated_fields c Hv) as (_ & [_ Hr2] & Hb).
  unfold build_procfs_virtualization_plan, build_self_exe_view.
  destruct (resolve_guest_view H c requested t) as [view t1].
  set (truth := if bool_decide (self_exe_truth facts = []) then _ else _).
  intros [<- <-]%pair_equal_spec. cbv zeta. cbn [pv_self_exe pv_self_status pv_planned pv_error].
  assert (Hleak : leaked_host_tokens (build_mounts_view c) = []).
  { apply leaked_none; [done|]. eapply Forall_impl; [exact Hb|]. naive_solver. }
  rewrite Hleak. change (mounts_valid (build_mounts_view c)) with true.
  rewrite (bool_decide_true ([] = [])) by done. rewrite !andb_true_r.
  unfold self_exe_plan_ok. cbn [exe_valid requires_virtualization guest_view host_truth
    interpose_paths interpose_syscalls].
  rewrite (bool_decide_false (strs _ = [])) by done.
  rewrite (bool_decide_false (strs _ = [])) by done. cbn [negb]. rewrite !andb_true_r.
  set (status := build_self_status_view H c _ facts).
  assert (Hst : status_valid status =
    negb (bool_decide (basename_of view = [])) && (0 <=? st_uid status)%Z && (0 <=? st_gid status)%Z).
  { unfold status, build_self_status_view. by repeat case_match. }
  assert (Hbase : starts_slash view = true → basename_of view = path_basename view)
    by (by destruct view).
  rewrite Hst. unfold is_guest_absolute_path. split; [|split].
  - rewrite !andb_true_iff, !negb_true_iff, !bool_decide_eq_false, !Z.leb_le.
    split; [intros ((? & ? & ?) & (? & ?) & ?)|intros (? & ? & ? & ? & ? & ?)];
      (rewrite Hbase in * by done); tauto.
  - destruct (starts_slash view), (negb (bool_decide (truth = [])) && negb (bool_decide (truth = view)));
      cbn [andb negb]; try done.
    by destruct (_ && _ && _).
  - intros Hfr. unfold status, build_self_status_view. rewrite Hfr. done.
Qed.

Lemma procfs_plan_correct_witness :
  ∃ p t', build_procfs_virtualization_plan exec_host mounts_config "/usr/bin/../bin/bash"
      (mk_facts "/data/app/libtramp.so" false 0 0) 1 = (p, t') ∧
    guest_view (pv_self_exe p) = str "/usr/bin/bash" ∧ pv_error p = [] ∧ pv_planned p = true ∧
    st_uid (pv_self_status p) = 0%Z.
Proof.
  assert (Hv : validate_runtime_config mounts_config = Ok mounts_config)
    by (vm_compute; reflexivity).
  destruct (build_procfs_virtualization_plan exec_host mounts_config "/usr/bin/../bin/bash"
    (mk_facts "/data/app/libtramp.so" false 0 0) 1) as [p t'] eqn:E.
  destruct (procfs_plan_correct _ _ _ _ _ _ _ Hv E) as (Hplan & Herr & Hfr).
  exists p, t'. split; [done|]. vm_compute in E. injection E as <- <-.
  split; [reflexivity|]. split; [apply Herr; reflexivity|]. split; [reflexivity|].
  by apply Hfr.
Defined.
