(* ===== verification/Interposer.v ===== *)
(** * [alr_runtime/alr_interposer.cpp] and [alr_hook.cpp]: interposed path access

    [resolve_interposed_access] decides whether a guest access is answered from
    the synthesized procfs views (Procfs.v) or translated into the rootfs; the
    two smoke runs stat, open and read a translated path. *)

From S2P Require Import Prelude CppMap PathSpec PathRule GuestPath RuntimeConfig HostFs ElfPlan.
From S2P Require Import ExecMediation ExecPlan Procfs.

Inductive InterposedKind := RootfsPath | ProcSelfExe | ProcSelfStatus | ProcMounts.
#[export] Instance InterposedKind_eq_dec : EqDecision InterposedKind.
Proof. solve_decision. Defined.

Record InterposedResolution := mk_interposed {
  ir_kind : InterposedKind;
  ir_virtualized : bool;
  ir_guest_path : bytes;
  ir_host_path : bytes;
  synthetic_link_target : bytes;
  synthetic_content : bytes;
  ir_report : bytes;
}.

Definition interposed_kind_name (kind : InterposedKind) : bytes :=
  match kind with
  | RootfsPath => "rootfs-path"
  | ProcSelfExe => "proc-self-exe"
  | ProcSelfStatus => "proc-self-status"
  | ProcMounts => "proc-mounts"
  end.

Definition is_decimal (c : byte) : bool := (48 <=? byte_val c)%Z && (byte_val c <=? 57)%Z.
Definition is_all_digits (value : bytes) : bool :=
  negb (bool_decide (value = [])) && forallb is_decimal value.

Definition matches_proc_suffix (normalized suffix : bytes) : bool :=
  if negb (bool_decide (take 6 normalized = str "/proc/")) then false
  else
    let rest := drop 6 normalized in
    match find_byte slash rest 0 with
    | None => false
    | Some k =>
        let owner := substr rest 0 k in
        let tail := substr_from rest (S k) in
        if negb (bool_decide (owner = str "self")) && negb (is_all_digits owner) then false
        else bool_decide (tail = suffix)
    end.

Definition access_kind (guest : bytes) : InterposedKind :=
  if matches_proc_suffix guest "exe" then ProcSelfExe
  else if matches_proc_suffix guest "status" then ProcSelfStatus
  else if bool_decide (guest = str "/proc/mounts") || matches_proc_suffix guest "mounts" then ProcMounts
  else RootfsPath.

Definition interposed_report (r : InterposedResolution) : bytes :=
  "ALR INTERPOSE RESOLVE: " ++
    pass (negb (bool_decide (ir_host_path r = [])) || negb (bool_decide (synthetic_link_target r = []))
          || negb (bool_decide (synthetic_content r = []))) ++
  eol ++ "ALR INTERPOSE KIND: " ++ interposed_kind_name (ir_kind r) ++
  eol ++ "ALR INTERPOSE VIRTUALIZED: " ++ (if ir_virtualized r then "PASS" else "SKIP") ++
  eol ++ "alr interpose guest path=" ++ ir_guest_path r ++
  eol ++ "alr interpose host path=" ++
    (if bool_decide (ir_host_path r = []) then str "synthetic" else ir_host_path r) ++
  (match ir_kind r with
   | ProcSelfExe => eol ++ "alr interpose synthetic link target=" ++ synthetic_link_target r
   | ProcSelfStatus | ProcMounts =>
       eol ++ "alr interpose synthetic content bytes=" ++ size_string (length (synthetic_content r))
   | RootfsPath => []
   end).

Definition with_ir_report (r : InterposedResolution) : InterposedResolution :=
  let '(mk_interposed k v g h l s _) := r in mk_interposed k v g h l s (interposed_report r).

Definition no_facts : ProcfsHostFacts := mk_facts [] false 0 0.

Section interposer.
Context (H : Host).

Definition resolve_interposed_access (c : RuntimeConfig) (requested access_path : bytes) (t : nat)
    : result InterposedResolution * nat :=
  match normalize_guest_path access_path (cwd c) with
  | Throw w => (Throw w, t)
  | Ok guest =>
      let kind := access_kind guest in
      match kind with
      | RootfsPath =>
          (tr ← translate_rootfs_path (rootfs_dir c) (cwd c) access_path;
           mret (with_ir_report (mk_interposed kind false guest (host_path tr) [] [] [])), t)
      | _ =>
          let '(plan, t') := build_procfs_virtualization_plan H c requested no_facts t in
          (Ok (with_ir_report
             match kind with
             | ProcSelfExe =>
                 mk_interposed kind (exe_valid (pv_self_exe plan)) guest []
                   (guest_view (pv_self_exe plan)) [] []
             | ProcSelfStatus =>
                 mk_interposed kind (status_valid (pv_self_status plan)) guest [] []
                   (unlines (st_lines (pv_self_status plan))) []
             | _ =>
                 mk_interposed kind (mounts_valid (pv_mounts plan)) guest [] []
                   (render_guest_mounts (pv_mounts plan)) []
             end), t')
      end
  end.

(** ** The smoke runs *)

Definition sanitize_byte (c : byte) : byte :=
  if bool_decide (c = newline) || bool_decide (c = Byte.x0d) || bool_decide (c = tab)
  then space
  else if (0x20 <=? byte_val c)%Z && (byte_val c <? 0x7f)%Z then c
  else "."%byte.
Definition sanitize_first_bytes (s : bytes) : bytes := sanitize_byte <$> s.

Record InterposedPathResult := mk_path_result {
  pr_translation : PathTranslation;
  pr_opened : bool;
  pr_stated : bool;
  pr_open_errno : Z;
  pr_stat_errno : Z;
  pr_size_bytes : Z;
  pr_first_bytes : bytes;
  pr_report : bytes;
}.

Definition path_smoke_report (r : InterposedPathResult) : bytes :=
  "ALR INTERPOSER LOAD: " ++ pass (pr_opened r && pr_stated r) ++
  (if pr_opened r then [] else eol ++ "alr interposer open errno=" ++ to_string (pr_open_errno r)) ++
  (if pr_stated r then [] else eol ++ "alr interposer stat errno=" ++ to_string (pr_stat_errno r)) ++
  eol ++ "ALR INTERPOSER MODE: translated-open-stat-smoke" ++
  eol ++ "ALR INTERPOSER GUEST PATH: " ++ guest_path (pr_translation r) ++
  eol ++ "ALR INTERPOSER HOST PATH: " ++ host_path (pr_translation r) ++
  eol ++ "ALR INTERPOSER STAT PATH: " ++ pass (pr_stated r) ++
  eol ++ "ALR INTERPOSER OPEN PATH: " ++ pass (pr_opened r) ++
  eol ++ "ALR INTERPOSER FILE SIZE: " ++ to_string (pr_size_bytes r) ++
  eol ++ "ALR INTERPOSER FIRST BYTES: " ++ pr_first_bytes r ++
  (if pr_stated r then [] else eol ++ "ALR INTERPOSER STAT ERRNO: " ++ to_string (pr_stat_errno r)) ++
  (if pr_opened r then [] else eol ++ "ALR INTERPOSER OPEN ERRNO: " ++ to_string (pr_open_errno r)).

(** [read(fd, buffer, max_read_bytes == 0 ? 1 : max_read_bytes)] *)
Definition read_size (max_read_bytes : nat) : nat :=
  if decide (max_read_bytes = 0) then 1 else max_read_bytes.

Definition run_interposer_path_smoke (rootfs cwd path : bytes) (max_read_bytes : nat) (t : nat)
    : result InterposedPathResult * nat :=
  match translate_rootfs_path rootfs cwd path with
  | Throw w => (Throw w, t)
  | Ok tr =>
      let '(stated, stat_errno, size) :=
        match host_stat H (host_path tr) with
        | inr st => (true, 0%Z, st_size st)
        | inl e => (false, e, (-1)%Z)
        end in
      let '(opened, open_errno, first, t') :=
        match host_open H (host_path tr) with
        | inl e => (false, e, [], t)
        | inr c =>
            (true, 0%Z,
             match host_pread H t c 0 (read_size max_read_bytes) with
             | RData d => sanitize_first_bytes d
             | RErr _ => []
             end, S t)
        end in
      let r := mk_path_result tr opened stated open_errno stat_errno size first in
      (Ok (r (path_smoke_report (r []))), t')
  end.

Record PathHookSmokeResult := mk_hook_result {
  hk_translation : PathTranslation;
  hk_opened : bool;
  hk_stated : bool;
  hk_size_bytes : Z;
  hk_first_bytes : bytes;
  hk_error : bytes;
  hk_report : bytes;
}.

Definition hook_report (r : PathHookSmokeResult) : bytes :=
  "ALR HOOK LOAD: " ++ pass (hk_opened r && hk_stated r && bool_decide (hk_error r = [])) ++
  opt_line "alr hook error=" (hk_error r) ++
  eol ++ "ALR HOOK MODE: host-path-smoke" ++
  eol ++ "ALR HOOK GUEST PATH: " ++ guest_path (hk_translation r) ++
  eol ++ "ALR HOOK HOST PATH: " ++ host_path (hk_translation r) ++
  eol ++ "ALR STAT ROOTFS FILE: " ++ pass (hk_stated r) ++
  eol ++ "ALR OPEN ROOTFS FILE: " ++ pass (hk_opened r) ++
  eol ++ "ALR HOOK FILE SIZE: " ++ to_string (hk_size_bytes r) ++
  eol ++ "ALR HOOK FIRST BYTES: " ++ hk_first_bytes r ++
  opt_line "ALR HOOK ERROR: " (hk_error r).

Definition run_path_hook_smoke (rootfs cwd path : bytes) (max_read_bytes : nat) (t : nat)
    : result PathHookSmokeResult * nat :=
  match translate_rootfs_path rootfs cwd path with
  | Throw w => (Throw w, t)
  | Ok tr =>
      let '(stated, size, error) :=
        match host_stat H (host_path tr) with
        | inr st => (true, st_size st, [])
        | inl e => (false, (-1)%Z, errno_message H e "stat")
        end in
      let note e action := if bool_decide (error = []) then errno_message H e action else error in
      let '(opened, first, error', t') :=
        match host_open H (host_path tr) with
        | inl e => (false, [], note e (str "open"), t)
        | inr c =>
            match host_pread H t c 0 (read_size max_read_bytes) with
            | RData d => (true, sanitize_first_bytes d, error, S t)
            | RErr e => (true, [], note e (str "read"), S t)
            end
        end in
      let r := mk_hook_result tr opened stated size first error' in
      (Ok (r (hook_report (r []))), t')
  end.

End interposer.

(** ** The component reading of the access kinds *)

(** "self" or a decimal process id. *)
Definition proc_owner (o : bytes) : bool := bool_decide (o = str "self") || is_all_digits o.

Definition kind_spec (cs : list bytes) : InterposedKind :=
  match cs with
  | [p; leaf] =>
      if bool_decide (p = str "proc") && bool_decide (leaf = str "mounts") then ProcMounts else RootfsPath
  | [p; owner; leaf] =>
      if bool_decide (p = str "proc") && proc_owner owner then
        if decide (leaf = str "exe") then ProcSelfExe
        else if decide (leaf = str "status") then ProcSelfStatus
        else if decide (leaf = str "mounts") then ProcMounts
        else RootfsPath
      else RootfsPath
  | _ => RootfsPath
  end.

Lemma digits_plain o : is_all_digits o = true → plain o.
Proof.
  unfold is_all_digits. intros [Hne Hd]%andb_true_iff.
  apply negb_true_iff, bool_decide_eq_false in Hne. rewrite forallb_forall in Hd.
  assert (Hnot : ∀ b, is_decimal b = false → b ∉ o).
  { intros b Hb Hin%list_elem_of_In. apply Hd in Hin. congruence. }
  split; [done|]. split; [|split].
  - intros ->. apply (Hnot "."%byte); [done|left].
  - intros ->. apply (Hnot "."%byte); [done|left].
  - by apply Hnot.
Qed.

Lemma proc_owner_plain o : proc_owner o = true → plain o.
Proof.
  unfold proc_owner. intros [->%bool_decide_eq_true|Hd]%orb_true_iff; [|by apply digits_plain].
  repeat split; try done. by apply has_byte_false.
Qed.

Lemma proc_plain : plain (str "proc").
Proof. repeat split; try done. by apply has_byte_false. Qed.

Lemma render3 a b c : render [a; b; c] = slash :: a ++ slash :: b ++ slash :: c.
Proof. unfold render. cbn [fmap list_fmap concat app]. by rewrite app_nil_r. Qed.

(** The string matcher, on a rendered path, is a test of its components. *)
Lemma matches_components cs suffix :
  Forall plain cs → plain suffix →
  matches_proc_suffix (render cs) suffix = true ↔
  ∃ owner, proc_owner owner = true ∧ cs = [str "proc"; owner; suffix].
Proof.
  intros Hcs Hsuf. unfold matches_proc_suffix. split.
  - case_bool_decide as Hpre; [cbn [negb]|done]. unfold find_byte.
    change (drop 0 (drop 6 (render cs))) with (drop 6 (render cs)).
    destruct (find_from slash (drop 6 (render cs))) as [k|] eqn:E;
      cbn [fmap option_fmap option_map]; [|done]. change (0 + k) with k.
    destruct (find_from_Some _ _ _ E) as (r & Hd & _ & Hr & _).
    unfold substr, substr_from. change (drop 0 (drop 6 (render cs))) with (drop 6 (render cs)).
    set (owner := take k (drop 6 (render cs))) in *.
    assert (Ho : negb (bool_decide (owner = str "self")) && negb (is_all_digits owner) =
                 negb (proc_owner owner)) by (unfold proc_owner; by rewrite negb_orb).
    rewrite Ho. destruct (proc_owner owner) eqn:Eo; cbn [negb]; [|done].
    intros Ht%bool_decide_eq_true. exists owner. split; [done|].
    apply render_inj; [done| |].
    + constructor; [exact proc_plain|]. constructor; [by apply proc_owner_plain|]. by constructor.
    + rewrite render3, <- (take_drop 6 (render cs)), Hpre, Hd. rewrite <- Hr in Ht. by rewrite Ht.
  - intros (owner & Ho & ->). rewrite render3.
    change (take 6 (slash :: str "proc" ++ slash :: ?x)) with (str "/proc/").
    rewrite bool_decide_true by done. cbn [negb]. unfold find_byte.
    change (drop 6 (slash :: str "proc" ++ slash :: ?x)) with x.
    change (drop 0 ?x) with x.
    destruct (proc_owner_plain _ Ho) as (_ & _ & _ & Hns).
    assert (Hfind : find_from slash (owner ++ slash :: suffix) = Some (length owner)).
    { clear -Hns. induction owner as [|b o IH]; cbn [app find_from]; [by rewrite decide_True|].
      apply not_elem_of_cons in Hns as [Hb Ho]. rewrite decide_False by done.
      by rewrite IH. }
    rewrite Hfind. cbn [fmap option_fmap option_map Nat.add]. unfold substr, substr_from.
    change (drop 0 ?x) with x. rewrite take_app_length.
    replace (S (length owner)) with (length (owner ++ [slash])) by (rewrite length_app; simpl; lia).
    change (owner ++ slash :: suffix) with (owner ++ [slash] ++ suffix).
    rewrite (assoc_L (++)), drop_app_length.
    assert (Hn : negb (bool_decide (owner = str "self")) && negb (is_all_digits owner) =
                 negb (proc_owner owner)) by (unfold proc_owner; by rewrite negb_orb).
    rewrite Hn, Ho. by apply bool_decide_eq_true.
Qed.

Lemma matches_iff cs suffix :
  Forall plain cs → plain suffix →
  matches_proc_suffix (render cs) suffix =
  match cs with
  | [p; owner; leaf] => bool_decide (p = str "proc") && proc_owner owner && bool_decide (leaf = suffix)
  | _ => false
  end.
Proof.
  intros Hcs Hs. apply eq_true_iff_eq. rewrite matches_components by done. split.
  - intros (o & Ho & ->). rewrite Ho, bool_decide_true by done. by apply bool_decide_eq_true.
  - destruct cs as [|p [|o [|l []]]]; try done.
    rewrite !andb_true_iff, !bool_decide_eq_true. intros [[-> Ho] ->]. by exists o.
Qed.

Lemma leaf_plain : plain "exe" ∧ plain "status" ∧ plain "mounts".
Proof. by repeat split; try done; apply has_byte_false. Qed.

Lemma access_kind_components cs :
  Forall plain cs → access_kind (render cs) = kind_spec cs.
Proof.
  intros Hcs. destruct leaf_plain as (He & Hs & Hm). unfold access_kind.
  rewrite !matches_iff by done.
  assert (Hmounts : bool_decide (render cs = str "/proc/mounts") =
                    bool_decide (cs = [str "proc"; str "mounts"])).
  { apply bool_decide_ext. change (str "/proc/mounts") with (render [str "proc"; str "mounts"]).
    split; [|by intros ->]. intros E. apply render_inj in E; [done|done|].
    constructor; [exact proc_plain|]. by constructor. }
  rewrite Hmounts.
  destruct cs as [|p [|o [|l []]]]; try (by rewrite bool_decide_false); unfold kind_spec.
  - cbn [orb]. rewrite orb_false_r.
    destruct (decide (p = str "proc")) as [->|Hp].
    + rewrite (bool_decide_true (str "proc" = _)) by done. cbn [andb].
      rewrite (bool_decide_ext _ (o = str "mounts")) by naive_solver. done.
    + rewrite (bool_decide_false (p = _)) by done. cbn [andb].
      by rewrite bool_decide_false by congruence.
  - rewrite (bool_decide_false ([p; o; l] = _)) by done. cbn [orb].
    destruct (bool_decide (p = str "proc") && proc_owner o); cbn [andb]; [|done].
    repeat case_decide; subst; try done; rewrite ?bool_decide_false by done; try done.
Qed.

(** ** Property *)

(** Interposed accesses, for every access path: the kind is the one the
    component specification gives for the normalized path (/proc/self/exe,
    /proc/<pid>/status, /proc/mounts, ... and nothing else); a virtualized
    access carries no host path at all; any other access carries no synthetic
    answer, and its host path is a kernel virtual path or stays inside the
    rootfs. *)
Theorem interposed_access_correct H c requested path t r t' :
  resolve_interposed_access H c requested path t = (Ok r, t') →
  ir_kind r = kind_spec (canon (ir_guest_path r)) ∧
  (ir_kind r ≠ RootfsPath → ir_host_path r = []) ∧
  (ir_kind r = RootfsPath →
     synthetic_link_target r = [] ∧ synthetic_content r = [] ∧ ir_virtualized r = false ∧
     (alr_is_sysdir (ir_host_path r) = true ∨
      ∃ cs, Forall plain cs ∧
            ir_host_path r = trim_trailing_slashes (rootfs_dir c) ++ subpath cs)).
Proof.
  unfold resolve_interposed_access.
  destruct (normalize_guest_path path (cwd c)) as [guest|] eqn:Eg; [|done].
  apply normalize_lexical in Eg as (_ & _ & _ & Eg).
  assert (Hk : access_kind guest = kind_spec (canon guest)).
  { rewrite Eg. unfold lexical. rewrite canon_render by apply canon_plain.
    apply access_kind_components, canon_plain. }
  destruct (access_kind guest) eqn:Ek.
  { intros [Hr <-]%pair_equal_spec. apply bind_Ok in Hr as (tr & Htr & [= <-]).
    cbn [ir_kind ir_guest_path ir_host_path synthetic_link_target synthetic_content ir_virtualized
         with_ir_report].
    split; [done|]. split; [done|]. intros _. repeat (split; [done|]).
    destruct (translate_host_cases _ _ _ _ Htr) as [[? _]|?]; auto. }
  all: destruct (build_procfs_virtualization_plan H c requested no_facts t) as [plan t1];
    intros [Hr <-]%pair_equal_spec; injection Hr as <-; split; [exact Hk|]; split; [done|];
    intros Hx; discriminate Hx.
Qed.

Lemma interposed_access_correct_witness :
  ∃ r t', resolve_interposed_access exec_host mounts_config "/bin/sh" "/proc/./42/mounts" 1 = (Ok r, t') ∧
    ir_virtualized r = true ∧ ir_kind r = ProcMounts ∧
    ir_kind r = kind_spec (canon (ir_guest_path r)) ∧
    (ir_kind r ≠ RootfsPath → ir_host_path r = []).
Proof.
  destruct (resolve_interposed_access exec_host mounts_config "/bin/sh" "/proc/./42/mounts" 1)
    as [res t'] eqn:E.
  assert (Hr : ∃ r, res = Ok r) by (vm_compute in E; injection E as <- _; by eexists).
  destruct Hr as [r ->].
  destruct (interposed_access_correct _ _ _ _ _ _ _ E) as (Hk & Hh & _).
  exists r, t'. split; [done|]. split; [vm_compute in E; injection E as <- _; reflexivity|].
  split; [vm_compute in E; injection E as <- _; reflexivity|]. by split.
Defined.
