(* ===== verification/WxStrategy.v ===== *)
(** * [alr_runtime/alr_wx.cpp]: which mechanism may run a guest binary

    The strategy follows the SELinux domain the process runs in (the contents of
    /proc/self/attr/current, a parameter: [None] when the file cannot be opened).
    Where the domain does not grant execute on app data, no mechanism that execs
    a writable rootfs file may be ranked. *)

From S2P Require Import Prelude CppMap PathSpec PathRule GuestPath RuntimeConfig HostFs ElfPlan.
From S2P Require Import ExecMediation ExecPlan Procfs.

Inductive GuestLoadMethod := DirectRootfsExecve | MemfdExecveat | AnonMmapLoader | ProotBaseline.
Inductive RejectedExecMethod := RejDirectRootfsExecve | FileBackedMmapExec.
#[export] Instance GuestLoadMethod_eq_dec : EqDecision GuestLoadMethod.
Proof. solve_decision. Defined.
#[export] Instance RejectedExecMethod_eq_dec : EqDecision RejectedExecMethod.
Proof. solve_decision. Defined.

Record GuestLoadCandidate := mk_candidate {
  gl_method : GuestLoadMethod;
  gl_name : bytes;
  requires_device_selinux_check : bool;
  selinux_lean : bytes;
  gl_rationale : bytes;
}.
Record RejectedExecCandidate := mk_rejected {
  rj_method : RejectedExecMethod;
  rj_name : bytes;
  rj_reason : bytes;
}.
Record WxSafeExecStrategy := mk_strategy {
  wx_entrypoint : bytes;
  wx_target_host_path : bytes;
  entrypoint_is_packaged : bool;
  app_data_exec_allowed : bool;
  selinux_domain : bytes;
  rejects_direct_rootfs_exec : bool;
  ranked_methods : list GuestLoadCandidate;
  rejected_methods : list RejectedExecCandidate;
  wx_primary : GuestLoadMethod;
  proot_baseline_available : bool;
  wx_planned : bool;
  wx_error : bytes;
  wx_report : bytes;
}.

Definition path_is_inside (path prefix : bytes) : bool :=
  if bool_decide (prefix = []) || bool_decide (length path < length prefix) then false
  else if negb (bool_decide (take (length prefix) path = prefix)) then false
  else bool_decide (length path = length prefix) ||
       match drop (length prefix) path with c :: _ => bool_decide (c = slash) | [] => false end ||
       (match last prefix with Some c => bool_decide (c = slash) | None => false end).

Definition current_selinux_domain (attr_current : option bytes) : bytes :=
  trim_end (λ c, bool_decide (c = nul) || bool_decide (c = newline))
    (take_until (λ c, bool_decide (c = newline)) (default [] attr_current)).

Definition domain_allows_app_data_exec (domain : bytes) : bool :=
  has_sub ":untrusted_app_27:" domain || has_sub ":untrusted_app_25:" domain ||
  has_sub ":runas_app:" domain.

Definition ranked_guest_load_methods (allowed : bool) : list GuestLoadCandidate :=
  (if allowed then
     [mk_candidate DirectRootfsExecve "direct-rootfs-execve" true
        "app_data_file:file execute_no_trans for this domain"
        "the domain grants execute on app-private files, so the guest loader can be exec'd directly -- no in-memory copy, no userspace loader"]
   else []) ++
  [ mk_candidate AnonMmapLoader "anon-mmap-loader" true "execmem for the app domain"
      "a userspace loader copies segments into anonymous RW->RX memory, so no writable file ever carries execute permission";
    mk_candidate MemfdExecveat "memfd-execveat" true
      "execute on the anonymous memfd/tmpfs label for the app domain"
      "copies the guest ELF into an anonymous in-memory fd; MEASURED DENIED on this device (EACCES) so it ranks below the anon-mmap loader";
    mk_candidate ProotBaseline "proot-baseline" false
      "none (ptrace-mediated, no native exec page is created)"
      "known-working fallback with the highest overhead; keeps a guaranteed path when the native mechanisms are blocked by device policy" ].

Definition rejected_exec_methods (target : bytes) (allowed : bool) : list RejectedExecCandidate :=
  if allowed then []
  else
    [ mk_rejected RejDirectRootfsExecve "direct-rootfs-execve"
        ("execve() needs execute permission on " ++ target ++
         " which is an app_data_file; this domain lacks execute_no_trans");
      mk_rejected FileBackedMmapExec "file-backed-mmap-exec"
        ("mmap PROT_EXEC of " ++ target ++
         " needs file execute permission, also denied in this domain") ].

Definition fallback_chain (methods : list GuestLoadCandidate) : bytes :=
  join_on ","%byte (gl_name <$> methods).

Definition file_backed_mmap_rejected (rejected : list RejectedExecCandidate) : bool :=
  existsb (λ r, bool_decide (rj_method r = FileBackedMmapExec)) rejected.

Definition guest_load_method_name (m : GuestLoadMethod) : bytes :=
  match m with
  | DirectRootfsExecve => "direct-rootfs-execve"
  | MemfdExecveat => "memfd-execveat"
  | AnonMmapLoader => "anon-mmap-loader"
  | ProotBaseline => "proot-baseline"
  end.

Fixpoint method_lines (i : nat) (ms : list GuestLoadCandidate) : bytes :=
  match ms with
  | [] => []
  | m :: ms =>
      eol ++ "alr wx method[" ++ size_string i ++ "]=" ++ gl_name m ++
      " device-selinux-check=" ++ bool_word (requires_device_selinux_check m) ++
      " leans-on=" ++ selinux_lean m ++ method_lines (S i) ms
  end.
Fixpoint rejected_lines (i : nat) (rs : list RejectedExecCandidate) : bytes :=
  match rs with
  | [] => []
  | r :: rs =>
      eol ++ "alr wx rejected[" ++ size_string i ++ "]=" ++ rj_name r ++ " reason=" ++ rj_reason r ++
      rejected_lines (S i) rs
  end.

Definition wx_build_report (s : WxSafeExecStrategy) : bytes :=
  "ALR WX-SAFE EXEC STRATEGY: " ++ pass (wx_planned s) ++
  eol ++ "ALR WX-SAFE ENTRYPOINT IS PACKAGED: " ++ pass (entrypoint_is_packaged s) ++
  eol ++ "alr wx selinux domain=" ++
    (if bool_decide (selinux_domain s = []) then str "(unknown)" else selinux_domain s) ++
  eol ++ "alr wx app-data exec allowed=" ++ (if app_data_exec_allowed s then "yes" else "no") ++
  eol ++ "ALR WX-SAFE DIRECT ROOTFS EXEC REJECTED: " ++
    (if app_data_exec_allowed s then str "N/A (this domain permits it)"
     else pass (rejects_direct_rootfs_exec s)) ++
  eol ++ "ALR WX-SAFE FILE-BACKED MMAP EXEC REJECTED: " ++
    (if app_data_exec_allowed s then str "N/A (this domain permits file execute)"
     else pass (file_backed_mmap_rejected (rejected_methods s))) ++
  eol ++ "ALR WX-SAFE PROOT BASELINE AVAILABLE: " ++ pass (proot_baseline_available s) ++
  eol ++ "alr wx entrypoint=" ++ wx_entrypoint s ++
  eol ++ "alr wx target rootfs host path diagnostic=" ++ wx_target_host_path s ++
  eol ++ "alr wx primary method=" ++ guest_load_method_name (wx_primary s) ++
  eol ++ "alr wx fallback chain=" ++ fallback_chain (ranked_methods s) ++
  method_lines 0 (ranked_methods s) ++
  rejected_lines 0 (rejected_methods s) ++
  opt_line "alr wx error=" (wx_error s).

Definition build_wx_safe_exec_strategy (attr_current : option bytes) (c : RuntimeConfig)
    (r : ExecutableResolution) : WxSafeExecStrategy :=
  let entrypoint := config_env_value c "ALR_TRAMPOLINE_PATH" in
  let target := host_path (er_translation r) in
  let packaged := negb (bool_decide (entrypoint = [])) && negb (path_is_inside entrypoint (rootfs_dir c)) in
  let domain := current_selinux_domain attr_current in
  let allowed := domain_allows_app_data_exec domain in
  let ranked := ranked_guest_load_methods allowed in
  let rejected := rejected_exec_methods target allowed in
  let rejects := negb allowed in
  let primary := match ranked with [] => ProotBaseline | m :: _ => gl_method m end in
  let proot := existsb (λ m, bool_decide (gl_method m = ProotBaseline)) ranked in
  let planned := negb (bool_decide (length ranked = 0)) && negb (bool_decide (primary = ProotBaseline)) &&
    proot && (allowed || (packaged && rejects && file_backed_mmap_rejected rejected)) in
  let error :=
    if planned then []
    else if negb packaged then str "entrypoint is missing or inside the writable rootfs"
    else if bool_decide (primary = ProotBaseline) then str "no native-exec primary method is available"
    else if negb proot then str "proot baseline fallback is unavailable"
    else [] in
  let s := mk_strategy entrypoint target packaged allowed domain rejects ranked rejected primary
             proot planned error in
  s (wx_build_report (s [])).

(** ** Property *)

(** For every configuration, resolution and domain: a strategy exists exactly
    when the domain permits app-data exec or the entrypoint is packaged outside
    the rootfs, and its error is empty exactly then; where the domain does not
    permit it, no ranked mechanism execs a rootfs file and both exec forms are
    rejected; where it does, nothing is rejected and direct exec comes first;
    a native mechanism is always primary and PRoot is always the last resort. *)
Theorem wx_strategy_correct attr c r :
  let s := build_wx_safe_exec_strategy attr c r in
  (wx_planned s = true ↔ app_data_exec_allowed s = true ∨ entrypoint_is_packaged s = true) ∧
  (wx_error s = [] ↔ wx_planned s = true) ∧
  (if app_data_exec_allowed s
   then wx_primary s = DirectRootfsExecve ∧ rejected_methods s = []
   else (DirectRootfsExecve ∉ (gl_method <$> ranked_methods s)) ∧
        rj_method <$> rejected_methods s = [RejDirectRootfsExecve; FileBackedMmapExec]) ∧
  head (gl_method <$> ranked_methods s) = Some (wx_primary s) ∧
  wx_primary s ≠ ProotBaseline ∧
  last (gl_method <$> ranked_methods s) = Some ProotBaseline.
Proof.
  unfold build_wx_safe_exec_strategy. cbv zeta.
  cbn [wx_planned app_data_exec_allowed entrypoint_is_packaged wx_error wx_primary rejected_methods
       ranked_methods].
  set (packaged := negb (bool_decide (config_env_value c "ALR_TRAMPOLINE_PATH" = [])) && _).
  destruct (domain_allows_app_data_exec (current_selinux_domain attr)), packaged;
    (split; [naive_solver|]; split; [done|]; split; [|done]; [..]); try done.
  all: split; [|done]; intros H; by repeat (apply elem_of_cons in H as [H|H]; [done|]);
    apply not_elem_of_nil in H.
Qed.

(** The inside test is lexical: an entrypoint that reaches the rootfs through
    ".." passes for packaged. *)
Example entrypoint_dotdot :
  path_is_inside "/data/lib/../rootfs/evil" "/data/rootfs" = false ∧
  lexical "/data/lib/../rootfs/evil" = str "/data/rootfs/evil".
Proof. split; vm_compute; reflexivity. Qed.
