(* ===== verification/Launch.v ===== *)
(** * [alr_runtime/alr_launch.cpp] and [alr_trampoline.cpp]: starting a child

    [attempt_guest_launch] resolves the program, applies the launch policy and
    either hands over to [attempt_packaged_trampoline] or forks and execs.  The
    process calls (pipe, fork, execve, read, waitpid) are the kernel's: a
    [Spawner] is a parameter that says what happens when a child is started with
    a path, an argument vector and an environment. *)

From S2P Require Import Prelude CppMap PathSpec PathRule GuestPath RuntimeConfig Bytes HostFs.
From S2P Require Import ElfPlan ExecMediation ExecPlan.

(** What pipe, fork, the reads of the two pipes and waitpid answer.  The read
    answers end with the pipe's end of file; [wait_fails] are the errors waitpid
    reports before it returns the status. *)
Inductive spawn_answer :=
| Pipe1Fails (errno : Z)
| Pipe2Fails (errno : Z)
| ForkFails (errno : Z)
| Spawned (out err : list read_answer) (wait_fails : list Z) (status : Z).

Definition Spawner : Type := bytes → list bytes → list bytes → spawn_answer.

Record TrampolineAttemptPolicy := mk_tramp_policy {
  packaged_trampoline_path : bytes;
  allow_trampoline_exec : bool;
}.
Record TrampolineAttemptResult := mk_tramp {
  tr_available : bool;
  tr_config_handoff : bool;
  tr_policy_preflight : bool;
  tr_attempted : bool;
  tr_static_hello_executed : bool;
  tr_exit_code : Z;
  tr_path : bytes;
  tr_stdout_text : bytes;
  tr_stderr_text : bytes;
  tr_error : bytes;
  tr_report : bytes;
}.
Record LaunchAttemptPolicy := mk_launch_policy {
  allow_direct_host_exec : bool;
  lp_trampoline : TrampolineAttemptPolicy;
}.
Record LaunchAttemptResult := mk_launch {
  la_resolution : ExecutableResolution;
  la_attempted : bool;
  la_policy_blocked : bool;
  la_exit_code : Z;
  la_stdout_text : bytes;
  la_stderr_text : bytes;
  la_error : bytes;
  la_trampoline : TrampolineAttemptResult;
  la_continuation : ExecContinuationPlan;
  la_report : bytes;
}.

Definition default_trampoline_policy : TrampolineAttemptPolicy := mk_tramp_policy [] false.
Definition default_launch_policy : LaunchAttemptPolicy :=
  mk_launch_policy false default_trampoline_policy.
Definition empty_trampoline : TrampolineAttemptResult :=
  mk_tramp false false false false false (-1) [] [] [] [] [].

(** ** Child status: the macros of <sys/wait.h> *)

Definition WIFEXITED (status : Z) : bool := (Z.land status 0x7f =? 0)%Z.
Definition WEXITSTATUS (status : Z) : Z := Z.land (Z.shiftr status 8) 0xff.
(** [((signed char) ((status & 0x7f) + 1) >> 1) > 0] *)
Definition WIFSIGNALED (status : Z) : bool :=
  (negb (Z.land status 0x7f =? 0) && negb (Z.land status 0x7f =? 0x7f))%Z.
Definition WTERMSIG (status : Z) : Z := Z.land status 0x7f.

Definition exit_code_of (status : Z) : Z :=
  if WIFEXITED status then WEXITSTATUS status
  else if WIFSIGNALED status then (128 + WTERMSIG status)%Z
  else (-1)%Z.

Section spawn.
Context (H : Host) (spawn : Spawner).

Definition trim_eol (out : bytes) : bytes :=
  trim_end (λ c, bool_decide (c = newline) || bool_decide (c = Byte.x0d)) out.

Fixpoint read_all_loop (what : bytes) (answers : list read_answer) (out : bytes) : result bytes :=
  match answers with
  | [] => Ok out
  | RData [] :: _ => Ok out
  | RData d :: rest => read_all_loop what rest (out ++ d)
  | RErr e :: rest =>
      if decide (e = EINTR) then read_all_loop what rest out
      else Throw (errno_message H e what)
  end.
Definition read_all_from_fd (what : bytes) (answers : list read_answer) : result bytes :=
  out ← read_all_loop what answers []; mret (trim_eol out).

(** [while (waitpid(...) < 0) if (errno != EINTR) return;] *)
Fixpoint wait_loop (fails : list Z) : option Z :=
  match fails with
  | [] => None
  | e :: rest => if decide (e ≠ EINTR) then Some e else wait_loop rest
  end.

(** What the parent learns from a child: stdout, stderr, error text, exit code;
    [w] selects the texts of the two callers. *)
Record wait_texts := mk_texts { tx_read : bytes; tx_wait : bytes }.
Definition collect (w : wait_texts) (out err : list read_answer) (wait_fails : list Z) (status : Z)
    : bytes * bytes * bytes * Z :=
  let '(so, se, error) :=
    match read_all_from_fd (tx_read w) out with
    | Throw e => ([], [], e)
    | Ok o =>
        match read_all_from_fd (tx_read w) err with
        | Throw e => (o, [], e)
        | Ok s => (o, s, [])
        end
    end in
  match wait_loop wait_fails with
  | Some e => (so, se, errno_message H e (tx_wait w), -1)%Z
  | None => (so, se, error, exit_code_of status)
  end.

(** ** The packaged trampoline *)

Definition trampoline_path (c : RuntimeConfig) (policy : TrampolineAttemptPolicy) : bytes :=
  if bool_decide (packaged_trampoline_path policy = [])
  then default [] (smap_find "ALR_TRAMPOLINE_PATH" (env c))
  else packaged_trampoline_path policy.

Definition is_hello (requested : bytes) : bool :=
  bool_decide (requested = str "/bin/hello") || bool_decide (requested = str "hello").

Definition is_static_hello_candidate (requested : bytes) (r : ExecutableResolution)
    (elf : ElfLoadPlan) : bool :=
  is_hello requested && er_resolved r &&
  (match er_kind r with Elf => true | _ => false end) && plan_valid elf &&
  (match plan_status elf with StaticExecutable => true | _ => false end).

(** [for (const auto& [key, value] : config.env) env.push_back(key + "=" + value)] *)
Definition build_env_strings (c : RuntimeConfig) : list bytes :=
  (λ kv, kv.1 ++ "=" ++ kv.2) <$> env c.

Definition build_trampoline_env (c : RuntimeConfig) (s : SerializedRuntimeConfig)
    (r : ExecutableResolution) (elf : ElfLoadPlan) : list bytes :=
  build_env_strings c ++
  [ "ALR_CONFIG_TEXT=" ++ text s;
    "ALR_CONFIG_CHECKSUM=" ++ checksum_hex s;
    "ALR_TRAMPOLINE_TARGET_GUEST_PATH=" ++ guest_path (er_translation r);
    "ALR_TRAMPOLINE_TARGET_HOST_PATH=" ++ host_path (er_translation r);
    "ALR_TRAMPOLINE_ELF_STATUS=" ++ elf_load_plan_status_name (plan_status elf);
    "ALR_TRAMPOLINE_ELF_ENTRY=" ++ to_string (entry elf);
    str "ALR_TRAMPOLINE_MODE=preflight" ].

Definition execute_trampoline (res : TrampolineAttemptResult) (c : RuntimeConfig)
    (s : SerializedRuntimeConfig) (r : ExecutableResolution) (elf : ElfLoadPlan)
    : TrampolineAttemptResult :=
  let '(mk_tramp av ho pf at_ hx ex pa so se er re) := res in
  match spawn pa [pa; str "--preflight"] (build_trampoline_env c s r elf) with
  | Pipe1Fails e =>
      mk_tramp av ho pf at_ hx ex pa so se (errno_message H e "pipe trampoline stdout") re
  | Pipe2Fails e =>
      mk_tramp av ho pf at_ hx ex pa so se (errno_message H e "pipe trampoline stderr") re
  | ForkFails e => mk_tramp av ho pf at_ hx ex pa so se (errno_message H e "fork trampoline") re
  | Spawned out err wait_fails status =>
      let '(so', se', er', ex') :=
        collect (mk_texts "read trampoline pipe" "waitpid trampoline") out err wait_fails status in
      mk_tramp av ho pf true hx ex' pa so' se' er' re
  end.

Definition skip_word (b : bool) : bytes := if b then "PASS" else "SKIP".

Definition trampoline_report (t : TrampolineAttemptResult) : bytes :=
  "ALR TRAMPOLINE AVAILABLE: " ++ skip_word (tr_available t) ++
  eol ++ "ALR TRAMPOLINE CONFIG HANDOFF: " ++ skip_word (tr_config_handoff t) ++
  eol ++ "ALR TRAMPOLINE POLICY PREFLIGHT: " ++ skip_word (tr_policy_preflight t) ++
  eol ++ "ALR STATIC HELLO VIA TRAMPOLINE: " ++ skip_word (tr_static_hello_executed t) ++
  eol ++ "alr trampoline path=" ++
    (if bool_decide (tr_path t = []) then str "none" else tr_path t) ++
  eol ++ "alr trampoline exit=" ++
    (if tr_attempted t then to_string (tr_exit_code t) else str "not-run") ++
  eol ++ "alr trampoline stdout=" ++ tr_stdout_text t ++
  eol ++ "alr trampoline stderr=" ++ tr_stderr_text t ++
  opt_line "alr trampoline error=" (tr_error t).

Definition with_tr_report (t : TrampolineAttemptResult) : TrampolineAttemptResult :=
  let '(mk_tramp av ho pf at_ hx ex pa so se er _) := t in
  mk_tramp av ho pf at_ hx ex pa so se er (trampoline_report t).

Definition hello_marker : bytes := "ALR TRAMPOLINE STATIC HELLO EXECUTION: PASS".

Definition attempt_packaged_trampoline (c : RuntimeConfig) (requested : bytes)
    (r : ExecutableResolution) (elf : ElfLoadPlan) (policy : TrampolineAttemptPolicy)
    : TrampolineAttemptResult :=
  let path := trampoline_path c policy in
  let base av ho pf er := mk_tramp av ho pf false false (-1) path [] [] er [] in
  if bool_decide (path = []) then with_tr_report (base false false false [])
  else
    match serialize_runtime_config c with
    | Throw w => with_tr_report (base true false false w)
    | Ok s =>
        match parse_runtime_config (text s) with
        | Throw w => with_tr_report (base true false false w)
        | Ok parsed =>
            let handoff := bool_decide (rootfs_dir parsed = rootfs_dir c) &&
              bool_decide (program parsed = program c) &&
              bool_decide (runtime_config_checksum_hex (text s) = checksum_hex s) in
            let hello := is_static_hello_candidate requested r elf in
            let res := base true handoff (handoff && hello) [] in
            if negb (allow_trampoline_exec policy) then with_tr_report res
            else
              let '(mk_tramp av ho pf at_ _ ex pa so se er re) := execute_trampoline res c s r elf in
              with_tr_report
                (mk_tramp av ho pf at_
                   (hello && at_ && bool_decide (ex = 0%Z) && has_sub hello_marker so)
                   ex pa so se er re)
        end
    end.

(** ** Launching *)

Definition status_for_attempt (l : LaunchAttemptResult) : bytes :=
  if la_policy_blocked l then "SKIP"
  else if negb (la_attempted l) then "FAIL"
  else if bool_decide (la_exit_code l = 0%Z) then "PASS" else "FAIL".
Definition hello_status_for_attempt (requested : bytes) (l : LaunchAttemptResult) : bytes :=
  if negb (is_hello requested) then "SKIP" else status_for_attempt l.

Definition no_elf_report : bytes :=
  join_on newline (strs
    ["ALR ELF LOAD PLAN: SKIP"; "ALR ELF STATIC HELLO CANDIDATE: SKIP"; "alr elf class=none";
     "alr elf machine=none"; "alr elf type=none"; "alr elf status=unsupported";
     "alr elf entry=0x0"; "alr elf min vaddr=0x0"; "alr elf max vaddr=0x0";
     "alr elf interp=none"; "alr elf load segments=0"]).
Definition no_trampoline_report : bytes :=
  join_on newline (strs
    ["ALR TRAMPOLINE AVAILABLE: SKIP"; "ALR TRAMPOLINE CONFIG HANDOFF: SKIP";
     "ALR TRAMPOLINE POLICY PREFLIGHT: SKIP"; "ALR STATIC HELLO VIA TRAMPOLINE: SKIP";
     "alr trampoline path=none"; "alr trampoline exit=not-run"; "alr trampoline stdout=";
     "alr trampoline stderr="]).

Definition launch_report (requested : bytes) (elf_report : bytes) (l : LaunchAttemptResult) : bytes :=
  "ALR LAUNCH ATTEMPT: " ++ status_for_attempt l ++
  eol ++ "ALR LAUNCH MODE: " ++
    (if la_policy_blocked l then str "policy-preflight" else str "direct-host-exec") ++
  eol ++ "ALR LOW-OVERHEAD RUNTIME HELLO EXECUTION: " ++ hello_status_for_attempt requested l ++
  eol ++ (if bool_decide (elf_report = []) then no_elf_report else elf_report) ++
  eol ++ (if bool_decide (tr_report (la_trampoline l) = []) then no_trampoline_report
          else tr_report (la_trampoline l)) ++
  (if bool_decide (cp_report (la_continuation l) = []) then []
   else eol ++ cp_report (la_continuation l)) ++
  eol ++ "alr launch exit=" ++ to_string (la_exit_code l) ++
  eol ++ "alr launch stdout=" ++ la_stdout_text l ++
  eol ++ "alr launch stderr=" ++ la_stderr_text l ++
  opt_line "alr launch error=" (la_error l).

(** The ELF plan of the resolved file, or the default plan. *)
Definition resolved_elf_plan (fuel : nat) (r : ExecutableResolution) : io ElfLoadPlan :=
  match er_kind r with
  | Elf => if er_resolved r then build_elf_load_plan H fuel (host_path (er_translation r))
           else mret empty_plan
  | _ => mret empty_plan
  end.

(** [result.report = build_report(requested_program, result); return result;] *)
Definition finish (fuel : nat) (requested : bytes) (l : LaunchAttemptResult) : io LaunchAttemptResult :=
  elf ← resolved_elf_plan fuel (la_resolution l);
  let '(mk_launch r at_ bl ex so se er tr co _) := l in
  mret (mk_launch r at_ bl ex so se er tr co (launch_report requested (plan_report elf) l)).

Definition attempt_guest_launch (fuel : nat) (c : RuntimeConfig) (requested : bytes)
    (args : list bytes) (policy : LaunchAttemptPolicy) : io (result LaunchAttemptResult) := λ t0,
  let '(res, t1) := resolve_guest_executable H c requested t0 in
  match res with
  | Throw w => Some (Throw w, t1)
  | Ok r =>
      let '(continuation, t2) := build_exec_continuation_plan H c requested args Execve t1 in
      let result at_ bl ex so se er tr :=
        mk_launch r at_ bl ex so se er tr continuation [] in
      (l ←
        (if negb (er_resolved r) || (match er_kind r with Missing => true | _ => false end) then
           finish fuel requested (result false false (-1)%Z [] []
             (if bool_decide (er_error r = []) then str "executable was not resolved" else er_error r)
             empty_trampoline)
         else if match er_kind r with UnsupportedKind => true | _ => false end then
           finish fuel requested (result false false (-1)%Z [] []
             (str "resolved executable kind is unsupported") empty_trampoline)
         else if negb (allow_direct_host_exec policy) then
           elf ← resolved_elf_plan fuel r;
           finish fuel requested (result false true (-1)%Z [] []
             (str "direct rootfs host exec disabled by ALR policy")
             (attempt_packaged_trampoline c requested r elf (lp_trampoline policy)))
         else
           let host := host_path (er_translation r) in
           match spawn host (host :: args) (build_env_strings c) with
           | Pipe1Fails e =>
               finish fuel requested (result false false (-1)%Z [] []
                 (errno_message H e "pipe stdout") empty_trampoline)
           | Pipe2Fails e =>
               finish fuel requested (result false false (-1)%Z [] []
                 (errno_message H e "pipe stderr") empty_trampoline)
           | ForkFails e =>
               finish fuel requested (result false false (-1)%Z [] []
                 (errno_message H e "fork") empty_trampoline)
           | Spawned out err wait_fails status =>
               let '(so, se, er, ex) := collect (mk_texts "read pipe" "waitpid") out err wait_fails status in
               finish fuel requested (result true false ex so se er empty_trampoline)
           end);
       mret (Ok l)) t2
  end.

End spawn.

(** ** Termination *)

Section launch.
Context (H : Host) (retries : nat) (laws : HostLaws H retries).
Context (fuel : nat) (Hfuel : read_fuel retries 4096 ≤ fuel).

Lemma resolved_elf_plan_total r t :
  ∃ p t', resolved_elf_plan H fuel r t = Some (p, t').
Proof.
  unfold resolved_elf_plan.
  destruct (er_kind r), (er_resolved r); try (by eexists _, _).
  by apply (build_elf_load_plan_total H retries).
Qed.

(** Finishing only fills in the report. *)
Lemma finish_spec requested l t :
  ∃ l' t', finish H fuel requested l t = Some (l', t') ∧
    la_resolution l' = la_resolution l ∧ la_attempted l' = la_attempted l ∧
    la_policy_blocked l' = la_policy_blocked l ∧ la_exit_code l' = la_exit_code l ∧
    la_stdout_text l' = la_stdout_text l ∧ la_stderr_text l' = la_stderr_text l ∧
    la_error l' = la_error l ∧ la_trampoline l' = la_trampoline l ∧
    la_continuation l' = la_continuation l.
Proof.
  unfold finish, mbind, io_bind.
  destruct (resolved_elf_plan_total (la_resolution l) t) as (p & t' & ->).
  destruct l. eexists _, t'. split; [done|]. done.
Qed.
End launch.

(** ** The child's answers *)

(** The data of the reads up to the end of file. *)
Fixpoint read_data (answers : list read_answer) : bytes :=
  match answers with
  | RData [] :: _ | [] => []
  | RData d :: rest => d ++ read_data rest
  | RErr _ :: rest => read_data rest
  end.
Definition only_eintr (answers : list read_answer) : Prop :=
  Forall (λ a, match a with RErr e => e = EINTR | RData _ => True end) answers.

Lemma read_all_loop_spec H what answers out :
  only_eintr answers → read_all_loop H what answers out = Ok (out ++ read_data answers).
Proof.
  intros Ha. revert out. induction Ha as [|a l Ha Hl IH]; intros out; cbn [read_all_loop read_data].
  - by rewrite app_nil_r.
  - destruct a as [d|e].
    + destruct d as [|b d]; [by rewrite app_nil_r|]. by rewrite IH, <- (assoc_L (++)).
    + subst e. rewrite decide_True by done. apply IH.
Qed.

Lemma wait_loop_eintr fails : Forall (λ e, e = EINTR) fails → wait_loop fails = None.
Proof.
  induction 1 as [|e l He Hl IH]; cbn [wait_loop]; [done|].
  rewrite decide_False by (intros Hx; by apply Hx). done.
Qed.

Lemma collect_spec H w out err fails status :
  only_eintr out → only_eintr err → Forall (λ e, e = EINTR) fails →
  collect H w out err fails status =
  (trim_eol (read_data out), trim_eol (read_data err), [], exit_code_of status).
Proof.
  intros Ho He Hf. unfold collect, read_all_from_fd.
  rewrite !read_all_loop_spec by done. cbn [mbind result_bind mret result_ret app].
  by rewrite wait_loop_eintr.
Qed.

(** A normal exit with code [k] and a death by signal [n], as wait encodes them. *)
Lemma exit_code_exited k : (0 ≤ k < 256)%Z → exit_code_of (Z.shiftl k 8) = k.
Proof.
  intros Hk. unfold exit_code_of, WIFEXITED, WEXITSTATUS.
  assert (E1 : Z.land (Z.shiftl k 8) 0x7f = 0%Z).
  { rewrite (Z.land_ones _ 7), Z.shiftl_mul_pow2 by lia.
    replace (k * 2 ^ 8)%Z with (k * 2 * 2 ^ 7)%Z by lia. by rewrite Z_mod_mult. }
  rewrite E1. cbn [Z.eqb]. rewrite Z.shiftr_shiftl_l by lia. cbn [Z.sub].
  rewrite Z.shiftl_0_r, (Z.land_ones _ 8) by lia. by apply Z.mod_small.
Qed.

Lemma exit_code_signaled n : (1 ≤ n ≤ 126)%Z → exit_code_of n = (128 + n)%Z.
Proof.
  intros Hn. unfold exit_code_of, WIFEXITED, WIFSIGNALED, WTERMSIG.
  rewrite (Z.land_ones _ 7), Z.mod_small by lia.
  rewrite (proj2 (Z.eqb_neq n 0)), (proj2 (Z.eqb_neq n 0x7f)) by lia. done.
Qed.

(** ** The trampoline without permission to exec *)

Lemma trampoline_spawn_irrelevant H s1 s2 c requested r elf policy :
  allow_trampoline_exec policy = false →
  attempt_packaged_trampoline H s1 c requested r elf policy =
  attempt_packaged_trampoline H s2 c requested r elf policy.
Proof. intros Ha. unfold attempt_packaged_trampoline. by rewrite Ha. Qed.

Lemma no_trampoline_exec H s c requested r elf policy :
  allow_trampoline_exec policy = false →
  tr_attempted (attempt_packaged_trampoline H s c requested r elf policy) = false.
Proof.
  intros Ha. unfold attempt_packaged_trampoline. rewrite Ha. cbn [negb].
  case_bool_decide; [done|]. destruct (serialize_runtime_config c); [|done].
  by destruct (parse_runtime_config _).
Qed.

(** The hand-off flag compares the program before and after normalization. *)
Lemma trampoline_handoff H s c requested r elf policy :
  smap_wf (env c) → trampoline_path c policy ≠ [] →
  is_ok (validate_runtime_config c) = true →
  tr_config_handoff (attempt_packaged_trampoline H s c requested r elf policy) =
  bool_decide (lexical (program c) = program c).
Proof.
  intros Hwf Hpath Hv. unfold attempt_packaged_trampoline. rewrite bool_decide_false by done.
  destruct (serialize_runtime_config c) as [z|w] eqn:Es.
  2: { unfold serialize_runtime_config in Es. by destruct (validate_runtime_config c). }
  destruct (serialize_parse _ _ Hwf Es) as (c' & Hv' & _ & Hp & Hck & _). rewrite Hp.
  apply validate_program in Hv' as [Hprog Hroot].
  apply normalize_required_Ok in Hprog as (_ & _ & Hprog).
  rewrite (bool_decide_true (rootfs_dir c' = _)) by done.
  rewrite (bool_decide_true (runtime_config_checksum_hex _ = _)) by done.
  rewrite andb_true_r. cbn [andb]. rewrite Hprog.
  destruct (negb (allow_trampoline_exec policy)); [done|].
  unfold execute_trampoline. destruct (s _ _ _); try done.
  by destruct (collect _ _ _ _ _ _) as [[[? ?] ?] ?].
Qed.

(** A launch without permission to exec, once the program is resolved. *)
Lemma launch_blocked H retries c requested args policy fuel t r t1 :
  HostLaws H retries → read_fuel retries 4096 ≤ fuel →
  allow_direct_host_exec policy = false →
  allow_trampoline_exec (lp_trampoline policy) = false →
  resolve_guest_executable H c requested t = (Ok r, t1) →
  ∃ l t', (∀ spawn, attempt_guest_launch H spawn fuel c requested args policy t = Some (Ok l, t')) ∧
    la_attempted l = false ∧ tr_attempted (la_trampoline l) = false ∧ la_exit_code l = (-1)%Z ∧
    la_resolution l = r ∧ la_policy_blocked l = er_resolved r && runnable (er_kind r) ∧
    la_error l ≠ [].
Proof.
  intros laws Hf Hdirect Htramp Er. unfold attempt_guest_launch. rewrite Er, Hdirect.
  destruct (build_exec_continuation_plan H c requested args Execve t1) as [co t2].
  cbn [negb]. unfold mbind, io_bind.
  assert (Hend : ∀ l t, la_attempted l = false → tr_attempted (la_trampoline l) = false →
    la_exit_code l = (-1)%Z → la_resolution l = r →
    la_policy_blocked l = er_resolved r && runnable (er_kind r) → la_error l ≠ [] →
    ∃ l' t', (∀ spawn : Spawner,
      match finish H fuel requested l t with Some (a, t') => io_ret _ (Ok a) t' | None => None end =
      Some (Ok l', t')) ∧
      la_attempted l' = false ∧ tr_attempted (la_trampoline l') = false ∧
      la_exit_code l' = (-1)%Z ∧ la_resolution l' = r ∧
      la_policy_blocked l' = er_resolved r && runnable (er_kind r) ∧ la_error l' ≠ []).
  { intros l t3 H1 H2 H3 H4 H5 H6.
    destruct (finish_spec H retries laws fuel Hf requested l t3)
      as (l' & t' & -> & E1 & E2 & E3 & E4 & _ & _ & E5 & E6 & _).
    exists l', t'. split; [done|]. rewrite E1, E2, E3, E4, E5, E6. auto 12. }
  destruct (er_resolved r) eqn:Eres; cbn [negb orb].
  2: { apply Hend; try done. cbn. by case_bool_decide. }
  destruct (er_kind r) eqn:Ek;
    try (apply Hend; try done; cbn; by case_bool_decide).
  all: destruct (resolved_elf_plan_total H retries laws fuel Hf r t2) as (elf & t3 & ->);
    edestruct (Hend (mk_launch r false true (-1) [] []
      (str "direct rootfs host exec disabled by ALR policy")
      (attempt_packaged_trampoline H (λ _ _ _, ForkFails 0) c requested r elf (lp_trampoline policy))
      co []) t3) as (res & t' & Hs & Hl); try done; [by apply no_trampoline_exec|];
    exists res, t'; split; [|exact Hl]; intros spawn; rewrite <- (Hs spawn);
    by rewrite (trampoline_spawn_irrelevant H spawn (λ _ _ _, ForkFails 0)).
Qed.

(** ** Properties *)

(** The default policy never starts a child: whatever the spawner would do, the
    attempt terminates with the same result, in which nothing was attempted, a
    resolvable ELF or script is reported as blocked by policy, and anything else
    carries an error. *)
Theorem launch_policy_safe H retries c requested args policy fuel t :
  HostLaws H retries → read_fuel retries 4096 ≤ fuel →
  allow_direct_host_exec policy = false →
  allow_trampoline_exec (lp_trampoline policy) = false →
  ∃ res t', (∀ spawn, attempt_guest_launch H spawn fuel c requested args policy t = Some (res, t')) ∧
    ∀ l, res = Ok l →
      la_attempted l = false ∧ tr_attempted (la_trampoline l) = false ∧
      la_exit_code l = (-1)%Z ∧
      la_policy_blocked l = er_resolved (la_resolution l) && runnable (er_kind (la_resolution l)) ∧
      la_error l ≠ [].
Proof.
  intros laws Hf Hdirect Htramp.
  destruct (resolve_guest_executable H c requested t) as [[r|w] t1] eqn:Er.
  - destruct (launch_blocked H retries c requested args policy fuel t r t1)
      as (l & t' & Hs & H1 & H2 & H3 & H4 & H5 & H6); auto.
    exists (Ok l), t'. split; [done|]. intros l' [= <-]. rewrite H4. auto.
  - exists (Throw w), t1. split; [|intros l [=]].
    intros spawn. unfold attempt_guest_launch. by rewrite Er.
Qed.

Lemma launch_policy_safe_witness :
  ∃ l t', (∀ spawn, attempt_guest_launch exec_host spawn (read_fuel 1 4096) exec_config "env" []
             default_launch_policy 1 = Some (Ok l, t')) ∧
    la_policy_blocked l = true ∧ la_attempted l = false ∧ tr_available (la_trampoline l) = true.
Proof.
  destruct (launch_policy_safe exec_host 1 exec_config "env" [] default_launch_policy
    (read_fuel 1 4096) 1) as (res & t' & Hs & Hl); [|done|done|done|].
  - apply choppy_laws. intros p c. unfold exec_files.
    repeat case_decide; intros [= <-]; vm_compute; done.
  - pose proof (Hs (λ _ _ _, ForkFails 0)) as Hc. vm_compute in Hc. injection Hc as Hres <-.
    rewrite <- Hres in *. eexists _, _. split; [exact Hs|].
    split; [reflexivity|]. split; [|reflexivity]. by apply (Hl _ eq_refl).
Defined.

(** A launch with direct exec allowed: the child gets the translated host path
    as argv[0] followed by the arguments and the configured environment; when
    the kernel answers, interruptions apart, without errors, the result holds
    everything the child wrote (final line ends trimmed), and the exit code is
    the child's: [k] for a normal exit, 128 + n for a death by signal n. *)
Theorem launch_direct_exec H retries spawn c requested args policy fuel t r t1 out err fails status :
  HostLaws H retries → read_fuel retries 4096 ≤ fuel →
  allow_direct_host_exec policy = true →
  resolve_guest_executable H c requested t = (Ok r, t1) →
  er_resolved r = true → runnable (er_kind r) = true →
  let host := host_path (er_translation r) in
  spawn host (host :: args) (build_env_strings c) = Spawned out err fails status →
  only_eintr out → only_eintr err → Forall (λ e, e = EINTR) fails →
  ∃ l t', attempt_guest_launch H spawn fuel c requested args policy t = Some (Ok l, t') ∧
    la_attempted l = true ∧ la_policy_blocked l = false ∧ la_error l = [] ∧
    la_stdout_text l = trim_eol (read_data out) ∧ la_stderr_text l = trim_eol (read_data err) ∧
    (∀ k, (0 ≤ k < 256)%Z → status = Z.shiftl k 8 → la_exit_code l = k) ∧
    (∀ n, (1 ≤ n ≤ 126)%Z → status = n → la_exit_code l = (128 + n)%Z).
Proof.
  intros laws Hf Hdirect Hr Hres Hrun host Hspawn Ho He Hw. unfold attempt_guest_launch.
  rewrite Hr, Hdirect, Hres.
  destruct (build_exec_continuation_plan H c requested args Execve t1) as [co t2].
  cbn [negb orb]. unfold mbind, io_bind.
  assert (Hgo : ∃ l t', match finish H fuel requested
      (mk_launch r true false (exit_code_of status) (trim_eol (read_data out))
         (trim_eol (read_data err)) [] empty_trampoline co []) t2 with
      Some (a, t') => io_ret _ (Ok a) t' | None => None end = Some (Ok l, t') ∧
    la_attempted l = true ∧ la_policy_blocked l = false ∧ la_error l = [] ∧
    la_stdout_text l = trim_eol (read_data out) ∧ la_stderr_text l = trim_eol (read_data err) ∧
    la_exit_code l = exit_code_of status).
  { match goal with |- context [finish _ _ _ ?l ?t] =>
      destruct (finish_spec H retries laws fuel Hf requested l t)
        as (l' & t' & -> & _ & E2 & E3 & E4 & E5 & E6 & E7 & _) end.
    exists l', t'. split; [done|]. by rewrite E2, E3, E4, E5, E6, E7. }
  fold host. rewrite Hspawn, collect_spec by done.
  destruct Hgo as (l & t' & Hl & H1 & H2 & H3 & H4 & H5 & H6). exists l, t'.
  split; [by destruct (er_kind r)|]. repeat (split; [done|]). rewrite H6. split.
  - intros k Hk ->. by apply exit_code_exited.
  - intros n Hn ->. by apply exit_code_signaled.
Qed.

(** A child that says "hi", writes nothing to stderr and exits with 3. *)
Definition hi_spawner : Spawner := λ path argv envp,
  Spawned [RErr EINTR; RData "h"; RData ("i" ++ eol); RData []] [RData []] [EINTR] (Z.shiftl 3 8).

Lemma launch_direct_exec_witness :
  ∃ l t', attempt_guest_launch exec_host hi_spawner (read_fuel 1 4096) exec_config "env" (strs ["-i"])
      (mk_launch_policy true default_trampoline_policy) 1 = Some (Ok l, t') ∧
    la_attempted l = true ∧ la_stdout_text l = str "hi" ∧ la_exit_code l = 3%Z.
Proof.
  destruct (resolve_guest_executable exec_host exec_config "env" 1) as [res t1] eqn:Er.
  assert (Hr : ∃ r, res = Ok r ∧ er_resolved r = true ∧ runnable (er_kind r) = true)
    by (vm_compute in Er; injection Er as <- _; by eexists).
  destruct Hr as (r & -> & Hres & Hrun).
  destruct (launch_direct_exec exec_host 1 hi_spawner exec_config "env" (strs ["-i"])
    (mk_launch_policy true default_trampoline_policy) (read_fuel 1 4096) 1 r t1
    [RErr EINTR; RData "h"; RData ("i" ++ eol); RData []] [RData []] [EINTR] (Z.shiftl 3 8))
    as (l & t' & Hl & H1 & _ & _ & H4 & _ & H6 & _).
  - apply choppy_laws. intros p c. unfold exec_files.
    repeat case_decide; intros [= <-]; vm_compute; done.
  - apply le_n.
  - reflexivity.
  - exact Er.
  - exact Hres.
  - exact Hrun.
  - reflexivity.
  - by repeat constructor.
  - by repeat constructor.
  - by repeat constructor.
  - exists l, t'. split; [exact Hl|]. split; [exact H1|]. split; [rewrite H4; reflexivity|].
    apply (H6 3%Z); [lia|reflexivity].
Defined.

(** The trampoline hand-off of a valid configuration succeeds exactly when its
    program path is already normalized: the check compares the parsed program,
    which validation normalizes, with the caller's spelling. *)
Theorem trampoline_handoff_exact H spawn c requested r elf policy :
  smap_wf (env c) → trampoline_path c policy ≠ [] →
  is_ok (validate_runtime_config c) = true →
  (tr_config_handoff (attempt_packaged_trampoline H spawn c requested r elf policy) = true ↔
   lexical (program c) = program c).
Proof. intros. rewrite trampoline_handoff by done. apply bool_decide_eq_true. Qed.

Definition dotted_config : RuntimeConfig :=
  mk_config "pkg" "/r" "/" "/usr/./bin/init" [(str "ALR_TRAMPOLINE_PATH", str "/data/tramp")]
    [] [] [] [] false 0 false false.

Lemma trampoline_handoff_exact_witness :
  is_ok (validate_runtime_config dotted_config) = true ∧
  tr_config_handoff (attempt_packaged_trampoline exec_host hi_spawner dotted_config "/bin/tool"
    empty_resolution empty_plan default_trampoline_policy) = false.
Proof.
  split; [vm_compute; reflexivity|]. apply not_true_is_false. intros Ht.
  apply (trampoline_handoff_exact exec_host hi_spawner dotted_config "/bin/tool"
    empty_resolution empty_plan default_trampoline_policy) in Ht.
  - assert (Hd : bool_decide (lexical (program dotted_config) = program dotted_config) = false)
      by (vm_compute; reflexivity).
    by apply bool_decide_eq_false in Hd.
  - repeat constructor.
  - done.
  - vm_compute. reflexivity.
Defined.
