(* ===== verification/RuntimePlan.v ===== *)
(** * [runtime_plan.cpp], [alr_runtime_launcher.cpp], [alr_env.cpp]: launch plans

    The argv and environment of the three launch backends, the configuration the
    ALR backend serializes, the runtime report, and the launcher entry points. *)

From S2P Require Import Prelude CppMap PathSpec PathRule GuestPath RuntimeConfig Bytes HostFs.
From S2P Require Import ElfPlan ExecMediation ExecPlan Procfs Launch.

Record RuntimeReportInput := mk_input {
  in_package_name : bytes;
  native_library_dir : bytes;
  app_files_dir : bytes;
  app_cache_dir : bytes;
  rootfs_name : bytes;
  in_program : bytes;
  optional_runtime_backend_name : bytes;
  optional_runtime_backend_path : bytes;
}.
Record OptionalRuntimeBackendProbe := mk_probe {
  framework_status : bytes;
  available_status : bytes;
  pb_source : bytes;
  pb_backend : bytes;
  candidate_path : bytes;
  pb_can_execute : bool;
  pb_reason : bytes;
}.
Record RuntimeReport := mk_report {
  loader_executable : bytes;
  rr_rootfs_dir : bytes;
  rr_text : bytes;
}.
Record LoaderLaunchPlan := mk_launch_plan {
  executable : bytes;
  lp_argv : list bytes;
  lp_env : smap;
}.
Inductive ExecutionBackendKind :=
  PlanOnly | AndroidNativeTestCommand | Proot | GlibcLoader | AlrRuntime.
Record ExecutionBackend := mk_backend {
  bk_kind : ExecutionBackendKind;
  bk_name : bytes;
  bk_can_execute : bool;
  bk_reason : bytes;
}.

Definition join_path (left right : bytes) : bytes :=
  match last left with
  | None => right
  | Some c => if decide (c = slash) then left ++ right else left ++ "/" ++ right
  end.

Section input.
Context (i : RuntimeReportInput).

Definition rootfs_dir_for : bytes := join_path (join_path (app_files_dir i) "rootfs") (rootfs_name i).
Definition loader_executable_for : bytes := join_path (native_library_dir i) "libalr-loader.so".
Definition proot_loader_for : bytes := join_path (native_library_dir i) "libproot-loader.so".
Definition alr_runtime_launcher_for : bytes :=
  join_path (native_library_dir i) "libalr_runtime_launcher.so".
Definition alr_runtime_hook_for : bytes := join_path (native_library_dir i) "libalr_runtime_hook.so".
Definition alr_runtime_interposer_for : bytes :=
  join_path (native_library_dir i) "libalr_runtime_interposer.so".
Definition alr_runtime_trampoline_for : bytes :=
  join_path (native_library_dir i) "libalr_runtime_trampoline.so".
Definition alr_runtime_bridge_for : bytes :=
  join_path (native_library_dir i) "libalr_runtime_bridge.so".
Definition proot_tmp_dir_for : bytes := join_path (app_cache_dir i) "proot-tmp".

Definition validate_input : result unit :=
  throw_if (negb (starts_slash (in_program i)))
    "program must be an absolute path inside the rootfs".

Definition guest_search_path : bytes :=
  "/usr/local/sbin:/usr/local/bin:/usr/sbin:/usr/bin:/sbin:/bin".

Definition build_loader_launch_plan : result LoaderLaunchPlan :=
  validate_input;;
  let exe := loader_executable_for in
  mret (mk_launch_plan exe
    [exe; str "--rootfs"; rootfs_dir_for; str "--program"; in_program i]
    (smap_of [(str "ALR_PACKAGE", in_package_name i); (str "ALR_ROOTFS", rootfs_dir_for);
       (str "ALR_PROGRAM", in_program i); (str "ALR_BACKEND", str "loader");
       (str "HOME", str "/root"); (str "TMPDIR", str "/tmp"); (str "PATH", guest_search_path)])).

Definition build_proot_launch_plan : result LoaderLaunchPlan :=
  validate_input;;
  let exe := join_path (native_library_dir i) "libalr_proot.so" in
  mret (mk_launch_plan exe
    [exe; str "-R"; rootfs_dir_for; str "-w"; str "/"; in_program i]
    (smap_of [(str "ALR_PACKAGE", in_package_name i); (str "ALR_ROOTFS", rootfs_dir_for);
       (str "ALR_PROGRAM", in_program i); (str "ALR_BACKEND", str "proot");
       (str "PROOT_LOADER", proot_loader_for); (str "PROOT_TMP_DIR", proot_tmp_dir_for);
       (str "PROOT_NO_SECCOMP", str "1"); (str "PROOT_VERBOSE", str "-1");
       (str "LD_LIBRARY_PATH", native_library_dir i);
       (str "HOME", str "/root"); (str "TMPDIR", str "/tmp"); (str "PATH", guest_search_path)])).

Definition alr_env_list : list (bytes * bytes) :=
  [(str "ALR_PACKAGE", in_package_name i); (str "ALR_ROOTFS", rootfs_dir_for);
   (str "ALR_PROGRAM", in_program i); (str "ALR_BACKEND", str "alr-runtime");
   (str "ALR_HOOK_PATH", alr_runtime_hook_for);
   (str "ALR_INTERPOSER_PATH", alr_runtime_interposer_for);
   (str "ALR_TRAMPOLINE_PATH", alr_runtime_trampoline_for);
   (str "ALR_BRIDGE_PATH", alr_runtime_bridge_for);
   (str "ALR_CONFIG_FORMAT", str "alr-config-v1");
   (str "ALR_FAKE_ROOT", str "0"); (str "ALR_VERBOSE", str "0");
   (str "ALR_TRACE_PATH", str "0"); (str "ALR_TRACE_EXEC", str "0");
   (str "HOME", str "/root"); (str "TMPDIR", str "/tmp"); (str "PATH", guest_search_path)].

Definition build_alr_runtime_launch_plan : result LoaderLaunchPlan :=
  validate_input;;
  let exe := alr_runtime_launcher_for in
  mret (mk_launch_plan exe
    [exe; str "--rootfs"; rootfs_dir_for; str "--cwd"; str "/"; str "--program"; in_program i;
     str "--dry-run"]
    (smap_of alr_env_list)).

Definition build_alr_runtime_config (launch : LoaderLaunchPlan) : result RuntimeConfig :=
  rootfs ← smap_at "ALR_ROOTFS" (lp_env launch);
  hook ← smap_at "ALR_HOOK_PATH" (lp_env launch);
  interposer ← smap_at "ALR_INTERPOSER_PATH" (lp_env launch);
  bridge ← smap_at "ALR_BRIDGE_PATH" (lp_env launch);
  fake ← smap_at "ALR_FAKE_ROOT" (lp_env launch);
  verb ← smap_at "ALR_VERBOSE" (lp_env launch);
  mret (mk_config (in_package_name i) rootfs "/" (in_program i) (lp_env launch) [] hook interposer
    bridge (bool_decide (fake = str "1")) (if bool_decide (verb = str "0") then 0 else 1)
    false false).

Definition probe_optional_runtime_backend : result OptionalRuntimeBackendProbe :=
  match optional_runtime_backend_path i with
  | [] => mret (mk_probe "PASS" "SKIP" "none" "none" [] false
                  "no optional external runtime backend configured")
  | c :: _ =>
      throw_if (negb (bool_decide (c = slash))) "absolute optional runtime backend path required";;
      mret (mk_probe "PASS" "PASS" "external"
        (if bool_decide (optional_runtime_backend_name i = []) then str "external"
         else optional_runtime_backend_name i)
        (optional_runtime_backend_path i) false
        "external candidate declared for future probe integration; not executed by absent-safe scaffolding")
  end.
End input.

Definition select_execution_backend (kind : ExecutionBackendKind) : ExecutionBackend :=
  match kind with
  | PlanOnly => mk_backend kind "plan-only" false
      "writable app-data rootfs binaries are not direct exec entrypoints on modern Android; use a packaged native loader/proot/glibc-loader backend"
  | AndroidNativeTestCommand => mk_backend kind "android-native-test-command" true
      "executes only packaged/native-library-dir test commands, not rootfs app-data binaries"
  | Proot => mk_backend kind "proot" true
      "packaged PRoot backend validated for static arm64 ELF smoke execution inside app-private rootfs"
  | GlibcLoader => mk_backend kind "glibc-loader" false
      "planned backend; requires packaged executable glibc loader and path virtualization strategy"
  | AlrRuntime => mk_backend kind "alr-runtime" false
      "clean-room ALR launcher/config skeleton is packaged but guest execution is not implemented yet"
  end.

Definition yes_no (b : bool) : bytes := if b then "yes" else "no".

Section report.
Context (H : Host) (spawn : Spawner).

(** The lines of the report, in order; [None] is fuel exhausted in the launch. *)
Definition build_runtime_report (fuel : nat) (i : RuntimeReportInput) (backend : ExecutionBackend)
    : io (result RuntimeReport) := λ t,
  match (validate_input i;;
         probe ← probe_optional_runtime_backend i;
         launch ← build_alr_runtime_launch_plan i;
         config ← build_alr_runtime_config i launch;
         serialized ← serialize_runtime_config config;
         parsed ← parse_runtime_config (text serialized);
         hook ← smap_at "ALR_HOOK_PATH" (lp_env launch);
         interposer ← smap_at "ALR_INTERPOSER_PATH" (lp_env launch);
         trampoline ← smap_at "ALR_TRAMPOLINE_PATH" (lp_env launch);
         bridge ← smap_at "ALR_BRIDGE_PATH" (lp_env launch);
         mret (probe, launch, config, serialized, parsed, hook, interposer, trampoline, bridge)) with
  | Throw w => Some (Throw w, t)
  | Ok (probe, launch, config, serialized, parsed, hook, interposer, trampoline, bridge) =>
      let '(res, t1) := resolve_guest_executable H parsed (in_program i) t in
      match res with
      | Throw w => Some (Throw w, t1)
      | Ok resolution =>
          (la ← attempt_guest_launch H spawn fuel parsed (in_program i) [] default_launch_policy;
           mret (l ← la;
             mret (mk_report (loader_executable_for i) (rootfs_dir_for i) (join_on newline
               [ str "AndroLinux Runtime Lab"; [];
                 "package: " ++ in_package_name i;
                 "nativeLibraryDir: " ++ native_library_dir i;
                 "loader executable: " ++ loader_executable_for i;
                 "app files dir: " ++ app_files_dir i;
                 "rootfs dir: " ++ rootfs_dir_for i;
                 "program: " ++ in_program i;
                 "execution backend: " ++ bk_name backend;
                 "can execute: " ++ yes_no (bk_can_execute backend);
                 "backend reason: " ++ bk_reason backend;
                 str "ALR RUNTIME LAUNCHER AVAILABLE: (측정) ALR BACKEND AVAILABLE";
                 "ALR RUNTIME CONFIG BUILD: " ++
                   pass (bool_decide (is_Some (smap_find "ALR_ROOTFS" (lp_env launch))));
                 str "ALR RUNTIME DIRECT APP-DATA EXEC POLICY: (측정) ALR DIRECT APP-DATA EXECVE";
                 str "ALR HOOK LOAD: (집계) alr_hook smoke";
                 str "ALR HOOK CONFIG BUILD: (집계) alr_hook smoke";
                 str "ALR INTERPOSER LOAD: (집계) alr_interposer smoke";
                 str "ALR INTERPOSER CONFIG BUILD: (집계) alr_interposer smoke";
                 "ALR CONFIG SERIALIZE: " ++
                   pass (negb (bool_decide (text serialized = [])) &&
                         bool_decide (rootfs_dir parsed = rootfs_dir config));
                 "ALR CONFIG PARSE: " ++ pass (bool_decide (program parsed = in_program i));
                 er_report resolution;
                 la_report l;
                 "alr runtime launcher path=" ++ executable launch;
                 "alr runtime hook path=" ++ hook;
                 "alr runtime interposer path=" ++ interposer;
                 "alr runtime trampoline path=" ++ trampoline;
                 "alr runtime bridge path=" ++ bridge;
                 str "alr runtime config source=env-skeleton";
                 str "alr runtime config format=alr-config-v1";
                 "alr runtime config bytes=" ++ size_string (length (text serialized));
                 "alr runtime config checksum=" ++ checksum_hex serialized;
                 str "alr runtime guest execution=not-claimed";
                 "LOW-OVERHEAD BACKEND PROBE FRAMEWORK: " ++ framework_status probe;
                 "OPTIONAL RUNTIME BACKEND AVAILABLE: " ++ available_status probe;
                 "optional runtime backend source=" ++ pb_source probe;
                 "optional runtime backend name=" ++ pb_backend probe;
                 "optional runtime backend path=" ++
                   (if bool_decide (candidate_path probe = []) then str "none" else candidate_path probe);
                 "optional runtime backend executable=" ++ yes_no (pb_can_execute probe);
                 "optional runtime backend reason=" ++ pb_reason probe;
                 [];
                 str "Runtime policy: rootfs files stay in app-private writable storage; execution enters through packaged native backends." ])))) t1
      end
  end.

(** ** alr_runtime_launcher.cpp *)

Definition alr_runtime_launcher_status : bytes :=
  "ALR RUNTIME LAUNCHER AVAILABLE: (측정) ALR BACKEND AVAILABLE".
Definition alr_runtime_launcher_can_execute_guest : Z := 0.
Definition alr_runtime_launcher_policy : bytes :=
  "ALR RUNTIME DIRECT APP-DATA EXEC POLICY: (측정) ALR DIRECT APP-DATA EXECVE".

(** A [nullptr] argument is the empty string. *)
Definition arg (s : option bytes) : bytes := default [] s.

Definition alr_runtime_launcher_build_report (fuel : nat)
    (package native files cache name prog : option bytes) : io (result bytes) := λ t,
  let i := mk_input (arg package) (arg native) (arg files) (arg cache) (arg name) (arg prog) [] [] in
  match (launch ← build_alr_runtime_launch_plan i;
         rootfs ← smap_at "ALR_ROOTFS" (lp_env launch);
         hook ← smap_at "ALR_HOOK_PATH" (lp_env launch);
         interposer ← smap_at "ALR_INTERPOSER_PATH" (lp_env launch);
         bridge ← smap_at "ALR_BRIDGE_PATH" (lp_env launch);
         program' ← smap_at "ALR_PROGRAM" (lp_env launch);
         mret (launch, rootfs, program',
           mk_config (in_package_name i) rootfs "/" (in_program i) (lp_env launch) [] hook interposer
             bridge false 0 false false)) with
  | Throw w => Some (Throw w, t)
  | Ok (launch, rootfs, program', config) =>
      let '(res, t1) := resolve_guest_executable H config (in_program i) t in
      match res with
      | Throw w => Some (Throw w, t1)
      | Ok resolution =>
          (la ← attempt_guest_launch H spawn fuel config (in_program i) [] default_launch_policy;
           mret (l ← la;
             mret (join_on newline
               [ alr_runtime_launcher_status;
                 str "ALR RUNTIME CONFIG BUILD: PASS";
                 str "ALR RUNTIME DIRECT APP-DATA EXEC POLICY: (측정) ALR DIRECT APP-DATA EXECVE";
                 er_report resolution;
                 la_report l;
                 "can execute guest=" ++
                   yes_no (negb (alr_runtime_launcher_can_execute_guest =? 0)%Z);
                 "launcher executable=" ++ executable launch;
                 "rootfs=" ++ rootfs;
                 "program=" ++ program' ]))) t1
      end
  end.
End report.

(** ** alr_env.cpp *)

Record GuestEnvironmentInput := mk_env_input {
  ge_package_name : bytes;
  ge_rootfs_dir : bytes;
  ge_home : bytes;
  ge_tmpdir : bytes;
  ge_path : bytes;
}.

Definition require_non_empty (value name : bytes) : result unit :=
  throw_if (bool_decide (value = [])) (name ++ " must not be empty").

Definition build_guest_environment (i : GuestEnvironmentInput) : result smap :=
  require_non_empty (ge_package_name i) "package_name";;
  require_non_empty (ge_rootfs_dir i) "rootfs_dir";;
  require_non_empty (ge_home i) "home";;
  require_non_empty (ge_tmpdir i) "tmpdir";;
  require_non_empty (ge_path i) "path";;
  mret (smap_of [(str "ALR_PACKAGE", ge_package_name i); (str "ALR_ROOTFS", ge_rootfs_dir i);
    (str "HOME", ge_home i); (str "TMPDIR", ge_tmpdir i); (str "PATH", ge_path i)]).

(** ** The ALR configuration of an installed app is valid *)

(** What the app passes in: absolute directories, a rootfs name, an absolute
    program, and no NUL byte anywhere. *)
Record valid_input (i : RuntimeReportInput) : Prop := {
  vi_package : in_package_name i ≠ [];
  vi_files : starts_slash (app_files_dir i) = true;
  vi_native : starts_slash (native_library_dir i) = true;
  vi_program : starts_slash (in_program i) = true;
  vi_nul : Forall (λ s, no_nul s)
    [in_package_name i; app_files_dir i; native_library_dir i; rootfs_name i; in_program i];
}.

Lemma join_path_absolute l r : starts_slash l = true → starts_slash (join_path l r) = true.
Proof.
  intros Hl. unfold join_path. destruct l as [|c l]; [done|].
  destruct (last (c :: l)) eqn:E; [by case_decide|by apply last_None in E].
Qed.

Lemma join_path_no_nul l r : no_nul l → no_nul r → no_nul (join_path l r).
Proof.
  intros Hl Hr. unfold join_path.
  assert (Hs : no_nul (str "/")) by (by apply has_byte_false).
  repeat case_match; rewrite ?not_elem_of_app; auto.
Qed.

Section installed.
Context (i : RuntimeReportInput) (Hi : valid_input i).

Lemma const_no_nul (s : bytes) : has_byte nul s = false → no_nul s.
Proof. apply has_byte_false. Qed.

Lemma native_file_ok name :
  has_byte nul name = false →
  starts_slash (join_path (native_library_dir i) name) = true ∧
  no_nul (join_path (native_library_dir i) name).
Proof.
  intros Hn. split; [apply join_path_absolute, Hi|].
  pose proof (vi_nul i Hi) as Hnul. rewrite !Forall_cons in Hnul.
  apply join_path_no_nul; [tauto|by apply const_no_nul].
Qed.

Lemma rootfs_ok : starts_slash (rootfs_dir_for i) = true ∧ no_nul (rootfs_dir_for i).
Proof.
  pose proof (vi_nul i Hi) as Hnul. rewrite !Forall_cons in Hnul. unfold rootfs_dir_for.
  split; [apply join_path_absolute, join_path_absolute, Hi|].
  apply join_path_no_nul; [apply join_path_no_nul; [tauto|by apply const_no_nul]|tauto].
Qed.

Definition alr_config (p : bytes) : RuntimeConfig :=
  mk_config (in_package_name i) (rootfs_dir_for i) "/" p (smap_of (alr_env_list i)) []
    (alr_runtime_hook_for i) (alr_runtime_interposer_for i) (alr_runtime_bridge_for i)
    false 0 false false.

Lemma config_built launch :
  build_alr_runtime_launch_plan i = Ok launch →
  lp_env launch = smap_of (alr_env_list i) ∧
  build_alr_runtime_config i launch = Ok (alr_config (in_program i)).
Proof. unfold build_alr_runtime_launch_plan. intros H. inv_ok. by split. Qed.

Lemma env_paths :
  smap_at "ALR_HOOK_PATH" (smap_of (alr_env_list i)) = Ok (alr_runtime_hook_for i) ∧
  smap_at "ALR_INTERPOSER_PATH" (smap_of (alr_env_list i)) = Ok (alr_runtime_interposer_for i) ∧
  smap_at "ALR_TRAMPOLINE_PATH" (smap_of (alr_env_list i)) = Ok (alr_runtime_trampoline_for i) ∧
  smap_at "ALR_BRIDGE_PATH" (smap_of (alr_env_list i)) = Ok (alr_runtime_bridge_for i).
Proof. repeat split. Qed.

Lemma env_keys_ok :
  Forall (λ kv, validate_env_key kv.1 = Ok tt) (smap_of (alr_env_list i)).
Proof. repeat constructor. Qed.

Lemma env_values_ok : Forall (λ kv, no_nul kv.2) (smap_of (alr_env_list i)).
Proof.
  pose proof (vi_nul i Hi) as Hnul. rewrite !Forall_cons in Hnul.
  destruct Hnul as (Hp & _ & _ & _ & Hprog & _). pose proof rootfs_ok as [_ Hroot].
  assert (Hlist : Forall (λ kv, no_nul kv.2) (alr_env_list i)).
  { unfold alr_env_list. repeat (apply Forall_cons; split; cbn [snd]);
      try (by apply const_no_nul); try apply native_file_ok; done. }
  unfold smap_of. revert Hlist. generalize (alr_env_list i). intros l.
  assert (Hm : Forall (λ kv : bytes * bytes, no_nul kv.2) (@nil (bytes * bytes))) by constructor.
  revert Hm. generalize (@nil (bytes * bytes)).
  induction l as [|[k v] l IH]; intros m Hm Hl; cbn [foldl]; [done|].
  apply Forall_cons in Hl as [Hv Hl]. apply IH; [|done]. unfold smap_emplace. cbn [fst snd].
  destruct (smap_find k m); [done|]. rewrite Forall_forall in Hm |- *.
  intros p [->|Hin]%smap_set_keys; auto.
Qed.

Lemma alr_config_wf p : smap_wf (env (alr_config p)).
Proof.
  cbn [env alr_config]. unfold smap_of.
  assert (Hm : smap_wf []) by constructor. revert Hm. generalize (@nil (bytes * bytes)).
  induction (alr_env_list i) as [|[k v] l IH]; intros m Hm; cbn [foldl]; [done|].
  apply IH. unfold smap_emplace. destruct (smap_find _ m); auto with cpp.
Qed.

Lemma optional_host_ok v n : starts_slash v = true ∧ no_nul v → require_optional_absolute_host v n = Ok tt.
Proof.
  intros [Hs Hn]. unfold require_optional_absolute_host, reject_nul, is_absolute_host_path.
  apply has_byte_false in Hn. rewrite Hn, Hs. by rewrite andb_false_r.
Qed.

Lemma reject_empty_ok v n : v ≠ [] → reject_empty v n = Ok tt.
Proof. intros Hv. unfold reject_empty. by rewrite bool_decide_false. Qed.
Lemma reject_nul_ok v n : no_nul v → RuntimeConfig.reject_nul v n = Ok tt.
Proof. intros Hv%has_byte_false. unfold RuntimeConfig.reject_nul. by rewrite Hv. Qed.
Lemma absolute_host_ok v n : starts_slash v = true → no_nul v → require_absolute_host v n = Ok tt.
Proof.
  intros Hs Hn. unfold require_absolute_host, is_absolute_host_path.
  rewrite reject_empty_ok by (by destruct v). cbn [mbind result_bind].
  rewrite reject_nul_ok, Hs by done. done.
Qed.

Lemma normalize_required_valid p n :
  starts_slash p = true → no_nul p → normalize_required_guest_path p n = Ok (lexical p).
Proof.
  intros Hs Hn. unfold normalize_required_guest_path, reject_empty, RuntimeConfig.reject_nul,
    is_guest_absolute_path. rewrite bool_decide_false by (by destruct p).
  rewrite (proj2 (has_byte_false _ _) Hn), Hs. cbn [throw_if mbind result_bind negb].
  apply normalize_lexical. unfold resolved. rewrite Hs. split; [done|].
  split; [by apply has_byte_false|]. done.
Qed.

(** The configuration validates; validation only normalizes the program. *)
Lemma alr_config_valid :
  validate_runtime_config (alr_config (in_program i)) = Ok (alr_config (lexical (in_program i))).
Proof.
  pose proof (vi_nul i Hi) as Hnul. rewrite !Forall_cons in Hnul.
  destruct Hnul as (Hp & _ & _ & _ & Hprog & _). pose proof rootfs_ok as [Hroots Hroot].
  unfold validate_runtime_config. cbn [package_name rootfs_dir cwd program hook_path
    interposer_path bridge_path verbose env binds fake_root trace_path trace_exec alr_config].
  rewrite reject_empty_ok by apply Hi. cbn [mbind result_bind].
  rewrite reject_nul_ok by done. cbn [mbind result_bind].
  rewrite absolute_host_ok by done. cbn [mbind result_bind].
  rewrite (normalize_required_valid "/") by (done || by apply const_no_nul).
  cbn [mbind result_bind].
  rewrite normalize_required_valid by (apply Hi || done). cbn [mbind result_bind].
  rewrite !optional_host_ok by (by apply native_file_ok). cbn [mbind result_bind].
  change (throw_if ((0 <? 0)%Z || (2 <? 0)%Z) ?w) with (Ok tt). cbn [mbind result_bind].
  assert (He : each (λ kv, validate_env_key kv.1;; RuntimeConfig.reject_nul kv.2 "env value")
                 (smap_of (alr_env_list i)) = Ok tt).
  { apply each_Ok. pose proof env_keys_ok as Hk. pose proof env_values_ok as Hv.
    rewrite Forall_forall in Hk, Hv |- *. intros kv Hin.
    rewrite (Hk kv Hin). cbn [mbind result_bind]. by apply reject_nul_ok, Hv. }
  rewrite He. done.
Qed.
End installed.

(** ** Resolution never throws on a valid configuration *)

Lemma translate_total rootfs cw p :
  starts_slash rootfs = true → no_nul rootfs → starts_slash cw = true → no_nul cw → no_nul p →
  ∃ tr, translate_rootfs_path rootfs cw p = Ok tr.
Proof.
  intros Hr Hrn Hc Hcn Hp. unfold translate_rootfs_path, GuestPath.reject_nul, is_guest_absolute_path.
  rewrite (proj2 (has_byte_false _ _) Hrn), Hr. cbn [throw_if mbind result_bind negb].
  rewrite (proj2 (normalize_lexical p cw (lexical (resolved p cw)))) by auto.
  by eexists.
Qed.

Lemma resolve_loop_total H c cands r t :
  starts_slash (rootfs_dir c) = true → no_nul (rootfs_dir c) →
  starts_slash (cwd c) = true → no_nul (cwd c) → Forall (λ g, no_nul g) cands →
  ∃ ret r' t', resolve_loop H c cands r t = (Ok (ret, r'), t').
Proof.
  intros H1 H2 H3 H4 Hall. revert r t. induction Hall as [|g gs Hg _ IH]; intros r t;
    cbn [resolve_loop]; [by eexists _, _, _|].
  destruct (translate_total (rootfs_dir c) (cwd c) g) as [tr ->]; [done..|].
  destruct r. destruct (host_stat H (host_path tr)) as [e|[[] sz]].
  - apply IH.
  - destruct (probe H _ t). by eexists _, _, _.
  - by eexists _, _, _.
Qed.

Lemma resolve_absolute_total H c p t :
  starts_slash (rootfs_dir c) = true → no_nul (rootfs_dir c) →
  starts_slash (cwd c) = true → no_nul (cwd c) → starts_slash p = true → no_nul p →
  ∃ r t', resolve_guest_executable H c p t = (Ok r, t').
Proof.
  intros H1 H2 H3 H4 Hp Hpn. unfold resolve_guest_executable, candidate_guest_paths.
  rewrite bool_decide_false by (by destruct p). unfold is_guest_absolute_path. rewrite Hp.
  cbn [throw_if mbind result_bind orb].
  rewrite (proj2 (normalize_lexical p (cwd c) (lexical (resolved p (cwd c))))) by auto.
  cbn [mret result_ret mbind result_bind].
  assert (Hg : no_nul (lexical (resolved p (cwd c)))).
  { apply lexical_bytes; [done|]. unfold resolved. by rewrite Hp. }
  destruct (resolve_loop_total H c [lexical (resolved p (cwd c))] empty_resolution t)
    as (ret & r & t' & ->); [done..|by constructor|].
  destruct ret; [by eexists _, _|].
  cbn [mbind result_bind].
  destruct (guest_path (er_translation r)).
  - destruct (translate_total (rootfs_dir c) (cwd c) (lexical (resolved p (cwd c)))) as [tr ->];
      [done..|]. cbn [mbind result_bind mret result_ret]. by eexists _, _.
  - cbn [mbind result_bind mret result_ret]. by eexists _, _.
Qed.

(** ** Property *)

(** C15. For every valid input the ALR plan is coherent end to end: the configuration
    built from the launch environment serializes and parses back to itself with
    the program normalized, its rootfs is the app's rootfs directory, and the
    runtime report is produced: no exception, no child process, within the fuel
    of the ELF reads, whatever the file system holds. *)
Theorem runtime_report_total H retries i backend fuel t :
  HostLaws H retries → read_fuel retries 4096 ≤ fuel →
  valid_input i →
  optional_runtime_backend_path i = [] ∨ starts_slash (optional_runtime_backend_path i) = true →
  (∃ launch config s,
     build_alr_runtime_launch_plan i = Ok launch ∧ build_alr_runtime_config i launch = Ok config ∧
     serialize_runtime_config config = Ok s ∧
     parse_runtime_config (text s) = Ok (alr_config i (lexical (in_program i))) ∧
     rootfs_dir config = rootfs_dir_for i) ∧
  ∃ rep t', (∀ spawn, build_runtime_report H spawn fuel i backend t = Some (Ok rep, t')) ∧
    rr_rootfs_dir rep = rootfs_dir_for i ∧ loader_executable rep = loader_executable_for i.
Proof.
  intros laws Hf Hi Hopt.
  assert (Hval : validate_input i = Ok tt) by (unfold validate_input; by rewrite (vi_program i Hi)).
  assert (Hlaunch : ∃ launch, build_alr_runtime_launch_plan i = Ok launch)
    by (unfold build_alr_runtime_launch_plan; rewrite Hval; by eexists).
  destruct Hlaunch as [launch Hlaunch]. destruct (config_built i launch Hlaunch) as [Henv Hconf].
  assert (Hser : ∃ s, serialize_runtime_config (alr_config i (in_program i)) = Ok s)
    by (unfold serialize_runtime_config; rewrite (alr_config_valid i Hi); by eexists).
  destruct Hser as [s Hs].
  destruct (serialize_parse _ _ (alr_config_wf i _) Hs) as (c' & Hv & _ & Hp & _).
  rewrite (alr_config_valid i Hi) in Hv. injection Hv as <-.
  split.
  { exists launch, (alr_config i (in_program i)), s.
    exact (conj Hlaunch (conj Hconf (conj Hs (conj Hp eq_refl)))). }
  assert (Hprobe : ∃ pb, probe_optional_runtime_backend i = Ok pb).
  { unfold probe_optional_runtime_backend.
    destruct (optional_runtime_backend_path i) as [|x l]; [by eexists|].
    destruct Hopt as [[=]|Hx]. cbn in Hx. rewrite Hx. by eexists. }
  destruct Hprobe as [pb Hpb]. unfold build_runtime_report.
  rewrite Hval, Hpb, Hlaunch. cbn [mbind result_bind]. rewrite Hconf. cbn [mbind result_bind].
  rewrite Hs. cbn [mbind result_bind]. rewrite Hp, Henv. cbn [mbind result_bind].
  destruct (env_paths i) as (-> & -> & -> & ->).
  cbn [mbind result_bind mret result_ret].
  destruct (rootfs_ok i Hi) as [Hroot Hrootn]. pose proof (vi_nul i Hi) as Hnul.
  rewrite !Forall_cons in Hnul.
  destruct (resolve_absolute_total H (alr_config i (lexical (in_program i))) (in_program i) t)
    as (r & t1 & Hr); [exact Hroot|exact Hrootn|reflexivity|by apply has_byte_false|apply Hi|tauto|].
  rewrite Hr.
  destruct (resolve_absolute_total H (alr_config i (lexical (in_program i))) (in_program i) t1)
    as (r2 & t2 & Hr2); [exact Hroot|exact Hrootn|reflexivity|by apply has_byte_false|apply Hi|tauto|].
  destruct (launch_blocked H retries (alr_config i (lexical (in_program i))) (in_program i) []
    default_launch_policy fuel t1 r2 t2 laws Hf eq_refl eq_refl Hr2) as (l & t' & Hl & _).
  eexists _, t'. split.
  - intros spawn. unfold mbind at 1, io_bind. rewrite (Hl spawn). cbn [mbind result_bind].
    unfold mret, io_ret, result_ret. reflexivity.
  - split; reflexivity.
Qed.

Definition sample_input : RuntimeReportInput :=
  mk_input "dev.chanwoo.androlinux" "/data/app/lib/arm64" "/data/user/0/app/files/" "/data/cache"
    "ubuntu" "/bin/./sh" [] [].

Lemma runtime_report_total_witness :
  rootfs_dir_for sample_input = "/data/user/0/app/files/rootfs/ubuntu" ∧
  ∃ rep t', (∀ spawn, build_runtime_report exec_host spawn (read_fuel 1 4096) sample_input
               (select_execution_backend PlanOnly) 1 = Some (Ok rep, t')) ∧
    rr_rootfs_dir rep = rootfs_dir_for sample_input ∧
    loader_executable rep = loader_executable_for sample_input.
Proof.
  split; [reflexivity|].
  apply (runtime_report_total exec_host 1 sample_input (select_execution_backend PlanOnly)
    (read_fuel 1 4096) 1).
  - apply choppy_laws. intros p c. unfold exec_files.
    repeat case_decide; intros [= <-]; vm_compute; done.
  - apply le_n.
  - split; try reflexivity; [done|]. repeat constructor; apply has_byte_false; reflexivity.
  - left. reflexivity.
Defined.
