(* ===== verification/ExecRule.v ===== *)
(** * The exec rule of the C runtime: [runtime/alr/src/common/alr_exec_rule.c]

    Decisions on the environment and the target of an exec, shared by the preload library
    and the command line tool.  Strings are C strings; a NULL pointer is [None].  The
    lists of preloaded libraries are specified over lists of colon-separated elements. *)

From S2P Require Import Prelude Bytes PathRule ExecMediation.

Definition colon : byte := ":"%byte.

(** [alr_split_env]: the length of the key, and the value. *)
Definition alr_split_env (entry : bytes) : nat * bytes :=
  match find_from "="%byte entry with
  | None => (length entry, [])
  | Some eq => (eq, drop (S eq) entry)
  end.

(** The loops below walk a list by its elements: the element at [p], and where the next
    one starts if a colon follows. *)
Definition next_elem (p : bytes) : bytes * option bytes :=
  match find_from colon p with
  | Some k => (take k p, Some (drop (S k) p))
  | None => (p, None)
  end.
Fixpoint contains_loop (fuel : nat) (p needle : bytes) : bool :=
  match fuel, p with
  | S fuel, _ :: _ =>
      let '(e, rest) := next_elem p in
      if bool_decide (e = needle) then true
      else match rest with Some p => contains_loop fuel p needle | None => false end
  | _, _ => false
  end.
Definition alr_colon_contains (list : option bytes) (needle : option bytes) : bool :=
  match list, needle with
  | Some ((_ :: _) as l), Some ((_ :: _) as n) => contains_loop (length l) l n
  | _, _ => false
  end.

(** [append_elem] on the first [o] bytes of the buffer; [None] is the result 0. *)
Definition append_elem (out : bytes) (outsz : nat) (s : bytes) : option bytes :=
  match s with
  | [] => Some out
  | _ =>
      let sep := match out with [] => false | _ => true end in
      if sep && (outsz <=? length out + 1) then None
      else
        let out := if sep then out ++ [colon] else out in
        if outsz <=? length out + length s then None else Some (out ++ s)
  end.
(** Is the element one of ours? *)
Definition is_ours (interpose : bytes) (fakeroot : option bytes) (e : bytes) : bool :=
  bool_decide (e = interpose) || match fakeroot with Some f => bool_decide (e = f) | None => false end.
Fixpoint carry_loop (fuel : nat) (p interpose : bytes) (fakeroot : option bytes) (outsz : nat)
    (out : bytes) : option bytes :=
  match fuel, p with
  | S fuel, _ :: _ =>
      let '(e, rest) := next_elem p in
      out ← (match e with
             | [] => Some out
             | _ => if is_ours interpose fakeroot e then Some out else append_elem out outsz e
             end);
      match rest with
      | Some p => carry_loop fuel p interpose fakeroot outsz out
      | None => Some out
      end
  | _, _ => Some out
  end.
(** The value and [*changed]; [None] is the result 0. *)
Definition alr_build_ld_preload (cur interpose_so fakeroot_so : option bytes) (outsz : nat)
    : option (bytes * bool) :=
  match interpose_so with
  | None | Some [] => None
  | Some interpose =>
      if outsz <? 2 then None
      else if match cur with
              | Some ((_ :: _)) =>
                  alr_colon_contains cur (Some interpose) &&
                  match fakeroot_so with None => true | _ => alr_colon_contains cur fakeroot_so end
              | _ => false
              end
      then let c := default [] cur in
           if outsz <? length c + 1 then None else Some (c, false)
      else
        out ← append_elem [] outsz (default [] fakeroot_so);
        out ← append_elem out outsz interpose;
        let c := default [] cur in
        out ← carry_loop (length c) c interpose fakeroot_so outsz out;
        Some (out, true)
  end.

Definition alr_is_bionic_target (host_path : option bytes) (termux_prefix : option bytes) : bool :=
  match host_path with
  | Some ((c :: _) as p) =>
      bool_decide (c = slash) &&
      (alr_path_under p "/system" || alr_path_under p "/apex" || alr_path_under p "/vendor" ||
       match termux_prefix with Some ((_ :: _) as t) => alr_path_under p t | _ => false end)
  | _ => false
  end.

Definition blocked : list bytes :=
  strs ["ANDROID_ROOT"; "ANDROID_DATA"; "ANDROID_ART_ROOT"; "ANDROID_I18N_ROOT";
        "ANDROID_TZDATA_ROOT"; "ANDROID_ASSETS"; "ANDROID_STORAGE"; "BOOTCLASSPATH";
        "DEX2OATBOOTCLASSPATH"; "SYSTEMSERVERCLASSPATH"; "EXTERNAL_STORAGE"; "PREFIX";
        "TERMUX_APK_RELEASE"; "TERMUX_APP_PID"; "TERMUX_IS_DEBUGGABLE_BUILD";
        "TERMUX_MAIN_PACKAGE_FORMAT"; "TERMUX_VERSION"; "TERMUX__USER_ID"; "ANDROID_BOOTLOGO";
        "ANDROID_CONSOLE_LOGLEVEL"; "ANDROID_LOG_TAGS"; "ASEC_MOUNTPOINT"; "DOWNLOAD_CACHE";
        "LOOP_MOUNTPOINT"; "EMULATED_STORAGE_SOURCE"; "EMULATED_STORAGE_TARGET";
        "ENC_EMULATED_STORAGE_SOURCE"; "ENC_EMULATED_STORAGE_TARGET"; "KNOX_STORAGE";
        "SECONDARY_STORAGE"; "VENDOR_ROOT"; "ART_APEX_DATA"; "HOSTNAME"].
Definition alr_env_is_blocked (entry : bytes) : bool :=
  let klen := fst (alr_split_env entry) in
  bool_decide (take klen entry ∈ blocked) ||
  ((15 <? klen) && is_prefix "ANDROID_SOCKET_" entry) ||
  ((7 <=? klen) && is_prefix "TERMUX_" entry) ||
  ((5 <=? klen) && is_prefix "KNOX_" entry) ||
  ((4 <=? klen) && is_prefix "SEC_" entry).

(** ** Elements of a list *)

(** The elements a value of LD_PRELOAD names. *)
Definition elems (l : bytes) : list bytes := filter (λ e, e ≠ []) (split_on colon l).
Lemma next_elem_split p :
  let '(e, rest) := next_elem p in
  split_on colon p = e :: match rest with Some r => split_on colon r | None => [] end ∧
  match rest with Some r => length r < length p | None => True end.
Proof.
  unfold next_elem. destruct (find_from colon p) as [k|] eqn:E.
  - apply find_from_Some in E as (r & Hp & Hk & Hr & Hlt). rewrite <- Hr. split.
    + rewrite Hp at 1. by apply split_on_app.
    + rewrite Hr, length_drop. lia.
  - apply find_from_None in E. split; [by apply split_on_single|done].
Qed.
Lemma contains_loop_spec fuel p needle : needle ≠ [] → length p ≤ fuel →
  contains_loop fuel p needle = bool_decide (needle ∈ split_on colon p).
Proof.
  intros Hn. revert p. induction fuel as [|fuel IH]; intros [|c p] Hf; try (cbn in Hf; lia).
  1, 2: symmetry; apply bool_decide_eq_false; cbn; by rewrite list_elem_of_singleton.
  cbn [contains_loop]. pose proof (next_elem_split (c :: p)) as H.
  destruct (next_elem (c :: p)) as [e rest]. destruct H as [-> Hlen].
  case_bool_decide as He; [symmetry; apply bool_decide_eq_true; subst; left|].
  destruct rest as [r|].
  - rewrite IH by (cbn in *; lia). apply bool_decide_ext. rewrite elem_of_cons. naive_solver.
  - symmetry. apply bool_decide_eq_false. rewrite list_elem_of_singleton. congruence.
Qed.
Lemma colon_contains_spec l n :
  alr_colon_contains (Some l) (Some n) = true ↔ n ∈ elems l.
Proof.
  unfold elems. rewrite list_elem_of_filter. destruct n as [|b n]; [destruct l; split; naive_solver|].
  destruct l as [|a l].
  - split; [done|]. cbn. by rewrite list_elem_of_singleton; intros [_ ?].
  - unfold alr_colon_contains. rewrite contains_loop_spec, bool_decide_eq_true by done. naive_solver.
Qed.
(** The C and the C++ membership test agree. *)
Lemma colon_contains_agrees l n : alr_colon_contains (Some l) (Some n) = colon_list_contains l n.
Proof.
  apply eq_true_iff_eq. rewrite colon_contains_spec, colon_list_contains_spec. unfold elems.
  by rewrite list_elem_of_filter.
Qed.

(** ** Building the list *)

(** A list of elements as a value, if it fits. *)
Definition fits (outsz : nat) (es : list bytes) : Prop := length (join_on colon es) < outsz.
Definition emit (outsz : nat) (es : list bytes) : option bytes :=
  if outsz <=? length (join_on colon es) then None else Some (join_on colon es).
Lemma emit_fits outsz es : fits outsz es → emit outsz es = Some (join_on colon es).
Proof. unfold fits, emit. intros H. by rewrite (proj2 (Nat.leb_gt _ _)). Qed.
Lemma emit_too_long outsz es : ¬ fits outsz es → emit outsz es = None.
Proof. unfold fits, emit. intros H. by rewrite (proj2 (Nat.leb_le _ _)) by lia. Qed.
Lemma join_length_snoc es e :
  length (join_on colon (es ++ [e])) =
  match es with [] => length e | _ => length (join_on colon es) + 1 + length e end.
Proof.
  rewrite join_on_snoc. destruct es; [done|]. rewrite length_app. cbn [length]. lia.
Qed.
Lemma append_elem_emit outsz es e : Forall (λ x, x ≠ []) es → e ≠ [] → fits outsz es →
  append_elem (join_on colon es) outsz e = emit outsz (es ++ [e]).
Proof.
  intros Hes He Hfit. unfold append_elem, emit, fits in *.
  rewrite (join_length_snoc es e), (join_on_snoc colon es e). destruct e as [|b e]; [done|].
  destruct (join_on colon es) as [|c s] eqn:Ej; [by apply join_on_nil in Ej as ->|].
  destruct es as [|e0 es]; [done|]. cbn [andb]. rewrite length_app. cbn [length] in *.
  replace (S (length s) + 1 + S (length e)) with (S (length s) + 1 + S (length e)) by lia.
  destruct (Nat.leb_spec outsz (S (length s) + 1)).
  - by rewrite (proj2 (Nat.leb_le _ _)) by lia.
  - destruct (_ <=? _); [done|]. by rewrite <- app_assoc.
Qed.
Lemma fits_app outsz es k : fits outsz (es ++ k) → fits outsz es.
Proof.
  unfold fits. revert es. induction k as [|e k IH]; intros es; [by rewrite app_nil_r|].
  rewrite cons_middle, app_assoc. intros H%IH. rewrite join_on_snoc in H.
  destruct es; [cbn in *; lia|]. rewrite length_app in H. lia.
Qed.
Lemma carry_loop_spec fuel p interpose fakeroot outsz es :
  length p ≤ fuel → Forall (λ x, x ≠ []) es → fits outsz es →
  carry_loop fuel p interpose fakeroot outsz (join_on colon es) =
    emit outsz (es ++ filter (λ e, is_ours interpose fakeroot e = false) (elems p)).
Proof.
  revert p es. induction fuel as [|fuel IH]; intros [|c p] es Hf Hes Hfit; try (cbn in Hf; lia).
  1, 2: cbn; rewrite app_nil_r; by rewrite emit_fits.
  cbn [carry_loop]. pose proof (next_elem_split (c :: p)) as H.
  destruct (next_elem (c :: p)) as [e rest]. destruct H as [Hs Hlen]. unfold elems. rewrite Hs.
  assert (∀ es', Forall (λ x, x ≠ []) es' → fits outsz es' →
    match rest with
    | Some p => carry_loop fuel p interpose fakeroot outsz (join_on colon es')
    | None => Some (join_on colon es')
    end = emit outsz (es' ++ filter (λ e, is_ours interpose fakeroot e = false)
                              (filter (λ e, e ≠ []) match rest with Some r => split_on colon r | None => [] end)))
    as Hrest.
  { intros es' He Hf'. destruct rest as [r|]; [by apply IH; [cbn in *; lia|..]|].
    cbn. rewrite app_nil_r. by rewrite emit_fits. }
  destruct e as [|b e].
  { cbn [mbind option_bind]. rewrite Hrest by done. by rewrite filter_cons_False by naive_solver. }
  rewrite (filter_cons_True (λ e, e ≠ [])) by done.
  destruct (is_ours interpose fakeroot (b :: e)) eqn:Ho.
  - cbn [mbind option_bind]. rewrite Hrest by done. by rewrite filter_cons_False by congruence.
  - rewrite filter_cons_True by done. rewrite (cons_middle (b :: e)), app_assoc.
    rewrite append_elem_emit by done.
    destruct (lt_dec (length (join_on colon (es ++ [b :: e]))) outsz) as [Hfit'|Hfit'];
      fold (fits outsz (es ++ [b :: e])) in Hfit'.
    + rewrite emit_fits by done. cbn [mbind option_bind]. apply Hrest; [|done].
      apply Forall_app. split; [done|by constructor].
    + rewrite emit_too_long by done. cbn [mbind option_bind]. symmetry. apply emit_too_long.
      intros H. apply Hfit'. by eapply fits_app.
Qed.

(** A library path: one element of a list. *)
Definition element (e : bytes) : Prop := e ≠ [] ∧ colon ∉ e.
(** The libraries the guest must get, in the order that matters. *)
Definition wanted (interpose : bytes) (fakeroot : option bytes) : list bytes :=
  match fakeroot with Some f => [f; interpose] | None => [interpose] end.
Definition kept (interpose : bytes) (fakeroot : option bytes) (cur : bytes) : list bytes :=
  filter (λ e, is_ours interpose fakeroot e = false) (elems cur).

Lemma elems_element cur : Forall element (elems cur).
Proof.
  unfold elems. apply Forall_forall. intros e [He Hin]%list_elem_of_filter. split; [done|].
  by apply (proj1 (Forall_forall _ _) (split_on_no_sep colon cur)).
Qed.
Lemma elems_join es : Forall element es → elems (join_on colon es) = es.
Proof.
  intros Hes. destruct es as [|e0 es0] eqn:E; [done|]. rewrite <- E in *. unfold elems.
  rewrite split_on_join; [|by rewrite E|].
  - clear E. induction Hes as [|e es [He _] _ IH]; [done|]. by rewrite filter_cons_True, IH.
  - eapply Forall_impl; [exact Hes|]. by intros x [].
Qed.
Lemma wanted_element interpose fakeroot : element interpose → (∀ f, fakeroot = Some f → element f) →
  Forall element (wanted interpose fakeroot).
Proof.
  intros Hi Hf. destruct fakeroot as [f|]; cbn [wanted]; repeat constructor; auto; apply Hi || by apply Hf.
Qed.
Lemma kept_element interpose fakeroot cur : Forall element (kept interpose fakeroot cur).
Proof.
  apply Forall_forall. intros e [_ He]%list_elem_of_filter.
  by apply (proj1 (Forall_forall _ _) (elems_element cur)).
Qed.

Definition satisfied (interpose : bytes) (fakeroot : option bytes) (cur : bytes) : Prop :=
  Forall (λ w, w ∈ elems cur) (wanted interpose fakeroot).
(** [alr_build_ld_preload] on its two paths. *)
Lemma build_cases cur interpose fakeroot outsz :
  element interpose → (∀ f, fakeroot = Some f → element f) →
  (satisfied interpose fakeroot (default [] cur) ∧
   alr_build_ld_preload cur (Some interpose) fakeroot outsz =
     if outsz <=? length (default [] cur) then None else Some (default [] cur, false)) ∨
  (¬ satisfied interpose fakeroot (default [] cur) ∧
   alr_build_ld_preload cur (Some interpose) fakeroot outsz =
     (λ v, (v, true)) <$> emit outsz (wanted interpose fakeroot ++ kept interpose fakeroot (default [] cur))).
Proof.
  intros Hi Hf. pose proof (wanted_element _ _ Hi Hf) as Hw.
  assert (∀ es, Forall element es → Forall (λ e, e ≠ []) es) as Hne.
  { intros es H. eapply Forall_impl; [exact H|]. by intros x []. }
  unfold alr_build_ld_preload. set (c := default [] cur).
  set (sat := match cur with Some (_ :: _) => _ | _ => false end).
  assert (sat = true ↔ satisfied interpose fakeroot c) as Hsat.
  { unfold sat, satisfied, wanted, c. destruct cur as [[|b cur]|]; cbn [default from_option].
    1, 3: split; [done|]; destruct fakeroot; intros H; apply Forall_cons in H as [H _]; by apply elem_of_nil in H.
    rewrite andb_true_iff, colon_contains_spec. destruct fakeroot as [f|].
    - rewrite colon_contains_spec, !Forall_cons, Forall_nil. tauto.
    - rewrite Forall_cons, Forall_nil. tauto. }
  clearbody sat. destruct interpose as [|i0 i] eqn:Ei; [by destruct Hi|]. rewrite <- Ei in *. clear i0 i Ei.
  assert (outsz < 2 → ∀ es e, e ∈ es → e ≠ [] → emit outsz es = None) as Hsmall.
  { intros Ho es e He Hn. apply emit_too_long. unfold fits. intros H.
    assert (length (join_on colon es) = 0) as H0 by lia. apply length_zero_iff_nil in H0.
    destruct es as [|x [|y es]]; cbn in H0; [by apply elem_of_nil in He| |].
    - apply list_elem_of_singleton in He. congruence.
    - by apply app_nil in H0 as [_ ?]. }
  destruct (Nat.ltb_spec outsz 2) as [Hlt|Hge].
  - destruct sat.
    + left. split; [by apply Hsat|]. destruct (Nat.leb_spec outsz (length c)); [done|].
      assert (c = []) as Hc by (apply length_zero_iff_nil; lia). exfalso.
      pose proof (proj1 Hsat eq_refl) as Hs. unfold satisfied in Hs. rewrite Hc in Hs.
      unfold wanted in Hs. destruct fakeroot; apply Forall_cons in Hs as [Hs _]; by apply elem_of_nil in Hs.
    + right. split; [by rewrite <- Hsat|]. rewrite (Hsmall Hlt _ interpose); [done| |apply Hi].
      apply elem_of_app. left. unfold wanted. destruct fakeroot; [right|]; left.
  - destruct sat.
    + left. split; [by apply Hsat|]. cbv zeta. destruct (Nat.ltb_spec outsz (length c + 1)).
      * by rewrite (proj2 (Nat.leb_le _ _)) by lia.
      * by rewrite (proj2 (Nat.leb_gt _ _)) by lia.
    + right. split; [by rewrite <- Hsat|]. cbv zeta.
      assert (∀ es, Forall element es → (out ← emit outsz es; carry_loop (length c) c interpose fakeroot outsz out)
                = emit outsz (es ++ kept interpose fakeroot c)) as Hcarry.
      { intros es Hes. destruct (lt_dec (length (join_on colon es)) outsz) as [Hfit|Hfit];
          fold (fits outsz es) in Hfit.
        - rewrite emit_fits by done. cbn [mbind option_bind]. apply carry_loop_spec; auto.
        - rewrite emit_too_long by done. symmetry. apply emit_too_long. intros H. apply Hfit.
          by eapply fits_app. }
      rewrite <- Hcarry by done.
      assert (append_elem [] outsz (default [] fakeroot) =
              emit outsz match fakeroot with Some f => [f] | None => [] end) as ->.
      { destruct fakeroot as [f|]; cbn [default from_option].
        - apply (append_elem_emit outsz []); [constructor|by apply Hf|unfold fits; cbn; lia].
        - rewrite emit_fits; [done|]. unfold fits. cbn. lia. }
      assert (∀ es, Forall element es → (out ← emit outsz es; append_elem out outsz interpose)
                = emit outsz (es ++ [interpose])) as Happ.
      { intros es Hes. destruct (lt_dec (length (join_on colon es)) outsz) as [Hfit|Hfit];
          fold (fits outsz es) in Hfit.
        - rewrite emit_fits by done. cbn [mbind option_bind]. apply append_elem_emit; auto. apply Hi.
        - rewrite emit_too_long by done. symmetry. apply emit_too_long. intros H. apply Hfit.
          by eapply fits_app. }
      set (e0 := match fakeroot with Some f => [f] | None => [] end).
      assert (wanted interpose fakeroot = e0 ++ [interpose]) as -> by (by destruct fakeroot).
      assert (Forall element e0) as He0 by (unfold e0; destruct fakeroot; repeat constructor; by apply Hf).
      rewrite <- (Happ e0 He0). destruct (emit outsz e0) as [out|]; [|done]. cbn [mbind option_bind].
      destruct (append_elem out outsz interpose) as [out'|]; [|done]. cbn [mbind option_bind].
      by destruct (carry_loop _ _ _ _ _ _).
Qed.

(** The guest always gets our libraries, once, and keeps its own: if the value it has
    names them all it is left alone; otherwise the new value is exactly the fake root
    library (when there is one), the interposer and then the guest's own entries without
    duplicates of ours, in their order, and no value is made exactly when that does not
    fit the buffer.  In both cases the result names all of ours and every entry of the
    guest, and is left alone when it is processed again. *)
Theorem ld_preload_built (cur : option bytes) (interpose : bytes) (fakeroot : option bytes) (outsz : nat) :
  element interpose → (∀ f, fakeroot = Some f → element f) →
  let r := alr_build_ld_preload cur (Some interpose) fakeroot outsz in
  let es := elems (default [] cur) in
  let fresh := wanted interpose fakeroot ++ kept interpose fakeroot (default [] cur) in
  (satisfied interpose fakeroot (default [] cur) → length (default [] cur) < outsz → r = Some (default [] cur, false)) ∧
  (¬ satisfied interpose fakeroot (default [] cur) → fits outsz fresh → r = Some (join_on colon fresh, true)) ∧
  (∀ v changed, r = Some (v, changed) →
     length v < outsz ∧ satisfied interpose fakeroot v ∧ (∀ e, e ∈ es → e ∈ elems v) ∧
     alr_build_ld_preload (Some v) (Some interpose) fakeroot outsz = Some (v, false)).
Proof.
  intros Hi Hf r es fresh. unfold r. clear r.
  assert (∀ v, satisfied interpose fakeroot v → length v < outsz →
    alr_build_ld_preload (Some v) (Some interpose) fakeroot outsz = Some (v, false)) as Hagain.
  { intros v Hs Hv. destruct (build_cases (Some v) interpose fakeroot outsz Hi Hf) as [[_ ->]|[Hn _]]; [|done].
    cbn [default from_option]. by rewrite (proj2 (Nat.leb_gt _ _)). }
  destruct (build_cases cur interpose fakeroot outsz Hi Hf) as [[Hs ->]|[Hs ->]].
  - split_and!; [|done|].
    + intros _ Hl. by rewrite (proj2 (Nat.leb_gt _ _)).
    + intros v changed. destruct (Nat.leb_spec outsz (length (default [] cur))) as [|Hl]; [done|].
      intros [= <- <-]. auto.
  - fold fresh. split_and!; [done|intros _ Hfit; by rewrite emit_fits|].
    intros v changed. destruct (lt_dec (length (join_on colon fresh)) outsz) as [Hfit|Hfit];
      fold (fits outsz fresh) in Hfit; [|by rewrite emit_too_long].
    rewrite emit_fits by done. intros [= <- <-].
    assert (elems (join_on colon fresh) = fresh) as He.
    { apply elems_join, Forall_app. split; [by apply wanted_element|apply kept_element]. }
    assert (satisfied interpose fakeroot (join_on colon fresh)) as Hsat.
    { unfold satisfied. rewrite He. apply Forall_forall. intros w Hw. apply elem_of_app. by left. }
    split_and!; [done|done| |by apply Hagain].
    intros e Hin. rewrite He. unfold fresh, kept. rewrite elem_of_app, list_elem_of_filter.
    destruct (is_ours interpose fakeroot e) eqn:Ho; [left|by right].
    unfold is_ours in Ho. unfold wanted. destruct fakeroot as [f|];
      rewrite ?orb_true_iff, ?bool_decide_eq_true in Ho; rewrite ?elem_of_cons; [naive_solver|].
    destruct Ho as [->|]; [by left|done].
Qed.
Lemma ld_preload_built_witness :
  alr_build_ld_preload (Some (str "/usr/lib/libfoo.so:/r/i.so:")) (Some (str "/r/i.so"))
    (Some (str "/r/f.so")) 64 = Some (str "/r/f.so:/r/i.so:/usr/lib/libfoo.so", true).
Proof.
  apply (ld_preload_built (Some (str "/usr/lib/libfoo.so:/r/i.so:")) (str "/r/i.so") (Some (str "/r/f.so")) 64).
  - by apply (bool_decide_unpack _).
  - intros f [= <-]. by apply (bool_decide_unpack _).
  - apply (bool_decide_unpack (¬ satisfied _ _ _)). vm_compute. done.
  - unfold fits. vm_compute. lia.
Defined.

(** The order of ours is not restored: a value that names both in the wrong order is left
    alone, and the interposer then wins the bindings of the fake root library. *)
Example wrong_order_kept :
  alr_build_ld_preload (Some (str "/r/i.so:/r/f.so")) (Some (str "/r/i.so")) (Some (str "/r/f.so")) 64
  = Some (str "/r/i.so:/r/f.so", false).
Proof. vm_compute. done. Qed.
(** An empty fake root path is never satisfied: every exec rebuilds the value. *)
Example empty_fakeroot_changes :
  alr_build_ld_preload (Some (str "/r/i.so")) (Some (str "/r/i.so")) (Some []) 64 = Some (str "/r/i.so", true).
Proof. vm_compute. done. Qed.

(** ** The environment filter looks at the key alone *)

Lemma split_env_key k v : ("="%byte ∉ k) → alr_split_env (k ++ "="%byte :: v) = (length k, v).
Proof.
  intros Hk. unfold alr_split_env. rewrite find_from_app_sep by done. f_equal.
  rewrite (cons_middle "="%byte), app_assoc, drop_app_length'; [done|].
  rewrite length_app. cbn. lia.
Qed.
Lemma is_prefix_app_long p k v : length p ≤ length k → is_prefix p (k ++ v) = is_prefix p k.
Proof.
  revert k. induction p as [|a p IH]; intros [|b k] H; cbn in *; [done..|lia|].
  f_equal. apply IH. lia.
Qed.
(** The verdict on [KEY=VALUE] is that on [KEY]. *)
Lemma env_blocked_key k v : ("="%byte ∉ k) →
  alr_env_is_blocked (k ++ "="%byte :: v) = alr_env_is_blocked k.
Proof.
  intros Hk. unfold alr_env_is_blocked. rewrite split_env_key by done.
  assert (alr_split_env k = (length k, [])) as ->.
  { unfold alr_split_env. destruct (find_from _ _) as [n|] eqn:E; [|done].
    apply find_from_Some in E as (r & Hr & _). destruct Hk. rewrite Hr. apply elem_of_app. right. left. }
  cbn [fst]. rewrite take_app_length, take_ge by done.
  assert (∀ p n, length p ≤ n →
    (n <=? length k) && is_prefix p (k ++ "="%byte :: v) = (n <=? length k) && is_prefix p k) as H.
  { intros p n Hp. destruct (Nat.leb_spec n (length k)); [|done]. cbn [andb].
    apply is_prefix_app_long. lia. }
  f_equal; [f_equal; [f_equal; [f_equal|]|]|];
    [apply (H _ 16)|apply (H _ 7)|apply (H _ 5)|apply (H _ 4)]; cbn; lia.
Qed.
Example guest_env :
  alr_env_is_blocked "ANDROID_SOCKET_zygote=9" = true ∧ alr_env_is_blocked "KNOX_STORAGE=/x" = true ∧
  alr_env_is_blocked "ANDROID_SOCKET_=9" = false ∧ alr_env_is_blocked "HOME=/root" = false ∧
  alr_env_is_blocked "PREFIXED=1" = false ∧ alr_env_is_blocked "SEC_=1" = true.
Proof. vm_compute. done. Qed.
