(* ===== verification/AlrElf.v ===== *)
(** * The ELF classifier of the C runtime: [runtime/alr/src/common/alr_elf.c]

    Decides how a file is executed: through the guest loader, directly, or as a script;
    finds its run path and whether the Go toolchain linked it.  The file is read with a
    callback, a parameter here.  Buffers are compared with the C strings they hold. *)

From S2P Require Import Prelude CppMap Bytes HostFs ElfPlan ExecPlan.

Local Open Scope Z_scope.

Definition ALR_SHEBANG_MAX : nat := 255.
Definition ALR_EM_AARCH64 : Z := 183.
Definition ALR_ET_EXEC : Z := 2.
Definition ALR_ET_DYN : Z := 3.
Definition ALR_PT_LOAD : Z := 1.
Definition ALR_PT_DYNAMIC : Z := 2.
Definition ALR_PT_INTERP : Z := 3.
Definition ALR_PT_NOTE : Z := 4.
Definition ALR_DT_NULL : Z := 0.
Definition ALR_DT_STRTAB : Z := 5.
Definition ALR_DT_RPATH : Z := 15.
Definition ALR_DT_RUNPATH : Z := 29.

Inductive alr_exe_kind := ALR_EXE_UNSUPPORTED | ALR_EXE_ELF_DYNAMIC | ALR_EXE_ELF_STATIC | ALR_EXE_SHEBANG.
#[export] Instance alr_exe_kind_eq : EqDecision alr_exe_kind.
Proof. solve_decision. Defined.

Record alr_shebang := mk_alr_shebang { interp : bytes; arg : bytes; has_arg : bool }.

(** [line[j] == '\n' || line[j] == '\0'] *)
Definition ends_line (c : byte) : bool := bool_decide (c = newline) || bool_decide (c = nul).

(** [line] holds the [len] bytes after "#!"; [None] is the return value 0. *)
Definition alr_parse_shebang (line : bytes) : option alr_shebang :=
  let line := take ALR_SHEBANG_MAX (take_until ends_line line) in
  let line := drop_while is_blank line in
  if bool_decide (line = []) then None
  else
    let word := take_until is_blank line in
    if bool_decide (word = []) then None
    else
      let line := drop_while is_blank (drop (length word) line) in
      if bool_decide (line = []) then Some (mk_alr_shebang word [] false)
      else
        let a := trim_end is_blank line in
        Some (mk_alr_shebang word a (negb (bool_decide (a = [])))).

(** ** Reading

    [pread off len] is the callback: exactly [len] bytes at [off], or failure. *)
Definition reader : Type := Z → nat → option bytes.
Definition phdr_at (pread : reader) (eh : Ehdr) (i : nat) : option Phdr :=
  Phdr_of <$> pread (u64 (e_phoff eh + Z.of_nat i * e_phentsize eh)) sizeof_Phdr.

(** The checks on the program header table that every walk starts with. *)
Definition table_ok (eh : Ehdr) : bool :=
  (e_phentsize eh =? Z.of_nat sizeof_Phdr) && negb (e_phnum eh =? 0) && (e_phnum eh <=? 512).

(** [find_interp]: [None] is the return value 0; [Some None] leaves [found] at 0.  [i] is
    the header looked at and [n] the number of headers left. *)
Fixpoint find_interp_loop (pread : reader) (eh : Ehdr) (outsz : Z) (n i : nat) : option (option bytes) :=
  match n with
  | 0%nat => Some None
  | S n =>
      match phdr_at pread eh i with
      | None => None
      | Some ph =>
          if negb (p_type ph =? ALR_PT_INTERP) then find_interp_loop pread eh outsz n (S i)
          else if (p_filesz ph =? 0) || (outsz <? p_filesz ph) then None
          else match pread (p_offset ph) (Z.to_nat (p_filesz ph)) with
               | None => None
               | Some out => Some (Some (<[Z.to_nat (p_filesz ph - 1) := nul]> out))
               end
      end
  end.
Definition find_interp (pread : reader) (eh : Ehdr) (outsz : Z) : option (option bytes) :=
  if negb (table_ok eh) then None
  else find_interp_loop pread eh outsz (Z.to_nat (e_phnum eh)) 0.

Definition alr_supported (eh : Ehdr) : bool :=
  (field 4 1 (e_ident eh) =? 2) && (field 5 1 (e_ident eh) =? 1) && (e_machine eh =? ALR_EM_AARCH64) &&
  ((e_type eh =? ALR_ET_EXEC) || (e_type eh =? ALR_ET_DYN)).

(** What [alr_classify] leaves: the kind, the shebang it filled, the interpreter buffer.
    [want_sb] is [sb != NULL]; [out] is the size of the interpreter buffer, [None] for a
    NULL one. *)
Record classified := mk_classified { kind : alr_exe_kind; shebang : option alr_shebang; interp_out : bytes }.
Definition only (k : alr_exe_kind) : classified := mk_classified k None [].

Definition alr_classify (head : bytes) (pread : option reader) (want_sb : bool) (out : option Z) : classified :=
  if is_prefix "#!" head then
    if negb want_sb then only ALR_EXE_UNSUPPORTED
    else match alr_parse_shebang (drop 2 head) with
         | None => only ALR_EXE_UNSUPPORTED
         | Some sb => mk_classified ALR_EXE_SHEBANG (Some sb) []
         end
  else if (length head <? sizeof_Ehdr)%nat then only ALR_EXE_UNSUPPORTED
  else if negb (is_prefix ELFMAG head) then only ALR_EXE_UNSUPPORTED
  else
    let eh := Ehdr_of head in
    if negb (alr_supported eh) then only ALR_EXE_UNSUPPORTED
    else match pread, out with
         | Some pread, Some outsz =>
             if outsz =? 0 then only ALR_EXE_ELF_STATIC
             else match find_interp pread eh outsz with
                  | Some (Some s) => mk_classified ALR_EXE_ELF_DYNAMIC None s
                  | _ => only ALR_EXE_ELF_STATIC
                  end
         | _, _ => only ALR_EXE_ELF_STATIC
         end.

(** ** The run path *)

Definition MAX_LOADS : nat := 16.
(** The program header loop: the first 16 PT_LOADs in order and the last PT_DYNAMIC. *)
Fixpoint scan_loads (pread : reader) (eh : Ehdr) (n i : nat) (loads : list Phdr) (dyn : Z * Z)
    : option (list Phdr * (Z * Z)) :=
  match n with
  | 0%nat => Some (loads, dyn)
  | S n =>
      match phdr_at pread eh i with
      | None => None
      | Some ph =>
          if (p_type ph =? ALR_PT_LOAD) && (length loads <? MAX_LOADS)%nat
          then scan_loads pread eh n (S i) (loads ++ [ph]) dyn
          else if p_type ph =? ALR_PT_DYNAMIC
          then scan_loads pread eh n (S i) loads (p_offset ph, p_filesz ph)
          else scan_loads pread eh n (S i) loads dyn
      end
  end.

Record dyn_info := mk_dyn { strtab_va : Z; rpath_off : option Z; runpath_off : option Z }.
Definition sizeof_Dyn : nat := 16.
Definition dyn_step (d : dyn_info) (tag val : Z) : dyn_info :=
  if tag =? ALR_DT_STRTAB then mk_dyn val (rpath_off d) (runpath_off d)
  else if tag =? ALR_DT_RPATH then mk_dyn (strtab_va d) (Some val) (runpath_off d)
  else if tag =? ALR_DT_RUNPATH then mk_dyn (strtab_va d) (rpath_off d) (Some val)
  else d.
(** The dynamic section: [n] whole entries left, the next at [dyn_off + k]. *)
Fixpoint scan_dyn (pread : reader) (dyn_off : Z) (n : nat) (k : Z) (d : dyn_info) : option dyn_info :=
  match n with
  | 0%nat => Some d
  | S n =>
      match pread (u64 (dyn_off + k)) sizeof_Dyn with
      | None => None
      | Some e =>
          let tag := field 0 8 e in let val := field 8 8 e in
          if tag =? ALR_DT_NULL then Some d
          else scan_dyn pread dyn_off n (k + 16)
            (dyn_step d tag val)
      end
  end.

(** The first load that holds [va], and where [va] lies in the file. *)
Fixpoint file_offset (loads : list Phdr) (va : Z) : option Z :=
  match loads with
  | [] => None
  | l :: loads =>
      if (p_vaddr l <=? va) && (va <? u64 (p_vaddr l + p_filesz l))
      then Some (u64 (p_offset l + (va - p_vaddr l)))
      else file_offset loads va
  end.

(** The bytes up to a NUL, at most [n] of them, one read each. *)
Fixpoint read_c_str (pread : reader) (n : nat) (off : Z) : option bytes :=
  match n with
  | 0%nat => Some []
  | S n =>
      match pread (u64 off) 1%nat with
      | Some (c :: _) => if bool_decide (c = nul) then Some [] else cons c <$> read_c_str pread n (off + 1)
      | _ => None
      end
  end.

(** [Some s]: the return value 1, with the string [s] in the buffer of [outsz] bytes. *)
Definition alr_rpath (pread : option reader) (head : bytes) (outsz : nat) : option bytes :=
  if (outsz =? 0)%nat then None
  else match pread with
  | None => None
  | Some pread =>
      if (length head <? sizeof_Ehdr)%nat || negb (is_prefix ELFMAG head) then None
      else
        let eh := Ehdr_of head in
        if negb (field 4 1 (e_ident eh) =? 2) || negb (table_ok eh) then None
        else
          '(loads, (dyn_off, dyn_sz)) ← scan_loads pread eh (Z.to_nat (e_phnum eh)) 0 [] (0, 0);
          if dyn_sz =? 0 then Some []
          else if 2 ^ 20 <? dyn_sz then None
          else
            d ← scan_dyn pread dyn_off (Z.to_nat (dyn_sz / 16)) 0 (mk_dyn 0 None None);
            match (match runpath_off d with Some r => Some r | None => rpath_off d end) with
            | None => Some []
            | Some want =>
                if strtab_va d =? 0 then Some []
                else str_file_off ← file_offset loads (strtab_va d);
                     read_c_str pread (outsz - 1) (str_file_off + want)
            end
  end.

(** ** Go *)

Definition NOTE_BUF : Z := 512.
(** [((x + 3u) & ~3u)] *)
Definition align4 (x : Z) : Z := Z.land (u32 (x + 3)) (2 ^ 32 - 4).
Definition note_step (namesz descsz : Z) : Z := u32 (12 + align4 namesz + align4 descsz).
Definition is_go_note (buf : bytes) (o : nat) : bool :=
  let namesz := field o 4 buf in
  ((namesz =? 3) || (namesz =? 4)) && (Z.of_nat o + 12 + namesz <=? Z.of_nat (length buf)) &&
  bool_decide (take 3 (drop (o + 12) buf) = str "Go" ++ [nul]).
Definition note_next (buf : bytes) (o : nat) : nat :=
  (o + Z.to_nat (note_step (field o 4 buf) (field (o + 4) 4 buf)))%nat.

(** The walk over the notes of one segment; [None] when the fuel ends. *)
Fixpoint note_loop (fuel : nat) (buf : bytes) (o : nat) : option bool :=
  match fuel with
  | 0%nat => None
  | S fuel =>
      if (length buf <? o + 12)%nat then Some false
      else if is_go_note buf o then Some true
      else note_loop fuel buf (note_next buf o)
  end.

(** The segments a walk looks at: [None] skips this one. *)
Definition note_buf (pread : reader) (ph : Phdr) : option bytes :=
  if negb (p_type ph =? ALR_PT_NOTE) || (p_filesz ph <? 12) then None
  else pread (p_offset ph) (Z.to_nat (Z.min (p_filesz ph) NOTE_BUF)).

Fixpoint go_loop (fuel : nat) (pread : reader) (eh : Ehdr) (n i : nat) : option bool :=
  match n with
  | 0%nat => Some false
  | S n =>
      match phdr_at pread eh i with
      | None => Some false
      | Some ph =>
          match note_buf pread ph with
          | None => go_loop fuel pread eh n (S i)
          | Some buf =>
              match note_loop fuel buf 0 with
              | Some false => go_loop fuel pread eh n (S i)
              | r => r
              end
          end
      end
  end.

Definition alr_elf_is_go (fuel : nat) (head : bytes) (pread : option reader) : option bool :=
  match pread with
  | None => Some false
  | Some pread =>
      if (length head <? sizeof_Ehdr)%nat || negb (is_prefix ELFMAG head) then Some false
      else
        let eh := Ehdr_of head in
        if negb (field 4 1 (e_ident eh) =? 2) || negb (table_ok eh) then Some false
        else go_loop fuel pread eh (Z.to_nat (e_phnum eh)) 0
  end.

(** * The shebang parser against the one of the launcher *)

Lemma take_until_prefix f s : take_until f s `prefix_of` s.
Proof.
  induction s as [|c s IH]; cbn [take_until]; [done|].
  destruct (f c); [apply prefix_nil|by apply prefix_cons].
Qed.
Lemma take_until_ext f g s : (∀ c, c ∈ s → f c = g c) → take_until f s = take_until g s.
Proof.
  induction s as [|c s IH]; intros H; [done|]. cbn [take_until].
  rewrite (H c), IH; [done|intros; apply H; by right|by left].
Qed.
Lemma take_until_all f s : Forall (λ c, f c = false) (take_until f s).
Proof. induction s as [|c s IH]; cbn [take_until]; [done|]. destruct (f c) eqn:?; by constructor. Qed.

Lemma drop_while_head f s c r : drop_while f s = c :: r → f c = false.
Proof.
  induction s as [|b s IH]; cbn [drop_while]; [done|].
  destruct (f b) eqn:?; [done|]. by intros [= <- _].
Qed.
(** A string is its trimmed part and a tail to trim. *)
Lemma trim_end_split f s :
  ∃ tl, s = trim_end f s ++ tl ∧ Forall (λ c, f c = true) tl ∧
    (∀ c r, trim_end f s = r ++ [c] → f c = false).
Proof.
  unfold trim_end. generalize (reverse_involutive s). generalize (reverse s). intros u <-.
  induction u as [|c u IH]; cbn [drop_while].
  - exists []. split_and!; [done|done|]. intros c r. rewrite reverse_nil. by destruct r.
  - destruct (f c) eqn:Hc.
    + destruct IH as (tl & E & Ht & Hl). exists (tl ++ [c]). split_and!; [|by apply Forall_app_2; [|repeat constructor]|done].
      rewrite reverse_cons, E at 1. by rewrite (assoc_L (++)).
    + exists []. split_and!; [by rewrite app_nil_r|done|]. intros d r.
      rewrite reverse_cons. intros [_ [= <-]]%app_inj_2; done.
Qed.

(** A word and what follows it. *)
Lemma take_until_split f s :
  ∃ r, s = take_until f s ++ r ∧ (r = [] ∨ ∃ c r', r = c :: r' ∧ f c = true).
Proof.
  induction s as [|c s (r & E & H)]; cbn [take_until]; [by exists []; eauto|].
  destruct (f c) eqn:Hc; [exists (c :: s); eauto 6|]. exists r. cbn [app]. by rewrite <- E.
Qed.

Lemma drop_while_keeps f s t : drop_while f s ≠ [] → drop_while f (s ++ t) = drop_while f s ++ t.
Proof.
  induction s as [|c s IH]; cbn [drop_while app]; [done|]. destruct (f c); [apply IH|done].
Qed.

(** The rest of a trimmed string is not blank to the end. *)
Lemma drop_while_trimmed f s p r :
  (∀ c q, s = q ++ [c] → f c = false) → s = p ++ r → r ≠ [] → drop_while f r ≠ [].
Proof.
  intros Hl -> Hr E. destruct (drop_while_suffix f r) as (q & Eq & Hq). rewrite E, app_nil_r in Eq.
  destruct (exists_last Hr) as (r' & c & ->). subst q. apply Forall_app in Hq as [_ Hq].
  inversion_clear Hq. specialize (Hl c (p ++ r')). rewrite (assoc_L (++)) in Hl. by rewrite Hl in H.
Qed.

(** On lines of at most 255 bytes without NUL and carriage return the parser of the C
    runtime and the one of the launcher find the same interpreter and argument. *)
Lemma shebang_agrees (s : bytes) :
  nul ∉ s → Byte.x0d ∉ s → (length (take_until is_eol (drop 2 s)) ≤ 255)%nat →
  alr_parse_shebang (drop 2 s) =
    (let sb := parse_shebang s in
     if bool_decide (sb_interpreter sb = []) then None
     else Some (mk_alr_shebang (sb_interpreter sb) (sb_argument sb) (negb (bool_decide (sb_argument sb = []))))).
Proof.
  intros Hn Hr Hlen. unfold alr_parse_shebang, parse_shebang. cbv zeta.
  rewrite (take_until_ext ends_line is_eol), (take_ge _ ALR_SHEBANG_MAX) by
    (try done; intros c Hc; unfold ends_line, is_eol; f_equal; apply bool_decide_ext;
     assert (c ∈ s) by (rewrite <- (take_drop 2 s); set_solver); split; intros ->; done).
  generalize (take_until is_eol (drop 2 s)). intros l. clear.
  pose proof (drop_while_head is_blank l) as Hh. revert Hh. generalize (drop_while is_blank l). intros l1 Hh.
  destruct (trim_end_split is_blank l1) as (tl & E & Htl & Hlast). revert E Hlast.
  generalize (trim_end is_blank l1). intros T -> Hlast.
  destruct (take_until_split is_blank T) as (R & HT & HR). revert HT. pose proof (take_until_all is_blank T) as HW.
  revert HW. destruct (decide (T = [])) as [->|HTne].
  { intros _ _. cbn. destruct tl as [|c tl]; [done|]. exfalso. pose proof (Hh c tl eq_refl) as Hc.
    inversion_clear Htl. by rewrite Hc in H. }
  intros HW HT. assert (Hw : take_until is_blank (T ++ tl) = take_until is_blank T).
  { rewrite HT at 1. rewrite <- (assoc_L (++)). apply take_until_app; [done|].
    destruct HR as [->|(c & r' & -> & Hc)]; [|right; by eexists _, _].
    destruct Htl as [|c tl' Hc _]; [by left|right; by eexists _, _]. }
  assert (HWne : take_until is_blank T ≠ []).
  { destruct T as [|c T]; [done|]. cbn [take_until]. by rewrite (Hh c (T ++ tl) eq_refl). }
  rewrite Hw. remember (take_until is_blank T) as W eqn:EW. clear EW Hw Hh HTne. subst T.
  assert (W ++ R ≠ []) by (by destruct W). assert ((W ++ R) ++ tl ≠ []) by (by destruct W).
  rewrite !(bool_decide_false (_ = [])) by done. rewrite <- (assoc_L (++)), !drop_app_length.
  destruct HR as [->|(c & r' & -> & Hc)].
  - cbn [app]. rewrite <- (app_nil_r tl), drop_while_app by done. cbn [drop_while].
    rewrite !app_nil_r, decide_True by done. cbn. by rewrite bool_decide_false by done.
  - pose proof (drop_while_trimmed is_blank (W ++ c :: r') W (c :: r') Hlast eq_refl ltac:(done)) as Hne.
    rewrite decide_False by (rewrite length_app; simpl; lia). cbn [sb_interpreter sb_argument].
    rewrite (bool_decide_false (W = [])) by done.
    rewrite drop_while_keeps by done. rewrite bool_decide_false by (by destruct (drop_while _ (c :: r'))).
    rewrite trim_end_app; [done|done|]. intros d q E.
    destruct (drop_while_suffix is_blank (c :: r')) as (u & Eu & _). rewrite E in Eu.
    apply (Hlast d (W ++ u ++ q)). rewrite Eu. by rewrite <- !(assoc_L (++)).
Qed.

(** * Classification *)

(** The first PT_INTERP is header [i], it fits the buffer and can be read. *)
Definition has_interp (pread : reader) (eh : Ehdr) (outsz : Z) (s : bytes) : Prop :=
  ∃ i ph, (i < Z.to_nat (e_phnum eh))%nat ∧ phdr_at pread eh i = Some ph ∧ p_type ph = ALR_PT_INTERP ∧
    (∀ j, (j < i)%nat → ∃ q, phdr_at pread eh j = Some q ∧ p_type q ≠ ALR_PT_INTERP) ∧
    0 < p_filesz ph ≤ outsz ∧ pread (p_offset ph) (Z.to_nat (p_filesz ph)) = Some s.

Lemma phdr_filesz_nonneg pread eh i ph : phdr_at pread eh i = Some ph → 0 ≤ p_filesz ph.
Proof.
  unfold phdr_at. intros (b & _ & ->)%fmap_Some. cbn. pose proof (field_range 32 8 b). lia.
Qed.

(** The part of the table from header [i]. *)
Lemma find_interp_loop_spec pread eh outsz n i s' :
  find_interp_loop pread eh outsz n i = Some (Some s') ↔
  ∃ k ph s, (i ≤ k < i + n)%nat ∧ phdr_at pread eh k = Some ph ∧ p_type ph = ALR_PT_INTERP ∧
    (∀ j, (i ≤ j < k)%nat → ∃ q, phdr_at pread eh j = Some q ∧ p_type q ≠ ALR_PT_INTERP) ∧
    0 < p_filesz ph ≤ outsz ∧ pread (p_offset ph) (Z.to_nat (p_filesz ph)) = Some s ∧
    s' = <[Z.to_nat (p_filesz ph - 1) := nul]> s.
Proof.
  revert i. induction n as [|n IH]; intros i; cbn [find_interp_loop].
  { split; [done|]. intros (k & ? & ? & ? & _). lia. }
  destruct (phdr_at pread eh i) as [ph|] eqn:Hp.
  2:{ split; [done|]. intros (k & ph & s & Hk & Hph & _ & Hall & _).
      destruct (decide (k = i)) as [->|]; [congruence|]. destruct (Hall i) as (q & ? & _); [lia|congruence]. }
  pose proof (phdr_filesz_nonneg _ _ _ _ Hp) as Hsz.
  destruct (p_type ph =? ALR_PT_INTERP) eqn:Ht; cbn [negb].
  - apply Z.eqb_eq in Ht.
    assert (Hi : ∀ k q, (i ≤ k < i + S n)%nat → phdr_at pread eh k = Some q →
      (∀ j, (i ≤ j < k)%nat → ∃ q, phdr_at pread eh j = Some q ∧ p_type q ≠ ALR_PT_INTERP) → k = i ∧ q = ph).
    { intros k q Hk Hq Hall. destruct (decide (k = i)) as [->|]; [split; congruence|].
      destruct (Hall i) as (q' & ? & ?); [lia|]. congruence. }
    destruct ((p_filesz ph =? 0) || (outsz <? p_filesz ph)) eqn:Hb.
    + split; [done|]. intros (k & q & s & Hk & Hq & _ & Hall & ? & _).
      destruct (Hi k q Hk Hq Hall) as [-> ->]. lia.
    + split.
      * destruct (pread _ _) as [s|] eqn:Hs; [|done]. intros [= <-]. exists i, ph, s.
        split_and!; try done; try lia.
      * intros (k & q & s & Hk & Hq & _ & Hall & ? & Hs & ->).
        destruct (Hi k q Hk Hq Hall) as [-> ->]. by rewrite Hs.
  - apply Z.eqb_neq in Ht. rewrite IH. split.
    + intros (k & q & s & Hk & Hq & Htq & Hall & Hrest). exists k, q, s. split_and!; try done; try lia; try apply Hrest.
      intros j Hj. destruct (decide (j = i)) as [->|]; [eauto|apply Hall; lia].
    + intros (k & q & s & Hk & Hq & Htq & Hall & Hrest). exists k, q, s.
      assert (k ≠ i) by (intros ->; congruence).
      split_and!; try done; try lia; try apply Hrest. intros j Hj. apply Hall; lia.
Qed.

(** The contract of the callback: what it reads is as long as it was asked for. *)
Definition pread_exact (pread : reader) : Prop := ∀ off n b, pread off n = Some b → length b = n.

Lemma find_interp_exact pread eh outsz s' : pread_exact pread →
  find_interp pread eh outsz = Some (Some s') ↔
  table_ok eh = true ∧ ∃ s, has_interp pread eh outsz s ∧ s' = <[(length s - 1)%nat := nul]> s.
Proof.
  intros Hx. unfold find_interp. destruct (table_ok eh); cbn [negb]; [|naive_solver].
  rewrite find_interp_loop_spec. split.
  - intros (k & ph & s & ? & ? & ? & Hall & ? & Hs & ->). split; [done|]. exists s. split.
    + exists k, ph. split_and!; try done; try lia. intros j Hj. apply Hall; lia.
    + rewrite (Hx _ _ _ Hs). f_equal. lia.
  - intros (_ & s & (k & ph & ? & ? & ? & Hall & ? & Hs) & ->). exists k, ph, s.
    split_and!; try done; try lia; [|rewrite (Hx _ _ _ Hs); f_equal; lia]. intros j Hj. apply Hall; lia.
Qed.

Lemma has_interp_unique pread eh outsz s s' :
  has_interp pread eh outsz s → has_interp pread eh outsz s' → s = s'.
Proof.
  intros (i & ph & _ & Hp & Ht & Hall & _ & Hs) (j & ph' & _ & Hp' & Ht' & Hall' & _ & Hs').
  assert (i = j) as ->; [|congruence]. destruct (decide (i = j)) as [|Hne]; [done|]. exfalso.
  destruct (decide (i < j)%nat).
  - destruct (Hall' i) as (q & ? & ?); [lia|]. congruence.
  - destruct (Hall j) as (q & ? & ?); [lia|]. congruence.
Qed.

Lemma c_str_nul r : c_str (r ++ [nul]) = c_str r.
Proof.
  unfold c_str. destruct (find_from nul r) as [k|] eqn:E.
  - assert (Hk : find_from nul (r ++ [nul]) = Some k); [|rewrite Hk].
    + apply find_from_Some in E as (q & Eq & Hq & _ & Hk). rewrite Eq, <- (assoc_L (++)). cbn [app].
      rewrite find_from_app_sep, length_take, Nat.min_l by (done || lia). done.
    + apply find_from_Some in E as (_ & _ & _ & _ & Hlt). by rewrite take_app_le by lia.
  - apply find_from_None in E. rewrite find_from_app_sep by done. apply take_app_length.
Qed.
Lemma c_str_cut s : s ≠ [] → c_str (<[(length s - 1)%nat := nul]> s) = c_str (take (length s - 1) s).
Proof.
  intros Hs. destruct (exists_last Hs) as (r & x & ->).
  rewrite length_app, Nat.add_sub. rewrite take_app_length.
  replace (length r) with (length r + 0)%nat by lia. rewrite insert_app_r. cbn. apply c_str_nul.
Qed.

(** A file the runtime can execute as machine code. *)
Definition native (head : bytes) : Prop :=
  (sizeof_Ehdr ≤ length head)%nat ∧ is_prefix ELFMAG head = true ∧ alr_supported (Ehdr_of head) = true.
Definition dynamic (pread : reader) (head : bytes) (outsz : Z) (s : bytes) : Prop :=
  table_ok (Ehdr_of head) = true ∧ has_interp pread (Ehdr_of head) outsz s.

(** The classification is exact: a script is a file with "#!" and an interpreter; of
    the ELF files for this machine the dynamic ones are those whose first PT_INTERP is
    readable and fits the buffer, which then holds its string; all others are static. *)
Theorem classify_exact (head : bytes) (pread : reader) (sb : bool) (outsz : Z) :
  0 < outsz → pread_exact pread →
  let r := alr_classify head (Some pread) sb (Some outsz) in
  (kind r = ALR_EXE_SHEBANG ↔
     is_prefix "#!" head = true ∧ sb = true ∧ is_Some (alr_parse_shebang (drop 2 head))) ∧
  (kind r = ALR_EXE_SHEBANG → shebang r = alr_parse_shebang (drop 2 head)) ∧
  (kind r = ALR_EXE_ELF_DYNAMIC ↔ native head ∧ ∃ s, dynamic pread head outsz s) ∧
  (kind r = ALR_EXE_ELF_STATIC ↔ native head ∧ ¬ ∃ s, dynamic pread head outsz s) ∧
  (∀ s, native head → dynamic pread head outsz s → c_str (interp_out r) = c_str (take (length s - 1) s)).
Proof.
  intros Hout Hx r. subst r. unfold alr_classify.
  destruct (is_prefix "#!" head) eqn:Hsb.
  { assert (Hn : ¬ native head).
    { intros (_ & Hm & _). apply is_prefix_spec in Hsb as [u ->], Hm as [v Hv]. done. }
    destruct sb; cbn [negb]; [|cbn; naive_solver].
    destruct (alr_parse_shebang (drop 2 head)) eqn:?; cbn; naive_solver. }
  destruct (length head <? sizeof_Ehdr)%nat eqn:Hl; [apply Nat.ltb_lt in Hl; unfold native; cbn; split_and!; intros; try naive_solver lia|].
  apply Nat.ltb_ge in Hl. unfold native.
  destruct (is_prefix ELFMAG head) eqn:Hm; cbn [negb]; [|cbn; naive_solver].
  destruct (alr_supported (Ehdr_of head)) eqn:Ha; cbn [negb]; [|cbn; naive_solver].
  rewrite (proj2 (Z.eqb_neq _ _)) by lia.
  destruct (find_interp pread (Ehdr_of head) outsz) as [[s|]|] eqn:Hf.
  2,3: assert (¬ ∃ s, dynamic pread head outsz s) by
    (intros (s & Ht & Hs); pose proof (proj2 (find_interp_exact pread (Ehdr_of head) outsz _ Hx)
       (conj Ht (ex_intro _ s (conj Hs eq_refl)))); congruence); cbn; naive_solver.
  apply find_interp_exact in Hf as (Ht & s0 & Hs & ->); [|done]. cbn.
  assert (Hd : dynamic pread head outsz s0) by done.
  split_and!; try naive_solver. intros s _ (_ & Hs').
  rewrite (has_interp_unique _ _ _ _ _ Hs' Hs). apply c_str_cut.
  destruct Hs as (i & ph & _ & _ & _ & _ & Hsz & Hr). apply Hx in Hr. intros ->. cbn in Hr. lia.
Qed.

(** * The run path of an image *)

Section image.
Context (pread : reader).

(** The program headers are [phs]. *)
Definition has_phdrs (eh : Ehdr) (phs : list Phdr) : Prop :=
  length phs = Z.to_nat (e_phnum eh) ∧ ∀ i ph, phs !! i = Some ph → phdr_at pread eh i = Some ph.
Definition is_load (ph : Phdr) : Prop := p_type ph = ALR_PT_LOAD.
Definition is_dynamic (ph : Phdr) : Prop := p_type ph = ALR_PT_DYNAMIC.
#[export] Instance is_load_dec ph : Decision (is_load ph).
Proof. unfold is_load. apply _. Defined.
#[export] Instance is_dynamic_dec ph : Decision (is_dynamic ph).
Proof. unfold is_dynamic. apply _. Defined.

(** The dynamic entries before the null one are [ds]; the section may end without one. *)
Definition has_entry (off : Z) (k : nat) (d : Z * Z) : Prop :=
  ∃ e, pread (u64 (off + 16 * Z.of_nat k)) sizeof_Dyn = Some e ∧ field 0 8 e = fst d ∧ field 8 8 e = snd d.
Definition has_dynamic (off sz : Z) (ds : list (Z * Z)) : Prop :=
  (∀ k d, ds !! k = Some d → has_entry off k d ∧ fst d ≠ ALR_DT_NULL) ∧
  (Z.of_nat (length ds) = sz / 16 ∨
   Z.of_nat (length ds) < sz / 16 ∧ ∃ v, has_entry off (length ds) (ALR_DT_NULL, v)).
(** The last entry with a tag counts. *)
Definition last_tag (tag : Z) (ds : list (Z * Z)) : option Z := last (snd <$> filter (λ d, fst d = tag) ds).

(** [s] is the C string at [off]. *)
Definition has_str (off : Z) (s : bytes) : Prop :=
  (∀ k c, s !! k = Some c → pread (u64 (off + Z.of_nat k)) 1%nat = Some [c] ∧ c ≠ nul) ∧
  pread (u64 (off + Z.of_nat (length s))) 1%nat = Some [nul].

Definition holds_addr (va : Z) (l : Phdr) : Prop := p_vaddr l ≤ va < u64 (p_vaddr l + p_filesz l).

Lemma scan_loads_spec eh l i loads dyn :
  (∀ k ph, l !! k = Some ph → phdr_at pread eh (i + k) = Some ph) → (length loads ≤ MAX_LOADS)%nat →
  scan_loads pread eh (length l) i loads dyn =
    Some (take MAX_LOADS (loads ++ filter is_load l),
          default dyn (last ((λ ph, (p_offset ph, p_filesz ph)) <$> filter is_dynamic l))).
Proof.
  revert i loads dyn. induction l as [|ph l IH]; intros i loads dyn Hl Hn; cbn [length scan_loads].
  { by rewrite filter_nil, app_nil_r, take_ge. }
  pose proof (Hl 0%nat ph eq_refl) as Hp. rewrite Nat.add_0_r in Hp. rewrite Hp.
  assert (Hl' : ∀ k q, l !! k = Some q → phdr_at pread eh (S i + k) = Some q).
  { intros k q Hk. rewrite <- (Hl (S k) q Hk). f_equal. lia. }
  rewrite !filter_cons.
  destruct (p_type ph =? ALR_PT_LOAD) eqn:Ht; cbn [andb].
  - apply Z.eqb_eq in Ht. rewrite decide_True, decide_False by (done || unfold is_dynamic; rewrite Ht; done).
    destruct (length loads <? MAX_LOADS)%nat eqn:Hb.
    + apply Nat.ltb_lt in Hb. rewrite IH by (done || rewrite length_app; simpl; lia).
      by rewrite <- (assoc_L (++)).
    + apply Nat.ltb_ge in Hb. rewrite Ht. change (ALR_PT_LOAD =? ALR_PT_DYNAMIC) with false. cbv iota. rewrite IH by done.
      by rewrite !take_app_le by lia.
  - apply Z.eqb_neq in Ht. rewrite (decide_False (P := is_load ph)) by done.
    destruct (p_type ph =? ALR_PT_DYNAMIC) eqn:Hd.
    + apply Z.eqb_eq in Hd. rewrite decide_True, IH by done. f_equal. f_equal. cbn [fmap list_fmap].
      rewrite last_cons. by destruct (last _).
    + apply Z.eqb_neq in Hd. by rewrite decide_False, IH by done.
Qed.

Lemma last_tag_cons tag d ds :
  last_tag tag (d :: ds) = if decide (fst d = tag) then Some (default (snd d) (last_tag tag ds)) else last_tag tag ds.
Proof.
  unfold last_tag. rewrite filter_cons. destruct (decide _); [|done].
  cbn [fmap list_fmap]. rewrite last_cons. by destruct (last _).
Qed.

Definition or_else {A} (a b : option A) : option A := match a with Some _ => a | None => b end.

Lemma or_else_None {A} (a : option A) : or_else a None = a.
Proof. by destruct a. Qed.
Lemma dyn_step_cons d e ds :
  mk_dyn (default (strtab_va (dyn_step d (fst e) (snd e))) (last_tag ALR_DT_STRTAB ds))
    (or_else (last_tag ALR_DT_RPATH ds) (rpath_off (dyn_step d (fst e) (snd e))))
    (or_else (last_tag ALR_DT_RUNPATH ds) (runpath_off (dyn_step d (fst e) (snd e)))) =
  mk_dyn (default (strtab_va d) (last_tag ALR_DT_STRTAB (e :: ds)))
    (or_else (last_tag ALR_DT_RPATH (e :: ds)) (rpath_off d))
    (or_else (last_tag ALR_DT_RUNPATH (e :: ds)) (runpath_off d)).
Proof.
  rewrite !last_tag_cons. destruct e as [tag val]; cbn [fst snd]. unfold dyn_step.
  destruct (Z.eqb_spec tag ALR_DT_STRTAB) as [->|]; [|destruct (Z.eqb_spec tag ALR_DT_RPATH) as [->|];
    [|destruct (Z.eqb_spec tag ALR_DT_RUNPATH) as [->|]]];
    repeat case_decide; try done; cbn; f_equal; by destruct (last_tag _ ds).
Qed.

Lemma scan_dyn_spec off n j ds d :
  (∀ k e, ds !! k = Some e → has_entry off (j + k) e ∧ fst e ≠ ALR_DT_NULL) →
  (n = length ds ∨ (length ds < n)%nat ∧ ∃ v, has_entry off (j + length ds) (ALR_DT_NULL, v)) →
  scan_dyn pread off n (16 * Z.of_nat j) d =
    Some (mk_dyn (default (strtab_va d) (last_tag ALR_DT_STRTAB ds))
                 (or_else (last_tag ALR_DT_RPATH ds) (rpath_off d))
                 (or_else (last_tag ALR_DT_RUNPATH ds) (runpath_off d))).
Proof.
  revert n j d. induction ds as [|e ds IH]; intros n j d Hds Hn.
  - assert (Hd : Some d = Some (mk_dyn (strtab_va d) (rpath_off d) (runpath_off d))) by (by destruct d).
    destruct Hn as [->|(Hn & v & b & Hr & Ht & _)]; [exact Hd|].
    destruct n as [|n]; [simpl in Hn; lia|]. cbn [scan_dyn].
    rewrite Nat.add_0_r in Hr. rewrite Hr. cbv zeta. by rewrite Ht.
  - destruct n as [|n]; [exfalso; destruct Hn as [?|[? _]]; simpl in *; lia|]. cbn [scan_dyn].
    destruct (Hds 0%nat e eq_refl) as [(b & Hr & Ht & Hv) Hne]. rewrite Nat.add_0_r in Hr. rewrite Hr.
    cbv zeta. rewrite Ht, Hv, (proj2 (Z.eqb_neq _ _) Hne).
    replace (16 * Z.of_nat j + 16) with (16 * Z.of_nat (S j)) by lia. rewrite (IH n (S j)).
    + f_equal. apply dyn_step_cons.
    + intros k q Hk. replace (S j + k)%nat with (j + S k)%nat by lia. by apply Hds.
    + replace (S j + length ds)%nat with (j + S (length ds))%nat by lia.
      destruct Hn as [Hn|[Hn ?]]; simpl in Hn; [left|right]; [lia|split; [lia|done]].
Qed.

Lemma file_offset_spec l1 l l2 va :
  Forall (λ l, ¬ holds_addr va l) l1 → holds_addr va l →
  file_offset (l1 ++ l :: l2) va = Some (u64 (p_offset l + (va - p_vaddr l))).
Proof.
  intros H1 Hl. induction H1 as [|q l1 Hq _ IH]; cbn [app file_offset].
  - unfold holds_addr in Hl. by rewrite (proj2 (Z.leb_le _ _)), (proj2 (Z.ltb_lt _ _)) by lia.
  - destruct (_ && _) eqn:E; [|done]. destruct Hq. unfold holds_addr. lia.
Qed.

Lemma read_c_str_spec n off s : has_str off s → read_c_str pread n off = Some (take n s).
Proof.
  revert off s. induction n as [|n IH]; intros off s [Hs Hn]; cbn [read_c_str]; [done|].
  destruct s as [|c s].
  - rewrite Z.add_0_r in Hn. by rewrite Hn.
  - destruct (Hs 0%nat c eq_refl) as [Hc Hne]. rewrite Z.add_0_r in Hc. rewrite Hc, bool_decide_false by done.
    rewrite (IH (off + 1) s); [done|]. split.
    + intros k q Hk. replace (off + 1 + Z.of_nat k) with (off + Z.of_nat (S k)) by lia. by apply Hs.
    + rewrite <- Hn. f_equal. f_equal. simpl. lia.
Qed.

End image.

(** What the dynamic section asks for: DT_RUNPATH, or DT_RPATH without one. *)
Definition wanted (ds : list (Z * Z)) : option Z :=
  or_else (last_tag ALR_DT_RUNPATH ds) (last_tag ALR_DT_RPATH ds).

(** An ELF image whose headers can be walked. *)
Definition image (pread : reader) (head : bytes) (phs : list Phdr) : Prop :=
  (sizeof_Ehdr ≤ length head)%nat ∧ is_prefix ELFMAG head = true ∧ field 4 1 (e_ident (Ehdr_of head)) = 2 ∧
  table_ok (Ehdr_of head) = true ∧ has_phdrs pread (Ehdr_of head) phs.

(** The run path of an image is the string DT_RUNPATH names, or DT_RPATH when there is
    no DT_RUNPATH, in the string table found through the first of the first 16 load
    segments that holds its address, cut to the buffer; without either it is empty. *)
Theorem rpath_found (pread : reader) (head : bytes) (phs : list Phdr) (outsz : nat) (off sz : Z) (ds : list (Z * Z)) :
  image pread head phs → (0 < outsz)%nat →
  last ((λ ph, (p_offset ph, p_filesz ph)) <$> filter is_dynamic phs) = Some (off, sz) →
  0 < sz ≤ 2 ^ 20 → has_dynamic pread off sz ds →
  (wanted ds = None → alr_rpath (Some pread) head outsz = Some []) ∧
  (∀ va w l1 l l2 s, wanted ds = Some w → last_tag ALR_DT_STRTAB ds = Some va → va ≠ 0 →
     take MAX_LOADS (filter is_load phs) = l1 ++ l :: l2 →
     Forall (λ l, ¬ holds_addr va l) l1 → holds_addr va l →
     has_str pread (u64 (p_offset l + (va - p_vaddr l)) + w) s →
     alr_rpath (Some pread) head outsz = Some (take (outsz - 1) s)).
Proof.
  intros (Hl & Hm & Hc & Ht & Hlen & Hph) Ho Hdyn Hsz [Hds Hend].
  assert (Hscan : scan_dyn pread off (Z.to_nat (sz / 16)) 0 (mk_dyn 0 None None) =
    Some (mk_dyn (default 0 (last_tag ALR_DT_STRTAB ds)) (last_tag ALR_DT_RPATH ds) (last_tag ALR_DT_RUNPATH ds))).
  { rewrite (scan_dyn_spec pread off _ 0 ds); cbn [strtab_va rpath_off runpath_off].
    - by rewrite !or_else_None.
    - intros k e Hk. by apply Hds.
    - destruct Hend as [E|[E ?]]; [left|right]; [|split; [|done]]; lia. }
  unfold alr_rpath. rewrite (proj2 (Nat.eqb_neq _ _)), (proj2 (Nat.ltb_ge _ _)), Hm, Hc, Ht by lia.
  cbn [negb orb Z.eqb Pos.eqb]. rewrite <- Hlen, scan_loads_spec by (done || simpl; lia).
  cbn [app mbind option_bind]. rewrite Hdyn. cbn [from_option id].
  rewrite (proj2 (Z.eqb_neq _ _)), (proj2 (Z.ltb_ge _ _)), Hscan by lia. cbn [mbind option_bind strtab_va rpath_off runpath_off].
  assert (Hw : match last_tag ALR_DT_RUNPATH ds with Some r => Some r | None => last_tag ALR_DT_RPATH ds end = wanted ds)
    by (unfold wanted, or_else; by destruct (last_tag ALR_DT_RUNPATH ds)).
  rewrite Hw. split.
  - intros E. by rewrite E.
  - intros va w l1 l l2 s E Hva Hne Hld Hno Hyes Hs. rewrite E, Hva. cbn [from_option id].
    rewrite (proj2 (Z.eqb_neq _ _)) by done. rewrite Hld, (file_offset_spec _ _ _ _ Hno Hyes).
    cbn [mbind option_bind]. by apply read_c_str_spec.
Qed.

(** * Go *)

(** The offsets the walk over the notes of a buffer visits from an offset on. *)
Inductive notes_from (buf : bytes) : nat → nat → Prop :=
  | note_here o : notes_from buf o o
  | note_later o o' : (o + 12 ≤ length buf)%nat → notes_from buf (note_next buf o) o' → notes_from buf o o'.
Definition go_note (buf : bytes) (o : nat) : Prop := (o + 12 ≤ length buf)%nat ∧ is_go_note buf o = true.

(** No record of the buffer has a length that wraps to zero. *)
Definition notes_advance (buf : bytes) : Prop :=
  ∀ o, notes_from buf 0 o → (o + 12 ≤ length buf)%nat → note_next buf o ≠ o.

Lemma align4_mod x : align4 x mod 4 = 0.
Proof.
  unfold align4. rewrite <- (Z.land_ones _ 2) by lia. rewrite <- Z.land_assoc.
  change (Z.land (2 ^ 32 - 4) (Z.ones 2)) with 0. apply Z.land_0_r.
Qed.
Lemma note_step_bounds n d : 0 ≤ note_step n d < 2 ^ 32 ∧ note_step n d mod 4 = 0.
Proof.
  unfold note_step. split; [apply u32_range|]. unfold u32.
  pose proof (align4_mod n). pose proof (align4_mod d).
  set (a := align4 n) in *. set (b := align4 d) in *. clearbody a b. Z.to_euclidean_division_equations; lia.
Qed.
Lemma note_next_grows buf o : note_next buf o ≠ o → (o + 4 ≤ note_next buf o)%nat.
Proof.
  unfold note_next. pose proof (note_step_bounds (field o 4 buf) (field (o + 4) 4 buf)) as [? ?].
  set (st := note_step _ _) in *. intros Hne. assert (st ≠ 0) by lia.
  Z.to_euclidean_division_equations; lia.
Qed.

Lemma note_loop_exact buf fuel : ∀ o,
  (∀ o', notes_from buf o o' → (o' + 12 ≤ length buf)%nat → note_next buf o' ≠ o') →
  (1 ≤ fuel)%nat → (length buf < o + 4 * fuel + 8)%nat →
  ∃ b, note_loop fuel buf o = Some b ∧ (b = true ↔ ∃ o', notes_from buf o o' ∧ go_note buf o').
Proof.
  induction fuel as [|fuel IH]; intros o Hadv H1 Hf; [lia|cbn [note_loop]].
  destruct (length buf <? o + 12)%nat eqn:Hl.
  { apply Nat.ltb_lt in Hl. exists false. split; [done|]. split; [done|].
    intros (o' & Hn & Hb & _). destruct Hn; lia. }
  apply Nat.ltb_ge in Hl. destruct (is_go_note buf o) eqn:Hg.
  { exists true. split; [done|]. split; [|done]. intros _. exists o. split; [constructor|done]. }
  assert (o + 4 ≤ note_next buf o)%nat by (apply note_next_grows, Hadv; [constructor|done]).
  destruct (IH (note_next buf o)) as (b & E & Hb); [|lia..|].
  { intros o' Ho'. apply Hadv. by constructor. }
  exists b. split; [done|]. rewrite Hb. split.
  - intros (o' & ? & ?). exists o'. split; [by constructor|done].
  - intros (o' & Hn & Hgo). inversion Hn; simplify_eq; [|eauto]. destruct Hgo. congruence.
Qed.

(** The note segment [i] of the table is looked at, and holds [buf]. *)
Definition note_segment (pread : reader) (eh : Ehdr) (i : nat) (buf : bytes) : Prop :=
  (∀ j, (j < i)%nat → is_Some (phdr_at pread eh j)) ∧
  ∃ ph, phdr_at pread eh i = Some ph ∧ note_buf pread ph = Some buf.
Definition note_fuel : nat := 127.

Lemma note_buf_length pread ph buf : pread_exact pread → note_buf pread ph = Some buf → (length buf ≤ 512)%nat.
Proof.
  unfold note_buf. intros Hx. destruct (_ || _); [done|]. intros ->%Hx. unfold NOTE_BUF. lia.
Qed.

Lemma go_loop_exact pread eh n : pread_exact pread → ∀ i,
  (∀ k buf, (i ≤ k < i + n)%nat → note_segment pread eh k buf → notes_advance buf) →
  (∀ j, (j < i)%nat → is_Some (phdr_at pread eh j)) →
  ∃ b, go_loop note_fuel pread eh n i = Some b ∧
    (b = true ↔ ∃ k buf o, (i ≤ k < i + n)%nat ∧ note_segment pread eh k buf ∧ notes_from buf 0 o ∧ go_note buf o).
Proof.
  intros Hx. induction n as [|n IH]; intros i Hadv Hbefore; cbn [go_loop].
  { exists false. split; [done|]. split; [done|]. intros (? & ? & ? & ? & _). lia. }
  destruct (phdr_at pread eh i) as [ph|] eqn:Hp.
  2:{ exists false. split; [done|]. split; [done|]. intros (k & buf & o & Hk & (Hb & ph & Hph & _) & _).
      destruct (decide (k = i)) as [->|]; [congruence|]. destruct (Hb i) as [? ?]; [lia|congruence]. }
  destruct (IH (S i)) as (b & E & Hb).
  { intros k buf Hk. apply Hadv. lia. }
  { intros j Hj. destruct (decide (j = i)) as [->|]; [by rewrite Hp|apply Hbefore; lia]. }
  (* what the rest of the table answers is the answer unless this segment has a note *)
  assert (Hrest : (∀ buf o, note_segment pread eh i buf → notes_from buf 0 o → ¬ go_note buf o) →
    b = true ↔ ∃ k buf o, (i ≤ k < i + S n)%nat ∧ note_segment pread eh k buf ∧ notes_from buf 0 o ∧ go_note buf o).
  { intros Hno. rewrite Hb. split; intros (k & buf & o & Hk & Hs & Hn & Hg).
    - exists k, buf, o. split_and!; try done; lia.
    - destruct (decide (k = i)) as [->|]; [by destruct (Hno buf o Hs Hn)|].
      exists k, buf, o. split_and!; try done; lia. }
  destruct (note_buf pread ph) as [buf|] eqn:Hbuf.
  2:{ exists b. split; [done|]. apply Hrest. intros buf o (_ & q & Hq & Hqb). congruence. }
  assert (Hseg : note_segment pread eh i buf) by (split; [done|eauto]).
  pose proof (note_buf_length _ _ _ Hx Hbuf) as Hlen.
  destruct (note_loop_exact buf note_fuel 0) as (g & Eg & Hg); [|unfold note_fuel; lia..|].
  { intros o' Ho'. by apply (Hadv i buf ltac:(lia) Hseg). }
  rewrite Eg. destruct g.
  - exists true. split; [done|]. split; [|done]. intros _. destruct (proj1 Hg eq_refl) as (o & Ho & Hgo).
    exists i, buf, o. split_and!; try done; lia.
  - exists b. split; [done|]. apply Hrest. intros buf' o (_ & q & Hq & Hqb) Hn Hgo.
    assert (buf' = buf) as -> by congruence. by assert (false = true) by (apply Hg; eauto).
Qed.

(** The walk over the notes ends within 127 records of each segment unless a record
    has a length that wraps to zero, and answers yes exactly when a note of a readable
    PT_NOTE segment, cut at 512 bytes, is owned by "Go". *)
Theorem is_go_exact (pread : reader) (head : bytes) (phs : list Phdr) :
  pread_exact pread → image pread head phs →
  (∀ k buf, (k < length phs)%nat → note_segment pread (Ehdr_of head) k buf → notes_advance buf) →
  ∃ b, alr_elf_is_go note_fuel head (Some pread) = Some b ∧
    (b = true ↔ ∃ k buf o, (k < length phs)%nat ∧ note_segment pread (Ehdr_of head) k buf ∧
       notes_from buf 0 o ∧ go_note buf o).
Proof.
  intros Hx (Hl & Hm & Hc & Ht & Hlen & Hph) Hadv. unfold alr_elf_is_go.
  rewrite (proj2 (Nat.ltb_ge _ _)), Hm, Hc, Ht by lia. cbn [negb orb Z.eqb Pos.eqb].
  destruct (go_loop_exact pread (Ehdr_of head) (Z.to_nat (e_phnum (Ehdr_of head))) Hx 0) as (b & E & Hb); [|lia|].
  { intros k buf Hk. apply Hadv. lia. }
  exists b. split; [done|]. rewrite Hb, Hlen. split; intros (k & buf & o & ? & ?); exists k, buf, o; (split; [lia|done]).
Qed.

(** * A file *)

Definition file_reader (f : bytes) : reader := λ off n,
  if bool_decide (0 ≤ off ∧ off + Z.of_nat n ≤ Z.of_nat (length f))
  then Some (take n (drop (Z.to_nat off) f)) else None.
Lemma file_reader_exact f : pread_exact (file_reader f).
Proof.
  intros off n b. unfold file_reader. destruct (bool_decide _) eqn:E; [|done].
  apply bool_decide_eq_true in E. intros [= <-]. rewrite length_take, length_drop. lia.
Qed.

Definition ehdr_bytes (phnum : Z) : bytes :=
  ELFMAG ++ bytes_of [2; 1; 1] ++ replicate 9 nul ++ le_bytes 2 ALR_ET_DYN ++ le_bytes 2 ALR_EM_AARCH64 ++
  le_bytes 4 1 ++ le_bytes 8 0 ++ le_bytes 8 64 ++ le_bytes 8 0 ++ le_bytes 4 0 ++ le_bytes 2 64 ++
  le_bytes 2 56 ++ le_bytes 2 phnum ++ le_bytes 6 0.
Definition phdr_bytes (type off va sz : Z) : bytes :=
  le_bytes 4 type ++ le_bytes 4 0 ++ le_bytes 8 off ++ le_bytes 8 va ++ le_bytes 8 va ++
  le_bytes 8 sz ++ le_bytes 8 sz ++ le_bytes 8 8.
(** A shared object of the Go toolchain with an interpreter and a run path, mapped at
    4096. *)
Definition sample : bytes :=
  ehdr_bytes 4 ++ phdr_bytes ALR_PT_LOAD 0 4096 388 ++ phdr_bytes ALR_PT_INTERP 288 4384 11 ++
  phdr_bytes ALR_PT_DYNAMIC 304 4400 48 ++ phdr_bytes ALR_PT_NOTE 368 4464 20 ++
  "/lib/ld.so" ++ le_bytes 6 0 ++
  le_bytes 8 ALR_DT_STRTAB ++ le_bytes 8 4448 ++ le_bytes 8 ALR_DT_RUNPATH ++ le_bytes 8 1 ++ le_bytes 16 0 ++
  [nul] ++ "/opt/lib" ++ le_bytes 7 0 ++
  le_bytes 4 4 ++ le_bytes 4 4 ++ le_bytes 4 4 ++ "Go" ++ le_bytes 2 0 ++ "id42".
Definition sample_phdrs : list Phdr :=
  [mk_phdr 1 0 4096 388 388; mk_phdr 3 288 4384 11 11; mk_phdr 2 304 4400 48 48; mk_phdr 4 368 4464 20 20].
(** A note whose name size makes the length of its record wrap to zero. *)
Definition hang_note : bytes := le_bytes 4 0xFFFFFFF4 ++ le_bytes 8 0.
Definition hang : bytes := ehdr_bytes 1 ++ phdr_bytes ALR_PT_NOTE 120 0 12 ++ hang_note.

Example sample_scanned :
  kind (alr_classify (take 64 sample) (Some (file_reader sample)) true (Some 4096)) = ALR_EXE_ELF_DYNAMIC ∧
  alr_rpath (Some (file_reader sample)) (take 64 sample) 4096 = Some (str "/opt/lib") ∧
  alr_elf_is_go 127 (take 64 sample) (Some (file_reader sample)) = Some true ∧
  alr_parse_shebang (" /usr/bin/env  -S a b " ++ [newline]) = Some (mk_alr_shebang "/usr/bin/env" "-S a b" true).
Proof. vm_compute. auto. Qed.

(** The walk of [alr_elf_is_go] does not end on a crafted note. *)
Lemma go_hangs fuel : alr_elf_is_go fuel (take 64 hang) (Some (file_reader hang)) = None.
Proof.
  assert (E : note_loop fuel hang_note 0 = None).
  { induction fuel as [|fuel IH]; [done|]. cbn [note_loop].
    change (length hang_note <? 0 + 12)%nat with false. change (is_go_note hang_note 0) with false.
    change (note_next hang_note 0) with 0%nat. exact IH. }
  change (alr_elf_is_go fuel (take 64 hang) (Some (file_reader hang))) with
    (match note_loop fuel hang_note 0 with Some false => Some false | r => r end). by rewrite E.
Qed.

Lemma sample_image : image (file_reader sample) (take 64 sample) sample_phdrs.
Proof.
  split_and!; [by vm_compute; lia|by vm_compute..|]. split; [by vm_compute|].
  intros i ph. do 4 (destruct i as [|i]; [intros [= <-]; by vm_compute|]). done.
Qed.

Lemma classify_exact_witness :
  kind (alr_classify (take 64 sample) (Some (file_reader sample)) true (Some 4096)) = ALR_EXE_ELF_DYNAMIC.
Proof.
  apply (classify_exact (take 64 sample) (file_reader sample) true 4096); [done|apply file_reader_exact|].
  split; [split_and!; [by vm_compute; lia|by vm_compute..]|].
  exists ("/lib/ld.so" ++ [nul]). split; [by vm_compute|].
  exists 1%nat, (mk_phdr 3 288 4384 11 11).
  split_and!; [by vm_compute; lia|by vm_compute|done| |done|done|by vm_compute]. intros j Hj. assert (j = 0)%nat as -> by lia. eexists. split; by vm_compute.
Defined.

Lemma rpath_found_witness :
  alr_rpath (Some (file_reader sample)) (take 64 sample) 8 = Some (str "/opt/li").
Proof.
  refine (proj2 (rpath_found (file_reader sample) (take 64 sample) sample_phdrs 8 304 48 [(5, 4448); (29, 1)]
    sample_image ltac:(lia) eq_refl ltac:(lia) _) 4448 1 [] (mk_phdr 1 0 4096 388 388) [] "/opt/lib"
    eq_refl eq_refl _ eq_refl (Forall_nil_2 _) _ _); [|done|split; by vm_compute|].
  - split.
    + intros k d. do 2 (destruct k as [|k]; [intros [= <-]; split; [eexists; split_and!; by vm_compute|done]|]). done.
    + right. split; [by vm_compute|]. exists 0. eexists. split_and!; by vm_compute.
  - split; [|by vm_compute]. intros k c.
    do 8 (destruct k as [|k]; [intros [= <-]; split; by vm_compute|]). done.
Defined.

Lemma sample_notes k buf : (k < length sample_phdrs)%nat → note_segment (file_reader sample) (Ehdr_of (take 64 sample)) k buf → notes_advance buf.
Proof.
  intros Hk (_ & ph & Hph & Hbuf).
  assert (buf = take 20 (drop 368 sample)) as ->.
  { do 3 (destruct k as [|k]; [vm_compute in Hph; injection Hph as <-; by vm_compute in Hbuf|]).
    destruct k as [|k]; [|vm_compute in Hk; lia].
    vm_compute in Hph. injection Hph as <-. vm_compute in Hbuf. injection Hbuf as <-. by vm_compute. }
  intros o Ho. inversion Ho as [|? ? _ Hnext]; subst; [by vm_compute|]. change (note_next _ 0) with 20%nat in Hnext.
  intros Hle. exfalso. inversion Hnext as [|? ? Hc _]; subst; [vm_compute in Hle|vm_compute in Hc]; lia.
Qed.

Lemma is_go_exact_witness :
  ∃ b, alr_elf_is_go note_fuel (take 64 sample) (Some (file_reader sample)) = Some b ∧ b = true.
Proof.
  destruct (is_go_exact (file_reader sample) (take 64 sample) sample_phdrs) as (b & E & _).
  - apply file_reader_exact.
  - apply sample_image.
  - apply sample_notes.
  - exists b. split; [exact E|]. vm_compute in E. congruence.
Defined.
