(* ===== verification/PreloadPath.v ===== *)
(** * The preload library of the C runtime: paths ([runtime/alr/src/preload/alr_preload.c])

    The library stands between the guest and libc: every call that takes a path gets the
    host path, every path that comes back is a guest path.  The libc functions it calls
    are arguments of the wrappers.  C strings are byte strings without NUL; the library's
    static variables are the record [runtime]. *)

From S2P Require Import Prelude CppMap Bytes PathSpec PathRule ExecPlan.

Local Open Scope Z_scope.

Definition ENOSYS : Z := 38.
Definition ENAMETOOLONG : Z := 36.
Definition EACCES : Z := 13.
Definition EPERM : Z := 1.
Definition EXDEV : Z := 18.

(** ** The state and its initialisation *)

Record runtime := mk_runtime {
  g_root : bytes;
  g_guest_exe : option bytes;
  g_ldso : option bytes;
  g_libpath : option bytes;
  g_preload : option bytes;
  g_lane : option bytes;
  g_resolv_sock : option bytes;
  g_fakeroot : bool;
  g_count : bool;
  g_carry : list (bytes * bytes);
}.

Definition carried : list bytes := strs
  ["ALR_ROOT"; "ALR_LDSO"; "ALR_LIBPATH"; "ALR_PRELOAD"; "ALR_FAKEROOT"; "ALR_COUNT";
   "ALR_LOG"; "ALR_LOG_FD"; "ALR_RESOLV_SOCK"; "ALR_LANE"].

Section init.
Context (getenv : bytes → option bytes).

(** [carry_capture]: "NAME=" and "NAME=value" of the variables that are set and fit. *)
Definition carry_capture : list (bytes * bytes) :=
  omap (λ name, v ← getenv name;
    if decide (length (name ++ "=" ++ v) < ALR_PBUF)%nat then Some (name ++ "=", name ++ "=" ++ v) else None)
    carried.

Definition flag_set (name : bytes) : bool :=
  match getenv name with Some (c :: _) => bool_decide (c = "1"%byte) | _ => false end.

Definition init_root : bytes :=
  match getenv "ALR_ROOT" with
  | Some r => if starts_slash r && bool_decide (length r < ALR_PBUF)%nat then alr_trim_root r else []
  | None => []
  end.
Definition init_lane : option bytes :=
  l ← getenv "ALR_LANE"; if bool_decide (l = []) || bool_decide (l = "0") then None else Some l.

Definition alr_init : runtime :=
  mk_runtime init_root (getenv "ALR_GUEST_EXE") (getenv "ALR_LDSO") (getenv "ALR_LIBPATH")
    (getenv "ALR_PRELOAD") init_lane (getenv "ALR_RESOLV_SOCK") (flag_set "ALR_FAKEROOT")
    (flag_set "ALR_COUNT") carry_capture.
End init.

Definition is_slash (b : byte) : bool := bool_decide (b = slash).
(** What follows the last slash. *)
Definition base_name (s : bytes) : bytes := reverse (take_until is_slash (reverse s)).
(** The task name [alr_init] sets, and the path of the executable the kernel keeps. *)
Definition task_name (exe : bytes) : bytes := take 15 (base_name exe).
Definition patch_execfn (ld : option bytes) (execfn exe : bytes) : bytes :=
  match ld with
  | Some ld => if bool_decide (execfn = ld) && bool_decide (length exe ≤ length execfn)%nat then exe else execfn
  | None => execfn
  end.

(** ** The rewrite every wrapper starts with *)

Section wrappers.
Context (c : runtime).

(** [rw]; [suppress] is the flag that [realpath] raises around its own call. *)
Definition rw (suppress : bool) (p : bytes) : rw_result :=
  if suppress then RwSame else alr_rw p (g_root c) ALR_PBUF.

Record counts := mk_counts { n_total : Z; n_rewritten : Z; n_rel : Z; n_sysdir : Z; n_underroot : Z }.
(** The bucket of one call, counted when [g_count] is set. *)
Definition count_rw (p : option bytes) (r : rw_result) (n : counts) : counts :=
  let '(mk_counts t a b d e) := n in
  if negb (g_count c) then n
  else match r, p with
       | RwBuf _, _ => mk_counts (u64 (t + 1)) (u64 (a + 1)) b d e
       | _, Some p =>
           if negb (starts_slash p) then mk_counts (u64 (t + 1)) a (u64 (b + 1)) d e
           else if alr_is_sysdir p then mk_counts (u64 (t + 1)) a b (u64 (d + 1)) e
           else mk_counts (u64 (t + 1)) a b d (u64 (e + 1))
       | _, None => mk_counts (u64 (t + 1)) a b d (u64 (e + 1))
       end.

(** What a wrapper does: fail with an error number, or return what libc returns. *)
Definition outcome (A : Type) : Type := Z + A.
(** The macros [P] and [NEED]: the path is rewritten, NULL stays NULL, a path that does
    not fit is an error; then the libc function must exist. *)
Definition rw_arg (p : option bytes) : outcome (option bytes) :=
  match p with
  | None => inr None
  | Some p => match rw_string p (rw false p) with Some h => inr (Some h) | None => inl ENAMETOOLONG end
  end.
Definition need {A B} (real : option (A → outcome B)) (a : A) : outcome B :=
  match real with Some f => f a | None => inl ENOSYS end.
Definition path_call {B} (real : option (option bytes → outcome B)) (p : option bytes) : outcome B :=
  match rw_arg p with inl e => inl e | inr h => need real h end.
(** [rename], [renameat], [renameat2]: both paths are rewritten before either is used. *)
Definition path2_call {B} (real : option (option bytes * option bytes → outcome B)) (a b : option bytes) : outcome B :=
  match rw_arg a, rw_arg b with
  | inr ha, inr hb => need real (ha, hb)
  | _, _ => inl ENAMETOOLONG
  end.

(** [alr_guest_canon] on a result: [None] when the pointer that comes back is the one
    passed in. *)
Definition guest_canon (h : bytes) : option bytes :=
  if bool_decide (g_root c = []) || negb (alr_path_under h (g_root c)) then None
  else let n := (length h - length (g_root c))%nat in
       if decide (n = 0)%nat then Some [slash]
       else if decide (ALR_PBUF < n + 1)%nat then None
       else Some (drop (length (g_root c)) h).
Definition canon_or (h : bytes) : bytes := default h (guest_canon h).

(** [dlopen]: absolute names without a dynamic string token; a failed rewrite keeps the
    name. *)
Definition dlopen_arg (p : option bytes) : option bytes :=
  match p with
  | Some s => if starts_slash s && negb (has_byte "$"%byte s)
              then Some (default s (rw_string s (rw false s))) else p
  | None => None
  end.

(** ** Paths that come back *)

(** [is_self_exe] *)
Definition is_digit (b : byte) : bool := (48 <=? byte_val b) && (byte_val b <=? 57).
Definition is_self_exe (p : bytes) : bool :=
  bool_decide (p = "/proc/self/exe") || bool_decide (p = "/proc/thread-self/exe") ||
  (is_prefix "/proc/" p &&
   (let q := drop 6 p in let r := drop_while is_digit q in
    negb (bool_decide (length r = length q)) && bool_decide (r = "/exe"))).

(** [readlink]: [real] yields the bytes libc stored, at most [sz]. *)
Definition readlink (path : bytes) (sz : nat) (real : option (option bytes → outcome bytes)) : outcome bytes :=
  match is_self_exe path, g_guest_exe c with
  | true, Some exe => inr (take sz exe)
  | _, _ =>
      match path_call real (Some path) with
      | inl e => inl e
      | inr r =>
          if bool_decide (0 < length r < sz)%nat && bool_decide (length r < ALR_PBUF)%nat && starts_slash r
          then match guest_canon (c_str r) with
               | Some g => if bool_decide (length g ≤ sz)%nat then inr g else inr r
               | None => inr r
               end
          else inr r
      end
  end.
(** [readlinkat] corrects only the executable. *)
Definition readlinkat (path : bytes) (sz : nat) (real : option (option bytes → outcome bytes)) : outcome bytes :=
  match is_self_exe path, g_guest_exe c with
  | true, Some exe => inr (take sz exe)
  | _, _ => path_call real (Some path)
  end.

(** [getcwd]: the string libc left in the buffer of [sz] bytes, 0 for an allocated one. *)
Definition getcwd (sz : nat) (real : option (unit → outcome bytes)) : outcome bytes :=
  match need real () with
  | inl e => inl e
  | inr r =>
      match guest_canon r with
      | None => inr r
      | Some g => let cap := if decide (sz = 0)%nat then (length r + 1)%nat else sz in
                  if decide (length g < cap)%nat then inr g else inr r
      end
  end.

(** [realpath]: libc's own walk runs with rewriting suppressed. *)
Definition realpath (path : bytes) (real : option (bytes → outcome bytes)) : outcome bytes :=
  match rw_string path (rw false path) with
  | None => inl ENAMETOOLONG
  | Some h => match need real h with inl e => inl e | inr r => inr (canon_or r) end
  end.

(** [glob_unrewrite]: the result vector, the first [skip] slots reserved. *)
Definition glob_unrewrite (skip : nat) (v : list bytes) : list bytes :=
  take skip v ++ (canon_or <$> drop skip v).

(** [nftw_tramp]: the path and the offset of its last component, for the callback. *)
Definition nftw_tramp (f : bytes) (base : Z) : bytes * Z :=
  match guest_canon f with
  | None => (f, base)
  | Some g => (g, Z.max 0 (base - (Z.of_nat (length f) - Z.of_nat (length g))))
  end.

(** ** Symbolic links *)

Definition depth_of (linkguest : bytes) : nat := length (filter (λ b, b = slash) (drop 1 linkguest)).
Definition updirs (n : nat) : bytes := concat (replicate n (str "../")).

(** [relativize]: the content of the link; [linkguest] is the path of the link. *)
Definition relativize (target : bytes) (linkguest : option bytes) (bufsz : nat) : bytes :=
  if negb (starts_slash target) then target
  else match linkguest with
  | None => target
  | Some lg =>
      if negb (starts_slash lg) then target
      else if bool_decide (g_root c = []) then target
      else if alr_is_sysdir target then target
      else
        let depth := depth_of lg in
        if decide (bufsz < depth * 3 + length target + 1)%nat then target
        else let s := updirs depth ++ drop 1 target in
             if bool_decide (s = []) then str "." else s
  end.

(** The last slash of a path splits it into directory and name. *)
Definition split_link (linkpath : bytes) : option bytes * bytes :=
  if has_byte slash linkpath
  then let base := base_name linkpath in
       (Some (take (length linkpath - length base - 1) linkpath), base)
  else (None, linkpath).

(** [link_guest_path]; [resolve] opens a directory and reads its physical path back. *)
Definition link_guest_path (resolve : bytes → option bytes) (linkpath : bytes) (outsz : nat) : option bytes :=
  if bool_decide (linkpath = []) || bool_decide (g_root c = []) then None
  else
    let '(d, base) := split_link linkpath in
    let dir := match d with Some [] => [slash] | Some d => d | None => str "." end in
    if decide (ALR_PBUF ≤ length dir)%nat then None
    else if bool_decide (base = []) then None
    else
      h ← rw_string dir (rw false dir);
      hb ← resolve h;
      let hb := take (ALR_PBUF - 1) hb in
      if bool_decide (hb = []) then None
      else
        g ← guest_canon hb;
        if decide (outsz < length g + 1 + length base + 1)%nat then None
        else Some (g ++ (if bool_decide (last g = Some slash) then [] else [slash]) ++ base).

(** [symlink] and [symlinkat]: the content stored and the host path of the link. *)
Definition symlink (resolve : bytes → option bytes) (target linkpath : bytes) : outcome (bytes * option bytes) :=
  let lg := if starts_slash target then link_guest_path resolve linkpath ALR_PBUF else None in
  let t := relativize target lg ALR_PBUF in
  match rw_arg (Some linkpath) with inl e => inl e | inr h => inr (t, h) end.
End wrappers.

(** ** Raw system calls *)

(** [path_arg_mask]: the positions of the arguments that are paths. *)
Definition path_arg_mask (nr : Z) : list nat :=
  if bool_decide (nr ∈ [56; 79; 291; 48; 439; 78; 34; 35; 53; 54; 88; 33; 437]) then [1%nat]
  else if nr =? 36 then [2%nat]
  else if bool_decide (nr ∈ [37; 38; 276]) then [1%nat; 3%nat]
  else [].

(** An argument register: a number, or a pointer to a string. *)
Inductive sysarg := Num (z : Z) | Str (s : bytes).
(** [None]: a number is used as a path.  The loop over the arguments, with [i] the next
    one and [used] the buffers taken; it ends when both are. *)
Fixpoint rewrite_args (c : runtime) (mask : list nat) (i used : nat) (args : list sysarg)
    : option (outcome (list sysarg)) :=
  match args with
  | [] => Some (inr [])
  | a :: rest =>
      let next (a' : sysarg) (used' : nat) :=
        r ← rewrite_args c mask (S i) used' rest;
        Some (match r with inl e => inl e | inr l => inr (a' :: l) end) in
      if decide (i ∉ mask) then next a used
      else match a with
      | Num z => if z =? 0 then next a used else None
      | Str s =>
          match rw c false s with
          | RwErr _ => Some (inl ENAMETOOLONG)
          | RwSame => if decide (2 ≤ used)%nat then Some (inr (a :: rest)) else next a used
          | RwBuf h => if decide (2 ≤ S used)%nat then Some (inr (Str h :: rest)) else next (Str h) (S used)
          end
      end
  end.
Definition syscall {B} (c : runtime) (real : option (Z * list sysarg → outcome B)) (nr : Z) (args : list sysarg)
    : option (outcome B) :=
  r ← rewrite_args c (path_arg_mask nr) 0 0 args;
  Some (match r with inl e => inl e | inr l => need real (nr, l) end).

(** ** Unix sockets *)

Definition AF_UNIX : Z := 1.
Definition SUN_PATH_SIZE : nat := 108.
Definition SUN_PATH_OFF : nat := 2.

(** An address: the family, and the memory from [sun_path] on. *)
Record sockaddr := mk_sockaddr { sa_family : Z; sun_path : bytes }.
(** [un_rewrite]: [inr None] leaves the address alone. *)
Definition un_rewrite (c : runtime) (addr : option sockaddr) (len : nat) : outcome (option (sockaddr * nat)) :=
  match addr with
  | None => inr None
  | Some un =>
      if negb (sa_family un =? AF_UNIX) then inr None
      else if decide (len < 3)%nat then inr None
      else if negb (starts_slash (c_str (sun_path un))) then inr None
      else match rw c false (c_str (sun_path un)) with
           | RwErr _ => inl ENAMETOOLONG
           | RwSame => inr None
           | RwBuf r =>
               if decide (SUN_PATH_SIZE ≤ length r)%nat then inl ENAMETOOLONG
               else inr (Some (mk_sockaddr AF_UNIX (r ++ replicate (SUN_PATH_SIZE - length r) nul),
                               (SUN_PATH_OFF + length r + 1)%nat))
           end
  end.

(** [bind] and [connect]: libc gets the address and its length. *)
Definition un_call {B} (c : runtime) (real : option (option sockaddr * nat → outcome B))
    (addr : option sockaddr) (len : nat) : outcome B :=
  match un_rewrite c addr len with
  | inl e => inl e
  | inr None => need real (addr, len)
  | inr (Some (un, ul)) => need real (Some un, ul)
  end.

(** [memmove] of a C string over the start of the memory. *)
Definition store_str (mem s : bytes) : bytes := s ++ nul :: drop (S (length s)) mem.
(** [un_unrewrite]: [len] is what the kernel reported, [cap] what the caller allocated. *)
Definition un_unrewrite (c : runtime) (addr : sockaddr) (len cap : nat) : sockaddr * nat :=
  if negb (sa_family addr =? AF_UNIX) then (addr, len)
  else if decide (len ≤ SUN_PATH_OFF)%nat then (addr, len)
  else
    let room := Nat.min (Nat.min (cap - SUN_PATH_OFF) (len - SUN_PATH_OFF)) SUN_PATH_SIZE in
    if decide (room = 0)%nat then (addr, len)
    else if bool_decide (c_str (sun_path addr) = []) then (addr, len)
    else if negb (has_byte nul (take room (sun_path addr))) then (addr, len)
    else match guest_canon c (c_str (sun_path addr)) with
         | None => (addr, len)
         | Some g =>
             if decide (room < length g + 1)%nat then (addr, len)
             else (mk_sockaddr (sa_family addr) (store_str (sun_path addr) g), (SUN_PATH_OFF + length g + 1)%nat)
         end.
(** [getsockname], [getpeername]: the address libc stored and its length. *)
Definition name_call (c : runtime) (real : option (unit → outcome (sockaddr * nat))) (cap : nat)
    : outcome (sockaddr * nat) :=
  match need real () with
  | inl e => inl e
  | inr (a, len) => inr (un_unrewrite c a len cap)
  end.

(** ** Temporary files *)

(** [tmpl_writeback]: [mem] is the buffer libc worked on, up to its end. *)
Definition tmpl_writeback (c : runtime) (tmpl : bytes) (h : rw_result) (mem : bytes) : bytes :=
  match h with
  | RwBuf _ => c_str (take (length tmpl) (drop (length (g_root c)) mem))
  | _ => tmpl
  end.
(** [mkstemp], [mkdtemp] and the rest: [real] replaces the pattern in the buffer it is
    given; [junk] is what the buffer holds behind the string. *)
Definition template_call {A} (c : runtime) (real : option (bytes → bytes * A)) (junk tmpl : bytes)
    : outcome (bytes * A) :=
  let h := rw c false tmpl in
  match rw_string tmpl h, real with
  | None, _ => inl ENAMETOOLONG
  | _, None => inl ENOSYS
  | Some s, Some f =>
      let '(s', a) := f s in
      inr (match h with
           | RwBuf _ => (tmpl_writeback c tmpl h (s' ++ nul :: junk), a)
           | _ => (s', a)
           end)
  end.

(** [tmpnam]: a buffer of the caller's holds 20 bytes. *)
Definition tmpnam (given : bool) (pid seq : Z) : bytes :=
  take (if given then 19 else ALR_PBUF - 1)%nat
    (str "/tmp/alrnam." ++ print_nat 10 pid ++ str "." ++ print_nat 10 (u32 seq)).
(** [getwd], [__getwd_chk]: into a buffer of unknown or of [buflen] bytes. *)
Definition getwd_chk (cwd : outcome bytes) (buflen : nat) : outcome bytes :=
  match cwd with
  | inl e => inl e
  | inr d => if decide (buflen < length d + 1)%nat then inl 34 else inr d
  end.

(** ** Hard links *)

Record stat := mk_stat { st_dev : Z; st_ino : Z; st_nlink : Z }.
Record lid := mk_lid { lid_d : Z; lid_i : Z; lid_sd : Z; lid_si : Z }.
Definition ALR_LID_MAX : nat := 1024.

(** [lid_record]: [a] and [b] are what stat says of source and destination. *)
Definition lid_record (tab : list lid) (a b : option stat) : list lid :=
  if decide (ALR_LID_MAX < length tab + 2)%nat then tab
  else match a, b with
  | Some a, Some b =>
      tab ++ [mk_lid (st_dev b) (st_ino b) (st_dev a) (st_ino a);
              mk_lid (st_dev a) (st_ino a) (st_dev a) (st_ino a)]
  | _, _ => tab
  end.
Fixpoint lid_patch (tab : list lid) (st : stat) : stat :=
  match tab with
  | [] => st
  | l :: tab =>
      if (lid_d l =? st_dev st) && (lid_i l =? st_ino st)
      then mk_stat (lid_sd l) (lid_si l) (Z.max 2 (st_nlink st))
      else lid_patch tab st
  end.

Definition copies_instead (e : Z) : bool := (e =? EACCES) || (e =? EPERM) || (e =? EXDEV).
(** [link]: [real] is libc's answer for the host paths, [copy] whether copying the file
    succeeds, [real_stat] what libc says of a host path afterwards. *)
Definition link (c : runtime) (tab : list lid) (real : option (option bytes * option bytes → outcome unit))
    (copy : option bytes → option bytes → bool) (real_stat : option bytes → option stat) (a b : option bytes)
    : list lid * outcome unit :=
  match rw_arg c a, rw_arg c b with
  | inr pa, inr pb =>
      match need real (pa, pb) with
      | inr () => (tab, inr ())
      | inl e =>
          if bool_decide (is_Some real) && copies_instead e && copy pa pb
          then (lid_record tab (real_stat pa) (real_stat pb), inr ())
          else (tab, inl e)
      end
  | _, _ => (tab, inl ENAMETOOLONG)
  end.
(** The wrappers of [stat]. *)
Definition stat_call (c : runtime) (tab : list lid) (real : option (option bytes → outcome stat)) (p : option bytes)
    : outcome stat :=
  match path_call c real p with inl e => inl e | inr st => inr (lid_patch tab st) end.

(** * Where symbolic links lead *)

(** The components a walk along [p] leaves, innermost first. *)
Definition walk (stack : list bytes) (p : bytes) : list bytes := canon_from stack (split_on slash p).
Lemma walk_app stack p q : walk stack (p ++ slash :: q) = walk (walk stack p) q.
Proof. unfold walk, canon_from. by rewrite split_on_cut, foldl_app. Qed.
Lemma walk_render stack cs : Forall plain cs → walk stack (render cs) = reverse cs ++ stack.
Proof.
  intros Hcs. unfold walk, render. destruct cs as [|c cs]; [done|].
  rewrite concat_slash, split_on_cons_sep, canon_from_nil, split_on_join by (done || by apply plain_no_slash).
  by apply canon_from_id.
Qed.
Lemma walk_updirs stack n q : walk stack (updirs n ++ q) = walk (drop n stack) q.
Proof.
  revert stack. induction n as [|n IH]; intros stack; [done|].
  change (updirs (S n) ++ q) with (dotdot ++ slash :: (updirs n ++ q)). rewrite walk_app, IH.
  f_equal. destruct stack; [|done]. change (walk [] dotdot) with (@nil bytes). by rewrite !drop_nil.
Qed.
Lemma lexical_walk p : lexical p = render (reverse (walk [] p)).
Proof. done. Qed.

Lemma count_slashes_plain c : slash ∉ c → filter (λ b, b = slash) c = [].
Proof.
  induction c as [|b c IH]; intros H; [done|]. apply not_elem_of_cons in H as [Hb H].
  rewrite filter_cons_False by auto. auto.
Qed.
(** The path of the link inside the guest. *)
Definition link_name (ds : list bytes) (base : bytes) : bytes :=
  (match ds with [] => [] | _ => render ds end) ++ slash :: base.

Lemma depth_render ds base : Forall plain ds → slash ∉ base →
  depth_of (link_name ds base) = length ds.
Proof.
  intros Hds Hb. unfold depth_of, link_name.
  assert (H : ∀ ds, Forall plain ds → filter (λ b, b = slash) (concat ((λ c, slash :: c) <$> ds) ++ slash :: base) =
    replicate (S (length ds)) slash).
  { clear ds Hds. induction 1 as [|d ds Hd _ IH]; cbn [fmap list_fmap concat app].
    - by rewrite filter_cons_True, count_slashes_plain by done.
    - rewrite filter_cons_True by done. rewrite <- (assoc_L (++)), filter_app, IH, count_slashes_plain by apply Hd. done. }
  specialize (H ds Hds). destruct ds as [|d ds].
  - cbn [app drop] in *. by rewrite count_slashes_plain.
  - unfold render. cbn [fmap list_fmap concat app drop] in *.
    rewrite filter_cons_True in H by done. apply (f_equal length) in H. rewrite length_replicate in H. rewrite drop_0. by injection H.
Qed.

Section links.
Context (c : runtime) (rcs : list bytes).
Context (Hroot : g_root c = render rcs) (Hrne : rcs ≠ []) (Hrp : Forall plain rcs).

(** The host directory of a guest directory. *)
Definition host_dir (ds : list bytes) : bytes := render (rcs ++ ds).

Lemma render_app cs1 cs2 : cs1 ≠ [] → cs2 ≠ [] → render (cs1 ++ cs2) = render cs1 ++ render cs2.
Proof.
  intros H1 H2. destruct cs1 as [|c1 cs1]; [done|]. destruct cs2 as [|c2 cs2]; [done|].
  unfold render. by rewrite <- concat_app, <- fmap_app.
Qed.

Lemma guest_canon_host_dir ds : Forall plain ds → (length (host_dir ds) ≤ ALR_PBUF)%nat →
  guest_canon c (host_dir ds) = Some (render ds).
Proof.
  intros Hds Hlen. unfold guest_canon. rewrite Hroot.
  assert (Hne : render rcs ≠ []) by (by destruct rcs).
  assert (Hu : alr_path_under (host_dir ds) (render rcs) = true).
  { apply path_under_spec. split; [done|]. unfold host_dir. destruct ds as [|d ds].
    - exists []. by rewrite !app_nil_r.
    - exists (render (d :: ds)). by rewrite render_app. }
  rewrite bool_decide_false, Hu by done. cbn [negb orb].
  destruct ds as [|d ds].
  - unfold host_dir. rewrite app_nil_r. by rewrite decide_True by lia.
  - unfold host_dir in *. rewrite render_app in * by done. rewrite length_app in *.
    assert (0 < length (render (d :: ds)))%nat by (cbn; lia). assert (0 < length (render rcs))%nat by (destruct (render rcs); [done|cbn; lia]).
    rewrite decide_False, decide_False by lia. by rewrite drop_app_length.
Qed.

Lemma relative_lands ds tcs base : Forall plain ds → Forall plain tcs → slash ∉ base →
  alr_is_sysdir (render tcs) = false →
  (3 * length ds + length (render tcs) + 1 ≤ ALR_PBUF)%nat →
  let t := relativize c (render tcs) (Some (link_name ds base)) ALR_PBUF in
  starts_slash t = false ∧ lexical (host_dir ds ++ slash :: t) = render (rcs ++ tcs).
Proof.
  intros Hds Ht Hb Hsys Hlen t.
  assert (Hroot' : g_root c ≠ []) by (rewrite Hroot; by destruct rcs).
  assert (Hlg : starts_slash (link_name ds base) = true) by (by destruct ds).
  assert (Et : t = (let s := updirs (length ds) ++ drop 1 (render tcs) in if bool_decide (s = []) then str "." else s)).
  { subst t. unfold relativize. rewrite render_absolute, Hlg, bool_decide_false, Hsys by done. cbn [negb].
    rewrite (depth_render ds base) by done. by rewrite decide_False by lia. }
  assert (Hwalk : walk (reverse (rcs ++ ds)) t = reverse (rcs ++ tcs)).
  { rewrite Et. cbv zeta. rewrite reverse_app.
    assert (Hd : walk (reverse ds ++ reverse rcs) (updirs (length ds) ++ drop 1 (render tcs)) = reverse (rcs ++ tcs)).
    { rewrite walk_updirs. rewrite <- (length_reverse ds), drop_app_length, reverse_app.
      destruct tcs as [|t0 ts]; [done|]. rewrite <- (walk_render (reverse rcs) (t0 :: ts) Ht).
      unfold walk at 2, render. rewrite concat_slash, split_on_cons_sep. done. }
    destruct (bool_decide _) eqn:E; [|exact Hd]. apply bool_decide_eq_true in E. rewrite E in Hd. exact Hd. }
  split.
  - rewrite Et. cbv zeta. destruct (length ds); [|done]. cbn [updirs replicate concat app].
    destruct tcs as [|t0 ts]; [done|]. apply Forall_cons in Ht as [Ht0 _]. unfold render. cbn [fmap list_fmap concat drop app].
    destruct t0 as [|b t0]; [by destruct Ht0|]. cbn. apply bool_decide_false. intros ->. destruct Ht0 as (_ & _ & _ & Hs).
    apply Hs. by left.
  - rewrite lexical_walk, walk_app. unfold host_dir.
    rewrite walk_render by (by apply Forall_app_2). by rewrite app_nil_r, Hwalk, reverse_involutive.
Qed.
End links.

Lemma base_name_no_slash s : slash ∉ base_name s.
Proof.
  unfold base_name. rewrite elem_of_reverse. generalize (reverse s). clear s. intros s.
  induction s as [|b s IH]; cbn [take_until]; [apply not_elem_of_nil|].
  destruct (is_slash b) eqn:E; [apply not_elem_of_nil|]. apply not_elem_of_cons. split; [|done].
  intros <-. by vm_compute in E.
Qed.
Lemma split_link_no_slash p : slash ∉ snd (split_link p).
Proof.
  unfold split_link. destruct (has_byte slash p) eqn:E; [apply base_name_no_slash|by apply has_byte_false].
Qed.
(** The directory of a link as [link_guest_path] opens it. *)
Definition link_dir (linkpath : bytes) : bytes :=
  match fst (split_link linkpath) with Some [] => [slash] | Some d => d | None => str "." end.

Lemma last_render ds : Forall plain ds → last (render ds) = Some slash → ds = [].
Proof.
  destruct (decide (ds = [])) as [->|Hne]; [done|]. intros Hds Hl. exfalso.
  destruct (exists_last Hne) as (ds' & d & ->). apply Forall_app in Hds as [_ [Hd _]%Forall_cons].
  assert (E : ∃ u, render (ds' ++ [d]) = u ++ slash :: d).
  { destruct ds' as [|d0 ds']; [by exists []; unfold render; cbn; rewrite app_nil_r|].
    rewrite render_app by done. exists (render (d0 :: ds')). unfold render at 2. cbn. by rewrite app_nil_r. }
  destruct E as [u E]. rewrite E in Hl. destruct Hd as (Hd & _ & _ & Hs).
  destruct (exists_last Hd) as (d' & b & ->). rewrite app_comm_cons, (assoc_L (++)), last_snoc in Hl.
  injection Hl as ->. apply Hs. set_solver.
Qed.

Lemma link_guest_path_name c rcs resolve linkpath h ds :
  g_root c = render rcs → rcs ≠ [] → Forall plain rcs → Forall plain ds → linkpath ≠ [] →
  snd (split_link linkpath) ≠ [] → (length (link_dir linkpath) < ALR_PBUF)%nat →
  rw_string (link_dir linkpath) (rw c false (link_dir linkpath)) = Some h →
  resolve h = Some (host_dir rcs ds) → (length (host_dir rcs ds) < ALR_PBUF)%nat →
  (length (render ds) + length (snd (split_link linkpath)) + 2 ≤ ALR_PBUF)%nat →
  link_guest_path c resolve linkpath ALR_PBUF = Some (link_name ds (snd (split_link linkpath))).
Proof.
  intros Hroot Hrne Hrp Hds Hl Hb Hdl Hrw Hres Hh Hfit. unfold link_guest_path.
  assert (g_root c ≠ []) by (rewrite Hroot; by destruct rcs).
  rewrite !bool_decide_false by done. cbn [orb]. unfold link_dir in *.
  destruct (split_link linkpath) as [d base]. cbn [fst snd] in *.
  rewrite decide_False, bool_decide_false by (done || lia). rewrite Hrw. cbn [mbind option_bind]. rewrite Hres.
  cbn [mbind option_bind]. rewrite take_ge by (unfold ALR_PBUF in *; lia).
  rewrite bool_decide_false by (unfold host_dir, render; by destruct rcs).
  pose proof (guest_canon_host_dir c rcs Hroot Hrne Hrp ds Hds ltac:(lia)) as Hgc. rewrite Hgc. cbn [mbind option_bind].
  rewrite decide_False by lia. f_equal. unfold link_name.
  destruct (bool_decide (last (render ds) = Some slash)) eqn:E.
  - apply bool_decide_eq_true in E. by apply last_render in E as ->.
  - apply bool_decide_eq_false in E. by destruct ds.
Qed.

(** A symbolic link the guest makes to an absolute path is stored relative, and the
    kernel, which resolves its content from the physical directory of the link, ends at
    the host path of the target, whether the path of the link is absolute, relative or
    goes through other links. *)
Theorem symlink_lands (c : runtime) (rcs ds tcs : list bytes) (resolve : bytes → option bytes)
    (linkpath h : bytes) (hl : option bytes) :
  g_root c = render rcs → rcs ≠ [] → Forall plain (rcs ++ ds ++ tcs) →
  alr_is_sysdir (render tcs) = false → alr_path_under (render tcs) (g_root c) = false →
  snd (split_link linkpath) ≠ [] →
  rw_string (link_dir linkpath) (rw c false (link_dir linkpath)) = Some h → resolve h = Some (host_dir rcs ds) →
  (length (link_dir linkpath) < ALR_PBUF)%nat → (length (host_dir rcs ds) < ALR_PBUF)%nat →
  (length (render ds) + length (snd (split_link linkpath)) + 2 ≤ ALR_PBUF)%nat →
  (3 * length ds + length (render tcs) + 1 ≤ ALR_PBUF)%nat →
  rw_arg c (Some linkpath) = inr hl →
  ∃ t, symlink c resolve (render tcs) linkpath = inr (t, hl) ∧ starts_slash t = false ∧
       lexical (host_dir rcs ds ++ slash :: t) = host_spec (g_root c) (render tcs).
Proof.
  intros Hroot Hrne [Hrp [Hdp Htp]%Forall_app]%Forall_app Hsys Hund Hb Hrw Hres Hl1 Hl2 Hl3 Hl4 Harg.
  assert (Hlne : linkpath ≠ []) by (intros ->; done).
  unfold symlink. rewrite render_absolute.
  rewrite (link_guest_path_name c rcs resolve linkpath h ds) by done. rewrite Harg.
  destruct (relative_lands c rcs Hroot Hrne Hrp ds tcs (snd (split_link linkpath))) as [Hs Hlex];
    [done|done|apply split_link_no_slash|done|done|].
  eexists. split; [done|]. split; [done|]. rewrite Hlex. unfold host_spec, lexical.
  rewrite canon_render, Hsys, Hund, Hroot by done. cbn [orb].
  destruct tcs as [|t0 ts]; [by rewrite app_nil_r, decide_True|].
  rewrite decide_False by (apply Forall_cons in Htp as [Ht0 _]; destruct t0; [by destruct Ht0|done]). by rewrite render_app.
Qed.

Definition sample_rt : runtime :=
  mk_runtime "/data/r" (Some (str "/bin/sh")) (Some (str "/data/r/lib/ld.so")) (Some (str "/data/r/lib")) (Some (str "/data/alr.so"))
    None None false true [].

Lemma symlink_lands_witness :
  ∃ t, symlink sample_rt (λ h, if bool_decide (h = "lib64") then Some (str "/data/r/usr/lib") else None)
         "/etc/os-release" "lib64/os-release" = inr (t, Some (str "lib64/os-release")) ∧ starts_slash t = false ∧
       lexical ("/data/r/usr/lib" ++ slash :: t) = "/data/r/etc/os-release".
Proof.
  apply (symlink_lands sample_rt [str "data"; str "r"] [str "usr"; str "lib"] [str "etc"; str "os-release"]
    (λ h, if bool_decide (h = "lib64") then Some (str "/data/r/usr/lib") else None) "lib64/os-release" "lib64"
    (Some (str "lib64/os-release"))); try (by vm_compute); try (vm_compute; lia).
  repeat (apply Forall_cons; split; [repeat split; [done..|vm_compute; set_solver]|]). apply Forall_nil_2.
Defined.

(** A target with dot-dot components climbs out of the rootfs, one that only passes through
    a virtual directory stays absolute, and a host path is prefixed a second time. *)
Example symlink_target_unnormalized :
  relativize sample_rt "/../../secret" (Some (str "/l")) ALR_PBUF = str "../../secret" ∧
  lexical ("/data/r" ++ slash :: "../../secret") = "/secret" ∧
  relativize sample_rt "/proc/../etc/passwd" (Some (str "/l")) ALR_PBUF = str "/proc/../etc/passwd" ∧
  lexical ("/data/r" ++ slash :: relativize sample_rt "/data/r/etc/x" (Some (str "/l")) ALR_PBUF) = "/data/r/data/r/etc/x".
Proof. by vm_compute. Qed.

(** * Rewritten arguments *)

Lemma rw_same c p : starts_slash p = true → g_root c ≠ [] → rw c false p = RwSame →
  alr_is_sysdir (lexical p) || alr_path_under (lexical p) (g_root c) = true.
Proof.
  intros Hp Hr. unfold rw, alr_rw. rewrite Hp, bool_decide_false by done. cbn [negb].
  destruct (alr_needs_normalize p) eqn:E.
  - destruct (alr_normalize_guest_abs p ALR_PBUF); [|done].
    destruct (alr_is_sysdir _), (alr_path_under _ _); try done; repeat case_match; done.
  - apply needs_normalize_iff in E; [|done]. rewrite E.
    destruct (alr_is_sysdir p), (alr_path_under p _); try done; repeat case_match; done.
Qed.

Lemma rw_string_spec c p h : starts_slash p = true → g_root c ≠ [] →
  rw_string p (rw c false p) = Some h → h = host_spec (g_root c) p.
Proof. intros ??. by apply host_spec_rw. Qed.

(** What may stand at a position of the rewritten arguments. *)
Definition arg_rewritten (c : runtime) (path : Prop) (a a' : sysarg) : Prop :=
  match a with
  | Num _ => a' = a
  | Str s => (path → ∃ h, a' = Str h ∧ rw_string s (rw c false s) = Some h) ∧ (¬ path → a' = a)
  end.
Definition left_from (mask : list nat) (i : nat) : nat := length (filter (λ k, (i ≤ k)%nat) mask).

Lemma left_from_mono mask i : (left_from mask (S i) ≤ left_from mask i)%nat.
Proof.
  unfold left_from. induction mask as [|k mask IH]; [done|]. rewrite !filter_cons.
  repeat case_decide; simpl; lia.
Qed.
Lemma left_from_in mask i : i ∈ mask → (S (left_from mask (S i)) ≤ left_from mask i)%nat.
Proof.
  unfold left_from. induction mask as [|k mask IH]; [by intros ?%elem_of_nil|].
  intros Hi. rewrite !filter_cons. pose proof (left_from_mono mask i) as Hm. unfold left_from in Hm.
  apply elem_of_cons in Hi as [->|Hi].
  - rewrite decide_False, decide_True by lia. simpl. lia.
  - specialize (IH Hi). repeat case_decide; simpl; lia.
Qed.
Lemma left_from_none mask i k : left_from mask i = 0%nat → (i ≤ k)%nat → k ∉ mask.
Proof.
  intros H Hk Hin. assert (k ∈ filter (λ k, (i ≤ k)%nat) mask) as Hf by (by apply list_elem_of_filter).
  apply length_zero_iff_nil in H. rewrite H in Hf. by apply elem_of_nil in Hf.
Qed.

Lemma rewrite_args_spec c mask : ∀ args i used l,
  (used + left_from mask i ≤ 2)%nat → rewrite_args c mask i used args = Some (inr l) →
  ∀ k a, args !! k = Some a → ∃ a', l !! k = Some a' ∧ arg_rewritten c ((i + k)%nat ∈ mask) a a'.
Proof.
  assert (Hrest : ∀ (rest : list sysarg) i, left_from mask i = 0%nat → ∀ k a, rest !! k = Some a →
    ∃ a', rest !! k = Some a' ∧ arg_rewritten c ((i + k)%nat ∈ mask) a a').
  { intros rest i Hl k a Ha. exists a. split; [done|].
    pose proof (left_from_none mask i (i + k) Hl ltac:(lia)). destruct a; [done|]. by split. }
  assert (Hcons : ∀ (rest l : list sysarg) i a a', arg_rewritten c (i ∈ mask) a a' →
    (∀ k b, rest !! k = Some b → ∃ b', l !! k = Some b' ∧ arg_rewritten c ((S i + k)%nat ∈ mask) b b') →
    ∀ k b, (a :: rest) !! k = Some b → ∃ b', (a' :: l) !! k = Some b' ∧ arg_rewritten c ((i + k)%nat ∈ mask) b b').
  { intros rest l i a a' Ha Hr [|k] b.
    - intros [= <-]. exists a'. rewrite Nat.add_0_r. done.
    - intros Hb. replace (i + S k)%nat with (S i + k)%nat by lia. by apply Hr. }
  induction args as [|a rest IH]; intros i used l Hu; cbn [rewrite_args].
  { intros [= <-] k a. by rewrite lookup_nil. }
  cbv zeta beta. pose proof (left_from_mono mask i) as Hmono.
  assert (Hnext : ∀ a' used', arg_rewritten c (i ∈ mask) a a' → (used' + left_from mask (S i) ≤ 2)%nat →
    (r ← rewrite_args c mask (S i) used' rest;
     Some (match r with inl e => inl e | inr l => inr (a' :: l) end)) = Some (inr l) → ∀ k b, (a :: rest) !! k = Some b →
    ∃ b', l !! k = Some b' ∧ arg_rewritten c ((i + k)%nat ∈ mask) b b').
  { intros a' used' Ha Hu'.
    destruct (rewrite_args c mask (S i) used' rest) as [[e|l']|] eqn:E; cbn [mbind option_bind]; [done| |done].
    intros [= <-]. apply Hcons; [done|]. by eapply IH. }
  destruct (decide (i ∉ mask)) as [Hi|Hi].
  { apply Hnext; [|lia]. destruct a; [done|]. split; [tauto|done]. }
  apply dec_stable in Hi. pose proof (left_from_in mask i Hi) as Hin.
  destruct a as [z|s].
  { destruct (z =? 0); [|done]. apply Hnext; [done|lia]. }
  assert (Hok : ∀ h, rw_string s (rw c false s) = Some h → arg_rewritten c (i ∈ mask) (Str s) (Str h)).
  { intros h Hh. split; [eauto|tauto]. }
  destruct (rw c false s) as [|h|e] eqn:E; [| |done].
  - rewrite decide_False by lia. apply Hnext; [by apply Hok|lia].
  - destruct (decide (2 ≤ S used)%nat) as [H2|H2].
    + intros [= <-]. apply Hcons; [by apply Hok|]. apply Hrest. lia.
    + apply Hnext; [by apply Hok|lia].
Qed.

Lemma mask_small nr : (left_from (path_arg_mask nr) 0 ≤ 2)%nat.
Proof.
  unfold path_arg_mask. destruct (bool_decide (nr ∈ _)); [by vm_compute; lia|].
  destruct (nr =? 36); [by vm_compute; lia|]. destruct (bool_decide (nr ∈ _)); by vm_compute; lia.
Qed.

(** A raw system call of the guest reaches libc with exactly its path arguments
    replaced by host paths and every other register unchanged. *)
Theorem syscall_rewrites_paths {B} (c : runtime) (real : Z * list sysarg → outcome B) (nr : Z) (args l : list sysarg) :
  g_root c ≠ [] → rewrite_args c (path_arg_mask nr) 0 0 args = Some (inr l) →
  syscall c (Some real) nr args = Some (real (nr, l)) ∧
  ∀ k a, args !! k = Some a → ∃ a', l !! k = Some a' ∧
    (k ∉ path_arg_mask nr → a' = a) ∧
    (∀ s, k ∈ path_arg_mask nr → a = Str s → starts_slash s = true → a' = Str (host_spec (g_root c) s)) ∧
    (∀ s, a = Str s → starts_slash s = false → a' = a).
Proof.
  intros Hr Hl. split; [unfold syscall; by rewrite Hl|]. intros k a Ha.
  destruct (rewrite_args_spec c (path_arg_mask nr) args 0 0 l (mask_small nr) Hl k a Ha) as (a' & Ha' & Hok).
  exists a'. split; [done|]. cbn [Nat.add] in Hok. destruct a as [z|s]; cbn [arg_rewritten] in Hok; [naive_solver|].
  destruct Hok as [H1 H2]. split; [done|]. split.
  - intros s' Hk [= <-] Hs. destruct (H1 Hk) as (h & -> & Hh). f_equal. by apply rw_string_spec in Hh.
  - intros s' [= <-] Hs. destruct (decide (k ∈ path_arg_mask nr)) as [Hk|Hk]; [|by apply H2].
    destruct (H1 Hk) as (h & -> & Hh). unfold rw, alr_rw in Hh. rewrite Hs in Hh. cbn in Hh. congruence.
Qed.

Lemma syscall_rewrites_paths_witness :
  syscall sample_rt (Some (λ a, inr (snd a))) 38 [Num (-100); Str "/etc/a"; Num (-100); Str "b"; Num 0; Num 0] =
    Some (inr [Num (-100); Str "/data/r/etc/a"; Num (-100); Str "b"; Num 0; Num 0]).
Proof.
  refine (proj1 (syscall_rewrites_paths sample_rt (λ a, inr (snd a)) 38
    [Num (-100); Str "/etc/a"; Num (-100); Str "b"; Num 0; Num 0]
    [Num (-100); Str "/data/r/etc/a"; Num (-100); Str "b"; Num 0; Num 0] _ _)); [done|by vm_compute].
Defined.

(** * Socket addresses *)

Lemma c_str_pre s r : nul ∉ s → c_str (s ++ nul :: r) = s.
Proof. intros H. unfold c_str. rewrite find_from_app_sep by done. apply take_app_length. Qed.

Lemma host_spec_prefixed root p :
  alr_is_sysdir (lexical p) = false → alr_path_under (lexical p) root = false →
  host_spec root p = root ++ (if decide (lexical p = [slash]) then [] else lexical p).
Proof. intros Hs Hu. unfold host_spec. rewrite Hs, Hu. cbn [orb]. case_decide; [by rewrite app_nil_r|done]. Qed.

Lemma guest_canon_host c p : g_root c ≠ [] → alr_is_sysdir (lexical p) = false →
  alr_path_under (lexical p) (g_root c) = false → starts_slash p = true → (length (lexical p) < ALR_PBUF)%nat →
  guest_canon c (host_spec (g_root c) p) = Some (lexical p).
Proof.
  intros Hr Hsys Hund Hp Hlen. rewrite host_spec_prefixed by done. unfold guest_canon.
  assert (Hu : alr_path_under (g_root c ++ (if decide (lexical p = [slash]) then [] else lexical p)) (g_root c) = true).
  { apply path_under_spec. split; [done|]. eexists. split; [done|]. case_decide; [done|].
    pose proof (render_absolute (canon p)) as Ha. unfold lexical. by destruct (render (canon p)). }
  rewrite bool_decide_false, Hu by done. cbn [orb negb]. case_decide as Hd.
  - rewrite app_nil_r, Nat.sub_diag. by rewrite decide_True, Hd by done.
  - rewrite length_app. assert (0 < length (lexical p))%nat by (unfold lexical; destruct (canon p); cbn; lia).
    rewrite decide_False, decide_False by lia. by rewrite drop_app_length.
Qed.

(** A guest that binds a socket to a path and asks for its address gets the normal form
    of the path back with the exact length, while the kernel binds the path in the rootfs;
    nothing is truncated. *)
Theorem unix_roundtrip (c : runtime) (p junk : bytes) (len cap : nat) :
  g_root c ≠ [] → nul ∉ p → nul ∉ g_root c → starts_slash p = true →
  alr_is_sysdir (lexical p) = false → alr_path_under (lexical p) (g_root c) = false → (3 ≤ len)%nat →
  let addr := mk_sockaddr AF_UNIX (p ++ nul :: junk) in
  un_rewrite c (Some addr) len = inl ENAMETOOLONG ∨
  ∃ un ul, un_rewrite c (Some addr) len = inr (Some (un, ul)) ∧
    c_str (sun_path un) = host_spec (g_root c) p ∧ length (sun_path un) = SUN_PATH_SIZE ∧
    ul = (SUN_PATH_OFF + length (host_spec (g_root c) p) + 1)%nat ∧
    ((ul ≤ cap)%nat → ∃ back, un_unrewrite c un ul cap = (back, (SUN_PATH_OFF + length (lexical p) + 1)%nat) ∧
       c_str (sun_path back) = lexical p).
Proof.
  intros Hr Hn Hrn Hp Hsys Hund Hlen addr. subst addr. unfold un_rewrite. cbn [sa_family sun_path].
  rewrite Z.eqb_refl, c_str_pre, Hp by done. cbn [negb]. rewrite decide_False by lia.
  destruct (rw c false p) as [|r|e] eqn:E; [|..].
  { pose proof (rw_same c p Hp Hr E) as H. by rewrite Hsys, Hund in H. }
  2: by left.
  assert (r = host_spec (g_root c) p) as ->.
  { apply rw_string_spec; [done|done|]. by rewrite E. }
  destruct (decide _) as [Hlong|Hshort]; [by left|right]. cbn [orb].
  assert (Hnl : nul ∉ lexical p) by (by apply lexical_bytes).
  assert (Hnh : nul ∉ host_spec (g_root c) p).
  { rewrite host_spec_prefixed by done. rewrite not_elem_of_app. split; [done|]. case_decide; [set_solver|done]. }
  set (hs := host_spec (g_root c) p) in *.
  assert (Hmem : hs ++ replicate (SUN_PATH_SIZE - length hs) nul = hs ++ nul :: replicate (SUN_PATH_SIZE - S (length hs)) nul).
  { f_equal. destruct (SUN_PATH_SIZE - length hs)%nat as [|k] eqn:Ek; [lia|]. cbn [replicate]. do 2 f_equal. lia. }
  assert (Hshape : (length (lexical p) ≤ length hs)%nat).
  { subst hs. rewrite host_spec_prefixed by done. rewrite length_app. case_decide as Hd; [|lia].
    rewrite Hd. destruct (g_root c); [done|]. simpl. lia. }
  eexists _, _. split; [done|]. cbn [sun_path sa_family]. split; [|split; [|split; [done|]]].
  - rewrite Hmem. by apply c_str_pre.
  - rewrite length_app, length_replicate. lia.
  - intros Hcap. unfold un_unrewrite. cbn [sa_family sun_path]. rewrite Z.eqb_refl, Hmem, c_str_pre by done. cbn [negb].
    rewrite decide_False by (unfold SUN_PATH_OFF; lia).
    assert (Hroom : Nat.min (Nat.min (cap - SUN_PATH_OFF) (SUN_PATH_OFF + length hs + 1 - SUN_PATH_OFF)) SUN_PATH_SIZE = S (length hs))
      by (unfold SUN_PATH_OFF, SUN_PATH_SIZE in *; lia).
    rewrite Hroom. rewrite decide_False by lia.
    assert (hs ≠ []) by (subst hs; rewrite host_spec_prefixed by done; by destruct (g_root c)).
    rewrite bool_decide_false by done.
    assert (Ht : has_byte nul (take (S (length hs)) (hs ++ nul :: replicate (SUN_PATH_SIZE - S (length hs)) nul)) = true).
    { apply has_byte_true. rewrite take_app. apply elem_of_app. right.
      replace (S (length hs) - length hs)%nat with 1%nat by lia. by left. }
    rewrite Ht. cbn [negb].
    assert (Hgc : guest_canon c hs = Some (lexical p)).
    { apply guest_canon_host; try done. unfold SUN_PATH_SIZE, ALR_PBUF in *. lia. }
    rewrite Hgc, decide_False by lia. eexists. split; [done|]. cbn [sun_path]. unfold store_str. by apply c_str_pre.
Qed.

Lemma unix_roundtrip_witness :
  un_rewrite sample_rt (Some (mk_sockaddr AF_UNIX ("/tmp//x.sock" ++ [nul]))) 15 = inl ENAMETOOLONG ∨
  ∃ un ul, un_rewrite sample_rt (Some (mk_sockaddr AF_UNIX ("/tmp//x.sock" ++ [nul]))) 15 = inr (Some (un, ul)) ∧
    c_str (sun_path un) = "/data/r/tmp/x.sock" ∧ length (sun_path un) = SUN_PATH_SIZE ∧ ul = 21%nat ∧
    ((ul ≤ 110)%nat → ∃ back, un_unrewrite sample_rt un ul 110 = (back, 14%nat) ∧ c_str (sun_path back) = "/tmp/x.sock").
Proof.
  refine (unix_roundtrip sample_rt "/tmp//x.sock" [] 15 110 _ _ _ _ _ _ _);
    [done|vm_compute; set_solver|vm_compute; set_solver|done|done|done|lia].
Defined.

(** The length of the address is not used to end the path: an address of six bytes is
    bound under the name that the bytes behind it spell. *)
Example address_length_ignored :
  un_rewrite sample_rt (Some (mk_sockaddr AF_UNIX ("/tmp" ++ "/other" ++ [nul]))) 6 =
    inr (Some (mk_sockaddr AF_UNIX ("/data/r/tmp/other" ++ replicate 91 nul), 20%nat)).
Proof. by vm_compute. Qed.

(** * Hard links *)

Definition same_file (a b : stat) : Prop := st_dev a = st_dev b ∧ st_ino a = st_ino b.
(** The table says nothing of a file. *)
Definition unlisted (tab : list lid) (st : stat) : Prop :=
  Forall (λ l, ¬ (lid_d l = st_dev st ∧ lid_i l = st_ino st)) tab.

Lemma lid_patch_unlisted tab st : unlisted tab st → lid_patch tab st = st.
Proof.
  induction 1 as [|l tab Hl _ IH]; [done|]. cbn [lid_patch].
  destruct (_ && _) eqn:E; [|done]. apply andb_true_iff in E as [?%Z.eqb_eq ?%Z.eqb_eq]. tauto.
Qed.
Lemma lid_patch_app tab1 tab2 st : unlisted tab1 st → lid_patch (tab1 ++ tab2) st = lid_patch tab2 st.
Proof.
  induction 1 as [|l tab Hl _ IH]; [done|]. cbn [app lid_patch].
  destruct (_ && _) eqn:E; [|done]. apply andb_true_iff in E as [?%Z.eqb_eq ?%Z.eqb_eq]. tauto.
Qed.
Lemma lid_patch_other tab l st : ¬ (lid_d l = st_dev st ∧ lid_i l = st_ino st) →
  lid_patch (tab ++ [l]) st = lid_patch tab st.
Proof.
  intros Hl. induction tab as [|k tab IH]; cbn [app lid_patch].
  - destruct (_ && _) eqn:E; [|done]. apply andb_true_iff in E as [?%Z.eqb_eq ?%Z.eqb_eq]. tauto.
  - by rewrite IH.
Qed.

(** Where the storage refuses hard links, [link] copies the file, and from then on both
    names report the identity of the source and a link count of at least two, the answers
    for all other files being unchanged; where it does not copy, the table stays as it is. *)
Theorem link_identity (c : runtime) (tab tab' : list lid) (r : outcome unit)
    (real : option (option bytes * option bytes → outcome unit)) (copy : option bytes → option bytes → bool)
    (real_stat : option bytes → option stat) (a b : bytes) (ha hb : option bytes) (sa sb : stat) :
  rw_arg c (Some a) = inr ha → rw_arg c (Some b) = inr hb →
  real_stat ha = Some sa → real_stat hb = Some sb → unlisted tab sa → unlisted tab sb →
  (length tab + 2 ≤ ALR_LID_MAX)%nat →
  link c tab real copy real_stat (Some a) (Some b) = (tab', r) →
  (tab' = tab ∧ r = need real (ha, hb)) ∨
  (r = inr () ∧ (∃ e, need real (ha, hb) = inl e ∧ copies_instead e = true) ∧ copy ha hb = true ∧
   same_file (lid_patch tab' sa) sa ∧ same_file (lid_patch tab' sb) sa ∧
   2 ≤ st_nlink (lid_patch tab' sa) ∧ 2 ≤ st_nlink (lid_patch tab' sb) ∧
   ∀ st, ¬ same_file st sa → ¬ same_file st sb → lid_patch tab' st = lid_patch tab st).
Proof.
  intros Ha Hb Hsa Hsb Hua Hub Hroom. unfold link. rewrite Ha, Hb.
  destruct (need real (ha, hb)) as [e|[]] eqn:En; [|intros [= <- <-]; by left].
  destruct (_ && _ && _) eqn:E; [|intros [= <- <-]; by left].
  apply andb_true_iff in E as [[_ Hc]%andb_true_iff Hcopy]. rewrite Hsa, Hsb.
  unfold lid_record. rewrite decide_False by lia. intros [= <- <-]. right.
  split; [done|]. split; [by exists e|]. split; [done|].
  rewrite !lid_patch_app by done. unfold same_file. cbn [lid_patch lid_d lid_i lid_sd lid_si]. rewrite !Z.eqb_refl.
  cbn [andb]. split; [|split; [|split; [|split]]].
  - destruct (_ && _) eqn:E; done.
  - done.
  - destruct (_ && _) eqn:E; cbn; lia.
  - cbn; lia.
  - intros st H1 H2. rewrite (app_assoc tab [_] [_] : tab ++ [_; _] = _).
    rewrite !lid_patch_other; [done|..]; cbn; intros [E1 E2]; [apply H2|apply H1]; done.
Qed.

Definition no_links {A} (_ : A) : outcome unit := inl EACCES.
Definition two_files (h : option bytes) : option stat :=
  if bool_decide (h = Some (str "/data/r/a")) then Some (mk_stat 1 10 1)
  else if bool_decide (h = Some (str "/data/r/b")) then Some (mk_stat 1 11 1)
  else if bool_decide (h = Some (str "/data/r/c")) then Some (mk_stat 1 12 1) else None.

Lemma link_identity_witness :
  let tab := fst (link sample_rt [] (Some no_links) (λ _ _, true) two_files (Some (str "/a")) (Some (str "/b"))) in
  same_file (lid_patch tab (mk_stat 1 11 1)) (mk_stat 1 10 1).
Proof.
  intros tab. subst tab.
  destruct (link sample_rt [] (Some no_links) (λ _ _, true) two_files (Some (str "/a")) (Some (str "/b"))) as [tab r] eqn:E.
  pose proof (link_identity sample_rt [] tab r (Some no_links) (λ _ _, true) two_files "/a" "/b"
    (Some (str "/data/r/a")) (Some (str "/data/r/b")) (mk_stat 1 10 1) (mk_stat 1 11 1)
    ltac:(by vm_compute) ltac:(by vm_compute) ltac:(by vm_compute) ltac:(by vm_compute)
    (Forall_nil_2 _) (Forall_nil_2 _) ltac:(vm_compute; lia) E) as [[Ht Hr]|H].
  - exfalso. subst. vm_compute in E. done.
  - apply H.
Defined.

(** A link to a link: the second copy reports the first copy's own identity, which the
    first copy itself no longer reports. *)
Example link_chain_differs :
  let tab1 := fst (link sample_rt [] (Some no_links) (λ _ _, true) two_files (Some (str "/a")) (Some (str "/b"))) in
  let tab2 := fst (link sample_rt tab1 (Some no_links) (λ _ _, true) two_files (Some (str "/b")) (Some (str "/c"))) in
  st_ino (lid_patch tab2 (mk_stat 1 11 1)) = 10 ∧ st_ino (lid_patch tab2 (mk_stat 1 12 1)) = 11.
Proof. by vm_compute. Qed.

(** * Templates and walks *)

(** The template of a temporary file comes back as the guest path of the file made, for
    templates in normal form outside the virtual directories. *)
Lemma template_written {A} c (real : bytes → bytes * A) junk tmpl s a :
  g_root c ≠ [] → starts_slash tmpl = true → lexical tmpl = tmpl → tmpl ≠ [slash] →
  alr_is_sysdir tmpl = false → alr_path_under tmpl (g_root c) = false →
  real (g_root c ++ tmpl) = (g_root c ++ s, a) → length s = length tmpl → nul ∉ s →
  template_call c (Some real) junk tmpl = inl ENAMETOOLONG ∨
  template_call c (Some real) junk tmpl = inr (s, a).
Proof.
  intros Hr Hs Hl Hne Hsys Hund Hreal Hlen Hn. unfold template_call.
  destruct (rw c false tmpl) as [|h|e] eqn:E; [|..].
  - pose proof (rw_same c tmpl Hs Hr E) as H. by rewrite Hl, Hsys, Hund in H.
  - right. assert (h = g_root c ++ tmpl) as ->.
    { rewrite (rw_string_spec c tmpl h Hs Hr) by (by rewrite E).
      rewrite host_spec_prefixed by (by rewrite Hl). rewrite Hl. by rewrite decide_False. }
    cbn [rw_string]. rewrite Hreal. cbn [tmpl_writeback]. do 2 f_equal.
    rewrite <- (assoc_L (++)), drop_app_length, <- Hlen, take_app_length.
    unfold c_str. destruct (find_from nul s) as [k|] eqn:Ek; [|done].
    apply find_from_Some in Ek as (q & Eq & _). exfalso. apply Hn. rewrite Eq. set_solver.
  - by left.
Qed.

(** A template under a virtual directory that is not in normal form comes back as bytes
    from the middle of the buffer. *)
Example template_sysdir_garbled :
  template_call sample_rt (Some (λ s : bytes, (s, true))) (replicate 40 "?"%byte) "/dev//shm/XXXXXX" =
    inr (str "m/XXXXXX", true).
Proof. by vm_compute. Qed.

(** The walker hands its callback the guest path with the offset of the same component. *)
Lemma nftw_base c rest base : g_root c ≠ [] → rest ≠ [] → starts_slash rest = true →
  (length (g_root c) ≤ base ≤ length (g_root c ++ rest))%nat → (length rest < ALR_PBUF)%nat →
  nftw_tramp c (g_root c ++ rest) (Z.of_nat base) = (rest, Z.of_nat (base - length (g_root c))) ∧
  drop (base - length (g_root c)) rest = drop base (g_root c ++ rest).
Proof.
  intros Hr Hne Hs Hb Hl. unfold nftw_tramp, guest_canon. rewrite bool_decide_false by done.
  assert (alr_path_under (g_root c ++ rest) (g_root c) = true) as ->.
  { apply path_under_spec. split; [done|]. exists rest. by destruct rest. }
  cbn [negb orb]. rewrite length_app in *. assert (0 < length rest)%nat by (destruct rest; [done|simpl; lia]).
  rewrite decide_False, decide_False, drop_app_length by lia. split; [f_equal; lia|].
  rewrite drop_app_ge by lia. done.
Qed.

(** Every counted call lands in exactly one bucket. *)
Definition sum_ok (n : counts) : Prop :=
  u64 (n_total n) = u64 (n_rewritten n + n_rel n + n_sysdir n + n_underroot n).
Lemma count_total c p r n : sum_ok n → sum_ok (count_rw c p r n).
Proof.
  destruct n as [t a b d e]. unfold count_rw, sum_ok. destruct (g_count c); cbn [negb]; [|done].
  intros H. cbn in H.
  destruct r; repeat case_match; cbn [n_total n_rewritten n_rel n_sysdir n_underroot];
    unfold u64 in *; Z.div_mod_to_equations; lia.
Qed.

(** The names [tmpnam] gives stay the same after the tenth call of a process with a
    five-digit number. *)
Example tmpnam_repeats : tmpnam true 12345 10 = tmpnam true 12345 11.
Proof. by vm_compute. Qed.
