(* ===== verification/PreloadExec.v ===== *)
(** * The preload library of the C runtime: exec ([runtime/alr/src/preload/alr_preload.c])

    Every exec of the guest is turned into a call of the guest's loader, of the lane or of
    the program itself.  The pointers the argument vector holds are modelled where they
    matter: [exec_build] keeps pointers into one shebang record that each level of a chain
    of scripts overwrites.  Files, access checks and the final exec are parameters. *)

From S2P Require Import Prelude Bytes PathRule ExecPlan AlrElf PreloadPath.

Local Open Scope Z_scope.

Definition ENOENT : Z := 2.
Definition ENOEXEC : Z := 8.
Definition ELOOP : Z := 40.
Definition ALR_SHEBANG_MAX_DEPTH : nat := 4.
Definition ALR_PROBE_BYTES : nat := 256.
Definition ALR_SHEBANG_IBUF : Z := 256.
Definition ALR_EXEC_MAXARG : nat := 4096.
Definition ALR_ENV_MAX : nat := 256.
Definition ALR_NCARRY : nat := 10.
Definition LP_SIZE : nat := (ALR_PBUF * 3)%nat.

(** What the library can ask of the system, by host path: the content of a file it opens,
    whether a file exists or may be executed, whether a directory exists. *)
Record system := mk_system {
  open_file : bytes → outcome bytes;
  exists_file : bytes → bool;
  may_execute : bytes → bool;
  is_directory : bytes → bool;
}.

Definition colon_byte : byte := ":"%byte.

Section exec.
Context (c : runtime) (sys : system).

(** ** The library path of a program *)

(** The loop over the tokens of the run path; [lp] is what the prints so far would have
    written, and its length the offset of the next.  [None]: that offset is behind the
    buffer, which happens when the variable itself does not fit. *)
Fixpoint libpath_loop (toks : list bytes) (lp : bytes) : option bytes :=
  match toks with
  | [] => Some lp
  | tok :: toks =>
      if negb (starts_slash tok) then libpath_loop toks lp
      else
        let cand := g_root c ++ tok in
        if decide (ALR_PBUF ≤ length cand)%nat then libpath_loop toks lp
        else if negb (is_directory sys cand) then libpath_loop toks lp
        else if decide (LP_SIZE < length lp)%nat then None
        else
          let lp := lp ++ colon_byte :: cand in
          if decide (LP_SIZE - 1 ≤ length lp)%nat then Some lp else libpath_loop toks lp
  end.
Definition tokens (rpath : bytes) : list bytes := filter (λ t, t ≠ []) (split_on colon_byte rpath).
(** [libpath_for]: the inner [None] is a NULL. *)
Definition libpath_for (host : bytes) : option (option bytes) :=
  match g_libpath c with
  | None => Some None
  | Some lp0 =>
      match open_file sys host with
      | inl _ => Some (Some lp0)
      | inr content =>
          match alr_rpath (Some (file_reader content)) (take ALR_PROBE_BYTES content) ALR_PBUF with
          | None | Some [] => Some (Some lp0)
          | Some rpath => lp ← libpath_loop (tokens rpath) lp0; Some (Some (take (LP_SIZE - 1) lp))
          end
      end
  end.

(** ** The environment of the child *)

Definition exe_key : bytes := "ALR_GUEST_EXE=".
(** The first loop: entries up to the cap, the identity replaced. *)
Fixpoint env_copy (envp : list bytes) (kv : bytes) (n : nat) : option (list bytes * bool) :=
  match envp with
  | [] => Some ([], false)
  | e :: envp =>
      if decide (ALR_ENV_MAX - 2 - ALR_NCARRY ≤ n)%nat then None
      else
        '(out, seen) ← env_copy envp kv (S n);
        Some (if is_prefix exe_key e then (kv :: out, true) else (e :: out, seen))
  end.
(** [env_set_exe]; [None] is a NULL vector. *)
Definition env_set_exe (envp : option (list bytes)) (guest : bytes) : option (list bytes) :=
  match envp with
  | None => None
  | Some envp =>
      let kv := exe_key ++ guest in
      if decide (ALR_PBUF + 16 ≤ length kv)%nat then Some envp
      else match env_copy envp kv 0 with
           | None => Some envp
           | Some (out, seen) =>
               let out := if seen then out else out ++ [kv] in
               Some (out ++ (snd <$> filter (λ k, existsb (is_prefix (fst k)) envp = false) (g_carry c)))
           end
  end.

(** [env_strip]: at most [ALR_ENV_MAX] entries are kept. *)
Definition stripped (lane : bool) (e : bytes) : bool :=
  is_prefix "LD_PRELOAD=" e || is_prefix "LD_LIBRARY_PATH=" e || is_prefix "LOCPATH=" e ||
  (lane && is_prefix "ALR_" e).
Definition env_strip (lane : bool) (ep : list bytes) : list bytes :=
  take ALR_ENV_MAX (filter (λ e, stripped lane e = false) ep).

(** ** The argument vector *)

(** A pointer: to a string that stays, or into the record [sb] of [exec_build]. *)
Inductive ptr := At (s : bytes) | SbInterp | SbArg.
Definition deref (sb : alr_shebang) (p : ptr) : bytes :=
  match p with At s => s | SbInterp => interp sb | SbArg => arg sb end.

(** One entry of [lvl]: the argument of a script's first line, and the script. *)
Definition level : Type := option ptr * ptr.
Record resolved := mk_resolved {
  r_sb : alr_shebang; r_cur : ptr; r_host : bytes; r_kind : alr_exe_kind; r_interp : bytes; r_go : bool;
  r_lvl : list level;
}.
Definition no_shebang : alr_shebang := mk_alr_shebang [] [] false.

(** The loop: [depth] is what is left of the limit; [lvl] the levels, innermost first.
    [None]: the search for the note of the Go toolchain does not end. *)
Fixpoint resolve_loop (depth : nat) (sb : alr_shebang) (cur : ptr) (lvl : list level) : option (outcome resolved) :=
  match rw_string (deref sb cur) (rw c false (deref sb cur)) with
  | None => Some (inl ENAMETOOLONG)
  | Some host =>
      match open_file sys host with
      | inl e => Some (inl e)
      | inr content =>
          let head := take ALR_PROBE_BYTES content in
          let k := alr_classify head (Some (file_reader content)) true (Some ALR_SHEBANG_IBUF) in
          match kind k with
          | ALR_EXE_SHEBANG =>
              match depth with
              | S depth =>
                  if decide (depth = 0)%nat then Some (inl ELOOP)
                  else
                    let sb := default no_shebang (shebang k) in
                    resolve_loop depth sb SbInterp ((if has_arg sb then Some SbArg else None, cur) :: lvl)
              | 0%nat => Some (inl ELOOP)
              end
          | kd =>
              go ← (if bool_decide (kd = ALR_EXE_ELF_DYNAMIC) && bool_decide (is_Some (g_lane c))
                    then alr_elf_is_go note_fuel head (Some (file_reader content)) else Some false);
              Some (inr (mk_resolved sb cur host kd (c_str (interp_out k)) go lvl))
          end
      end
  end.

(** The appends at the end of [av], which stop two entries before its end. *)
Definition room (av : list ptr) : nat := (ALR_EXEC_MAXARG - 2 - length av)%nat.
Fixpoint push_levels (av : list ptr) (lvl : list level) : list ptr :=
  match lvl with
  | [] => av
  | (a, f) :: lvl =>
      if decide (room av = 0)%nat then av
      else push_levels (av ++ (match a with Some a => [a] | None => [] end) ++ [f]) lvl
  end.
Definition push_args (av : list ptr) (args : list bytes) : list ptr := av ++ take (room av) (At <$> args).
(** The arguments of a static program: absolute ones that exist under the root become host
    paths, eight at most. *)
Fixpoint static_args (nb : nat) (args : list bytes) : list bytes :=
  match args with
  | [] => []
  | a :: args =>
      if starts_slash a && bool_decide (nb < 8)%nat
      then match rw c false a with
           | RwBuf h => if exists_file sys h then h :: static_args (S nb) args else a :: static_args nb args
           | _ => a :: static_args nb args
           end
      else a :: static_args nb args
  end.

Inductive target := Interposed | HostBinary | InLane.
Record built := mk_built { b_file : bytes; b_av : list ptr; b_ident : ptr; b_host : target; b_sb : alr_shebang }.
Definition argv0_or (argv : list bytes) (p : ptr) : ptr := match argv with a :: _ => At a | [] => p end.

Definition lane_args : list ptr :=
  (At <$> strs ["-r"]) ++ [At (g_root c)] ++
  (At <$> strs ["-b"; "/proc:/proc"; "-b"; "/dev:/dev"; "-b"; "/sys:/sys"]) ++
  (if g_fakeroot c then [At (str "--fakeroot")] else []) ++ [At (str "--")].

(** What [exec_build] does with a resolved program, by branches. *)
Definition is_host_binary (r : resolved) : bool :=
  negb (bool_decide (r_interp r = [])) &&
  negb (exists_file sys (take (ALR_PBUF - 1) (g_root c ++ r_interp r))) && exists_file sys (r_interp r).
Definition build_host (r : resolved) (argv : list bytes) : built :=
  mk_built (r_host r) (push_args [argv0_or argv (r_cur r)] (tail argv)) (r_cur r) HostBinary (r_sb r).
Definition build_lane (lane : bytes) (r : resolved) (argv : list bytes) : built :=
  mk_built lane
    (push_args (push_levels (At lane :: lane_args ++ [r_cur r]) (r_lvl r)) (tail argv)) (r_cur r) InLane (r_sb r).
Definition build_static (r : resolved) (argv : list bytes) : built :=
  mk_built (r_host r)
    (push_args (push_levels [argv0_or argv (r_cur r)] (r_lvl r)) (static_args 0 (tail argv))) (r_cur r) Interposed (r_sb r).
Definition build_loader (ldso : bytes) (lp : option bytes) (guest : bytes) (r : resolved) (argv : list bytes) : built :=
  let av := [At ldso] ++
    (match lp with Some lp => [At (str "--library-path"); At lp] | None => [] end) ++
    [At (str "--inhibit-cache"); At (str "--argv0");
     if bool_decide (r_lvl r = []) then argv0_or argv (At guest) else r_cur r] ++
    (match g_preload c with Some p => [At (str "--preload"); At p] | None => [] end) ++ [At (r_host r)] in
  mk_built ldso (push_args (push_levels av (r_lvl r)) (tail argv)) (r_cur r) Interposed (r_sb r).

Definition exec_build (guest : bytes) (argv : list bytes) : option (outcome built) :=
  res ← resolve_loop ALR_SHEBANG_MAX_DEPTH no_shebang (At guest) [];
  match res with
  | inl e => Some (inl e)
  | inr r =>
      if bool_decide (r_kind r = ALR_EXE_UNSUPPORTED) then Some (inl ENOEXEC)
      else if is_host_binary r then Some (inr (build_host r argv))
      else match g_lane c, g_ldso c with
      | Some lane, ldso =>
          if bool_decide (r_kind r = ALR_EXE_ELF_STATIC) || r_go r then Some (inr (build_lane lane r argv))
          else match ldso with
               | None => Some (inr (build_static r argv))
               | Some ld => lp ← libpath_for (r_host r); Some (inr (build_loader ld lp guest r argv))
               end
      | None, None => Some (inr (build_static r argv))
      | None, Some ld =>
          if bool_decide (r_kind r = ALR_EXE_ELF_STATIC) then Some (inr (build_static r argv))
          else lp ← libpath_for (r_host r); Some (inr (build_loader ld lp guest r argv))
      end
  end.

(** ** The entry points *)

(** What execve or posix_spawn of libc is called with. *)
Record call := mk_call { x_file : bytes; x_argv : list bytes; x_envp : option (list bytes) }.
(** [exec_dispatch] and [spawn_common] up to the call itself. *)
Definition exec_dispatch (guest : bytes) (argv : list bytes) (envp : option (list bytes)) : option (outcome call) :=
  res ← exec_build guest argv;
  match res with
  | inl e => Some (inl e)
  | inr b =>
      let ep := env_set_exe envp (deref (b_sb b) (b_ident b)) in
      let ep := match b_host b with
                | Interposed => ep
                | HostBinary => env_strip false <$> ep
                | InLane => env_strip true <$> ep
                end in
      Some (inr (mk_call (b_file b) (deref (b_sb b) <$> b_av b) ep))
  end.

Definition default_path : bytes := "/usr/local/sbin:/usr/local/bin:/usr/sbin:/usr/bin:/sbin:/bin".
Definition search_path (PATH : option bytes) : bytes :=
  match PATH with Some (x :: p) => x :: p | _ => default_path end.
(** The candidates in order, empty elements skipped; each is cut to the buffer. *)
Definition candidates (PATH : option bytes) (file : bytes) : list bytes :=
  (λ d, take (ALR_PBUF - 1) (d ++ slash :: file)) <$>
  filter (λ d, d ≠ []) (split_on colon_byte (search_path PATH)).
Definition executable (cand : bytes) : bool :=
  match rw_string cand (rw c false cand) with Some h => may_execute sys h | None => false end.

(** [exec_path_search]: [dispatch] is [exec_dispatch] with its call; [inr] is a program that
    took over, [inl] the errno of a failure.  The candidates tried are listed. *)
Fixpoint search_loop (dispatch : bytes → Z + unit) (cands : list bytes) (saved : Z) : list bytes * (Z + unit) :=
  match cands with
  | [] => ([], inl saved)
  | cand :: cands =>
      if executable cand
      then match dispatch cand with
           | inr () => ([cand], inr ())
           | inl e => let '(tried, r) := search_loop dispatch cands e in (cand :: tried, r)
           end
      else search_loop dispatch cands saved
  end.
Definition exec_path_search (dispatch : bytes → Z + unit) (PATH : option bytes) (file : bytes) : list bytes * (Z + unit) :=
  if has_byte slash file then ([file], dispatch file)
  else search_loop dispatch (candidates PATH file) ENOENT.
(** [spawn_search] *)
Definition spawn_search (PATH : option bytes) (file : bytes) : bytes :=
  if has_byte slash file then file
  else default file (head (filter (λ d, executable d = true) (candidates PATH file))).
End exec.

(** * The argument vector against the kernel's *)

Section kernel.
Context (c : runtime) (sys : system).

(** What the first line of a file says, if it is a script the library can open. *)
Definition classified_as (file : bytes) : option classified :=
  host ← rw_string file (rw c false file);
  match open_file sys host with
  | inl _ => None
  | inr content =>
      Some (alr_classify (take ALR_PROBE_BYTES content) (Some (file_reader content)) true (Some ALR_SHEBANG_IBUF))
  end.
Definition script_of (file : bytes) : option alr_shebang :=
  k ← classified_as file;
  if bool_decide (kind k = ALR_EXE_SHEBANG) then Some (default no_shebang (shebang k)) else None.

(** binfmt_script of the kernel: the interpreter gets its one argument, the script and the
    arguments of the script. *)
Definition script_argv (sb : alr_shebang) (file : bytes) (argv : list bytes) : list bytes :=
  interp sb :: (if has_arg sb then [arg sb] else []) ++ file :: tail argv.
Fixpoint kernel_argv (depth : nat) (file : bytes) (argv : list bytes) : list bytes :=
  match depth with
  | 0%nat => argv
  | S depth =>
      match script_of file with
      | Some sb => kernel_argv depth (interp sb) (script_argv sb file argv)
      | None => argv
      end
  end.

Lemma resolve_step depth sb cur lvl res :
  resolve_loop c sys depth sb cur lvl = Some (inr res) →
  (script_of (deref sb cur) = None ∧ r_sb res = sb ∧ r_cur res = cur ∧ r_lvl res = lvl) ∨
  (∃ sb', script_of (deref sb cur) = Some sb' ∧ (2 ≤ depth)%nat ∧
     resolve_loop c sys (depth - 1) sb' SbInterp ((if has_arg sb' then Some SbArg else None, cur) :: lvl) = Some (inr res)).
Proof.
  unfold script_of, classified_as. destruct depth as [|depth]; cbn [resolve_loop];
    (destruct (rw_string _ _) as [host|]; [|done]); cbn [mbind option_bind];
    (destruct (open_file sys host) as [e|content]; [done|]); cbn [mbind option_bind];
    (destruct (kind (alr_classify _ _ _ _)) eqn:Hk; [| | |]).
  4: done.
  1-3,4-6: intros H; left; apply bind_Some in H as (go & _ & [= <-]); done.
  destruct (decide (depth = 0)%nat); [done|]. intros H. right. eexists. split; [done|]. split; [lia|].
  by rewrite Nat.sub_succ, Nat.sub_0_r.
Qed.

Lemma kernel_argv_none n file argv : script_of file = None → kernel_argv n file argv = argv.
Proof. intros E. destruct n; cbn [kernel_argv]; [done|]. by rewrite E. Qed.

(** Up to one script: the vector the kernel would give the interpreter. *)
Lemma resolve_short guest argv res :
  resolve_loop c sys ALR_SHEBANG_MAX_DEPTH no_shebang (At guest) [] = Some (inr res) → (length (r_lvl res) ≤ 1)%nat →
  let kargv := kernel_argv ALR_SHEBANG_MAX_DEPTH guest argv in
  (r_lvl res = [] ∧ deref (r_sb res) (r_cur res) = guest ∧ kargv = argv) ∨
  (∃ lv, r_lvl res = [lv] ∧
     kargv = deref (r_sb res) (r_cur res) ::
       (deref (r_sb res) <$> (match fst lv with Some a => [a] | None => [] end) ++ [snd lv]) ++ tail argv).
Proof.
  intros Hres Hlen kargv. subst kargv.
  apply resolve_step in Hres as [(Hn & E1 & E2 & E3)|(sb & Hs & _ & Hres)].
  { left. rewrite E1, E2. split; [done|]. split; [done|]. by apply kernel_argv_none. }
  right. cbn [deref] in Hs. apply resolve_step in Hres as [(Hn & E1 & E2 & E3)|(sb' & _ & _ & Hres)].
  - rewrite E3, E1, E2. eexists. split; [done|]. cbn [kernel_argv ALR_SHEBANG_MAX_DEPTH]. rewrite Hs.
    cbn [deref] in Hn. rewrite Hn. unfold script_argv. cbn [fst snd deref]. by destruct (has_arg sb).
  - exfalso. assert (Hlong : ∀ d sb cur lvl, (2 ≤ length lvl)%nat → resolve_loop c sys d sb cur lvl = Some (inr res) →
      (2 ≤ length (r_lvl res))%nat).
    { clear. induction d as [d IH] using lt_wf_ind. intros sb cur lvl Hl H.
      apply resolve_step in H as [(_ & _ & _ & ->)|(sb' & _ & Hd & H)]; [done|].
      apply (IH (d - 1)%nat ltac:(lia)) in H; [done|]. simpl. lia. }
    apply Hlong in Hres; [lia|simpl; lia].
Qed.
End kernel.

Definition loader_prefix (c : runtime) (ld : bytes) (lp : option bytes) (argv0 host : bytes) : list bytes :=
  [ld] ++ (match lp with Some lp => [str "--library-path"; lp] | None => [] end) ++
  [str "--inhibit-cache"; str "--argv0"; argv0] ++
  (match g_preload c with Some p => [str "--preload"; p] | None => [] end) ++ [host].

Lemma push_levels_one av lv : (length av < 4000)%nat →
  push_levels av [lv] = av ++ (match fst lv with Some a => [a] | None => [] end) ++ [snd lv].
Proof.
  intros H. destruct lv as [a f]. cbn [push_levels fst snd]. rewrite decide_False; [done|].
  unfold room, ALR_EXEC_MAXARG. lia.
Qed.
Lemma push_args_all av args : (length av + length args < 4094)%nat → push_args av args = av ++ (At <$> args).
Proof. intros H. unfold push_args. rewrite take_ge; [done|]. rewrite length_fmap. unfold room, ALR_EXEC_MAXARG. lia. Qed.
Lemma deref_At sb (l : list bytes) : deref sb <$> (At <$> l) = l.
Proof. rewrite <- list_fmap_compose. apply list_fmap_id. Qed.

Lemma loader_dispatch (c : runtime) (sys : system) (guest ld : bytes) (argv : list bytes)
    (envp : option (list bytes)) (r : resolved) (lp : option bytes) :
  resolve_loop c sys ALR_SHEBANG_MAX_DEPTH no_shebang (At guest) [] = Some (inr r) →
  (length (r_lvl r) ≤ 1)%nat → r_kind r = ALR_EXE_ELF_DYNAMIC → r_go r = false → is_host_binary c sys r = false →
  g_ldso c = Some ld → libpath_for c sys (r_host r) = Some lp → (0 < length argv < 4000)%nat →
  let kargv := kernel_argv c sys ALR_SHEBANG_MAX_DEPTH guest argv in
  exec_dispatch c sys guest argv envp =
    Some (inr (mk_call ld (loader_prefix c ld lp (hd [] kargv) (r_host r) ++ tail kargv)
                 (env_set_exe c envp (deref (r_sb r) (r_cur r))))).
Proof.
  intros Hres Hlvl Hkind Hgo Hhost Hld Hlp Hargv kargv. set (prog := deref (r_sb r) (r_cur r)).
  destruct argv as [|a0 args]; [simpl in Hargv; lia|]. simpl in Hargv.
  assert (Hb : exec_build c sys guest (a0 :: args) = Some (inr (build_loader c ld lp guest r (a0 :: args)))).
  { unfold exec_build. rewrite Hres. cbn [mbind option_bind]. rewrite Hkind, Hhost, Hgo, Hld, Hlp.
    rewrite !bool_decide_false by done. by destruct (g_lane c). }
  assert (Hk := resolve_short c sys guest (a0 :: args) r Hres Hlvl). cbv zeta in Hk. fold kargv in Hk. fold prog in Hk.
  unfold exec_dispatch. rewrite Hb. cbn [mbind option_bind]. unfold build_loader. cbn [b_host b_sb b_ident b_av b_file]. fold prog.
  destruct Hk as [(E1 & E2 & E3)|(lv & E1 & E3)]; rewrite E1.
  - rewrite bool_decide_true by done. cbn [push_levels argv0_or tail].
    rewrite push_args_all by (rewrite !length_app; destruct lp, (g_preload c); simpl; lia).
    do 3 f_equal. rewrite E3. cbn [hd tail]. unfold loader_prefix.
    rewrite !fmap_app, deref_At. by destruct lp, (g_preload c).
  - rewrite bool_decide_false by done. cbn [tail].
    rewrite push_levels_one by (rewrite !length_app; destruct lp, (g_preload c); simpl; lia).
    rewrite push_args_all by (rewrite !length_app; destruct lv as [[] ?], lp, (g_preload c); simpl; lia).
    do 3 f_equal. rewrite E3. cbn [hd tail]. unfold loader_prefix.
    rewrite !fmap_app, deref_At. destruct lv as [[] ?], lp, (g_preload c); cbn; by rewrite <- ?(assoc_L (++)).
Qed.


(** A rootfs with the shell, a script and a script whose interpreter is that script. *)
Definition sample_files (h : bytes) : outcome bytes :=
  if bool_decide (h = "/data/r/bin/sh") then inr sample
  else if bool_decide (h = "/data/r/s") then inr ("#!/bin/sh -x" ++ [newline])
  else if bool_decide (h = "/data/r/n") then inr ("#!/s" ++ [newline])
  else inl ENOENT.
Definition sample_sys : system :=
  mk_system sample_files (λ h, bool_decide (h = "/data/r/lib/ld.so")) (λ h, bool_decide (h = "/data/r/s"))
    (λ h, bool_decide (h = "/data/r/opt/lib")).
Definition sample_call (argv0 : bytes) (rest : list bytes) (envp : option (list bytes)) : call :=
  mk_call "/data/r/lib/ld.so"
    (strs ["/data/r/lib/ld.so"; "--library-path"; "/data/r/lib:/data/r/opt/lib"; "--inhibit-cache"; "--argv0"] ++
     [argv0] ++ strs ["--preload"; "/data/alr.so"; "/data/r/bin/sh"] ++ rest) envp.


(** With a script as the interpreter of a script the levels share one record: the shell is
    given its own path as the script. *)
Example nested_scripts_aliased :
  exec_dispatch sample_rt sample_sys "/n" (strs ["n"; "a"]) None =
    Some (inr (sample_call "/bin/sh" (strs ["-x"; "/bin/sh"; "/n"; "a"]) None)) ∧
  kernel_argv sample_rt sample_sys ALR_SHEBANG_MAX_DEPTH "/n" (strs ["n"; "a"]) = strs ["/bin/sh"; "-x"; "/s"; "/n"; "a"].
Proof. by vm_compute. Qed.

(** A script run by a program of the host gets no script argument. *)
Example host_script_dropped :
  let sys := mk_system sample_files (λ h, bool_decide (h = "/lib/ld.so")) (λ _, false) (λ _, false) in
  exec_dispatch sample_rt sys "/s" (strs ["s"; "a"]) None =
    Some (inr (mk_call "/data/r/bin/sh" (strs ["s"; "a"]) None)).
Proof. by vm_compute. Qed.

(** * The environment *)

Definition is_exe (e : bytes) : bool := is_prefix exe_key e.
Lemma env_copy_spec envp kv n : (n + length envp ≤ ALR_ENV_MAX - 2 - ALR_NCARRY)%nat →
  env_copy envp kv n = Some ((λ e, if is_exe e then kv else e) <$> envp, existsb is_exe envp).
Proof.
  revert n. induction envp as [|e envp IH]; intros n Hn; cbn [env_copy]; [done|].
  cbn [length] in Hn. rewrite decide_False by lia. rewrite (IH (S n)) by lia.
  cbn [mbind option_bind fmap list_fmap existsb]. change (is_prefix exe_key e) with (is_exe e).
  by destruct (is_exe e).
Qed.
Lemma env_copy_full envp kv n : (n ≤ ALR_ENV_MAX - 2 - ALR_NCARRY)%nat →
  (ALR_ENV_MAX - 2 - ALR_NCARRY < n + length envp)%nat → env_copy envp kv n = None.
Proof.
  revert n. induction envp as [|e envp IH]; intros n Hn Hl; cbn [env_copy]; cbn [length] in Hl; [lia|].
  destruct (decide _); [done|]. by rewrite IH by lia.
Qed.

Lemma carry_entries getenv : Forall (λ k, is_prefix (fst k) (snd k) = true ∧ is_exe (snd k) = false ∧
    ∀ r, is_prefix (fst k) (exe_key ++ r) = false) (carry_capture getenv).
Proof.
  apply Forall_forall. intros k Hk. unfold carry_capture in Hk.
  apply list_elem_of_omap in Hk as (name & Hin & Hk). apply bind_Some in Hk as (v & _ & Hv).
  destruct (decide _); [|done]. injection Hv as <-. cbn [fst snd]. split.
  { apply is_prefix_spec. exists v. by rewrite <- (assoc_L (++)). }
  unfold carried, strs in Hin. repeat (apply elem_of_cons in Hin as [->|Hin]; [done|]). by apply elem_of_nil in Hin.
Qed.
Lemma length_omap_le {A B} (f : A → option B) l : (length (omap f l) ≤ length l)%nat.
Proof. induction l as [|x l IH]; [done|]. unfold omap in *. cbn. destruct (f x); cbn; lia. Qed.
Lemma carry_length getenv : (length (carry_capture getenv) ≤ ALR_NCARRY)%nat.
Proof. apply (length_omap_le _ carried). Qed.

(** The environment of a child of an initialised library names the child as the running
    program, keeps every other variable of the guest in order, holds every variable of the
    runtime the guest may have removed, and is passed on unchanged when it is too long. *)
Theorem child_environment (getenv : bytes → option bytes) (envp : list bytes) (guest : bytes) :
  let c := alr_init getenv in
  ∃ out, env_set_exe c (Some envp) guest = Some out ∧
    ((ALR_ENV_MAX - 2 - ALR_NCARRY < length envp ∨ ALR_PBUF + 16 ≤ length (exe_key ++ guest))%nat → out = envp) ∧
    ((length envp ≤ ALR_ENV_MAX - 2 - ALR_NCARRY ∧ length (exe_key ++ guest) < ALR_PBUF + 16)%nat →
      (exe_key ++ guest) ∈ out ∧
      Forall (λ e, is_exe e = true → e = exe_key ++ guest) out ∧
      (∃ added, filter (λ e, is_exe e = false) out = filter (λ e, is_exe e = false) envp ++ added ∧
         added `sublist_of` (snd <$> carry_capture getenv)) ∧
      Forall (λ k, ∃ e, e ∈ out ∧ is_prefix (fst k) e = true) (carry_capture getenv) ∧
      (length out ≤ ALR_ENV_MAX)%nat).
Proof.
  intros c. subst c. unfold env_set_exe. cbn [g_carry alr_init].
  destruct (decide (ALR_PBUF + 16 ≤ length (exe_key ++ guest))%nat) as [Hk|Hk].
  { exists envp. split; [done|]. split; [done|]. intros [? ?]; lia. }
  destruct (decide (length envp ≤ ALR_ENV_MAX - 2 - ALR_NCARRY)%nat) as [Hl|Hl].
  2:{ rewrite env_copy_full by (unfold ALR_ENV_MAX, ALR_NCARRY in *; lia). exists envp. split; [done|]. split; [done|]. intros [? ?]; lia. }
  rewrite env_copy_spec by lia. set (kv := exe_key ++ guest) in *.
  set (added := snd <$> filter _ (carry_capture getenv)).
  set (body := (λ e, if is_exe e then kv else e) <$> envp).
  assert (Hkv : is_exe kv = true) by (apply is_prefix_spec; by exists guest).
  assert (Hadd : Forall (λ e, is_exe e = false) added).
  { apply Forall_fmap, Forall_forall. intros k [_ Hk']%list_elem_of_filter. pose proof (carry_entries getenv) as Hc.
    rewrite Forall_forall in Hc. by apply Hc. }
  assert (Hsub : added `sublist_of` (snd <$> carry_capture getenv)) by (apply fmap_sublist, sublist_filter).
  assert (Hbody : Forall (λ e, is_exe e = true → e = kv) body).
  { apply Forall_fmap, Forall_true. intros e. unfold compose. destruct (is_exe e) eqn:He; [done|]. by rewrite He. }
  assert (Hfil : filter (λ e, is_exe e = false) body = filter (λ e, is_exe e = false) envp).
  { clear -Hkv. unfold body. induction envp as [|e envp IH]; [done|]. cbn [fmap list_fmap]. rewrite !filter_cons.
    destruct (is_exe e) eqn:E; [by rewrite Hkv|by rewrite E, IH]. }
  assert (Hlist : ∃ tl, (if existsb is_exe envp then body else body ++ [kv]) = body ++ tl ∧
    (tl = [] ∧ kv ∈ body ∨ tl = [kv])).
  { destruct (existsb is_exe envp) eqn:E; [|by exists [kv]; split; [|right]].
    exists []. split; [by rewrite app_nil_r|]. left. split; [done|]. apply existsb_exists in E as (e & He & Hee).
    apply list_elem_of_fmap. exists e. rewrite Hee. split; [done|]. by apply list_elem_of_In. }
  destruct Hlist as (tl & -> & Htl). eexists. split; [done|]. split; [lia|]. intros _. split; [|split; [|split; [|split]]].
  - rewrite !elem_of_app. destruct Htl as [[_ H]| ->]; [by left; left|left; right; by left].
  - apply Forall_app_2; [apply Forall_app_2|]; [done| |].
    + destruct Htl as [[-> _]| ->]; repeat constructor.
    + eapply Forall_impl; [exact Hadd|]. cbn. intros e He. by rewrite He.
  - exists added. split; [|done]. rewrite !filter_app, Hfil. f_equal; [|by apply filter_all].
    destruct Htl as [[-> _]| ->]; [by rewrite app_nil_r|]. by rewrite filter_cons_False, app_nil_r by (by rewrite Hkv).
  - apply Forall_forall. intros k Hkc.
    destruct (existsb (is_prefix (fst k)) envp) eqn:E.
    + apply existsb_exists in E as (e & He & Hp). apply list_elem_of_In in He.
      destruct (is_exe e) eqn:Hee.
      * exfalso. apply is_prefix_spec in Hee as [r ->]. pose proof (carry_entries getenv) as Hc.
        rewrite Forall_forall in Hc. destruct (Hc k Hkc) as (_ & _ & Hno). by rewrite Hno in Hp.
      * exists e. split; [|done]. rewrite !elem_of_app. left. left. apply list_elem_of_fmap. exists e. by rewrite Hee.
    + exists (snd k). split.
      * rewrite elem_of_app. right. apply list_elem_of_fmap. exists k. split; [done|]. by apply list_elem_of_filter.
      * pose proof (carry_entries getenv) as Hc. rewrite Forall_forall in Hc. by apply Hc.
  - rewrite !length_app. unfold body, added. rewrite !length_fmap.
    pose proof (carry_length getenv) as Hcl. pose proof (length_filter (λ k, existsb (is_prefix (fst k)) envp = false) (carry_capture getenv)).
    assert (length tl ≤ 1)%nat by (destruct Htl as [[-> _]| ->]; simpl; lia).
    unfold ALR_ENV_MAX, ALR_NCARRY in *. lia.
Qed.

(** * Searching the path *)

Section search.
Context (c : runtime) (sys : system) (dispatch : bytes → Z + unit).

(** The candidates tried are the executable ones up to the first that runs. *)
Lemma search_loop_spec cands saved tried r :
  search_loop c sys dispatch cands saved = (tried, r) →
  ∃ rest, filter (λ d, executable c sys d = true) cands = tried ++ rest ∧
    match r with
    | inr () => ∃ t d, tried = t ++ [d] ∧ dispatch d = inr () ∧ Forall (λ d, ∃ e, dispatch d = inl e) t
    | inl e => rest = [] ∧ Forall (λ d, ∃ e, dispatch d = inl e) tried ∧
               (tried = [] → e = saved) ∧ (∀ t d, tried = t ++ [d] → dispatch d = inl e)
    end.
Proof.
  revert saved tried r. induction cands as [|d cands IH]; intros saved tried r; cbn [search_loop].
  { intros [= <- <-]. exists []. split_and!; try done. intros t d E. by destruct t. }
  rewrite filter_cons. destruct (executable c sys d); [|apply IH].
  rewrite decide_True by done. destruct (dispatch d) as [e|[]] eqn:Hd.
  - destruct (search_loop c sys dispatch cands e) as [tried' r'] eqn:E. intros [= <- <-].
    destruct (IH e tried' r' E) as (rest & Hf & Hr). exists rest. split; [by rewrite Hf|].
    destruct r' as [e'|[]].
    + destruct Hr as (-> & Hall & H0 & Hlast). split; [done|]. split; [constructor; eauto|]. split; [done|].
      intros [|x t] d'; cbn [app]; intros [= <- E'].
      * by rewrite H0 by done.
      * by eapply Hlast.
    + destruct Hr as (t & d' & -> & Hok & Hall). exists (d :: t), d'. split; [done|]. split; [done|]. constructor; eauto.
  - intros [= <- <-]. eexists. split; [done|]. exists [], d. done.
Qed.

(** A name without a slash is searched in the guest's PATH: execvp tries exactly the
    executable candidates, in order, until one takes over and otherwise reports the last
    failure; posix_spawnp picks the candidate execvp tries first. *)
Theorem path_search (PATH : option bytes) (file : bytes) (tried : list bytes) (r : Z + unit) :
  slash ∉ file → exec_path_search c sys dispatch PATH file = (tried, r) →
  let good := filter (λ d, executable c sys d = true) (candidates PATH file) in
  (∃ rest, good = tried ++ rest) ∧
  (good ≠ [] → head tried = Some (spawn_search c sys PATH file)) ∧
  (good = [] → tried = [] ∧ r = inl ENOENT ∧ spawn_search c sys PATH file = file) ∧
  (r = inr () → ∃ t d, tried = t ++ [d] ∧ dispatch d = inr () ∧ Forall (λ d, ∃ e, dispatch d = inl e) t) ∧
  (∀ e, r = inl e → tried = good ∧ ∀ t d, tried = t ++ [d] → dispatch d = inl e).
Proof.
  intros Hs Hsearch good. apply has_byte_false in Hs. unfold exec_path_search, spawn_search in *. rewrite Hs in *.
  apply search_loop_spec in Hsearch as (rest & Hf & Hr). fold good in Hf |- *.
  assert (Hhead : tried = [] → good = []).
  { intros ->. destruct r as [e|[]]; [by destruct Hr as [-> _]|]. by destruct Hr as ([] & ? & ? & _). }
  split; [eauto|]. split; [|split; [|split]].
  - intros Hg. destruct tried as [|d tried]; [by rewrite Hhead in Hg|]. by rewrite Hf.
  - intros Hg. rewrite Hg in Hf |- *. symmetry in Hf. apply app_nil in Hf as [-> ->]. split; [done|]. split; [|done].
    destruct r as [e|[]]; [by destruct Hr as (_ & _ & -> & _)|]. by destruct Hr as ([] & ? & ? & _).
  - by intros ->.
  - intros e ->. destruct Hr as (-> & _ & _ & Hlast). by rewrite Hf, app_nil_r.
Qed.
End search.

Lemma path_search_witness :
  head (fst (exec_path_search sample_rt sample_sys (λ _, inl ENOEXEC) (Some (str "/bin::/")) "s")) = Some (str "//s").
Proof.
  destruct (exec_path_search sample_rt sample_sys (λ _, inl ENOEXEC) (Some (str "/bin::/")) "s") as [tried r] eqn:E.
  pose proof (path_search sample_rt sample_sys (λ _, inl ENOEXEC) (Some (str "/bin::/")) "s" tried r
    ltac:(vm_compute; set_solver) E) as (_ & H & _). cbn [fst]. rewrite H by (by vm_compute). by vm_compute.
Defined.

(** * The library path *)

(** The directories of a run path that exist under the root. *)
Definition run_dirs (c : runtime) (sys : system) (toks : list bytes) : list bytes :=
  filter (λ d, is_directory sys d = true ∧ (length d < ALR_PBUF)%nat)
    ((λ t, g_root c ++ t) <$> filter (λ t, starts_slash t = true) toks).
(** While the buffer has room the loader searches the inherited directories and then the
    ones of the run path, in order and in the rootfs. *)
Lemma libpath_extended c sys toks lp :
  let full := lp ++ concat ((λ d, colon_byte :: d) <$> run_dirs c sys toks) in
  (length full < LP_SIZE - 1)%nat → libpath_loop c sys toks lp = Some full.
Proof.
  cbv zeta. revert lp. induction toks as [|t toks IH]; intros lp; cbn [libpath_loop].
  { cbn. by rewrite app_nil_r. }
  unfold run_dirs. rewrite filter_cons. destruct (starts_slash t) eqn:Ht; cbn [negb].
  2:{ rewrite decide_False by done. apply IH. }
  rewrite decide_True by done. cbn [fmap list_fmap]. rewrite filter_cons.
  destruct (decide (ALR_PBUF ≤ length (g_root c ++ t))%nat) as [Hb|Hb].
  { rewrite decide_False by (intros [_ ?]; lia). apply IH. }
  destruct (is_directory sys (g_root c ++ t)) eqn:Hd; cbn [negb].
  2:{ rewrite decide_False by (intros [? _]; done). apply IH. }
  rewrite decide_True by (split; [done|lia]). cbn [fmap list_fmap concat]. intros Hfull.
  rewrite (app_assoc lp) in *. fold (run_dirs c sys toks) in *.
  rewrite decide_False by (rewrite !length_app in Hfull; lia). cbv zeta.
  rewrite decide_False by (rewrite length_app in Hfull; lia). by apply IH.
Qed.

(** An inherited path longer than the buffer is appended to behind its end. *)
Example libpath_overflow :
  libpath_loop sample_rt sample_sys [str "/opt/lib"] (replicate (LP_SIZE + 1) "x"%byte) = None.
Proof. by vm_compute. Qed.
