(* ===== verification/PreloadNss.v ===== *)
(** * The preload library of the C runtime: name services ([runtime/alr/src/preload/alr_preload.c])

    The library answers lookups of users, groups, hosts and services from the files of the
    rootfs.  A file is its content; [fgets] cuts it into pieces of at most the buffer size.
    Buffers hold C strings, so a piece counts up to its first NUL. *)

From S2P Require Import Prelude CppMap Bytes PathRule ExecPlan PreloadPath PreloadExec.

Local Open Scope Z_scope.

Definition NSS_LINE : nat := 4096.
Definition NSS_MEM : nat := 64.

(** ** Lines *)

(** One piece: up to and with the newline, or [n] bytes. *)
Fixpoint cut_piece (n : nat) (s : bytes) : bytes * bytes :=
  match n, s with
  | S n, b :: s => if bool_decide (b = newline) then ([b], s) else let '(p, r) := cut_piece n s in (b :: p, r)
  | _, _ => ([], s)
  end.
(** The pieces [fgets(buf, sz, f)] returns one after the other; [None]: it returns empty
    strings for ever, which it does for a buffer of one byte. *)
Fixpoint pieces_loop (fuel sz : nat) (s : bytes) : option (list bytes) :=
  match fuel, s with
  | _, [] => Some []
  | 0%nat, _ => None
  | S fuel, _ => let '(p, r) := cut_piece (sz - 1) s in cons p <$> pieces_loop fuel sz r
  end.
Definition pieces (sz : nat) (s : bytes) : option (list bytes) :=
  if decide (sz = 0)%nat then Some [] else pieces_loop (length s) sz s.

Definition is_crlf (b : byte) : bool := bool_decide (b = newline) || bool_decide (b = Byte.x0d).
Definition nss_chomp (b : bytes) : bytes := trim_end is_crlf b.
Definition is_comment (l : bytes) : bool := match l with [] => true | b :: _ => bool_decide (b = "#"%byte) end.
Definition chomped (ps : list bytes) : list bytes := (λ p, nss_chomp (c_str p)) <$> ps.
(** The lines a scan looks at. *)
Definition nss_lines (sz : nat) (content : bytes) : option (list bytes) :=
  (λ ps, filter (λ l, is_comment l = false) (chomped ps)) <$> pieces sz content.

Definition nss_open (c : runtime) (sys : system) (guest : bytes) : option bytes :=
  p ← rw_string guest (rw c false guest); match open_file sys p with inr f => Some f | inl _ => None end.

(** ** Fields and numbers *)

(** [nss_field]: the field up to the separator, and what is left, [None] at the end. *)
Definition nss_field (sep : byte) (s : bytes) : bytes * option bytes :=
  match find_from sep s with Some k => (take k s, Some (drop (S k) s)) | None => (s, None) end.

Definition is_space (b : byte) : bool :=
  bool_decide (b = " "%byte) || ((9 <=? byte_val b) && (byte_val b <=? 13)).
Definition num_digit (b : byte) : bool := (48 <=? byte_val b) && (byte_val b <=? 57).
Definition dec_value (s : bytes) : Z := foldl (λ v b, v * 10 + (byte_val b - 48)) 0 s.
Definition ULONG_MAX : Z := 2 ^ 64 - 1.
(** [strtoul(s, &end, 10)]: the value, saturated, and how many bytes were used. *)
Definition strtoul (s : bytes) : Z * nat :=
  let t := drop_while is_space s in
  let '(neg, t) := match t with
                   | b :: r => if bool_decide (b = "-"%byte) then (true, r)
                               else if bool_decide (b = "+"%byte) then (false, r) else (false, t)
                   | [] => (false, [])
                   end in
  let ds := take_until (λ b, negb (num_digit b)) t in
  if bool_decide (ds = []) then (0, 0%nat)
  else
    let v := dec_value ds in
    (if ULONG_MAX <? v then ULONG_MAX else if neg then u64 (- v) else v, (length s - length t + length ds)%nat).
Definition to_id (f : bytes) : Z := u32 (fst (strtoul f)).

(** ** Users and groups *)

Record passwd := mk_passwd {
  pw_name : bytes; pw_passwd : bytes; pw_uid : Z; pw_gid : Z; pw_gecos : bytes; pw_dir : bytes; pw_shell : bytes }.
(** A field that must be followed by another. *)
Definition more (sep : byte) (s : bytes) : option (bytes * bytes) :=
  match nss_field sep s with (f, Some r) => Some (f, r) | (_, None) => None end.
Definition pw_parse (line : bytes) : option passwd :=
  '(name, s) ← more colon_byte line;
  '(pass, s) ← more colon_byte s;
  '(uid, s) ← more colon_byte s;
  '(gid, s) ← more colon_byte s;
  '(gecos, s) ← more colon_byte s;
  let '(dir, s) := nss_field colon_byte s in
  Some (mk_passwd name pass (to_id uid) (to_id gid) gecos dir (default [] s)).

Record group := mk_group { gr_name : bytes; gr_passwd : bytes; gr_gid : Z; gr_mem : list bytes }.
Definition comma : byte := ","%byte.
(** The member loop: [n] places left. *)
Fixpoint members (n : nat) (s : option bytes) : list bytes :=
  match n, s with
  | S n, Some (b :: s) =>
      let '(m, r) := nss_field comma (b :: s) in
      if bool_decide (m = []) then [] else m :: members n r
  | _, _ => []
  end.
Definition gr_parse (maxmem : nat) (line : bytes) : option group :=
  '(name, s) ← more colon_byte line;
  '(pass, s) ← more colon_byte s;
  let '(gid, s) := nss_field colon_byte s in
  Some (mk_group name pass (to_id gid) (members (maxmem - 1) s)).

(** [pw_scan] and [gr_scan] by name or by number: the first entry that matches.  The outer
    [None] is a scan that does not end; [linesz] is what [gr_carve] leaves of the buffer. *)
Definition pw_match (key : bytes + Z) (p : passwd) : bool :=
  match key with inl n => bool_decide (pw_name p = n) | inr u => pw_uid p =? u end.
Definition pw_scan (file : option bytes) (key : bytes + Z) (sz : nat) : option (option passwd) :=
  match file with
  | None => Some None
  | Some f => (λ ls : list bytes, head (filter (λ p, pw_match key p = true) (omap pw_parse ls))) <$> nss_lines sz f
  end.
Definition gr_match (key : bytes + Z) (g : group) : bool :=
  match key with inl n => bool_decide (gr_name g = n) | inr u => gr_gid g =? u end.
(** [gr_carve] for a buffer at address [buf]: the bytes before the aligned vector. *)
Definition gr_carve (buf sz : Z) : option Z :=
  let need := (Z.of_nat NSS_MEM + 1) * 8 in
  if sz <? need + 128 then None else Some (Z.land (buf + sz - need) (Z.lnot 7) - buf).
Inductive gr_answer := GrRange | GrNone | GrEntry (g : group).
Definition gr_scan (file : option bytes) (key : bytes + Z) (buf sz : Z) : option gr_answer :=
  match gr_carve buf sz with
  | None => Some GrRange
  | Some linesz =>
      match file with
      | None => Some GrNone
      | Some f =>
          (λ ls : list bytes, match filter (λ g, gr_match key g = true) (omap (gr_parse NSS_MEM) ls) with
                              | g :: _ => GrEntry g | [] => GrNone end) <$> nss_lines (Z.to_nat linesz) f
      end
  end.
(** [getpwent], [getgrent] from the start: all entries. *)
Definition pw_entries (file : bytes) : option (list passwd) := (λ ls : list bytes, omap pw_parse ls) <$> nss_lines NSS_LINE file.
Definition gr_entries (file : bytes) : option (list group) := (λ ls : list bytes, omap (gr_parse NSS_MEM) ls) <$> nss_lines NSS_LINE file.

(** [getgrouplist]: the vector of at most [room] groups, the count, and the value returned. *)
Definition getgrouplist (file : option bytes) (user : bytes) (base room : Z) : option (list Z * Z * Z) :=
  (λ gs : list group,
    let all := base :: (gr_gid <$> filter (λ g, gr_gid g ≠ base ∧ user ∈ gr_mem g) gs) in
    let n := Z.of_nat (length all) in
    (take (Z.to_nat room) all, n, if room <? n then -1 else n)) <$>
  match file with None => Some [] | Some f => gr_entries f end.

(** ** Hosts and services *)

Definition AF_UNSPEC : Z := 0.
Definition AF_INET : Z := 2.
Definition AF_INET6 : Z := 10.
(** [strchr(line, '#')] *)
Definition uncomment (l : bytes) : bytes := take_until (λ b, bool_decide (b = "#"%byte)) l.
(** The words of a line: maximal runs without blanks. *)
Fixpoint words (fuel : nat) (s : bytes) : list bytes :=
  match fuel, drop_while is_blank s with
  | S fuel, b :: r => let w := take_until is_blank (b :: r) in w :: words fuel (drop (length w) (b :: r))
  | _, _ => []
  end.
Definition line_words (l : bytes) : list bytes := words (length l) l.
(** [strcasecmp] on ASCII. *)
Definition lower (b : byte) : byte := if (65 <=? byte_val b) && (byte_val b <=? 90) then byte_of (byte_val b + 32) else b.
Definition same_name (a b : bytes) : bool := bool_decide (lower <$> a = lower <$> b).

Section hosts.
Context (pton4 pton6 : bytes → option bytes).

(** The address of a line as the family asked for. *)
Definition line_addr (af : Z) (tok : bytes) : option (Z * bytes) :=
  match (if (af =? AF_INET) || (af =? AF_UNSPEC) then pton4 tok else None) with
  | Some a => Some (AF_INET, a)
  | None => match (if (af =? AF_INET6) || (af =? AF_UNSPEC) then pton6 tok else None) with
            | Some a => Some (AF_INET6, a)
            | None => None
            end
  end.
Definition hosts_line (name : bytes) (af : Z) (l : bytes) : option (Z * bytes * bytes) :=
  match line_words (uncomment l) with
  | tok :: names =>
      head (omap (λ nm, if same_name nm name then (λ a, (fst a, snd a, nm)) <$> line_addr af tok else None) names)
  | [] => None
  end.
(** [hosts_lookup]: family, address and the name as the file spells it.  Unlike the scans
    it does not skip comment lines first. *)
Definition hosts_lookup (file : option bytes) (name : bytes) (af : Z) : option (option (Z * bytes * bytes)) :=
  match file with
  | Some f =>
      if bool_decide (name = []) then Some None
      else (λ ps, head (omap (hosts_line name af) (chomped ps))) <$> pieces NSS_LINE f
  | None => Some None
  end.
(** [hosts_reverse] *)
Definition hosts_reverse (file : option bytes) (want : bytes) : option (option bytes) :=
  match file with
  | Some f =>
      (λ ps, head (omap (λ l, match line_words (uncomment l) with
                              | tok :: nm :: _ => if bool_decide (tok = want) then Some nm else None
                              | _ => None
                              end) (chomped ps))) <$> pieces NSS_LINE f
  | None => Some None
  end.
End hosts.

(** One line of the services file: name, number and protocol. *)
Definition service_line (l : bytes) : option (bytes * bytes * bytes) :=
  let l := drop_while is_blank (uncomment l) in
  if bool_decide (l = []) then None
  else
    let nm := take_until is_blank l in
    match drop (length nm) l with
    | [] => None
    | rest =>
        '(num, proto) ← more slash (drop_while is_blank rest);
        Some (nm, num, take_until is_blank proto)
    end.
Definition service_port (service : bytes) (proto : option bytes) (l : bytes) : option Z :=
  '(nm, num, pr) ← service_line l;
  if negb (bool_decide (nm = service)) then None
  else if match proto with Some p => negb (bool_decide (pr = p)) | None => false end then None
  else let v := fst (strtoul num) in if (v =? 0) || (65535 <? v) then None else Some v.
Definition SOCK_STREAM : Z := 1.
Definition SOCK_DGRAM : Z := 2.
(** [serv_port]; the hints as socket type and AI_NUMERICSERV; [byname] is libc's
    getservbyname. *)
Definition serv_port (file : option bytes) (service : option bytes) (st : Z) (numeric : bool)
    (byname : bytes → option bytes → option Z) : option Z :=
  match service with
  | None | Some [] => Some 0
  | Some s =>
      let '(v, used) := strtoul s in
      if negb (used =? 0)%nat && (used =? length s)%nat && (v <=? 65535) then Some v
      else if numeric then Some 0
      else
        let proto := if st =? SOCK_DGRAM then Some (str "udp") else if st =? SOCK_STREAM then Some (str "tcp") else None in
        (λ ps, default (default 0 (byname s proto)) (head (omap (service_port s proto) (chomped ps)))) <$>
          match file with None => Some [] | Some f => pieces NSS_LINE f end
  end.

(** * Lines of a file *)

Lemma cut_piece_line n l r : newline ∉ l → (length l < n)%nat → cut_piece n (l ++ newline :: r) = (l ++ [newline], r).
Proof.
  revert n. induction l as [|b l IH]; intros [|n] Hl Hn; simpl in Hn; try lia; cbn [cut_piece app].
  - by rewrite bool_decide_true.
  - apply not_elem_of_cons in Hl as [Hb Hl]. rewrite bool_decide_false by done. by rewrite IH by (done || lia).
Qed.

(** A line that fits the buffer of the scan. *)
Definition fits_line (sz : nat) (l : bytes) : Prop := (newline ∉ l) ∧ (length l + 2 ≤ sz)%nat.
Lemma pieces_unlines sz ls : Forall (fits_line sz) ls →
  pieces sz (unlines ls) = Some ((λ l, l ++ [newline]) <$> ls).
Proof.
  intros Hls. unfold pieces. destruct (decide (sz = 0)%nat) as [->|Hsz].
  { destruct Hls as [|l ls [_ ?] _]; [done|lia]. }
  assert (Hlen : (length ls ≤ length (unlines ls))%nat).
  { clear. induction ls as [|l ls IH]; [done|]. unfold unlines in *. cbn. rewrite !length_app. simpl. lia. }
  revert Hlen. generalize (length (unlines ls)). induction Hls as [|l ls [Hn Hl] _ IH]; intros fuel Hf.
  { by destruct fuel. }
  destruct fuel as [|fuel]; [simpl in Hf; lia|]. unfold unlines in *. cbn [fmap list_fmap concat].
  rewrite <- (assoc_L (++)). cbn [app].
  assert (E : ∀ f s, s ≠ [] → pieces_loop (S f) sz s = let '(p, r) := cut_piece (sz - 1) s in cons p <$> pieces_loop f sz r).
  { intros f s Hs. by destruct s. }
  rewrite E by (by destruct l). rewrite cut_piece_line by (done || lia). cbv zeta beta iota. rewrite IH by (simpl in Hf; lia). done.
Qed.

(** The pieces do not depend on the fuel once it covers the text. *)
Lemma cut_piece_app n s : let '(p, r) := cut_piece n s in s = p ++ r.
Proof.
  revert n. induction s as [|b s IH]; intros [|n]; try done. cbn [cut_piece].
  case_bool_decide; [done|]. specialize (IH n). destruct (cut_piece n s) as [p r]. by rewrite IH.
Qed.
Lemma cut_piece_ne n b s : fst (cut_piece (S n) (b :: s)) ≠ [].
Proof. cbn [cut_piece]. case_bool_decide; [done|]. by destruct (cut_piece n s). Qed.
Lemma pieces_loop_fuel f g sz s : (2 ≤ sz)%nat → (length s ≤ f)%nat → (length s ≤ g)%nat → pieces_loop f sz s = pieces_loop g sz s.
Proof.
  intros Hsz. revert g s. induction f as [|f IH]; intros g s Hf Hg.
  { destruct s; [by destruct g|simpl in Hf; lia]. }
  destruct g as [|g]; [by destruct s; [|simpl in Hg; lia]|]. cbn [pieces_loop]. destruct s as [|b s]; [done|].
  pose proof (cut_piece_app (sz - 1) (b :: s)) as Ha. destruct sz as [|[|sz]]; [lia..|].
  pose proof (cut_piece_ne sz b s) as Hne. change (S (S sz) - 1)%nat with (S sz) in *.
  destruct (cut_piece (S sz) (b :: s)) as [p r]. simpl in Hne. apply (f_equal length) in Ha. rewrite length_app in Ha.
  assert (0 < length p)%nat by (destruct p; [done|simpl; lia]). f_equal. apply IH; simpl in *; lia.
Qed.
Lemma pieces_cons sz s : (2 ≤ sz)%nat → s ≠ [] →
  pieces sz s = let '(p, r) := cut_piece (sz - 1) s in cons p <$> pieces sz r.
Proof.
  intros Hsz Hs. unfold pieces. rewrite decide_False by lia. destruct s as [|b s]; [done|]. cbn [length pieces_loop].
  pose proof (cut_piece_app (sz - 1) (b :: s)) as Ha. destruct sz as [|[|sz]]; [lia..|].
  pose proof (cut_piece_ne sz b s) as Hne. change (S (S sz) - 1)%nat with (S sz) in *.
  destruct (cut_piece (S sz) (b :: s)) as [p r]. simpl in Hne. apply (f_equal length) in Ha. rewrite length_app in Ha.
  assert (0 < length p)%nat by (destruct p; [done|simpl; lia]). f_equal. apply pieces_loop_fuel; simpl in *; lia.
Qed.
Lemma pieces_total sz s : (2 ≤ sz)%nat → is_Some (pieces sz s).
Proof.
  intros Hsz. remember (length s) as n eqn:E. revert s E. induction n as [n IH] using lt_wf_ind. intros s ->.
  destruct s as [|b s]; [unfold pieces; rewrite decide_False by lia; by eexists|]. rewrite pieces_cons by done.
  pose proof (cut_piece_app (sz - 1) (b :: s)) as Ha. destruct sz as [|[|sz]]; [lia..|].
  pose proof (cut_piece_ne sz b s) as Hne. change (S (S sz) - 1)%nat with (S sz) in *.
  destruct (cut_piece (S sz) (b :: s)) as [p r]. simpl in Hne. apply (f_equal length) in Ha. rewrite length_app in Ha.
  assert (0 < length p)%nat by (destruct p; [done|simpl; lia]).
  destruct (IH (length r) ltac:(lia) r eq_refl) as [ps ->]. by eexists.
Qed.

Definition clean_line (l : bytes) : Prop := (nul ∉ l) ∧ (∀ b r, l = r ++ [b] → is_crlf b = false).
Lemma chomp_line l : clean_line l → nss_chomp (c_str (l ++ [newline])) = l.
Proof.
  intros [Hn Hl]. assert (c_str (l ++ [newline]) = l ++ [newline]) as ->.
  { unfold c_str. destruct (find_from nul (l ++ [newline])) as [k|] eqn:E; [|done].
    apply find_from_Some in E as (q & Eq & _). exfalso. assert (nul ∈ l ++ [newline]) by (rewrite Eq; set_solver). set_solver. }
  unfold nss_chomp. apply trim_end_app; [repeat constructor|]. intros b r E. by apply (Hl b r).
Qed.
Lemma nss_lines_unlines sz ls : Forall (fits_line sz) ls → Forall clean_line ls → Forall (λ l, is_comment l = false) ls →
  nss_lines sz (unlines ls) = Some ls.
Proof.
  intros Hf Hc Hn. unfold nss_lines. rewrite pieces_unlines by done. cbn [fmap option_fmap option_map]. f_equal.
  assert (E : chomped ((λ l, l ++ [newline]) <$> ls) = ls).
  { unfold chomped. rewrite <- list_fmap_compose. transitivity (id <$> ls); [|apply list_fmap_id].
    apply list_fmap_ext. intros i l Hi. apply chomp_line. eapply Forall_lookup_1; eauto. }
  rewrite E. by apply filter_all.
Qed.

(** * Numbers *)

Lemma dec_value_snoc s b : dec_value (s ++ [b]) = dec_value s * 10 + (byte_val b - 48).
Proof. unfold dec_value. by rewrite foldl_app. Qed.
Lemma digits_dec fuel n acc : 0 ≤ n < 2 ^ Z.of_nat fuel → (0 < fuel)%nat →
  ∃ ds, digits fuel 10 n acc = ds ++ acc ∧ ds ≠ [] ∧ Forall (λ b, num_digit b = true) ds ∧ dec_value ds = n.
Proof.
  revert n acc. induction fuel as [|fuel IH]; intros n acc Hn Hf; [lia|]. cbn [digits].
  assert (Hd : num_digit (digit (n mod 10)) = true ∧ byte_val (digit (n mod 10)) - 48 = n mod 10).
  { unfold digit, num_digit. pose proof (Z.mod_pos_bound n 10 ltac:(lia)).
    rewrite (proj2 (Z.ltb_lt _ _)) by lia. rewrite byte_val_of.
    rewrite (Z.mod_small (48 + _)) by lia. split; [|lia]. apply andb_true_iff; split; lia. }
  destruct (n <? 10) eqn:E.
  - exists [digit (n mod 10)]. split; [done|]. split; [done|]. split; [repeat constructor; apply Hd|].
    unfold dec_value. cbn [foldl]. rewrite (proj2 Hd), Z.mod_small by lia. lia.
  - rewrite Nat2Z.inj_succ, Z.pow_succ_r in Hn by lia.
    assert (fuel ≠ 0)%nat by (intros ->; simpl in Hn; lia).
    destruct (IH (n / 10) (digit (n mod 10) :: acc)) as (ds & E1 & Hne & Hall & Hv);
      [split; [apply Z.div_pos; lia|apply Z.div_lt_upper_bound; lia]|lia|].
    exists (ds ++ [digit (n mod 10)]). rewrite E1, <- (assoc_L (++)). split; [done|]. split; [by destruct ds|].
    split; [apply Forall_app_2; [done|repeat constructor; apply Hd]|]. rewrite dec_value_snoc, Hv, (proj2 Hd).
    pose proof (Z.div_mod n 10). lia.
Qed.

Lemma digit_not_special b : num_digit b = true → is_space b = false ∧ b ≠ "-"%byte ∧ b ≠ "+"%byte ∧ b ≠ colon_byte.
Proof. by destruct b. Qed.

Lemma print_nat_digits z : 0 ≤ z →
  print_nat 10 z ≠ [] ∧ Forall (λ b, num_digit b = true) (print_nat 10 z) ∧ dec_value (print_nat 10 z) = z.
Proof.
  intros Hz. unfold print_nat.
  destruct (digits_dec (S (Z.to_nat (Z.log2 z))) z []) as (ds & E & Hds); [|lia|by rewrite E, app_nil_r].
  split; [lia|]. rewrite Nat2Z.inj_succ, Z2Nat.id by apply Z.log2_nonneg.
  destruct (decide (z = 0)) as [->|]; [done|]. apply Z.log2_spec. lia.
Qed.
Lemma take_digits s : Forall (λ b, num_digit b = true) s → take_until (λ b, negb (num_digit b)) s = s.
Proof.
  intros Hs. rewrite <- (app_nil_r s) at 1. apply take_until_app; [|by left].
  eapply Forall_impl; [exact Hs|]. intros x Hx. cbn. by rewrite Hx.
Qed.

(** Numbers are read back as they were printed. *)
Lemma to_id_printed z : 0 ≤ z < 2 ^ 32 → to_id (print_nat 10 z) = z.
Proof.
  intros Hz. destruct (print_nat_digits z ltac:(lia)) as (Hne & Hall & Hv). unfold to_id, strtoul.
  destruct (print_nat 10 z) as [|b ds]; [done|]. pose proof Hall as Hall'. apply Forall_cons in Hall as [Hb _].
  destruct (digit_not_special b Hb) as (Hs & Hm & Hp & _). cbn [drop_while]. rewrite Hs.
  rewrite !bool_decide_false by done. cbv zeta. rewrite (take_digits _ Hall'), bool_decide_false, Hv by done. cbn [fst].
  rewrite (proj2 (Z.ltb_ge _ _)) by (unfold ULONG_MAX; lia). by apply u32_small.
Qed.
Lemma printed_no_colon z : 0 ≤ z → (colon_byte ∉ print_nat 10 z) ∧ Forall (λ b, num_digit b = true) (print_nat 10 z).
Proof.
  intros Hz. destruct (print_nat_digits z Hz) as (_ & Hall & _). split; [|done]. intros Hin. rewrite Forall_forall in Hall.
  by apply (digit_not_special colon_byte (Hall _ Hin)).
Qed.

(** * Accounts *)

(** What a line of the databases may hold. *)
Definition CR : byte := Byte.x0d.
Definition text (s : bytes) : Prop := Forall (λ b, b ≠ nul ∧ b ≠ newline ∧ b ≠ CR) s.
Definition field_text (s : bytes) : Prop := text s ∧ colon_byte ∉ s.

Definition pw_line (p : passwd) : bytes :=
  pw_name p ++ colon_byte :: pw_passwd p ++ colon_byte :: print_nat 10 (pw_uid p) ++ colon_byte ::
  print_nat 10 (pw_gid p) ++ colon_byte :: pw_gecos p ++ colon_byte :: pw_dir p ++ colon_byte :: pw_shell p.
Record pw_ok (p : passwd) : Prop := {
  ok_name : field_text (pw_name p) ∧ head (pw_name p) ≠ Some "#"%byte;
  ok_passwd : field_text (pw_passwd p);
  ok_uid : 0 ≤ pw_uid p < 2 ^ 32;
  ok_gid : 0 ≤ pw_gid p < 2 ^ 32;
  ok_gecos : field_text (pw_gecos p);
  ok_dir : field_text (pw_dir p);
  ok_shell : text (pw_shell p) }.

Definition gr_line (g : group) : bytes :=
  gr_name g ++ colon_byte :: gr_passwd g ++ colon_byte :: print_nat 10 (gr_gid g) ++ colon_byte :: join_on comma (gr_mem g).
Record gr_ok (g : group) : Prop := {
  okg_name : field_text (gr_name g) ∧ head (gr_name g) ≠ Some "#"%byte;
  okg_passwd : field_text (gr_passwd g);
  okg_gid : 0 ≤ gr_gid g < 2 ^ 32;
  okg_mem : Forall (λ m, m ≠ [] ∧ text m ∧ comma ∉ m) (gr_mem g) ∧ (length (gr_mem g) < NSS_MEM)%nat }.

(** What follows a separator. *)
Lemma drop_after (b : byte) l r : drop (S (length l)) (l ++ b :: r) = r.
Proof. induction l as [|c l IH]; [done|exact IH]. Qed.
Lemma more_field sep f r : sep ∉ f → more sep (f ++ sep :: r) = Some (f, r).
Proof.
  intros Hf. unfold more, nss_field. rewrite find_from_app_sep by done. by rewrite take_app_length, drop_after.
Qed.
Lemma find_from_absent sep s : sep ∉ s → find_from sep s = None.
Proof.
  induction s as [|b s IH]; intros Hs; [done|]. apply not_elem_of_cons in Hs as [Hb Hs]. cbn.
  rewrite decide_False by done. by rewrite IH.
Qed.
Lemma last_field sep f : sep ∉ f → nss_field sep f = (f, None).
Proof. intros Hf. unfold nss_field. by rewrite find_from_absent. Qed.
Lemma next_field sep f r : sep ∉ f → nss_field sep (f ++ sep :: r) = (f, Some r).
Proof.
  intros Hf. pose proof (more_field sep f r Hf) as E. unfold more in E.
  destruct (nss_field sep (f ++ sep :: r)) as [? [?|]]; congruence.
Qed.

Lemma members_join n ms : Forall (λ m, m ≠ [] ∧ text m ∧ comma ∉ m) ms → (length ms ≤ n)%nat →
  members n (Some (join_on comma ms)) = ms.
Proof.
  revert n. induction ms as [|m ms IH]; intros n Hms Hn; [by destruct n|].
  destruct n as [|n]; [simpl in Hn; lia|]. apply Forall_cons in Hms as [(Hne & _ & Hc) Hms].
  destruct m as [|b m]; [done|]. destruct ms as [|m' ms].
  - cbn [join_on members]. rewrite last_field by done. rewrite bool_decide_false by done. by destruct n.
  - change (join_on comma ((b :: m) :: m' :: ms)) with (b :: m ++ comma :: join_on comma (m' :: ms)).
    cbn [members]. rewrite (app_comm_cons m _ b), next_field by done. rewrite bool_decide_false by done.
    by rewrite IH by (done || (simpl in *; lia)).
Qed.

Lemma printed_text z : 0 ≤ z < 2 ^ 32 → field_text (print_nat 10 z).
Proof.
  intros Hz. destruct (printed_no_colon z ltac:(lia)) as [Hc Hd]. split; [|done].
  eapply Forall_impl; [exact Hd|]. by intros [].
Qed.

Lemma pw_parse_line p : pw_ok p → pw_parse (pw_line p) = Some p.
Proof.
  intros [[[_ Hn] _] [_ Hp] Hu Hg [_ Hge] [_ Hd] _]. destruct p as [n pa u g ge d sh]. simpl in *.
  unfold pw_line, pw_parse. cbn [pw_name pw_passwd pw_uid pw_gid pw_gecos pw_dir pw_shell].
  rewrite more_field by done. cbn [mbind option_bind]. rewrite more_field by done. cbn [mbind option_bind].
  rewrite more_field by (by apply printed_text). cbn [mbind option_bind]. rewrite more_field by (by apply printed_text). cbn [mbind option_bind].
  rewrite more_field by done. cbn [mbind option_bind]. rewrite next_field by done. by rewrite !to_id_printed by done.
Qed.
Lemma gr_parse_line g : gr_ok g → gr_parse NSS_MEM (gr_line g) = Some g.
Proof.
  intros [[[_ Hn] _] [_ Hp] Hg [Hm Hl]]. destruct g as [n pa g ms]. simpl in *.
  unfold gr_line, gr_parse. cbn [gr_name gr_passwd gr_gid gr_mem].
  rewrite more_field by done. cbn [mbind option_bind]. rewrite more_field by done. cbn [mbind option_bind].
  rewrite next_field by (by apply printed_text). rewrite to_id_printed by done.
  by rewrite members_join by (done || lia).
Qed.

Lemma text_app a b : text a → text b → text (a ++ b).
Proof. apply Forall_app_2. Qed.
Lemma text_cons b s : b ≠ nul ∧ b ≠ newline ∧ b ≠ CR → text s → text (b :: s).
Proof. by constructor. Qed.
Lemma text_join ms : Forall text ms → text (join_on comma ms).
Proof.
  induction 1 as [|m ms Hm Hms IH]; [constructor|]. destruct ms as [|m' ms]; [done|].
  change (join_on comma (m :: m' :: ms)) with (m ++ comma :: join_on comma (m' :: ms)).
  by apply text_app; [|apply text_cons].
Qed.
Lemma text_clean l : text l → clean_line l ∧ (newline ∉ l).
Proof.
  intros Ht. unfold text in Ht; rewrite Forall_forall in Ht. split; [split|].
  - intros Hin. by destruct (Ht _ Hin).
  - intros b r ->. destruct (Ht b) as (_ & H1 & H2); [set_solver|]. unfold is_crlf.
    by rewrite !bool_decide_false.
  - intros Hin. by destruct (Ht _ Hin) as (_ & ? & _).
Qed.
Lemma not_comment n r : head n ≠ Some "#"%byte → is_comment (n ++ colon_byte :: r) = false.
Proof. destruct n as [|b n]; intros Hn; [done|]. cbn. apply bool_decide_false. by intros ->. Qed.

Lemma pw_line_text p : pw_ok p → text (pw_line p).
Proof.
  intros [[[Hn _] _] [Hp _] Hu Hg [Hge _] [Hd _] Hs]. unfold pw_line.
  repeat first [apply text_app | apply text_cons; [done|]]; try done; by apply printed_text.
Qed.
Lemma gr_line_text g : gr_ok g → text (gr_line g).
Proof.
  intros [[[Hn _] _] [Hp _] Hg [Hm _]]. unfold gr_line.
  repeat first [apply text_app | apply text_cons; [done|]]; try done; [by apply printed_text|].
  apply text_join. eapply Forall_impl; [exact Hm|]. tauto.
Qed.

(** A database as it is written. *)
Definition passwd_file (ps : list passwd) : bytes := unlines (pw_line <$> ps).
Definition group_file (gs : list group) : bytes := unlines (gr_line <$> gs).
Definition lines_fit {A} (line : A → bytes) (sz : nat) (es : list A) : Prop := Forall (λ e, (length (line e) + 2 ≤ sz)%nat) es.

Lemma database {A} (line : A → bytes) (parse : bytes → option A) (ok : A → Prop) sz es :
  (∀ e, ok e → parse (line e) = Some e ∧ text (line e) ∧ is_comment (line e) = false) →
  Forall ok es → lines_fit line sz es →
  (λ ls : list bytes, omap parse ls) <$> nss_lines sz (unlines (line <$> es)) = Some es.
Proof.
  intros Hline Hok Hfit. rewrite nss_lines_unlines.
  - cbn [fmap option_fmap option_map]. f_equal. clear Hfit. induction Hok as [|e es He _ IH]; [done|].
    cbn. rewrite (proj1 (Hline e He)). by f_equal.
  - apply Forall_fmap. eapply Forall_impl; [apply Forall_and; split; [exact Hok|exact Hfit]|].
    intros e [He Hl]. split; [|done]. apply text_clean. by apply Hline.
  - apply Forall_fmap. eapply Forall_impl; [exact Hok|]. intros e He. apply text_clean. by apply Hline.
  - apply Forall_fmap. eapply Forall_impl; [exact Hok|]. intros e He. by apply Hline.
Qed.
Lemma pw_database sz ps : Forall pw_ok ps → lines_fit pw_line sz ps → (λ ls : list bytes, omap pw_parse ls) <$> nss_lines sz (passwd_file ps) = Some ps.
Proof.
  apply database. intros p Hp. split; [by apply pw_parse_line|]. split; [by apply pw_line_text|].
  destruct (ok_name p Hp) as [_ Hh]. by apply not_comment.
Qed.
Lemma gr_database sz gs : Forall gr_ok gs → lines_fit gr_line sz gs →
  (λ ls : list bytes, omap (gr_parse NSS_MEM) ls) <$> nss_lines sz (group_file gs) = Some gs.
Proof.
  apply database. intros g Hg. split; [by apply gr_parse_line|]. split; [by apply gr_line_text|].
  destruct (okg_name g Hg) as [_ Hh]. by apply not_comment.
Qed.

(** The accounts the library reports are the ones the databases of the rootfs hold: for
    a passwd and a group file that list the entries [ps] and [gs], a look-up by name or by
    number returns the first entry that matches and none when there is none, the
    enumeration returns all entries in order with every field as it was written, and the
    groups of a user are the base group followed by the other groups that list the user, in
    the order of the file, with -1 exactly when they do not fit. *)
Theorem accounts_exact ps gs sz buf gsz linesz user base room :
  Forall pw_ok ps → Forall gr_ok gs →
  lines_fit pw_line (sz `min` NSS_LINE) ps → lines_fit gr_line (Z.to_nat linesz `min` NSS_LINE) gs →
  gr_carve buf gsz = Some linesz →
  (∀ key, pw_scan (Some (passwd_file ps)) key sz = Some (head (filter (λ p, pw_match key p = true) ps))) ∧
  (∀ key, gr_scan (Some (group_file gs)) key buf gsz =
          Some (match filter (λ g, gr_match key g = true) gs with g :: _ => GrEntry g | [] => GrNone end)) ∧
  pw_entries (passwd_file ps) = Some ps ∧ gr_entries (group_file gs) = Some gs ∧
  let all := base :: (gr_gid <$> filter (λ g, gr_gid g ≠ base ∧ user ∈ gr_mem g) gs) in
  let n := Z.of_nat (length all) in
  getgrouplist (Some (group_file gs)) user base room = Some (take (Z.to_nat room) all, n, if room <? n then -1 else n).
Proof.
  intros Hps Hgs Hfp Hfg Hc.
  assert (Hfit : ∀ A (line : A → bytes) a b es, lines_fit line (a `min` b) es → lines_fit line a es ∧ lines_fit line b es).
  { intros A line a b es H. split; (eapply Forall_impl; [exact H|]; cbn; lia). }
  apply Hfit in Hfp as [Hp1 Hp2]. apply Hfit in Hfg as [Hg1 Hg2].
  pose proof (pw_database _ _ Hps Hp1) as E1. pose proof (pw_database _ _ Hps Hp2) as E2.
  pose proof (gr_database _ _ Hgs Hg1) as E3. pose proof (gr_database _ _ Hgs Hg2) as E4.
  split; [|split; [|split; [exact E2|split; [exact E4|]]]].
  - intros key. unfold pw_scan. destruct (nss_lines sz _) as [ls|]; [|done]. by injection E1 as <-.
  - intros key. unfold gr_scan. rewrite Hc. destruct (nss_lines (Z.to_nat linesz) _) as [ls|]; [|done]. by injection E3 as <-.
  - cbv zeta. unfold getgrouplist. unfold gr_entries in *. destruct (nss_lines NSS_LINE (group_file gs)) as [ls|]; [|done].
    cbn [fmap option_fmap option_map] in E4 |- *. by injection E4 as ->.
Qed.
Definition sample_pw : list passwd :=
  [mk_passwd (str "root") (str "x") 0 0 (str "root") (str "/root") (str "/bin/bash");
   mk_passwd (str "alr") (str "x") 1000 1000 (str "ALR,,,") (str "/home/alr") (str "/bin/sh")].
Definition sample_gr : list group :=
  [mk_group (str "root") (str "x") 0 [];
   mk_group (str "video") (str "x") 44 [str "alr"; str "root"];
   mk_group (str "inet") (str "x") 3003 [str "alr"]].
Lemma accounts_exact_witness :
  pw_scan (Some (passwd_file sample_pw)) (inl (str "alr")) 512 = Some (sample_pw !! 1%nat) ∧
  gr_scan (Some (group_file sample_gr)) (inr 44) 4096 1024 =
    Some (GrEntry (mk_group (str "video") (str "x") 44 [str "alr"; str "root"])) ∧
  getgrouplist (Some (group_file sample_gr)) (str "alr") 1000 2 = Some ([1000; 44], 3, -1).
Proof.
  assert (Hp : Forall pw_ok sample_pw).
  { repeat constructor; cbn; try lia; try done; try (by apply (bool_decide_unpack _); vm_compute). }
  assert (Hg : Forall gr_ok sample_gr).
  { repeat constructor; cbn; try lia; try done; try (by apply (bool_decide_unpack _); vm_compute). }
  destruct (accounts_exact sample_pw sample_gr 512 4096 1024 504 (str "alr") 1000 2 Hp Hg) as (H1 & H2 & _ & _ & H3).
  - repeat constructor; vm_compute; lia.
  - repeat constructor; vm_compute; lia.
  - done.
  - split; [by rewrite H1|]. split; [by rewrite H2|]. by rewrite H3.
Defined.

(** A buffer of one byte makes the look-up run for ever: [fgets] returns an empty string each
    time.  A buffer that is too short for a line cuts it, and its tail is read as a line. *)
Example one_byte_buffer : pw_scan (Some (passwd_file sample_pw)) (inl (str "root")) 1 = None.
Proof. reflexivity. Qed.
Example line_cut :
  pw_scan (Some (str "aaaa:x:1:1:g:/home/a:evil:x:0:0:r:/:/sh" ++ [newline])) (inl (str "evil")) 22 =
  Some (Some (mk_passwd (str "evil") (str "x") 0 0 (str "r") (str "/") (str "/sh"))).
Proof. reflexivity. Qed.
