(* ===== verification/PreloadProc.v ===== *)
(** * The preload library of the C runtime: files of /proc and the password lock
    ([runtime/alr/src/preload/alr_preload.c])

    Some files of /proc show the host or the loader.  The library answers reads of them with
    text of its own: two fixed mount tables, the processor list when the host's is not
    readable, and the command line of the guest program, which it gets by undoing what
    [exec_build] put in front of it. *)

From S2P Require Import Prelude CppMap Bytes PathRule ExecPlan AlrElf PreloadPath PreloadExec PreloadNss.

Local Open Scope Z_scope.

(** ** The texts *)

Definition SYNTH_MOUNTS : bytes := unlines (strs
  ["/dev/root / ext4 rw,relatime 0 0";
   "proc /proc proc rw,nosuid,nodev,noexec,relatime 0 0";
   "sysfs /sys sysfs rw,nosuid,nodev,noexec,relatime 0 0";
   "devtmpfs /dev devtmpfs rw,nosuid,relatime 0 0";
   "devpts /dev/pts devpts rw,nosuid,noexec,relatime 0 0";
   "tmpfs /tmp tmpfs rw,nosuid,nodev 0 0"]).
Definition SYNTH_MOUNTINFO : bytes := unlines (strs
  ["15 0 0:1 / / rw,relatime - ext4 /dev/root rw";
   "16 15 0:2 / /proc rw,nosuid,nodev,noexec,relatime - proc proc rw";
   "17 15 0:3 / /sys rw,nosuid,nodev,noexec,relatime - sysfs sysfs rw";
   "18 15 0:4 / /dev rw,nosuid,relatime - devtmpfs devtmpfs rw";
   "19 18 0:5 / /dev/pts rw,nosuid,noexec,relatime - devpts devpts rw";
   "20 15 0:6 / /tmp rw,nosuid,nodev - tmpfs tmpfs rw"]).

Definition bad_paths : list bytes := strs ["/data/"; "/system"; "/vendor"; "/apex"; "/storage"; "/mnt/"].
Definition synth_leaks (c : runtime) (s : bytes) : bool :=
  existsb (λ bad, has_sub bad s) bad_paths || (negb (bool_decide (g_root c = [])) && has_sub (g_root c) s).

Definition SYNTH_STAT_MAXCPU : Z := 128.
Definition zeros : bytes := "0 0 0 0 0 0 0 0 0 0".
(** [synth_stat]; [n] is the number of processors [sysconf] reports.  The buffer holds 48
    bytes for each line and is never full ([synth_stat_fits]). *)
Definition synth_stat (n : Z) : bytes :=
  let n := if n <? 1 then 1 else n in
  let n := if SYNTH_STAT_MAXCPU <? n then SYNTH_STAT_MAXCPU else n in
  unlines ((str "cpu  " ++ zeros) ::
    ((λ i, str "cpu" ++ print_nat 10 i ++ str " " ++ zeros) <$> seqZ 0 n) ++
    strs ["intr 0"; "ctxt 0"; "btime 0"; "processes 0"; "procs_running 1"; "procs_blocked 0"; "softirq 0"]).

(** ** The command line *)

Definition CMD_SIZE : nat := Z.to_nat 8192.
Definition CMD_ARGC : nat := 256.
Definition synth_is_ldso (a : bytes) : bool := is_prefix "ld-linux" (base_name a).
(** The strings of the buffer, at most [fuel]. *)
Fixpoint split_args (fuel : nat) (s : bytes) : list bytes :=
  match fuel, s with
  | S fuel, _ :: _ => let a := c_str s in a :: split_args fuel (drop (S (length a)) s)
  | _, _ => []
  end.
(** The loader's options: the [--argv0] found, the program, and what follows it. *)
Fixpoint skip_options (argv0 : option bytes) (args : list bytes) : option (option bytes * bytes * list bytes) :=
  match args with
  | [] => None
  | a :: r =>
      if bool_decide (a = "--library-path") || bool_decide (a = "--preload")
      then match r with [] => None | _ :: r => skip_options argv0 r end
      else if bool_decide (a = "--argv0")
      then match r with [] => None | v :: r => skip_options (Some v) r end
      else if bool_decide (a = "--inhibit-cache") then skip_options argv0 r
      else Some (argv0, a, r)
  end.
(** The arguments copied behind [o], up to the first that does not fit. *)
Fixpoint push_cmd (o : bytes) (args : list bytes) : bytes :=
  match args with
  | [] => o
  | a :: args => if decide (CMD_SIZE < length o + length a + 1)%nat then o else push_cmd (o ++ a ++ [nul]) args
  end.

(** What the process sees: its command line, the processors, whether /proc/stat may be
    read, and its number. *)
Record procfs := mk_procfs { ps_cmdline : option bytes; ps_cpus : Z; ps_stat_ok : bool; ps_pid : Z }.

Definition synth_cmdline (c : runtime) (ps : procfs) : option bytes :=
  raw ← ps_cmdline ps;
  match split_args CMD_ARGC (take (CMD_SIZE - 1) raw) with
  | [] => None
  | a :: args =>
      if negb (synth_is_ldso a) then None
      else
        '(argv0, prog, rest) ← skip_options None args;
        let argv0 := match argv0, g_guest_exe c with Some a, _ => a | None, Some e => e | None, None => prog end in
        if decide (CMD_SIZE < length argv0 + 1)%nat then None
        else Some (push_cmd (argv0 ++ [nul]) rest)
  end.

(** ** Which files *)

(** [synth_for]: the bytes that will be written. *)
Definition synth_for (c : runtime) (ps : procfs) (p : bytes) : option bytes :=
  if negb (is_prefix "/proc/" p) then None
  else
    let p := drop 6 p in
    let p := if is_prefix "self/" p then drop 5 p else if is_prefix "thread-self/" p then drop 12 p else p in
    if bool_decide (p = "mounts") then Some SYNTH_MOUNTS
    else if bool_decide (p = "mountinfo") then Some SYNTH_MOUNTINFO
    else if bool_decide (p = "cmdline") then synth_cmdline c ps
    else if bool_decide (p = "stat") && negb (ps_stat_ok ps) then Some (synth_stat (ps_cpus ps))
    else None.

Section synth.
Context (c : runtime) (ps : procfs).
(** Whether a file can be created at a host path and written. *)
Context (create : bytes → bool).

(** [synth_fd]: the content of the descriptor. *)
Definition synth_fd (content : bytes) : option bytes :=
  if synth_leaks c (c_str content) then None
  else
    let tmpl := take 63 (str "/tmp/.alr-proc-" ++ print_nat 10 (ps_pid ps)) in
    h ← rw_string tmpl (rw c false tmpl);
    if create h then Some content else None.

(** [open] and [openat]; [rdonly]: the access mode is O_RDONLY.  [inl] is a text of the
    library, [inr] what libc's call on the host path returns. *)
Definition open {B} (real : option (option bytes → outcome B)) (path : option bytes) (rdonly : bool) : bytes + outcome B :=
  match (p ← path; if rdonly then s ← synth_for c ps p; synth_fd s else None) with
  | Some s => inl s
  | None => inr (path_call c real path)
  end.
(** [fopen] and [setmntent]; the mode is a string. *)
Definition synth_stream (path : option bytes) (mode : option bytes) : option bytes :=
  match mode with
  | Some (m :: _) => if bool_decide (m = "r"%byte) then p ← path; s ← synth_for c ps p; synth_fd s else None
  | _ => None
  end.
Definition fopen {B} (real : option (option bytes → outcome B)) (path mode : option bytes) : bytes + outcome B :=
  match synth_stream path mode with Some s => inl s | None => inr (path_call c real path) end.
End synth.

(** ** The lock of the password files *)

Definition EAGAIN : Z := 11.
(** The attempts to set the lock: [fcntl i] is the answer to the one of number [i]; the
    number of seconds slept and the result. *)
Fixpoint lock_loop (n i : nat) (fcntl : nat → outcome unit) (err : Z) : nat * outcome unit :=
  match n with
  | O => (i, inl err)
  | S n =>
      match fcntl i with
      | inr _ => (i, inr ())
      | inl e => if negb (e =? EACCES) && negb (e =? EAGAIN) then (i, inl e) else lock_loop n (S i) fcntl e
      end
  end.
(** [g_pwdlock_fd] and the descriptors the two functions have open. *)
Record lock := mk_lock { g_pwdlock_fd : option Z; lk_open : list Z }.
(** [lckpwdf]; [real_open] gives a new descriptor.  The value returned, with the error
    number when it sets one. *)
Definition lckpwdf (c : runtime) (real_open : option (bytes → outcome Z)) (fcntl : nat → outcome unit) (l : lock)
    : lock * outcome unit + lock :=
  match g_pwdlock_fd l with
  | Some _ => inr l
  | None =>
      inl (match rw_string "/etc/.pwd.lock" (rw c false "/etc/.pwd.lock") with
      | None => (l, inl ENAMETOOLONG)
      | Some h =>
          match need real_open h with
          | inl e => (l, inl e)
          | inr fd =>
              match snd (lock_loop 15 0 fcntl 0) with
              | inr _ => (mk_lock (Some fd) (fd :: lk_open l), inr ())
              | inl e => (l, inl e)
              end
          end
      end)
  end.
Definition ulckpwdf (l : lock) : lock * bool :=
  match g_pwdlock_fd l with
  | None => (l, false)
  | Some fd => (mk_lock None (filter (λ d, d ≠ fd) (lk_open l)), true)
  end.

(** * Facts *)

Lemma stat_lengths : forallb (λ n, Z.of_nat (length (synth_stat n)) <? 128 * 48 + 256) (seqZ 1 128) = true.
Proof. by vm_compute. Qed.
Lemma synth_stat_fits n : Z.of_nat (length (synth_stat n)) < 128 * 48 + 256.
Proof.
  assert (H : ∃ k, 1 ≤ k ≤ 128 ∧ synth_stat n = synth_stat k).
  { unfold synth_stat, SYNTH_STAT_MAXCPU. exists (if n <? 1 then 1 else if 128 <? n then 128 else n).
    destruct (n <? 1) eqn:E1; [split; [lia|done]|]. destruct (128 <? n) eqn:E2; [split; [lia|done]|].
    rewrite E1, E2. split; [lia|done]. }
  destruct H as (k & Hk & ->). pose proof (proj1 (forallb_forall _ _) stat_lengths k) as H. cbv beta in H.
  apply Z.ltb_lt, H. apply list_elem_of_In, elem_of_seqZ. lia.
Qed.

(** The command line the kernel keeps of an argument vector. *)
Definition cmdline (args : list bytes) : bytes := concat ((λ a, a ++ [nul]) <$> args).
Lemma cmdline_cons a args : cmdline (a :: args) = a ++ nul :: cmdline args.
Proof. unfold cmdline. cbn. by rewrite <- (assoc_L (++)). Qed.

Lemma split_cmdline fuel args : Forall (λ a, nul ∉ a) args → (length args ≤ fuel)%nat → split_args fuel (cmdline args) = args.
Proof.
  revert fuel. induction args as [|a args IH]; intros fuel Ha Hf; [by destruct fuel|].
  destruct fuel as [|fuel]; [simpl in Hf; lia|]. apply Forall_cons in Ha as [Hn Ha]. rewrite cmdline_cons.
  assert (E : ∀ s, s ≠ [] → split_args (S fuel) s = c_str s :: split_args fuel (drop (S (length (c_str s))) s)) by (by intros []).
  rewrite E by (by destruct a). rewrite c_str_pre by done.
  rewrite drop_after. by rewrite IH by (done || (simpl in Hf; lia)).
Qed.

Lemma push_cmd_fits o args : (length o + length (cmdline args) ≤ CMD_SIZE)%nat → push_cmd o args = o ++ cmdline args.
Proof.
  revert o. induction args as [|a args IH]; intros o Ho; [by rewrite app_nil_r|].
  rewrite cmdline_cons, length_app in Ho. cbn [push_cmd]. simpl in Ho. rewrite decide_False by lia.
  rewrite IH by (rewrite !length_app; simpl; lia). rewrite cmdline_cons, <- !(assoc_L (++)). done.
Qed.

Definition loader_options : list bytes := strs ["--library-path"; "--preload"; "--argv0"; "--inhibit-cache"].
Lemma skip_loader_prefix c ld lp argv0 host args : host ∉ loader_options →
  ∃ opts, loader_prefix c ld lp argv0 host ++ args = ld :: opts ∧ skip_options None opts = Some (Some argv0, host, args).
Proof.
  intros Hh. unfold loader_prefix. eexists. rewrite <- !(assoc_L (++)). split; [reflexivity|].
  assert (Hhost : ∀ v, skip_options v (host :: args) = Some (v, host, args)).
  { intros v. cbn [skip_options]. unfold loader_options, strs in Hh. cbn in Hh.
    rewrite !bool_decide_false; [done|..]; intros ->; apply Hh; set_solver. }
  destruct lp, (g_preload c); cbn; apply Hhost.
Qed.

Lemma cmdline_of_loader c ps ld lp preload_rt argv0 host args :
  synth_is_ldso ld = true → host ∉ loader_options →
  let x := loader_prefix preload_rt ld lp argv0 host ++ args in
  Forall (λ a, nul ∉ a) x → (length x ≤ CMD_ARGC)%nat → (length (cmdline x) < CMD_SIZE)%nat →
  ps_cmdline ps = Some (cmdline x) → synth_cmdline c ps = Some (cmdline (argv0 :: args)).
Proof.
  intros Hld Hh x Hn Hargc Hlen Hps. unfold synth_cmdline. rewrite Hps. cbn [mbind option_bind].
  rewrite take_ge by lia. rewrite split_cmdline by done.
  destruct (skip_loader_prefix preload_rt ld lp argv0 host args Hh) as (opts & E & Es). fold x in E. rewrite E, Hld. cbn [negb].
  rewrite Es. cbn [mbind option_bind].
  assert (Hfit : (length (cmdline (argv0 :: args)) ≤ length (cmdline x))%nat).
  { unfold x, loader_prefix, cmdline. rewrite !fmap_app, !concat_app, !length_app. cbn.
    rewrite !length_app. simpl. rewrite ?length_app. lia. }
  rewrite cmdline_cons, length_app in Hfit. simpl in Hfit.
  rewrite decide_False by lia. rewrite push_cmd_fits; [by rewrite cmdline_cons, <- (assoc_L (++))|].
  rewrite length_app. simpl. lia.
Qed.

Lemma synth_fd_content c ps create content s : synth_fd c ps create content = Some s → s = content.
Proof.
  unfold synth_fd. destruct (synth_leaks _ _); [done|]. cbv zeta.
  destruct (rw_string _ _) as [h|]; [|done]. cbn [mbind option_bind]. destruct (create h); congruence.
Qed.

(** A program started through the loader reads its own command line from /proc: when
    [exec_dispatch] starts a dynamic program, directly or through one script, and the kernel
    keeps the argument vector that was built, then opening the command line yields the
    arguments the kernel would have kept for the program itself, under every name of the
    file, without the loader, its options and the host paths they carry; only a name in
    argv[0] that looks like a host path makes the library give up. *)
Theorem guest_cmdline {B} (c child : runtime) (sys : system) (guest ld : bytes) (argv : list bytes)
    (envp : option (list bytes)) (r : resolved) (lp : option bytes) (ps : procfs) (create : bytes → bool)
    (real : option (option bytes → outcome B)) (x : call) (self : bytes) :
  resolve_loop c sys ALR_SHEBANG_MAX_DEPTH no_shebang (At guest) [] = Some (inr r) →
  (length (r_lvl r) ≤ 1)%nat → r_kind r = ALR_EXE_ELF_DYNAMIC → r_go r = false → is_host_binary c sys r = false →
  g_ldso c = Some ld → libpath_for c sys (r_host r) = Some lp → (0 < length argv < 4000)%nat →
  exec_dispatch c sys guest argv envp = Some (inr x) →
  synth_is_ldso ld = true → r_host r ∉ loader_options →
  Forall (λ a, nul ∉ a) (x_argv x) → (length (x_argv x) ≤ CMD_ARGC)%nat → (length (cmdline (x_argv x)) < CMD_SIZE)%nat →
  ps_cmdline ps = Some (cmdline (x_argv x)) →
  self ∈ strs ["/proc/self/cmdline"; "/proc/thread-self/cmdline"] →
  let kargv := kernel_argv c sys ALR_SHEBANG_MAX_DEPTH guest argv in
  synth_cmdline child ps = Some (cmdline kargv) ∧
  (∀ s, synth_fd child ps create (cmdline kargv) = Some s → open child ps create real (Some self) true = inl s ∧ s = cmdline kargv) ∧
  (synth_fd child ps create (cmdline kargv) = None → open child ps create real (Some self) true = inr (path_call child real (Some self))) ∧
  (synth_leaks child (hd [] kargv) = true → synth_fd child ps create (cmdline kargv) = None).
Proof.
  intros Hres Hlvl Hkind Hgo Hhost Hld Hlp Hargv Hx Hldso Hopt Hnul Hargc Hlen Hps Hself kargv.
  rewrite (loader_dispatch c sys guest ld argv envp r lp Hres Hlvl Hkind Hgo Hhost Hld Hlp Hargv) in Hx.
  apply (inj Some), (inj inr) in Hx. subst x. cbn [x_argv] in *. fold kargv in Hnul, Hargc, Hlen, Hps.
  assert (Hk : kargv = hd [] kargv :: tail kargv).
  { assert (Hk := resolve_short c sys guest argv r Hres Hlvl). cbv zeta in Hk. fold kargv in Hk.
    destruct Hk as [(_ & _ & ->)|(lv & _ & ->)]; [by destruct argv; [simpl in Hargv; lia|]|done]. }
  assert (Hc : synth_cmdline child ps = Some (cmdline kargv)).
  { rewrite Hk. eapply cmdline_of_loader; [exact Hldso|exact Hopt|exact Hnul|exact Hargc|exact Hlen|exact Hps]. }
  assert (Hfor : synth_for child ps self = Some (cmdline kargv)).
  { rewrite <- Hc. unfold strs in Hself. cbn in Hself. rewrite !elem_of_cons in Hself.
    destruct Hself as [->|[->|[]%elem_of_nil]]; reflexivity. }
  split; [exact Hc|]. unfold open. cbn [mbind option_bind]. rewrite Hfor. cbn [mbind option_bind].
  split; [|split].
  - intros s Es. rewrite Es. split; [done|]. by eapply synth_fd_content.
  - by intros ->.
  - intros Hleak. unfold synth_fd. rewrite Hk, cmdline_cons, c_str_pre, Hleak; [done|].
    apply (proj1 (Forall_forall _ _) Hnul). generalize (hd [] kargv). intros a. unfold loader_prefix.
    rewrite !elem_of_app, !elem_of_cons. tauto.
Qed.
Definition proc_rt : runtime :=
  mk_runtime "/data/r" (Some (str "/bin/sh")) (Some (str "/data/r/lib/ld-linux-aarch64.so.1")) (Some (str "/data/r/lib"))
    (Some (str "/data/alr.so")) None None false true [].
Definition proc_ps (args : list bytes) : procfs := mk_procfs (Some (cmdline args)) 8 false 4242.
Definition proc_argv : list bytes := strs
  ["/data/r/lib/ld-linux-aarch64.so.1"; "--library-path"; "/data/r/lib:/data/r/opt/lib"; "--inhibit-cache"; "--argv0";
   "/bin/sh"; "--preload"; "/data/alr.so"; "/data/r/bin/sh"; "-x"; "/s"; "a"].
Lemma guest_cmdline_witness :
  open proc_rt (proc_ps proc_argv) (λ _, true) (B := bytes) None (Some (str "/proc/self/cmdline")) true =
    inl (cmdline (strs ["/bin/sh"; "-x"; "/s"; "a"])).
Proof.
  refine (proj1 (proj1 (proj2 (guest_cmdline proc_rt proc_rt sample_sys "/s" "/data/r/lib/ld-linux-aarch64.so.1" (strs ["s"; "a"]) None
    (mk_resolved (mk_alr_shebang "/bin/sh" "-x" true) SbInterp "/data/r/bin/sh" ALR_EXE_ELF_DYNAMIC "/lib/ld.so" false
       [(Some SbArg, At "/s")]) (Some (str "/data/r/lib:/data/r/opt/lib")) (proc_ps proc_argv) (λ _, true) None
    (mk_call "/data/r/lib/ld-linux-aarch64.so.1" proc_argv None) "/proc/self/cmdline"
    _ _ _ _ _ _ _ _ _ _ _ _ _ _ _ _)) _ _));
    first [by vm_compute | by (vm_compute; lia) | by apply (bool_decide_unpack _); vm_compute].
Defined.

(** The statistics of a process and the command line of the kernel have the names the
    library takes for the processor list and the process's command line. *)
Example process_stat_masked : synth_for proc_rt (proc_ps proc_argv) "/proc/self/stat" = Some (synth_stat 8).
Proof. by vm_compute. Qed.
Example kernel_cmdline_masked :
  synth_for proc_rt (proc_ps proc_argv) "/proc/cmdline" = Some (cmdline (strs ["/bin/sh"; "-x"; "/s"; "a"])).
Proof. by vm_compute. Qed.
(** A guest name that only looks like a path of the host makes the library show the host's
    file, and an argument that is a host path is not noticed. *)
Example systemd_refused :
  synth_fd proc_rt (proc_ps proc_argv) (λ _, true) (cmdline (strs ["/lib/systemd/systemd-udevd"])) = None.
Proof. by vm_compute. Qed.
Example argument_not_checked :
  let s := cmdline (strs ["cat"; "/data/r/etc/passwd"]) in synth_fd proc_rt (proc_ps proc_argv) (λ _, true) s = Some s.
Proof. by vm_compute. Qed.

(** ** The lock *)

(** The attempts end after fifteen, and only the two errors of a held lock are waited for. *)
Lemma lock_loop_bounds n i fcntl err : let '(k, r) := lock_loop n i fcntl err in
  (i ≤ k ≤ i + n)%nat ∧ (∀ j, (i ≤ j < k)%nat → fcntl j = inl EACCES ∨ fcntl j = inl EAGAIN) ∧
  (r = inr () → (k < i + n)%nat ∧ fcntl k = inr ()).
Proof.
  revert i err. induction n as [|n IH]; intros i err; cbn [lock_loop]; [split; [lia|]; split; [lia|done]|].
  destruct (fcntl i) as [e|[]] eqn:E; [|split; [lia|]; split; [lia|]; intros _; split; [lia|done]].
  destruct (negb (e =? EACCES) && negb (e =? EAGAIN)) eqn:Ee; [split; [lia|]; split; [lia|done]|].
  specialize (IH (S i) e). destruct (lock_loop n (S i) fcntl e) as [k r]. destruct IH as (H1 & H2 & H3).
  split; [lia|]. split.
  - intros j Hj. destruct (decide (j = i)) as [->|]; [|apply H2; lia].
    rewrite E. apply andb_false_iff in Ee as [Ee|Ee]; apply negb_false_iff, Z.eqb_eq in Ee; subst e; tauto.
  - intros Hr. destruct (H3 Hr). split; [lia|done].
Qed.

(** Calls of the two functions, from the start of the process. *)
Inductive lock_op := OpLock (real_open : option (bytes → outcome Z)) (fcntl : nat → outcome unit) | OpUnlock.
Definition lock_step (c : runtime) (l : lock) (o : lock_op) : lock :=
  match o with
  | OpLock ro f => match lckpwdf c ro f l with inl (l, _) => l | inr l => l end
  | OpUnlock => fst (ulckpwdf l)
  end.
(** The descriptors open are those held: no call leaves one behind, whatever libc and the
    kernel answer. *)
Lemma lock_no_leak c (ops : list lock_op) :
  let l := foldl (lock_step c) (mk_lock None []) ops in
  lk_open l = match g_pwdlock_fd l with Some fd => [fd] | None => [] end.
Proof.
  cbv zeta. induction ops as [|o ops IH] using rev_ind; [done|]. rewrite foldl_snoc.
  destruct (foldl _ _ ops) as [fd op]. simpl in IH. subst op. destruct o as [ro f|]; cbn [lock_step].
  - unfold lckpwdf. destruct fd as [fd|]; cbn [g_pwdlock_fd]; [done|]. destruct (rw_string _ _); [|done].
    destruct (need ro _) as [|fd]; [done|]. by destruct (snd (lock_loop 15 0 f 0)).
  - unfold ulckpwdf. destruct fd as [fd|]; cbn; [|done]. by rewrite decide_False by (intros H; by apply H).
Qed.
