(* ===== verification/PreloadTty.v ===== *)
(** * The preload library of the C runtime: terminals ([runtime/alr/src/preload/alr_preload.c])

    Android filters the terminal requests a process may make.  The library answers the
    filtered ones from the allowed ones and keeps libc's [tcgetattr], [tcsetattr] and
    [isatty] working on every version of glibc.  The kernel's answers are arguments of the
    definitions. *)

From S2P Require Import Prelude CppMap Bytes PathRule ExecPlan PreloadPath PreloadExec PreloadNss.

Local Open Scope Z_scope.

Definition EFAULT : Z := 14.
Definition EINVAL : Z := 22.
Definition EBADF : Z := 9.
Definition ENOTTY : Z := 25.
Definition ERANGE : Z := 34.

(** ** Requests *)

Definition TCGETS : Z := 0x5401.
Definition TCSETS : Z := 0x5402.
Definition TCSETSW : Z := 0x5403.
Definition TCSETSF : Z := 0x5404.
Definition TIOCEXCL : Z := 0x540c.
Definition TIOCNXCL : Z := 0x540d.
Definition TIOCSTI : Z := 0x5412.
Definition TIOCNOTTY : Z := 0x5422.
Definition TIOCSETD : Z := 0x5423.
Definition TIOCGETD : Z := 0x5424.
Definition TIOCGSID : Z := 0x5429.
Definition ALR_TCGETS2 : Z := 0x802c542a.
Definition ALR_TCSETS2 : Z := 0x402c542b.
Definition ALR_TCSETSW2 : Z := 0x402c542c.
Definition ALR_TCSETSF2 : Z := 0x402c542d.
Definition N_TTY : Z := 0.

Definition ALR_KNCCS : nat := 19.
(** The kernel's [termios], and with the two speeds [termios2]. *)
Record alr_ktermios := mk_ktermios {
  k_iflag : Z; k_oflag : Z; k_cflag : Z; k_lflag : Z; k_line : Z; k_cc : bytes }.
Record alr_ktermios2 := mk_ktermios2 { k2_termios : alr_ktermios; k2_ispeed : Z; k2_ospeed : Z }.

(** What the argument points to, and what a call leaves there. *)
Inductive ioctl_arg := ANull | ATermios2 (t : alr_ktermios2) | AInt (z : Z).
Inductive ioctl_result := ROk | RTermios2 (t : alr_ktermios2) | RInt (z : Z).

Section ioctl.
(** The terminal settings the kernel returns, how it takes new ones, the session of the
    process, and every other request. *)
Context (tcgets : outcome alr_ktermios) (tcset : Z → alr_ktermios → outcome unit) (getsid : outcome Z)
  (other : Z → ioctl_arg → outcome ioctl_result).

Definition ioctl (req : Z) (arg : ioctl_arg) : outcome ioctl_result :=
  if req =? ALR_TCGETS2 then
    match arg with
    | ANull => inl EFAULT
    | _ => match tcgets with
           | inl e => inl e
           | inr t => let s := Z.land (k_cflag t) 0x100f in inr (RTermios2 (mk_ktermios2 t s s))
           end
    end
  else if (req =? ALR_TCSETS2) || (req =? ALR_TCSETSW2) || (req =? ALR_TCSETSF2) then
    let to := if req =? ALR_TCSETS2 then TCSETS else if req =? ALR_TCSETSW2 then TCSETSW else TCSETSF in
    match arg with
    | ATermios2 t => match tcset to (k2_termios t) with inl e => inl e | inr _ => inr ROk end
    | _ => inl EFAULT
    end
  else if req =? TIOCGSID then
    match getsid with
    | inl e => inl e
    | inr sid => match arg with ANull => inl EFAULT | _ => inr (RInt sid) end
    end
  else if req =? TIOCGETD then match arg with ANull => inl EFAULT | _ => inr (RInt N_TTY) end
  else if req =? TIOCSETD then
    match arg with AInt z => if z =? N_TTY then inr ROk else inl EINVAL | _ => inr ROk end
  else if (req =? TIOCEXCL) || (req =? TIOCNXCL) || (req =? TIOCNOTTY) then inr ROk
  else if req =? TIOCSTI then inl EACCES
  else other req arg.
End ioctl.

(** ** Speeds *)

Definition ALR_CBAUD : Z := 0x100f.
Definition ALR_IBSHIFT : Z := 16.
(** Code and rate. *)
Definition alr_baud_tab : list (Z * Z) :=
  [(0, 0); (1, 50); (2, 75); (3, 110); (4, 134); (5, 150); (6, 200); (7, 300); (8, 600); (9, 1200);
   (10, 1800); (11, 2400); (12, 4800); (13, 9600); (14, 19200); (15, 38400); (0x1001, 57600);
   (0x1002, 115200); (0x1003, 230400); (0x1004, 460800); (0x1005, 500000); (0x1006, 576000);
   (0x1007, 921600); (0x1008, 1000000); (0x1009, 1152000); (0x100a, 1500000); (0x100b, 2000000);
   (0x100c, 2500000); (0x100d, 3000000); (0x100e, 3500000); (0x100f, 4000000)].
(** [alr_speed_is_baud]: glibc from 2.42 on keeps rates; [sscanf] of the version. *)
Definition alr_speed_is_baud (version : option bytes) : bool :=
  let '(maj, min) := match version with
    | None => (0, 0)
    | Some s =>
        let '(maj, used) := strtoul s in
        if (used =? 0)%nat then (0, 0)
        else match drop used s with
             | b :: r => (u32 maj, if bool_decide (b = "."%byte) then u32 (fst (strtoul r)) else 0)
             | [] => (u32 maj, 0)
             end
    end in
  (2 <? maj) || ((maj =? 2) && (42 <=? min)).
Definition alr_code_to_baud (code : Z) : Z :=
  match filter (λ e : Z * Z, fst e = code) alr_baud_tab with e :: _ => snd e | [] => 0 end.
Definition alr_baud_to_code (baud : Z) : Z :=
  match filter (λ e : Z * Z, snd e = baud) alr_baud_tab with e :: _ => fst e | [] => -1 end.

(** ** The calls of libc *)

(** glibc's [termios], with 32 control characters. *)
Definition NCCS : nat := 32.
Record termios := mk_termios {
  c_iflag : Z; c_oflag : Z; c_cflag : Z; c_lflag : Z; c_line : Z; c_cc : bytes; c_ispeed : Z; c_ospeed : Z }.

Section libc.
(** Whether the running glibc keeps rates. *)
Context (baud : bool).

(** What [alr_tc_get] makes of the kernel's settings. *)
Definition tc_of (k : alr_ktermios) : termios :=
  let ocode := Z.land (k_cflag k) ALR_CBAUD in
  let icode := Z.land (Z.shiftr (k_cflag k) ALR_IBSHIFT) ALR_CBAUD in
  let '(i, o) :=
    if baud then
      let o := alr_code_to_baud ocode in (if icode =? 0 then o else alr_code_to_baud icode, o)
    else (ocode, ocode) in
  mk_termios (k_iflag k) (k_oflag k) (k_cflag k) (k_lflag k) (k_line k)
    (k_cc k ++ replicate (NCCS - ALR_KNCCS) nul) i o.
Definition alr_tc_get (tcgets : outcome alr_ktermios) : outcome termios :=
  match tcgets with inl e => inl e | inr k => inr (tc_of k) end.
Definition tcgetattr (tcgets : outcome alr_ktermios) (out : bool) : outcome termios :=
  if out then alr_tc_get tcgets else inl EFAULT.

Definition TCSANOW : Z := 0.
Definition TCSADRAIN : Z := 1.
Definition TCSAFLUSH : Z := 2.
(** The request and the settings [tcsetattr] sends, or its own error. *)
Definition tc_request (act : Z) (t : option termios) : outcome (Z * alr_ktermios) :=
  match t with
  | None => inl EFAULT
  | Some t =>
      let send cmd :=
        let k c := mk_ktermios (c_iflag t) (c_oflag t) c (c_lflag t) (c_line t) (take ALR_KNCCS (c_cc t)) in
        if baud then
          let oc := alr_baud_to_code (c_ospeed t) in
          let ic := if (c_ispeed t =? 0) || (c_ispeed t =? c_ospeed t) then 0 else alr_baud_to_code (c_ispeed t) in
          if (oc <? 0) || (ic <? 0) then inl EINVAL
          else inr (cmd, k (Z.lor (Z.land (c_cflag t) (Z.lnot (Z.lor ALR_CBAUD (Z.shiftl ALR_CBAUD ALR_IBSHIFT))))
                                  (Z.lor oc (Z.shiftl ic ALR_IBSHIFT))))
        else inr (cmd, k (c_cflag t)) in
      if act =? TCSANOW then send TCSETS
      else if act =? TCSADRAIN then send TCSETSW
      else if act =? TCSAFLUSH then send TCSETSF
      else inl EINVAL
  end.
Definition tcsetattr (tcset : Z → alr_ktermios → outcome unit) (act : Z) (t : option termios) : outcome unit :=
  match tc_request act t with inl e => inl e | inr (cmd, k) => tcset cmd k end.

(** [isatty]: the value and [errno], which was [saved]. *)
Definition isatty (tcgets : outcome alr_ktermios) (saved : Z) : bool * Z :=
  match alr_tc_get tcgets with
  | inr _ => (true, saved)
  | inl e => (false, if e =? EBADF then EBADF else ENOTTY)
  end.

(** [ttyname_r]: the terminal's name as a guest path.  Where glibc would use the filtered
    request the library checks the descriptor itself and reads the link in /proc;
    otherwise [real] is libc's answer. *)
Definition ttyname_r (c : runtime) (tcgets : outcome alr_ktermios) (link : outcome bytes)
    (real : option (outcome bytes)) (buflen : nat) : outcome bytes :=
  let host :=
    if baud then
      match alr_tc_get tcgets with
      | inl e => inl (if e =? EBADF then EBADF else ENOTTY)
      | inr _ => match link with inl e => inl e | inr h => inr (c_str (take (ALR_PBUF - 1) h)) end
      end
    else match real with None => inl ENOSYS | Some r => r end in
  match host with
  | inl e => inl e
  | inr h => let g := canon_or c h in if decide (buflen < length g + 1)%nat then inl ERANGE else inr g
  end.
End libc.

(** * The table of speeds *)

Lemma tab_inverse : Forall (λ e : Z * Z, alr_code_to_baud (fst e) = snd e ∧ alr_baud_to_code (snd e) = fst e ∧
  Z.land (fst e) ALR_CBAUD = fst e ∧ Z.land (Z.shiftl (fst e) ALR_IBSHIFT) ALR_CBAUD = 0 ∧
  Z.land (Z.shiftr (fst e) ALR_IBSHIFT) ALR_CBAUD = 0 ∧ (fst e = 0 ↔ snd e = 0)) alr_baud_tab.
Proof. repeat constructor; vm_compute; congruence. Qed.

(** A code that was found is the one of its rate. *)
Lemma baud_to_code_found b : 0 ≤ alr_baud_to_code b → (alr_baud_to_code b, b) ∈ alr_baud_tab.
Proof.
  unfold alr_baud_to_code. destruct (filter _ _) as [|e l] eqn:E; [done|]. intros _.
  assert (He : e ∈ filter (λ e : Z * Z, snd e = b) alr_baud_tab) by (rewrite E; constructor).
  apply list_elem_of_filter in He as [<- He]. by destruct e.
Qed.
Lemma baud_code b : 0 ≤ alr_baud_to_code b →
  alr_code_to_baud (alr_baud_to_code b) = b ∧ Z.land (alr_baud_to_code b) ALR_CBAUD = alr_baud_to_code b ∧
  Z.land (Z.shiftl (alr_baud_to_code b) ALR_IBSHIFT) ALR_CBAUD = 0 ∧
  Z.land (Z.shiftr (alr_baud_to_code b) ALR_IBSHIFT) ALR_CBAUD = 0 ∧ (alr_baud_to_code b = 0 ↔ b = 0).
Proof.
  intros H%baud_to_code_found. pose proof (proj1 (Forall_forall _ _) tab_inverse _ H) as T. simpl in T. tauto.
Qed.

Definition SPEED_BITS : Z := Z.lor ALR_CBAUD (Z.shiftl ALR_CBAUD ALR_IBSHIFT).
(** Settings with the two speed fields of the flags replaced. *)
Definition with_speeds (c oc ic : Z) : Z := Z.lor (Z.land c (Z.lnot SPEED_BITS)) (Z.lor oc (Z.shiftl ic ALR_IBSHIFT)).

Definition is_code (c : Z) : Prop :=
  Z.land c ALR_CBAUD = c ∧ Z.land (Z.shiftl c ALR_IBSHIFT) ALR_CBAUD = 0 ∧ Z.land (Z.shiftr c ALR_IBSHIFT) ALR_CBAUD = 0.
Lemma with_speeds_out c oc ic : is_code oc → is_code ic → Z.land (with_speeds c oc ic) ALR_CBAUD = oc.
Proof.
  intros (Ho & _ & _) (_ & Hi & _). unfold with_speeds. rewrite !Z.land_lor_distr_l, Ho, Hi, <- Z.land_assoc.
  change (Z.land (Z.lnot SPEED_BITS) ALR_CBAUD) with 0. by rewrite Z.land_0_r, Z.lor_0_r.
Qed.
Lemma with_speeds_in c oc ic : is_code oc → is_code ic →
  Z.land (Z.shiftr (with_speeds c oc ic) ALR_IBSHIFT) ALR_CBAUD = ic.
Proof.
  intros (_ & _ & Ho) (Hi & _ & _). unfold with_speeds. rewrite !Z.shiftr_lor, Z.shiftr_land, !Z.land_lor_distr_l, Ho, <- Z.land_assoc.
  change (Z.land (Z.shiftr (Z.lnot SPEED_BITS) ALR_IBSHIFT) ALR_CBAUD) with 0.
  rewrite Z.land_0_r, Z.shiftr_shiftl_l by done. by rewrite Z.sub_diag, Z.shiftl_0_r, Hi.
Qed.
Lemma with_speeds_rest c oc ic : is_code oc → is_code ic →
  Z.land (with_speeds c oc ic) (Z.lnot SPEED_BITS) = Z.land c (Z.lnot SPEED_BITS).
Proof.
  intros (Ho & _ & _) (Hi & _ & _). unfold with_speeds. rewrite !Z.land_lor_distr_l, <- Z.land_assoc, Z.land_diag.
  rewrite <- Ho, <- Hi, Z.shiftl_land, <- !Z.land_assoc.
  change (Z.land ALR_CBAUD (Z.lnot SPEED_BITS)) with 0.
  change (Z.land (Z.shiftl ALR_CBAUD ALR_IBSHIFT) (Z.lnot SPEED_BITS)) with 0.
  by rewrite !Z.land_0_r, !Z.lor_0_r.
Qed.
Lemma with_speeds_twice c oc ic : is_code oc → is_code ic →
  with_speeds (with_speeds c oc ic) oc ic = with_speeds c oc ic.
Proof. intros Ho Hi. unfold with_speeds at 1. by rewrite with_speeds_rest. Qed.

(** * Round trips *)

Definition tty_action (act : Z) : option Z :=
  if act =? TCSANOW then Some TCSETS else if act =? TCSADRAIN then Some TCSETSW
  else if act =? TCSAFLUSH then Some TCSETSF else None.
(** The codes [tcsetattr] writes for a pair of rates. *)
Definition speed_codes (t : termios) : Z * Z :=
  (alr_baud_to_code (c_ospeed t),
   if (c_ispeed t =? 0) || (c_ispeed t =? c_ospeed t) then 0 else alr_baud_to_code (c_ispeed t)).
Definition kernel_of (t : termios) (c : Z) : alr_ktermios :=
  mk_ktermios (c_iflag t) (c_oflag t) c (c_lflag t) (c_line t) (take ALR_KNCCS (c_cc t)).
Lemma tc_request_eq baud act t : tc_request baud act (Some t) =
  match tty_action act with
  | None => inl EINVAL
  | Some cmd =>
      if baud then
        let '(oc, ic) := speed_codes t in
        if (oc <? 0) || (ic <? 0) then inl EINVAL else inr (cmd, kernel_of t (with_speeds (c_cflag t) oc ic))
      else inr (cmd, kernel_of t (c_cflag t))
  end.
Proof.
  unfold tc_request, tty_action, kernel_of, with_speeds, SPEED_BITS, speed_codes.
  destruct (act =? TCSANOW), (act =? TCSADRAIN), (act =? TCSAFLUSH), baud; reflexivity.
Qed.

Lemma code_is_code b : 0 ≤ alr_baud_to_code b → is_code (alr_baud_to_code b).
Proof. intros H%baud_code. unfold is_code. tauto. Qed.
Lemma zero_is_code : is_code 0.
Proof. by vm_compute. Qed.

(** The settings read back after a set are the ones that were set. *)
Lemma tc_of_kernel_baud t oc ic : speed_codes t = (oc, ic) → 0 ≤ oc → 0 ≤ ic →
  let t' := tc_of true (kernel_of t (with_speeds (c_cflag t) oc ic)) in
  is_code oc ∧ is_code ic ∧ c_ospeed t' = c_ospeed t ∧
  c_ispeed t' = (if c_ispeed t =? 0 then c_ospeed t else c_ispeed t).
Proof.
  intros [= <- <-] Ho Hi. set (oc := alr_baud_to_code (c_ospeed t)) in *.
  set (ic := if (c_ispeed t =? 0) || (c_ispeed t =? c_ospeed t) then 0 else alr_baud_to_code (c_ispeed t)) in *.
  assert (Co : is_code oc) by (by apply code_is_code).
  assert (Ci : is_code ic).
  { unfold ic in *. destruct (_ || _); [apply zero_is_code|by apply code_is_code]. }
  split; [done|]. split; [done|]. unfold tc_of, kernel_of. cbn [k_cflag]. rewrite with_speeds_out, with_speeds_in by done.
  cbn [c_ospeed c_ispeed]. destruct (baud_code (c_ospeed t) Ho) as (Eo & _). fold oc in Eo. split; [done|].
  unfold ic in *. destruct (c_ispeed t =? 0) eqn:E0; cbn [orb] in *; [by rewrite Eo|].
  destruct (c_ispeed t =? c_ospeed t) eqn:E1.
  - rewrite Eo. change (0 =? 0) with true. cbv iota. lia.
  - destruct (baud_code (c_ispeed t) Hi) as (Ei & _ & _ & _ & Hz). rewrite Ei.
    destruct (alr_baud_to_code (c_ispeed t) =? 0) eqn:E; [|done]. lia.
Qed.

(** Terminal settings survive: whatever a program passes to [tcsetattr] and the library
    accepts, under either convention for the speeds, the settings [tcgetattr] then reports
    have the same modes, line discipline, control characters and flags outside the speed
    fields; where glibc keeps rates the output rate is the one asked for and the input rate
    too, zero meaning the output rate; where it keeps codes the whole flag word is the same;
    and setting what was reported sends the kernel the same request again. *)
Theorem termios_roundtrip (baud : bool) (act : Z) (t : termios) (cmd : Z) (k : alr_ktermios) :
  length (c_cc t) = NCCS → tc_request baud act (Some t) = inr (cmd, k) →
  let t' := tc_of baud k in
  (c_iflag t', c_oflag t', c_lflag t', c_line t') = (c_iflag t, c_oflag t, c_lflag t, c_line t) ∧
  take ALR_KNCCS (c_cc t') = take ALR_KNCCS (c_cc t) ∧ length (c_cc t') = NCCS ∧
  Z.land (c_cflag t') (Z.lnot SPEED_BITS) = Z.land (c_cflag t) (Z.lnot SPEED_BITS) ∧
  (if baud
   then c_ospeed t' = c_ospeed t ∧ c_ispeed t' = (if c_ispeed t =? 0 then c_ospeed t else c_ispeed t)
   else c_cflag t' = c_cflag t ∧ c_ospeed t' = Z.land (c_cflag t) ALR_CBAUD ∧ c_ispeed t' = c_ospeed t') ∧
  tc_request baud act (Some t') = inr (cmd, k).
Proof.
  intros Hcc. rewrite tc_request_eq. destruct (tty_action act) as [cmd'|] eqn:Ea; [|done].
  assert (Hlen : length (take ALR_KNCCS (c_cc t)) = ALR_KNCCS) by (rewrite length_take, Hcc; done).
  assert (Ht : ∀ x, take ALR_KNCCS (take ALR_KNCCS (c_cc t) ++ x) = take ALR_KNCCS (c_cc t)).
  { intros x. by rewrite take_app_length' by done. }
  destruct baud.
  - destruct (speed_codes t) as [oc ic] eqn:Es. destruct (_ || _) eqn:Eneg; [done|]. intros [= <- <-] t'.
    apply orb_false_iff in Eneg as [E1 E2].
    destruct (tc_of_kernel_baud t oc ic Es ltac:(lia) ltac:(lia)) as (Co & Ci & So & Si). fold t' in So, Si.
    assert (Ec : c_cflag t' = with_speeds (c_cflag t) oc ic) by (unfold t', tc_of; by case_match).
    assert (El : c_cc t' = take ALR_KNCCS (c_cc t) ++ replicate (NCCS - ALR_KNCCS) nul) by (unfold t', tc_of; by case_match).
    assert (Em : (c_iflag t', c_oflag t', c_lflag t', c_line t') = (c_iflag t, c_oflag t, c_lflag t, c_line t))
      by (unfold t', tc_of; by case_match).
    split; [done|]. rewrite El, Ht, length_app, Hlen, Ec, with_speeds_rest by done.
    do 3 (split; [done|]). split; [done|].
    rewrite tc_request_eq, Ea. assert (speed_codes t' = (oc, ic)) as ->.
    { injection Es as <- <-. unfold speed_codes. rewrite So, Si. f_equal.
      destruct (c_ispeed t =? 0) eqn:E0; [|by rewrite E0]. by rewrite Z.eqb_refl, orb_true_r. }
    rewrite E1, E2. cbn [orb]. unfold kernel_of. rewrite El, Ht, Ec, with_speeds_twice by done.
    reflexivity.
  - intros [= <- <-] t'. unfold t', tc_of, kernel_of.
    cbn [k_iflag k_oflag k_cflag k_lflag k_line k_cc c_iflag c_oflag c_cflag c_lflag c_line c_cc c_ispeed c_ospeed]. split; [done|]. rewrite Ht, length_app, Hlen.
    do 3 (split; [done|]). split; [done|]. rewrite tc_request_eq, Ea. unfold kernel_of.
    cbn [c_iflag c_oflag c_cflag c_lflag c_line c_cc]. by rewrite Ht.
Qed.
Definition sample_tty : termios :=
  mk_termios 0x500 5 0x4bf 0x8a3b 0 (str "CCCCCCCCCCCCCCCCCCCCCCCCCCCCCCCC") 9600 115200.
Lemma termios_roundtrip_witness :
  ∃ k, tc_request true TCSADRAIN (Some sample_tty) = inr (TCSETSW, k) ∧ c_ospeed (tc_of true k) = 115200 ∧
    c_ispeed (tc_of true k) = 9600 ∧ tc_request true TCSADRAIN (Some (tc_of true k)) = inr (TCSETSW, k).
Proof.
  eexists. split; [reflexivity|].
  destruct (termios_roundtrip true TCSADRAIN sample_tty TCSETSW _ eq_refl eq_refl) as (_ & _ & _ & _ & [Ho Hi] & Hr).
  split; [exact Ho|]. split; [exact Hi|exact Hr].
Defined.

(** [tcsetattr] refuses exactly unknown actions and rates that have no code. *)
Lemma tcsetattr_error baud act t e : tc_request baud act (Some t) = inl e ↔
  e = EINVAL ∧ (tty_action act = None ∨
    baud = true ∧ (alr_baud_to_code (c_ospeed t) < 0 ∨
      (c_ispeed t ≠ 0 ∧ c_ispeed t ≠ c_ospeed t ∧ alr_baud_to_code (c_ispeed t) < 0))).
Proof.
  rewrite tc_request_eq. destruct (tty_action act); [|naive_solver]. destruct baud; [|naive_solver].
  unfold speed_codes. destruct (c_ispeed t =? 0) eqn:E0, (c_ispeed t =? c_ospeed t) eqn:E1; cbn [orb];
    destruct (alr_baud_to_code (c_ospeed t) <? 0) eqn:E2; cbn [orb];
    try (destruct (alr_baud_to_code (c_ispeed t) <? 0) eqn:E3); naive_solver lia.
Qed.
(** Every rate of the table can be set, and no other. *)
Lemma settable b : 0 ≤ alr_baud_to_code b ↔ b ∈ snd <$> alr_baud_tab.
Proof.
  split.
  - intros H%baud_to_code_found. apply list_elem_of_fmap. by eexists (_, b).
  - intros ((c & b') & -> & H)%list_elem_of_fmap. pose proof (proj1 (Forall_forall _ _) tab_inverse _ H) as T. simpl in T.
    cbn [snd]. destruct T as (_ & -> & _). 
    refine (proj1 (Forall_forall (λ e : Z * Z, 0 ≤ fst e) alr_baud_tab) _ _ H). repeat constructor; done.
Qed.

(** A terminal that reports rates as [termios2] is given the code where the rate belongs. *)
Example termios2_speed_is_code k : k_cflag k = 0x4bf →
  ioctl (inr k) (λ _ _, inr ()) (inr 1) (λ _ _, inl ENOTTY) ALR_TCGETS2 (ATermios2 (mk_ktermios2 k 0 0)) =
    inr (RTermios2 (mk_ktermios2 k 15 15)) ∧ c_ospeed (tc_of true k) = 38400.
Proof. destruct k. cbn. intros ->. done. Qed.
(** The session and the line discipline are reported for descriptors that are no terminals. *)
Example not_a_terminal :
  isatty true (inl ENOTTY) 0 = (false, ENOTTY) ∧
  ioctl (inl ENOTTY) (λ _ _, inl ENOTTY) (inr 77) (λ _ _, inl ENOTTY) TIOCGSID (AInt 0) = inr (RInt 77).
Proof. done. Qed.
(** A line whose rate has no code is set to rate 0, which hangs up, when its own settings
    are set again. *)
Example arbitrary_rate_hangs_up i o l n cc :
  tc_request true TCSANOW (Some (tc_of true (mk_ktermios i o 0x14b0 l n cc))) =
    inr (TCSETS, mk_ktermios i o 0x4b0 l n (take ALR_KNCCS (cc ++ replicate (NCCS - ALR_KNCCS) nul))).
Proof. done. Qed.
