(* ===== verification/CliConfig.v ===== *)
(** * The command line tool: names and settings ([runtime/alr/src/cli/alr.c])

    A setting comes from the environment, else from the user's file, else from the global
    file, else it is built in.  The files are read by a small parser of its own and the
    user's file is written by [alr config set].  Files are their contents; buffers are C
    strings, cut where [snprintf] cuts them. *)

From S2P Require Import Prelude CppMap Bytes PathRule ExecPlan PreloadExec PreloadNss.

Local Open Scope Z_scope.

(** ** Names *)

Definition is_alnum (c : byte) : bool :=
  ((97 <=? byte_val c) && (byte_val c <=? 122)) || ((65 <=? byte_val c) && (byte_val c <=? 90)) ||
  ((48 <=? byte_val c) && (byte_val c <=? 57)).
Definition name_char (c : byte) : bool :=
  is_alnum c || bool_decide (c = "."%byte) || bool_decide (c = "_"%byte) || bool_decide (c = "-"%byte).
Definition distro_name_ok (d : bytes) : bool :=
  match d with
  | [] => false
  | c :: _ => negb (bool_decide (c = "."%byte)) && forallb name_char d && bool_decide (length d ≤ 64)%nat
  end.

(** ** The settings *)

Record alr_config := mk_config {
  distro : bytes; has_distro : bool;
  fakeroot : bool; has_fakeroot : bool;
  log : Z; has_log : bool;
  root : bytes; has_root : bool;
  mirror : bytes; has_mirror : bool;
  bad : Z;
}.
Definition no_config : alr_config := mk_config [] false false false 0 false [] false [] false 0.

(** [snprintf(out, n, ...)] of a text. *)
Definition cut (n : nat) (s : bytes) : bytes := take (n - 1) s.

(** [strtol(s, &end, 10)]: the value, saturated, and how many bytes were used. *)
Definition LONG_MAX : Z := 2 ^ 63 - 1.
Definition strtol (s : bytes) : Z * nat :=
  let t := drop_while is_space s in
  let '(neg, t) := match t with
                   | b :: r => if bool_decide (b = "-"%byte) then (true, r)
                               else if bool_decide (b = "+"%byte) then (false, r) else (false, t)
                   | [] => (false, [])
                   end in
  let ds := take_until (λ b, negb (num_digit b)) t in
  if bool_decide (ds = []) then (0, 0%nat)
  else
    let v := dec_value ds in
    (if neg then Z.max (- LONG_MAX - 1) (- v) else Z.min LONG_MAX v, (length s - length t + length ds)%nat).

Section env.
Context (getenv : bytes → option bytes).
(** The value of a variable that is set and not empty. *)
Definition env_set (name : bytes) : option bytes := v ← getenv name; if bool_decide (v = []) then None else Some v.

Definition prefix : bytes := default (str "/data/data/com.termux/files/usr") (env_set "PREFIX").
Definition cfg_path (user : bool) : bytes :=
  cut ALR_PBUF (if user then default (str ".") (env_set "HOME") ++ str "/.alr/config.toml" else prefix ++ str "/etc/alr/config.toml").
Definition cfg_expand (s : bytes) (n : nat) : bytes :=
  cut n (if is_prefix "$PREFIX" s then prefix ++ drop 7 s else s).

(** ** Lines *)

Definition cfg_trim (s : bytes) : bytes :=
  trim_end (λ b, is_blank b || is_crlf b) (drop_while is_blank s).
Definition quote : byte := Byte.x22.
Definition hash : byte := "#"%byte.
(** Up to the first [#] outside quotes; [q]: inside. *)
Fixpoint cfg_decomment (q : bool) (s : bytes) : bytes :=
  match s with
  | [] => []
  | b :: r => if bool_decide (b = quote) then b :: cfg_decomment (negb q) r
              else if bool_decide (b = hash) && negb q then [] else b :: cfg_decomment q r
  end.
Definition cfg_unquote (s : bytes) : bytes :=
  if bool_decide (2 ≤ length s)%nat && bool_decide (head s = Some quote) && bool_decide (last s = Some quote)
  then take (length s - 2) (drop 1 s) else s.
Definition cfg_bool (v : bytes) : option bool :=
  if bool_decide (v = "true") then Some true else if bool_decide (v = "false") then Some false else None.

(** ** Reading *)

(** [cfg_apply]: [None] for an unknown key or a value that is not one. *)
Definition cfg_apply (c : alr_config) (key v : bytes) : option alr_config :=
  let '(mk_config d hd f hf l hl r hr m hm b) := c in
  let v := cfg_unquote v in
  if bool_decide (key = "default_distro") then Some (mk_config (cut 128 v) true f hf l hl r hr m hm b)
  else if bool_decide (key = "runtime.fakeroot") then (λ f, mk_config d hd f true l hl r hr m hm b) <$> cfg_bool v
  else if bool_decide (key = "runtime.log") then
    let '(n, used) := strtol v in
    if (used =? 0)%nat || negb (used =? length v)%nat then None else Some (mk_config d hd f hf (s32 n) true r hr m hm b)
  else if bool_decide (key = "paths.root") then Some (mk_config d hd f hf l hl (cfg_expand v ALR_PBUF) true m hm b)
  else if bool_decide (key = "network.mirror") then Some (mk_config d hd f hf l hl r hr (cut 512 v) (negb (bool_decide (v = []))) b)
  else None.
Definition one_bad (c : alr_config) : alr_config :=
  let '(mk_config d hd f hf l hl r hr m hm b) := c in mk_config d hd f hf l hl r hr m hm (b + 1).

Definition LINE : nat := 1024.
(** One piece of the file; the state is the table in force and the settings. *)
Definition cfg_line (st : bytes * alr_config) (piece : bytes) : bytes * alr_config :=
  let '(table, c) := st in
  match cfg_trim (cfg_decomment false (c_str piece)) with
  | [] => st
  | b :: r =>
      if bool_decide (b = "["%byte) then
        match find_from "]"%byte r with
        | None => st
        | Some k => (cut 64 (cfg_trim (take k r)), c)
        end
      else
        match find_from "="%byte (b :: r) with
        | None => st
        | Some k =>
            let name := cfg_trim (take k (b :: r)) in
            let key := cut 160 (if bool_decide (table = []) then name else table ++ str "." ++ name) in
            (table, default (one_bad c) (cfg_apply c key (cfg_trim (drop (S k) (b :: r)))))
        end
  end.
(** [cfg_read]; the file is its content. *)
Definition cfg_read (c : alr_config) (file : option bytes) : alr_config :=
  match file with
  | None => c
  | Some f => snd (foldl cfg_line ([], c) (default [] (pieces LINE f)))
  end.
(** [cfg]: the global file, then the user's. *)
Definition cfg (global user : option bytes) : alr_config := cfg_read (cfg_read no_config global) user.

(** ** Effective values *)

Definition ALR_DEFAULT_DISTRO : bytes := "ubuntu-26.04".
Definition ALR_UBUNTU_CDIMAGE : bytes := "https://cdimage.ubuntu.com/ubuntu-base/releases".
Definition CFG_KEYS : list bytes := strs ["default_distro"; "runtime.fakeroot"; "runtime.log"; "paths.root"; "network.mirror"].
Definition cfg_known (key : bytes) : bool := bool_decide (key ∈ CFG_KEYS).
Inductive provenance := FromDefault | FromConfig | FromEnv (name : bytes).
Definition bool_word (b : bool) : bytes := if b then "true" else "false".
Definition cfg_effective (c : alr_config) (key : bytes) : bytes * provenance :=
  let '(env, conf, dflt) :=
    if bool_decide (key = "default_distro") then
      ((λ v, (v, str "ALR_DISTRO")) <$> env_set "ALR_DISTRO",
       if has_distro c then Some (distro c) else None, ALR_DEFAULT_DISTRO)
    else if bool_decide (key = "runtime.fakeroot") then
      ((λ v, (bool_word (bool_decide (head v = Some "1"%byte)), str "ALR_FAKEROOT")) <$> env_set "ALR_FAKEROOT",
       if has_fakeroot c then Some (bool_word (fakeroot c)) else None, str "false")
    else if bool_decide (key = "runtime.log") then
      ((λ v, (v, str "ALR_LOG")) <$> env_set "ALR_LOG",
       if has_log c then Some (to_string (log c)) else None, str "0")
    else if bool_decide (key = "paths.root") then
      ((λ v, (v, str "ALR_ROOT_DIR")) <$> env_set "ALR_ROOT_DIR",
       if has_root c then Some (root c) else None, prefix ++ str "/var/lib/alr/distros")
    else if bool_decide (key = "network.mirror") then
      (None, if has_mirror c then Some (mirror c) else None, ALR_UBUNTU_CDIMAGE)
    else (None, None, []) in
  match env, conf with
  | Some (v, n), _ => (cut ALR_PBUF v, FromEnv n)
  | None, Some v => (cut ALR_PBUF v, FromConfig)
  | None, None => (cut ALR_PBUF dflt, FromDefault)
  end.

(** [distro_root]: the tree of a distribution and the directory that holds the trees;
    [inl] is a refusal. *)
Definition distro_root (c : alr_config) (name : option bytes) : bytes + bytes * bytes :=
  let dir := match env_set "ALR_ROOT_DIR" with
             | Some d => d
             | None => if has_root c && negb (bool_decide (root c = [])) then root c else prefix ++ str "/var/lib/alr/distros"
             end in
  let name := match name with None | Some [] => ALR_DEFAULT_DISTRO | Some n => n end in
  if negb (distro_name_ok name) then inl (str "bad-distro-name")
  else inr (cut ALR_PBUF (dir ++ slash :: name), cut ALR_PBUF dir).

(** ** Writing *)

Definition setting (key : string) (v : bytes) : bytes := str key ++ str " = " ++ v.
Definition quoted (v : bytes) : bytes := quote :: v ++ [quote].
(** The lines [cfg_write_user] prints. *)
Definition cfg_lines (c : alr_config) : list bytes :=
  [str "# written by `alr config set` -- comments are not preserved"] ++
  (if has_distro c then [setting "default_distro" (quoted (distro c))] else []) ++
  (if has_fakeroot c || has_log c then
     [str ""; str "[runtime]"] ++
     (if has_fakeroot c then [setting "fakeroot" (bool_word (fakeroot c))] else []) ++
     (if has_log c then [setting "log" (to_string (log c))] else [])
   else []) ++
  (if has_root c then [str ""; str "[paths]"; setting "root" (quoted (root c))] else []) ++
  (if has_mirror c then [str ""; str "[network]"; setting "mirror" (quoted (mirror c))] else []).
Definition cfg_write_user (c : alr_config) : bytes := unlines (cfg_lines c).

(** [alr config set]: the new user file, or the reason of a refusal. *)
Definition config_set (user : option bytes) (key v : bytes) : bytes + bytes :=
  if negb (cfg_known key) then inl (str "config-unknown-key")
  else match cfg_apply (cfg_read no_config user) key (cut ALR_PBUF v) with
       | None => inl (str "config-bad-value")
       | Some c => inr (cfg_write_user c)
       end.
(** [alr config get] *)
Definition config_get (global user : option bytes) (key : bytes) : bytes + bytes :=
  if negb (cfg_known key) then inl (str "config-unknown-key")
  else inr (fst (cfg_effective (cfg global user) key)).
End env.

(** * Reading back what was written *)

Lemma decomment_plain q s r : quote ∉ s → (q = true ∨ hash ∉ s) → cfg_decomment q (s ++ r) = s ++ cfg_decomment q r.
Proof.
  intros Hq Hh. induction s as [|b s IH]; [done|]. apply not_elem_of_cons in Hq as [Hb Hq]. cbn.
  rewrite bool_decide_false by done. assert (Hs : q = true ∨ hash ∉ s) by (destruct Hh; [by left|right; set_solver]).
  rewrite IH by done. destruct q; [by rewrite andb_false_r|]. rewrite andb_true_r.
  rewrite bool_decide_false; [done|]. destruct Hh; [done|set_solver].
Qed.
Lemma decomment_quoted v : quote ∉ v → cfg_decomment false (quoted v ++ [newline]) = quoted v ++ [newline].
Proof.
  intros Hv. unfold quoted. cbn [app cfg_decomment]. rewrite bool_decide_true by done. cbn [negb].
  rewrite <- (assoc_L (++)), decomment_plain by (done || by left). cbn [app cfg_decomment]. by rewrite bool_decide_true by done.
Qed.

(** A text whose ends the trimming keeps. *)
Definition trimmed (s : bytes) : Prop :=
  (∀ b r, s = b :: r → is_blank b = false) ∧ (∀ b r, s = r ++ [b] → is_blank b || is_crlf b = false).
Lemma cfg_trim_around s l r : trimmed s → s ≠ [] → Forall (λ b, is_blank b = true) l →
  Forall (λ b, is_blank b || is_crlf b = true) r → cfg_trim (l ++ s ++ r) = s.
Proof.
  intros [Hh Ht] Hne Hl Hr. unfold cfg_trim. rewrite drop_while_app by done.
  rewrite drop_while_stop; [by apply trim_end_app|]. intros b t E. destruct s as [|b' s]; [done|].
  injection E as -> _. by apply (Hh _ s).
Qed.

(** What the parser makes of the line of a setting. *)
Record key_name (k : bytes) : Prop := {
  kn_plain : Forall (λ b, name_char b = true) k;
  kn_ne : k ≠ [] }.
Lemma name_char_not b x : name_char b = true → name_char x = false → b ≠ x.
Proof. intros Hb Hx ->. congruence. Qed.
Lemma key_not_in k x : key_name k → name_char x = false → x ∉ k.
Proof. intros [Hp _] Hx Hin. rewrite Forall_forall in Hp. specialize (Hp x Hin). congruence. Qed.
Lemma key_trimmed k : key_name k → trimmed k.
Proof.
  assert (Hb : ∀ b, name_char b = true → is_blank b = false ∧ is_crlf b = false) by (by intros []).
  intros [Hp _]. split; intros b r ->.
  - apply Forall_cons_1 in Hp as [H _]. by apply Hb.
  - apply Forall_app in Hp as [_ H]. apply Forall_cons_1 in H as [H _]. destruct (Hb b H) as [-> ->]. done.
Qed.

Section lines.
Context (getenv : bytes → option bytes).

Lemma kv_line t c k v : key_name (str k) → nul ∉ v → trimmed v → v ≠ [] →
  cfg_decomment false (v ++ [newline]) = v ++ [newline] →
  cfg_line getenv (t, c) (setting k v ++ [newline]) =
    (t, default (one_bad c) (cfg_apply getenv c (cut 160 (if bool_decide (t = []) then str k else t ++ str "." ++ str k)) v)).
Proof.
  intros Hk Hn Ht Hne Hd. unfold cfg_line, setting. set (kk := str k) in *.
  assert (Hin : ∀ x, name_char x = false → x ∉ kk) by (intros x; by apply key_not_in).
  replace ((kk ++ str " = " ++ v) ++ [newline]) with ((kk ++ str " = ") ++ v ++ [newline]) by (by rewrite <- !(assoc_L (++))).
  assert (c_str ((kk ++ str " = ") ++ v ++ [newline]) = (kk ++ str " = ") ++ v ++ [newline]) as ->.
  { unfold c_str. rewrite find_from_absent; [done|]. rewrite !not_elem_of_app. repeat split; try done.
    - by apply Hin.
    - by apply (bool_decide_unpack _); vm_compute.
    - by apply (bool_decide_unpack _); vm_compute. }
  rewrite decomment_plain, Hd.
  2: { rewrite not_elem_of_app. split; [by apply Hin|by apply (bool_decide_unpack _); vm_compute]. }
  2: { right. rewrite not_elem_of_app. split; [by apply Hin|by apply (bool_decide_unpack _); vm_compute]. }
  assert (Htl : trimmed (kk ++ str " = " ++ v)).
  { split; intros b r E.
    - destruct kk as [|b' k'] eqn:Ek; [by destruct (kn_ne _ Hk)|]. injection E as -> _.
      exact (proj1 (key_trimmed _ Hk) _ k' eq_refl).
    - destruct v as [|b' v'] using rev_ind; [done|]. rewrite !(assoc_L (++)) in E. apply app_inj_tail in E as [_ <-].
      by apply (proj2 Ht b' v'). }
  pose proof (cfg_trim_around (kk ++ str " = " ++ v) [] [newline] Htl) as Etr.
  cbn [app] in Etr. rewrite <- !(assoc_L (++)) in Etr. rewrite <- !(assoc_L (++)). rewrite Etr; [|by destruct kk; [destruct (kn_ne _ Hk)|]|constructor|by repeat constructor].
  destruct kk as [|b' k'] eqn:Ek; [by destruct (kn_ne _ Hk)|]. cbn [app].
  rewrite bool_decide_false by (intros ->; apply (Hin "["%byte); [done|by left]).
  change (b' :: k' ++ str " = " ++ v) with ((b' :: k') ++ str " = " ++ v).
  assert (Esplit : (b' :: k') ++ str " = " ++ v = ((b' :: k') ++ [Byte.x20]) ++ "="%byte :: (Byte.x20 :: v)) by (by rewrite <- (assoc_L (++))).
  rewrite Esplit, find_from_app_sep.
  2: { rewrite not_elem_of_app. split; [by apply Hin|by apply (bool_decide_unpack _); vm_compute]. }
  rewrite take_app_length, drop_after.
  pose proof (cfg_trim_around (b' :: k') [] [Byte.x20] (key_trimmed _ Hk) ltac:(done) ltac:(constructor) ltac:(by repeat constructor)) as E1.
  pose proof (cfg_trim_around v [Byte.x20] [] Ht Hne ltac:(by repeat constructor) ltac:(constructor)) as E2.
  rewrite app_nil_r in E2. cbn [app] in E1, E2 |- *. by rewrite E1, E2.
Qed.
End lines.

(** A number is read back as it was printed. *)
Lemma strtol_printed z : - 2 ^ 31 ≤ z < 2 ^ 31 → strtol (to_string z) = (z, length (to_string z)).
Proof.
  intros Hz. assert (Hd : ∀ n, 0 ≤ n → ∃ b ds, print_nat 10 n = b :: ds ∧ num_digit b = true ∧
    take_until (λ b, negb (num_digit b)) (b :: ds) = b :: ds ∧ dec_value (b :: ds) = n).
  { intros n Hn. destruct (print_nat_digits n Hn) as (Hne & Hall & Hv). destruct (print_nat 10 n) as [|b ds]; [done|].
    exists b, ds. pose proof Hall as H. apply Forall_cons in H as [Hb _]. by rewrite take_digits. }
  unfold to_string, strtol, LONG_MAX. destruct (z <? 0) eqn:E.
  - destruct (Hd (- z) ltac:(lia)) as (b & ds & -> & Hb & Ht & Hv).
    change (str "-" ++ b :: ds) with ("-"%byte :: b :: ds). cbn [drop_while].
    change (is_space "-"%byte) with false. cbv iota. rewrite (bool_decide_true ("-"%byte = _)) by done.
    rewrite Ht, bool_decide_false, Hv by done. f_equal; cbn [length]; lia.
  - destruct (Hd z ltac:(lia)) as (b & ds & -> & Hb & Ht & Hv).
    destruct (digit_not_special b Hb) as (Hs & Hm & Hp & _). cbn [drop_while]. rewrite Hs.
    rewrite !bool_decide_false by done. cbv zeta. rewrite Ht, bool_decide_false, Hv by done. f_equal; lia.
Qed.

(** ** The whole file *)

Section whole.
Context (getenv : bytes → option bytes).

(** Settings over others: those that are set win. *)
Definition overlay (g c : alr_config) : alr_config :=
  mk_config (if has_distro c then distro c else distro g) (has_distro c || has_distro g)
    (if has_fakeroot c then fakeroot c else fakeroot g) (has_fakeroot c || has_fakeroot g)
    (if has_log c then log c else log g) (has_log c || has_log g)
    (if has_root c then root c else root g) (has_root c || has_root g)
    (if has_mirror c then mirror c else mirror g) (has_mirror c || has_mirror g) (bad g).

(** A text the file can hold: no quote, line end or NUL, and short enough for a line. *)
Definition plain_text (n : nat) (s : bytes) : Prop :=
  Forall (λ b, b ≠ quote ∧ b ≠ newline ∧ b ≠ nul) s ∧ (length s < n)%nat.
(** Settings the file can hold. *)
Record settled (c : alr_config) : Prop := {
  st_distro : has_distro c = true → plain_text 128 (distro c);
  st_log : has_log c = true → - 2 ^ 31 ≤ log c < 2 ^ 31;
  st_root : has_root c = true → plain_text 1000 (root c) ∧ is_prefix "$PREFIX" (root c) = false;
  st_mirror : has_mirror c = true → plain_text 512 (mirror c) ∧ mirror c ≠ [];
}.

Definition read_lines (st : bytes * alr_config) (ls : list bytes) : bytes * alr_config :=
  foldl (cfg_line getenv) st ((λ l, l ++ [newline]) <$> ls).
Lemma read_lines_app st l1 l2 : read_lines st (l1 ++ l2) = read_lines (read_lines st l1) l2.
Proof. unfold read_lines. by rewrite fmap_app, foldl_app. Qed.

Lemma quoted_plain n v : plain_text n v → (nul ∉ quoted v) ∧ trimmed (quoted v) ∧ (quote ∉ v) ∧ cfg_unquote (quoted v) = v.
Proof.
  intros [Hp _]. rewrite Forall_forall in Hp.
  assert (Hq : quote ∉ v) by (intros Hin; by destruct (Hp _ Hin)).
  split; [|split; [|split; [done|]]].
  - unfold quoted. rewrite elem_of_cons, elem_of_app, elem_of_cons, elem_of_nil. intros [H|[H|[H|[]]]]; [done| |done].
    by destruct (Hp _ H) as (_ & _ & ?).
  - split; intros b r E; [by injection E as <- _|]. unfold quoted in E. rewrite app_comm_cons in E.
    apply app_inj_tail in E as [_ <-]. done.
  - unfold cfg_unquote, quoted. rewrite length_cons, length_app, last_cons, last_snoc. cbn [head length].
    rewrite !bool_decide_true by (done || lia). cbn [andb]. cbn [drop].
    replace (S (length v + 1) - 2)%nat with (length v) by lia. rewrite drop_0. by rewrite take_app_length.
Qed.
Lemma quoted_line t c k n v : key_name (str k) → plain_text n v →
  cfg_line getenv (t, c) (setting k (quoted v) ++ [newline]) =
    (t, default (one_bad c) (cfg_apply getenv c (cut 160 (if bool_decide (t = []) then str k else t ++ str "." ++ str k)) (quoted v))).
Proof.
  intros Hk Hv. destruct (quoted_plain n v Hv) as (Hn & Ht & Hq & _). apply kv_line; try done. by apply decomment_quoted.
Qed.
Lemma word_line t c k v : key_name (str k) → Forall (λ b, name_char b = true) v → v ≠ [] →
  cfg_line getenv (t, c) (setting k v ++ [newline]) =
    (t, default (one_bad c) (cfg_apply getenv c (cut 160 (if bool_decide (t = []) then str k else t ++ str "." ++ str k)) v)).
Proof.
  intros Hk Hv Hne. assert (Hkv : key_name v) by (by constructor).
  apply kv_line; [done|by apply key_not_in|by apply key_trimmed|done|].
  rewrite decomment_plain; [done|by apply key_not_in|right; by apply key_not_in].
Qed.
Lemma unquote_word v : quote ∉ v → cfg_unquote v = v.
Proof.
  intros Hq. unfold cfg_unquote. destruct v as [|b v]; [done|].
  rewrite (bool_decide_false (head _ = _)); [by rewrite andb_false_r|]. intros [= ->]. apply Hq. by left.
Qed.

(** What each line does to the state. *)
Ltac plain_key := constructor; [by apply (bool_decide_unpack _); vm_compute|done].
Lemma cut_short n s : (length s < n)%nat → cut n s = s.
Proof. intros H. unfold cut. apply take_ge. lia. Qed.
Lemma line_distro d hd f hf l hl r hr m hm b v : plain_text 128 v →
  cfg_line getenv ([], mk_config d hd f hf l hl r hr m hm b) (setting "default_distro" (quoted v) ++ [newline]) =
    ([], mk_config v true f hf l hl r hr m hm b).
Proof.
  intros Hv. assert (Hk : key_name (str "default_distro")) by plain_key. rewrite (quoted_line _ _ _ _ _ Hk Hv). f_equal.
  destruct (quoted_plain _ v Hv) as (_ & _ & _ & E). unfold cfg_apply. rewrite E.
  change (cut 160 _) with (str "default_distro"). rewrite bool_decide_true by done.
  cbn [default]. by rewrite cut_short by apply Hv.
Qed.
Lemma line_root d hd f hf l hl r hr m hm b v : plain_text 1000 v → is_prefix "$PREFIX" v = false →
  cfg_line getenv (str "paths", mk_config d hd f hf l hl r hr m hm b) (setting "root" (quoted v) ++ [newline]) =
    (str "paths", mk_config d hd f hf l hl v true m hm b).
Proof.
  intros Hv Hp. assert (Hk : key_name (str "root")) by plain_key. rewrite (quoted_line _ _ _ _ _ Hk Hv). f_equal.
  destruct (quoted_plain _ v Hv) as (_ & _ & _ & E).
  change (cut 160 _) with (str "paths.root"). unfold cfg_apply. rewrite E. cbn [bool_decide].
  repeat (rewrite bool_decide_false by (by apply (bool_decide_unpack _); vm_compute)). rewrite bool_decide_true by done.
  unfold cfg_expand. rewrite Hp. cbn [default]. rewrite cut_short; [done|]. destruct Hv. unfold ALR_PBUF. lia.
Qed.
Lemma line_mirror d hd f hf l hl r hr m hm b v : plain_text 512 v → v ≠ [] →
  cfg_line getenv (str "network", mk_config d hd f hf l hl r hr m hm b) (setting "mirror" (quoted v) ++ [newline]) =
    (str "network", mk_config d hd f hf l hl r hr v true b).
Proof.
  intros Hv Hne. assert (Hk : key_name (str "mirror")) by plain_key. rewrite (quoted_line _ _ _ _ _ Hk Hv). f_equal.
  destruct (quoted_plain _ v Hv) as (_ & _ & _ & E).
  change (cut 160 _) with (str "network.mirror"). unfold cfg_apply. rewrite E.
  repeat (rewrite bool_decide_false by (by apply (bool_decide_unpack _); vm_compute)). rewrite bool_decide_true by done.
  cbn [default]. rewrite bool_decide_false by done. by rewrite cut_short by apply Hv.
Qed.
Lemma line_fakeroot d hd f hf l hl r hr m hm b v :
  cfg_line getenv (str "runtime", mk_config d hd f hf l hl r hr m hm b) (setting "fakeroot" (bool_word v) ++ [newline]) =
    (str "runtime", mk_config d hd v true l hl r hr m hm b).
Proof. by destruct v. Qed.
Lemma s32_small v : - 2 ^ 31 ≤ v < 2 ^ 31 → s32 v = v.
Proof. intros Hv. unfold s32, u32. destruct (v mod 2 ^ 32 <? 2 ^ 31) eqn:Es; Z.div_mod_to_equations; lia. Qed.
Lemma line_log d hd f hf l hl r hr m hm b v : - 2 ^ 31 ≤ v < 2 ^ 31 →
  cfg_line getenv (str "runtime", mk_config d hd f hf l hl r hr m hm b) (setting "log" (to_string v) ++ [newline]) =
    (str "runtime", mk_config d hd f hf v true r hr m hm b).
Proof.
  intros Hv. assert (Hk : key_name (str "log")) by plain_key.
  assert (Hd : ∀ n, 0 ≤ n → Forall (λ b, name_char b = true) (print_nat 10 n) ∧ print_nat 10 n ≠ []).
  { intros n Hn. destruct (print_nat_digits n Hn) as (Hne & Hall & _). split; [|done].
    eapply Forall_impl; [exact Hall|]. by intros []. }
  assert (Hw : Forall (λ b, name_char b = true) (to_string v) ∧ to_string v ≠ []).
  { unfold to_string. destruct (v <? 0) eqn:E0; [|apply Hd; lia]. split; [|done]. constructor; [done|]. apply Hd. lia. }
  rewrite (word_line _ _ _ _ Hk) by apply Hw. f_equal.
  change (cut 160 _) with (str "runtime.log"). unfold cfg_apply.
  rewrite unquote_word.
  2: { destruct Hw as [Hw _]. rewrite Forall_forall in Hw. intros Hin. by specialize (Hw _ Hin). }
  repeat (rewrite bool_decide_false by (by apply (bool_decide_unpack _); vm_compute)). rewrite bool_decide_true by done.
  rewrite strtol_printed by done. rewrite Nat.eqb_refl. destruct (to_string v) as [|x w] eqn:E; [by destruct Hw|].
  cbn [length Nat.eqb negb orb default]. by rewrite s32_small.
Qed.
Lemma line_blank st : cfg_line getenv st ([] ++ [newline]) = st.
Proof. by destruct st. Qed.
Lemma line_header st : cfg_line getenv st (str "# written by `alr config set` -- comments are not preserved" ++ [newline]) = st.
Proof. by destruct st. Qed.
Lemma line_table t c name : name ∈ strs ["runtime"; "paths"; "network"] →
  cfg_line getenv (t, c) (str "[" ++ name ++ str "]" ++ [newline]) = (name, c).
Proof. unfold strs. cbn. rewrite !elem_of_cons, elem_of_nil. by intros [->|[->|[->|[]]]]. Qed.

Lemma read_lines_cons st l ls : read_lines st (l :: ls) = read_lines (cfg_line getenv st (l ++ [newline])) ls.
Proof. done. Qed.
(** The sections of the file, one after the other. *)
Lemma read_runtime t d hd f hf l hl r hr m hm b f' hf' l' hl' : (hl' = true → - 2 ^ 31 ≤ l' < 2 ^ 31) → ∃ t',
  read_lines (t, mk_config d hd f hf l hl r hr m hm b)
    (if hf' || hl' then
       [str ""; str "[runtime]"] ++ (if hf' then [setting "fakeroot" (bool_word f')] else []) ++
       (if hl' then [setting "log" (to_string l')] else [])
     else []) =
  (t', mk_config d hd (if hf' then f' else f) (hf' || hf) (if hl' then l' else l) (hl' || hl) r hr m hm b).
Proof.
  intros Hl. assert (Hrt : ∀ c, cfg_line getenv (t, c) (str "[runtime]" ++ [newline]) = (str "runtime", c)).
  { intros c. by apply (line_table t c (str "runtime")); left. }
  destruct hf', hl'; cbn [orb app]; [| | |by eexists]; exists (str "runtime");
    rewrite read_lines_cons, line_blank, read_lines_cons, Hrt, read_lines_cons, ?line_fakeroot, ?read_lines_cons, ?line_log by auto; done.
Qed.
Lemma read_root t d hd f hf l hl r hr m hm b r' hr' : (hr' = true → plain_text 1000 r' ∧ is_prefix "$PREFIX" r' = false) → ∃ t',
  read_lines (t, mk_config d hd f hf l hl r hr m hm b) (if hr' then [str ""; str "[paths]"; setting "root" (quoted r')] else []) =
  (t', mk_config d hd f hf l hl (if hr' then r' else r) (hr' || hr) m hm b).
Proof.
  intros Hr. destruct hr'; [|by eexists]. destruct (Hr eq_refl). exists (str "paths").
  rewrite read_lines_cons, line_blank, read_lines_cons. change (str "[paths]" ++ [newline]) with (str "[" ++ str "paths" ++ str "]" ++ [newline]).
  rewrite line_table by (right; left). by rewrite read_lines_cons, line_root.
Qed.
Lemma read_mirror t d hd f hf l hl r hr m hm b m' hm' : (hm' = true → plain_text 512 m' ∧ m' ≠ []) → ∃ t',
  read_lines (t, mk_config d hd f hf l hl r hr m hm b) (if hm' then [str ""; str "[network]"; setting "mirror" (quoted m')] else []) =
  (t', mk_config d hd f hf l hl r hr (if hm' then m' else m) (hm' || hm) b).
Proof.
  intros Hm. destruct hm'; [|by eexists]. destruct (Hm eq_refl). exists (str "network").
  rewrite read_lines_cons, line_blank, read_lines_cons. change (str "[network]" ++ [newline]) with (str "[" ++ str "network" ++ str "]" ++ [newline]).
  rewrite line_table by (right; right; left). by rewrite read_lines_cons, line_mirror.
Qed.
Lemma read_cfg_lines g c : settled c → snd (read_lines ([], g) (cfg_lines c)) = overlay g c.
Proof.
  intros [Hd Hl Hr Hm]. destruct c as [d hd f hf l hl r hr m hm b], g as [gd ghd gf ghf gl ghl gr ghr gm ghm gb].
  unfold cfg_lines, overlay. cbn [distro has_distro fakeroot has_fakeroot log has_log root has_root mirror has_mirror bad] in *.
  rewrite !read_lines_app, read_lines_cons, line_header. change (read_lines (?a, ?b) []) with (a, b).
  assert (E1 : read_lines ([], mk_config gd ghd gf ghf gl ghl gr ghr gm ghm gb)
      (if hd then [setting "default_distro" (quoted d)] else []) =
      ([], mk_config (if hd then d else gd) (hd || ghd) gf ghf gl ghl gr ghr gm ghm gb)).
  { destruct hd; [|done]. by rewrite read_lines_cons, line_distro by auto. }
  rewrite E1. edestruct read_runtime as [t1 E2]; [exact Hl|]. rewrite E2.
  edestruct read_root as [t2 E3]; [exact Hr|]. rewrite E3. edestruct read_mirror as [t3 E4]; [exact Hm|]. by rewrite E4.
Qed.

Lemma digits_length fuel base n acc : (length (digits fuel base n acc) ≤ fuel + length acc)%nat.
Proof.
  revert n acc. induction fuel as [|fuel IH]; intros n acc; cbn [digits]; [done|].
  destruct (n <? base); [simpl; lia|]. etrans; [apply IH|]. simpl. lia.
Qed.
Lemma to_string_text z : (newline ∉ to_string z) ∧ (- 2 ^ 31 ≤ z < 2 ^ 31 → (length (to_string z) ≤ 33)%nat).
Proof.
  assert (Hd : ∀ n, 0 ≤ n → (newline ∉ print_nat 10 n) ∧ (n ≤ 2 ^ 31 → (length (print_nat 10 n) ≤ 32)%nat)).
  { intros n Hn. destruct (print_nat_digits n Hn) as (_ & Hall & _). rewrite Forall_forall in Hall. split; [intros Hin; by specialize (Hall _ Hin)|].
    intros Hle. unfold print_nat. etrans; [apply digits_length|]. cbn [length].
    assert (Z.log2 n ≤ 31) by (change 31 with (Z.log2 (2 ^ 31)); by apply Z.log2_le_mono). lia. }
  unfold to_string. destruct (z <? 0) eqn:E.
  - destruct (Hd (- z) ltac:(lia)) as [H1 H2]. split; [|intros Hz; rewrite length_app; change (length (str "-")) with 1%nat; specialize (H2 ltac:(lia)); lia].
    rewrite not_elem_of_app. split; [by apply (bool_decide_unpack _); vm_compute|done].
  - destruct (Hd z ltac:(lia)) as [H1 H2]. split; [done|]. intros Hz. specialize (H2 ltac:(lia)). lia.
Qed.
Lemma cfg_lines_fit c : settled c → Forall (fits_line LINE) (cfg_lines c).
Proof.
  intros [Hd Hl Hr Hm]. unfold cfg_lines.
  assert (Hq : ∀ k n v, newline ∉ str k → (length (str k) ≤ 14)%nat → plain_text n v → (n ≤ 1000)%nat → fits_line LINE (setting k (quoted v))).
  { intros k n v Hk Hlen [Hp Hn] H. rewrite Forall_forall in Hp. split.
    - unfold setting, quoted. rewrite !elem_of_app, elem_of_cons, elem_of_app. intros [H'|[H'|[H'|[H'|H']]]]; [done| |done| |].
      + by revert H'; apply (bool_decide_unpack _); vm_compute.
      + by destruct (Hp _ H') as (_ & ? & _).
      + by revert H'; apply (bool_decide_unpack _); vm_compute.
    - unfold setting, quoted. rewrite !length_app, length_cons, length_app. unfold LINE.
      assert (E : length (str " = ") = 3%nat) by done. rewrite E. cbn [length].
      lia. }
  assert (Hw : ∀ s, bool_decide (newline ∈ s) = false → (length s < 100)%nat → fits_line LINE s).
  { intros s Hs Hlen. split; [by apply bool_decide_eq_false in Hs|unfold LINE; lia]. }
  assert (Hif : ∀ (b : bool) (l : list bytes), (b = true → Forall (fits_line LINE) l) → Forall (fits_line LINE) (if b then l else [])).
  { intros [] l H; [by apply H|constructor]. }
  assert (Hw1 : ∀ s, bool_decide (newline ∈ s) = false → (length s < 100)%nat → Forall (fits_line LINE) [s]) by (intros; constructor; [by apply Hw|constructor]).
  repeat apply Forall_app_2.
  - apply Hw1; [by vm_compute|vm_compute; lia].
  - apply Hif. intros Ed. constructor; [|constructor].
    apply (Hq "default_distro" 128%nat); [by apply (bool_decide_unpack _); vm_compute|vm_compute; lia|auto|lia].
  - apply Hif. intros _. repeat apply Forall_app_2; [repeat constructor; apply Hw; first [by vm_compute|vm_compute; lia]| |];
      apply Hif; intros Eb; apply Hw1.
    + by destruct (fakeroot c).
    + destruct (fakeroot c); vm_compute; lia.
    + destruct (to_string_text (log c)) as [Hnl _]. apply bool_decide_eq_false. unfold setting. rewrite !not_elem_of_app.
      split; [by apply (bool_decide_unpack _); vm_compute|]. split; [by apply (bool_decide_unpack _); vm_compute|done].
    + destruct (to_string_text (log c)) as [_ Hlen]. specialize (Hlen (Hl Eb)). unfold setting. rewrite !length_app.
      assert (E : (length (str "log") + length (str " = ") = 6)%nat) by done. lia.
  - apply Hif. intros Er. repeat (constructor; [apply Hw; first [by vm_compute|vm_compute; lia]|]). constructor; [|constructor].
    apply (Hq "root" 1000%nat); [by apply (bool_decide_unpack _); vm_compute|vm_compute; lia|by apply Hr|lia].
  - apply Hif. intros Em. repeat (constructor; [apply Hw; first [by vm_compute|vm_compute; lia]|]). constructor; [|constructor].
    apply (Hq "mirror" 512%nat); [by apply (bool_decide_unpack _); vm_compute|vm_compute; lia|by apply Hm|lia].
Qed.
End whole.

Lemma read_written getenv g c : settled c → cfg_read getenv g (Some (cfg_write_user c)) = overlay g c.
Proof.
  intros Hc. unfold cfg_read, cfg_write_user. rewrite pieces_unlines by (by apply (cfg_lines_fit c)). cbn [default].
  by apply (read_cfg_lines getenv).
Qed.

(** The variable that outranks a setting. *)
Definition env_of (key : bytes) : option bytes :=
  if bool_decide (key = "default_distro") then Some (str "ALR_DISTRO")
  else if bool_decide (key = "runtime.fakeroot") then Some (str "ALR_FAKEROOT")
  else if bool_decide (key = "runtime.log") then Some (str "ALR_LOG")
  else if bool_decide (key = "paths.root") then Some (str "ALR_ROOT_DIR") else None.
(** Values as they are shown. *)
Inductive canonical : bytes → bytes → Prop :=
| can_distro v : plain_text 128 v → canonical (str "default_distro") v
| can_fakeroot b : canonical (str "runtime.fakeroot") (bool_word b)
| can_log z : - 2 ^ 31 ≤ z < 2 ^ 31 → canonical (str "runtime.log") (to_string z)
| can_root v : plain_text 1000 v → is_prefix "$PREFIX" v = false → canonical (str "paths.root") v
| can_mirror v : plain_text 512 v → v ≠ [] → canonical (str "network.mirror") v.

Lemma canonical_length key v : canonical key v → (length v < 1000)%nat.
Proof.
  intros [v' [_ H]|b|z Hz|v' [_ H] _|v' [_ H] _]; [lia|destruct b; vm_compute; lia| |lia|lia].
  destruct (to_string_text z) as [_ H]. specialize (H Hz). lia.
Qed.
Lemma canonical_quote key v : canonical key v → quote ∉ v.
Proof.
  assert (Hp : ∀ n s, plain_text n s → quote ∉ s) by (intros n s H; by destruct (quoted_plain n s H) as (_ & _ & ? & _)).
  intros [v' H|b|z Hz|v' H _|v' H _]; [by eapply Hp| | |by eapply Hp|by eapply Hp].
  - destruct b; by apply (bool_decide_unpack _); vm_compute.
  - assert (Hd : ∀ n, 0 ≤ n → quote ∉ print_nat 10 n).
    { intros n Hn. destruct (print_nat_digits n Hn) as (_ & Hall & _). rewrite Forall_forall in Hall. intros Hin. by specialize (Hall _ Hin). }
    unfold to_string. destruct (z <? 0) eqn:E; [|apply Hd; lia]. rewrite not_elem_of_app.
    split; [by apply (bool_decide_unpack _); vm_compute|apply Hd; lia].
Qed.

Ltac pick_key := repeat (rewrite (bool_decide_false (str _ = _)) by (by apply (bool_decide_unpack _); vm_compute));
  rewrite ?bool_decide_true by done.
(** The effective value of the key just set, and of every other key. *)
Ltac shown Hcut := let g := fresh in let Henv := fresh in intros g Henv; unfold cfg_effective; pick_key;
  try rewrite (Henv _ eq_refl); cbn -[cut bool_word to_string]; by rewrite Hcut.
Ltac kept bs := let k := fresh in let Hk := fresh in intros k Hk; unfold cfg_effective; rewrite ?(bool_decide_false _ Hk); cbn;
  lazymatch bs with (?a, ?b, ?c, ?d) => by destruct a, b, c, d end.
Lemma to_string_ne z : to_string z ≠ [].
Proof.
  unfold to_string. destruct (z <? 0) eqn:E; [done|]. by destruct (print_nat_digits z ltac:(lia)) as (? & _).
Qed.
Lemma apply_canonical getenv u key v : canonical key v → settled u → ∃ c,
  cfg_apply getenv u key v = Some c ∧ settled c ∧
  (∀ g, (∀ n, env_of key = Some n → env_set getenv n = None) → cfg_effective getenv (overlay g c) key = (v, FromConfig)) ∧
  (∀ k, k ≠ key → cfg_effective getenv (overlay no_config c) k = cfg_effective getenv u k).
Proof.
  intros Hc Hu. pose proof (canonical_length _ _ Hc) as Hlen. pose proof (canonical_quote _ _ Hc) as Hq.
  apply unquote_word in Hq. destruct u as [d hd f hf l hl r hr m hm b]. destruct Hu as [Hd Hl Hr Hm].
  cbn [distro has_distro fakeroot has_fakeroot log has_log root has_root mirror has_mirror] in *.
  assert (Hcut : cut ALR_PBUF v = v) by (apply cut_short; unfold ALR_PBUF; lia).
  destruct Hc as [v Hv|fb|z Hz|v Hv Hpre|v Hv Hne]; unfold cfg_apply; rewrite Hq; pick_key.
  - eexists. split; [reflexivity|]. rewrite (cut_short 128) by apply Hv. split; [by constructor|].
    split; [shown Hcut|kept (hf, hl, hr, hm)].
  - eexists. split; [by destruct fb|]. split; [by constructor|]. split; [shown Hcut|kept (hd, hl, hr, hm)].
  - eexists. rewrite strtol_printed by done. rewrite Nat.eqb_refl. split.
    { destruct (to_string z) as [|x w] eqn:E; [by apply to_string_ne in E|]. reflexivity. }
    rewrite s32_small by done. split; [by constructor|]. split; [shown Hcut|kept (hd, hf, hr, hm)].
  - eexists. split; [reflexivity|]. unfold cfg_expand. rewrite Hpre, Hcut. split; [by constructor|].
    split; [shown Hcut|kept (hd, hf, hl, hm)].
  - eexists. split; [reflexivity|]. rewrite (cut_short 512) by apply Hv. rewrite (bool_decide_false (v = [])) by done. cbn [negb].
    split; [by constructor|]. split; [shown Hcut|kept (hd, hf, hl, hr)].
Qed.

(** [alr config set] and [get] agree: when the user's file holds settings (or does not
    exist), setting a known key to a proper value writes a file that holds settings again,
    from which, under any global file and unless the variable of the key is set, the
    effective value of the key is exactly the value given and comes from the
    configuration, while every other key keeps the value the user's file gave it. *)
Theorem config_set_exact (getenv : bytes → option bytes) (user : option bytes) (key v : bytes) :
  settled (cfg_read getenv no_config user) → canonical key v →
  ∃ new, config_set getenv user key v = inr new ∧ settled (cfg_read getenv no_config (Some new)) ∧
    (∀ global, (∀ n, env_of key = Some n → env_set getenv n = None) →
       cfg_effective getenv (cfg getenv global (Some new)) key = (v, FromConfig) ∧
       config_get getenv global (Some new) key = inr v) ∧
    (∀ k, k ≠ key → cfg_effective getenv (cfg getenv None (Some new)) k = cfg_effective getenv (cfg getenv None user) k).
Proof.
  intros Hu Hc. pose proof (canonical_length _ _ Hc) as Hlen.
  destruct (apply_canonical getenv _ key v Hc Hu) as (c & Ec & Hs & Hshow & Hkeep).
  assert (Hknown : cfg_known key = true) by (destruct Hc; by vm_compute).
  exists (cfg_write_user c). unfold config_set. rewrite Hknown, cut_short by (unfold ALR_PBUF; lia). rewrite Ec.
  split; [done|]. rewrite read_written by done. split.
  { destruct Hs as [Hd Hl Hr Hm]. destruct c. unfold overlay. constructor; cbn in *; rewrite ?orb_false_r;
      intros E; rewrite E; auto. }
  split.
  - intros global Henv. unfold config_get. rewrite Hknown. unfold cfg. rewrite read_written by done. by rewrite Hshow.
  - intros k Hk. unfold cfg. rewrite read_written by done. by apply Hkeep.
Qed.
Definition sample_user : bytes := unlines (strs ["# mine"; "default_distro = debian-12 # comment"; "[ runtime ]"; "log=  -3"]).
Lemma config_set_exact_witness : ∃ new,
  config_set (λ _, None) (Some sample_user) (str "network.mirror") (str "https://example.org/#a") = inr new ∧
  config_get (λ _, None) None (Some new) (str "network.mirror") = inr (str "https://example.org/#a") ∧
  config_get (λ _, None) None (Some new) (str "runtime.log") = inr (str "-3") ∧
  config_get (λ _, None) None (Some new) (str "default_distro") = inr (str "debian-12").
Proof.
  destruct (config_set_exact (λ _, None) (Some sample_user) (str "network.mirror") (str "https://example.org/#a")) as (new & E & _ & Hg & Hk).
  - constructor; intros E; vm_compute in E |- *; try done; repeat constructor; try lia; done.
  - apply can_mirror; [|done]. split; [by apply (bool_decide_unpack _); vm_compute|vm_compute; lia].
  - exists new. split; [exact E|]. split; [by apply Hg|]. unfold config_get.
    split; [change (cfg_known (str "runtime.log")) with true|change (cfg_known (str "default_distro")) with true]; cbv iota;
      by rewrite Hk by (by apply (bool_decide_unpack _); vm_compute).
Defined.

(** An empty mirror in the user's file hides the global one; setting another key drops the
    line, and the global mirror is back. *)
Definition set_then_get (global user : option bytes) (key v : bytes) (asked : bytes) : bytes + bytes :=
  match config_set (λ _, None) user key v with
  | inl e => inl e
  | inr new => config_get (λ _, None) global (Some new) asked
  end.
Example empty_mirror_lost :
  let global := Some (unlines (strs ["network.mirror = x"])) in
  let user := Some (unlines [str "network.mirror ="]) in
  config_get (λ _, None) global user (str "network.mirror") = inr ALR_UBUNTU_CDIMAGE ∧
  set_then_get global user (str "runtime.log") (str "1") (str "network.mirror") = inr (str "x").
Proof. by vm_compute. Qed.
(** A quote in a value is accepted and comes back as something else; a line end in a value
    writes a line of its own. *)
Example quote_not_escaped :
  set_then_get None None (str "network.mirror") (str "a" ++ [quote] ++ str "b#c") (str "network.mirror") =
    inr ([quote] ++ str "a" ++ [quote] ++ str "b").
Proof. by vm_compute. Qed.
Example newline_injects :
  let v := str "a" ++ [quote; newline] ++ str "[runtime]" ++ [newline] ++ str "fakeroot = true" ++ [newline] ++ str "#" in
  set_then_get None None (str "default_distro") v (str "runtime.fakeroot") = inr (str "true").
Proof. by vm_compute. Qed.

(** ** Names of distributions *)

(** A name that is accepted is one component of a path and safe between single quotes. *)
Lemma distro_name_safe d : distro_name_ok d = true →
  (slash ∉ d) ∧ ("'"%byte ∉ d) ∧ (nul ∉ d) ∧ d ≠ [] ∧ d ≠ str "." ∧ d ≠ str ".." ∧ (length d ≤ 64)%nat.
Proof.
  unfold distro_name_ok. destruct d as [|b d]; [done|]. rewrite !andb_true_iff, negb_true_iff, bool_decide_eq_true, bool_decide_eq_false.
  intros [[Hdot Hall] Hlen]. rewrite forallb_forall in Hall.
  assert (Hno : ∀ x, name_char x = false → x ∉ b :: d).
  { intros x Hx Hin. specialize (Hall x). rewrite <- list_elem_of_In in Hall. rewrite (Hall Hin) in Hx. done. }
  repeat split; try (by apply Hno); try done; by intros [= -> ->].
Qed.
