(* ===== verification/CliTree.v ===== *)
(** * The command line tool: the tree of a distribution ([runtime/alr/src/cli/alr.c])

    What [alr install] and [alr update-components] do to an extracted tree: the user
    databases learn the uid of the app, links that [tar] restored are turned into links
    that stay inside the tree, members that [tar] could not link are linked or copied, and
    the release to fetch is chosen from the list of the mirror. *)

From S2P Require Import Prelude CppMap Bytes PathSpec PathRule ExecPlan AlrElf PreloadPath PreloadExec PreloadNss CliConfig.

Local Open Scope Z_scope.

(** ** The user databases *)

(** [rewrite_userdb]: whether the next piece begins a line, whether the line is dropped,
    whether the output ends with a line end, and the output. *)
Record userdb := mk_userdb { at_bol : bool; drop_line : bool; ended_nl : bool; db_out : bytes }.
Definition userdb_piece (st : userdb) (piece : bytes) : userdb :=
  let buf := c_str piece in
  let d := if at_bol st then is_prefix "alr:" buf else drop_line st in
  let bol := has_byte newline buf in
  if d then mk_userdb bol d (ended_nl st) (db_out st) else mk_userdb bol d bol (db_out st ++ buf).
Definition rewrite_userdb (file : option bytes) (line : bytes) : bytes :=
  let ps := match file with Some f => default [] (pieces LINE f) | None => [] end in
  let st := foldl userdb_piece (mk_userdb true false true []) ps in
  db_out st ++ (if ended_nl st then [] else [newline]) ++ line.

(** [sync_userdb]: the two lines. *)
Definition alr_passwd (uid gid : Z) : bytes :=
  str "alr:x:" ++ print_nat 10 uid ++ str ":" ++ print_nat 10 gid ++ str ":alr:/root:/bin/bash" ++ [newline].
Definition alr_group (gid : Z) : bytes := str "alr:x:" ++ print_nat 10 gid ++ str ":" ++ [newline].
Definition sync_userdb (passwd group : option bytes) (uid gid : Z) : bytes * bytes :=
  (rewrite_userdb passwd (alr_passwd uid gid), rewrite_userdb group (alr_group gid)).

(** ** Links *)

(** [guest_symlink]: the content of the link; both paths are guest paths. *)
Definition guest_symlink (link target : bytes) : bytes :=
  let depth := length (filter (λ b, b = slash) (drop 1 link)) in
  (* [o + 3 < sizeof rel] ends the loop *)
  let ups := updirs (depth `min` ((ALR_PBUF - 1) / 3))%nat in
  ups ++ take (ALR_PBUF - 1 - length ups) (drop 1 target).

(** [link_escapes] *)
Fixpoint link_escapes_loop (fuel : nat) (lvl : Z) (p : bytes) : bool :=
  match fuel, p with
  | S fuel, _ :: _ =>
      let s := take_until is_slash p in
      let p := drop_while is_slash (drop (length s) p) in
      if bool_decide (s = []) || bool_decide (s = dot) then link_escapes_loop fuel lvl p
      else if bool_decide (s = dotdot) then
        if lvl - 1 <? 0 then true else link_escapes_loop fuel (lvl - 1) p
      else link_escapes_loop fuel (if bool_decide (p = []) then lvl else lvl + 1) p
  | _, _ => false
  end.
Definition link_escapes (tgt : bytes) (depth : nat) : bool :=
  if starts_slash tgt then false else link_escapes_loop (length tgt) (Z.of_nat depth) tgt.

(** What [relativize_tree] does with one link in a directory [depth] below the root. *)
Inductive link_fate := Keep | Escaped | Rewritten (t : bytes) | Failed (gone : bool).
Definition ends_dotdot (t : bytes) : bool :=
  bool_decide (3 < length t)%nat && bool_decide (drop (length t - 3) t = str "/..").
Definition fix_link (depth : nat) (tgt : bytes) : link_fate :=
  if bool_decide (tgt = []) then Keep
  else if negb (starts_slash tgt) then (if link_escapes tgt depth then Escaped else Keep)
  else if has_sub "/../" tgt || bool_decide (tgt = str "/..") || ends_dotdot tgt then Escaped
  else if alr_is_sysdir tgt then Keep
  else if decide (ALR_PBUF < depth * 3 + length (drop 1 tgt) + 1)%nat then Failed false
  else let rel := updirs depth ++ drop 1 tgt in
       (* no link may be empty; the old one is gone by then *)
       if bool_decide (rel = []) then Failed true else Rewritten rel.

(** A tree, and the counters. *)
#[warnings="-register-all"]
Inductive node := File | Link (t : bytes) | Dir (es : list (bytes * node)).
Record tally := mk_tally { n_fixed : nat; n_failed : nat; n_escaped : nat }.
Definition no_tally : tally := mk_tally 0 0 0.
Definition add_tally (a b : tally) : tally :=
  mk_tally (n_fixed a + n_fixed b) (n_failed a + n_failed b) (n_escaped a + n_escaped b).
(** The entries of a directory whose path has [plen] bytes; a path that does not fit its
    buffer is passed over.  [rec] is the treatment of one entry, [None]: it is removed. *)
Definition relativize_entries (rec : nat → nat → node → option node * tally) (plen depth : nat) :
    list (bytes * node) → list (bytes * node) * tally :=
  fix go es :=
    match es with
    | [] => ([], no_tally)
    | (name, n) :: es =>
        let len := (plen + 1 + length name)%nat in
        let '(n', c1) := if decide (ALR_PBUF ≤ len)%nat then (Some n, no_tally) else rec len depth n in
        let '(es, c2) := go es in
        (match n' with Some n => (name, n) :: es | None => es end, add_tally c1 c2)
    end.
Fixpoint relativize_node (plen depth : nat) (n : node) : option node * tally :=
  match n with
  | File => (Some File, no_tally)
  | Link t =>
      match fix_link depth t with
      | Keep => (Some (Link t), no_tally)
      | Escaped => (None, mk_tally 0 0 1)
      | Rewritten t => (Some (Link t), mk_tally 1 0 0)
      | Failed gone => (if gone then None else Some (Link t), mk_tally 0 1 0)
      end
  | Dir es => let '(es, c) := relativize_entries relativize_node plen (S depth) es in (Some (Dir es), c)
  end.
(** [relativize_tree] *)
Definition relativize_tree (plen depth : nat) (es : list (bytes * node)) : list (bytes * node) * tally :=
  relativize_entries relativize_node plen depth es.

(** ** Members [tar] could not link *)

Definition link_to : bytes := " link to ".
(** [strstr(s, needle)]: what stands before and after the first occurrence. *)
Fixpoint cut_at (needle s : bytes) : option (bytes * bytes) :=
  if is_prefix needle s then Some ([], drop (length needle) s)
  else match s with
       | [] => None
       | b :: s => (λ '(l, r), (b :: l, r)) <$> cut_at needle s
       end.
(** One line of the listing: no hard link, refused, or the member and its target. *)
Inductive hardlink := NotOne | Refused | Member (name target : bytes).
Definition hardlink_line (line : bytes) : hardlink :=
  match cut_at link_to line, line with
  | Some (l, r), m :: _ =>
      if negb (bool_decide (m = "h"%byte)) && negb (bool_decide (m = "-"%byte)) then NotOne
      else
        let name := reverse (take_until (λ b, bool_decide (b = " "%byte)) (reverse l)) in
        let target := trim_end is_crlf r in
        if starts_slash name || starts_slash target || has_sub "../" name || has_sub "../" target then Refused
        else Member name target
  | _, _ => NotOne
  end.
(** [fix_hardlinks]: what exists at first, what [link] and the copy do are given by host path;
    the counters are the members listed, the special ones, linked, copied and failed, and
    [h_new] the files made so far. *)
Record hl_tally := mk_hl { h_members : nat; h_special : nat; h_made : nat; h_copied : nat; h_failed : nat; h_new : list bytes }.
Section hardlinks.
Context (root : bytes) (exists_at : bytes → bool) (can_link can_copy : bytes → bytes → bool).
Definition hardlink_step (t : hl_tally) (line : bytes) : hl_tally :=
  let '(mk_hl m s k c f made) := t in
  let m := S m in
  let s := match line with b :: _ => if bool_decide (b ∈ str "cbp") then S s else s | [] => s end in
  let present p := exists_at p || bool_decide (p ∈ made) in
  match hardlink_line line with
  | NotOne => mk_hl m s k c f made
  | Refused => mk_hl m s k c (S f) made
  | Member name target =>
      let dst := cut ALR_PBUF (root ++ slash :: name) in
      let src := cut ALR_PBUF (root ++ slash :: target) in
      if present dst then mk_hl m s k c f made
      else if negb (present src) then mk_hl m s k c (S f) made
      else if can_link src dst then mk_hl m s (S k) c f (dst :: made)
      else if can_copy src dst then mk_hl m s k (S c) f (dst :: made)
      else mk_hl m s k c (S f) made
  end.
Definition fix_hardlinks (listing : bytes) : hl_tally :=
  foldl hardlink_step (mk_hl 0 0 0 0 0 []) (c_str <$> default [] (pieces (2 * ALR_PBUF) listing)).
End hardlinks.

(** ** The release to fetch *)

Definition ALR_SUFFIX : bytes := "-base-arm64.tar.gz".
(** [sscanf(line, "%79s %255s", h, name)] *)
Definition scan_word (n : nat) (s : bytes) : bytes * bytes :=
  let s := drop_while is_space s in
  let w := take n (take_until is_space s) in (w, drop (length w) s).
(** The point release of a line that names an image of the release, its name and hash. *)
Definition sums_line (rel line : bytes) : option (Z * bytes * bytes) :=
  let '(h, rest) := scan_word 79 line in
  let '(name, _) := scan_word 255 rest in
  if bool_decide (h = []) || bool_decide (name = []) then None
  else if negb (bool_decide (length h = 64%nat)) then None
  else
    let n := match name with b :: r => if bool_decide (b = "*"%byte) then r else name | [] => name end in
    let pfx := str "ubuntu-base-" ++ rel in
    if negb (is_prefix pfx n) then None
    else
      match drop (length pfx) n with
      | b :: r =>
          if bool_decide (b = "."%byte) then
            let '(pt, used) := strtol r in
            if (used =? 0)%nat || negb (bool_decide (drop used r = ALR_SUFFIX)) then None else Some (pt, n, h)
          else if bool_decide (b :: r = ALR_SUFFIX) then Some (0, n, h) else None
      | [] => None
      end.
Definition best_of (best : Z * bytes * bytes) (e : Z * bytes * bytes) : Z * bytes * bytes :=
  if fst (fst best) <? fst (fst e) then e else best.
(** [discover_ubuntu]: the address of the image and its hash. *)
Definition discover_ubuntu (c : alr_config) (rel sums : bytes) : option (bytes * bytes) :=
  if decide (64 ≤ length (str "ubuntu-base-" ++ rel))%nat then None
  else
    let es := omap (sums_line rel) (c_str <$> default [] (pieces 512 sums)) in
    match foldl best_of (-1, [], []) es with
    | (pt, n, h) =>
        if pt <? 0 then None
        else Some ((if has_mirror c then mirror c else ALR_UBUNTU_CDIMAGE) ++ slash :: rel ++ str "/release/" ++ n, h)
    end.

(** * The user databases *)

Lemma cut_piece_long n l r : newline ∉ l → (n ≤ length l)%nat → cut_piece n (l ++ r) = (take n l, drop n l ++ r).
Proof.
  revert l. induction n as [|n IH]; intros l Hl Hn; [rewrite drop_0; by destruct (l ++ r)|]. destruct l as [|b l]; [simpl in Hn; lia|].
  apply not_elem_of_cons in Hl as [Hb Hl]. cbn [app cut_piece take drop]. rewrite bool_decide_false by done.
  by rewrite IH by (done || (simpl in Hn; lia)).
Qed.

Definition db_fold (st : userdb) (s : bytes) : userdb := foldl userdb_piece st (default [] (pieces LINE s)).
Lemma db_fold_cons st s p r : s ≠ [] → cut_piece (LINE - 1) s = (p, r) → db_fold st s = db_fold (userdb_piece st p) r.
Proof.
  intros Hs E. unfold db_fold. rewrite pieces_cons, E by (done || (unfold LINE; lia)).
  destruct (pieces_total LINE r ltac:(unfold LINE; lia)) as [ps ->]. done.
Qed.
Lemma c_str_clean s : nul ∉ s → c_str s = s.
Proof. intros H. unfold c_str. by rewrite find_from_absent. Qed.

(** A line, however long, is kept or dropped as a whole. *)
Definition db_line (st : userdb) (d : bool) (l : bytes) : userdb :=
  if d then mk_userdb true d (ended_nl st) (db_out st) else mk_userdb true d true (db_out st ++ l ++ [newline]).
Lemma db_fold_line_aux st l r : newline ∉ l → nul ∉ l →
  db_fold st (l ++ newline :: r) =
    db_fold (db_line st (if at_bol st then is_prefix "alr:" (take (LINE - 1) (l ++ [newline])) else drop_line st) l) r.
Proof.
  remember (length l) as n eqn:En. revert st l En. induction n as [n IH] using lt_wf_ind. intros st l -> Hl Hn.
  destruct (decide (length l < LINE - 1)%nat) as [Hs|Hs].
  - rewrite (db_fold_cons st _ (l ++ [newline]) r); [|by destruct l|by apply cut_piece_line].
    rewrite take_ge by (rewrite length_app; cbn [length]; lia). f_equal. unfold userdb_piece.
    assert (E : c_str (l ++ [newline]) = l ++ [newline]) by (apply c_str_clean; rewrite not_elem_of_app; split; [done|by apply (bool_decide_unpack _)]).
    rewrite E. assert (has_byte newline (l ++ [newline]) = true) as -> by (apply has_byte_true; set_solver).
    unfold db_line. by destruct (if at_bol st then _ else _).
  - rewrite (db_fold_cons st _ (take (LINE - 1) l) (drop (LINE - 1) l ++ newline :: r));
      [|by destruct l|by apply cut_piece_long; [|lia]].
    assert (Hsub : ∀ b, b ∉ l → (b ∉ take (LINE - 1) l) ∧ (b ∉ drop (LINE - 1) l)).
    { intros b Hb. rewrite <- (take_drop (LINE - 1) l) in Hb. rewrite not_elem_of_app in Hb. done. }
    rewrite (IH (length (drop (LINE - 1) l))); [|rewrite length_drop; unfold LINE in *; lia|done|by apply Hsub|by apply Hsub].
    unfold userdb_piece. rewrite c_str_clean by (by apply Hsub).
    assert (has_byte newline (take (LINE - 1) l) = false) as -> by (apply has_byte_false; by apply Hsub).
    rewrite (take_app_le l) by lia. f_equal. unfold db_line.
    destruct (if at_bol st then is_prefix "alr:" (take (LINE - 1) l) else drop_line st); cbn [at_bol drop_line ended_nl db_out]; [done|].
    by rewrite <- !(assoc_L (++)), (assoc_L (++) (take _ l)), take_drop.
Qed.
Lemma db_fold_line st l r : at_bol st = true → newline ∉ l → nul ∉ l →
  db_fold st (l ++ newline :: r) = db_fold (db_line st (is_prefix "alr:" l) l) r.
Proof.
  intros Hb Hl Hn. rewrite db_fold_line_aux, Hb by done. do 2 f_equal. unfold LINE.
  destruct l as [|a [|b [|c [|d l]]]]; try done; cbn; repeat case_bool_decide; try done; subst; exfalso; by apply Hl; set_solver.
Qed.

Definition is_alr (l : bytes) : bool := is_prefix "alr:" l.
Lemma db_fold_lines st ls : at_bol st = true → ended_nl st = true →
  Forall (λ l, (newline ∉ l) ∧ (nul ∉ l)) ls →
  let st' := db_fold st (unlines ls) in
  ended_nl st' = true ∧ db_out st' = db_out st ++ unlines (filter (λ l, is_alr l = false) ls).
Proof.
  intros Hb He Hls. revert st Hb He. induction Hls as [|l ls [Hl Hn] _ IH]; intros st Hb He; cbv zeta.
  { cbn. by rewrite app_nil_r. }
  assert (E : unlines (l :: ls) = l ++ newline :: unlines ls) by (unfold unlines; cbn; by rewrite <- (assoc_L (++))).
  rewrite E, db_fold_line by done. specialize (IH (db_line st (is_prefix "alr:" l) l)). cbv zeta in IH.
  rewrite filter_cons. unfold is_alr. destruct (is_prefix "alr:" l) eqn:Ed; unfold db_line in *.
  - rewrite decide_False by done. by apply IH.
  - rewrite decide_True by done. destruct IH as [-> ->]; [done|done|]. split; [done|]. unfold unlines. cbn. by rewrite <- !(assoc_L (++)).
Qed.

Definition alr_name : bytes := "alr".
Definition alr_pw (uid gid : Z) : passwd := mk_passwd alr_name (str "x") uid gid alr_name (str "/root") (str "/bin/bash").
Definition alr_gr (gid : Z) : group := mk_group alr_name (str "x") gid [].
Lemma alr_passwd_line uid gid : alr_passwd uid gid = unlines [pw_line (alr_pw uid gid)].
Proof.
  unfold alr_passwd, unlines, pw_line. cbn [fmap list_fmap concat alr_pw pw_name pw_passwd pw_uid pw_gid pw_gecos pw_dir pw_shell].
  rewrite app_nil_r. generalize (print_nat 10 uid) (print_nat 10 gid). intros u g. rewrite <- ?(assoc_L (++)). cbn.
  do 6 f_equal. rewrite <- (assoc_L (++)). cbn. do 2 f_equal. rewrite <- (assoc_L (++)). done.
Qed.
Lemma alr_group_line gid : alr_group gid = unlines [gr_line (alr_gr gid)].
Proof.
  unfold alr_group, unlines, gr_line. cbn [fmap list_fmap concat alr_gr gr_name gr_passwd gr_gid gr_mem].
  rewrite app_nil_r. generalize (print_nat 10 gid). intros g. cbn. do 6 f_equal. rewrite <- (assoc_L (++)). done.
Qed.
Lemma is_alr_line n r : colon_byte ∉ n → is_alr (n ++ colon_byte :: r) = bool_decide (n = alr_name).
Proof.
  intros Hn. unfold is_alr.
  destruct n as [|a [|b [|c [|d n]]]]; try done; cbn [app is_prefix str alr_name];
    unfold alr_name; cbn; repeat case_bool_decide; simplify_eq; try done; exfalso; by apply Hn; set_solver.
Qed.
Lemma pw_ok_alr uid gid : 0 ≤ uid < 2 ^ 32 → 0 ≤ gid < 2 ^ 32 → pw_ok (alr_pw uid gid).
Proof. intros Hu Hg. constructor; try done; repeat split; try done; try (repeat constructor; done); by apply (bool_decide_unpack _). Qed.
Lemma gr_ok_alr gid : 0 ≤ gid < 2 ^ 32 → gr_ok (alr_gr gid).
Proof.
  intros Hg. constructor; try done; repeat split; try done; try (repeat constructor; done); try (by apply (bool_decide_unpack _)).
Qed.

Lemma rewrite_lines {A} (line : A → bytes) (name : A → bytes) (ok : A → Prop) es (new : A) :
  (∀ e, ok e → text (line e) ∧ ∃ r, line e = name e ++ colon_byte :: r ∧ colon_byte ∉ name e) → Forall ok es →
  rewrite_userdb (Some (unlines (line <$> es))) (unlines [line new]) =
    unlines (line <$> (filter (λ e, name e ≠ alr_name) es ++ [new])).
Proof.
  intros Hline Hok. unfold rewrite_userdb.
  destruct (db_fold_lines (mk_userdb true false true []) (line <$> es) eq_refl eq_refl) as [E1 E2].
  { apply Forall_fmap. eapply Forall_impl; [exact Hok|]. intros e He. destruct (Hline e He) as [Ht _]. cbn.
    destruct (text_clean _ Ht) as [[? _] ?]. done. }
  unfold db_fold in E1, E2. rewrite E1, E2. cbn [db_out app]. rewrite fmap_app. unfold unlines. rewrite fmap_app, concat_app. f_equal.
  f_equal. f_equal. clear E1 E2. induction Hok as [|e es He _ IH]; [done|]. cbn [fmap list_fmap]. rewrite !filter_cons.
  assert (Ea : is_alr (line e) = bool_decide (name e = alr_name)).
  { destruct (Hline e He) as (_ & r & -> & Hc). by apply is_alr_line. }
  destruct (decide (name e = alr_name)) as [Hn|Hn].
  - rewrite decide_False by (by rewrite Ea, bool_decide_true). rewrite decide_False by tauto. apply IH.
  - rewrite decide_True by (by rewrite Ea, bool_decide_false). rewrite decide_True by done. cbn [fmap list_fmap]. by rewrite IH.
Qed.

Lemma pw_line_shape p : pw_ok p → text (pw_line p) ∧ ∃ r, pw_line p = pw_name p ++ colon_byte :: r ∧ (colon_byte ∉ pw_name p).
Proof. intros H. split; [by apply pw_line_text|]. eexists. split; [reflexivity|]. by destruct (ok_name p H) as [[_ ?] _]. Qed.
Lemma gr_line_shape g : gr_ok g → text (gr_line g) ∧ ∃ r, gr_line g = gr_name g ++ colon_byte :: r ∧ (colon_byte ∉ gr_name g).
Proof. intros H. split; [by apply gr_line_text|]. eexists. split; [reflexivity|]. by destruct (okg_name g H) as [[_ ?] _]. Qed.

Lemma passwd_rewritten ps uid gid : Forall pw_ok ps →
  rewrite_userdb (Some (passwd_file ps)) (alr_passwd uid gid) = passwd_file (filter (λ p, pw_name p ≠ alr_name) ps ++ [alr_pw uid gid]).
Proof. intros H. rewrite alr_passwd_line. by apply (rewrite_lines pw_line pw_name pw_ok); [apply pw_line_shape|]. Qed.
Lemma group_rewritten gs gid : Forall gr_ok gs →
  rewrite_userdb (Some (group_file gs)) (alr_group gid) = group_file (filter (λ g, gr_name g ≠ alr_name) gs ++ [alr_gr gid]).
Proof. intros H. rewrite alr_group_line. by apply (rewrite_lines gr_line gr_name gr_ok); [apply gr_line_shape|]. Qed.
Lemma filter_again {A} (name : A → bytes) es new : name new = alr_name →
  filter (λ e, name e ≠ alr_name) (filter (λ e, name e ≠ alr_name) es ++ [new]) = filter (λ e, name e ≠ alr_name) es.
Proof.
  intros Hn. rewrite filter_app, filter_cons, decide_False by tauto. rewrite app_nil_r.
  apply filter_all. apply Forall_forall. intros e [He _]%list_elem_of_filter. done.
Qed.

Lemma Forall_filtered {A} (P Q : A → Prop) `{!∀ x, Decision (Q x)} l : Forall P l → Forall P (filter Q l).
Proof. rewrite !Forall_forall. intros Hl x [_ Hx]%list_elem_of_filter. by apply Hl. Qed.
Lemma filter_none {A} (P : A → Prop) `{!∀ x, Decision (P x)} l : (∀ x, x ∈ l → ¬ P x) → filter P l = [].
Proof.
  intros Hl. destruct (filter P l) as [|x r] eqn:E; [done|]. exfalso.
  assert (Hx : x ∈ filter P l) by (rewrite E; left). apply list_elem_of_filter in Hx as [Hp Hx]. by apply (Hl x).
Qed.

(** The user databases of a tree learn the uid of the app and lose nothing: for databases
    that list the accounts [ps] and [gs], with lines of any length, the rewritten files list
    the same accounts in order without those named alr, followed by one account and one
    group of the uid and gid given; repeating it, with the same or a new uid, only replaces
    that entry; and looking the uid up then finds an account, the new one unless another
    account of the tree has that uid, while the name finds the new one. *)
Theorem userdb_synced ps gs uid gid sz : Forall pw_ok ps → Forall gr_ok gs → 0 ≤ uid < 2 ^ 32 → 0 ≤ gid < 2 ^ 32 →
  let ps' := filter (λ p, pw_name p ≠ alr_name) ps in
  let gs' := filter (λ g, gr_name g ≠ alr_name) gs in
  let '(pw, gr) := sync_userdb (Some (passwd_file ps)) (Some (group_file gs)) uid gid in
  pw = passwd_file (ps' ++ [alr_pw uid gid]) ∧ gr = group_file (gs' ++ [alr_gr gid]) ∧
  (∀ u g, sync_userdb (Some pw) (Some gr) u g = (passwd_file (ps' ++ [alr_pw u g]), group_file (gs' ++ [alr_gr g]))) ∧
  (lines_fit pw_line sz (ps' ++ [alr_pw uid gid]) →
     pw_scan (Some pw) (inl alr_name) sz = Some (Some (alr_pw uid gid)) ∧
     ∃ p, pw_scan (Some pw) (inr uid) sz = Some (Some p) ∧ pw_uid p = uid ∧ ((∀ q, q ∈ ps' → pw_uid q ≠ uid) → p = alr_pw uid gid)).
Proof.
  intros Hps Hgs Hu Hg ps' gs'. unfold sync_userdb. rewrite passwd_rewritten, group_rewritten by done. fold ps' gs'.
  assert (Hps' : Forall pw_ok (ps' ++ [alr_pw uid gid])).
  { apply Forall_app_2; [by apply Forall_filtered|]. constructor; [by apply pw_ok_alr|constructor]. }
  assert (Hgs' : Forall gr_ok (gs' ++ [alr_gr gid])).
  { apply Forall_app_2; [by apply Forall_filtered|]. constructor; [by apply gr_ok_alr|constructor]. }
  split; [done|]. split; [done|]. split.
  { intros u g. rewrite passwd_rewritten, group_rewritten by done. unfold ps', gs'. by rewrite !filter_again. }
  intros Hfit. pose proof (pw_database sz _ Hps' Hfit) as E. unfold pw_scan.
  destruct (nss_lines sz _) as [ls|]; [|done]. injection E as E. cbn [fmap option_fmap option_map]. rewrite E. clear E. split.
  - rewrite filter_app. assert (filter (λ p, pw_match (inl alr_name) p = true) ps' = []) as ->.
    { apply filter_none. intros p [Hp _]%list_elem_of_filter. unfold pw_match. by rewrite bool_decide_false. }
    done.
  - rewrite filter_app. destruct (filter _ ps') as [|p l] eqn:Ef.
    + exists (alr_pw uid gid). cbn [app]. rewrite filter_cons, decide_True by (unfold pw_match; cbn; lia). done.
    + exists p. assert (Hp : p ∈ filter (λ p, pw_match (inr uid) p = true) ps') by (rewrite Ef; left).
      apply list_elem_of_filter in Hp as [Hm Hp]. unfold pw_match in Hm. split; [done|]. split; [lia|].
      intros Hno. destruct (Hno p Hp). lia.
Qed.
Lemma userdb_synced_witness :
  fst (sync_userdb (Some (passwd_file sample_pw)) (Some (group_file sample_gr)) 10297 10297) =
    passwd_file [mk_passwd (str "root") (str "x") 0 0 (str "root") (str "/root") (str "/bin/bash"); alr_pw 10297 10297] ∧
  pw_scan (Some (fst (sync_userdb (Some (passwd_file sample_pw)) (Some (group_file sample_gr)) 10297 10297))) (inr 10297) 512 =
    Some (Some (alr_pw 10297 10297)).
Proof.
  assert (Hp : Forall pw_ok sample_pw).
  { repeat constructor; cbn; try lia; try done; try (by apply (bool_decide_unpack _); vm_compute). }
  assert (Hg : Forall gr_ok sample_gr).
  { repeat constructor; cbn; try lia; try done; try (by apply (bool_decide_unpack _); vm_compute). }
  pose proof (userdb_synced sample_pw sample_gr 10297 10297 512 Hp Hg ltac:(lia) ltac:(lia)) as H. cbv zeta in H.
  destruct (sync_userdb _ _ _ _) as [pw gr] eqn:E. destruct H as (H1 & _ & _ & H4). cbn [fst]. split; [exact H1|].
  destruct H4 as [_ (p & H5 & _ & H6)]; [repeat constructor; vm_compute; lia|]. rewrite H5, H6; [done|].
  intros q Hq. assert (Hq' : q ∈ [mk_passwd (str "root") (str "x") 0 0 (str "root") (str "/root") (str "/bin/bash")]) by exact Hq.
  apply elem_of_cons in Hq' as [->|Hq']; [done|by apply elem_of_nil in Hq'].
Defined.

(** * Links that leave the tree *)

(** The components of a relative target climb above the root from [lvl] below it. *)
Fixpoint climbs (lvl : Z) (cs : list bytes) : bool :=
  match cs with
  | [] => false
  | c :: cs =>
      if bool_decide (c = []) || bool_decide (c = dot) then climbs lvl cs
      else if bool_decide (c = dotdot) then (lvl - 1 <? 0) || climbs (lvl - 1) cs
      else climbs (lvl + 1) cs
  end.

(** A walk along components that do not climb stays below its base, whatever that is. *)
Lemma climbs_stays cs ds base : climbs (Z.of_nat (length ds)) cs = false →
  canon_from (ds ++ base) cs = canon_from ds cs ++ base.
Proof.
  revert ds. induction cs as [|c cs IH]; intros ds Hc; [done|]. unfold canon_from in *. cbn [climbs foldl] in *.
  unfold push_component at 2 4. destruct (decide (c = [] ∨ c = dot)) as [Hd|Hd].
  - apply IH. destruct Hd as [-> | ->]; [exact Hc|]. exact Hc.
  - apply Decidable.not_or in Hd as [H1 H2]. rewrite !bool_decide_false in Hc by done. cbn [orb] in Hc.
    destruct (decide (c = dotdot)) as [->|H3].
    + rewrite bool_decide_true in Hc by done. apply orb_false_iff in Hc as [Hl Hc].
      destruct ds as [|d ds]; [done|]. apply IH. cbn [length] in Hc. by rewrite Nat2Z.inj_succ, Z.sub_1_r, Z.pred_succ in Hc.
    + rewrite bool_decide_false in Hc by done. apply (IH (c :: ds)). cbn [length]. by rewrite Nat2Z.inj_succ, <- Z.add_1_r.
Qed.
Lemma climbs_prefix lvl cs1 cs2 : climbs lvl (cs1 ++ cs2) = false → climbs lvl cs1 = false.
Proof.
  revert lvl. induction cs1 as [|c cs IH]; intros lvl; [done|]. cbn [app climbs]. repeat case_match; eauto.
  rewrite !orb_false_iff. naive_solver.
Qed.
(** A walk along components that climb passes through everything above the root. *)
Lemma climbs_leaves cs ds b : climbs (Z.of_nat (length ds)) cs = true →
  ∃ cs1 cs2, cs = cs1 ++ cs2 ∧ canon_from (ds ++ [b]) cs1 = [].
Proof.
  revert ds. induction cs as [|c cs IH]; intros ds Hc; [done|]. cbn [climbs] in Hc.
  assert (Hstep : ∀ ds', push_component (ds ++ [b]) c = ds' ++ [b] → climbs (Z.of_nat (length ds')) cs = true →
    ∃ cs1 cs2, c :: cs = cs1 ++ cs2 ∧ canon_from (ds ++ [b]) cs1 = []).
  { intros ds' E Hc'. destruct (IH _ Hc') as (cs1 & cs2 & -> & Hl). exists (c :: cs1), cs2. split; [done|].
    unfold canon_from in *. cbn [foldl]. by rewrite E. }
  unfold push_component in Hstep. destruct (decide (c = [] ∨ c = dot)) as [Hd|Hd].
  - apply (Hstep ds); [done|]. by destruct Hd as [-> | ->].
  - apply Decidable.not_or in Hd as [H1 H2]. rewrite !bool_decide_false in Hc by done. cbn [orb] in Hc.
    destruct (decide (c = dotdot)) as [->|H3].
    + rewrite bool_decide_true in Hc by done. destruct ds as [|d ds].
      * exists [dotdot], cs. done.
      * apply orb_true_iff in Hc as [Hc|Hc]; [apply Z.ltb_lt in Hc; cbn [length] in Hc; lia|]. apply (Hstep ds); [done|].
        cbn [length] in Hc. by rewrite Nat2Z.inj_succ, Z.sub_1_r, Z.pred_succ in Hc.
    + rewrite bool_decide_false in Hc by done. apply (Hstep (c :: ds)); [done|]. cbn [length].
      by rewrite Nat2Z.inj_succ, <- Z.add_1_r.
Qed.

Lemma climbs_slashes lvl n cs : climbs lvl (replicate n [] ++ cs) = climbs lvl cs.
Proof. induction n; done. Qed.
Lemma strip_slashes s : ∃ n, s = replicate n slash ++ drop_while is_slash s ∧ starts_slash (drop_while is_slash s) = false.
Proof.
  induction s as [|b s (n & E & H)]; [by exists 0%nat|]. cbn [drop_while]. unfold is_slash at 1 3. destruct (bool_decide (b = slash)) eqn:Eb.
  - apply bool_decide_eq_true in Eb as ->. exists (S n). cbn. by rewrite <- E.
  - exists 0%nat. split; [done|]. exact Eb.
Qed.
Lemma split_slashes n s : split_on slash (replicate n slash ++ s) = replicate n [] ++ split_on slash s.
Proof. induction n as [|n IH]; [done|]. cbn [replicate app]. by rewrite split_on_cons_sep, IH. Qed.

Lemma climbs_cons lvl c cs1 cs2 : (∀ l, climbs l cs1 = climbs l cs2) → climbs lvl (c :: cs1) = climbs lvl (c :: cs2).
Proof. intros H. cbn [climbs]. by rewrite !H. Qed.
(** One component of a target, and the slashes after it. *)
Lemma next_component p : p ≠ [] → starts_slash p = false →
  let s := take_until is_slash p in let q := drop_while is_slash (drop (length s) p) in
  s ≠ [] ∧ (length q < length p)%nat ∧ starts_slash q = false ∧
  ∀ lvl, climbs lvl (split_on slash p) = climbs lvl (s :: split_on slash q).
Proof.
  intros Hp Hs s q. destruct (take_until_split is_slash p) as (r & E & Hr). fold s in E.
  assert (Hns : slash ∉ s).
  { pose proof (take_until_all is_slash p) as Ha. fold s in Ha. rewrite Forall_forall in Ha. intros Hi. specialize (Ha _ Hi). done. }
  assert (Es : s ≠ []).
  { intros E0. rewrite E0 in E. cbn [app] in E. subst r. destruct Hr as [->|(c & r' & -> & Hc)]; [done|].
    unfold is_slash in Hc. cbn [starts_slash] in Hs. congruence. }
  assert (Eq : q = drop_while is_slash r) by (unfold q; rewrite E at 1; rewrite drop_app_length; done).
  destruct (strip_slashes r) as (n & En & Hq). rewrite <- Eq in En, Hq. split; [done|]. split; [|split; [done|]].
  { rewrite E, En, length_app, length_app. destruct s; [done|]. simpl. lia. }
  intros lvl. destruct Hr as [->|(c & r' & -> & Hc)].
  - rewrite Eq. cbn [drop_while]. rewrite E, app_nil_r, split_on_single by done. by apply climbs_cons.
  - destruct n as [|n].
    { cbn in En. rewrite <- En in Hq. cbn [starts_slash] in Hq. unfold is_slash in Hc. congruence. }
    cbn [replicate app] in En. injection En as -> En. rewrite E, split_on_app, En, split_slashes by done.
    apply climbs_cons. intros l. apply climbs_slashes.
Qed.

(** The loop of [link_escapes] decides whether the components of the target climb. *)
Lemma link_escapes_climbs fuel lvl p : (length p ≤ fuel)%nat → starts_slash p = false →
  link_escapes_loop fuel lvl p = climbs lvl (split_on slash p).
Proof.
  revert lvl p. induction fuel as [|fuel IH]; intros lvl p Hf Hs; [by destruct p; simpl in Hf; [|lia]|].
  destruct (decide (p = [])) as [->|Hp]; [done|].
  destruct (next_component p Hp Hs) as (Es & Hl & Hq & Hc). rewrite Hc.
  destruct p as [|b p']; [done|]. remember (b :: p') as p eqn:Ep. cbn [link_escapes_loop]. rewrite Ep at 1. cbv zeta.
  set (s := take_until is_slash p) in *. set (q := drop_while is_slash (drop (length s) p)) in *. cbn [climbs].
  destruct (bool_decide (s = []) || bool_decide (s = dot)); [apply IH; [lia|done]|].
  destruct (bool_decide (s = dotdot)).
  - destruct (lvl - 1 <? 0); [done|]. apply IH; [lia|done].
  - destruct (bool_decide (q = [])) eqn:E.
    + apply bool_decide_eq_true in E as ->. by destruct fuel.
    + apply IH; [lia|done].
Qed.
Lemma link_escapes_spec t depth : starts_slash t = false → link_escapes t depth = climbs (Z.of_nat depth) (split_on slash t).
Proof. intros H. unfold link_escapes. rewrite H. by apply link_escapes_climbs. Qed.

(** Every step of the walk along a target from a directory stays at or below the root of
    the tree, wherever that is. *)
Definition stays_inside (ds : list bytes) (t : bytes) : Prop :=
  ∀ cs1 cs2 base, split_on slash t = cs1 ++ cs2 → canon_from (reverse ds ++ base) cs1 = canon_from (reverse ds) cs1 ++ base.
Lemma stays_iff ds t : starts_slash t = false → link_escapes t (length ds) = false ↔ stays_inside ds t.
Proof.
  intros Hs. rewrite link_escapes_spec by done. rewrite <- (length_reverse ds). split.
  - intros Hc cs1 cs2 base E. apply climbs_stays. rewrite E in Hc. by apply climbs_prefix in Hc.
  - intros Hst. apply not_true_is_false. intros Hc. destruct (climbs_leaves _ _ dot Hc) as (cs1 & cs2 & E & Hn).
    rewrite (Hst _ _ _ E) in Hn. by destruct (canon_from _ cs1).
Qed.

Lemma join_elem c f fs1 fs2 :
  ∃ l r, join_on c (fs1 ++ f :: fs2) = l ++ f ++ r ∧ (l = [] ∨ ∃ l', l = l' ++ [c]) ∧ (r = [] ∨ ∃ r', r = c :: r').
Proof.
  induction fs1 as [|g fs1 (l & r & E & Hl & Hr)].
  - destruct fs2 as [|g fs2]; [exists [], []; cbn; rewrite app_nil_r; split; [done|]; split; by left|]. exists [], (c :: join_on c (g :: fs2)). split; [done|]. split; [by left|right; eauto].
  - exists (g ++ c :: l), r. split; [|split; [|done]].
    + cbn [app]. rewrite <- app_assoc. cbn [app]. rewrite <- E. by destruct (fs1 ++ f :: fs2) eqn:E0; [destruct fs1|].
    + right. destruct Hl as [->|(l' & ->)]; [by exists g|]. exists (g ++ c :: l'). by rewrite <- app_assoc.
Qed.
Lemma split_elem c f s : f ∈ split_on c s →
  ∃ l r, s = l ++ f ++ r ∧ (l = [] ∨ ∃ l', l = l' ++ [c]) ∧ (r = [] ∨ ∃ r', r = c :: r').
Proof.
  intros (fs1 & fs2 & E)%list_elem_of_split. rewrite <- (join_on_split c s), E. apply join_elem.
Qed.

(** The three tests of an absolute target find every [..] component. *)
Lemma no_dotdot t : starts_slash t = true → has_sub "/../" t || bool_decide (t = str "/..") || ends_dotdot t = false →
  dotdot ∉ split_on slash t.
Proof.
  intros Hs Ht (l & r & E & Hl & Hr)%split_elem. rewrite !orb_false_iff in Ht. destruct Ht as [[H1 H2] H3].
  destruct Hl as [->|(l' & ->)]; [by rewrite E in Hs|]. rewrite <- app_assoc in E.
  destruct Hr as [->|(r' & ->)].
  - rewrite app_nil_r in E. apply bool_decide_eq_false in H2. unfold ends_dotdot in H3. rewrite E, length_app in H3.
    change ([slash] ++ dotdot) with (str "/..") in *. cbn [length] in H3.
    rewrite Nat.add_sub, drop_app_length, (bool_decide_true (_ = _)), andb_true_r in H3 by done.
    apply bool_decide_eq_false in H3. destruct l'; [done|simpl in H3; lia].
  - apply not_true_iff_false in H1. apply H1, has_sub_spec. exists l', r'. by rewrite E.
Qed.
Lemma climbs_down lvl cs : 0 ≤ lvl → dotdot ∉ cs → climbs lvl cs = false.
Proof.
  revert lvl. induction cs as [|c cs IH]; intros lvl Hl Hn; [done|]. apply not_elem_of_cons in Hn as [Hc Hn]. cbn [climbs].
  rewrite (bool_decide_false (c = dotdot)) by done. case_match; apply IH; (done || lia).
Qed.
Lemma climbs_updirs n lvl q : climbs (Z.of_nat n + lvl) (split_on slash (updirs n ++ q)) = climbs lvl (split_on slash q) ∨ lvl < 0.
Proof.
  destruct (decide (lvl < 0)) as [?|Hl]; [by right|left]. induction n as [|n IH]; [done|].
  change (updirs (S n) ++ q) with (dotdot ++ slash :: (updirs n ++ q)).
  rewrite split_on_app by (by apply (bool_decide_unpack _)). cbn [climbs]. rewrite <- IH.
  replace (Z.of_nat (S n) + lvl - 1) with (Z.of_nat n + lvl) by lia. rewrite (proj2 (Z.ltb_ge _ _)) by lia. done.
Qed.

(** A rewritten link: it stays inside, and its walk lands where the target lands below the
    root, wherever that is. *)
Lemma rewritten_link ds t base : starts_slash t = true → dotdot ∉ split_on slash t →
  let rel := updirs (length ds) ++ drop 1 t in
  stays_inside ds rel ∧ walk (reverse ds ++ base) rel = walk [] t ++ base.
Proof.
  intros Hs Hn rel. destruct t as [|b q]; [done|]. cbn [starts_slash] in Hs. apply bool_decide_eq_true in Hs as ->.
  rewrite split_on_cons_sep in Hn. apply not_elem_of_cons in Hn as [_ Hn]. change (drop 1 (slash :: q)) with q in rel.
  assert (Hc : climbs 0 (split_on slash q) = false) by (apply climbs_down; [lia|done]). split.
  - intros cs1 cs2 base' E. apply climbs_stays. rewrite length_reverse. apply (climbs_prefix _ _ cs2). rewrite <- E.
    unfold rel. destruct (climbs_updirs (length ds) 0 q) as [Eu|?]; [|lia]. rewrite Z.add_0_r in Eu. by rewrite Eu.
  - unfold rel. rewrite walk_updirs, <- length_reverse, drop_app_length. unfold walk. rewrite split_on_cons_sep, canon_from_nil.
    by apply (climbs_stays _ []).
Qed.

(** * The tree *)

(** The link [nm] with text [t] in the directory [ds] below the root. *)
Inductive link_at : list (bytes * node) → list bytes → bytes → bytes → Prop :=
  | link_here es nm t : (nm, Link t) ∈ es → link_at es [] nm t
  | link_below es d es' ds nm t : (d, Dir es') ∈ es → link_at es' ds nm t → link_at es (d :: ds) nm t.
Definition path_len (plen : nat) (ds : list bytes) : nat := foldl (λ n d, n + 1 + length d)%nat plen ds.

(** What is left of a directory comes from its entries, and its counters are at most those
    of the whole. *)
Lemma entries_elem rec plen depth es nm n' : (nm, n') ∈ fst (relativize_entries rec plen depth es) →
  ∃ n, (nm, n) ∈ es ∧ (if decide (ALR_PBUF ≤ plen + 1 + length nm)%nat then n' = n
    else fst (rec (plen + 1 + length nm)%nat depth n) = Some n' ∧
         (n_failed (snd (rec (plen + 1 + length nm)%nat depth n)) ≤ n_failed (snd (relativize_entries rec plen depth es)))%nat).
Proof.
  induction es as [|[m n] es IH]; cbn [relativize_entries]; [intros []%elem_of_nil|]. fold (relativize_entries rec plen depth).
  destruct (relativize_entries rec plen depth es) as [es' c2] eqn:E. cbn [fst snd] in IH.
  assert (Hrest : ∀ c1, (nm, n') ∈ es' → ∃ n0, (nm, n0) ∈ (m, n) :: es ∧
    (if decide (ALR_PBUF ≤ plen + 1 + length nm)%nat then n' = n0
     else fst (rec (plen + 1 + length nm)%nat depth n0) = Some n' ∧
       (n_failed (snd (rec (plen + 1 + length nm)%nat depth n0)) ≤ n_failed (add_tally c1 c2))%nat)).
  { intros c1 Hin. destruct (IH Hin) as (n0 & Hn & H). exists n0. split; [by right|]. case_decide; [done|]. cbn. destruct H. split; [done|lia]. }
  destruct (decide (ALR_PBUF ≤ plen + 1 + length m)%nat) as [Hd|Hd].
  - cbn [fst snd]. intros [[= -> ->]|Hin]%elem_of_cons; [|by apply Hrest]. exists n. split; [left|]. by rewrite decide_True.
  - destruct (rec _ depth n) as [o c1] eqn:Er. destruct o as [n1|]; cbn [fst snd]; [|by apply Hrest].
    intros [[= -> ->]|Hin]%elem_of_cons; [|by apply Hrest]. exists n. split; [left|].
    rewrite decide_False, Er by done. cbn. split; [done|lia].
Qed.

Lemma link_left plen depth es ds nm t : link_at (fst (relativize_tree plen depth es)) ds nm t →
  (path_len plen (ds ++ [nm]) < ALR_PBUF)%nat →
  ∃ t0, link_at es ds nm t0 ∧
    ((fix_link (depth + length ds) t0 = Keep ∧ t = t0) ∨ fix_link (depth + length ds) t0 = Rewritten t ∨
     (0 < n_failed (snd (relativize_tree plen depth es)))%nat).
Proof.
  unfold relativize_tree. intros H. remember (fst (relativize_entries relativize_node plen depth es)) as es' eqn:Ee. revert plen depth es Ee.
  induction H as [es' nm t Hin|es' d es1 ds nm t Hin H IH]; intros plen depth es -> Hfit.
  - destruct (entries_elem _ _ _ _ _ _ Hin) as (n & Hn & Hc). cbn in Hfit. rewrite decide_False in Hc by lia. destruct Hc as [Hr Hf].
    cbn [length]. rewrite Nat.add_0_r.
    destruct n as [|t0|es0]; cbn [relativize_node] in Hr, Hf; [done| |by destruct (relativize_entries _ _ _ es0)].
    exists t0. split; [by constructor|]. destruct (fix_link depth t0) as [| |t1|[]] eqn:E; cbn in Hr, Hf; simplify_eq; eauto.
  - assert (Hlen : (plen + 1 + length d < ALR_PBUF)%nat).
    { eapply Nat.le_lt_trans; [|exact Hfit]. cbn [app path_len foldl]. unfold path_len. generalize (plen + 1 + length d)%nat. clear.
      induction (ds ++ [nm]) as [|x l IH]; intros n; cbn [foldl]; [lia|]. etransitivity; [|apply IH]. lia. }
    destruct (entries_elem _ _ _ _ _ _ Hin) as (n & Hn & Hc). rewrite decide_False in Hc by lia. destruct Hc as [Hr Hf].
    destruct n as [|t0|es0]; cbn [relativize_node] in Hr, Hf; [done|by destruct (fix_link depth t0) as [| |?|[]]|].
    destruct (relativize_entries relativize_node _ (S depth) es0) as [es2 c] eqn:E. cbn in Hr, Hf. simplify_eq.
    destruct (IH _ (S depth) es0 ltac:(by rewrite E) Hfit) as (t0 & Ht0 & Hcase). exists t0. split; [by econstructor|].
    rewrite E in Hcase. cbn [snd] in Hcase. cbn [length]. rewrite Nat.add_succ_r. destruct Hcase as [?|[?|?]]; [eauto..|]. right. right. lia.
Qed.


(** An image with a link of each kind. *)
Definition sample_tree : list (bytes * node) :=
  [(str "usr", Dir [(str "bin", Dir [(str "awk", Link "/etc/alternatives/awk"); (str "evil", Link "../../../etc/passwd");
                                     (str "sh", Link "dash"); (str "evil2", Link "/proc/../../etc"); (str "tty", Link "/dev/tty")])]);
   (str "bin", Link "usr/bin"); (str "init", Link "/lib/systemd/systemd"); (str "hosts", File)].

(** Two links that pass the test lead out together: [up] is the root itself, and the test of
    [x] counts it as one directory down. *)
Example links_chain :
  let es := [(str "d", Dir [(str "e", Dir [(str "f", Dir [(str "up", Link "../../..")])])]); (str "x", Link "d/e/f/up/../../..")] in
  relativize_tree 10 0 es = (es, no_tally) ∧
  ∀ base, walk (walk (reverse [str "d"; str "e"; str "f"] ++ base) (str "../../..")) (str "../../..") = drop 3 base.
Proof. split; [by vm_compute|]. intros base. cbn. by destruct base as [|? [|? [|? ?]]]. Qed.
(** A target of two slashes in the root directory becomes an absolute one, and one that is
    the root is removed without a replacement. *)
Example root_links :
  fix_link 0 (str "//etc/passwd") = Rewritten "/etc/passwd" ∧ fix_link 0 (str "/") = Failed true ∧
  fix_link 1 (str "//etc/passwd") = Rewritten "..//etc/passwd".
Proof. by vm_compute. Qed.

(** * The release to fetch *)

Lemma best_of_max b es : let best := foldl best_of b es in
  (best = b ∨ best ∈ es) ∧ fst (fst b) ≤ fst (fst best) ∧ ∀ e, e ∈ es → fst (fst e) ≤ fst (fst best).
Proof.
  revert b. induction es as [|e es IH]; intros b; cbn [foldl]; [split; [by left|]; split; [lia|by intros ? []%elem_of_nil]|].
  destruct (IH (best_of b e)) as (H1 & H2 & H3). cbv zeta. set (best := foldl best_of (best_of b e) es) in *.
  assert (Hb : (best_of b e = b ∨ best_of b e = e) ∧ fst (fst b) ≤ fst (fst (best_of b e)) ∧ fst (fst e) ≤ fst (fst (best_of b e))).
  { unfold best_of. destruct (Z.ltb_spec (fst (fst b)) (fst (fst e))); (split; [auto|lia]). }
  destruct Hb as (Hb & Hb1 & Hb2). split; [|split].
  - destruct H1 as [-> |H1]; [|right; by right]. destruct Hb as [-> | ->]; [by left|right; left].
  - lia.
  - intros e' [->|He]%elem_of_cons; [lia|by apply H3].
Qed.
(** The image found is named by a line of the list, with that line's hash, and no line names
    a later point release. *)
Lemma discover_newest c rel sums url h : discover_ubuntu c rel sums = Some (url, h) →
  ∃ pt n, 0 ≤ pt ∧ (pt, n, h) ∈ omap (sums_line rel) (c_str <$> default [] (pieces 512 sums)) ∧
    url = (if has_mirror c then mirror c else ALR_UBUNTU_CDIMAGE) ++ slash :: rel ++ str "/release/" ++ n ∧
    ∀ e, e ∈ omap (sums_line rel) (c_str <$> default [] (pieces 512 sums)) → fst (fst e) ≤ pt.
Proof.
  unfold discover_ubuntu. destruct (decide _) as [?|_]; [done|]. cbv zeta. set (es := omap _ _).
  pose proof (best_of_max (-1, [], []) es) as H. cbv zeta in H. destruct (foldl best_of _ es) as [[pt n] h'] eqn:E.
  destruct (Z.ltb_spec pt 0) as [?|Hpt]; [done|]. intros E1. injection E1 as <- <-. exists pt, n. destruct H as (H1 & _ & H3). split; [done|].
  destruct H1 as [[= -> _ _]|H1]; [lia|]. split; [done|]. split; [done|]. exact H3.
Qed.
Example discover_sample :
  let h := replicate 64 "a"%byte in
  let l p := h ++ str " *ubuntu-base-24.04" ++ p ++ str "-base-arm64.tar.gz" ++ [newline] in
  snd <$> discover_ubuntu (no_config) (str "24.04") (l [] ++ l (str ".2") ++ l (str ".1")) = Some h.
Proof. by vm_compute. Qed.

(** * Members [tar] could not link *)

(** In either dialect of the listing a member is linked, one whose source is made by an
    earlier line too, and one that climbs is refused. *)
Example hardlinks_sample :
  let t := fix_hardlinks "/r" (λ p, bool_decide (p = "/r/usr/bin/coreutils")) (λ _ d, negb (bool_decide (d = "/r/usr/bin/cat"))) (λ _ _, true)
    (unlines (strs ["-rwxr-xr-x root/root 0 2026-01-01 00:00 usr/bin/ls link to usr/bin/coreutils";
                    "hrwxr-xr-x root/root 0 2026-01-01 00:00 usr/bin/cat link to usr/bin/ls";
                    "hrwxr-xr-x root/root 0 2026-01-01 00:00 ../evil link to usr/bin/ls";
                    "lrwxrwxrwx root/root 0 2026-01-01 00:00 bin -> usr/bin";
                    "crw-r--r-- root/root 1,3 2026-01-01 00:00 dev/null"])) in
  (h_members t, h_special t, h_made t, h_copied t, h_failed t) = (5, 1, 1, 1, 1)%nat ∧ h_new t = strs ["/r/usr/bin/cat"; "/r/usr/bin/ls"].
Proof. by vm_compute. Qed.
