(* ===== verification/CliEnv.v ===== *)
(** * The command line tool: options and environment of a launch ([runtime/alr/src/cli/alr.c])

    The options of [run], [shell] and [exec], the command line of the tool itself, and
    [build_env], which makes the environment a guest starts in.  An environment is a list
    of entries; [getenv] finds the first that matches, as the C library does, while a shell
    that imports its environment keeps the last. *)

From S2P Require Import Prelude CppMap Bytes PathRule ExecPlan ExecRule PreloadPath CliConfig.

Local Open Scope Z_scope.

Definition ALR_MAX_ENVP : nat := 512.
Definition ALR_MAX_USER_ENV : nat := 32.

(** ** Environments *)

Definition equals : byte := "="%byte.
Definition entry_of (name : bytes) (e : bytes) : bool := is_prefix (name ++ [equals]) e.
(** The entries a name has, in order, and what [getenv] returns. *)
Definition entries (env : list bytes) (name : bytes) : list bytes := filter (λ e, entry_of name e = true) env.
Definition getenv (env : list bytes) (name : bytes) : option bytes :=
  drop (S (length name)) <$> head (entries env name).
(** What is found by a reader that keeps the last assignment. *)
Definition getenv_last (env : list bytes) (name : bytes) : option bytes :=
  drop (S (length name)) <$> last (entries env name).

(** ** The options of [run], [exec] and [shell] *)

Record runopts := mk_runopts {
  workdir : option bytes; envs : list bytes; ro_fakeroot : Z; no_supervisor : bool;
}.
Definition runopts_init : runopts := mk_runopts None [] (-1) false.

Definition own : list bytes := strs
  ["ALR_COUNT="; "ALR_DISTRO="; "ALR_FAKEROOT="; "ALR_GUEST_ARGV0="; "ALR_GUEST_EXE="; "ALR_GUEST_PATH="; "ALR_LDSO=";
   "ALR_LIBPATH="; "ALR_LANE="; "ALR_LOG="; "ALR_LOG_FD="; "ALR_PRELOAD="; "ALR_ROOT="; "ALR_ROOT_DIR="].
Definition env_is_reserved (kv : bytes) : bool :=
  existsb (λ o, is_prefix o kv) own || is_prefix "LD_PRELOAD=" kv || is_prefix "LD_LIBRARY_PATH=" kv ||
  is_prefix "LOCPATH=" kv || is_prefix "GLIBC_TUNABLES=" kv.

(** [atoi] *)
Definition atoi (s : bytes) : Z := s32 (fst (strtol s)).

(** The options left in force, or the reason to stop. *)
Record options := mk_options { o_ro : runopts; o_distro : bytes; o_log : Z }.
Definition with_ro (o : options) (ro : runopts) : options := mk_options ro (o_distro o) (o_log o).
Definition is_word (a : bytes) (ws : list string) : bool := bool_decide (a ∈ strs ws).
Definition one_env (o : options) (kv : bytes) : bytes + options :=
  let '(mk_runopts w es f s) := o_ro o in
  if negb (has_byte equals kv) then inl (str "bad-env")
  else if env_is_reserved kv then inl (str "env-reserved")
  else if decide (ALR_MAX_USER_ENV ≤ length es)%nat then inl (str "too-many-env")
  else inr (with_ro o (mk_runopts w (es ++ [kv]) f s)).
(** An option that stands alone. *)
Definition flag (o : options) (a : bytes) : bytes + options :=
  let '(mk_runopts w es f s) := o_ro o in
  if is_word a ["--fakeroot"] then inr (with_ro o (mk_runopts w es 1 s))
  else if is_word a ["--no-fakeroot"] then inr (with_ro o (mk_runopts w es 0 s))
  else if is_word a ["--no-supervisor"] then inr (with_ro o (mk_runopts w es f true))
  else if is_word a ["-v"] then inr (mk_options (o_ro o) (o_distro o) (s32 (o_log o + 1)))
  else inl (str "bad-option").
Definition option_arg (o : options) (a v : bytes) : option (bytes + options) :=
  let '(mk_runopts w es f s) := o_ro o in
  if is_word a ["-d"; "--distro"] then Some (inr (mk_options (o_ro o) v (o_log o)))
  else if is_word a ["-w"; "--workdir"] then Some (inr (with_ro o (mk_runopts (Some v) es f s)))
  else if is_word a ["-e"; "--env"] then Some (one_env o v)
  else if is_word a ["--log"] then Some (inr (mk_options (o_ro o) (o_distro o) (atoi v)))
  else None.
(** [parse_runopts]: the options and the arguments that are left. *)
Fixpoint parse_runopts (stop_at_ddash : bool) (o : options) (args : list bytes) {struct args} : bytes + options * list bytes :=
  match args with
  | [] => inr (o, [])
  | a :: rest =>
      if stop_at_ddash && is_word a ["--"] then inr (o, rest)
      else if negb (is_prefix "-" a) || is_word a ["-"] then inr (o, args)
      else
        let alone := match flag o a with inl t => inl t | inr o => parse_runopts stop_at_ddash o rest end in
        match rest with
        | [] => alone
        | v :: rest =>
            match option_arg o a v with
            | Some (inl t) => inl t
            | Some (inr o) => parse_runopts stop_at_ddash o rest
            | None => alone
            end
        end
  end.

(** The options in front of the command, in [main]. *)
Fixpoint global_options (distro : bytes) (log : Z) (url : option bytes) (args : list bytes) {struct args} :
    bytes * Z * option bytes * list bytes :=
  match args with
  | [] => (distro, log, url, [])
  | a :: rest =>
      if negb (is_prefix "-" a) || is_word a ["-"] then (distro, log, url, args)
      else match rest with
           | v :: rest' =>
               if is_word a ["-d"] then global_options v log url rest'
               else if is_word a ["-v"] then global_options distro (s32 (log + 1)) url rest
               else if is_word a ["--url"] then global_options distro log (Some v) rest'
               else (distro, log, url, args)
           | [] => if is_word a ["-v"] then (distro, s32 (log + 1), url, []) else (distro, log, url, args)
           end
  end.
(** The distribution and the verbosity [main] starts with. *)
Definition initial (env : list bytes) (c : alr_config) : bytes * Z :=
  (default (if has_distro c then distro c else ALR_DEFAULT_DISTRO) (env_set (getenv env) "ALR_DISTRO"),
   match getenv env "ALR_LOG" with Some l => atoi l | None => if has_log c then log c else 0 end).

(** ** The lane *)

(** [lane_path]: [self] is the path of the tool; whether a file may be executed and its
    canonical path, if it has one that fits, are answers of the system. *)
Definition self_dir (self : bytes) : bytes :=
  if has_byte slash self then take (length self - length (base_name self) - 1) self else str ".".
Definition lane_path (env : list bytes) (self : bytes) (may_exec : bytes → bool) (canonical : bytes → option bytes) : option bytes :=
  if bool_decide (getenv env "ALR_LANE" = Some (str "0")) then None
  else
    let cands := [cut ALR_PBUF (self_dir self ++ str "/alr-lane");
                  cut ALR_PBUF (self_dir self ++ str "/../libexec/alr/alr-lane");
                  cut ALR_PBUF (prefix (getenv env) ++ str "/libexec/alr/alr-lane")] in
    head (omap (λ c, if may_exec c then canonical c else None) cands).

(** ** [build_env] *)

(** [struct launch] *)
Record launch := mk_launch { l_root : bytes; l_ldso : bytes; l_libpath : bytes; l_preload : bytes; have_preload : bool }.

(** The keys the first loop drops, beside those of the host. *)
Definition dropped : list bytes := strs
  ["LD_PRELOAD"; "LD_LIBRARY_PATH"; "GLIBC_TUNABLES"; "PATH"; "HOME"; "TMPDIR"; "PWD"; "OLDPWD";
   "ALR_ROOT"; "ALR_LDSO"; "ALR_LIBPATH"; "ALR_PRELOAD"; "ALR_GUEST_EXE"; "ALR_GUEST_ARGV0"; "ALR_GUEST_PATH";
   "ALR_FAKEROOT"; "ALR_COUNT"; "ALR_LOG_FD"; "ALR_DISTRO"; "LANG"].
Definition key_of (e : bytes) : bytes := take (fst (alr_split_env e)) e.
Definition carried_key (k : bytes) : bool := negb (bool_decide (k ∈ dropped)) && negb (is_prefix "LC_" k).
(** Whether one of the entries [es] sets the key of [e]. *)
Definition user_set (es : list bytes) (e : bytes) : bool := existsb (λ u, bool_decide (key_of u = key_of e)) es.
Definition inherits (ro : runopts) (e : bytes) : bool :=
  negb (alr_env_is_blocked e) && carried_key (key_of e) && negb (user_set (envs ro) e).

Section build_env.
Context (env : list bytes) (c : alr_config) (L : launch) (lane : option bytes) (resolv_sock : option bytes).
Context (guest_exe : bytes) (target_static : bool) (guest_argv0 : bytes) (ro : runopts) (guest_cwd : bytes).

Definition when {A} (b : bool) (l : list A) : list A := if b then l else [].
Definition when_some {A B} (o : option A) (f : A → list B) : list B := match o with Some a => f a | None => [] end.
(** The name of the tree. *)
Definition distro_of (root : bytes) : bytes :=
  if bool_decide (base_name root = []) then root else base_name root.
Definition host_cwd : bytes :=
  cut ALR_PBUF (if bool_decide (guest_cwd = [slash]) then l_root L else l_root L ++ guest_cwd).
(** What is put: the view of a program whose paths are rewritten, or of one whose are not. *)
Definition view : list (bytes * bytes) :=
  if target_static then
    [(str "HOME", l_root L ++ str "/root"); (str "TMPDIR", l_root L ++ str "/tmp");
     (str "PATH", l_root L ++ str "/usr/lib/alr/hostbin:" ++ prefix (getenv env) ++ str "/bin");
     (str "PWD", host_cwd)]
  else
    [(str "HOME", str "/root"); (str "PWD", guest_cwd); (str "TMPDIR", str "/tmp");
     (str "PATH", str "/usr/local/sbin:/usr/local/bin:/usr/sbin:/usr/bin:/sbin:/bin")].
Definition fakeroot_puts : list (bytes * bytes) :=
  if 0 <=? ro_fakeroot ro then [(str "ALR_FAKEROOT", to_string (ro_fakeroot ro))]
  else match getenv env "ALR_FAKEROOT" with
       | Some f => [(str "ALR_FAKEROOT", f)]
       | None => when (has_fakeroot c) [(str "ALR_FAKEROOT", if fakeroot c then str "1" else str "0")]
       end.
Definition count_puts : list (bytes * bytes) :=
  when_some (getenv env "ALR_COUNT") (λ n,
    [(str "ALR_COUNT", n); (str "ALR_LOG_FD", default (str "2") (env_set (getenv env) "ALR_LOG_FD"))]).
Definition puts : list (bytes * bytes) :=
  [(str "ALR_ROOT", l_root L); (str "ALR_DISTRO", distro_of (l_root L)); (str "ALR_LDSO", l_ldso L);
   (str "ALR_LIBPATH", l_libpath L)] ++
  when_some lane (λ l, [(str "ALR_LANE", l)]) ++
  when (negb target_static) [(str "LD_LIBRARY_PATH", l_libpath L)] ++
  when (have_preload L) [(str "ALR_PRELOAD", l_preload L)] ++
  [(str "ALR_GUEST_EXE", guest_exe); (str "ALR_GUEST_ARGV0", guest_argv0);
   (str "GLIBC_TUNABLES", str "glibc.pthread.rseq=0")] ++
  view ++
  [(str "LOCPATH", l_root L ++ str "/usr/lib/locale"); (str "LANG", str "C.UTF-8"); (str "LC_ALL", str "C.UTF-8")] ++
  when (have_preload L && negb target_static) [(str "LD_PRELOAD", l_preload L)] ++
  fakeroot_puts ++ count_puts ++
  when_some resolv_sock (λ s, [(str "ALR_RESOLV_SOCK", s)]).
Definition put_entry (p : bytes * bytes) : bytes := cut ALR_PBUF (fst p ++ [equals] ++ snd p).

Definition ENV_CAP : nat := (ALR_MAX_ENVP - 24)%nat.
Definition inherited : list bytes := take ENV_CAP (filter (λ e, inherits ro e = true) env).
Definition user_part : list bytes := take (ENV_CAP - length inherited) (envs ro).
Definition build_env : list bytes :=
  inherited ++ user_part ++ filter (λ e, user_set (envs ro) e = false) (put_entry <$> puts).
End build_env.

(** * Names and entries *)

Lemma entry_of_spec name e : entry_of name e = true ↔ ∃ v, e = name ++ equals :: v.
Proof. unfold entry_of. rewrite is_prefix_spec. split; intros [v ->]; exists v; by rewrite <- app_assoc. Qed.
Lemma key_of_entry name v : equals ∉ name → key_of (name ++ equals :: v) = name.
Proof. intros H. unfold key_of. rewrite split_env_key by done. apply take_app_length. Qed.
Lemma key_of_named name e : equals ∉ name → entry_of name e = true → key_of e = name.
Proof. intros H (v & ->)%entry_of_spec. by apply key_of_entry. Qed.
Lemma named_key e : equals ∈ e → (equals ∉ key_of e) ∧ entry_of (key_of e) e = true.
Proof.
  intros H. unfold key_of, alr_split_env. destruct (find_from "="%byte e) as [n|] eqn:E; [|by apply find_from_None in E].
  apply find_from_Some in E as (r & E & Hn & _). split; [done|]. apply entry_of_spec. by exists r.
Qed.
Lemma filter_switch {A} (P Q : A → bool) (b : bool) l : (∀ x, Q x = true → P x = b) →
  filter (λ x, Q x = true) (filter (λ x, P x = true) l) = if b then filter (λ x, Q x = true) l else [].
Proof.
  intros H. induction l as [|x l IH]; [by destruct b|]. rewrite (filter_cons (λ x, P x = true)), (filter_cons (λ x, Q x = true) x l).
  destruct (decide (Q x = true)) as [E|E].
  - specialize (H x E). destruct (decide (P x = true)) as [Hp|Hp].
    + rewrite filter_cons, decide_True, IH by done. destruct b; [done|congruence].
    + destruct b; [congruence|done].
  - destruct (decide (P x = true)); [|done]. by rewrite filter_cons, decide_False, IH by done.
Qed.
Lemma entries_app l1 l2 name : entries (l1 ++ l2) name = entries l1 name ++ entries l2 name.
Proof. apply filter_app. Qed.

(** A named entry sets the key iff it is one of the entries of that name. *)
Lemma user_sets es name e : Forall (λ u, equals ∈ u) es → equals ∉ name → entry_of name e = true →
  user_set es e = negb (bool_decide (entries es name = [])).
Proof.
  intros Hes Hn He. unfold user_set. rewrite (key_of_named name e) by done.
  induction Hes as [|u es Hu _ IH]; [done|]. cbn [existsb]. rewrite IH. unfold entries. rewrite filter_cons.
  destruct (named_key u Hu) as [Hk Heu]. destruct (entry_of name u) eqn:E.
  - rewrite (bool_decide_true (key_of u = name)) by (by apply key_of_named). cbn. by rewrite bool_decide_false.
  - rewrite (bool_decide_false (key_of u = name)) by (intros <-; congruence). done.
Qed.

Definition may_inherit (name : bytes) : bool := negb (alr_env_is_blocked name) && carried_key name.
Lemma inherits_named ro name e : Forall (λ u, equals ∈ u) (envs ro) → equals ∉ name → entry_of name e = true →
  inherits ro e = may_inherit name && bool_decide (entries (envs ro) name = []).
Proof.
  intros Hu Hn He. unfold inherits, may_inherit. rewrite (user_sets _ name e), (key_of_named name e) by done.
  rewrite negb_involutive. apply entry_of_spec in He as (v & ->). by rewrite env_blocked_key.
Qed.

(** The entries a name has in the environment of a launch. *)
Lemma entries_build env c L lane sock exe st a0 ro cwd name :
  equals ∉ name → Forall (λ u, equals ∈ u) (envs ro) →
  (length (filter (λ e, inherits ro e = true) env) + length (envs ro) ≤ ENV_CAP)%nat →
  entries (build_env env c L lane sock exe st a0 ro cwd) name =
    if bool_decide (entries (envs ro) name = [])
    then (if may_inherit name then entries env name else []) ++
         entries (put_entry <$> puts env c L lane sock exe st a0 ro cwd) name
    else entries (envs ro) name.
Proof.
  intros Hn Hu Hcap. unfold build_env, user_part, inherited. rewrite take_ge by lia. rewrite take_ge by lia. rewrite !entries_app.
  unfold entries at 1. rewrite (filter_switch _ _ (may_inherit name && bool_decide (entries (envs ro) name = []))) by (intros e He; by apply inherits_named).
  fold (entries env name). set (ps := put_entry <$> _).
  assert (entries (filter (λ e, user_set (envs ro) e = false) ps) name = if bool_decide (entries (envs ro) name = []) then entries ps name else []) as ->.
  { assert (filter (λ e, user_set (envs ro) e = false) ps = filter (λ e, negb (user_set (envs ro) e) = true) ps) as ->.
    { apply list_filter_iff. intros e. by destruct (user_set _ e). }
    unfold entries at 1. rewrite (filter_switch _ _ (bool_decide (entries (envs ro) name = []))); [done|].
    intros e He. by rewrite (user_sets _ name e), negb_involutive. }
  destruct (bool_decide (entries (envs ro) name = [])) eqn:E.
  - apply bool_decide_eq_true in E. rewrite E, andb_true_r. done.
  - rewrite andb_false_r, app_nil_r. done.
Qed.

(** * What is put *)

Lemma puts_keys env c L lane sock exe st a0 ro cwd :
  let ks := fst <$> puts env c L lane sock exe st a0 ro cwd in
  NoDup ks ∧ (length ks ≤ 22)%nat ∧ Forall (λ k, bool_decide (equals ∉ k) && (length k <? 100)%nat &&
    (negb (may_inherit k) || is_word k ["ALR_LANE"; "ALR_RESOLV_SOCK"; "LOCPATH"]) = true) ks.
Proof.
  unfold puts, fakeroot_puts, count_puts, view, when. cbv zeta.
  destruct st, lane, (have_preload L), (0 <=? ro_fakeroot ro), (getenv env "ALR_FAKEROOT"), (has_fakeroot c), (getenv env "ALR_COUNT"), sock; cbn [when_some negb andb app fmap list_fmap fst snd]; (split; [apply (bool_decide_unpack _); vm_compute; exact I|split; [cbn; lia|apply (bool_decide_unpack _); vm_compute; exact I]]).
Qed.

(** The value put under a name, and the condition that the buffers hold what is put. *)
Definition put_value (ps : list (bytes * bytes)) (name : bytes) : option bytes := snd <$> head (filter (λ p, fst p = name) ps).
Definition fits_buffer (p : bytes * bytes) : Prop := (length (fst p) + 1 + length (snd p) < ALR_PBUF)%nat.
Lemma fits_check ps : forallb (λ p, (length (fst p) + 1 + length (snd p) <? ALR_PBUF)%nat) ps = true → Forall fits_buffer ps.
Proof. rewrite forallb_forall. intros H. apply Forall_forall. intros p Hp%list_elem_of_In. by apply Nat.ltb_lt, H. Qed.
Lemma put_entry_fits p : fits_buffer p → put_entry p = fst p ++ equals :: snd p.
Proof. intros H. unfold put_entry, cut. apply take_ge. unfold fits_buffer in H. rewrite length_app. cbn [length].
  lia. Qed.
Lemma put_entries ps name : NoDup (fst <$> ps) → Forall fits_buffer ps → Forall (λ k, equals ∉ k) (fst <$> ps) → equals ∉ name →
  entries (put_entry <$> ps) name = match put_value ps name with Some v => [name ++ equals :: v] | None => [] end.
Proof.
  intros Hnd Hfit Hk Hn. unfold put_value. induction ps as [|[k v] ps IH]; [done|]. cbn [fmap list_fmap fst] in *.
  apply NoDup_cons in Hnd as [Hnew Hnd]. apply Forall_cons in Hfit as [Hf Hfit]. apply Forall_cons in Hk as [Hk Hks]. specialize (IH Hnd Hfit Hks).
  unfold entries. rewrite filter_cons, (filter_cons (λ p, fst p = name)). rewrite (put_entry_fits (k, v)) by done. cbn [fst snd].
  destruct (decide (k = name)) as [->|Hne].
  - rewrite decide_True by (apply entry_of_spec; by exists v). cbn. f_equal. change (filter _ _) with (entries (put_entry <$> ps) name). rewrite IH.
    destruct (filter (λ p, fst p = name) ps) as [|p l] eqn:E; [done|]. exfalso. apply Hnew.
    assert (Hp : p ∈ filter (λ p, fst p = name) ps) by (rewrite E; left). apply list_elem_of_filter in Hp as [<- Hp]. by apply list_elem_of_fmap_2.
  - rewrite decide_False; [apply IH|]. intros He. apply Hne. rewrite <- (key_of_named name _ Hn He). by rewrite key_of_entry.
Qed.

Lemma getenv_entries env name : getenv env name = drop (S (length name)) <$> head (entries env name).
Proof. done. Qed.
Lemma entry_value name v : drop (S (length name)) (name ++ equals :: v) = v.
Proof. induction name; done. Qed.

(** The names whose inherited value is not dropped although one is put. *)
Definition not_dropped : list bytes := strs ["ALR_LANE"; "ALR_RESOLV_SOCK"; "LOCPATH"].
Lemma one_last {A} (l : list A) : (length l ≤ 1)%nat → last l = head l.
Proof. by destruct l as [|? [|? ?]]; [| |simpl; lia]. Qed.
Definition one_each (env : list bytes) (name : bytes) : Prop := (length (entries env name) ≤ 1)%nat.

Lemma keys_clean env c L lane sock exe st a0 ro cwd :
  Forall (λ k, equals ∉ k) (fst <$> puts env c L lane sock exe st a0 ro cwd).
Proof.
  destruct (puts_keys env c L lane sock exe st a0 ro cwd) as (_ & _ & Hks).
  eapply Forall_impl; [exact Hks|]. intros k Hk. rewrite !andb_true_iff in Hk. destruct Hk as [[Hk _] _]. by apply bool_decide_eq_true in Hk.
Qed.
Lemma getenv_build env c L lane sock exe st a0 ro cwd name :
  let put := puts env c L lane sock exe st a0 ro cwd in
  equals ∉ name → Forall (λ u, equals ∈ u) (envs ro) → Forall fits_buffer put →
  (length (filter (λ e, inherits ro e = true) env) + length (envs ro) ≤ ENV_CAP)%nat →
  getenv (build_env env c L lane sock exe st a0 ro cwd) name =
    match getenv (envs ro) name with
    | Some v => Some v
    | None => match (if may_inherit name then getenv env name else None) with Some v => Some v | None => put_value put name end
    end.
Proof.
  intros put Hn Hu Hfit Hcap. destruct (puts_keys env c L lane sock exe st a0 ro cwd) as (Hnd & _ & _). fold put in Hnd.
  pose proof (entries_build env c L lane sock exe st a0 ro cwd name Hn Hu Hcap) as E. fold put in E.
  rewrite put_entries in E by (done || apply keys_clean).
  rewrite !getenv_entries, E. destruct (entries (envs ro) name) as [|u us] eqn:Eu; [|done].
  rewrite bool_decide_true by done. cbn [head fmap option_fmap option_map].
  destruct (may_inherit name); cbn [app].
  - destruct (entries env name); [|done]. cbn [app fmap list_fmap head option_fmap option_map].
    destruct (put_value put name); [|done]. cbn [head fmap option_fmap option_map]. by rewrite entry_value.
  - destruct (put_value put name); [|done]. cbn [head fmap option_fmap option_map]. by rewrite entry_value.
Qed.


Definition sample_launch : launch :=
  mk_launch "/data/alr/ubuntu" "/data/alr/ubuntu/lib/ld-linux-aarch64.so.1" "/data/alr/ubuntu/lib" "/data/alr/ubuntu/usr/lib/alr/libalr_preload.so" true.
Definition sample_env : list bytes := strs
  ["PATH=/system/bin"; "TERM=xterm"; "ALR_ROOT=/old"; "FOO=1"; "ANDROID_DATA=/data"; "LC_TIME=ko"; "ALR_LOG=2"; "OLDPWD=/x"].
Definition sample_ro : runopts := mk_runopts None (strs ["FOO=2"; "PATH=/opt/bin"]) (-1) false.
Definition sample_build : list bytes :=
  build_env sample_env no_config sample_launch None None "/bin/ls" false "ls" sample_ro "/root".
(** A tool started inside a guest keeps the locale directory of the outer tree: two values
    of one name, and the one that is found is not that of the launch. *)
Example locpath_shadowed :
  let out := build_env (strs ["LOCPATH=/outer/usr/lib/locale"]) no_config sample_launch None None "/bin/ls" false "ls" runopts_init "/root" in
  getenv out "LOCPATH" = Some (str "/outer/usr/lib/locale") ∧ getenv_last out "LOCPATH" = Some (str "/data/alr/ubuntu/usr/lib/locale").
Proof. by vm_compute. Qed.
(** An option given twice leaves two assignments. *)
Example option_twice :
  let out := build_env [] no_config sample_launch None None "/bin/ls" false "ls" (mk_runopts None (strs ["A=1"; "A=2"]) (-1) false) "/root" in
  getenv out "A" = Some (str "1") ∧ getenv_last out "A" = Some (str "2").
Proof. by vm_compute. Qed.

(** The environment fits its vector: with the terminating NULL there are never more than
    [ALR_MAX_ENVP] slots used, at most 32 buffers are filled, every entry put is shorter
    than its buffer, and options are left out only when inherited entries fill the vector. *)
Theorem environment_bounds env c L lane sock exe st a0 ro cwd :
  let put := filter (λ e, user_set (envs ro) e = false) (put_entry <$> puts env c L lane sock exe st a0 ro cwd) in
  (length (build_env env c L lane sock exe st a0 ro cwd) + 1 ≤ ALR_MAX_ENVP)%nat ∧
  (length put ≤ 32)%nat ∧ Forall (λ e, length e < ALR_PBUF)%nat put ∧
  ((length (filter (λ e, inherits ro e = true) env) + length (envs ro) ≤ ENV_CAP)%nat → user_part env ro = envs ro).
Proof.
  intros put. destruct (puts_keys env c L lane sock exe st a0 ro cwd) as (_ & Hlen & _). rewrite length_fmap in Hlen.
  assert (Hput : (length put ≤ 22)%nat).
  { etransitivity; [apply length_filter|]. by rewrite length_fmap. }
  split; [|split; [lia|split]].
  - unfold build_env. fold put. rewrite !length_app. unfold user_part, inherited. rewrite !length_take. unfold ENV_CAP, ALR_MAX_ENVP. lia.
  - unfold put. apply Forall_forall. intros e [_ He]%list_elem_of_filter. apply list_elem_of_fmap in He as (p & -> & _).
    unfold put_entry, cut. rewrite length_take. assert (0 < ALR_PBUF)%nat by (apply Nat.ltb_lt; by vm_compute). lia.
  - intros Hcap. unfold user_part, inherited. rewrite (take_ge (filter _ env)) by lia. apply take_ge. lia.
Qed.
Lemma environment_bounds_witness :
  (length sample_build + 1 ≤ ALR_MAX_ENVP)%nat ∧ user_part sample_env sample_ro = envs sample_ro.
Proof.
  destruct (environment_bounds sample_env no_config sample_launch None None "/bin/ls" false "ls" sample_ro "/root") as (H1 & _ & _ & H2).
  split; [exact H1|apply H2]. apply Nat.leb_le. by vm_compute.
Defined.

(** * What the preload library reads *)

Lemma put_value_elem ps name v : NoDup (fst <$> ps) → (name, v) ∈ ps → put_value ps name = Some v.
Proof.
  unfold put_value. induction ps as [|[k w] ps IH]; intros Hnd Hin; [by apply elem_of_nil in Hin|].
  cbn [fmap list_fmap fst] in Hnd. apply NoDup_cons in Hnd as [Hnew Hnd]. rewrite filter_cons. cbn [fst].
  apply elem_of_cons in Hin as [[= -> ->]|Hin]; [by rewrite decide_True|].
  rewrite decide_False; [by apply IH|]. intros ->. apply Hnew. by apply (list_elem_of_fmap_2 fst _ (name, v)).
Qed.
Lemma put_value_none ps name : (name ∉ fst <$> ps) → put_value ps name = None.
Proof.
  intros H. unfold put_value. destruct (filter _ ps) as [|p l] eqn:E; [done|]. exfalso. apply H.
  assert (Hp : p ∈ filter (λ p, fst p = name) ps) by (rewrite E; left). apply list_elem_of_filter in Hp as [<- Hp]. by apply list_elem_of_fmap_2.
Qed.
(** The options set none of the names the tool owns. *)
Lemma reserved_absent ro name : Forall (λ u, env_is_reserved u = false) (envs ro) → (name ++ [equals] ∈ own) → entries (envs ro) name = [].
Proof.
  intros Hr Ho. destruct (entries (envs ro) name) as [|u us] eqn:E; [done|]. exfalso.
  assert (Hu : u ∈ entries (envs ro) name) by (rewrite E; left). apply list_elem_of_filter in Hu as [He Hu].
  rewrite Forall_forall in Hr. specialize (Hr _ Hu). unfold env_is_reserved in Hr. rewrite !orb_false_iff in Hr. destruct Hr as [[[[Hr _] _] _] _].
  apply not_true_iff_false in Hr. apply Hr. apply existsb_exists. exists (name ++ [equals]). split; [by apply list_elem_of_In|exact He].
Qed.

Lemma own_value env c L lane sock exe st a0 ro cwd name :
  let put := puts env c L lane sock exe st a0 ro cwd in
  Forall (λ u, equals ∈ u) (envs ro) → Forall (λ u, env_is_reserved u = false) (envs ro) → Forall fits_buffer put →
  (length (filter (λ e, inherits ro e = true) env) + length (envs ro) ≤ ENV_CAP)%nat →
  (name ++ [equals] ∈ own) → equals ∉ name →
  getenv (build_env env c L lane sock exe st a0 ro cwd) name =
    match (if may_inherit name then getenv env name else None) with Some v => Some v | None => put_value put name end.
Proof.
  intros put Hu Hr Hf Hc Ho Hn. rewrite getenv_build by done. rewrite (getenv_entries (envs ro)), reserved_absent by done. done.
Qed.
Definition orelse {A} (a b : option A) : option A := match a with Some _ => a | None => b end.
Lemma orelse_none {A} (a : option A) : orelse a None = a.
Proof. by destruct a. Qed.
Lemma put_value_app ps qs name : put_value (ps ++ qs) name = orelse (put_value ps name) (put_value qs name).
Proof.
  unfold put_value. rewrite filter_app. by destruct (filter _ ps).
Qed.
(** Drops the parts of [puts] that do not hold the name. *)
Ltac part_absent := unfold view, fakeroot_puts, count_puts, when, when_some; repeat case_match; reflexivity.
Ltac absent_parts := unfold puts; rewrite !put_value_app;
  repeat match goal with
         | |- context [put_value ?p ?n] =>
             lazymatch goal with |- put_value p n = _ => fail | _ => idtac end;
             replace (put_value p n) with (@None bytes) by (symmetry; part_absent); cbn [orelse]; rewrite ?orelse_none
         end.
Section part_values.
Context (env : list bytes) (c : alr_config) (L : launch) (lane sock : option bytes) (exe : bytes) (st : bool) (a0 : bytes) (ro : runopts) (cwd : bytes).
Let put := puts env c L lane sock exe st a0 ro cwd.
Lemma put_preload : put_value put "ALR_PRELOAD" = if have_preload L then Some (l_preload L) else None.
Proof. unfold put. absent_parts.
  by destruct (have_preload L). Qed.
Lemma put_lane : put_value put "ALR_LANE" = lane.
Proof. unfold put. absent_parts. by destruct lane. Qed.
Lemma put_fakeroot : put_value put "ALR_FAKEROOT" = snd <$> head (fakeroot_puts env c ro).
Proof.
  unfold put. absent_parts. unfold fakeroot_puts, when. destruct (0 <=? ro_fakeroot ro); [done|].
  by destruct (getenv env "ALR_FAKEROOT"), (has_fakeroot c).
Qed.
Lemma put_count : put_value put "ALR_COUNT" = getenv env "ALR_COUNT".
Proof. unfold put. absent_parts. unfold count_puts. by destruct (getenv env "ALR_COUNT"). Qed.
End part_values.

(** What [getenv] finds of the variables the library reads. *)
Record launch_vars (env out : list bytes) (c : alr_config) (L : launch) (lane : option bytes) (exe : bytes) (ro : runopts) : Prop := mk_vars {
  lv_root : getenv out "ALR_ROOT" = Some (l_root L);
  lv_ldso : getenv out "ALR_LDSO" = Some (l_ldso L);
  lv_libpath : getenv out "ALR_LIBPATH" = Some (l_libpath L);
  lv_exe : getenv out "ALR_GUEST_EXE" = Some exe;
  lv_preload : getenv out "ALR_PRELOAD" = if have_preload L then Some (l_preload L) else None;
  lv_lane : getenv env "ALR_LANE" = None → getenv out "ALR_LANE" = lane;
  lv_fakeroot : getenv out "ALR_FAKEROOT" = snd <$> head (fakeroot_puts env c ro);
  lv_count : getenv out "ALR_COUNT" = getenv env "ALR_COUNT";
}.
Lemma launch_vars_build env c L lane sock exe st a0 ro cwd :
  Forall (λ u, equals ∈ u) (envs ro) → Forall (λ u, env_is_reserved u = false) (envs ro) →
  Forall fits_buffer (puts env c L lane sock exe st a0 ro cwd) →
  (length (filter (λ e, inherits ro e = true) env) + length (envs ro) ≤ ENV_CAP)%nat →
  launch_vars env (build_env env c L lane sock exe st a0 ro cwd) c L lane exe ro.
Proof.
  intros Hu Hr Hf Hc. set (out := build_env env c L lane sock exe st a0 ro cwd). set (put := puts env c L lane sock exe st a0 ro cwd) in *.
  destruct (puts_keys env c L lane sock exe st a0 ro cwd) as (Hnd & _ & _). fold put in Hnd.
  assert (Hown : ∀ name, (name ++ [equals] ∈ own) → equals ∉ name → getenv out name =
    match (if may_inherit name then getenv env name else None) with Some v => Some v | None => put_value put name end).
  { intros name. by apply own_value. }
  assert (Hval : ∀ name o, (name ++ [equals] ∈ own) → equals ∉ name → may_inherit name = false → put_value put name = o → getenv out name = o).
  { intros name o H1 H2 H3 <-. by rewrite Hown, H3. }
  assert (Hhead : ∀ name v, bool_decide (name ++ [equals] ∈ own) && bool_decide (equals ∉ name) && negb (may_inherit name) = true →
    (name, v) ∈ put → getenv out name = Some v).
  { intros name v. rewrite !andb_true_iff, !bool_decide_eq_true, negb_true_iff. intros [[H1 H2] H3] H4. apply Hval; [done..|]. by apply put_value_elem. }
  constructor.
  - apply Hhead; [done|unfold put, puts; left].
  - apply Hhead; [done|unfold put, puts; right; right; left].
  - apply Hhead; [done|unfold put, puts; do 3 right; left].
  - apply Hhead; [done|]. unfold put, puts. do 4 (apply elem_of_app; right). left.
  - apply Hval; [by apply (bool_decide_unpack _)|by apply (bool_decide_unpack _)|done|apply put_preload].
  - intros Hlane. rewrite Hown by (by apply (bool_decide_unpack _)). rewrite Hlane. cbn. apply put_lane.
  - apply Hval; [by apply (bool_decide_unpack _)|by apply (bool_decide_unpack _)|done|apply put_fakeroot].
  - apply Hval; [by apply (bool_decide_unpack _)|by apply (bool_decide_unpack _)|done|apply put_count].
Qed.
Definition starts_one (v : option bytes) : bool := match v with Some (b :: _) => bool_decide (b = "1"%byte) | _ => false end.

(** * The options *)

(** What an accepted command line leaves: a suffix of the arguments, and options that meet
    the conditions above. *)
Definition accepted (ro : runopts) : Prop :=
  Forall (λ u, equals ∈ u) (envs ro) ∧ Forall (λ u, env_is_reserved u = false) (envs ro) ∧
  (length (envs ro) ≤ ALR_MAX_USER_ENV)%nat ∧ ro_fakeroot ro ∈ [-1; 0; 1].
Lemma has_byte_elem b s : has_byte b s = true → b ∈ s.
Proof.
  induction s as [|x s IH]; [done|]. cbn. rewrite orb_true_iff, bool_decide_eq_true. intros [->|H]; [left|right; auto].
Qed.
Lemma flag_accepted o a o' : flag o a = inr o' → accepted (o_ro o) → accepted (o_ro o').
Proof.
  unfold flag. destruct o as [[w es f s] d l]. cbn [o_ro]. intros H (H1 & H2 & H3 & H4). unfold with_ro in H. cbn in *.
  repeat case_match; simplify_eq; (split; [done|split; [done|split; [done|]]]); cbn; [right; right; left|right; left|done..].
Qed.
Lemma option_accepted o a v o' : option_arg o a v = Some (inr o') → accepted (o_ro o) → accepted (o_ro o').
Proof.
  unfold option_arg, one_env. destruct o as [[w es f s] d l]. cbn [o_ro]. unfold with_ro. intros H Ha.
  repeat case_match; simplify_eq; try done. destruct Ha as (Ha1 & Ha2 & Ha3 & Ha4). unfold accepted. cbn [o_ro envs ro_fakeroot] in *. split; [|split; [|split; [|done]]].
  - apply Forall_app_2; [done|]. constructor; [|done]. apply has_byte_elem. by destruct (has_byte equals v).
  - apply Forall_app_2; [done|]. by constructor.
  - rewrite length_app. cbn [length]. lia.
Qed.
Lemma parse_accepted stop o args o' rest : parse_runopts stop o args = inr (o', rest) → accepted (o_ro o) →
  accepted (o_ro o') ∧ rest `suffix_of` args.
Proof.
  remember (length args) as n eqn:En. revert o args En. induction n as [n IH] using lt_wf_ind. intros o args -> H Ha.
  destruct args as [|a args]; cbn [parse_runopts] in H; [simplify_eq; by split|].
  destruct (stop && _). { simplify_eq. split; [done|]. by exists [a]. }
  destruct (negb _ || _). { simplify_eq. by split. }
  assert (Halone : (match flag o a with inl t => inl t | inr o => parse_runopts stop o args end) = inr (o', rest) →
    accepted (o_ro o') ∧ rest `suffix_of` a :: args).
  { destruct (flag o a) as [|o1] eqn:E; [done|]. intros H'. apply flag_accepted in E; [|done].
    destruct (IH (length args) ltac:(simpl; lia) o1 args eq_refl H' E) as [? [k ->]]. split; [done|]. by exists (a :: k). }
  destruct args as [|v args]; [by apply Halone|]. destruct (option_arg o a v) as [[t|o1]|] eqn:E; [done| |by apply Halone].
  apply option_accepted in E; [|done]. destruct (IH (length args) ltac:(simpl; lia) o1 args eq_refl H E) as [? [k ->]].
  split; [done|]. by exists (a :: v :: k).
Qed.
Example options_sample :
  parse_runopts true (mk_options runopts_init (str "d") 0) (strs ["-w"; "/tmp"; "-e"; "A=1"; "--no-fakeroot"; "-v"; "--"; "-x"]) =
    inr (mk_options (mk_runopts (Some (str "/tmp")) (strs ["A=1"]) 0 false) (str "d") 1, strs ["-x"]) ∧
  parse_runopts false (mk_options runopts_init (str "d") 0) (strs ["-e"; "ALR_ROOT=/x"; "ls"]) = inl (str "env-reserved") ∧
  parse_runopts false (mk_options runopts_init (str "d") 0) (strs ["-w"]) = inl (str "bad-option").
Proof. by vm_compute. Qed.

(** An inherited lane or resolver socket is not replaced by that of the launch. *)
Example lane_shadowed :
  let out := build_env (strs ["ALR_LANE=/old/lane"; "ALR_RESOLV_SOCK=/old/sock"]) no_config sample_launch (Some (str "/new/lane"))
    (Some (str "/new/sock")) "/bin/ls" false "ls" runopts_init "/root" in
  g_lane (alr_init (getenv out)) = Some (str "/old/lane") ∧ g_resolv_sock (alr_init (getenv out)) = Some (str "/old/sock").
Proof. by vm_compute. Qed.
(** The library path of the loader is longer than the entry that carries it. *)
Example libpath_cut :
  let lp := replicate 5000 "a"%byte in
  let out := build_env [] no_config (mk_launch "/r" "/r/ld" lp "" false) None None "/bin/ls" false "ls" runopts_init "/root" in
  length <$> g_libpath (alr_init (getenv out)) = Some 4083%nat.
Proof. by vm_compute. Qed.
(** The resolver socket is not among the names an option may not set. *)
Example resolver_not_reserved : env_is_reserved "ALR_RESOLV_SOCK=/x" = false.
Proof. done. Qed.
