(* ===== verification/CliRun.v ===== *)
(** * The command line tool: a launch ([runtime/alr/src/cli/alr.c])

    What [alr run], [exec] and [shell] start: the tree is prepared, the command is looked
    up in it, scripts lead to their interpreters, the working directory is mapped, and the
    program is run by the loader of the tree, by the lane, or as it is.  Files, directories
    and what other processes do are answers of the system. *)

From S2P Require Import Prelude CppMap Bytes PathSpec PathRule ElfPlan ExecPlan ExecRule AlrElf PreloadPath PreloadExec PreloadNss CliConfig CliEnv.

Local Open Scope Z_scope.

Definition ALR_MAX_ARGV : nat := 4096.
Definition LIBPATH_SIZE : nat := (2 * ALR_PBUF)%nat.
Definition libdirs : list bytes := strs
  ["/lib/aarch64-linux-gnu"; "/usr/lib/aarch64-linux-gnu"; "/lib"; "/usr/lib"; "/usr/local/lib/aarch64-linux-gnu"].

(** How the program is started: by replacing the tool, or under its supervisor.  The
    environment is [None] for that of the tool. *)
Inductive how := Replaced | Supervised.
Record job := mk_job { j_how : how; j_file : bytes; j_argv : list bytes; j_env : option (list bytes); j_cwd : bytes }.

Section launch.
(** The environment, settings and path of the tool; the system; whether a file may be read,
    the canonical form of a path, the working directory, whether a directory can be entered,
    [/proc/self/status], and the socket of a resolver started for a directory. *)
Context (env : list bytes) (c : alr_config) (self : bytes) (sys : system).
Context (readable : bytes → bool) (canonical : bytes → option bytes) (cwd : option bytes) (can_enter : bytes → bool).
Context (status : option bytes) (resolvd_start : bytes → option bytes).

(** ** [prepare] *)

(** The directories of the loader; [None]: a print begins behind the buffer. *)
Fixpoint libpath_dirs (root : bytes) (dirs : list bytes) (lp : bytes) : option bytes :=
  match dirs with
  | [] => Some (take (LIBPATH_SIZE - 1) lp)
  | d :: dirs =>
      if decide (LIBPATH_SIZE < length lp)%nat then None
      else libpath_dirs root dirs (lp ++ (if bool_decide (lp = []) then [] else [colon_byte]) ++ root ++ d)
  end.
Definition prepare (name : bytes) : option (bytes + launch) :=
  match distro_root (getenv env) c (Some name) with
  | inl t => Some (inl t)
  | inr (tree, _) =>
      let root := alr_trim_root tree in
      if negb (is_directory sys root) then Some (inl (str "rootfs-missing"))
      else
        let root := match canonical root with
                    | Some r => if decide (length r < ALR_PBUF)%nat then alr_trim_root r else root
                    | None => root
                    end in
        let ldso := cut ALR_PBUF (root ++ str "/lib/ld-linux-aarch64.so.1") in
        if negb (may_execute sys ldso) then Some (inl (str "ldso-missing"))
        else
          lp ← libpath_dirs root libdirs [];
          let preload := cut ALR_PBUF (root ++ str "/usr/lib/alr/libalr_preload.so") in
          Some (inr (mk_launch root ldso lp preload (readable preload)))
  end.

(** ** The command *)

Section tree.
Context (L : launch).

(** [resolve] *)
Definition command_candidates (cmd : bytes) : list bytes :=
  (λ d, cut ALR_PBUF (l_root L ++ d ++ slash :: cmd)) <$>
  filter (λ d, d ≠ []) (split_on colon_byte (default default_path (env_set (getenv env) "ALR_GUEST_PATH"))).
Definition resolve (cmd : bytes) : option bytes :=
  if has_byte slash cmd then
    match rw_string cmd (alr_rw cmd (l_root L) ALR_PBUF) with
    | None => None
    | Some h => let out := cut ALR_PBUF h in if may_execute sys out then Some out else None
    end
  else head (filter (λ h, may_execute sys h = true) (command_candidates cmd)).

(** What the header and the program headers of a file say. *)
Definition probe (host : bytes) : option classified :=
  match open_file sys host with
  | inl _ => None
  | inr content => Some (alr_classify (take ALR_PROBE_BYTES content) (Some (file_reader content)) true (Some (Z.of_nat ALR_PBUF)))
  end.
Definition exe_interp (host : bytes) : bytes := match probe host with Some k => c_str (interp_out k) | None => [] end.
Definition exe_is_static (host : bytes) : bool :=
  match probe host with Some k => bool_decide (kind k = ALR_EXE_ELF_STATIC) | None => false end.
(** [exe_is_go]; [None]: the search does not end. *)
Definition exe_is_go (host : bytes) : option bool :=
  match open_file sys host with
  | inl _ => Some false
  | inr content => alr_elf_is_go note_fuel (take ALR_PROBE_BYTES content) (Some (file_reader content))
  end.

(** [libpath_add_rpath] *)
Fixpoint rpath_loop (toks : list bytes) (lp : bytes) : bytes :=
  match toks with
  | [] => lp
  | tok :: toks =>
      let cand := l_root L ++ tok in
      if negb (starts_slash tok) then rpath_loop toks lp
      else if decide (ALR_PBUF ≤ length cand)%nat then rpath_loop toks lp
      else if negb (is_directory sys cand) then rpath_loop toks lp
      else
        let lp := lp ++ colon_byte :: cand in
        if decide (LIBPATH_SIZE - 1 ≤ length lp)%nat then take (LIBPATH_SIZE - 1) lp else rpath_loop toks lp
  end.
Definition libpath_add_rpath (host : bytes) : launch :=
  match open_file sys host with
  | inl _ => L
  | inr content =>
      match alr_rpath (Some (file_reader content)) (take ALR_PROBE_BYTES content) ALR_PBUF with
      | None | Some [] => L
      | Some rpath => mk_launch (l_root L) (l_ldso L) (rpath_loop (tokens rpath) (l_libpath L)) (l_preload L) (have_preload L)
      end
  end.

(** [shebang_resolve]: the program and the arguments in front of those given.  [n] is
    what is left of the depth.  [None]: the guest path of a script is read behind the end
    of its host path, which is shorter than the root. *)
Definition add_level (sb : alr_shebang) (script : bytes) (pre : list bytes) : list bytes :=
  let add := (if has_arg sb then [arg sb] else []) ++ [cut ALR_PBUF script] in
  if decide (length pre + length add ≤ 4)%nat then add ++ pre else pre.
Fixpoint shebang_resolve (n : nat) (host : bytes) (pre : list bytes) : option (bytes + bytes * list bytes) :=
  match n with
  | 0%nat => Some (inl (str "boot-enoent"))
  | S n =>
      match probe host with
      | None => Some (inl (str "boot-enoent"))
      | Some k =>
          if negb (bool_decide (kind k = ALR_EXE_SHEBANG)) then Some (inr (host, pre))
          else
            let sb := default no_shebang (shebang k) in
            match resolve (interp sb) with
            | None => Some (inl (str "boot-enoent"))
            | Some i =>
                if decide (length host < length (l_root L))%nat then None
                else shebang_resolve n i (add_level sb (drop (length (l_root L)) host) pre)
            end
      end
  end.

(** ** The working directory: where to go, and the guest's view of it *)

Definition auto_workdir : bytes :=
  match cwd with
  | Some d =>
      if is_prefix (l_root L) d then
        match drop (length (l_root L)) d with
        | [] => [slash]
        | b :: r => if bool_decide (b = slash) then b :: r else str "/root"
        end
      else str "/root"
  | None => str "/root"
  end.
Definition map_workdir (ro : runopts) : bytes + bytes * bytes :=
  let wd := default auto_workdir (workdir ro) in
  if negb (starts_slash wd) then inl (str "bad-workdir")
  else match rw_string wd (alr_rw wd (l_root L) ALR_PBUF) with
       | None => inl (str "bad-workdir")
       | Some h =>
           let target := cut ALR_PBUF h in
           if can_enter target then inr (target, cut ALR_PBUF (alr_guest_canon target (l_root L) ALR_PBUF))
           else inl (str "workdir-enoent")
       end.

(** ** [cmd_run] *)

(** The absolute arguments of a static program that exist below the root, [m] at most,
    become host paths. *)
Fixpoint host_args (m : nat) (args : list bytes) : list bytes :=
  match args, m with
  | [], _ => []
  | a :: args, S m' =>
      let cand := cut ALR_PBUF (l_root L ++ a) in
      if starts_slash a && exists_file sys cand then cand :: host_args m' args else a :: host_args m args
  | args, 0%nat => args
  end.
Definition host_pre (p : bytes) : bytes :=
  let cand := cut ALR_PBUF (l_root L ++ p) in if starts_slash p && exists_file sys cand then cand else p.
Definition is_host_program (host : bytes) : bool :=
  let i := exe_interp host in
  negb (bool_decide (i = [])) && negb (exists_file sys (cut ALR_PBUF (l_root L ++ i))) && exists_file sys i.
(** Appends while two slots of the vector are free. *)
Definition push_av (av args : list bytes) : list bytes := av ++ take (ALR_MAX_ARGV - 2 - length av) args.

(** [already_traced] *)
Definition already_traced : bool :=
  match status with
  | None => false
  | Some s =>
      match filter (λ l, is_prefix "TracerPid:" l = true) (c_str <$> default [] (pieces 512 s)) with
      | l :: _ => negb (fst (strtol (drop 10 l)) =? 0)
      | [] => false
      end
  end.
Definition resolver : option bytes :=
  match resolvd_start (default (str "/tmp") (env_set (getenv env) "TMPDIR")) with
  | Some s => Some s
  | None => resolvd_start (cut ALR_PBUF (l_root L ++ str "/tmp"))
  end.
Definition lane : option bytes := lane_path env self (may_execute sys) canonical.

Definition run_host (host : bytes) (args : list bytes) (dir : bytes) : job :=
  mk_job Replaced host (push_av [host] (tail args)) None dir.
Definition lane_drops (e : bytes) : bool := is_prefix "LD_" e || is_prefix "ALR_" e || is_prefix "LOCPATH=" e.
Definition run_lane (l guest_cmd a0 : bytes) (args : list bytes) (ro : runopts) (dir gcwd : bytes) : job :=
  let ge := build_env env c L lane None guest_cmd false a0 ro gcwd in
  let fake := existsb (λ e, bool_decide (e = str "ALR_FAKEROOT=1")) ge in
  mk_job Replaced l
    (push_av ([l; str "-r"; l_root L] ++ strs ["-b"; "/proc:/proc"; "-b"; "/dev:/dev"; "-b"; "/sys:/sys"] ++
             (if fake then [str "--fakeroot"] else []) ++ [str "--"; guest_cmd]) (tail args))
    (Some (take (ALR_MAX_ENVP - 1) (filter (λ e, lane_drops e = false) ge))) dir.
Definition loader_av (host a0 : bytes) (pre : list bytes) : list bytes :=
  [l_ldso L; str "--library-path"; l_libpath L; str "--inhibit-cache"; str "--argv0"; a0] ++
  (if have_preload L then [str "--preload"; l_preload L] else []) ++ [host] ++ pre.
Definition run_loader (host guest_cmd a0 : bytes) (pre : list bytes) (args : list bytes) (login static : bool) (ro : runopts) (dir gcwd : bytes) : job :=
  let av := loader_av host a0 pre in
  mk_job (if no_supervisor ro || already_traced then Replaced else Supervised) (l_ldso L)
    (if login then av ++ [str "-l"] else push_av av (if static then host_args 16 (tail args) else tail args))
    (Some (build_env env c L lane resolver guest_cmd static a0 ro gcwd)) dir.
End tree.

(** What follows when the tree is ready.  [None]: [shebang_resolve] and [exe_is_go], or a
    login shell in the lane, which has no arguments to name. *)
Definition launch_command (L : launch) (args : list bytes) (login : bool) (ro : runopts) : option (bytes + job) :=
  let guest_cmd := if login then str "/bin/bash" else hd [] args in
  match resolve L guest_cmd with
  | None => Some (inl (str "boot-enoent"))
  | Some h =>
      res ← shebang_resolve L (S ALR_SHEBANG_MAX_DEPTH) h [];
      match res with
      | inl t => Some (inl t)
      | inr (host, pre) =>
          match map_workdir L ro with
          | inl t => Some (inl t)
          | inr (dir, gcwd) =>
              let static := exe_is_static host in
              let L := if static then L else libpath_add_rpath L host in
              let pre := if static then host_pre L <$> pre else pre in
              if is_host_program L host then Some (inr (run_host host args dir))
              else
                go ← (if static then Some true else exe_is_go host);
                match (if go && negb (no_supervisor ro) then lane else None), args with
                | Some _, [] => None
                | Some l, a0 :: _ => Some (inr (run_lane L l guest_cmd a0 args ro dir gcwd))
                | None, _ =>
                    let a0 := if login then str "-bash" else if bool_decide (pre = []) then hd [] args else host in
                    Some (inr (run_loader L host guest_cmd a0 pre args login static ro dir gcwd))
                end
          end
      end
  end.
Definition cmd_run (name : bytes) (args : list bytes) (login : bool) (ro : runopts) : option (bytes + job) :=
  res ← prepare name;
  match res with inl t => Some (inl t) | inr L => launch_command L args login ro end.
End launch.

(** * Classification with a larger buffer *)

Lemma find_interp_larger pread eh a b n i s : a ≤ b →
  find_interp_loop pread eh a n i = Some (Some s) → find_interp_loop pread eh b n i = Some (Some s).
Proof.
  intros Hab. revert i. induction n as [|n IH]; intros i; cbn [find_interp_loop]; [done|].
  destruct (phdr_at pread eh i) as [ph|]; [|done]. destruct (negb _); [apply IH|].
  destruct (p_filesz ph =? 0); [done|]. cbn [orb]. destruct (Z.ltb_spec a (p_filesz ph)); [done|].
  rewrite (proj2 (Z.ltb_ge b _)) by lia. done.
Qed.
Lemma classify_larger head pread a b i : a ≤ b →
  alr_classify head (Some pread) true (Some a) = mk_classified ALR_EXE_ELF_DYNAMIC None i →
  alr_classify head (Some pread) true (Some b) = mk_classified ALR_EXE_ELF_DYNAMIC None i.
Proof.
  intros Hab. unfold alr_classify. cbn [negb]. destruct (is_prefix "#!" head); [by destruct (alr_parse_shebang _)|].
  destruct (_ <? _)%nat; [done|]. destruct (negb _); [done|]. destruct (negb _); [done|]. destruct (Z.eqb_spec a 0); [done|].
  destruct (find_interp pread _ a) as [[s|]|] eqn:E; try done. intros [= <-]. unfold find_interp in *. destruct (negb _); [done|].
  rewrite (find_interp_larger _ _ a b _ _ _ Hab E). destruct (Z.eqb_spec b 0) as [->|]; [|done]. exfalso.
  revert E. generalize 0%nat. generalize (Z.to_nat (e_phnum (Ehdr_of head))). intros m. clear -Hab n. induction m as [|m IH]; intros i; cbn [find_interp_loop]; [done|].
  destruct (phdr_at _ _ _) as [ph|] eqn:Ep; [|done]. destruct (negb _); [apply IH|].
  apply phdr_filesz_nonneg in Ep. destruct (Z.eqb_spec (p_filesz ph) 0); [done|]. cbn [orb]. destruct (Z.ltb_spec a (p_filesz ph)); [done|]. lia.
Qed.

(** * Scripts *)

Section scripts.
Context (env : list bytes) (sys : system) (L : launch).

(** A file leads through scripts to a program; the arguments in front of those given are
    those of the kernel: the outer script is an argument of the inner one. *)
Definition level_args (sb : alr_shebang) (host : bytes) : list bytes :=
  (if has_arg sb then [arg sb] else []) ++ [cut ALR_PBUF (drop (length (l_root L)) host)].
Inductive chain : bytes → list bytes → bytes → Prop :=
  | chain_end host k : probe sys host = Some k → kind k ≠ ALR_EXE_SHEBANG → chain host [] host
  | chain_script host k sb i pre h : probe sys host = Some k → kind k = ALR_EXE_SHEBANG → shebang k = Some sb →
      resolve env sys L (interp sb) = Some i → (length (l_root L) ≤ length host)%nat → chain i pre h →
      chain host (pre ++ level_args sb host) h.
Lemma chain_resolved host pre h acc n : chain host pre h → (length (pre ++ acc) ≤ 4)%nat → (length pre < n)%nat →
  shebang_resolve env sys L n host acc = Some (inr (h, pre ++ acc)).
Proof.
  intros Hc. revert acc n. induction Hc as [host k Hp Hk|host k sb i pre h Hp Hk Hs Hi Hl Hc IH]; intros acc n Hlen Hn;
    (destruct n as [|n]; [lia|]); cbn [shebang_resolve]; rewrite Hp.
  - by rewrite bool_decide_false.
  - rewrite bool_decide_true by done. cbn [negb]. rewrite Hs. cbn [default from_option id]. rewrite Hi, decide_False by lia.
    rewrite <- app_assoc. unfold add_level. fold (level_args sb host). rewrite !length_app in *.
    assert (0 < length (level_args sb host))%nat by (unfold level_args; rewrite length_app; simpl; lia).
    rewrite decide_True by lia. apply IH; [rewrite !length_app; lia|lia].
Qed.
End scripts.

Lemma rpath_fields sys L h : let L' := libpath_add_rpath sys L h in
  l_root L' = l_root L ∧ l_ldso L' = l_ldso L ∧ l_preload L' = l_preload L ∧ have_preload L' = have_preload L.
Proof. unfold libpath_add_rpath. destruct (open_file sys h); [done|]. destruct (alr_rpath _ _ _) as [[|b r]|]; done. Qed.
Lemma push_all av args : (length av + length args < 4000)%nat → push_av av args = av ++ args.
Proof. intros H. unfold push_av. rewrite take_ge; [done|]. unfold ALR_MAX_ARGV. lia. Qed.
Lemma loader_av_length L h a0 pre : (length (loader_av L h a0 pre) ≤ 9 + length pre)%nat.
Proof. unfold loader_av. rewrite !length_app. destruct (have_preload L); simpl; lia. Qed.

(** A program of the tree that the loader runs. *)
Definition loader_program (sys : system) (L : launch) (h : bytes) : Prop :=
  (∃ k, probe sys h = Some k ∧ kind k = ALR_EXE_ELF_DYNAMIC) ∧ exe_is_go sys h = Some false ∧ is_host_program sys L h = false.

Section runs.
Context (env : list bytes) (c : alr_config) (self : bytes) (sys : system).
Context (canonical : bytes → option bytes) (cwd : option bytes) (can_enter : bytes → bool).
Context (status : option bytes) (resolvd_start : bytes → option bytes).
Let go := launch_command env c self sys canonical cwd can_enter status resolvd_start.
Let lane := lane env self sys canonical.
Let sock (L : launch) := resolver env resolvd_start L.

Lemma loader_launch L cmd args ro h0 pre h dir gcwd :
  resolve env sys L cmd = Some h0 → chain env sys L h0 pre h → (length pre ≤ 4)%nat → loader_program sys L h →
  map_workdir cwd can_enter L ro = inr (dir, gcwd) → (length args < 3000)%nat →
  let L' := libpath_add_rpath sys L h in
  let a0 := if bool_decide (pre = []) then cmd else h in
  go L (cmd :: args) false ro = Some (inr
    (mk_job (if no_supervisor ro || already_traced status then Replaced else Supervised) (l_ldso L)
       (loader_av L' h a0 pre ++ args)
       (Some (build_env env c L' lane (sock L') cmd false a0 ro gcwd)) dir)).
Proof.
  intros Hr Hc Hp ((k & Hk & Hd) & Hg & Hh) Hw Ha L' a0. unfold go, launch_command. cbn [hd tail]. rewrite Hr.
  pose proof (chain_resolved env sys L h0 pre h [] (S ALR_SHEBANG_MAX_DEPTH) Hc) as E. rewrite app_nil_r in E.
  rewrite E by (first [done|unfold ALR_SHEBANG_MAX_DEPTH; lia]). cbn [mbind option_bind]. rewrite Hw.
  assert (exe_is_static sys h = false) as -> by (unfold exe_is_static; rewrite Hk; by rewrite bool_decide_false by congruence).
  fold L'. destruct (rpath_fields sys L h) as (Er & El & Ep & Eh). fold L' in Er, El, Ep, Eh.
  assert (is_host_program sys L' h = false) as -> by (unfold is_host_program in *; by rewrite Er).
  rewrite Hg. cbn [mbind option_bind andb]. unfold run_loader. rewrite El. fold a0. cbn [tail].
  rewrite push_all by (pose proof (loader_av_length L' h a0 pre); lia). done.
Qed.

(** An absolute command of the tree whose file is a dynamic program of the tree, without a
    run path. *)
Record direct_program (L : launch) (cmd h : bytes) : Prop := mk_direct {
  dp_abs : starts_slash cmd = true;
  dp_host : rw_string cmd (alr_rw cmd (l_root L) ALR_PBUF) = Some h ∧ (length h < ALR_PBUF)%nat ∧ may_execute sys h = true;
  dp_file : ∃ content i, open_file sys h = inr content ∧
    alr_classify (take ALR_PROBE_BYTES content) (Some (file_reader content)) true (Some ALR_SHEBANG_IBUF) =
      mk_classified ALR_EXE_ELF_DYNAMIC None i ∧
    alr_elf_is_go note_fuel (take ALR_PROBE_BYTES content) (Some (file_reader content)) = Some false ∧
    default [] (alr_rpath (Some (file_reader content)) (take ALR_PROBE_BYTES content) ALR_PBUF) = [] ∧
    exists_file sys (cut ALR_PBUF (l_root L ++ c_str i)) = true;
}.
Lemma direct_launch L cmd h : direct_program L cmd h →
  resolve env sys L cmd = Some h ∧ chain env sys L h [] h ∧ loader_program sys L h ∧ libpath_add_rpath sys L h = L.
Proof.
  intros [Habs (Hrw & Hlen & Hx) (content & i & Ho & Hk & Hg & Hrp & Hin)].
  assert (Hp : probe sys h = Some (mk_classified ALR_EXE_ELF_DYNAMIC None i)).
  { unfold probe. rewrite Ho. f_equal. apply (classify_larger _ _ ALR_SHEBANG_IBUF); [by vm_compute|done]. }
  split; [|split; [|split]].
  - unfold resolve. assert (has_byte slash cmd = true) as ->.
    { destruct cmd as [|b r]; [done|]. cbn in *. by rewrite Habs. }
    rewrite Hrw. unfold cut. rewrite take_ge by lia. by rewrite Hx.
  - by eapply chain_end.
  - split; [by eexists|]. split; [unfold exe_is_go; by rewrite Ho|].
    unfold is_host_program, exe_interp. rewrite Hp. cbn [interp_out]. rewrite Hin. cbn. by rewrite andb_false_r.
  - unfold libpath_add_rpath. rewrite Ho. by destruct (alr_rpath _ _ _) as [[|b r]|].
Qed.
Lemma direct_exec cfg L cmd h args envp :
  direct_program L cmd h → g_root cfg = l_root L → g_ldso cfg = Some (l_ldso L) → g_libpath cfg = Some (l_libpath L) →
  g_preload cfg = (if have_preload L then Some (l_preload L) else None) → (length args < 3000)%nat →
  exec_dispatch cfg sys cmd (cmd :: args) envp =
    Some (inr (mk_call (l_ldso L) (loader_av L h cmd [] ++ args) (env_set_exe cfg envp cmd))).
Proof.
  intros [Habs (Hrw & Hlen & Hx) (content & i & Ho & Hk & Hg & Hrp & Hin)] Hr Hld Hlp Hpre Ha.
  assert (Hres : resolve_loop cfg sys ALR_SHEBANG_MAX_DEPTH no_shebang (At cmd) [] =
    Some (inr (mk_resolved no_shebang (At cmd) h ALR_EXE_ELF_DYNAMIC (c_str i) false []))).
  { unfold ALR_SHEBANG_MAX_DEPTH. cbn [resolve_loop deref]. unfold rw. rewrite Hr, Hrw, Ho, Hk. cbn [kind interp_out].
    destruct (bool_decide _ && _); [rewrite Hg|]; done. }
  rewrite (loader_dispatch cfg sys cmd (l_ldso L) (cmd :: args) envp _ (Some (l_libpath L)) Hres); try done; cbn [r_lvl r_host r_cur r_sb deref].
  - rewrite (kernel_argv_none cfg sys).
    { cbn [hd tail]. unfold loader_prefix, loader_av. rewrite Hpre, app_nil_r. by destruct (have_preload L). }
    unfold script_of, classified_as, rw. rewrite Hr, Hrw. cbn [mbind option_bind]. rewrite Ho, Hk. done.
  - simpl. lia.
  - unfold is_host_binary. cbn [r_interp]. unfold cut in Hin. rewrite Hr, Hin. cbn. by rewrite andb_false_r.
  - unfold libpath_for. rewrite Hlp, Ho. by destruct (alr_rpath _ _ _) as [[|b r]|].
  - simpl. lia.
Qed.


(** Scripts: a command that leads through scripts to a program of the loader, with at most
    four arguments in front of those given, runs that program with exactly the vector the
    kernel would build, each script's argument and the script in front of what the outer
    one contributed, then the arguments given; its run path joins the library path. *)
Theorem script_launch L cmd args ro h0 pre h dir gcwd :
  resolve env sys L cmd = Some h0 → chain env sys L h0 pre h → (length pre ≤ 4)%nat → loader_program sys L h →
  map_workdir cwd can_enter L ro = inr (dir, gcwd) → (length args < 3000)%nat →
  ∃ j a0, go L (cmd :: args) false ro = Some (inr j) ∧ j_file j = l_ldso L ∧ j_cwd j = dir ∧
    j_argv j = loader_av (libpath_add_rpath sys L h) h a0 [] ++ pre ++ args ∧ (pre = [] → a0 = cmd) ∧ (pre ≠ [] → a0 = h).
Proof.
  intros Hr Hc Hp Hl Hw Ha. pose proof (loader_launch L cmd args ro h0 pre h dir gcwd Hr Hc Hp Hl Hw Ha) as E. cbv zeta in E.
  eexists _, _. split; [exact E|]. cbn [j_file j_argv j_cwd]. split; [done|]. split; [done|]. split; [|split].
  - unfold loader_av. by rewrite app_nil_r, <- !app_assoc.
  - intros ->. by rewrite bool_decide_true.
  - intros Hne. by rewrite bool_decide_false.
Qed.
End runs.

(** * The working directory *)

Lemma auto_workdir_cases L cwd : let wd := auto_workdir cwd L in
  starts_slash wd = true ∧ (wd = str "/root" ∨ wd = [slash] ∨ cwd = Some (l_root L ++ wd)).
Proof.
  unfold auto_workdir. destruct cwd as [d|]; [|auto]. destruct (is_prefix (l_root L) d) eqn:E; [|auto].
  apply is_prefix_spec in E as [r ->]. rewrite drop_app_length. destruct r as [|b r]; [auto|].
  destruct (bool_decide (b = slash)) eqn:Eb; [|auto]. apply bool_decide_eq_true in Eb as ->. auto.
Qed.
Lemma host_spec_inside root p : root ≠ [] → alr_is_sysdir (lexical p) = false → alr_path_under (lexical p) root = false →
  alr_path_under (host_spec root p) root = true ∧ (lexical p = [slash] ∨ host_spec root p = root ++ lexical p).
Proof.
  intros Hr Hs Hu. unfold host_spec. rewrite Hs, Hu. cbn [orb]. destruct (decide (lexical p = [slash])) as [E|E].
  - split; [|by left]. apply path_under_spec. split; [done|]. exists []. by rewrite app_nil_r.
  - split; [|by right]. apply path_under_spec. split; [done|]. exists (lexical p). split; [done|].
    unfold lexical. pose proof (render_absolute (canon p)). by destruct (render (canon p)).
Qed.

(** The directory a guest starts in is the translation of a guest path, so that [..] never
    leaves the tree, and its [PWD] is the canonical guest name of that directory: an
    absolute path of the option, or the place of the tool's own directory in the tree, or
    [/root].  A relative option is refused. *)
Theorem workdir_mapped (L : launch) (cwd : option bytes) (can_enter : bytes → bool) (ro : runopts) (dir gcwd : bytes) :
  map_workdir cwd can_enter L ro = inr (dir, gcwd) → l_root L ≠ [] →
  ∃ wd, (workdir ro = Some wd ∨ (workdir ro = None ∧ (wd = str "/root" ∨ wd = [slash] ∨ cwd = Some (l_root L ++ wd)))) ∧
    starts_slash wd = true ∧ can_enter dir = true ∧
    ((length (host_spec (l_root L) wd) < ALR_PBUF)%nat → dir = host_spec (l_root L) wd ∧
     (alr_is_sysdir (lexical wd) = false → alr_path_under (lexical wd) (l_root L) = false →
        alr_path_under dir (l_root L) = true ∧ gcwd = lexical wd)).
Proof.
  unfold map_workdir. set (wd := default _ _). intros H Hr. exists wd. split.
  { unfold wd. destruct (workdir ro); [by left|]. right. split; [done|]. apply auto_workdir_cases. }
  destruct (starts_slash wd) eqn:Es; [|done]. cbn [negb] in H. destruct (rw_string wd _) as [hp|] eqn:Eh; [|done].
  apply host_spec_rw in Eh as ->; [|done..]. destruct (can_enter _) eqn:Ee; [|done]. injection H as <- <-.
  split; [done|]. split; [done|]. intros Hlen. assert (E : cut ALR_PBUF (host_spec (l_root L) wd) = host_spec (l_root L) wd) by (apply take_ge; lia).
  split; [exact E|]. intros Hs Hu. rewrite E. destruct (host_spec_inside _ _ Hr Hs Hu) as [Hi Hc]. split; [exact Hi|].
  assert (2 ≤ ALR_PBUF)%nat by (apply Nat.leb_le; by vm_compute).
  assert (Hl : (length (lexical wd) < ALR_PBUF)%nat).
  { destruct Hc as [E0|E0]; rewrite E0 in *; [simpl; lia|]. rewrite length_app in Hlen. lia. }
  rewrite guest_canon_rewrite by done. apply take_ge. lia.
Qed.

(** * A tree with the shell and scripts *)

Definition run_elf : bytes := ehdr_bytes 1 ++ phdr_bytes ALR_PT_INTERP 120 0 11 ++ str "/lib/ld.so" ++ [nul].
Definition run_files (h : bytes) : outcome bytes :=
  if bool_decide (h = "/data/r/bin/sh") then inr run_elf
  else if bool_decide (h = "/data/r/s") then inr (str "#!/bin/sh -x" ++ [newline])
  else if bool_decide (h = "/data/r/n") then inr (str "#!/s -y" ++ [newline])
  else if bool_decide (h = "/data/r/m") then inr (str "#!/n" ++ [newline])
  else if bool_decide (h = "./s") then inr (str "#!/bin/sh -x" ++ [newline])
  else inl PreloadExec.ENOENT.
Definition run_sys : system :=
  mk_system run_files (λ h, bool_decide (h = "/data/r/lib/ld.so")) (λ _, true) (λ _, true).
Definition run_tree : launch := mk_launch "/data/r" "/data/r/lib/ld.so" "/data/r/lib" "/data/alr.so" true.
Definition run_env : list bytes := strs ["TERM=xterm"; "PATH=/system/bin"].
Definition run (L : launch) (args : list bytes) (login : bool) (ro : runopts) : option (bytes + job) :=
  launch_command run_env no_config "/data/bin/alr" run_sys (λ _, None) (Some (str "/data/r/usr")) (λ _, true) None (λ _, None) L args login ro.

Lemma run_direct : direct_program run_sys run_tree "/bin/sh" "/data/r/bin/sh".
Proof.
  split; [done|split; [by vm_compute|split; [apply Nat.ltb_lt; by vm_compute|done]]|]. exists run_elf. eexists.
  split; [by vm_compute|]. split; [by vm_compute|]. split; [by vm_compute|]. split; [by vm_compute|]. by vm_compute.
Qed.

Lemma chain_through env sys L host k sb i pre h pre' : probe sys host = Some k → kind k = ALR_EXE_SHEBANG → shebang k = Some sb →
  resolve env sys L (interp sb) = Some i → (length (l_root L) <=? length host)%nat = true → chain env sys L i pre h →
  pre' = pre ++ level_args L sb host → chain env sys L host pre' h.
Proof. intros H1 H2 H3 H4 H5 H6 ->. apply Nat.leb_le in H5. by eapply chain_script. Qed.
Lemma script_launch_witness :
  ∃ j, run run_tree (strs ["/n"; "a"]) false runopts_init = Some (inr j) ∧
    j_argv j = strs ["/data/r/lib/ld.so"; "--library-path"; "/data/r/lib"; "--inhibit-cache"; "--argv0"; "/data/r/bin/sh";
                     "--preload"; "/data/alr.so"; "/data/r/bin/sh"; "-x"; "/s"; "-y"; "/n"; "a"].
Proof.
  assert (Hsh : chain run_env run_sys run_tree "/data/r/bin/sh" [] "/data/r/bin/sh") by (eapply chain_end; [by vm_compute|done]).
  assert (Hs : chain run_env run_sys run_tree "/data/r/s" (strs ["-x"; "/s"]) "/data/r/bin/sh").
  { apply (chain_through _ _ _ _ (mk_classified ALR_EXE_SHEBANG (Some (mk_alr_shebang "/bin/sh" "-x" true)) []) (mk_alr_shebang "/bin/sh" "-x" true) "/data/r/bin/sh" []); [by vm_compute..|exact Hsh|by vm_compute]. }
  assert (Hn : chain run_env run_sys run_tree "/data/r/n" (strs ["-x"; "/s"; "-y"; "/n"]) "/data/r/bin/sh").
  { apply (chain_through _ _ _ _ (mk_classified ALR_EXE_SHEBANG (Some (mk_alr_shebang "/s" "-y" true)) []) (mk_alr_shebang "/s" "-y" true) "/data/r/s" (strs ["-x"; "/s"])); [by vm_compute..|exact Hs|by vm_compute]. }
  destruct (script_launch run_env no_config "/data/bin/alr" run_sys (λ _, None) (Some (str "/data/r/usr")) (λ _, true) None (λ _, None)
    run_tree "/n" (strs ["a"]) runopts_init "/data/r/n" (strs ["-x"; "/s"; "-y"; "/n"]) "/data/r/bin/sh" "/data/r/usr" "/usr") as (j & a0 & H1 & _ & _ & H4 & _ & H6).
  - by vm_compute.
  - exact Hn.
  - apply Nat.leb_le. by vm_compute.
  - split; [eexists; split; [by vm_compute|done]|]. split; by vm_compute.
  - by vm_compute.
  - apply Nat.ltb_lt. by vm_compute.
  - exists j. split; [exact H1|]. rewrite H4, H6 by done. by vm_compute.
Defined.
Lemma workdir_mapped_witness :
  map_workdir None (λ _, true) run_tree (mk_runopts (Some (str "/../../etc/./x")) [] (-1) false) = inr (str "/data/r/etc/x", str "/etc/x") ∧
  alr_path_under "/data/r/etc/x" "/data/r" = true.
Proof.
  assert (E : map_workdir None (λ _, true) run_tree (mk_runopts (Some (str "/../../etc/./x")) [] (-1) false) = inr (str "/data/r/etc/x", str "/etc/x")) by (by vm_compute).
  split; [exact E|]. destruct (workdir_mapped _ _ _ _ _ _ E ltac:(done)) as (wd & [Hw|[Hw _]] & _ & _ & H); [|done].
  injection Hw as <-. destruct H as [_ H]; [apply Nat.ltb_lt; by vm_compute|]. by apply H.
Defined.

(** A level that would pass the fourth argument is lost: the shell is not given [/s], the
    script it should run, but [/n], which is a script of [/s]. *)
Example scripts_lost :
  (match run run_tree (strs ["/m"; "a"]) false runopts_init with Some (inr j) => drop 9 (j_argv j) | _ => [] end) = strs ["-y"; "/n"; "/m"; "a"].
Proof. by vm_compute. Qed.
(** A relative script is looked up from the tool's own directory; its name is then read
    behind the end of its path. *)
Example relative_script : run run_tree (strs ["./s"]) false runopts_init = None.
Proof. by vm_compute. Qed.
(** A relative program is checked from the tool's directory and executed from the guest's. *)
Example relative_program :
  let sys := mk_system (λ h, if bool_decide (h = "./sh") then inr run_elf else inl PreloadExec.ENOENT)
               (λ h, bool_decide (h = "/data/r/lib/ld.so")) (λ _, true) (λ _, true) in
  (match launch_command run_env no_config "/data/bin/alr" sys (λ _, None) (Some (str "/home")) (λ _, true) None (λ _, None)
           run_tree (strs ["./sh"]) false runopts_init with Some (inr j) => (j_cwd j, last (j_argv j)) | _ => ([], None) end) =
    (str "/data/r/root", Some (str "./sh")).
Proof. by vm_compute. Qed.
(** With a long root the list of the loader's directories passes the end of its buffer. *)
Example libpath_dirs_overflow : libpath_dirs (slash :: replicate 2040 "a"%byte) libdirs [] = None.
Proof. by vm_compute. Qed.
(** Under an outer supervisor the tool stops its own resolver and then executes the guest
    with the socket of that resolver. *)
Example dead_resolver :
  (match launch_command run_env no_config "/data/bin/alr" run_sys (λ _, None) None (λ _, true) (Some (str "TracerPid: 77")) (λ _, Some (str "/tmp/sock"))
           run_tree (strs ["/bin/sh"]) false runopts_init with
   | Some (inr j) => (bool_decide (default [] (j_env j) = []), match j_how j with Replaced => true | Supervised => false end,
                      getenv (default [] (j_env j)) "ALR_RESOLV_SOCK")
   | _ => (true, false, None) end) = (false, true, Some (str "/tmp/sock")).
Proof. by vm_compute. Qed.
(** A script whose interpreter is a program of the host is run without the script. *)
Example host_interpreter :
  let sys := mk_system run_files (λ h, bool_decide (h = "/lib/ld.so")) (λ _, true) (λ _, true) in
  (match launch_command run_env no_config "/data/bin/alr" sys (λ _, None) None (λ _, true) None (λ _, None)
           run_tree (strs ["/s"; "a"]) false runopts_init with Some (inr j) => j_argv j | _ => [] end) = strs ["/data/r/bin/sh"; "a"].
Proof. by vm_compute. Qed.
