(* ===== verification/Supervisor.v ===== *)
(** * The ptrace supervisor: [runtime/alr/src/supervisor]

    The supervisor traces the guest for one purpose: to answer the system calls that the
    seccomp filter of the app traps.  The loop of [alr_supervise] is a function of the
    state, of what [waitpid] reported and of what the [ptrace] calls on the reported
    tracee would answer; it yields the new state and the calls that act on the guest. *)

From S2P Require Import Prelude Bytes.
Open Scope Z_scope.

(** ** The emulation table *)

Definition EPERM : Z := 1.
Definition ENOSYS : Z := 38.
Definition ALR_SIGSYS_DEFAULT_RET : Z := - ENOSYS.
Definition alr_sigsys_tab : list (Z * Z) :=
  [(99, 0); (143, 0); (144, 0); (145, 0); (146, 0); (149, 0); (151, 0); (152, 0); (159, 0);
   (39, - EPERM); (40, - EPERM); (51, - EPERM); (112, - EPERM); (161, - EPERM); (162, - EPERM);
   (170, - EPERM); (171, - EPERM); (266, - EPERM);
   (89, - ENOSYS); (100, - ENOSYS); (105, - ENOSYS); (106, - ENOSYS); (116, - ENOSYS);
   (224, - ENOSYS); (225, - ENOSYS); (293, - ENOSYS); (425, - ENOSYS); (426, - ENOSYS);
   (427, - ENOSYS); (449, - ENOSYS)].
Fixpoint tab_find (tab : list (Z * Z)) (nr : Z) : Z :=
  match tab with
  | (k, ret) :: tab => if k =? nr then ret else tab_find tab nr
  | [] => ALR_SIGSYS_DEFAULT_RET
  end.
Definition alr_sigsys_emulate (nr : Z) : Z := tab_find alr_sigsys_tab nr.

(** ** The registry of tracees *)

Inductive tstate := T_FREE | T_NEW | T_RUNNING.
#[export] Instance tstate_eq : EqDecision tstate.
Proof. solve_decision. Defined.

Record alr_sup_stats := mk_stats {
  sigsys_seen : Z; sigsys_emulated : Z; sigsys_passthrough : Z; signals_forwarded : Z;
  tracees_seen : Z; group_stops : Z; syscall_stops : Z; path_traps : Z;
  passthrough_signals : Z; elapsed_ms : Z }.
Definition no_stats : alr_sup_stats := mk_stats 0 0 0 0 0 0 0 0 0 0.
(** The counters a step adds to, as [unsigned long]. *)
Definition stats_add (a b : alr_sup_stats) : alr_sup_stats :=
  mk_stats (u64 (sigsys_seen a + sigsys_seen b)) (u64 (sigsys_emulated a + sigsys_emulated b))
    (u64 (sigsys_passthrough a + sigsys_passthrough b)) (u64 (signals_forwarded a + signals_forwarded b))
    (u64 (tracees_seen a + tracees_seen b)) (u64 (group_stops a + group_stops b))
    (u64 (syscall_stops a + syscall_stops b)) (u64 (path_traps a + path_traps b))
    (u64 (passthrough_signals a + passthrough_signals b)) (u64 (elapsed_ms a + elapsed_ms b)).
Definition one_seen := mk_stats 1 0 0 0 0 0 0 0 0 0.
Definition one_emulated := mk_stats 0 1 0 0 0 0 0 0 0 0.
Definition one_sys_passed := mk_stats 0 0 1 0 0 0 0 0 0 0.
Definition one_forwarded := mk_stats 0 0 0 1 0 0 0 0 0 0.
Definition one_tracee := mk_stats 0 0 0 0 1 0 0 0 0 0.
Definition one_group_stop := mk_stats 0 0 0 0 0 1 0 0 0 0.
Definition one_syscall_stop := mk_stats 0 0 0 0 0 0 1 0 0 0.
Definition one_path_trap := mk_stats 0 0 0 0 0 0 0 1 0 0.
Definition one_passed := mk_stats 0 0 0 0 0 0 0 0 1 0.

Definition ALR_MAX_TRACEES : nat := 512.
Definition ALR_DEFAULT_RUNAWAY : Z := 2 ^ 20.
(** [slots] are the first [n] entries of the two arrays; a caller may pass no statistics. *)
Record sup := mk_sup { slots : list (Z * tstate); runaway_cap : Z; stats : option alr_sup_stats }.
Definition with_slots (s : sup) (l : list (Z * tstate)) : sup := mk_sup l (runaway_cap s) (stats s).
Definition count (s : sup) (d : alr_sup_stats) : sup :=
  mk_sup (slots s) (runaway_cap s) ((λ a, stats_add a d) <$> stats s).

Fixpoint find_loop (l : list (Z * tstate)) (t : Z) : option nat :=
  match l with
  | [] => None
  | (t', st) :: l =>
      if (t' =? t) && bool_decide (st ≠ T_FREE) then Some 0%nat else S <$> find_loop l t
  end.
Definition find (s : sup) (t : Z) : option nat := find_loop (slots s) t.
Fixpoint free_slot (l : list (Z * tstate)) : option nat :=
  match l with
  | [] => None
  | (_, st) :: l => if bool_decide (st = T_FREE) then Some 0%nat else S <$> free_slot l
  end.
(** [add]; the index it returns is not used. *)
Definition add (s : sup) (t : Z) (state : tstate) : sup :=
  match find s t with
  | Some _ => s
  | None =>
      match free_slot (slots s) with
      | Some i => count (with_slots s (<[i := (t, state)]> (slots s))) one_tracee
      | None =>
          if (ALR_MAX_TRACEES <=? length (slots s))%nat then s
          else count (with_slots s (slots s ++ [(t, state)])) one_tracee
      end
  end.
Definition set_state (s : sup) (i : nat) (st : tstate) : sup :=
  with_slots s (alter (λ p, (fst p, st)) i (slots s)).
Definition drop (s : sup) (t : Z) : sup :=
  match find s t with Some i => set_state s i T_FREE | None => s end.
Definition live (s : sup) : nat := length (filter (λ p, snd p ≠ T_FREE) (slots s)).
Definition state_of (s : sup) (i : nat) : tstate := default T_FREE (snd <$> slots s !! i).

(** ** What the kernel answers about a stopped tracee *)

Inductive siginfo_result :=
  | Info (si_code si_errno si_arch si_syscall si_call_addr : Z) | InfoEinval | InfoFails.
Record obs := mk_obs {
  o_siginfo : siginfo_result; o_regs : option (list Z); o_setregs : bool;
  o_msg : option Z; o_exe : option bytes }.
(** What the supervisor does to the guest. *)
Inductive act := Cont (t sig : Z) | Detach (t : Z) | SetRegs (t : Z) (regs : list Z) | Kill (pid sig : Z).

#[export] Instance act_eq : EqDecision act.
Proof. solve_decision. Defined.

Definition SYS_SECCOMP : Z := 1.
Definition AUDIT_ARCH_AARCH64 : Z := 0xc00000b7.
Definition R_RET : nat := 0.
Definition R_NR : nat := 8.
Definition R_PC : nat := 32.
Definition SIGTRAP : Z := 5.
Definition SIGKILL : Z := 9.
Definition SIGSTOP : Z := 19.
Definition SIGTSTP : Z := 20.
Definition SIGTTIN : Z := 21.
Definition SIGTTOU : Z := 22.
Definition SIGSYS : Z := 31.
Definition NSIG : nat := 65.
Definition PTRACE_EVENT_FORK : Z := 1.
Definition PTRACE_EVENT_VFORK : Z := 2.
Definition PTRACE_EVENT_CLONE : Z := 3.
Definition PTRACE_EVENT_EXEC : Z := 4.

Definition is_lane (o : obs) (lane : bytes) : bool :=
  match o_exe o with Some exe => bool_decide (exe = lane) | None => false end.
Definition is_path_syscall (nr : Z) : bool :=
  bool_decide (nr ∈ [34; 35; 36; 37; 38; 43; 44; 45; 48; 49; 50; 51; 53; 54; 56; 78; 79; 259; 437; 439]).

(** [handle_sigsys]: the state, the calls, and whether the signal was consumed. *)
Definition handle_sigsys (s : sup) (t : Z) (o : obs) : sup * list act * bool :=
  let s := count s one_seen in
  match o_siginfo o with
  | InfoEinval | InfoFails => (s, [], false)
  | Info si_code si_errno si_arch si_syscall si_call_addr =>
      if negb (si_code =? SYS_SECCOMP) then (count s one_sys_passed, [], false)
      else if negb (si_errno =? 0) then (count s one_sys_passed, [], false)
      else if negb (si_arch =? AUDIT_ARCH_AARCH64) then (count s one_sys_passed, [], false)
      else match o_regs o with
           | None => (s, [], false)
           | Some regs =>
               let ret := alr_sigsys_emulate si_syscall in
               let regs := <[R_PC := u64 si_call_addr]> (<[R_RET := u64 ret]> regs) in
               if negb (o_setregs o) then (s, [], false)
               else
                 let s := count s one_emulated in
                 match stats s with
                 | Some a => if runaway_cap s <? sigsys_emulated a
                             then (s, [SetRegs t regs; Kill t SIGKILL], true)
                             else (s, [SetRegs t regs], true)
                 | None => (s, [SetRegs t regs], true)
                 end
           end
  end.
Definition is_group_stop (o : obs) (sig : Z) : bool :=
  bool_decide (sig ∈ [SIGSTOP; SIGTSTP; SIGTTIN; SIGTTOU]) &&
  match o_siginfo o with InfoEinval => true | _ => false end.

(** [drain_pending]; [pending] are the signals that came since the last turn. *)
Definition drain_signals (pending : Z → bool) : list Z :=
  filter (λ sig, pending sig = true) (Z.of_nat <$> seq 1 (NSIG - 1)).
Definition drain_pending (s : sup) (leader : Z) (pending : Z → bool) : sup * list act :=
  (foldl (λ s _, count s one_forwarded) s (drain_signals pending),
   (λ sig, Kill (- leader) sig) <$> drain_signals pending).

(** ** The status of [waitpid] *)

Definition WTERMSIG (st : Z) : Z := Z.land st 0x7f.
Definition WIFEXITED (st : Z) : bool := WTERMSIG st =? 0.
Definition WEXITSTATUS (st : Z) : Z := Z.shiftr (Z.land st 0xff00) 8.
Definition WIFSTOPPED (st : Z) : bool := Z.land st 0xff =? 0x7f.
Definition WSTOPSIG (st : Z) : Z := WEXITSTATUS st.
(** [((signed char) ((st & 0x7f) + 1) >> 1) > 0] *)
Definition WIFSIGNALED (st : Z) : bool := (1 <=? WTERMSIG st) && (WTERMSIG st <=? 0x7e).
Definition alr_exit_code (st : Z) : Z :=
  if WIFEXITED st then WEXITSTATUS st
  else if WIFSIGNALED st then 128 + WTERMSIG st
  else 125.

(** ** The loop *)

Inductive wait_result := WIntr | WNoChild | WError | WStatus (t status : Z).
Record loop := mk_loop { sv : sup; leader_status : Z; leader_done : bool }.
Inductive verdict := Go | Finish | GiveUp.
Definition with_sv (l : loop) (s : sup) : loop := mk_loop s (leader_status l) (leader_done l).
Definition finished (l : loop) : verdict :=
  if (live (sv l) =? 0)%nat && leader_done l then Finish else Go.

(** The two shapes of a syscall stop, counted. *)
Definition note_syscall_stop (s : sup) (t sig event : Z) (o : obs) : sup :=
  let known := match find s t with
               | Some i => bool_decide (state_of s i ≠ T_NEW)
               | None => false
               end in
  if (sig =? Z.lor SIGTRAP 0x80) || ((sig =? SIGTRAP) && (event =? 0) && known) then
    let s := count s one_syscall_stop in
    match o_regs o with
    | Some regs => if is_path_syscall (s64 (regs !!! R_NR)) then count s one_path_trap else s
    | None => s
    end
  else s.
(** A stop that carries an event. *)
Definition event_stop (lane_path : option bytes) (l : loop) (t event : Z) (o : obs)
    : loop * list act * verdict :=
  let s := sv l in
  let forks := (event =? PTRACE_EVENT_FORK) || (event =? PTRACE_EVENT_VFORK)
               || (event =? PTRACE_EVENT_CLONE) in
  let s := match o_msg o with
           | Some msg => if forks then add s (s32 msg) T_NEW else s
           | None => s
           end in
  if (event =? PTRACE_EVENT_EXEC) &&
     match lane_path with Some lane => is_lane o lane | None => false end
  then let l := with_sv l (drop s t) in (l, [Detach t], finished l)
  else (with_sv l s, [Cont t 0], Go).
(** A signal-delivery stop, a group stop or the startup stop. *)
Definition signal_stop (l : loop) (t sig : Z) (o : obs) : loop * list act * verdict :=
  let s := sv l in
  match find s t with
  | None => (with_sv l (add s t T_RUNNING), [Cont t 0], Go)
  | Some i =>
      if bool_decide (state_of s i = T_NEW) && (sig =? SIGSTOP)
      then (with_sv l (set_state s i T_RUNNING), [Cont t 0], Go)
      else
        let '(s, acts, consumed) := if sig =? SIGSYS then handle_sigsys s t o else (s, [], false) in
        if consumed : bool then (with_sv l s, acts ++ [Cont t 0], Go)
        else if is_group_stop o sig then (with_sv l (count s one_group_stop), acts ++ [Cont t 0], Go)
        else (with_sv l (count s one_passed), acts ++ [Cont t sig], Go)
  end.
(** One turn of [alr_supervise]'s loop. *)
Definition turn (leader : Z) (lane_path : option bytes) (l : loop) (pending : Z → bool)
    (w : wait_result) (o : obs) : loop * list act * verdict :=
  match w with
  | WNoChild => (l, [], Finish)
  | WError => (l, [], GiveUp)
  | WIntr => let '(s, acts) := drain_pending (sv l) leader pending in (with_sv l s, acts, Go)
  | WStatus t status =>
      let '(s, kills) := drain_pending (sv l) leader pending in
      if WIFEXITED status || WIFSIGNALED status then
        let l := if t =? leader then mk_loop (drop s t) status true else with_sv l (drop s t) in
        (l, kills, finished l)
      else if negb (WIFSTOPPED status) then (with_sv l s, kills, Go)
      else
        let sig := WSTOPSIG status in
        let event := Z.land (Z.shiftr status 16) 0xff in
        let l := with_sv l (note_syscall_stop s t sig event o) in
        let '(l, acts, v) := if negb (event =? 0) then event_stop lane_path l t event o
                             else signal_stop l t sig o in
        (l, kills ++ acts, v)
  end.

(** The start of [alr_supervise]: what [fork] returned, what the first [waitpid] reported
    and whether the options were accepted; the result is a return value and a status, or
    the loop and the first calls. *)
Record started := mk_started { fork_pid : option Z; first_wait : option Z; options_ok : bool }.
Definition alr_supervise_start (cap : Z) (st : bool) (w : started)
    : (Z * option Z) + (Z * loop * list act) :=
  let s := mk_sup [] (if cap =? 0 then ALR_DEFAULT_RUNAWAY else cap)
             (if st then Some no_stats else None) in
  match fork_pid w with
  | None => inl (-1, None)
  | Some leader =>
      match first_wait w with
      | None => inl (-1, None)
      | Some st0 =>
          if negb (WIFSTOPPED st0) then inl (0, Some st0)
          else if negb (options_ok w) then inl (-1, None)
          else inr (leader, mk_loop (add s leader T_RUNNING) 0 false, [Cont leader 0])
      end
  end.
(** The loop over the reports of the kernel, and the return of [alr_supervise]; [None] is
    a supervisor that still waits. *)
Fixpoint run_loop (leader : Z) (lane_path : option bytes) (l : loop)
    (reports : list ((Z → bool) * wait_result * obs)) : loop * list act * option (Z * Z) :=
  match reports with
  | [] => (l, [], None)
  | (pending, w, o) :: reports =>
      let '(l, acts, v) := turn leader lane_path l pending w o in
      match v with
      | Finish => (l, acts, Some (0, leader_status l))
      | GiveUp => (l, acts, Some (-1, leader_status l))
      | Go => let '(l, acts', r) := run_loop leader lane_path l reports in (l, acts ++ acts', r)
      end
  end.
(** The elapsed time, from two readings of the monotonic clock. *)
Definition elapsed (s0 n0 s1 n1 : Z) : Z := u64 ((s1 - s0) * 1000 + Z.quot (n1 - n0) 1000000).

(** ** Basic facts *)

Lemma count_slots s d : slots (count s d) = slots s.
Proof. done. Qed.
Lemma drain_slots s leader pending : slots (fst (drain_pending s leader pending)) = slots s.
Proof.
  unfold drain_pending. cbn [fst]. generalize (drain_signals pending). intros l. revert s.
  induction l as [|x l IH]; intros s; [done|]. cbn [foldl]. by rewrite IH.
Qed.
Lemma note_slots s t sig event o : slots (note_syscall_stop s t sig event o) = slots s.
Proof.
  unfold note_syscall_stop. cbv zeta. destruct (_ || _); [|done]. destruct (o_regs o); [|done].
  by destruct (is_path_syscall _).
Qed.
Lemma handle_sigsys_slots s t o : slots (fst (fst (handle_sigsys s t o))) = slots s.
Proof.
  unfold handle_sigsys. destruct (o_siginfo o) as [c e a n pc| |]; [|done..].
  repeat (destruct (negb _); [done|]). destruct (o_regs o); [|done].
  destruct (negb _); [done|]. cbv zeta. destruct (stats _); [|done]. by destruct (_ <? _).
Qed.

(** ** The registry is a finite map of at most 512 tracees *)

Definition is_live (p : Z * tstate) : Prop := snd p ≠ T_FREE.
#[export] Instance is_live_dec p : Decision (is_live p).
Proof. unfold is_live. apply _. Defined.
Definition live_slots (l : list (Z * tstate)) : list (Z * tstate) := filter is_live l.
Definition reg (s : sup) : gmap Z tstate := list_to_map (live_slots (slots s)).
Definition reg_ok (s : sup) : Prop :=
  NoDup (live_slots (slots s)).*1 ∧ (length (slots s) ≤ ALR_MAX_TRACEES)%nat.

Lemma live_slots_split l i p :
  l !! i = Some p →
  live_slots l = live_slots (take i l) ++ live_slots [p] ++ live_slots (skipn (S i) l).
Proof.
  intros H. unfold live_slots. rewrite <- !filter_app. f_equal. cbn [app]. symmetry.
  by apply take_drop_middle.
Qed.
Lemma live_slots_insert l i p q :
  l !! i = Some p →
  live_slots (<[i := q]> l) = live_slots (take i l) ++ live_slots [q] ++ live_slots (skipn (S i) l).
Proof.
  intros H. unfold live_slots. rewrite <- !filter_app. f_equal. cbn [app].
  apply insert_take_drop. by eapply lookup_lt_Some.
Qed.
Lemma live_one t st : st ≠ T_FREE → live_slots [(t, st)] = [(t, st)].
Proof. intros H. unfold live_slots. by rewrite filter_cons_True. Qed.
Lemma live_free t : live_slots [(t, T_FREE)] = [].
Proof. done. Qed.

Lemma find_loop_Some l t i :
  find_loop l t = Some i → ∃ st, l !! i = Some (t, st) ∧ st ≠ T_FREE.
Proof.
  revert i. induction l as [|[t' st] l IH]; intros i; [done|]. cbn [find_loop].
  destruct (Z.eqb_spec t' t) as [->|Hne]; cbn [andb].
  - destruct (bool_decide_reflect (st ≠ T_FREE)) as [Hst|]; [intros [= <-]; by exists st|].
    destruct (find_loop l t) as [j|]; [|done]. intros [= <-]. by apply IH.
  - destruct (find_loop l t) as [j|]; [|done]. intros [= <-]. by apply IH.
Qed.
Lemma find_loop_None l t : find_loop l t = None → t ∉ (live_slots l).*1.
Proof.
  induction l as [|[t' st] l IH]; [intros _; apply not_elem_of_nil|]. cbn [find_loop].
  destruct (Z.eqb_spec t' t) as [->|Hne]; cbn [andb].
  - destruct (bool_decide_reflect (st ≠ T_FREE)) as [Hst|Hst]; [done|].
    destruct (find_loop l t); [done|]. intros _. unfold live_slots. rewrite filter_cons_False by done.
    by apply IH.
  - destruct (find_loop l t); [done|]. intros _. unfold live_slots. destruct (decide (is_live (t', st))).
    + rewrite filter_cons_True by done. cbn. rewrite not_elem_of_cons. split; [done|by apply IH].
    + rewrite filter_cons_False by done. by apply IH.
Qed.
Lemma free_slot_Some l i : free_slot l = Some i → ∃ t, l !! i = Some (t, T_FREE).
Proof.
  revert i. induction l as [|[t' st] l IH]; intros i; [done|]. cbn [free_slot].
  destruct (bool_decide_reflect (st = T_FREE)) as [->|]; [intros [= <-]; by exists t'|].
  destruct (free_slot l) as [j|]; [|done]. intros [= <-]. by apply IH.
Qed.
Lemma free_slot_None l : free_slot l = None → live_slots l = l.
Proof.
  induction l as [|[t' st] l IH]; [done|]. cbn [free_slot].
  destruct (bool_decide_reflect (st = T_FREE)) as [|Hst]; [done|].
  destruct (free_slot l); [done|]. intros _. unfold live_slots.
  rewrite filter_cons_True by done. f_equal. by apply IH.
Qed.

(** The map under the changes of one entry. *)
Lemma map_middle (l1 l2 : list (Z * tstate)) t st :
  NoDup (l1 ++ (t, st) :: l2).*1 →
  (list_to_map (l1 ++ (t, st) :: l2) : gmap Z tstate) = <[t := st]> (list_to_map (l1 ++ l2)).
Proof.
  intros H. rewrite (list_to_map_proper _ ((t, st) :: l1 ++ l2)); [done|done|].
  symmetry. apply Permutation_middle.
Qed.
Lemma nodup_middle (l1 l2 : list (Z * tstate)) t st :
  NoDup (l1 ++ (t, st) :: l2).*1 ↔ (t ∉ (l1 ++ l2).*1) ∧ NoDup (l1 ++ l2).*1.
Proof.
  rewrite <- NoDup_cons. rewrite (fmap_app fst l1 (_ :: _)), fmap_app. cbn.
  by rewrite <- Permutation_middle.
Qed.

Lemma reg_find s t : reg_ok s →
  match find s t with
  | Some i => reg s !! t = Some (state_of s i) ∧ state_of s i ≠ T_FREE
  | None => reg s !! t = None
  end.
Proof.
  intros [Hnd _]. unfold find, reg. destruct (find_loop (slots s) t) as [i|] eqn:E.
  - apply find_loop_Some in E as (st & Hi & Hst). unfold state_of. rewrite Hi. cbn. split; [|done].
    apply elem_of_list_to_map_1; [done|]. unfold live_slots. rewrite list_elem_of_filter. split; [done|].
    by eapply list_elem_of_lookup_2.
  - apply find_loop_None in E. by apply not_elem_of_list_to_map.
Qed.
Lemma live_size s : reg_ok s → live s = size (reg s).
Proof.
  intros [Hnd _]. unfold live, reg. change (filter _ (slots s)) with (live_slots (slots s)).
  by rewrite map_size_list_to_map.
Qed.

(** Replacing the entry of a slot. *)
Lemma reg_replace s i t p : reg_ok s → slots s !! i = Some p →
  (match snd p with T_FREE => find s t = None | _ => fst p = t end) → ∀ st, st ≠ T_FREE →
  reg_ok (with_slots s (<[i := (t, st)]> (slots s))) ∧
  reg (with_slots s (<[i := (t, st)]> (slots s))) = <[t := st]> (reg s).
Proof.
  intros [Hnd Hlen] Hi Hp st Hst. unfold reg_ok, reg in *. cbn [slots with_slots].
  rewrite length_insert, (live_slots_insert _ _ _ _ Hi), live_one by done.
  rewrite (live_slots_split _ _ _ Hi) in Hnd |- *. cbn [app].
  set (l1 := live_slots (take i _)) in *. set (l2 := live_slots (skipn _ _)) in *.
  destruct p as [t0 st0]. cbn [fst snd] in Hp. destruct (decide (st0 = T_FREE)) as [->|Hst0].
  - rewrite live_free in Hnd |- *. cbn [app] in *.
    assert (t ∉ (l1 ++ l2).*1) as Hnin.
    { apply find_loop_None in Hp. by rewrite (live_slots_split _ _ _ Hi), live_free in Hp. }
    assert (NoDup (l1 ++ (t, st) :: l2).*1) as Hnd' by (by apply nodup_middle).
    split; [done|]. by apply map_middle.
  - assert (t0 = t) as -> by (by destruct st0). rewrite live_one in Hnd |- * by done. cbn [app] in *.
    pose proof Hnd as [Hnin Hnd']%nodup_middle.
    assert (NoDup (l1 ++ (t, st) :: l2).*1) as Hnd2 by (by apply nodup_middle).
    split; [done|]. rewrite !map_middle by done. by rewrite insert_insert_eq.
Qed.
Lemma reg_count s d : reg (count s d) = reg s ∧ (reg_ok (count s d) ↔ reg_ok s).
Proof. done. Qed.
Lemma insert_alter_eq {A} (f : A → A) i (l : list A) p : l !! i = Some p → alter f i l = <[i := f p]> l.
Proof. revert i. induction l as [|x l IH]; intros [|i]; cbn; [done..|by intros [= ->]|]. intros H. f_equal. by apply IH. Qed.
Lemma reg_drop s t : reg_ok s → reg_ok (drop s t) ∧ reg (drop s t) = delete t (reg s).
Proof.
  intros Hok. pose proof (reg_find s t Hok) as Hf. unfold drop.
  destruct (find s t) as [i|] eqn:E; [|split; [done|]; by rewrite delete_id].
  apply find_loop_Some in E as (st & Hi & Hst). destruct Hok as [Hnd Hlen].
  unfold set_state. rewrite (insert_alter_eq _ _ _ _ Hi). unfold reg_ok, reg in *.
  cbn [slots with_slots fst]. rewrite length_insert, (live_slots_insert _ _ _ _ Hi), live_free.
  rewrite (live_slots_split _ _ _ Hi), live_one in Hnd |- * by done. cbn [app] in *.
  pose proof Hnd as [Hnin Hnd']%nodup_middle. split; [done|]. rewrite map_middle by done.
  rewrite delete_insert_id; [done|]. by apply not_elem_of_list_to_map.
Qed.
Lemma reg_set s t i st : reg_ok s → find s t = Some i → st ≠ T_FREE →
  reg_ok (set_state s i st) ∧ reg (set_state s i st) = <[t := st]> (reg s).
Proof.
  intros Hok Hf Hst. pose proof Hf as (st0 & Hi & Hst0)%find_loop_Some. unfold set_state.
  rewrite (insert_alter_eq _ _ _ _ Hi). cbn [fst]. apply (reg_replace s i t (t, st0)); try done.
  by destruct st0.
Qed.
Lemma reg_add s t st : reg_ok s → st ≠ T_FREE →
  reg_ok (add s t st) ∧
  reg (add s t st) =
    match reg s !! t with
    | Some _ => reg s
    | None => if decide (size (reg s) < ALR_MAX_TRACEES)%nat then <[t := st]> (reg s) else reg s
    end.
Proof.
  intros Hok Hst. pose proof (reg_find s t Hok) as Hf. unfold add.
  destruct (find s t) as [i|] eqn:E; [destruct Hf as [-> _]; done|]. rewrite Hf.
  pose proof (live_size s Hok) as Hsize. unfold live in Hsize.
  change (filter _ (slots s)) with (live_slots (slots s)) in Hsize.
  destruct (free_slot (slots s)) as [i|] eqn:Ef.
  - apply free_slot_Some in Ef as [t0 Hi].
    assert (size (reg s) < ALR_MAX_TRACEES)%nat as Hlt.
    { rewrite <- Hsize, (live_slots_split _ _ _ Hi), live_free. cbn [app]. destruct Hok as [_ Hlen].
      rewrite <- (take_drop_middle _ _ _ Hi), length_app in Hlen. cbn [length] in Hlen.
      rewrite length_app. unfold live_slots.
      pose proof (length_filter is_live (take i (slots s))).
      pose proof (length_filter is_live (skipn (S i) (slots s))). lia. }
    rewrite decide_True by done.
    destruct (reg_replace s i t (t0, T_FREE) Hok Hi E st Hst) as [H1 H2]. done.
  - apply free_slot_None in Ef. rewrite Ef in Hsize.
    destruct (Nat.leb_spec ALR_MAX_TRACEES (length (slots s))) as [Hfull|Hroom].
    + rewrite decide_False by lia. done.
    + rewrite decide_True by lia. destruct Hok as [Hnd Hlen].
      assert (live_slots (slots s ++ [(t, st)]) = live_slots (slots s) ++ [(t, st)]) as Happ.
      { unfold live_slots. rewrite filter_app. f_equal. by apply live_one. }
      apply find_loop_None in E.
      assert (NoDup (live_slots (slots s) ++ [(t, st)]).*1) as Hnd'.
      { apply nodup_middle. by rewrite app_nil_r. }
      unfold reg_ok, reg. cbn [slots with_slots count]. rewrite Happ, length_app. cbn [length].
      split; [split; [done|lia]|]. by rewrite map_middle, app_nil_r by done.
Qed.

(** ** Every stop is resumed, once *)

Definition is_resume (a : act) : bool := match a with Cont _ _ | Detach _ => true | _ => false end.
Definition resumes (acts : list act) : list act := filter (λ a, is_resume a = true) acts.
Lemma resumes_app a b : resumes (a ++ b) = resumes a ++ resumes b.
Proof. apply filter_app. Qed.
Lemma resumes_kills s leader pending : resumes (snd (drain_pending s leader pending)) = [].
Proof.
  unfold drain_pending. cbn [snd]. generalize (drain_signals pending). intros l.
  induction l as [|x l IH]; [done|]. cbn [fmap list_fmap]. unfold resumes in *. by rewrite filter_cons_False.
Qed.
Lemma resumes_sigsys s t o : resumes (snd (fst (handle_sigsys s t o))) = [].
Proof.
  unfold handle_sigsys. destruct (o_siginfo o) as [c e a n pc| |]; [|done..].
  repeat (destruct (negb _); [done|]). destruct (o_regs o); [|done].
  destruct (negb _); [done|]. cbv zeta. destruct (stats _); [|done]. by destruct (_ <? _).
Qed.
(** A stop is not an exit. *)
Lemma stopped_not_exited st : WIFSTOPPED st = true → WIFEXITED st || WIFSIGNALED st = false.
Proof.
  unfold WIFSTOPPED, WIFEXITED, WIFSIGNALED, WTERMSIG. rewrite Z.eqb_eq. intros H.
  assert (Z.land st 0x7f = 0x7f) as ->; [|done].
  change 0x7f with (Z.land 0xff 0x7f) at 1. rewrite Z.land_assoc, H. done.
Qed.
Definition stop_event (status : Z) : Z := Z.land (Z.shiftr status 16) 0xff.
(** The turn on a stop. *)
Lemma turn_stop leader lane l pending t status o :
  WIFSTOPPED status = true →
  turn leader lane l pending (WStatus t status) o =
    let '(s, kills) := drain_pending (sv l) leader pending in
    let l := with_sv l (note_syscall_stop s t (WSTOPSIG status) (stop_event status) o) in
    let '(l, acts, v) := if negb (stop_event status =? 0) then event_stop lane l t (stop_event status) o
                         else signal_stop l t (WSTOPSIG status) o in
    (l, kills ++ acts, v).
Proof. intros H. unfold turn. rewrite stopped_not_exited, H by done. done. Qed.

Lemma signal_stop_resumes l t sig o :
  ∃ inj, resumes (snd (fst (signal_stop l t sig o))) = [Cont t inj] ∧
         last (snd (fst (signal_stop l t sig o))) = Some (Cont t inj).
Proof.
  unfold signal_stop. destruct (find (sv l) t) as [i|]; [|by exists 0].
  destruct (_ && _); [by exists 0|].
  set (r := if sig =? SIGSYS then handle_sigsys (sv l) t o else (sv l, [], false)).
  assert (resumes (snd (fst r)) = []) as Hr by (unfold r; destruct (_ =? _); [apply resumes_sigsys|done]).
  destruct r as [[s acts] consumed]. cbn [fst snd] in *.
  destruct consumed; [exists 0|destruct (is_group_stop o sig); [exists 0|exists sig]]; cbn [fst snd];
    by rewrite resumes_app, Hr, last_snoc.
Qed.
Lemma event_stop_resumes lane l t event o :
  snd (fst (event_stop lane l t event o)) = [Cont t 0] ∨ snd (fst (event_stop lane l t event o)) = [Detach t].
Proof. unfold event_stop. cbv zeta. destruct (_ && _); [by right|by left]. Qed.

(** C23. No tracee is left stopped and none is resumed twice: for every report that a tracee
    stopped, in any state of the supervisor and whatever the kernel answers, the turn
    resumes exactly that tracee, exactly once and last - continued, or detached when it
    has become the lane; and a turn on any other report resumes nothing. *)
Theorem stop_resumed_once (leader : Z) (lane : option bytes) (l : loop) (pending : Z → bool)
    (w : wait_result) (o : obs) :
  let acts := snd (fst (turn leader lane l pending w o)) in
  match w with
  | WStatus t status =>
      if WIFSTOPPED status
      then ∃ a, resumes acts = [a] ∧ last acts = Some a ∧
                (a = Detach t ∧ stop_event status = PTRACE_EVENT_EXEC ∨ ∃ sig, a = Cont t sig)
      else resumes acts = []
  | _ => resumes acts = []
  end.
Proof.
  intros acts. subst acts. pose proof (resumes_kills (sv l) leader pending) as Hk.
  destruct w as [| | |t status]; [|done|done|].
  - unfold turn. by destruct (drain_pending _ _ _).
  - destruct (WIFSTOPPED status) eqn:Hst.
    + rewrite turn_stop by done. destruct (drain_pending _ _ _) as [s kills]. cbn [snd] in Hk. cbv zeta.
      set (l1 := with_sv l _). destruct (negb (stop_event status =? 0)).
      * assert (snd (fst (event_stop lane l1 t (stop_event status) o)) = [Cont t 0] ∨
                snd (fst (event_stop lane l1 t (stop_event status) o)) = [Detach t] ∧
                stop_event status = PTRACE_EVENT_EXEC) as H.
        { unfold event_stop. cbv zeta. destruct (_ =? PTRACE_EVENT_EXEC) eqn:E; [|by left].
          apply Z.eqb_eq in E. cbn [andb]. destruct lane as [ln|]; [|by left].
          destruct (is_lane o ln); [by right|by left]. }
        destruct (event_stop _ _ _ _ _) as [[l2 acts] v]. cbn [fst snd] in *.
        rewrite resumes_app, Hk. destruct H as [->|[-> He]].
        -- exists (Cont t 0). rewrite last_snoc. eauto.
        -- exists (Detach t). rewrite last_snoc. eauto.
      * destruct (signal_stop_resumes l1 t (WSTOPSIG status) o) as (inj & Hr & Hl).
        destruct (signal_stop _ _ _ _) as [[l2 acts] v]. cbn [fst snd] in *.
        exists (Cont t inj). rewrite resumes_app, Hk, last_app, Hl. eauto.
    + unfold turn. destruct (drain_pending _ _ _) as [s kills]. cbn [snd] in Hk.
      destruct (_ || _); [by destruct (t =? leader)|]. by rewrite Hst.
Qed.

(** ** What the guest sees of its signals *)

(** A trap of the filter the app was started under. *)
Definition zygote_trap (o : obs) : Prop :=
  ∃ nr pc, o_siginfo o = Info SYS_SECCOMP 0 AUDIT_ARCH_AARCH64 nr pc.
Lemma handle_foreign s t o : ¬ zygote_trap o →
  ∃ s', handle_sigsys s t o = (s', [], false) ∧ reg s' = reg s.
Proof.
  intros Hz. unfold handle_sigsys. destruct (o_siginfo o) as [c e a n pc| |] eqn:Eo; [|by eexists..].
  destruct (Z.eqb_spec c SYS_SECCOMP) as [->|]; [|by eexists].
  destruct (Z.eqb_spec e 0) as [->|]; [|by eexists].
  destruct (Z.eqb_spec a AUDIT_ARCH_AARCH64) as [->|]; [|by eexists].
  destruct Hz. unfold zygote_trap. eauto.
Qed.
Lemma state_of_reg s t i : reg_ok s → find s t = Some i → reg s !! t = Some (state_of s i).
Proof. intros Hok Hf. pose proof (reg_find s t Hok) as H. rewrite Hf in H. apply H. Qed.

(** The guest's signals are its own: a tracee that runs and stops for a signal gets that
    signal and nothing else happens to it, unless the stop is a group stop (the signal is
    not injected again) or a trap of the app's own filter.  A SIGSYS of a filter the guest
    installed, or of a [kill], is delivered.  On a trap of the app's filter the signal is
    withheld and the call returns: exactly two registers change, the first to the emulated
    result and the program counter to the instruction behind the call. *)
Theorem signals_faithful (leader : Z) (lane : option bytes) (l : loop) (pending : Z → bool)
    (t status : Z) (o : obs) :
  reg_ok (sv l) → reg (sv l) !! t = Some T_RUNNING →
  WIFSTOPPED status = true → stop_event status = 0 →
  let sig := WSTOPSIG status in
  let kills := snd (drain_pending (sv l) leader pending) in
  let acts := snd (fst (turn leader lane l pending (WStatus t status) o)) in
  (sig ≠ SIGSYS ∨ ¬ zygote_trap o →
     acts = kills ++ [Cont t (if is_group_stop o sig then 0 else sig)]) ∧
  (∀ nr pc regs, sig = SIGSYS → o_siginfo o = Info SYS_SECCOMP 0 AUDIT_ARCH_AARCH64 nr pc →
     o_regs o = Some regs → o_setregs o = true → length regs = 34%nat →
     ∃ regs' die, acts = kills ++ [SetRegs t regs'] ++ die ++ [Cont t 0] ∧
       (die = [] ∨ die = [Kill t SIGKILL]) ∧
       (∀ i, i ≠ R_RET → i ≠ R_PC → regs' !! i = regs !! i) ∧
       regs' !! R_RET = Some (u64 (alr_sigsys_emulate nr)) ∧ regs' !! R_PC = Some (u64 pc)).
Proof.
  intros Hok Ht Hst Hev sig kills acts. subst acts. rewrite turn_stop, Hev by done. fold sig.
  unfold kills. destruct (drain_pending (sv l) leader pending) as [s ks] eqn:Ed. cbn [snd negb Z.eqb].
  assert (slots s = slots (sv l)) as Hs by (by rewrite <- (drain_slots (sv l) leader pending), Ed).
  set (s1 := note_syscall_stop s t sig 0 o).
  assert (slots s1 = slots (sv l)) as Hs1 by (by unfold s1; rewrite note_slots).
  assert (find s1 t = find (sv l) t) as Hf by (unfold find; by rewrite Hs1).
  pose proof (reg_find (sv l) t Hok) as Hfind. unfold signal_stop. cbn [sv with_sv]. rewrite Hf.
  destruct (find (sv l) t) as [i|]; [|congruence]. destruct Hfind as [Hi _].
  assert (state_of s1 i = T_RUNNING) as Hrun by (unfold state_of in *; rewrite Hs1; congruence).
  rewrite Hrun, bool_decide_eq_false_2 by done. cbn [andb]. split.
  - intros Hcase.
    set (r := if sig =? SIGSYS then handle_sigsys s1 t o else (s1, [], false)).
    assert (∃ s2, r = (s2, [], false)) as [s2 ->].
    { unfold r. destruct (Z.eqb_spec sig SIGSYS) as [E|]; [|by eexists].
      destruct Hcase as [|Hz]; [done|]. destruct (handle_foreign s1 t o Hz) as (s2 & -> & _). by eexists. }
    by destruct (is_group_stop o sig).
  - intros nr pc regs -> Hinfo Hregs Hset Hlen. rewrite Z.eqb_refl. unfold handle_sigsys.
    rewrite Hinfo, Hregs, Hset, !Z.eqb_refl. cbn [negb]. cbv zeta.
    set (regs' := <[R_PC := _]> _).
    assert ((∀ i, i ≠ R_RET → i ≠ R_PC → regs' !! i = regs !! i) ∧
            regs' !! R_RET = Some (u64 (alr_sigsys_emulate nr)) ∧ regs' !! R_PC = Some (u64 pc)) as Hr.
    { unfold regs'. split_and!.
      - intros j H1 H2. by rewrite !list_lookup_insert_ne by done.
      - rewrite list_lookup_insert_ne by done. apply list_lookup_insert_eq. rewrite Hlen. unfold R_RET. lia.
      - apply list_lookup_insert_eq. rewrite length_insert, Hlen. unfold R_PC. lia. }
    destruct (stats _) as [a|]; [destruct (_ <? _)|]; cbn [fst snd].
    + exists regs', [Kill t SIGKILL]. split; [done|]. split; [by right|exact Hr].
    + exists regs', []. split; [done|]. split; [by left|exact Hr].
    + exists regs', []. split; [done|]. split; [by left|exact Hr].
Qed.

(** ** The kernel and the supervisor together *)

(** The reports about a new tracee race: its own first stop, the fork event of its parent
    and, should it die at once, its exit come in any order.  A tracee is [Unseen] before
    any of them, [Started] when its first stop came first, [Announced] when the event did,
    [Both] afterwards.  One that exits before its event came is an [Orphan], and [Leaked]
    once the event has registered it again. *)
Inductive life := Unseen | Announced | Started | Both | Orphan | Leaked.
Definition forks (event : Z) : Prop :=
  event ∈ [PTRACE_EVENT_FORK; PTRACE_EVENT_VFORK; PTRACE_EVENT_CLONE].
(** The report of an exit, after which the kernel may use the number again. *)
Definition after_exit (c : Z) (f : life) (ks : gmap Z life) : gmap Z life :=
  match f with
  | Announced | Both => delete c ks
  | _ => <[c := Orphan]> ks
  end.
Definition announced (f : life) : option life :=
  match f with Unseen => Some Announced | Started => Some Both | Orphan => Some Leaked | _ => None end.
Definition first_stop (f : life) : option life :=
  match f with Unseen => Some Started | Announced => Some Both | _ => None end.
Definition running (f : life) : Prop := f = Started ∨ f = Both.

Section kernel.
Context (leader : Z) (lane : option bytes).

(** A step of both: a report that is possible now, and the turn on it. *)
Inductive kstep (l : loop) (ks : gmap Z life) : list act → loop → gmap Z life → Prop :=
  | k_create c : ks !! c = None → (size ks < ALR_MAX_TRACEES)%nat →
      kstep l ks [] l (<[c := Unseen]> ks)
  | k_announce p c f f' pending status o l' acts v :
      WIFSTOPPED status = true → forks (stop_event status) →
      o_msg o = Some c → s32 c = c → ks !! c = Some f → announced f = Some f' →
      turn leader lane l pending (WStatus p status) o = (l', acts, v) →
      kstep l ks acts l' (<[c := f']> ks)
  | k_startup c f f' pending status o l' acts v :
      WIFSTOPPED status = true → stop_event status = 0 → WSTOPSIG status = SIGSTOP →
      ks !! c = Some f → first_stop f = Some f' →
      turn leader lane l pending (WStatus c status) o = (l', acts, v) →
      kstep l ks acts l' (<[c := f']> ks)
  | k_stop c f pending status o l' acts v :
      WIFSTOPPED status = true → ¬ forks (stop_event status) →
      ks !! c = Some f → running f →
      turn leader lane l pending (WStatus c status) o = (l', acts, v) →
      kstep l ks acts l' (if bool_decide (Detach c ∈ acts) then after_exit c f ks else ks)
  | k_exit c f pending status o l' acts v :
      WIFEXITED status || WIFSIGNALED status = true →
      ks !! c = Some f → f ≠ Orphan → f ≠ Leaked →
      turn leader lane l pending (WStatus c status) o = (l', acts, v) →
      kstep l ks acts l' (after_exit c f ks).
Inductive kreach (l0 : loop) : loop → gmap Z life → Prop :=
  | kr_init : kreach l0 l0 {[leader := Both]}
  | kr_step l ks acts l' ks' : kreach l0 l ks → kstep l ks acts l' ks' → kreach l0 l' ks'.

(** The state of the registry for each tracee. *)
Definition expected (f : life) : option tstate :=
  match f with
  | Unseen | Orphan => None
  | Announced | Leaked => Some T_NEW
  | Started | Both => Some T_RUNNING
  end.
Definition tracks (s : sup) (ks : gmap Z life) : Prop := reg_ok s ∧ reg s = omap expected ks.

Lemma tracks_slots s s' ks : slots s' = slots s → tracks s ks → tracks s' ks.
Proof. unfold tracks, reg_ok, reg. by intros ->. Qed.
Lemma tracks_add s ks c f : tracks s ks → ks !! c = Some f → expected f = None →
  (size ks ≤ ALR_MAX_TRACEES)%nat → ∀ st f', expected f' = Some st →
  tracks (add s c st) (<[c := f']> ks).
Proof.
  intros [Hok Hreg] Hc Hf Hsize st f' Hf'.
  destruct (reg_add s c st Hok) as [Hok' Hreg']; [by destruct f'; simplify_eq/=|]. split; [done|].
  rewrite Hreg', Hreg, lookup_omap, Hc. cbn [mbind option_bind]. rewrite Hf, decide_True.
  - by rewrite (omap_insert_Some _ _ _ _ st).
  - assert (omap expected ks = omap expected (delete c ks)) as ->.
    { rewrite omap_delete, delete_id; [done|]. rewrite lookup_omap, Hc. cbn. by rewrite Hf. }
    assert (size (omap expected (delete c ks)) ≤ size (delete c ks))%nat as Hle.
    { rewrite <- !size_dom. apply subseteq_size. intros k. rewrite !elem_of_dom, lookup_omap.
      destruct (delete c ks !! k); [done|by intros [? [=]]]. }
    rewrite (map_size_delete_Some c ks) in Hle by (by exists f).
    assert (size ks ≠ 0%nat) by (apply (map_size_ne_0_lookup_2 ks c); by exists f). lia.
Qed.
Lemma tracks_drop s ks c : tracks s ks → tracks (drop s c) (delete c ks).
Proof.
  intros [Hok Hreg]. destruct (reg_drop s c Hok) as [H1 H2]. split; [done|].
  by rewrite H2, Hreg, omap_delete.
Qed.
Lemma tracks_exit s ks c f : tracks s ks → tracks (drop s c) (after_exit c f ks).
Proof.
  intros Ht. destruct (tracks_drop s ks c Ht) as [H1 H2].
  assert (omap expected (<[c := Orphan]> ks) = omap expected (delete c ks)) as E
    by (by rewrite omap_insert_None, omap_delete).
  destruct f; cbn [after_exit]; split; try done; by rewrite H2, ?E.
Qed.
Lemma tracks_same s ks c f f' : ks !! c = Some f → expected f' = expected f →
  tracks s ks → tracks s (<[c := f']> ks).
Proof.
  intros Hc He [Hok Hreg]. split; [done|]. rewrite Hreg. apply map_eq. intros k.
  rewrite !lookup_omap. destruct (decide (k = c)) as [->|Hne].
  - by rewrite lookup_insert_eq, Hc.
  - by rewrite lookup_insert_ne.
Qed.
Lemma tracks_add_known s ks c f st st' : tracks s ks → ks !! c = Some f → expected f = Some st →
  st' ≠ T_FREE → tracks (add s c st') ks.
Proof.
  intros [Hok Hreg] Hc He Hst. destruct (reg_add s c st' Hok Hst) as [H1 H2]. split; [done|].
  assert (reg s !! c = Some st) as Hs by (by rewrite Hreg, lookup_omap, Hc).
  by rewrite H2, Hs.
Qed.
(** The turn on a stop, from the registry's point of view. *)
Lemma turn_stop_cases l pending t status o l' acts v :
  WIFSTOPPED status = true →
  turn leader lane l pending (WStatus t status) o = (l', acts, v) →
  ∃ s kills acts', slots s = slots (sv l) ∧ resumes kills = [] ∧ acts = kills ++ acts' ∧
    (l', acts', v) = if negb (stop_event status =? 0)
                     then event_stop lane (with_sv l s) t (stop_event status) o
                     else signal_stop (with_sv l s) t (WSTOPSIG status) o.
Proof.
  intros Hst E. rewrite turn_stop in E by done.
  pose proof (resumes_kills (sv l) leader pending) as Hk. pose proof (drain_slots (sv l) leader pending) as Hs.
  destruct (drain_pending (sv l) leader pending) as [s kills]. cbn [fst snd] in *. cbv zeta in E.
  exists (note_syscall_stop s t (WSTOPSIG status) (stop_event status) o), kills.
  destruct (if negb _ then _ else _) as [[l2 acts2] v2]. injection E as <- <- <-.
  exists acts2. rewrite note_slots. done.
Qed.
Lemma forks_event event : forks event →
  negb (event =? 0) = true ∧ (event =? PTRACE_EVENT_EXEC) = false ∧
  (event =? PTRACE_EVENT_FORK) || (event =? PTRACE_EVENT_VFORK) || (event =? PTRACE_EVENT_CLONE) = true.
Proof.
  unfold forks. rewrite !elem_of_cons, elem_of_nil. by intros [->|[->|[->|[]]]].
Qed.
Lemma not_forks_event event : ¬ forks event →
  (event =? PTRACE_EVENT_FORK) || (event =? PTRACE_EVENT_VFORK) || (event =? PTRACE_EVENT_CLONE) = false.
Proof.
  intros H. rewrite !orb_false_iff, !Z.eqb_neq. unfold forks in H. rewrite !elem_of_cons, elem_of_nil in H.
  tauto.
Qed.
Lemma tracked_find s ks c f st : tracks s ks → ks !! c = Some f → expected f = Some st →
  ∃ i, find s c = Some i ∧ state_of s i = st.
Proof.
  intros [Hok Hreg] Hc He. pose proof (reg_find s c Hok) as H. rewrite Hreg, lookup_omap, Hc in H.
  cbn [mbind option_bind] in H. rewrite He in H. destruct (find s c) as [i|]; [|done].
  destruct H as [H _]. injection H as H. by exists i.
Qed.
Lemma untracked_find s ks c f : tracks s ks → ks !! c = Some f → expected f = None → find s c = None.
Proof.
  intros [Hok Hreg] Hc He. pose proof (reg_find s c Hok) as H. rewrite Hreg, lookup_omap, Hc in H.
  cbn [mbind option_bind] in H. rewrite He in H. destruct (find s c) as [i|]; [|done]. by destruct H.
Qed.

Lemma announce_turn s ks l p c f f' event o : tracks s ks → (size ks ≤ ALR_MAX_TRACEES)%nat →
  forks event → o_msg o = Some c → s32 c = c → ks !! c = Some f → announced f = Some f' →
  tracks (sv (fst (fst (event_stop lane (with_sv l s) p event o)))) (<[c := f']> ks).
Proof.
  intros Ht Hsize (_ & He & Hf)%forks_event Hmsg Hc32 Hc Hann. unfold event_stop. cbv zeta.
  cbn [sv with_sv]. rewrite Hmsg, Hf, He, Hc32. cbn [andb fst sv with_sv].
  destruct f; try done; injection Hann as <-.
  - by eapply tracks_add.
  - eapply tracks_same; [done| |by eapply tracks_add_known]. done.
  - by eapply tracks_add.
Qed.
Lemma startup_turn s ks l c f f' o : tracks s ks → (size ks ≤ ALR_MAX_TRACEES)%nat →
  ks !! c = Some f → first_stop f = Some f' →
  tracks (sv (fst (fst (signal_stop (with_sv l s) c SIGSTOP o)))) (<[c := f']> ks) ∧
  snd (fst (signal_stop (with_sv l s) c SIGSTOP o)) = [Cont c 0].
Proof.
  intros Ht Hsize Hc Hfirst. unfold signal_stop. cbn [sv with_sv].
  destruct f; try done; injection Hfirst as <-.
  - rewrite (untracked_find s ks c Unseen) by done. split; [|done]. by eapply tracks_add.
  - destruct (tracked_find s ks c Announced T_NEW Ht Hc eq_refl) as (i & Hi & Hst). rewrite Hi, Hst.
    rewrite bool_decide_eq_true_2, Z.eqb_refl by done. cbn [andb fst snd sv with_sv]. split; [|done].
    destruct Ht as [Hok Hreg]. destruct (reg_set s c i T_RUNNING Hok Hi) as [H1 H2]; [done|].
    split; [done|]. by rewrite H2, Hreg, (omap_insert_Some _ _ _ _ T_RUNNING).
Qed.
Lemma running_turn s ks l c f sig o : tracks s ks → ks !! c = Some f → running f →
  slots (sv (fst (fst (signal_stop (with_sv l s) c sig o)))) = slots s ∧
  (sig ≠ SIGSYS → snd (fst (signal_stop (with_sv l s) c sig o)) = [Cont c (if is_group_stop o sig then 0 else sig)]).
Proof.
  intros Ht Hc Hrun. assert (expected f = Some T_RUNNING) as He by (by destruct Hrun as [-> | ->]).
  destruct (tracked_find s ks c f _ Ht Hc He) as (i & Hi & Hst). unfold signal_stop. cbn [sv with_sv].
  rewrite Hi, Hst, bool_decide_eq_false_2 by done. cbn [andb].
  destruct (Z.eqb_spec sig SIGSYS) as [->|Hne].
  - pose proof (handle_sigsys_slots s c o) as Hs. destruct (handle_sigsys s c o) as [[s1 a] cons].
    cbn [fst] in Hs. destruct cons; [done|]. destruct (is_group_stop o SIGSYS); done.
  - by destruct (is_group_stop o sig).
Qed.
Lemma size_after_exit c f (ks : gmap Z life) : ks !! c = Some f → (size (after_exit c f ks) ≤ size ks)%nat.
Proof.
  intros Hc. destruct f; cbn [after_exit];
    first [rewrite map_size_insert_Some by eauto; done
          |rewrite map_size_delete_Some by eauto; lia].
Qed.
Lemma kstep_tracks l ks acts l' ks' : kstep l ks acts l' ks' →
  tracks (sv l) ks → (size ks ≤ ALR_MAX_TRACEES)%nat →
  tracks (sv l') ks' ∧ (size ks' ≤ ALR_MAX_TRACEES)%nat.
Proof.
  intros Hstep Ht Hsize. destruct Hstep as
    [c Hc Hroom|p c f f' pending status o l' acts v Hst Hev Hmsg Hc32 Hc Hann E
    |c f f' pending status o l' acts v Hst Hev Hsig Hc Hfirst E
    |c f pending status o l' acts v Hst Hev Hc Hrun E|c f pending status o l' acts v Hex Hc _ _ E].
  - split; [|rewrite map_size_insert_None by done; lia]. destruct Ht as [Hok Hreg]. split; [done|].
    rewrite Hreg, omap_insert_None by done. rewrite delete_id; [done|]. by rewrite lookup_omap, Hc.
  - rewrite map_size_insert_Some by eauto. split; [|done].
    apply turn_stop_cases in E as (s & kills & acts' & Hs & _ & _ & E); [|done].
    destruct (forks_event _ Hev) as (Hne & _). rewrite Hne in E.
    pose proof (announce_turn s ks l p c f f' (stop_event status) o (tracks_slots _ _ _ Hs Ht) Hsize
      Hev Hmsg Hc32 Hc Hann) as H. by rewrite <- E in H.
  - rewrite map_size_insert_Some by eauto. split; [|done].
    apply turn_stop_cases in E as (s & kills & acts' & Hs & _ & _ & E); [|done].
    rewrite Hev, Hsig in E. cbn [Z.eqb negb] in E.
    destruct (startup_turn s ks l c f f' o (tracks_slots _ _ _ Hs Ht) Hsize Hc Hfirst) as [H _].
    by rewrite <- E in H.
  - split; [|destruct (bool_decide _); [etransitivity; [by apply size_after_exit|done]|done]].
    apply turn_stop_cases in E as (s & kills & acts' & Hs & Hk & -> & E); [|done].
    assert (Detach c ∉ kills) as Hnk.
    { intros Hin. assert (Detach c ∈ resumes kills) as Hbad; [by apply list_elem_of_filter|].
      rewrite Hk in Hbad. by apply elem_of_nil in Hbad. }
    apply (tracks_slots _ _ _ Hs) in Ht. destruct (Z.eqb_spec (stop_event status) 0) as [E0|Hne]; cbn [negb] in E.
    + destruct (running_turn s ks l c f (WSTOPSIG status) o Ht Hc Hrun) as [H1 _].
      destruct (signal_stop_resumes (with_sv l s) c (WSTOPSIG status) o) as (inj & Hr & _).
      rewrite <- E in H1, Hr. cbn [fst snd] in *. rewrite bool_decide_eq_false_2.
      * by eapply tracks_slots.
      * intros [Hin|Hin]%elem_of_app; [done|]. assert (Detach c ∈ resumes acts') as Hbad; [by apply list_elem_of_filter|].
        rewrite Hr in Hbad. by apply list_elem_of_singleton in Hbad.
    + unfold event_stop in E. cbv zeta in E. cbn [sv with_sv] in E.
      rewrite (not_forks_event _ Hev) in E.
      assert (match o_msg o with Some _ => s | None => s end = s) as Em by (by destruct (o_msg o)).
      rewrite Em in E. destruct (_ && _).
      * injection E as -> -> ->. rewrite bool_decide_eq_true_2 by (apply elem_of_app; right; by left).
        cbn [sv with_sv]. by apply tracks_exit.
      * injection E as -> -> ->. rewrite bool_decide_eq_false_2; [done|].
        intros [Hin|Hin]%elem_of_app; [done|]. by apply list_elem_of_singleton in Hin.
  - split; [|etransitivity; [by apply size_after_exit|done]].
    unfold turn in E. pose proof (drain_slots (sv l) leader pending) as Hs.
    destruct (drain_pending (sv l) leader pending) as [s kills]. cbn [fst] in Hs. rewrite Hex in E.
    apply (tracks_slots _ _ _ Hs) in Ht.
    destruct (c =? leader); injection E as <- _ _; cbn [sv with_sv]; by apply tracks_exit.
Qed.
End kernel.

Lemma start_tracks cap st w leader l0 acts0 :
  alr_supervise_start cap st w = inr (leader, l0, acts0) → tracks (sv l0) {[leader := Both]}.
Proof.
  unfold alr_supervise_start. destruct (fork_pid w) as [ld|]; [|done].
  destruct (first_wait w); [|done]. destruct (negb _); [done|]. destruct (negb _); [done|].
  intros [= -> <- _]. cbn [sv]. set (s := mk_sup [] _ _).
  assert (reg_ok s) as Hok by (split; [apply NoDup_nil_2|unfold s; cbn; lia]).
  destruct (reg_add s leader T_RUNNING Hok) as [H1 H2]; [done|]. split; [done|].
  rewrite H2. change (reg s) with (∅ : gmap Z tstate). rewrite lookup_empty, decide_True.
  - by rewrite insert_empty, (omap_singleton_Some _ _ _ T_RUNNING).
  - rewrite map_size_empty. unfold ALR_MAX_TRACEES. lia.
Qed.
Lemma reach_tracks leader lane l0 l ks : kreach leader lane l0 l ks →
  tracks (sv l0) {[leader := Both]} → tracks (sv l) ks ∧ (size ks ≤ ALR_MAX_TRACEES)%nat.
Proof.
  intros Hr H0. induction Hr as [|l ks acts l' ks' _ IH Hstep].
  - split; [done|]. rewrite map_size_singleton. unfold ALR_MAX_TRACEES. lia.
  - destruct IH. by eapply kstep_tracks.
Qed.

(** The reports about a new tracee race, and the supervisor is right in every order: as
    long as no more than 512 tracees exist at once, whatever order the kernel reports
    first stops, fork events and exits in, the registry holds exactly the tracees that
    live (and those whose event came after their exit); the startup stop of a tracee is
    swallowed exactly once, in either order with its parent's event; and every later
    signal of it is delivered, its own SIGSTOP included. *)
Theorem startup_race (cap : Z) (st : bool) (w : started) (leader : Z) (l0 l : loop)
    (acts0 : list act) (lane : option bytes) (ks : gmap Z life) :
  alr_supervise_start cap st w = inr (leader, l0, acts0) → kreach leader lane l0 l ks →
  reg_ok (sv l) ∧ reg (sv l) = omap expected ks ∧ live (sv l) = size (omap expected ks) ∧
  (∀ c f f' pending status o,
     WIFSTOPPED status = true → stop_event status = 0 → WSTOPSIG status = SIGSTOP →
     ks !! c = Some f → first_stop f = Some f' →
     resumes (snd (fst (turn leader lane l pending (WStatus c status) o))) = [Cont c 0]) ∧
  (∀ c f pending status o,
     WIFSTOPPED status = true → stop_event status = 0 → WSTOPSIG status ≠ SIGSYS →
     ks !! c = Some f → running f →
     resumes (snd (fst (turn leader lane l pending (WStatus c status) o)))
     = [Cont c (if is_group_stop o (WSTOPSIG status) then 0 else WSTOPSIG status)]).
Proof.
  intros H0 Hr. apply start_tracks in H0. destruct (reach_tracks _ _ _ _ _ Hr H0) as [Ht Hsize].
  split; [apply Ht|]. split; [apply Ht|]. split.
  { destruct Ht as [Hok Hreg]. by rewrite live_size, Hreg. }
  split.
  - intros c f f' pending status o Hst Hev Hsig Hc Hfirst.
    destruct (turn leader lane l pending (WStatus c status) o) as [[l' acts] v] eqn:E.
    apply turn_stop_cases in E as (s & kills & acts' & Hs & Hk & -> & E); [|done].
    rewrite Hev, Hsig in E. cbn [Z.eqb negb] in E.
    destruct (startup_turn s ks l c f f' o (tracks_slots _ _ _ Hs Ht) Hsize Hc Hfirst) as [_ H].
    rewrite <- E in H. cbn [fst snd] in *. by rewrite resumes_app, Hk, H.
  - intros c f pending status o Hst Hev Hsig Hc Hrun.
    destruct (turn leader lane l pending (WStatus c status) o) as [[l' acts] v] eqn:E.
    apply turn_stop_cases in E as (s & kills & acts' & Hs & Hk & -> & E); [|done].
    rewrite Hev in E. cbn [Z.eqb negb] in E.
    destruct (running_turn s ks l c f (WSTOPSIG status) o (tracks_slots _ _ _ Hs Ht) Hc Hrun) as [_ H].
    rewrite <- E in H. cbn [fst snd] in *. by rewrite resumes_app, Hk, H.
Qed.

(** ** Concrete runs *)

Definition calm (_ : Z) : bool := false.
Definition quiet_obs : obs := mk_obs InfoFails None true None None.
Definition demo_start : started := mk_started (Some 100) (Some 0x137f) true.
Definition demo_loop : loop := mk_loop (mk_sup [(100, T_RUNNING)] (2 ^ 20) (Some one_tracee)) 0 false.
Lemma startup_race_witness :
  resumes (snd (fst (turn 100 None demo_loop calm (WStatus 101 0x137f) quiet_obs))) = [Cont 101 0].
Proof.
  refine (proj1 (proj2 (proj2 (proj2 (startup_race 0 true demo_start 100 demo_loop demo_loop [Cont 100 0] None
    (<[101 := Unseen]> {[100 := Both]}) _ _)))) 101 Unseen Started calm 0x137f quiet_obs _ _ _ _ _);
    try reflexivity.
  eapply kr_step; [apply kr_init|]. apply k_create; [reflexivity|]. apply Nat.ltb_lt. reflexivity.
Defined.
Lemma signals_faithful_witness :
  snd (fst (turn 100 None demo_loop calm (WStatus 100 0x137f) quiet_obs)) = [Cont 100 SIGSTOP].
Proof.
  refine (proj1 (signals_faithful 100 None demo_loop calm 100 0x137f quiet_obs _ _ _ _) _);
    try reflexivity.
  - split; [apply NoDup_singleton|]. apply Nat.leb_le. reflexivity.
  - left. discriminate.
Defined.

(** A trap of the app's filter, as the kernel reports it. *)
Definition trap_obs : obs :=
  mk_obs (Info SYS_SECCOMP 0 AUDIT_ARCH_AARCH64 99 0x4000) (Some (replicate 34 7)) true None None.
Example trap_emulated :
  snd (fst (turn 100 None demo_loop calm (WStatus 100 0x1f7f) trap_obs))
  = [SetRegs 100 (<[R_PC := 0x4000]> (<[R_RET := 0]> (replicate 34 7))); Cont 100 0].
Proof. vm_compute. done. Qed.
(** The 513th tracee: its trapped call is not emulated, and it is continued without its
    signal, so the call returns its own first argument. *)
Example registry_full :
  snd (fst (turn 1 None (mk_loop (mk_sup ((λ i, (Z.of_nat i, T_RUNNING)) <$> seq 1 512) 10 None) 0 false)
              calm (WStatus 1000 0x1f7f) trap_obs)) = [Cont 1000 0].
Proof. vm_compute. done. Qed.
(** A guest that traps by itself is counted as a syscall stop. *)
Example guest_sigtrap_counted :
  syscall_stops <$> stats (sv (fst (fst (turn 100 None demo_loop calm (WStatus 100 0x057f) quiet_obs))))
  = Some 1.
Proof. vm_compute. done. Qed.
(** A child whose fork event comes after its exit stays registered for ever. *)
Example late_event_leaks :
  let o := mk_obs InfoFails None true (Some 101) None in
  let '(l, _, r) := run_loop 100 None demo_loop
    [(calm, WStatus 101 0x137f, quiet_obs); (calm, WStatus 101 0, quiet_obs);
     (calm, WStatus 100 0x1057f, o); (calm, WStatus 100 0, quiet_obs)] in
  live (sv l) = 1%nat ∧ r = None.
Proof. vm_compute. done. Qed.

(** The table names each call once, and every answer is success, EPERM or ENOSYS. *)
Lemma sigsys_table nr :
  NoDup alr_sigsys_tab.*1 ∧ alr_sigsys_emulate nr ∈ [0; - EPERM; - ENOSYS] ∧
  (nr ∉ alr_sigsys_tab.*1 → alr_sigsys_emulate nr = - ENOSYS).
Proof.
  split; [by apply (bool_decide_unpack _)|]. unfold alr_sigsys_emulate.
  assert (Forall (λ p, snd p ∈ [0; - EPERM; - ENOSYS]) alr_sigsys_tab) as Ht
    by (by apply (bool_decide_unpack _)).
  split.
  - induction Ht as [|[k ret] tab Hp _ IH]; [right; right; by left|]. cbn [tab_find]. by destruct (k =? nr).
  - clear Ht. generalize alr_sigsys_tab. intros tab. induction tab as [|[k ret] tab IH]; [done|].
    cbn [tab_find fmap list_fmap fst]. rewrite not_elem_of_cons. intros [Hne Hin].
    rewrite (proj2 (Z.eqb_neq k nr)) by congruence. by apply IH.
Qed.
(** The exit code of the shell convention. *)
Lemma sup_code_exited n : 0 ≤ n < 256 → alr_exit_code (n * 256) = n.
Proof.
  intros Hn. assert (Forall (λ k, alr_exit_code (k * 256) = k) (Z.of_nat <$> seq 0 256)) as H
    by (apply (bool_decide_unpack _); vm_compute; done).
  apply (proj1 (Forall_forall _ _) H n). apply list_elem_of_fmap. exists (Z.to_nat n).
  rewrite elem_of_seq. lia.
Qed.
Lemma sup_code_signalled sig core : 1 ≤ sig < 127 → core = 0 ∨ core = 128 →
  alr_exit_code (sig + core) = 128 + sig.
Proof.
  intros Hs Hc. assert (Forall (λ k, alr_exit_code k = 128 + k ∧ alr_exit_code (k + 128) = 128 + k)
    (Z.of_nat <$> seq 1 126)) as H by (apply (bool_decide_unpack _); vm_compute; done).
  assert (sig ∈ Z.of_nat <$> seq 1 126) as Hin.
  { apply list_elem_of_fmap. exists (Z.to_nat sig). rewrite elem_of_seq. lia. }
  pose proof (proj1 (Forall_forall _ _) H sig Hin) as [H1 H2].
  destruct Hc as [->| ->]; [by rewrite Z.add_0_r|done].
Qed.
Close Scope Z_scope.
