(* ===== verification/FakerootDb.v ===== *)
(** * The fake-root metadata table: [alr_fakeroot/alr_fakeroot_db.h]

    Every guest process maps one file, an open-addressing hash table from (device,
    inode) to the owner, mode and device number the guest believes a file has.  The
    file holds the entry layout, the hash, [fr_find] and the three writers of
    [libalr_fakeroot.c], and the proof that the table implements a finite map of bounded
    size. *)

From S2P Require Import Prelude Bytes.
From stdpp Require Import fin_maps.
Open Scope Z_scope.

(** ** Entries *)

Record alr_fr_entry := mk_entry {
  key_dev : Z; key_ino : Z;
  f_uid : Z; f_gid : Z; f_mode : Z; f_rdev_lo : Z; f_rdev_hi : Z; f_flags : Z }.
Definition zero_entry : alr_fr_entry := mk_entry 0 0 0 0 0 0 0 0.
#[export] Instance entry_inhabited : Inhabited alr_fr_entry := populate zero_entry.
Definition ALR_FR_F_HAVE_UIDGID : Z := Z.shiftl 1 0.
Definition ALR_FR_F_HAVE_MODE : Z := Z.shiftl 1 1.
Definition ALR_FR_F_HAVE_RDEV : Z := Z.shiftl 1 2.

Definition FNV_PRIME : Z := 1099511628211.
Definition FNV_BASIS : Z := 1469598103934665603.
Fixpoint fnv_loop (i : nat) (h k : Z) : Z :=
  match i with
  | O => h
  | S i => fnv_loop i (u64 (Z.lxor h (Z.land k 0xff) * FNV_PRIME)) (Z.shiftr k 8)
  end.
Definition alr_fr_hash (dev ino : Z) : Z :=
  fnv_loop 8 FNV_BASIS (Z.lxor dev (u64 (ino * FNV_PRIME))).

(** ** The search *)

Abbreviation slot_table := (list alr_fr_entry).
Definition n_slots (t : slot_table) : Z := Z.of_nat (length t).

(** The loop of [fr_find] from [n] on, with [k] iterations left: the first slot that
    holds the key or is empty. *)
Fixpoint probe_loop (t : slot_table) (i dev ino : Z) (n : Z) (k : nat) : option nat :=
  match k with
  | O => None
  | S k =>
      let j := Z.to_nat (Z.land (u64 (i + n)) (n_slots t - 1)) in
      let e := t !!! j in
      if (key_ino e =? ino) && (key_dev e =? dev) then Some j
      else if key_ino e =? 0 then Some j
      else probe_loop t i dev ino (n + 1) k
  end.
Definition probe (t : slot_table) (dev ino : Z) : option nat :=
  probe_loop t (Z.land (alr_fr_hash dev ino) (n_slots t - 1)) dev ino 0 (length t).

Definition set_key_dev (dev : Z) (e : alr_fr_entry) : alr_fr_entry :=
  mk_entry dev (key_ino e) (f_uid e) (f_gid e) (f_mode e) (f_rdev_lo e) (f_rdev_hi e)
    (f_flags e).

(** [fr_find]: the slot, and the table with the device of a fresh slot filled in. *)
Definition fr_find (t : slot_table) (dev ino : Z) (create : bool) : option nat * slot_table :=
  if ino =? 0 then (None, t)
  else match probe t dev ino with
       | None => (None, t)
       | Some j =>
           if key_ino (t !!! j) =? 0 then
             if create then (Some j, <[j := set_key_dev dev (t !!! j)]> t) else (None, t)
           else (Some j, t)
       end.

(** ** The writers *)

(** The stores of a writer into the slot, the last one publishing the key. *)
Definition put_with (f : alr_fr_entry → alr_fr_entry) (t : slot_table) (dev ino : Z)
    : slot_table :=
  match fr_find t dev ino true with
  | (None, t') => t'
  | (Some j, t') => <[j := f (t' !!! j)]> t'
  end.
Definition fr_put_owner (t : slot_table) (dev ino uid gid : Z) : slot_table :=
  put_with (λ e, mk_entry (key_dev e) ino uid gid (f_mode e) (f_rdev_lo e) (f_rdev_hi e)
                   (Z.lor (f_flags e) ALR_FR_F_HAVE_UIDGID)) t dev ino.
Definition fr_put_mode (t : slot_table) (dev ino mode : Z) : slot_table :=
  put_with (λ e, mk_entry (key_dev e) ino (f_uid e) (f_gid e) mode (f_rdev_lo e) (f_rdev_hi e)
                   (Z.lor (f_flags e) ALR_FR_F_HAVE_MODE)) t dev ino.
Definition fr_put_node (t : slot_table) (dev ino mode rdev : Z) : slot_table :=
  put_with (λ e, mk_entry (key_dev e) ino (f_uid e) (f_gid e) mode (u32 rdev)
                   (u32 (Z.shiftr rdev 32))
                   (Z.lor (f_flags e)
                      (Z.lor ALR_FR_F_HAVE_MODE ALR_FR_F_HAVE_RDEV))) t dev ino.

(** ** The abstract map *)

(** What is overridden of a file. *)
Record override := mk_ov { ov_owner : option (Z * Z); ov_mode : option Z; ov_rdev : option Z }.
Definition no_override : override := mk_ov None None None.
Definition has_flag (e : alr_fr_entry) (flag : Z) : bool := negb (Z.land (f_flags e) flag =? 0).
Definition abs_entry (e : alr_fr_entry) : override :=
  mk_ov (if has_flag e ALR_FR_F_HAVE_UIDGID then Some (f_uid e, f_gid e) else None)
    (if has_flag e ALR_FR_F_HAVE_MODE then Some (f_mode e) else None)
    (if has_flag e ALR_FR_F_HAVE_RDEV
     then Some (Z.lor (Z.shiftl (f_rdev_hi e) 32) (f_rdev_lo e)) else None).

(** A writer, and the change it stands for. *)
Inductive fr_op :=
| PutOwner (dev ino uid gid : Z)
| PutMode (dev ino mode : Z)
| PutNode (dev ino mode rdev : Z).
Definition op_key (o : fr_op) : Z * Z :=
  match o with PutOwner d i _ _ | PutMode d i _ | PutNode d i _ _ => (d, i) end.
Definition op_change (o : fr_op) (v : override) : override :=
  match o with
  | PutOwner _ _ u g => mk_ov (Some (u, g)) (ov_mode v) (ov_rdev v)
  | PutMode _ _ m => mk_ov (ov_owner v) (Some m) (ov_rdev v)
  | PutNode _ _ m r => mk_ov (ov_owner v) (Some m) (Some r)
  end.
Definition fr_put (t : slot_table) (o : fr_op) : slot_table :=
  match o with
  | PutOwner d i u g => fr_put_owner t d i u g
  | PutMode d i m => fr_put_mode t d i m
  | PutNode d i m r => fr_put_node t d i m r
  end.

Abbreviation ov_map := (gmap (Z * Z) override).
(** The map has room for [N] keys, and inode 0 names no file. *)
Definition spec_put (N : nat) (M : ov_map) (o : fr_op) : ov_map :=
  if (snd (op_key o) =? 0) ||
     (bool_decide (M !! op_key o = None) && bool_decide (N ≤ size M)%nat)
  then M
  else <[op_key o := op_change o (default no_override (M !! op_key o))]> M.
Definition fr_lookup (t : slot_table) (dev ino : Z) : option override :=
  (λ j, abs_entry (t !!! j)) <$> fst (fr_find t dev ino false).

(** The values the C types hold. *)
Definition op_ok (o : fr_op) : Prop :=
  match o with
  | PutOwner d i _ _ | PutMode d i _ => 0 ≤ d < 2 ^ 64 ∧ 0 ≤ i < 2 ^ 64
  | PutNode d i _ r => (0 ≤ d < 2 ^ 64 ∧ 0 ≤ i < 2 ^ 64) ∧ 0 ≤ r < 2 ^ 64
  end.

(** ** The probe sequence *)

Definition key_of (e : alr_fr_entry) : Z * Z := (key_dev e, key_ino e).
Definition occupied (e : alr_fr_entry) : Prop := key_ino e ≠ 0.
#[export] Instance occupied_dec e : Decision (occupied e).
Proof. unfold occupied. apply _. Defined.
(** The search for the key stops at the entry. *)
Definition hit (k : Z * Z) (e : alr_fr_entry) : Prop := key_of e = k ∨ key_ino e = 0.
#[export] Instance hit_dec k e : Decision (hit k e).
Proof. unfold hit. apply _. Defined.

Section probe.
Context (b : nat) (t : slot_table).
Hypothesis Hlen : n_slots t = 2 ^ Z.of_nat b.
Hypothesis Hb : (b ≤ 62)%nat.

Definition slot_at (d i : Z) (n : nat) : nat :=
  Z.to_nat ((alr_fr_hash d i + Z.of_nat n) mod n_slots t).
Definition positions (d i : Z) : list nat := slot_at d i <$> seq 0 (length t).

Lemma slots_bound : 0 < n_slots t ≤ 2 ^ 62.
Proof.
  rewrite Hlen. split; [apply Z.pow_pos_nonneg; lia|]. apply Z.pow_le_mono_r; lia.
Qed.
Lemma land_mask x : Z.land x (n_slots t - 1) = x mod n_slots t.
Proof.
  rewrite Hlen. rewrite <- (Z.land_ones x (Z.of_nat b)) by lia.
  by rewrite Z.ones_equiv, Z.sub_1_r.
Qed.

Lemma slot_at_lt d i n : (slot_at d i n < length t)%nat.
Proof.
  pose proof slots_bound. unfold slot_at.
  pose proof (Z.mod_pos_bound (alr_fr_hash d i + Z.of_nat n) (n_slots t)). unfold n_slots in *. lia.
Qed.
(** Every slot is visited. *)
Lemma slot_at_surj d i j :
  (j < length t)%nat → j ∈ positions d i.
Proof.
  pose proof slots_bound. intros Hj. apply list_elem_of_fmap.
  exists (Z.to_nat ((Z.of_nat j - alr_fr_hash d i) mod n_slots t)).
  pose proof (Z.mod_pos_bound (Z.of_nat j - alr_fr_hash d i) (n_slots t) ltac:(lia)).
  split; [|apply elem_of_seq; unfold n_slots in *; lia].
  unfold slot_at. rewrite Z2Nat.id by lia. rewrite Z.add_mod_idemp_r by lia.
  replace (alr_fr_hash d i + (Z.of_nat j - alr_fr_hash d i)) with (Z.of_nat j) by lia.
  rewrite Z.mod_small by (unfold n_slots; lia). lia.
Qed.

Lemma probe_loop_find d i n k :
  i ≠ 0 → Z.of_nat (n + k) ≤ n_slots t →
  probe_loop t (Z.land (alr_fr_hash d i) (n_slots t - 1)) d i (Z.of_nat n) k
  = snd <$> list_find (λ j, hit (d, i) (t !!! j)) (slot_at d i <$> seq n k).
Proof.
  intros Hi. revert n. induction k as [|k IH]; intros n Hn; [done|].
  cbn [probe_loop seq fmap list_fmap list_find].
  assert (Z.to_nat (Z.land (u64 (Z.land (alr_fr_hash d i) (n_slots t - 1) + Z.of_nat n))
    (n_slots t - 1)) = slot_at d i n) as ->.
  { pose proof slots_bound. rewrite !land_mask.
    pose proof (Z.mod_pos_bound (alr_fr_hash d i) (n_slots t) ltac:(lia)).
    rewrite u64_small by lia. unfold slot_at. by rewrite Z.add_mod_idemp_l by lia. }
  replace (Z.of_nat n + 1) with (Z.of_nat (S n)) by lia. rewrite IH by lia.
  set (e := t !!! slot_at d i n).
  assert ((if (key_ino e =? i) && (key_dev e =? d) then Some (slot_at d i n)
           else if key_ino e =? 0 then Some (slot_at d i n)
           else snd <$> list_find (λ j, hit (d, i) (t !!! j)) (slot_at d i <$> seq (S n) k))
    = if decide (hit (d, i) e) then Some (slot_at d i n)
      else snd <$> list_find (λ j, hit (d, i) (t !!! j)) (slot_at d i <$> seq (S n) k)) as ->.
  { unfold hit, key_of. case_decide as Hd.
    - destruct Hd as [[= -> ->]| ->]; [by rewrite !Z.eqb_refl|]. by destruct (_ && _).
    - destruct (key_ino e =? i) eqn:E1, (key_dev e =? d) eqn:E2; cbn [andb];
        destruct (key_ino e =? 0) eqn:E3; try done; exfalso; apply Hd;
        first [right; lia|left; f_equal; lia]. }
  generalize (list_find (λ j, hit (d, i) (t !!! j)) (slot_at d i <$> seq (S n) k)) as r.
  generalize (slot_at d i n) as j. clearbody e. intros j r.
  destruct (decide (hit (d, i) e)); [done|]. by destruct r as [[? ?]|].
Qed.
Lemma probe_find d i :
  i ≠ 0 → probe t d i = snd <$> list_find (λ j, hit (d, i) (t !!! j)) (positions d i).
Proof. intros Hi. by apply (probe_loop_find d i 0). Qed.

Lemma probe_Some d i j :
  i ≠ 0 →
  probe t d i = Some j ↔
  ∃ n, positions d i !! n = Some j ∧ hit (d, i) (t !!! j) ∧
    ∀ m j', positions d i !! m = Some j' → (m < n)%nat → ¬ hit (d, i) (t !!! j').
Proof.
  intros Hi. rewrite probe_find by done. rewrite fmap_Some. split.
  - intros ([n j'] & H & ->). apply list_find_Some in H. by exists n.
  - intros (n & H). exists (n, j). split; [|done]. by apply list_find_Some.
Qed.
Lemma probe_None d i :
  i ≠ 0 → probe t d i = None ↔ ∀ j, (j < length t)%nat → ¬ hit (d, i) (t !!! j).
Proof.
  intros Hi. rewrite probe_find by done. rewrite fmap_None, list_find_None, Forall_forall.
  split; intros H j Hj; apply H.
  - by apply slot_at_surj.
  - apply list_elem_of_fmap in Hj as (n & -> & _). apply slot_at_lt.
Qed.
Lemma probe_lt d i j : i ≠ 0 → probe t d i = Some j → (j < length t)%nat.
Proof.
  intros Hi H. apply probe_Some in H as (n & H & _); [|done].
  apply list_elem_of_lookup_2, list_elem_of_fmap in H as (? & -> & _). apply slot_at_lt.
Qed.
End probe.

(** ** The table implements the map *)

(** [2 ^ b] slots; an unpublished slot has no flags; a search for the key of a published
    slot ends there; the published slots are the map. *)
Record table_ok (b : nat) (t : slot_table) (M : ov_map) : Prop := {
  tk_len : n_slots t = 2 ^ Z.of_nat b;
  tk_b : (b ≤ 62)%nat;
  tk_fresh : ∀ j e, t !! j = Some e → key_ino e = 0 → f_flags e = 0;
  tk_probe : ∀ j e, t !! j = Some e → occupied e → probe t (key_dev e) (key_ino e) = Some j;
  tk_map : ∀ k o, M !! k = Some o ↔
    ∃ j e, t !! j = Some e ∧ occupied e ∧ key_of e = k ∧ abs_entry e = o
}.

Lemma empty_table_ok b :
  (b ≤ 62)%nat → table_ok b (replicate (2 ^ b) zero_entry) ∅.
Proof.
  intros Hb. split; [|done| | |].
  - unfold n_slots. rewrite length_replicate, Nat2Z.inj_pow. done.
  - intros j e [-> _]%lookup_replicate. done.
  - intros j e [-> _]%lookup_replicate Ho. done.
  - intros k o. rewrite lookup_empty. split; [done|].
    intros (j & e & [-> _]%lookup_replicate & Ho & _). done.
Qed.

Lemma filter_NoDup_fmap {A B} (P : A → Prop) `{∀ x, Decision (P x)} (f : A → B) (l : list A) :
  (∀ i j x y, l !! i = Some x → l !! j = Some y → P x → P y → f x = f y → i = j) →
  NoDup (f <$> filter P l).
Proof.
  induction l as [|x l IH]; intros Hinj; [apply NoDup_nil; exact I|].
  rewrite filter_cons. assert (NoDup (f <$> filter P l)) as Hl.
  { apply IH. intros i j y z Hy Hz Py Pz Heq.
    assert (S i = S j) by (by apply (Hinj (S i) (S j) y z)). lia. }
  destruct (decide (P x)) as [Px|]; [|exact Hl]. cbn. apply NoDup_cons. split; [|exact Hl].
  intros (y & Hy & [Py Hin]%list_elem_of_filter)%list_elem_of_fmap.
  apply list_elem_of_lookup in Hin as [j Hj].
  assert (0 = S j)%nat by (by apply (Hinj 0%nat (S j) x y)). lia.
Qed.

Section refine.
Context (b : nat) (t : slot_table) (M : ov_map).
Hypothesis Ht : table_ok b t M.

Lemma tk_unique i j x y :
  t !! i = Some x → t !! j = Some y → occupied x → occupied y → key_of x = key_of y → i = j.
Proof.
  intros Hx Hy Ox Oy [= Hd Hi]. pose proof (tk_probe _ _ _ Ht i x Hx Ox) as H1.
  pose proof (tk_probe _ _ _ Ht j y Hy Oy) as H2. rewrite Hd, Hi, H2 in H1. by injection H1.
Qed.

(** As many keys as published slots. *)
Lemma tk_size : size M = length (filter occupied t).
Proof.
  set (L := (λ e, (key_of e, abs_entry e)) <$> filter occupied t).
  assert (L.*1 = key_of <$> filter occupied t) as HL.
  { unfold L. rewrite <- list_fmap_compose. by apply list_fmap_ext. }
  assert (NoDup L.*1) as Hnd.
  { rewrite HL. apply filter_NoDup_fmap. exact tk_unique. }
  assert (M = list_to_map L) as ->.
  { apply map_eq. intros k. apply option_eq. intros o.
    rewrite (tk_map _ _ _ Ht), <- elem_of_list_to_map by exact Hnd. unfold L.
    rewrite list_elem_of_fmap. split.
    - intros (j & e & He & Ho & <- & <-). exists e. split; [done|].
      apply list_elem_of_filter. split; [done|]. by apply list_elem_of_lookup_2 in He.
    - intros (e & [= -> ->] & [Ho [j Hj]%list_elem_of_lookup]%list_elem_of_filter).
      by exists j, e. }
  rewrite map_size_list_to_map by exact Hnd. unfold L. by rewrite length_fmap.
Qed.

Lemma slot_total j : (j < length t)%nat → t !! j = Some (t !!! j).
Proof. intros Hj. by apply list_lookup_lookup_total_lt. Qed.

(** The three outcomes of a search. *)
Lemma probe_cases d i :
  i ≠ 0 →
  (probe t d i = None ∧ M !! (d, i) = None ∧ size M = length t) ∨
  (∃ j, probe t d i = Some j ∧ (j < length t)%nat ∧
     (key_ino (t !!! j) = 0 ∧ M !! (d, i) = None ∧ (size M < length t)%nat ∨
      key_of (t !!! j) = (d, i) ∧ M !! (d, i) = Some (abs_entry (t !!! j)))).
Proof.
  intros Hi. pose proof (tk_len _ _ _ Ht) as Hlen. pose proof (tk_b _ _ _ Ht) as Hb.
  destruct (probe t d i) as [j|] eqn:E.
  - right. exists j. pose proof (probe_lt b t Hlen Hb d i j Hi E) as Hj.
    split; [done|]. split; [done|]. pose proof (slot_total j Hj) as Hs.
    pose proof E as E'. apply (proj1 (probe_Some b t Hlen Hb d i j Hi)) in E' as (n & _ & [Hk|Hz] & _).
    + right. split; [done|]. apply (tk_map _ _ _ Ht). exists j, (t !!! j).
      split_and!; try done. unfold occupied. by injection Hk as _ ->.
    + left. split; [done|]. split.
      * destruct (M !! (d, i)) as [o|] eqn:Em; [|done].
        apply (tk_map _ _ _ Ht) in Em as (j' & e & He & Ho & [= <- <-] & _).
        pose proof (tk_probe _ _ _ Ht j' e He Ho) as E2. rewrite E in E2.
        injection E2 as <-. rewrite Hs in He. injection He as <-. done.
      * rewrite tk_size. apply length_filter_lt with (t !!! j).
        -- by apply list_elem_of_lookup_2 in Hs.
        -- by intros Ho.
  - left. split; [done|]. pose proof (proj1 (probe_None b t Hlen Hb d i Hi) E) as E'. clear E. rename E' into E.
    split.
    + destruct (M !! (d, i)) as [o|] eqn:Em; [|done].
      apply (tk_map _ _ _ Ht) in Em as (j & e & He & _ & Hk & _). exfalso.
      pose proof (lookup_lt_Some _ _ _ He) as Hj. apply (E j Hj).
      rewrite (slot_total j Hj) in He. injection He as <-. by left.
    + rewrite tk_size. f_equal. apply filter_all. apply Forall_forall.
      intros e [j Hj]%list_elem_of_lookup. pose proof (lookup_lt_Some _ _ _ Hj) as Hl.
      rewrite (slot_total j Hl) in Hj. injection Hj as <-. intros Hz. apply (E j Hl). by right.
Qed.

(** Publishing an entry in the slot that the search for its key found. *)
Section publish.
Context (d i : Z) (j : nat) (e' : alr_fr_entry).
Hypothesis Hi : i ≠ 0.
Hypothesis Hp : probe t d i = Some j.
Hypothesis Hk : key_of e' = (d, i).

Lemma publish_lt : (j < length t)%nat.
Proof. exact (probe_lt b t (tk_len _ _ _ Ht) (tk_b _ _ _ Ht) d i j Hi Hp). Qed.
Lemma publish_hit : hit (d, i) (t !!! j).
Proof.
  pose proof (tk_len _ _ _ Ht) as Hlen. pose proof (tk_b _ _ _ Ht) as Hb.
  by apply (proj1 (probe_Some b t Hlen Hb d i j Hi)) in Hp as (n & _ & ? & _).
Qed.
Lemma publish_len : n_slots (<[j := e']> t) = 2 ^ Z.of_nat b.
Proof. unfold n_slots. rewrite length_insert. exact (tk_len _ _ _ Ht). Qed.
Lemma publish_positions d' i' : positions (<[j := e']> t) d' i' = positions t d' i'.
Proof. unfold positions, slot_at, n_slots. by rewrite length_insert. Qed.

(** A search ends where it ended, if what it looks for has not been moved. *)
Lemma publish_probe d' i' j' :
  i' ≠ 0 → probe t d' i' = Some j' → (j' = j ↔ (d', i') = (d, i)) →
  probe (<[j := e']> t) d' i' = Some j'.
Proof.
  intros Hi' Hp' Hjj.
  pose proof (tk_len _ _ _ Ht) as Hlen. pose proof (tk_b _ _ _ Ht) as Hb.
  apply (proj1 (probe_Some b t Hlen Hb d' i' j' Hi')) in Hp' as (n & Hn & Hh & Hbefore).
  apply (proj2 (probe_Some b _ publish_len Hb d' i' j' Hi')). exists n.
  rewrite publish_positions. split; [done|]. split.
  - destruct (decide (j' = j)) as [->|Hne].
    + rewrite list_lookup_total_insert_eq by exact publish_lt. left.
      rewrite Hk. symmetry. by apply Hjj.
    + by rewrite list_lookup_total_insert_ne by done.
  - intros m q Hm Hlt. pose proof (Hbefore m q Hm Hlt) as Hnh.
    destruct (decide (q = j)) as [->|Hq];
      [|by rewrite list_lookup_total_insert_ne by done].
    rewrite list_lookup_total_insert_eq by exact publish_lt. intros [Hk'|Hz].
    + rewrite Hk in Hk'. rewrite <- Hk' in Hnh. apply Hnh. exact publish_hit.
    + pose proof Hk as Hk0. injection Hk0 as _ Hki. congruence.
Qed.

(** The other published slots. *)
Lemma publish_other j' e :
  t !! j' = Some e → occupied e → key_of e ≠ (d, i) → j' ≠ j.
Proof.
  intros He Ho Hne ->. pose proof publish_hit as [Hh|Hh];
    rewrite (list_lookup_total_correct _ _ _ He) in Hh; [done|by apply Ho].
Qed.
Lemma publish_same j' e :
  t !! j' = Some e → occupied e → key_of e = (d, i) → j' = j.
Proof.
  intros He Ho Hkk. pose proof (tk_probe _ _ _ Ht _ _ He Ho) as E.
  injection Hkk as Hd Hii. rewrite Hd, Hii, Hp in E. by injection E.
Qed.

Lemma publish_ok : table_ok b (<[j := e']> t) (<[(d, i) := abs_entry e']> M).
Proof.
  pose proof publish_lt as Hj. assert (occupied e') as Ho'.
  { unfold occupied. pose proof Hk as Hk0. injection Hk0 as _ ->. exact Hi. }
  split; [exact publish_len|exact (tk_b _ _ _ Ht)| | |].
  - intros j' e [(<- & <- & _)|(Hne & He)]%list_lookup_insert_Some Hz; [by destruct Ho'|].
    by apply (tk_fresh _ _ _ Ht j' e).
  - intros j' e [(<- & <- & _)|(Hne & He)]%list_lookup_insert_Some Ho.
    + pose proof Hk as Hk0. injection Hk0 as Hkd Hki. rewrite Hkd, Hki. by apply publish_probe.
    + apply publish_probe; [exact Ho|by apply (tk_probe _ _ _ Ht)|].
      split; intros Heq; [by destruct Hne|]. symmetry in Heq.
      destruct Hne. symmetry. by apply (publish_same j' e).
  - intros k o. destruct (decide (k = (d, i))) as [->|Hkk].
    + rewrite lookup_insert_eq. split.
      * intros [= <-]. exists j, e'. split_and!; try done.
        by rewrite list_lookup_insert_eq.
      * intros (j' & e & [(<- & <- & _)|(Hne & He)]%list_lookup_insert_Some & Ho & Hke & <-);
          [done|]. destruct Hne. symmetry. by apply (publish_same j' e).
    + rewrite lookup_insert_ne, (tk_map _ _ _ Ht) by done.
      split; intros (j' & e & He & Ho & Hke & Ha); exists j', e; split_and!; try done.
      * rewrite list_lookup_insert_ne; [done|]. apply not_eq_sym.
        apply (publish_other j' e He Ho). congruence.
      * apply list_lookup_insert_Some in He as [(_ & <- & _)|(_ & He)]; [congruence|done].
Qed.
End publish.
End refine.

(** ** The writers implement [spec_put] *)

Lemma land_pow2 x k : 0 ≤ k → negb (Z.land x (Z.shiftl 1 k) =? 0) = Z.testbit x k.
Proof.
  intros Hk. rewrite Z.shiftl_1_l. destruct (Z.testbit x k) eqn:E.
  - apply negb_true_iff, Z.eqb_neq. intros H.
    assert (Z.testbit (Z.land x (2 ^ k)) k = false) as H' by (by rewrite H, Z.bits_0).
    rewrite Z.land_spec, E, Z.pow2_bits_true in H' by done. done.
  - apply negb_false_iff, Z.eqb_eq. apply Z.bits_inj'. intros n Hn.
    rewrite Z.land_spec, Z.bits_0. destruct (decide (n = k)) as [->|]; [by rewrite E|].
    rewrite Z.pow2_bits_false by done. by rewrite andb_false_r.
Qed.
Lemma split_halves r :
  0 ≤ r < 2 ^ 64 → Z.lor (Z.shiftl (u32 (Z.shiftr r 32)) 32) (u32 r) = r.
Proof.
  intros Hr. unfold u32. rewrite (Z.mod_small (Z.shiftr r 32)).
  2:{ rewrite Z.shiftr_div_pow2 by lia. split; [apply Z.div_pos; lia|].
      apply Z.div_lt_upper_bound; lia. }
  by apply lor_shiftl_mod.
Qed.

(** The stores of a writer. *)
Definition op_entry (o : fr_op) (e : alr_fr_entry) : alr_fr_entry :=
  match o with
  | PutOwner _ i u g =>
      mk_entry (key_dev e) i u g (f_mode e) (f_rdev_lo e) (f_rdev_hi e)
        (Z.lor (f_flags e) ALR_FR_F_HAVE_UIDGID)
  | PutMode _ i m =>
      mk_entry (key_dev e) i (f_uid e) (f_gid e) m (f_rdev_lo e) (f_rdev_hi e)
        (Z.lor (f_flags e) ALR_FR_F_HAVE_MODE)
  | PutNode _ i m r =>
      mk_entry (key_dev e) i (f_uid e) (f_gid e) m (u32 r) (u32 (Z.shiftr r 32))
        (Z.lor (f_flags e) (Z.lor ALR_FR_F_HAVE_MODE ALR_FR_F_HAVE_RDEV))
  end.
Lemma fr_put_entry t o :
  fr_put t o = put_with (op_entry o) t (fst (op_key o)) (snd (op_key o)).
Proof. by destruct o. Qed.
Lemma op_entry_key o e : key_of (op_entry o e) = (key_dev e, snd (op_key o)).
Proof. by destruct o. Qed.
Lemma op_entry_abs o e : op_ok o → abs_entry (op_entry o e) = op_change o (abs_entry e).
Proof.
  intros Ho. unfold abs_entry, has_flag, ALR_FR_F_HAVE_UIDGID, ALR_FR_F_HAVE_MODE,
    ALR_FR_F_HAVE_RDEV.
  rewrite !land_pow2 by lia.
  destruct o as [d i u g|d i m|d i m r]; cbn [op_entry op_change f_flags f_uid f_gid f_mode
    f_rdev_lo f_rdev_hi ov_owner ov_mode ov_rdev]; rewrite !Z.lor_spec;
    unfold ALR_FR_F_HAVE_UIDGID, ALR_FR_F_HAVE_MODE, ALR_FR_F_HAVE_RDEV;
    rewrite ?Z.shiftl_1_l, ?Z.lor_spec, ?Z.pow2_bits_eqb by lia; cbn [Z.eqb Pos.eqb];
    rewrite ?orb_true_r, ?orb_false_r; cbn [orb]; rewrite ?orb_true_r; try done.
  destruct Ho as [_ Hr]. by rewrite split_halves.
Qed.

Lemma abs_entry_fresh e d : f_flags e = 0 → abs_entry (set_key_dev d e) = no_override.
Proof. intros H. unfold abs_entry, has_flag. cbn [f_flags set_key_dev]. by rewrite H. Qed.

Lemma fr_put_ok b t M o :
  op_ok o → table_ok b t M → table_ok b (fr_put t o) (spec_put (length t) M o).
Proof.
  intros Ho Ht. rewrite fr_put_entry. unfold put_with, fr_find, spec_put.
  destruct (op_key o) as [d i] eqn:Ek. cbn [fst snd].
  destruct (i =? 0) eqn:Ei; [exact Ht|]. apply Z.eqb_neq in Ei. cbn [orb].
  destruct (probe_cases b t M Ht d i Ei) as [(Hp & Hm & Hs)|(j & Hp & Hj & Hc)]; rewrite Hp.
  - rewrite !bool_decide_true by (done || lia). exact Ht.
  - assert (∀ e, key_of (op_entry o (set_key_dev d e)) = (d, i)) as Hkey.
    { intros e. by rewrite op_entry_key, Ek. }
    destruct Hc as [(Hz & Hm & Hs)|(Hk & Hm)].
    + rewrite Hz, Z.eqb_refl, Hm, (bool_decide_false (length t ≤ size M)%nat), andb_false_r by lia.
      rewrite list_lookup_total_insert_eq, list_insert_insert_eq by done. unfold default, id; cbn [from_option].
      rewrite <- (abs_entry_fresh (t !!! j) d), <- op_entry_abs by
        first [done|by apply (tk_fresh _ _ _ Ht j); [apply slot_total|]].
      by apply publish_ok.
    + assert (key_ino (t !!! j) ≠ 0) as Hnz by (injection Hk; congruence).
      apply Z.eqb_neq in Hnz. rewrite Hnz, Hm. rewrite (bool_decide_false (Some _ = None)) by done.
      cbn [andb]; unfold default, id; cbn [from_option]. rewrite <- op_entry_abs by done. apply publish_ok; try done.
      rewrite op_entry_key, Ek. cbn [snd]. f_equal. by injection Hk.
Qed.

Lemma fr_put_length t o : length (fr_put t o) = length t.
Proof.
  rewrite fr_put_entry. unfold put_with, fr_find.
  repeat case_match; simplify_eq; by rewrite ?length_insert.
Qed.
Lemma fr_lookup_ok b t M d i : table_ok b t M → i ≠ 0 → fr_lookup t d i = M !! (d, i).
Proof.
  intros Ht Hi. unfold fr_lookup, fr_find. apply Z.eqb_neq in Hi as Hi'. rewrite Hi'.
  destruct (probe_cases b t M Ht d i Hi) as [(Hp & Hm & _)|(j & Hp & _ & [(Hz & Hm & _)|(Hk & Hm)])];
    rewrite Hp, Hm; [done|by rewrite Hz|].
  destruct (Z.eqb_spec (key_ino (t !!! j)) 0) as [Hz|_]; [|done].
  destruct Hi. injection Hk; congruence.
Qed.
Lemma spec_put_zero N M o d : M !! (d, 0) = None → spec_put N M o !! (d, 0) = None.
Proof.
  intros HM. unfold spec_put. destruct (_ || _) eqn:E; [done|].
  apply orb_false_iff in E as [E _]. apply Z.eqb_neq in E.
  rewrite lookup_insert_ne; [done|]. intros H. by rewrite H in E.
Qed.
Lemma spec_puts_ok b t M ops :
  Forall op_ok ops → table_ok b t M →
  table_ok b (foldl fr_put t ops) (foldl (spec_put (length t)) M ops).
Proof.
  intros H. revert t M. induction H as [|o ops Ho _ IH]; intros t M Ht; [done|].
  cbn [foldl]. rewrite <- (fr_put_length t o). apply IH. rewrite fr_put_length.
  by apply fr_put_ok.
Qed.
Lemma spec_puts_zero N M ops d :
  M !! (d, 0) = None → foldl (spec_put N) M ops !! (d, 0) = None.
Proof. revert M. induction ops as [|o ops IH]; intros M H; [done|]. by apply IH, spec_put_zero. Qed.

(** C17. The shared fake-root table is a finite map: whatever sequence of owner, mode and
    device records the guest processes write into an empty table of 2^b slots, a lookup
    returns exactly what the abstract map of at most 2^b keys holds after the same
    records; a full table drops new keys and keeps updating the old ones, inode 0 is
    never stored, and no record disturbs another file's. *)
Theorem fakeroot_db_refines (b : nat) (ops : list fr_op) (d i : Z) :
  (b ≤ 62)%nat → Forall op_ok ops →
  fr_lookup (foldl fr_put (replicate (2 ^ b) zero_entry) ops) d i
  = foldl (spec_put (2 ^ b)) ∅ ops !! (d, i).
Proof.
  intros Hb Hops. pose proof (spec_puts_ok b _ ∅ ops Hops (empty_table_ok b Hb)) as Ht.
  rewrite length_replicate in Ht. destruct (decide (i = 0)) as [->|Hi].
  - by rewrite spec_puts_zero.
  - by apply (fr_lookup_ok b).
Qed.

Definition demo_ops : list fr_op :=
  [PutOwner 64768 12 0 0; PutNode 64768 13 0x21b6 0x10003; PutMode 64768 12 0x89ed].
Lemma fakeroot_db_refines_witness :
  Forall op_ok demo_ops ∧
  fr_lookup (foldl fr_put (replicate (2 ^ 2) zero_entry) demo_ops) 64768 12
  = foldl (spec_put (2 ^ 2)) ∅ demo_ops !! (64768, 12).
Proof.
  assert (Forall op_ok demo_ops) as H by (repeat constructor; cbn; lia).
  split; [exact H|]. apply (fakeroot_db_refines 2 demo_ops 64768 12); [lia|exact H].
Defined.
Close Scope Z_scope.
