(* ===== verification/Fakeroot.v ===== *)
(** * The fake-root library: [alr_fakeroot/libalr_fakeroot.c]

    A preloaded library that lets a package manager believe it is root: the credential
    calls answer 0, the [chown], [chmod] and [mknod] families record what they were asked
    in the table of [FakerootDb], and the [stat] families lay the record over what the
    kernel says.  The next definition of a symbol in search order ([dlsym(RTLD_NEXT, .)])
    is a parameter ([libc]), which may be missing. *)

From S2P Require Import Prelude Bytes FakerootDb.
From stdpp Require Import fin_maps.
Open Scope Z_scope.

(** ** The rootfs prefix *)

Fixpoint fr_under (p d : bytes) : bool :=
  match d, p with
  | [], [] => true
  | [], c :: _ => bool_decide (c = slash)
  | _ :: _, [] => false
  | x :: d', y :: p' => bool_decide (y = x) && fr_under p' d'
  end.

(** A [const char*] that may be null. *)
Abbreviation cpath := (option bytes).

(** [fr_init_rootfs]: what [g_rootfs] holds; empty means [g_rootfs_len == 0]. *)
Fixpoint strip_slashes (n : nat) (r : bytes) : nat :=
  match n with
  | S (S m as n') => if bool_decide (r !! n' = Some slash) then strip_slashes n' r else n
  | _ => n
  end.
Definition ROOTFS_MAX : nat := 1024.
Definition fr_init_rootfs (env : cpath) : bytes :=
  match env with
  | Some r =>
      if starts_slash r then
        let n := strip_slashes (length r) r in
        let n := if (ROOTFS_MAX <=? n)%nat then (ROOTFS_MAX - 1)%nat else n in
        if (n =? 1)%nat then [] else take n r
      else []
  | None => []
  end.

Definition FR_PBUF : nat := 2304.
Definition fr_rw (rootfs : bytes) (p : cpath) (buflen : nat) : cpath :=
  match p with
  | Some s =>
      if negb (starts_slash s) then p
      else if (length rootfs =? 0)%nat then p
      else if fr_under s "/proc" || fr_under s "/sys" || fr_under s "/dev" then p
      else if fr_under s rootfs then p
      else if (buflen <? length rootfs + length s + 1)%nat then p
      else Some (rootfs ++ s)
  | None => None
  end.
(** [(path && path[0]=='/') ? fr_rw(path) : path] *)
Definition fr_rw_at (rootfs : bytes) (p : cpath) (buflen : nat) : cpath :=
  match p with
  | Some s => if starts_slash s then fr_rw rootfs p buflen else p
  | None => None
  end.

(** ** Opening the table *)

(** [while (p2 < slots) p2 <<= 1]; [None]: still running. *)
Fixpoint round_p2 (fuel : nat) (p2 slots : Z) : option Z :=
  match fuel with
  | O => None
  | S fuel => if p2 <? slots then round_p2 fuel (u64 (Z.shiftl p2 1)) slots else Some p2
  end.
Fixpoint parse_slots (v : Z) (s : bytes) : Z :=
  match s with
  | c :: s' =>
      if (48 <=? byte_val c) && (byte_val c <=? 57)
      then parse_slots (u64 (v * 10 + (byte_val c - 48))) s' else v
  | [] => v
  end.
Definition DEFAULT_SLOTS : Z := 262144.
Definition wanted_slots (env : cpath) : Z :=
  match env with
  | Some ((_ :: _) as s) => let v := parse_slots 0 s in if 1024 <=? v then v else DEFAULT_SLOTS
  | _ => DEFAULT_SLOTS
  end.
Definition ALR_FR_MAGIC : Z := 0x414C524600314B46.
Definition ALR_FR_VERSION : Z := 1.
Definition ALR_FR_SLOTS_OFF : Z := 4096.
Definition sizeof_entry : Z := 40.
Definition db_total (slots : Z) : Z := u64 (ALR_FR_SLOTS_OFF + slots * sizeof_entry).

Record db_file := mk_db { magic : Z; version : Z; lock : Z; hdr_slots : Z; n_used : Z;
                          slots : slot_table }.
Definition empty_file : db_file := mk_db 0 0 0 0 0 [].
(** [ftruncate] to the header page and [n] slots: what is beyond is lost, what is new
    is zero. *)
Definition truncate_to (f : db_file) (n : nat) : db_file :=
  mk_db (magic f) (version f) (lock f) (hdr_slots f) (n_used f)
    (take n (slots f) ++ replicate (n - length (slots f)) zero_entry).
(** The rest of [fr_init_db] on a file that could be sized and mapped for [n] slots: the
    file, and whether the table is in use. *)
Definition fr_init_db (f : db_file) (n : Z) : db_file * bool :=
  let f := truncate_to f (Z.to_nat n) in
  let f := if magic f =? 0
           then mk_db ALR_FR_MAGIC ALR_FR_VERSION 0 n 0 (slots f) else f in
  (f, (magic f =? ALR_FR_MAGIC) && negb (hdr_slots f =? 0)).

(** ** The overlay *)

Record stat_t := mk_stat {
  st_dev : Z; st_ino : Z; st_mode : Z; st_uid : Z; st_gid : Z; st_rdev : Z }.
Record statx_t := mk_statx {
  stx_dev_major : Z; stx_dev_minor : Z; stx_ino : Z; stx_mode : Z; stx_uid : Z; stx_gid : Z;
  stx_rdev_major : Z; stx_rdev_minor : Z }.

Definition apply_ov (v : override) (st : stat_t) : stat_t :=
  mk_stat (st_dev st) (st_ino st) (default (st_mode st) (ov_mode v))
    (default (st_uid st) (fst <$> ov_owner v)) (default (st_gid st) (snd <$> ov_owner v))
    (default (st_rdev st) (ov_rdev v)).

(** The statements of [fr_overlay_stat] under [if (fl & ...)]. *)
Definition stat_set_owner (e : alr_fr_entry) (st : stat_t) : stat_t :=
  if has_flag e ALR_FR_F_HAVE_UIDGID
  then mk_stat (st_dev st) (st_ino st) (st_mode st) (f_uid e) (f_gid e) (st_rdev st) else st.
Definition stat_set_mode (e : alr_fr_entry) (st : stat_t) : stat_t :=
  if has_flag e ALR_FR_F_HAVE_MODE
  then mk_stat (st_dev st) (st_ino st) (f_mode e) (st_uid st) (st_gid st) (st_rdev st) else st.
Definition stat_set_rdev (e : alr_fr_entry) (st : stat_t) : stat_t :=
  if has_flag e ALR_FR_F_HAVE_RDEV
  then mk_stat (st_dev st) (st_ino st) (st_mode st) (st_uid st) (st_gid st)
         (Z.lor (Z.shiftl (f_rdev_hi e) 32) (f_rdev_lo e)) else st.
Definition fr_overlay_stat (db : option slot_table) (st : stat_t) : stat_t :=
  match db with
  | None => st
  | Some t =>
      match fst (fr_find t (st_dev st) (st_ino st) false) with
      | None => st
      | Some j => let e := t !!! j in stat_set_rdev e (stat_set_mode e (stat_set_owner e st))
      end
  end.

(** [~0xffu] and [~0xfffu] *)
Definition not_ff : Z := 0xffffff00.
Definition not_fff : Z := 0xfffff000.
Definition fr_makedev (maj min : Z) : Z :=
  Z.lor (Z.lor (Z.lor (Z.land min 0xff) (Z.shiftl (Z.land maj 0xfff) 8))
           (Z.shiftl (Z.land min not_ff) 12))
    (Z.shiftl (Z.land maj not_fff) 32).
Definition rdev_major (rdev : Z) : Z :=
  u32 (Z.lor (Z.land (Z.shiftr rdev 8) 0xfff) (Z.land (Z.shiftr rdev 32) not_fff)).
Definition rdev_minor (rdev : Z) : Z :=
  u32 (Z.lor (Z.land rdev 0xff) (Z.land (Z.shiftr rdev 12) not_ff)).

Definition statx_set_owner (e : alr_fr_entry) (sx : statx_t) : statx_t :=
  if has_flag e ALR_FR_F_HAVE_UIDGID
  then mk_statx (stx_dev_major sx) (stx_dev_minor sx) (stx_ino sx) (stx_mode sx)
         (f_uid e) (f_gid e) (stx_rdev_major sx) (stx_rdev_minor sx) else sx.
Definition statx_set_mode (e : alr_fr_entry) (sx : statx_t) : statx_t :=
  if has_flag e ALR_FR_F_HAVE_MODE
  then mk_statx (stx_dev_major sx) (stx_dev_minor sx) (stx_ino sx) (u16 (f_mode e))
         (stx_uid sx) (stx_gid sx) (stx_rdev_major sx) (stx_rdev_minor sx) else sx.
Definition statx_set_rdev (e : alr_fr_entry) (sx : statx_t) : statx_t :=
  if has_flag e ALR_FR_F_HAVE_RDEV
  then let rdev := Z.lor (Z.shiftl (f_rdev_hi e) 32) (f_rdev_lo e) in
       mk_statx (stx_dev_major sx) (stx_dev_minor sx) (stx_ino sx) (stx_mode sx)
         (stx_uid sx) (stx_gid sx) (rdev_major rdev) (rdev_minor rdev) else sx.
Definition fr_overlay_statx (db : option slot_table) (sx : statx_t) : statx_t :=
  match db with
  | None => sx
  | Some t =>
      let dev := fr_makedev (stx_dev_major sx) (stx_dev_minor sx) in
      match fst (fr_find t dev (stx_ino sx) false) with
      | None => sx
      | Some j => let e := t !!! j in statx_set_rdev e (statx_set_mode e (statx_set_owner e sx))
      end
  end.

(** ** Credentials *)

Definition getuid : Z := 0.
Definition geteuid : Z := 0.
Definition getgid : Z := 0.
Definition getegid : Z := 0.
(** The three values stored (where the pointers are not null), and the result. *)
Definition getresuid : (Z * Z * Z) * Z := ((0, 0, 0), 0).
Definition getresgid : (Z * Z * Z) * Z := ((0, 0, 0), 0).
Definition setuid (u : Z) : Z := 0.
Definition setgid (g : Z) : Z := 0.
Definition setreuid (r e : Z) : Z := 0.
Definition setregid (r e : Z) : Z := 0.
(** The result, and what is stored in [list\[0\]]; the errno of a failure is [EINVAL]. *)
Definition getgroups (size : Z) (list_given : bool) : Z * option Z :=
  if size =? 0 then (1, None)
  else if size <? 1 then (-1, None)
  else (1, if list_given then Some 0 else None).

(** ** The wrappers *)

(** What the wrappers ask of the table. *)
Class metadata_db (D : Type) := {
  db_put : D → fr_op → D;
  db_stat : D → stat_t → stat_t;
  db_statx : D → statx_t → statx_t
}.
(** The implementation: the shared table, [None] while there is none. *)
#[export] Instance shared_table : metadata_db (option slot_table) := {|
  db_put db o := (λ t, fr_put t o) <$> db;
  db_stat := fr_overlay_stat;
  db_statx := fr_overlay_statx
|}.
(** The specification: a finite map with room for [N] files. *)
Definition apply_ovx (v : override) (sx : statx_t) : statx_t :=
  mk_statx (stx_dev_major sx) (stx_dev_minor sx) (stx_ino sx)
    (default (stx_mode sx) (u16 <$> ov_mode v))
    (default (stx_uid sx) (fst <$> ov_owner v)) (default (stx_gid sx) (snd <$> ov_owner v))
    (default (stx_rdev_major sx) (rdev_major <$> ov_rdev v))
    (default (stx_rdev_minor sx) (rdev_minor <$> ov_rdev v)).
Definition ov_of (M : ov_map) (d i : Z) : override := default no_override (M !! (d, i)).
Definition spec_db (N : nat) : metadata_db ov_map := {|
  db_put := spec_put N;
  db_stat M st := apply_ov (ov_of M (st_dev st) (st_ino st)) st;
  db_statx M sx :=
    apply_ovx (ov_of M (fr_makedev (stx_dev_major sx) (stx_dev_minor sx)) (stx_ino sx)) sx
|}.

(** The next definitions of the symbols, on the state [W] of the file system. *)
Record libc (W : Type) := mk_libc {
  real_fstatat : option (W → Z → cpath → Z → option stat_t);
  real_stat : option (W → cpath → option stat_t);
  real_lstat : option (W → cpath → option stat_t);
  real_fstat : option (W → Z → option stat_t);
  real_statx : option (W → Z → cpath → Z → Z → option statx_t);
  real_chmod : option (W → cpath → Z → W);
  real_fchmodat : option (W → Z → cpath → Z → Z → W);
  real_fchmod : option (W → Z → Z → W);
  real_mknodat : option (W → Z → cpath → Z → Z → W);
  (** [openat(O_CREAT|O_WRONLY|O_CLOEXEC, 0600)] and [close] *)
  real_touch : option (W → Z → cpath → W)
}.
Arguments real_fstatat {W}. Arguments real_stat {W}. Arguments real_lstat {W}.
Arguments real_fstat {W}. Arguments real_statx {W}. Arguments real_chmod {W}.
Arguments real_fchmodat {W}. Arguments real_fchmod {W}. Arguments real_mknodat {W}.
Arguments real_touch {W}.

Definition AT_FDCWD : Z := -100.
Definition AT_SYMLINK_NOFOLLOW : Z := 0x100.
Definition S_IFMT : Z := 0xf000.
Definition S_IFCHR : Z := 0x2000.
Definition S_IFBLK : Z := 0x6000.
Definition S_IFREG : Z := 0x8000.
Definition is_special (mode : Z) : bool :=
  (Z.land mode S_IFMT =? S_IFCHR) || (Z.land mode S_IFMT =? S_IFBLK).
Definition full_mode (st : stat_t) (mode : Z) : Z :=
  Z.lor (Z.land (st_mode st) S_IFMT) (Z.land mode 0xfff).

Section wrappers.
Context {W D : Type} `{!metadata_db D} (L : libc W) (rootfs : bytes).

Abbreviation fr_state := (W * D)%type.
(** [real && real(...) == 0]: the buffer it filled. *)
Definition call_stat (r : option (option stat_t)) : option stat_t := r ≫= id.

Definition fr_chown_record (s : fr_state) (hostpath : cpath) (dirfd at_flags uid gid : Z)
    : fr_state :=
  match call_stat ((λ f, f (fst s) dirfd hostpath at_flags) <$> real_fstatat L) with
  | Some st => (fst s, db_put (snd s) (PutOwner (st_dev st) (st_ino st) uid gid))
  | None => s
  end.
Definition chown (s : fr_state) (path : cpath) (uid gid : Z) : Z * fr_state :=
  (0, fr_chown_record s (fr_rw rootfs path FR_PBUF) AT_FDCWD 0 uid gid).
Definition lchown (s : fr_state) (path : cpath) (uid gid : Z) : Z * fr_state :=
  (0, fr_chown_record s (fr_rw rootfs path FR_PBUF) AT_FDCWD AT_SYMLINK_NOFOLLOW uid gid).
Definition fchownat (s : fr_state) (dirfd : Z) (path : cpath) (uid gid flags : Z)
    : Z * fr_state :=
  (0, fr_chown_record s (fr_rw_at rootfs path FR_PBUF) dirfd flags uid gid).
Definition fchown (s : fr_state) (fd uid gid : Z) : Z * fr_state :=
  match call_stat ((λ f, f (fst s) fd) <$> real_fstat L) with
  | Some st => (0, (fst s, db_put (snd s) (PutOwner (st_dev st) (st_ino st) uid gid)))
  | None => (0, s)
  end.

(** [if (real_stat && real_stat(..) == 0) { full = ...; fr_put_mode(...); }] *)
Definition record_mode (s : fr_state) (r : option stat_t) (mode : Z) : fr_state :=
  match r with
  | Some st => (fst s, db_put (snd s) (PutMode (st_dev st) (st_ino st) (full_mode st mode)))
  | None => s
  end.
Definition chmod (s : fr_state) (path : cpath) (mode : Z) : Z * fr_state :=
  let p := fr_rw rootfs path FR_PBUF in
  let w := match real_chmod L with Some f => f (fst s) p mode | None => fst s end in
  (0, record_mode (w, snd s) (call_stat ((λ f, f w p) <$> real_stat L)) mode).
Definition fchmodat (s : fr_state) (dirfd : Z) (path : cpath) (mode flags : Z)
    : Z * fr_state :=
  let p := fr_rw_at rootfs path FR_PBUF in
  let w := match real_fchmodat L with
           | Some f => f (fst s) dirfd p mode flags | None => fst s end in
  (0, record_mode (w, snd s) (call_stat ((λ f, f w dirfd p flags) <$> real_fstatat L)) mode).
Definition fchmod (s : fr_state) (fd mode : Z) : Z * fr_state :=
  let w := match real_fchmod L with Some f => f (fst s) fd mode | None => fst s end in
  (0, record_mode (w, snd s) (call_stat ((λ f, f w fd) <$> real_fstat L)) mode).

Definition fr_mknod_emul (s : fr_state) (hostpath : cpath) (dirfd mode dev : Z) : fr_state :=
  let w :=
    if negb (is_special mode) then
      match real_mknodat L with Some f => f (fst s) dirfd hostpath mode dev | None => fst s end
    else match real_touch L with Some f => f (fst s) dirfd hostpath | None => fst s end in
  match call_stat ((λ f, f w dirfd hostpath 0) <$> real_fstatat L) with
  | Some st => (w, db_put (snd s) (PutNode (st_dev st) (st_ino st) mode dev))
  | None => (w, snd s)
  end.
Definition mknod (s : fr_state) (path : cpath) (mode dev : Z) : Z * fr_state :=
  (0, fr_mknod_emul s (fr_rw rootfs path FR_PBUF) AT_FDCWD mode dev).
Definition mknodat (s : fr_state) (dirfd : Z) (path : cpath) (mode dev : Z) : Z * fr_state :=
  (0, fr_mknod_emul s (fr_rw_at rootfs path FR_PBUF) dirfd mode dev).

(** [FR_WRAP_STAT_PATH] and the other stat wrappers: [None] is a negative result. *)
Definition stat (s : fr_state) (path : cpath) : option stat_t :=
  db_stat (snd s) <$> call_stat ((λ f, f (fst s) path) <$> real_stat L).
Definition lstat (s : fr_state) (path : cpath) : option stat_t :=
  db_stat (snd s) <$> call_stat ((λ f, f (fst s) path) <$> real_lstat L).
Definition fstat (s : fr_state) (fd : Z) : option stat_t :=
  db_stat (snd s) <$> call_stat ((λ f, f (fst s) fd) <$> real_fstat L).
Definition fstatat (s : fr_state) (dirfd : Z) (path : cpath) (flags : Z) : option stat_t :=
  db_stat (snd s) <$> call_stat ((λ f, f (fst s) dirfd path flags) <$> real_fstatat L).
Definition statx (s : fr_state) (dirfd : Z) (path : cpath) (flags mask : Z) : option statx_t :=
  db_statx (snd s) <$>
    (((λ f, f (fst s) dirfd path flags mask) <$> real_statx L) ≫= id).

(** A metadata-changing call of the guest. *)
Inductive fr_call :=
| Chown (p : cpath) (u g : Z) | Lchown (p : cpath) (u g : Z)
| Fchownat (d : Z) (p : cpath) (u g fl : Z) | Fchown (fd u g : Z)
| Chmod (p : cpath) (m : Z) | Fchmodat (d : Z) (p : cpath) (m fl : Z) | Fchmod (fd m : Z)
| Mknod (p : cpath) (m dev : Z) | Mknodat (d : Z) (p : cpath) (m dev : Z).
Definition do_call (s : fr_state) (c : fr_call) : Z * fr_state :=
  match c with
  | Chown p u g => chown s p u g
  | Lchown p u g => lchown s p u g
  | Fchownat d p u g fl => fchownat s d p u g fl
  | Fchown fd u g => fchown s fd u g
  | Chmod p m => chmod s p m
  | Fchmodat d p m fl => fchmodat s d p m fl
  | Fchmod fd m => fchmod s fd m
  | Mknod p m dev => mknod s p m dev
  | Mknodat d p m dev => mknodat s d p m dev
  end.
Definition do_calls (s : fr_state) (cs : list fr_call) : fr_state :=
  foldl (λ s c, snd (do_call s c)) s cs.
End wrappers.

(** ** The library refines the map *)

Lemma overlay_spec b t M st :
  table_ok b t M → M !! (st_dev st, 0) = None →
  fr_overlay_stat (Some t) st = apply_ov (ov_of M (st_dev st) (st_ino st)) st.
Proof.
  intros Ht Hz. unfold fr_overlay_stat, ov_of.
  assert (fr_lookup t (st_dev st) (st_ino st) = M !! (st_dev st, st_ino st)) as <-.
  { destruct (decide (st_ino st = 0)) as [->|Hi]; [by rewrite Hz|by apply (fr_lookup_ok b)]. }
  unfold fr_lookup. destruct (fst (fr_find t _ _ false)) as [j|]; [|by destruct st].
  cbn [fmap option_fmap option_map]. unfold stat_set_rdev, stat_set_mode, stat_set_owner, abs_entry, apply_ov.
  cbn [default ov_owner ov_mode ov_rdev]. by do 3 case_match; destruct st.
Qed.
Lemma overlay_statx_spec b t M sx :
  table_ok b t M → M !! (fr_makedev (stx_dev_major sx) (stx_dev_minor sx), 0) = None →
  fr_overlay_statx (Some t) sx
  = apply_ovx (ov_of M (fr_makedev (stx_dev_major sx) (stx_dev_minor sx)) (stx_ino sx)) sx.
Proof.
  intros Ht Hz. unfold fr_overlay_statx, ov_of.
  set (d := fr_makedev _ _) in *.
  assert (fr_lookup t d (stx_ino sx) = M !! (d, stx_ino sx)) as <-.
  { destruct (decide (stx_ino sx = 0)) as [->|Hi]; [by rewrite Hz|by apply (fr_lookup_ok b)]. }
  unfold fr_lookup. destruct (fst (fr_find t _ _ false)) as [j|]; [|by destruct sx].
  cbn [fmap option_fmap option_map]. unfold statx_set_rdev, statx_set_mode, statx_set_owner, abs_entry, apply_ovx.
  cbn [default ov_owner ov_mode ov_rdev]. by do 3 case_match; destruct sx.
Qed.

(** What the C types guarantee of the results and the arguments. *)
Definition stat_ok (st : stat_t) : Prop :=
  0 ≤ st_dev st < 2 ^ 64 ∧ 0 ≤ st_ino st < 2 ^ 64.
Definition libc_ok {W} (L : libc W) : Prop :=
  (∀ f w d p fl st, real_fstatat L = Some f → f w d p fl = Some st → stat_ok st) ∧
  (∀ f w p st, real_stat L = Some f → f w p = Some st → stat_ok st) ∧
  (∀ f w fd st, real_fstat L = Some f → f w fd = Some st → stat_ok st).
Definition call_ok (c : fr_call) : Prop :=
  match c with Mknod _ _ dev | Mknodat _ _ _ dev => 0 ≤ dev < 2 ^ 64 | _ => True end.

(** Two databases that answer alike are not told apart by the wrappers. *)
Section sim.
Context {W D1 D2 : Type} `{!metadata_db D1} `{!metadata_db D2} (L : libc W) (rootfs : bytes).
Context (R : D1 → D2 → Prop).
Hypothesis HL : libc_ok L.
Hypothesis Hput : ∀ d1 d2 o, op_ok o → R d1 d2 → R (db_put d1 o) (db_put d2 o).

Definition sim (s1 : W * D1) (s2 : W * D2) : Prop := fst s1 = fst s2 ∧ R (snd s1) (snd s2).

Lemma sim_put s1 s2 w o : op_ok o → sim s1 s2 →
  sim (w, db_put (snd s1) o) (w, db_put (snd s2) o).
Proof. intros Ho [_ HR]. split; [done|]. by apply Hput. Qed.
Lemma sim_world s1 s2 w : sim s1 s2 → sim (w, snd s1) (w, snd s2).
Proof. intros [_ HR]. by split. Qed.

Lemma sim_mode s1 s2 r mode :
  (∀ st, r = Some st → stat_ok st) → sim s1 s2 →
  sim (record_mode s1 r mode) (record_mode s2 r mode).
Proof.
  intros Hr Hs. unfold record_mode. destruct r as [st|]; [|done].
  destruct Hs as [Hw HR]. rewrite Hw. apply sim_put; [by apply Hr|done].
Qed.
Lemma call_stat_Some {A} (f : option A) (g : A → option stat_t) st :
  call_stat (g <$> f) = Some st → ∃ h, f = Some h ∧ g h = Some st.
Proof. destruct f as [h|]; cbn; [|done]. by exists h. Qed.
Lemma sim_chown s1 s2 p d fl u g : sim s1 s2 →
  sim (fr_chown_record L s1 p d fl u g) (fr_chown_record L s2 p d fl u g).
Proof.
  intros Hs. unfold fr_chown_record. destruct Hs as [Hw HR]. rewrite Hw.
  destruct (call_stat _) as [st|] eqn:E; [|by split].
  apply call_stat_Some in E as (f & Hf & E). apply sim_put; [|by split].
  by apply (proj1 HL) in E.
Qed.
Lemma sim_mknod s1 s2 p d m dev : 0 ≤ dev < 2 ^ 64 → sim s1 s2 →
  sim (fr_mknod_emul L s1 p d m dev) (fr_mknod_emul L s2 p d m dev).
Proof.
  intros Hd Hs. unfold fr_mknod_emul. pose proof (proj1 Hs) as Hw. rewrite Hw.
  generalize (if negb (is_special m) then
      match real_mknodat L with Some f => f (fst s2) d p m dev | None => fst s2 end
    else match real_touch L with Some f => f (fst s2) d p | None => fst s2 end) as w.
  intros w. destruct (call_stat _) as [st|] eqn:E; [|by apply sim_world].
  apply call_stat_Some in E as (f & Hf & E). apply sim_put; [|done].
  split; [|done]. by apply (proj1 HL) in E.
Qed.

Lemma do_call_sim s1 s2 c :
  call_ok c → sim s1 s2 → sim (snd (do_call L rootfs s1 c)) (snd (do_call L rootfs s2 c)).
Proof.
  intros Hc Hs. pose proof (proj1 Hs) as Hw. destruct HL as (H1 & H2 & H3).
  destruct c; cbn [do_call chown lchown fchownat fchown chmod fchmodat fchmod mknod mknodat snd];
    rewrite ?Hw; try (by apply sim_chown); try (by apply sim_mknod).
  - unfold fchown. rewrite Hw. destruct (call_stat _) as [st|] eqn:E; [|done].
    apply call_stat_Some in E as (f & Hf & E). apply sim_put; [|done]. by apply H3 in E.
  - apply sim_mode; [|by apply sim_world]. intros st (f & Hf & E)%call_stat_Some. by apply H2 in E.
  - apply sim_mode; [|by apply sim_world]. intros st (f & Hf & E)%call_stat_Some. by apply H1 in E.
  - apply sim_mode; [|by apply sim_world]. intros st (f & Hf & E)%call_stat_Some. by apply H3 in E.
Qed.
Lemma do_calls_sim cs s1 s2 :
  Forall call_ok cs → sim s1 s2 → sim (do_calls L rootfs s1 cs) (do_calls L rootfs s2 cs).
Proof.
  intros H. revert s1 s2. induction H as [|c cs Hc _ IH]; intros s1 s2 Hs; [done|].
  by apply IH, do_call_sim.
Qed.
End sim.

(** The table of [2 ^ b] slots and the map. *)
Definition table_rel (b : nat) (db : option slot_table) (M : ov_map) : Prop :=
  ∃ t, db = Some t ∧ length t = (2 ^ b)%nat ∧ table_ok b t M ∧ ∀ d, M !! (d, 0) = None.
Lemma table_rel_put b db M o :
  op_ok o → table_rel b db M → table_rel b (db_put db o) (spec_put (2 ^ b) M o).
Proof.
  intros Ho (t & -> & Hlen & Ht & Hz). exists (fr_put t o). split_and!; try done.
  - by rewrite fr_put_length.
  - rewrite <- Hlen. by apply fr_put_ok.
  - intros d. by apply spec_put_zero.
Qed.
Lemma table_rel_stat b db M st : table_rel b db M → db_stat db st = @db_stat _ (spec_db (2 ^ b)) M st.
Proof. intros (t & -> & _ & Ht & Hz). by apply (overlay_spec b). Qed.
Lemma table_rel_statx b db M sx :
  table_rel b db M → db_statx db sx = @db_statx _ (spec_db (2 ^ b)) M sx.
Proof. intros (t & -> & _ & Ht & Hz). by apply (overlay_statx_spec b). Qed.
Lemma table_rel_empty b :
  (b ≤ 62)%nat → table_rel b (Some (replicate (2 ^ b) zero_entry)) ∅.
Proof.
  intros Hb. eexists. split; [done|]. rewrite length_replicate. split; [done|].
  split; [by apply empty_table_ok|]. intros d. apply lookup_empty.
Qed.

(** What the guest can ask about a file. *)
Inductive fr_query :=
| QStat (p : cpath) | QLstat (p : cpath) | QFstat (fd : Z) | QFstatat (d : Z) (p : cpath) (fl : Z)
| QStatx (d : Z) (p : cpath) (fl mask : Z).
Definition do_query {W D} `{!metadata_db D} (L : libc W) (s : W * D) (q : fr_query)
    : option (stat_t + statx_t) :=
  match q with
  | QStat p => inl <$> stat L s p
  | QLstat p => inl <$> lstat L s p
  | QFstat fd => inl <$> fstat L s fd
  | QFstatat d p fl => inl <$> fstatat L s d p fl
  | QStatx d p fl m => inr <$> statx L s d p fl m
  end.


(** A file system of named files, for the examples. *)
Definition toy_fs : Type := list (bytes * stat_t).
Fixpoint toy_find (w : toy_fs) (p : bytes) : option stat_t :=
  match w with
  | [] => None
  | (n, st) :: w => if bool_decide (n = p) then Some (mk_stat (u64 (st_dev st)) (u64 (st_ino st))
      (st_mode st) (st_uid st) (st_gid st) (st_rdev st)) else toy_find w p
  end.
Definition toy_stat (w : toy_fs) (p : cpath) : option stat_t := p ≫= toy_find w.
Definition toy_touch (w : toy_fs) (p : cpath) : toy_fs :=
  match p with
  | Some n => match toy_find w n with
              | Some _ => w
              | None => w ++ [(n, mk_stat 1 (100 + Z.of_nat (length w)) 0x8180 2000 2000 0)]
              end
  | None => w
  end.
Definition toy_libc : libc toy_fs :=
  mk_libc _ (Some (λ w _ p _, toy_stat w p)) (Some toy_stat) (Some toy_stat) None
    (Some (λ w _ p _ _, (λ st, mk_statx (rdev_major (st_dev st)) (rdev_minor (st_dev st))
       (st_ino st) (u16 (st_mode st)) (st_uid st) (st_gid st) (rdev_major (st_rdev st))
       (rdev_minor (st_rdev st))) <$> toy_stat w p))
    (Some (λ w _ _, w)) (Some (λ w _ _ _ _, w)) None (Some (λ w _ p _ _, toy_touch w p))
    (Some (λ w _ p, toy_touch w p)).
Lemma toy_find_ok w p st : toy_find w p = Some st → stat_ok st.
Proof.
  induction w as [|[n x] w IH]; cbn [toy_find]; [done|]. case_bool_decide; [|done].
  intros [= <-]. split; cbn; apply u64_range.
Qed.
Lemma toy_stat_ok w p st : toy_stat w p = Some st → stat_ok st.
Proof. destruct p as [p|]; cbn; [|done]. apply toy_find_ok. Qed.
Lemma toy_libc_ok : libc_ok toy_libc.
Proof.
  split_and!; cbn.
  - intros f w d p fl st [= <-]. apply toy_stat_ok.
  - intros f w p st [= <-]. apply toy_stat_ok.
  - done.
Qed.
Definition toy_calls : list fr_call :=
  [Mknod (Some (str "/etc/null")) 0x21b6 0x103; Chown (Some (str "/bin/su")) 0 0;
   Fchmodat 5 (Some (str "/bin/su")) 0x9ed 0].
Definition toy_world : toy_fs := [(str "/r/bin/su", mk_stat 1 7 0x81c0 2000 2000 0)].
Example toy_su :
  stat toy_libc (do_calls toy_libc (str "/r") (toy_world, Some (replicate (2 ^ 3) zero_entry))
                   toy_calls) (Some (str "/r/bin/su"))
  = Some (mk_stat 1 7 0x89ed 0 0 0).
Proof. vm_compute. reflexivity. Qed.

(** ** The two stat interfaces agree *)

(** The kernel's [statx] of a file whose [stat] is [st]. *)
Definition to_statx (st : stat_t) : statx_t :=
  mk_statx (rdev_major (st_dev st)) (rdev_minor (st_dev st)) (st_ino st) (u16 (st_mode st))
    (st_uid st) (st_gid st) (rdev_major (st_rdev st)) (rdev_minor (st_rdev st)).

Lemma testbit_high x n m : 0 ≤ x < 2 ^ m → m ≤ n → Z.testbit x n = false.
Proof.
  intros Hx Hn. destruct (decide (x = 0)) as [->|]; [apply Z.bits_0|].
  apply Z.bits_above_log2; [lia|]. assert (Z.log2 x < m); [|lia]. apply Z.log2_lt_pow2; lia.
Qed.
Lemma bit_ff n : Z.testbit 0xff n = (0 <=? n) && (n <? 8).
Proof. exact (Z.testbit_ones 8 n ltac:(lia)). Qed.
Lemma bit_fff n : Z.testbit 0xfff n = (0 <=? n) && (n <? 12).
Proof. exact (Z.testbit_ones 12 n ltac:(lia)). Qed.
Lemma bit_not k m n :
  0 ≤ k → 0 ≤ m → Z.testbit (Z.shiftl (Z.ones m) k) n = (k <=? n) && (n <? k + m).
Proof.
  intros Hk Hm. destruct (Z.lt_ge_cases n 0) as [Hn|Hn].
  - rewrite Z.testbit_neg_r by done. symmetry. apply andb_false_iff. left. lia.
  - rewrite Z.shiftl_spec, Z.testbit_ones by lia. f_equal; lia.
Qed.
Lemma bit_not_ff n : Z.testbit not_ff n = (8 <=? n) && (n <? 32).
Proof. exact (bit_not 8 24 n ltac:(lia) ltac:(lia)). Qed.
Lemma bit_not_fff n : Z.testbit not_fff n = (12 <=? n) && (n <? 32).
Proof. exact (bit_not 12 20 n ltac:(lia) ltac:(lia)). Qed.
Lemma bit_shiftl x k n :
  Z.testbit (Z.shiftl x k) n = (0 <=? n) && Z.testbit x (n - k).
Proof.
  destruct (Z.leb_spec 0 n); [by rewrite Z.shiftl_spec|]. by rewrite Z.testbit_neg_r.
Qed.
Lemma bit_shiftr x k n : 0 ≤ k →
  Z.testbit (Z.shiftr x k) n = (0 <=? n) && Z.testbit x (n + k).
Proof.
  intros Hk. destruct (Z.leb_spec 0 n); [by rewrite Z.shiftr_spec|]. by rewrite Z.testbit_neg_r.
Qed.
Lemma bit_u32 x n : Z.testbit (u32 x) n = (n <? 32) && Z.testbit x n.
Proof.
  destruct (Z.lt_ge_cases n 0) as [Hn|Hn]; [by rewrite !Z.testbit_neg_r, andb_false_r|].
  unfold u32. destruct (Z.ltb_spec n 32).
  - by rewrite Z.mod_pow2_bits_low.
  - by rewrite Z.mod_pow2_bits_high.
Qed.
(** Decide the comparisons of the goal. *)
Ltac decide_bounds :=
  repeat match goal with
  | |- context [(?x <=? ?y)] => 
      first [rewrite (proj2 (Z.leb_le x y)) by lia|rewrite (proj2 (Z.leb_gt x y)) by lia]
  | |- context [(?x <? ?y)] =>
      first [rewrite (proj2 (Z.ltb_lt x y)) by lia|rewrite (proj2 (Z.ltb_ge x y)) by lia]
  end.

Lemma makedev_major_minor d :
  0 ≤ d < 2 ^ 64 → fr_makedev (rdev_major d) (rdev_minor d) = d.
Proof.
  intros Hd. apply Z.bits_inj'. intros n Hn. unfold fr_makedev, rdev_major, rdev_minor.
  repeat (rewrite Z.lor_spec || rewrite Z.land_spec || rewrite bit_shiftl || rewrite bit_u32 ||
    (rewrite bit_shiftr by lia) || rewrite bit_ff || rewrite bit_fff || rewrite bit_not_ff ||
    rewrite bit_not_fff).
  assert (n < 8 ∨ 8 ≤ n < 20 ∨ 20 ≤ n < 44 ∨ 44 ≤ n < 64 ∨ 64 ≤ n) as Hc by lia.
  destruct Hc as [H|[H|[H|[H|H]]]]; decide_bounds;
    repeat first [rewrite orb_false_r|rewrite orb_false_l|rewrite andb_true_r
                 |rewrite andb_true_l|rewrite andb_false_r|rewrite andb_false_l];
    first [reflexivity|f_equal; lia|symmetry; by apply (testbit_high d n 64)].
Qed.
Lemma u16_u16 m : u16 (u16 m) = u16 m.
Proof. apply Z.mod_mod. lia. Qed.

(** The two interfaces tell the same story: laying the records over the kernel's statx
    answer gives the statx rendering of the overlaid stat answer, whatever the table and
    the device numbers (recomposing a device number from its major and minor parts, which
    the code does to find the record, is exact on all 64 bits). *)
Theorem statx_agrees (db : option slot_table) (st : stat_t) :
  0 ≤ st_dev st < 2 ^ 64 →
  fr_overlay_statx db (to_statx st) = to_statx (fr_overlay_stat db st).
Proof.
  intros Hd. destruct db as [t|]; [|done]. unfold fr_overlay_statx, fr_overlay_stat.
  change (fr_makedev _ _) with (fr_makedev (rdev_major (st_dev st)) (rdev_minor (st_dev st))).
  rewrite makedev_major_minor by done. change (stx_ino (to_statx st)) with (st_ino st).
  destruct (fst _) as [j|]; [|done]. generalize (t !!! j) as e. intros e. clear.
  unfold statx_set_rdev, statx_set_mode, statx_set_owner, stat_set_rdev, stat_set_mode,
    stat_set_owner.
  by do 3 case_match.
Qed.
Lemma statx_agrees_witness :
  fr_overlay_statx (Some (replicate 4 zero_entry)) (to_statx (mk_stat 0xfd00001234 12 0x81a4 1 2 0))
  = to_statx (fr_overlay_stat (Some (replicate 4 zero_entry))
                (mk_stat 0xfd00001234 12 0x81a4 1 2 0)).
Proof. apply statx_agrees. cbn. lia. Defined.

(** ** Opening the table *)

Lemma round_p2_ok slots k fuel :
  0 < slots ≤ 2 ^ 63 → (k ≤ 63)%nat → (64 - k ≤ fuel)%nat → 2 ^ Z.of_nat k < 2 * slots →
  ∃ b : nat, round_p2 fuel (2 ^ Z.of_nat k) slots = Some (2 ^ Z.of_nat b) ∧ (b ≤ 63)%nat ∧
    slots ≤ 2 ^ Z.of_nat b < 2 * slots.
Proof.
  intros Hs Hk Hf Hlt. revert k Hk Hf Hlt.
  induction fuel as [|fuel IH]; intros k Hk Hf Hlt; [lia|]. cbn [round_p2].
  destruct (Z.ltb_spec (2 ^ Z.of_nat k) slots) as [H|H]; [|by exists k].
  assert (k < 63)%nat as Hk'.
  { destruct (decide (k = 63)%nat) as [->|]; [|lia]. change (Z.of_nat 63) with 63 in H. lia. }
  assert (u64 (Z.shiftl (2 ^ Z.of_nat k) 1) = 2 ^ Z.of_nat (S k)) as ->.
  { rewrite Z.shiftl_mul_pow2 by lia. rewrite Nat2Z.inj_succ, Z.pow_succ_r by lia.
    rewrite u64_small; [lia|]. pose proof (Z.pow_pos_nonneg 2 (Z.of_nat k)).
    assert (2 ^ Z.of_nat k ≤ 2 ^ 62) by (apply Z.pow_le_mono_r; lia). lia. }
  apply IH; [lia..|]. rewrite Nat2Z.inj_succ, Z.pow_succ_r by lia. lia.
Qed.
Lemma round_p2_zero fuel slots : 0 < slots → round_p2 fuel 0 slots = None.
Proof.
  intros Hs. induction fuel as [|fuel IH]; [done|]. cbn [round_p2].
  rewrite (proj2 (Z.ltb_lt 0 slots)) by done. exact IH.
Qed.
(** Above [2 ^ 63] the power of two wraps to zero and the loop never ends. *)
Lemma round_p2_diverges slots k fuel :
  2 ^ 63 < slots → (k ≤ 63)%nat → round_p2 fuel (2 ^ Z.of_nat k) slots = None.
Proof.
  intros Hs Hk. revert k Hk. induction fuel as [|fuel IH]; intros k Hk; [done|].
  cbn [round_p2]. assert (2 ^ Z.of_nat k ≤ 2 ^ 63) by (apply Z.pow_le_mono_r; lia).
  rewrite (proj2 (Z.ltb_lt _ slots)) by lia. destruct (decide (k = 63)%nat) as [->|].
  - apply round_p2_zero. lia.
  - assert (u64 (Z.shiftl (2 ^ Z.of_nat k) 1) = 2 ^ Z.of_nat (S k)) as ->; [|apply IH; lia].
    rewrite Z.shiftl_mul_pow2 by lia. rewrite Nat2Z.inj_succ, Z.pow_succ_r by lia.
    rewrite u64_small; [lia|]. pose proof (Z.pow_pos_nonneg 2 (Z.of_nat k)).
    assert (2 ^ Z.of_nat k ≤ 2 ^ 62) by (apply Z.pow_le_mono_r; lia). lia.
Qed.

Lemma truncate_same f : truncate_to f (length (slots f)) = f.
Proof.
  unfold truncate_to. rewrite firstn_all, Nat.sub_diag. cbn [replicate].
  rewrite app_nil_r. by destruct f.
Qed.
(** The first process gets an empty table. *)
Lemma init_db_fresh n :
  0 < n → fr_init_db empty_file n
          = (mk_db ALR_FR_MAGIC ALR_FR_VERSION 0 n 0 (replicate (Z.to_nat n) zero_entry), true).
Proof.
  intros Hn. unfold fr_init_db, truncate_to. cbn [slots empty_file magic length]. rewrite Nat.sub_0_r.
  rewrite take_nil. cbn. rewrite (proj2 (Z.eqb_neq n 0)) by lia. done.
Qed.
(** Every later one that asks for the same size gets the records of the others. *)
Lemma init_db_shared f :
  magic f = ALR_FR_MAGIC → hdr_slots f ≠ 0 →
  fr_init_db f (n_slots (slots f)) = (f, true).
Proof.
  intros Hm Hh. unfold fr_init_db, n_slots. rewrite Nat2Z.id, truncate_same, Hm.
  cbn. by rewrite Hm, (proj2 (Z.eqb_neq _ 0) Hh).
Qed.
(** One that asks for fewer slots cuts the records of the others off, while the header
    still announces the old number. *)
Example init_db_shrinks :
  let f := mk_db ALR_FR_MAGIC ALR_FR_VERSION 0 8 0 (replicate 8 zero_entry) in
  let f' := fst (fr_init_db f 4) in
  hdr_slots f' = 8 ∧ length (slots f') = 4%nat.
Proof. done. Qed.
Example wanted_slots_demo :
  wanted_slots (Some (str "5000x")) = 5000 ∧ wanted_slots (Some (str "512")) = DEFAULT_SLOTS.
Proof. done. Qed.
(** The size in bytes wraps: [2 ^ 61] slots are mapped as one page. *)
Example db_total_wraps : db_total (2 ^ 61) = 4096.
Proof. done. Qed.

(** ** Inputs worth knowing *)

Definition toy_s0 : toy_fs * option slot_table :=
  (toy_world, Some (replicate (2 ^ 3) zero_entry)).
(** [chmod] after [mknod] makes the device a regular file again: the type bits come from
    the placeholder, not from the record. *)
Example chmod_forgets_device :
  (st_mode <$> stat toy_libc (do_calls toy_libc (str "/r") toy_s0
     [Mknod (Some (str "/dev0")) 0x21b6 0x103]) (Some (str "/r/dev0"))) = Some 0x21b6 ∧
  (st_mode <$> stat toy_libc (do_calls toy_libc (str "/r") toy_s0
     [Mknod (Some (str "/dev0")) 0x21b6 0x103; Chmod (Some (str "/dev0")) 0x1b6])
     (Some (str "/r/dev0"))) = Some 0x81b6.
Proof. vm_compute. done. Qed.
(** [mknod] with file type 0, which means a regular file, records no type at all. *)
Example mknod_without_type :
  (st_mode <$> stat toy_libc (do_calls toy_libc (str "/r") toy_s0
     [Mknod (Some (str "/f")) 0x1a4 0]) (Some (str "/r/f"))) = Some 0x1a4.
Proof. vm_compute. done. Qed.
(** [chown(p, -1, g)] does not leave the owner alone. *)
Example chown_minus_one :
  (st_uid <$> stat toy_libc (do_calls toy_libc (str "/r") toy_s0
     [Chown (Some (str "/bin/su")) (2 ^ 32 - 1) 0]) (Some (str "/r/bin/su"))) = Some (2 ^ 32 - 1).
Proof. vm_compute. done. Qed.
(** A path is prefixed as it is: [..] leads out of the rootfs. *)
Example fr_rw_dotdot : fr_rw (str "/r") (Some (str "/../etc")) FR_PBUF = Some (str "/r/../etc").
Proof. done. Qed.
Example fr_init_rootfs_trims :
  fr_init_rootfs (Some (str "/data/r//")) = str "/data/r" ∧ fr_init_rootfs (Some (str "//")) = [].
Proof. done. Qed.

(** What [fr_rw] gives is not rewritten again. *)
Lemma fr_under_app d s : starts_slash s = true → fr_under (d ++ s) d = true.
Proof.
  intros Hs. induction d as [|x d IH]; cbn [app fr_under].
  - destruct s as [|c s]; [done|]. exact Hs.
  - by rewrite bool_decide_true.
Qed.
Lemma fr_rw_idempotent rootfs p q n :
  starts_slash rootfs = true → fr_rw rootfs p n = q → fr_rw rootfs q n = q.
Proof.
  intros Hr <-. destruct p as [s|]; [|done].
  destruct (fr_rw rootfs (Some s) n) as [q|] eqn:E; [|done].
  destruct (decide (q = s)) as [->|Hne]; [exact E|].
  revert E. unfold fr_rw at 1. repeat case_match; intros [= <-]; try done.
  unfold fr_rw. repeat case_match; try done. exfalso.
  destruct (starts_slash s) eqn:Es; [|done].
  match goal with H : fr_under (_ ++ _) rootfs = false |- _ => by rewrite fr_under_app in H end.
Qed.
Close Scope Z_scope.
