(* ===== verification/DohWire.v ===== *)
(** * DNS messages of the DoH resolver: [alr_doh/alr_doh_wire.c]

    The query encoder, the base64url encoder of the GET request and the response parser.
    A read outside the message is [None], a C string is a byte list without NUL, and the
    buffer an encoder fills is the list it returns. *)

From S2P Require Import Prelude Bytes.
Open Scope Z_scope.

Definition ALR_DNS_T_A : Z := 1.
Definition ALR_DNS_T_AAAA : Z := 28.
Definition ALR_DNS_C_IN : Z := 1.
Definition ALR_DNS_RCODE_NOERROR : Z := 0.
Definition ALR_DOH_MAX_QNAME : nat := 255.
Definition ALR_DOH_MAX_ADDRS : nat := 16.
Definition ALR_DOH_OK : Z := 0.
Definition ALR_DOH_E_BADNAME : Z := -1.
Definition ALR_DOH_E_SMALLBUF : Z := -2.
Definition ALR_DOH_E_TRUNC : Z := -3.
Definition ALR_DOH_E_FORMAT : Z := -4.
Definition ALR_DOH_E_BADTYPE : Z := -5.

Definition put16 (v : Z) : bytes := [byte_of (Z.shiftr v 8); byte_of (Z.land v 0xff)].
Definition get8 (msg : bytes) (i : nat) : option Z := byte_val <$> msg !! i.
Definition get16 (msg : bytes) (i : nat) : option Z :=
  a ← get8 msg i; b ← get8 msg (S i); Some (Z.lor (Z.shiftl a 8) b).

(** ** The query *)

Definition dot : byte := "."%byte.
(** The number of bytes before the next dot or the end. *)
Fixpoint label_len (s : bytes) : nat :=
  match s with
  | c :: s' => if bool_decide (c = dot) then O else S (label_len s')
  | [] => O
  end.
(** The QNAME loop: an error code, or the octets counted and what has been written. *)
Fixpoint qname_loop (fuel : nat) (s : bytes) (name_octets : nat) (out : bytes) (outcap : nat)
    : Z + nat * bytes :=
  match fuel, s with
  | _, [] => inr (name_octets, out)
  | O, _ => inr (name_octets, out)
  | S fuel, _ =>
      let llen := label_len s in
      let rest := drop llen s in
      if (llen =? 0)%nat then
        match rest with [] => inr (name_octets, out) | _ => inl ALR_DOH_E_BADNAME end
      else if (63 <? llen)%nat then inl ALR_DOH_E_BADNAME
      else
        let name_octets := (name_octets + (1 + llen))%nat in
        if (ALR_DOH_MAX_QNAME <? name_octets)%nat then inl ALR_DOH_E_BADNAME
        else if (outcap <? length out + 1 + llen + 1 + 4)%nat then inl ALR_DOH_E_SMALLBUF
        else
          qname_loop fuel (match rest with _ :: r => r | [] => [] end) name_octets
            (out ++ byte_of (Z.of_nat llen) :: take llen s) outcap
  end.
Definition query_header (id : Z) : bytes :=
  put16 id ++ put16 0x0100 ++ put16 1 ++ put16 0 ++ put16 0 ++ put16 0.
Definition alr_doh_build_query (id : Z) (qname : option bytes) (qtype : Z) (outcap : nat)
    : Z + bytes :=
  if negb (qtype =? ALR_DNS_T_A) && negb (qtype =? ALR_DNS_T_AAAA) then inl ALR_DOH_E_BADTYPE
  else match qname with
  | None => inl ALR_DOH_E_BADNAME
  | Some s =>
      if (outcap <? 12 + 1 + 4)%nat then inl ALR_DOH_E_SMALLBUF
      else match qname_loop (length s) s 0 (query_header id) outcap with
      | inl e => inl e
      | inr (name_octets, out) =>
          if (outcap <? length out + 1 + 4)%nat then inl ALR_DOH_E_SMALLBUF
          else if (name_octets =? 0)%nat then inl ALR_DOH_E_BADNAME
          else inr (out ++ Byte.x00 :: put16 qtype ++ put16 ALR_DNS_C_IN)
      end
  end.

(** ** base64url *)

Definition b64_alphabet : bytes :=
  "ABCDEFGHIJKLMNOPQRSTUVWXYZabcdefghijklmnopqrstuvwxyz0123456789-_".
Definition b64_char (v : Z) : byte := b64_alphabet !!! Z.to_nat (Z.land v 0x3f).
Fixpoint b64_loop (s : bytes) : bytes :=
  match s with
  | a :: b :: c :: s' =>
      let v := Z.lor (Z.lor (Z.shiftl (byte_val a) 16) (Z.shiftl (byte_val b) 8)) (byte_val c) in
      b64_char (Z.shiftr v 18) :: b64_char (Z.shiftr v 12) :: b64_char (Z.shiftr v 6)
        :: b64_char v :: b64_loop s'
  | [a; b] =>
      let v := Z.lor (Z.shiftl (byte_val a) 16) (Z.shiftl (byte_val b) 8) in
      [b64_char (Z.shiftr v 18); b64_char (Z.shiftr v 12); b64_char (Z.shiftr v 6)]
  | [a] =>
      let v := Z.shiftl (byte_val a) 16 in
      [b64_char (Z.shiftr v 18); b64_char (Z.shiftr v 12)]
  | [] => []
  end.
Definition b64_need (inlen : nat) : nat :=
  (inlen / 3 * 4 + (if (inlen mod 3 =? 0)%nat then 0 else inlen mod 3 + 1))%nat.
Definition alr_doh_base64url (s : bytes) (outcap : nat) : Z + bytes :=
  if (outcap <? b64_need (length s) + 1)%nat then inl ALR_DOH_E_SMALLBUF else inr (b64_loop s).

(** ** The response *)

Definition MAX_JUMPS : nat := 64.
Inductive skip_res := SkipOob | SkipFuel | SkipErr | SkipOk (pos : nat).
(** [skip_name]; [adv] is [advanced_to] once a pointer was taken. *)
Fixpoint skip_loop (fuel : nat) (msg : bytes) (i : nat) (adv : option nat) (jumps : nat)
    : skip_res :=
  match fuel with
  | O => SkipFuel
  | S fuel =>
      if (length msg <=? i)%nat then SkipErr
      else match get8 msg i with
      | None => SkipOob
      | Some b =>
          if Z.land b 0xc0 =? 0xc0 then
            if (length msg <=? i + 1)%nat then SkipErr
            else
              let adv := Some (default (i + 2)%nat adv) in
              if (MAX_JUMPS <? jumps + 1)%nat then SkipErr
              else match get8 msg (i + 1) with
              | None => SkipOob
              | Some b2 =>
                  let off := Z.to_nat (Z.lor (Z.shiftl (Z.land b 0x3f) 8) b2) in
                  if (length msg <=? off)%nat then SkipErr
                  else skip_loop fuel msg off adv (jumps + 1)
              end
          else if negb (Z.land b 0xc0 =? 0) then SkipErr
          else if b =? 0 then SkipOk (default (i + 1)%nat adv)
          else
            let i := (i + (1 + Z.to_nat b))%nat in
            if (length msg <? i)%nat then SkipErr else skip_loop fuel msg i adv jumps
      end
  end.
(** Between two jumps the position only grows, so this many iterations are enough. *)
Definition skip_fuel (msg : bytes) : nat := ((MAX_JUMPS + 1) * (length msg + 1))%nat.
Definition skip_name (msg : bytes) (pos : nat) : skip_res :=
  skip_loop (skip_fuel msg) msg pos None 0.

Record alr_doh_result := mk_res { rcode : Z; addrs : list bytes }.
Definition count (r : alr_doh_result) : nat := length (addrs r).

(** The question loop: an error code or the position after it; [None] if the search for
    the end of a name failed to stop or read outside the message. *)
Fixpoint question_loop (n : nat) (msg : bytes) (pos : nat) : option (Z + nat) :=
  match n with
  | O => Some (inr pos)
  | S n =>
      match skip_name msg pos with
      | SkipOob | SkipFuel => None
      | SkipErr => Some (inl ALR_DOH_E_FORMAT)
      | SkipOk pos =>
          if (length msg <? pos + 4)%nat then Some (inl ALR_DOH_E_TRUNC)
          else question_loop n msg (pos + 4)
      end
  end.
Definition want_len (qtype : Z) : nat := if qtype =? ALR_DNS_T_A then 4 else 16.
Definition collect_addr (msg : bytes) (pos : nat) (rtype rclass : Z) (rdlen : nat)
    (want_qtype : Z) (addrs : list bytes) : list bytes :=
  if (rclass =? ALR_DNS_C_IN) && (rtype =? want_qtype) &&
     ((rdlen =? want_len want_qtype)%nat && (length addrs <? ALR_DOH_MAX_ADDRS)%nat)
  then addrs ++ [take (want_len want_qtype) (drop pos msg)] else addrs.
Fixpoint answer_loop (n : nat) (msg : bytes) (pos : nat) (want_qtype : Z) (addrs : list bytes)
    : option (Z * list bytes) :=
  match n with
  | O => Some (ALR_DOH_OK, addrs)
  | S n =>
      match skip_name msg pos with
      | SkipOob | SkipFuel => None
      | SkipErr => Some (ALR_DOH_E_FORMAT, addrs)
      | SkipOk pos =>
          if (length msg <? pos + 10)%nat then Some (ALR_DOH_E_TRUNC, addrs)
          else
            rtype ← get16 msg pos;
            rclass ← get16 msg (pos + 2);
            rdlen ← get16 msg (pos + 8);
            let rdlen := Z.to_nat rdlen in
            let pos := (pos + 10)%nat in
            if (length msg <? pos + rdlen)%nat then Some (ALR_DOH_E_TRUNC, addrs)
            else answer_loop n msg (pos + rdlen) want_qtype
                   (collect_addr msg pos rtype rclass rdlen want_qtype addrs)
      end
  end.
Definition alr_doh_parse_response (msg : bytes) (want_id want_qtype : Z)
    : option (Z * alr_doh_result) :=
  if (length msg <? 12)%nat then Some (ALR_DOH_E_TRUNC, mk_res (-1) [])
  else
    id ← get16 msg 0;
    flags ← get16 msg 2;
    qdcount ← get16 msg 4;
    ancount ← get16 msg 6;
    if negb (id =? want_id) then Some (ALR_DOH_E_FORMAT, mk_res (-1) [])
    else if Z.land flags 0x8000 =? 0 then Some (ALR_DOH_E_FORMAT, mk_res (-1) [])
    else
      let rc := Z.land flags 0x000f in
      q ← question_loop (Z.to_nat qdcount) msg 12;
      match q with
      | inl e => Some (e, mk_res rc [])
      | inr pos =>
          if negb (rc =? ALR_DNS_RCODE_NOERROR) then Some (ALR_DOH_OK, mk_res rc [])
          else
            '(e, l) ← answer_loop (Z.to_nat ancount) msg pos want_qtype [];
            Some (e, mk_res rc l)
      end.

(** ** Names on the wire *)

Lemma get8_Some msg i : (i < length msg)%nat → ∃ b, get8 msg i = Some b ∧ 0 ≤ b < 256.
Proof.
  intros Hi. apply lookup_lt_is_Some_2 in Hi as [c Hc]. exists (byte_val c).
  unfold get8. rewrite Hc. split; [done|]. apply byte_val_range.
Qed.
Lemma get8_range msg i b : get8 msg i = Some b → 0 ≤ b < 256 ∧ (i < length msg)%nat.
Proof.
  unfold get8. rewrite fmap_Some. intros (c & Hc & ->). split; [apply byte_val_range|].
  by apply lookup_lt_Some in Hc.
Qed.
Lemma get16_Some msg i : (i + 1 < length msg)%nat → ∃ v, get16 msg i = Some v.
Proof.
  intros Hi. unfold get16. destruct (get8_Some msg i) as (a & -> & _); [lia|].
  destruct (get8_Some msg (S i)) as (b & -> & _); [lia|]. by eexists.
Qed.

(** A test on all byte values. *)
Lemma byte_forall (P : Z → bool) b :
  forallb (λ n, P (Z.of_nat n)) (seq 0 256) = true → 0 ≤ b < 256 → P b = true.
Proof.
  intros H Hb. rewrite forallb_forall in H. specialize (H (Z.to_nat b)).
  rewrite Z2Nat.id in H by lia. apply H, in_seq. lia.
Qed.
Lemma is_pointer b : 0 ≤ b < 256 → (Z.land b 0xc0 =? 0xc0) = (192 <=? b).
Proof.
  intros Hb. apply eqb_true_iff.
  by apply (byte_forall (λ b, eqb (Z.land b 0xc0 =? 0xc0) (192 <=? b))).
Qed.
Lemma is_label b : 0 ≤ b < 256 → (Z.land b 0xc0 =? 0) = (b <? 64).
Proof.
  intros Hb. apply eqb_true_iff.
  by apply (byte_forall (λ b, eqb (Z.land b 0xc0 =? 0) (b <? 64))).
Qed.
Definition ptr_target (b b2 : Z) : nat := Z.to_nat (Z.lor (Z.shiftl (Z.land b 0x3f) 8) b2).

(** A domain name at [i] (RFC 1035, 4.1.4) whose bytes at [i] end at [e]: labels, closed by
    the root label or by a pointer to a name; at most [n] pointers are followed. *)
Inductive wire_name (msg : bytes) : nat → nat → nat → Prop :=
| wn_root n i : get8 msg i = Some 0 → wire_name msg n i (i + 1)
| wn_label n i b e :
    get8 msg i = Some b → 1 ≤ b < 64 → (i + (1 + Z.to_nat b) ≤ length msg)%nat →
    wire_name msg n (i + (1 + Z.to_nat b)) e → wire_name msg n i e
| wn_ptr n i b b2 e :
    get8 msg i = Some b → 192 ≤ b → get8 msg (i + 1) = Some b2 →
    (ptr_target b b2 < length msg)%nat → wire_name msg n (ptr_target b b2) e →
    wire_name msg (S n) i (i + 2).

Section skip.
Context (msg : bytes).

(** [skip_loop] by the kind of the byte at hand. *)
Lemma skip_loop_S fuel i adv jumps b :
  get8 msg i = Some b →
  skip_loop (S fuel) msg i adv jumps =
    if 192 <=? b then
      match get8 msg (i + 1) with
      | None => SkipErr
      | Some b2 =>
          if (64 <? jumps + 1)%nat then SkipErr
          else if (length msg <=? ptr_target b b2)%nat then SkipErr
          else skip_loop fuel msg (ptr_target b b2) (Some (default (i + 2)%nat adv)) (jumps + 1)
      end
    else if 64 <=? b then SkipErr
    else if b =? 0 then SkipOk (default (i + 1)%nat adv)
    else if (length msg <? i + (1 + Z.to_nat b))%nat then SkipErr
    else skip_loop fuel msg (i + (1 + Z.to_nat b)) adv jumps.
Proof.
  intros Hb. pose proof (get8_range _ _ _ Hb) as [Hr Hi]. cbn [skip_loop].
  rewrite (proj2 (Nat.leb_gt _ i)) by lia. rewrite Hb, is_pointer, is_label by done.
  destruct (Z.leb_spec 192 b).
  - unfold MAX_JUMPS. destruct (Nat.leb_spec (length msg) (i + 1)).
    + assert (get8 msg (i + 1) = None) as ->; [|done].
      unfold get8. by rewrite lookup_ge_None_2.
    + destruct (get8_Some msg (i + 1)) as (b2 & -> & _); [lia|]. reflexivity.
  - replace (negb (b <? 64)) with (64 <=? b) by (rewrite Z.leb_antisym; done). done.
Qed.
Lemma skip_loop_out fuel i adv jumps :
  (length msg ≤ i)%nat → skip_loop (S fuel) msg i adv jumps = SkipErr.
Proof. intros Hi. cbn [skip_loop]. by rewrite (proj2 (Nat.leb_le _ i)). Qed.

Lemma skip_loop_sound fuel i adv jumps p :
  skip_loop fuel msg i adv jumps = SkipOk p → (jumps ≤ 64)%nat →
  ∃ e, wire_name msg (64 - jumps) i e ∧ p = default e adv.
Proof.
  revert i adv jumps. induction fuel as [|fuel IH]; intros i adv jumps; [done|].
  destruct (Nat.le_gt_cases (length msg) i) as [Hi|Hi]; [by rewrite skip_loop_out|].
  destruct (get8_Some msg i Hi) as (b & Hb & Hr). rewrite (skip_loop_S _ _ _ _ b Hb).
  destruct (Z.leb_spec 192 b).
  - destruct (get8 msg (i + 1)) as [b2|] eqn:Hb2; [|done].
    destruct (Nat.ltb_spec 64 (jumps + 1)); [done|].
    destruct (Nat.leb_spec (length msg) (ptr_target b b2)); [done|].
    intros H' _. apply IH in H' as (e & He & ->); [|lia]. exists (i + 2)%nat. split; [|done].
    replace (64 - jumps)%nat with (S (64 - (jumps + 1))) by lia. by eapply wn_ptr.
  - destruct (Z.leb_spec 64 b); [done|]. destruct (Z.eqb_spec b 0) as [->|].
    + intros [= <-] _. exists (i + 1)%nat. split; [by apply wn_root|done].
    + destruct (Nat.ltb_spec (length msg) (i + (1 + Z.to_nat b))); [done|].
      intros H' Hj. apply IH in H' as (e & He & ->); [|done]. exists e. split; [|done].
      eapply wn_label; [done|lia|done|done].
Qed.
Lemma skip_loop_complete n i e :
  wire_name msg n i e → ∀ fuel adv jumps, (jumps + n ≤ 64)%nat →
  skip_loop fuel msg i adv jumps = SkipOk (default e adv) ∨
  skip_loop fuel msg i adv jumps = SkipFuel.
Proof.
  induction 1 as [n i Hb|n i b e Hb Hr Hl _ IH|n i b b2 e Hb Hr Hb2 Hl _ IH];
    intros [|fuel] adv jumps Hj; try (by right); rewrite (skip_loop_S _ _ _ _ _ Hb).
  - by left.
  - rewrite (proj2 (Z.leb_gt 192 b)), (proj2 (Z.leb_gt 64 b)), (proj2 (Z.eqb_neq b 0)) by lia.
    rewrite (proj2 (Nat.ltb_ge _ _)) by done. by apply IH.
  - rewrite (proj2 (Z.leb_le 192 b)) by done. rewrite Hb2.
    rewrite (proj2 (Nat.ltb_ge _ _)), (proj2 (Nat.leb_gt _ _)) by lia. apply (IH fuel (Some _)). lia.
Qed.
Lemma skip_loop_total fuel i adv jumps :
  (jumps ≤ 64)%nat → ((64 - jumps) * (length msg + 1) + (length msg - i) < fuel)%nat →
  skip_loop fuel msg i adv jumps ≠ SkipFuel ∧ skip_loop fuel msg i adv jumps ≠ SkipOob.
Proof.
  revert i adv jumps. induction fuel as [|fuel IH]; intros i adv jumps Hj Hf; [by apply Nat.nlt_0_r in Hf|].
  destruct (Nat.le_gt_cases (length msg) i) as [Hi|Hi]; [by rewrite skip_loop_out|].
  destruct (get8_Some msg i Hi) as (b & Hb & Hr). rewrite (skip_loop_S _ _ _ _ b Hb).
  destruct (Z.leb_spec 192 b).
  - destruct (get8 msg (i + 1)) as [b2|] eqn:Hb2; [|done].
    destruct (Nat.ltb_spec 64 (jumps + 1)); [done|].
    destruct (Nat.leb_spec (length msg) (ptr_target b b2)); [done|]. apply IH; [lia|].
    replace (64 - jumps)%nat with (S (64 - (jumps + 1))) in Hf by lia. cbn [Nat.mul] in Hf. lia.
  - destruct (Z.leb_spec 64 b); [done|]. destruct (Z.eqb_spec b 0) as [->|]; [done|].
    destruct (Nat.ltb_spec (length msg) (i + (1 + Z.to_nat b))); [done|]. apply IH; lia.
Qed.

Lemma skip_name_total pos : skip_name msg pos ≠ SkipFuel ∧ skip_name msg pos ≠ SkipOob.
Proof. apply skip_loop_total; unfold skip_fuel, MAX_JUMPS; lia. Qed.
Lemma skip_name_exact pos e : skip_name msg pos = SkipOk e ↔ wire_name msg 64 pos e.
Proof.
  split.
  - intros H. apply skip_loop_sound in H as (e' & He & ->); [exact He|lia].
  - intros H. destruct (skip_loop_complete _ _ _ H (skip_fuel msg) None 0) as [Hs|Hs]; [lia|done|].
    by destruct (skip_name_total pos).
Qed.
Lemma wire_name_det n i e e' : wire_name msg n i e → wire_name msg 64 i e' → (n ≤ 64)%nat → e = e'.
Proof.
  intros H H' Hn. apply skip_name_exact in H'. unfold skip_name in H'.
  destruct (skip_loop_complete _ _ _ H (skip_fuel msg) None 0) as [Hs|Hs]; [lia| |];
    rewrite H' in Hs; [by injection Hs|done].
Qed.
Lemma wire_name_bound n i e : wire_name msg n i e → (i < e ≤ length msg)%nat.
Proof.
  induction 1 as [n i Hb|n i b e Hb Hr Hl _ IH|n i b b2 e Hb Hr Hb2 Hl _ IH];
    repeat match goal with H : get8 _ _ = Some _ |- _ => apply get8_range in H end; lia.
Qed.
Lemma skip_name_cases pos :
  (∃ e, skip_name msg pos = SkipOk e ∧ wire_name msg 64 pos e) ∨
  (skip_name msg pos = SkipErr ∧ ∀ e, ¬ wire_name msg 64 pos e).
Proof.
  destruct (skip_name msg pos) as [| | |e] eqn:E.
  - by destruct (skip_name_total pos).
  - by destruct (skip_name_total pos).
  - right. split; [done|]. intros e He%skip_name_exact. congruence.
  - left. exists e. split; [done|]. by apply skip_name_exact.
Qed.
End skip.

(** ** Messages *)

(** [n] questions from [pos] on end at [e]. *)
Inductive questions (msg : bytes) : nat → nat → nat → Prop :=
| qs_nil p : questions msg 0 p p
| qs_cons n p e p' :
    wire_name msg 64 p e → (e + 4 ≤ length msg)%nat → questions msg n (e + 4) p' →
    questions msg (S n) p p'.
Record rr := mk_rr { rr_type : Z; rr_class : Z; rr_data : bytes }.
(** [n] resource records from [pos] on. *)
Inductive answers (msg : bytes) : nat → nat → list rr → Prop :=
| as_nil p : answers msg 0 p []
| as_cons n p e t c len l :
    wire_name msg 64 p e → (e + 10 ≤ length msg)%nat →
    get16 msg e = Some t → get16 msg (e + 2) = Some c → get16 msg (e + 8) = Some len →
    (e + 10 + Z.to_nat len ≤ length msg)%nat →
    answers msg n (e + 10 + Z.to_nat len) l →
    answers msg (S n) p (mk_rr t c (take (Z.to_nat len) (drop (e + 10) msg)) :: l).
(** The records that answer a query of type [qt]. *)
Definition wanted (qt : Z) (r : rr) : bool :=
  (rr_class r =? ALR_DNS_C_IN) && (rr_type r =? qt) && (length (rr_data r) =? want_len qt)%nat.
Definition answer_addrs (qt : Z) (l : list rr) : list bytes :=
  take ALR_DOH_MAX_ADDRS (rr_data <$> filter (λ r, wanted qt r = true) l).

Lemma question_loop_cases n msg pos :
  (∃ p, question_loop n msg pos = Some (inr p) ∧ questions msg n pos p) ∨
  (∃ e, question_loop n msg pos = Some (inl e) ∧ (e = ALR_DOH_E_FORMAT ∨ e = ALR_DOH_E_TRUNC) ∧
    ∀ p, ¬ questions msg n pos p).
Proof.
  revert pos. induction n as [|n IH]; intros pos; cbn [question_loop].
  { left. exists pos. split; [done|constructor]. }
  destruct (skip_name_cases msg pos) as [(e & -> & He)|(-> & Hn)].
  - destruct (Nat.ltb_spec (length msg) (e + 4)) as [Hl|Hl].
    + right. eexists. split; [done|]. split; [by right|]. intros p Hq. inversion Hq; subst.
      assert (e = e0) by (by eapply wire_name_det). subst. lia.
    + destruct (IH (e + 4)%nat) as [(p & Hp & Hq)|(err & Hp & Herr & Hq)]; rewrite Hp.
      * left. exists p. split; [done|]. by econstructor.
      * right. exists err. do 2 (split; [done|]). intros p Hq'. inversion Hq'; subst.
        assert (e = e0) by (by eapply wire_name_det). subst. by apply (Hq p).
  - right. eexists. split; [done|]. split; [by left|]. intros p Hq. inversion Hq; subst.
    by apply (Hn e).
Qed.

Definition collect_rr (qt : Z) (l : list bytes) (r : rr) : list bytes :=
  if wanted qt r && (length l <? ALR_DOH_MAX_ADDRS)%nat then l ++ [rr_data r] else l.
Lemma collect_rrs qt l rs :
  (length l ≤ ALR_DOH_MAX_ADDRS)%nat →
  foldl (collect_rr qt) l rs
  = take ALR_DOH_MAX_ADDRS (l ++ (rr_data <$> filter (λ r, wanted qt r = true) rs)).
Proof.
  revert l. induction rs as [|r rs IH]; intros l Hl; cbn [foldl].
  { rewrite app_nil_r, take_ge; done. }
  unfold collect_rr at 2. rewrite filter_cons. destruct (wanted qt r) eqn:Hw.
  - rewrite decide_True by done. cbn [andb fmap list_fmap].
    destruct (Nat.ltb_spec (length l) ALR_DOH_MAX_ADDRS).
    + rewrite IH by (rewrite length_app; cbn; lia). by rewrite <- app_assoc.
    + rewrite IH by done. rewrite !take_app_le by lia. done.
  - rewrite decide_False by done. by apply IH.
Qed.
Lemma collect_addr_rr msg pos t c len qt l :
  (pos + len ≤ length msg)%nat →
  collect_addr msg pos t c len qt l
  = collect_rr qt l (mk_rr t c (take len (drop pos msg))).
Proof.
  intros Hl. unfold collect_addr, collect_rr, wanted. cbn [rr_class rr_type rr_data].
  rewrite length_take, length_drop, Nat.min_l, !andb_assoc by lia.
  destruct (Nat.eqb_spec len (want_len qt)) as [->|]; [done|]. by rewrite !andb_false_r.
Qed.
Lemma answer_loop_cases n msg pos qt l :
  (∃ rs, answer_loop n msg pos qt l = Some (ALR_DOH_OK, foldl (collect_rr qt) l rs) ∧
     answers msg n pos rs) ∨
  (∃ e l', answer_loop n msg pos qt l = Some (e, l') ∧
     (e = ALR_DOH_E_FORMAT ∨ e = ALR_DOH_E_TRUNC) ∧ ∀ rs, ¬ answers msg n pos rs).
Proof.
  revert pos l. induction n as [|n IH]; intros pos l; cbn [answer_loop].
  { left. exists []. split; [done|constructor]. }
  destruct (skip_name_cases msg pos) as [(e & -> & He)|(-> & Hn)].
  2:{ right. do 2 eexists. split; [done|]. split; [by left|]. intros p Hq. inversion Hq; subst.
      by apply (Hn e). }
  destruct (Nat.ltb_spec (length msg) (e + 10)) as [Hl|Hl].
  { right. do 2 eexists. split; [done|]. split; [by right|]. intros p Hq. inversion Hq; subst.
    assert (e = e0) by (by eapply wire_name_det). subst. lia. }
  destruct (get16_Some msg e) as (t & Et); [lia|].
  destruct (get16_Some msg (e + 2)) as (c & Ec); [lia|].
  destruct (get16_Some msg (e + 8)) as (len & El); [lia|]. rewrite Et, Ec, El. cbn [mbind option_bind].
  destruct (Nat.ltb_spec (length msg) (e + 10 + Z.to_nat len)) as [Hd|Hd].
  { right. do 2 eexists. split; [done|]. split; [by right|]. intros p Hq. inversion Hq; subst.
    assert (e = e0) by (by eapply wire_name_det). subst. simplify_eq. lia. }
  rewrite collect_addr_rr by done.
  destruct (IH (e + 10 + Z.to_nat len)%nat (collect_rr qt l (mk_rr t c (take (Z.to_nat len) (drop (e + 10) msg)))))
    as [(rs & Hp & Hq)|(err & l' & Hp & Herr & Hq)]; rewrite Hp.
  - left. eexists (_ :: rs). split; [done|]. by econstructor.
  - right. exists err, l'. do 2 (split; [done|]). intros p Hq'. inversion Hq'; subst.
    assert (e = e0) by (by eapply wire_name_det). subst. simplify_eq. by eapply Hq.
Qed.
Lemma answers_det msg n p rs rs' : answers msg n p rs → answers msg n p rs' → rs = rs'.
Proof.
  intros H. revert rs'. induction H as [p|n p e t c len l Hw He Ht Hc Hlen Hl _ IH];
    intros rs' H'; inversion H'; subst; [done|].
  assert (e = e0) by (by eapply wire_name_det). subst. simplify_eq. f_equal. by apply IH.
Qed.
Lemma questions_det msg n p q q' : questions msg n p q → questions msg n p q' → q = q'.
Proof.
  intros H. revert q'. induction H as [p|n p e p' Hw He _ IH]; intros q' H'; inversion H'; subst;
    [done|].
  assert (e = e0) by (by eapply wire_name_det). subst. by apply IH.
Qed.

(** A well-formed response to query [id] of type [qt]: its rcode and its addresses. *)
Definition valid_response (msg : bytes) (id qt rc : Z) (l : list bytes) : Prop :=
  (12 ≤ length msg)%nat ∧ get16 msg 0 = Some id ∧
  ∃ flags qd an p,
    get16 msg 2 = Some flags ∧ get16 msg 4 = Some qd ∧ get16 msg 6 = Some an ∧
    Z.land flags 0x8000 ≠ 0 ∧ rc = Z.land flags 0x000f ∧
    questions msg (Z.to_nat qd) 12 p ∧
    ((rc ≠ ALR_DNS_RCODE_NOERROR ∧ l = []) ∨
     (rc = ALR_DNS_RCODE_NOERROR ∧
      ∃ rs, answers msg (Z.to_nat an) p rs ∧ l = answer_addrs qt rs)).

Lemma parse_response_cases msg id qt :
  ∃ e r, alr_doh_parse_response msg id qt = Some (e, r) ∧
    ((e = ALR_DOH_OK ∧ valid_response msg id qt (rcode r) (addrs r)) ∨
     ((e = ALR_DOH_E_FORMAT ∨ e = ALR_DOH_E_TRUNC) ∧ ∀ rc l, ¬ valid_response msg id qt rc l)).
Proof.
  unfold alr_doh_parse_response. destruct (Nat.ltb_spec (length msg) 12) as [Hl|Hl].
  { do 2 eexists. split; [done|]. right. split; [by right|]. intros rc l (H & _). lia. }
  destruct (get16_Some msg 0) as (id' & Ei); [lia|].
  destruct (get16_Some msg 2) as (flags & Ef); [lia|].
  destruct (get16_Some msg 4) as (qd & Eq); [lia|].
  destruct (get16_Some msg 6) as (an & Ea); [lia|]. rewrite Ei, Ef, Eq, Ea. cbn [mbind option_bind].
  destruct (Z.eqb_spec id' id) as [->|Hid]; cbn [negb].
  2:{ do 2 eexists. split; [done|]. right. split; [by left|]. intros rc l (_ & H & _). congruence. }
  destruct (Z.eqb_spec (Z.land flags 0x8000) 0) as [Hq|Hq].
  { do 2 eexists. split; [done|]. right. split; [by left|].
    intros rc l (_ & _ & f & ? & ? & ? & H & _ & _ & H' & _). congruence. }
  set (rc := Z.land flags 0x000f).
  destruct (question_loop_cases (Z.to_nat qd) msg 12) as [(p & -> & Hp)|(e & -> & He & Hn)].
  2:{ do 2 eexists. split; [done|]. right. split; [done|].
      intros rc' l (_ & _ & f & qd' & an' & p & _ & H & _ & _ & _ & Hqs & _).
      rewrite Eq in H. injection H as <-. by apply (Hn p). }
  cbn [mbind option_bind].
  destruct (Z.eqb_spec rc ALR_DNS_RCODE_NOERROR) as [Hz|Hz]; cbn [negb].
  2:{ do 2 eexists. split; [done|]. left. split; [done|]. split; [done|]. split; [done|].
      exists flags, qd, an, p. split_and!; try done. by left. }
  destruct (answer_loop_cases (Z.to_nat an) msg p qt [])
    as [(rs & -> & Hrs)|(e & l' & -> & He & Hn)]; cbn [mbind option_bind].
  - do 2 eexists. split; [done|]. left. split; [done|]. split; [done|]. split; [done|].
    exists flags, qd, an, p. split_and!; try done. right. split; [done|]. exists rs.
    split; [done|]. cbn [addrs]. rewrite collect_rrs; [done|cbn; lia].
  - do 2 eexists. split; [done|]. right. split; [done|].
    intros rc' l (_ & _ & f & qd' & an' & p' & Hf & Hq' & Ha' & _ & Hrc & Hqs & [[Hz' _]|(_ & rs & Hrs & _)]).
    + rewrite Ef in Hf. injection Hf as <-. rewrite Hrc in Hz'. by apply Hz'.
    + rewrite Eq in Hq'. injection Hq' as <-. rewrite Ea in Ha'. injection Ha' as <-.
      assert (p = p') as <- by (by eapply questions_det). by apply (Hn rs).
Qed.
Lemma valid_response_det msg id qt rc l rc' l' :
  valid_response msg id qt rc l → valid_response msg id qt rc' l' → rc = rc' ∧ l = l'.
Proof.
  intros (_ & _ & f & qd & an & p & Hf & Hq & Ha & _ & -> & Hqs & Hl)
    (_ & _ & f' & qd' & an' & p' & Hf' & Hq' & Ha' & _ & -> & Hqs' & Hl').
  simplify_eq. split; [done|]. assert (p = p') as <- by (by eapply questions_det).
  destruct Hl as [[? ->]|(? & rs & Hr & ->)], Hl' as [[? ->]|(? & rs' & Hr' & ->)]; try done.
  by rewrite (answers_det _ _ _ _ _ Hr Hr').
Qed.

Lemma parse_response_valid msg id qt rc l :
  valid_response msg id qt rc l →
  alr_doh_parse_response msg id qt = Some (ALR_DOH_OK, mk_res rc l).
Proof.
  intros Hv. destruct (parse_response_cases msg id qt) as (e & [rc' l'] & -> & [[-> Hv']|[_ Hno]]);
    [|by apply Hno in Hv].
  cbn in Hv'. destruct (valid_response_det _ _ _ _ _ _ _ Hv Hv') as [<- <-]. done.
Qed.

(** C19. The response parser accepts exactly the well-formed DNS responses: for every byte
    string it terminates and reads only inside the message; it returns OK exactly when the
    bytes are a response with the expected id whose questions and records parse (names
    with at most 64 compression jumps), and then it reports the rcode and the first 16
    addresses of the wanted type and class in wire order; every other input is refused
    with FORMAT or TRUNC. *)
Theorem parse_response_exact (msg : bytes) (id qt : Z) :
  ∃ e r, alr_doh_parse_response msg id qt = Some (e, r) ∧
    (e = ALR_DOH_OK ∨ e = ALR_DOH_E_FORMAT ∨ e = ALR_DOH_E_TRUNC) ∧
    ∀ rc l, (e = ALR_DOH_OK ∧ r = mk_res rc l) ↔ valid_response msg id qt rc l.
Proof.
  destruct (parse_response_cases msg id qt) as (e & [rc l] & Hp & [[-> Hv]|[He Hn]]);
    exists e || exists ALR_DOH_OK; exists (mk_res rc l); (split; [done|]).
  - split; [by left|]. intros rc' l'. split; [intros [_ [= <- <-]]; exact Hv|].
    intros Hv'. destruct (valid_response_det _ _ _ _ _ _ _ Hv Hv') as [<- <-]. done.
  - split; [by right|]. intros rc' l'. split; [|intros Hv'; by apply Hn in Hv'].
    intros [-> _]. by destruct He.
Qed.
Lemma answer_addrs_bound qt l :
  (length (answer_addrs qt l) ≤ ALR_DOH_MAX_ADDRS)%nat ∧
  Forall (λ a, length a = want_len qt) (answer_addrs qt l).
Proof.
  unfold answer_addrs. split; [rewrite length_take; lia|]. apply Forall_take, Forall_fmap, Forall_forall.
  intros r [H _]%list_elem_of_filter. unfold wanted in H. cbn.
  apply andb_true_iff in H as [_ H]. by apply Nat.eqb_eq.
Qed.

(** ** What the query encoder accepts *)

(** A host name: non-empty labels separated by dots, with an optional dot at the end. *)
Inductive dotted : bytes → list bytes → Prop :=
| dt_nil : dotted [] []
| dt_last l : l ≠ [] → dot ∉ l → dotted l [l]
| dt_cons l s ls : l ≠ [] → dot ∉ l → dotted s ls → dotted (l ++ dot :: s) (l :: ls).
Definition octets (ls : list bytes) : nat := sum_list ((λ l, S (length l)) <$> ls).
Definition encode_labels (ls : list bytes) : bytes :=
  concat ((λ l, byte_of (Z.of_nat (length l)) :: l) <$> ls).
Definition name_ok (ls : list bytes) : Prop :=
  ls ≠ [] ∧ Forall (λ l, (length l ≤ 63)%nat) ls ∧ (octets ls ≤ ALR_DOH_MAX_QNAME)%nat.
Definition query_bytes (id : Z) (ls : list bytes) (qtype : Z) : bytes :=
  query_header id ++ encode_labels ls ++ Byte.x00 :: put16 qtype ++ put16 ALR_DNS_C_IN.

Lemma octets_cons l ls : octets (l :: ls) = (S (length l) + octets ls)%nat.
Proof. done. Qed.
Lemma encode_labels_cons l ls :
  encode_labels (l :: ls) = (byte_of (Z.of_nat (length l)) :: l) ++ encode_labels ls.
Proof. done. Qed.
Lemma length_encode_labels ls : length (encode_labels ls) = octets ls.
Proof.
  induction ls as [|l ls IH]; [done|]. unfold encode_labels, octets in *. cbn.
  rewrite length_app. cbn. by rewrite IH.
Qed.
Lemma length_query_bytes id ls qtype : length (query_bytes id ls qtype) = (17 + octets ls)%nat.
Proof. unfold query_bytes. rewrite !length_app, length_encode_labels. cbn. lia. Qed.

Lemma label_len_dot l s : dot ∉ l → label_len (l ++ dot :: s) = length l.
Proof.
  induction l as [|c l IH]; intros Hd; cbn [label_len app length].
  - by rewrite bool_decide_true.
  - apply not_elem_of_cons in Hd as [Hc Hd]. rewrite bool_decide_false by done. by rewrite IH.
Qed.
Lemma label_len_end l : dot ∉ l → label_len l = length l.
Proof.
  induction l as [|c l IH]; intros Hd; cbn [label_len length]; [done|].
  apply not_elem_of_cons in Hd as [Hc Hd]. rewrite bool_decide_false by done. by rewrite IH.
Qed.
Lemma label_split s :
  (dot ∉ take (label_len s) s) ∧ length (take (label_len s) s) = label_len s ∧
  (drop (label_len s) s = [] ∨ ∃ r, drop (label_len s) s = dot :: r).
Proof.
  induction s as [|c s (Hd & Hl & Hr)]; cbn [label_len].
  - cbn. split; [apply not_elem_of_nil|]. split; [done|by left].
  - case_bool_decide as Hc; cbn [take drop length].
    + subst c. split; [apply not_elem_of_nil|]. split; [done|]. right. by exists s.
    + split; [|split; [by rewrite Hl|exact Hr]]. by apply not_elem_of_cons.
Qed.

(** One turn of the loop on a label. *)
Lemma qname_loop_label fuel s n out cap :
  s ≠ [] → label_len s ≠ 0%nat →
  qname_loop (S fuel) s n out cap =
    let l := take (label_len s) s in
    if (63 <? length l)%nat then inl ALR_DOH_E_BADNAME
    else if (ALR_DOH_MAX_QNAME <? n + S (length l))%nat then inl ALR_DOH_E_BADNAME
    else if (cap <? length out + S (length l) + 5)%nat then inl ALR_DOH_E_SMALLBUF
    else qname_loop fuel (drop (S (label_len s)) s) (n + S (length l))
           (out ++ byte_of (Z.of_nat (length l)) :: l) cap.
Proof.
  intros Hs Hl. destruct (label_split s) as (_ & Hlen & _). destruct s as [|c s]; [done|].
  cbn [qname_loop]. rewrite (proj2 (Nat.eqb_neq _ 0)) by done. cbn zeta. rewrite Hlen.
  replace (length out + 1 + label_len (c :: s) + 1 + 4)%nat
    with (length out + S (label_len (c :: s)) + 5)%nat by lia.
  rewrite <- (Nat.add_1_r (label_len (c :: s))) at 4. rewrite <- drop_drop.
  by destruct (drop (label_len (c :: s)) (c :: s)).
Qed.

Lemma qname_loop_sound fuel s n out cap n' out' :
  (length s ≤ fuel)%nat → (n ≤ ALR_DOH_MAX_QNAME)%nat →
  qname_loop fuel s n out cap = inr (n', out') →
  ∃ ls, dotted s ls ∧ Forall (λ l, (length l ≤ 63)%nat) ls ∧ n' = (n + octets ls)%nat ∧
    (n' ≤ ALR_DOH_MAX_QNAME)%nat ∧ out' = out ++ encode_labels ls.
Proof.
  revert s n out. induction fuel as [|fuel IH]; intros s n out Hf Hn H.
  - destruct s; [|cbn in Hf; lia]. injection H as <- <-. exists [].
    split_and!; [constructor|constructor|unfold octets; cbn; lia|done|by rewrite app_nil_r].
  - destruct (decide (s = [])) as [->|Hs].
    { injection H as <- <-. exists [].
      split_and!; [constructor|constructor|unfold octets; cbn; lia|done|by rewrite app_nil_r]. }
    destruct (label_split s) as (Hd & Hlen & Hr).
    destruct (decide (label_len s = 0%nat)) as [Hz|Hz].
    { destruct s as [|c s]; [done|]. cbn [qname_loop] in H. by rewrite Hz in H. }
    rewrite qname_loop_label in H by done. cbn zeta in H.
    destruct (Nat.ltb_spec 63 (length (take (label_len s) s))); [done|].
    destruct (Nat.ltb_spec ALR_DOH_MAX_QNAME (n + S (length (take (label_len s) s)))); [done|].
    destruct (Nat.ltb_spec cap (length out + S (length (take (label_len s) s)) + 5)); [done|].
    apply IH in H as (ls & Hdot & Hls & -> & Hmax & ->); [|rewrite length_drop; lia|done].
    exists (take (label_len s) s :: ls). split_and!; try done.
    + assert (take (label_len s) s ≠ []) as Hne by (intros E; rewrite E in Hlen; cbn in Hlen; lia).
      rewrite <- (take_drop (label_len s) s) at 1. rewrite <- Nat.add_1_r, <- drop_drop in Hdot.
      destruct Hr as [Hr|[r Hr]]; rewrite Hr in Hdot |- *; cbn [drop] in Hdot.
      * rewrite app_nil_r. inversion Hdot; subst; [by constructor|done|by destruct l].
      * by constructor.
    + by constructor.
    + unfold octets. cbn. lia.
    + unfold encode_labels. cbn. by rewrite <- app_assoc.
Qed.
Lemma qname_loop_complete s ls :
  dotted s ls → ∀ fuel n out cap, (length s ≤ fuel)%nat →
  Forall (λ l, (length l ≤ 63)%nat) ls → (n + octets ls ≤ ALR_DOH_MAX_QNAME)%nat →
  (length out + octets ls + 5 ≤ cap)%nat →
  qname_loop fuel s n out cap = inr ((n + octets ls)%nat, out ++ encode_labels ls).
Proof.
  induction 1 as [|l Hne Hd|l s ls Hne Hd _ IH]; intros fuel n out cap Hf Hls Hn Hc.
  - unfold octets, encode_labels. cbn. rewrite Nat.add_0_r, app_nil_r. by destruct fuel.
  - destruct fuel as [|fuel]; [destruct l; cbn in Hf; [done|lia]|]. apply Forall_cons in Hls as [Hls _].
    assert (0 < length l)%nat by (destruct l; [done|cbn; lia]).
    rewrite qname_loop_label by (done || (rewrite label_len_end by done; lia)). cbn zeta.
    rewrite label_len_end, firstn_all, drop_ge by (done || lia).
    rewrite octets_cons in *. rewrite encode_labels_cons. change (octets []) with 0%nat in *.
    rewrite !(proj2 (Nat.ltb_ge _ _)) by lia. unfold encode_labels.
    cbn. rewrite app_nil_r, Nat.add_0_r. by destruct fuel.
  - destruct fuel as [|fuel]; [destruct l; cbn in Hf; [done|lia]|]. apply Forall_cons in Hls as [Hl Hls].
    assert (0 < length l)%nat by (destruct l; [done|cbn; lia]).
    rewrite qname_loop_label by (done || (by destruct l) || (rewrite label_len_dot by done; lia)).
    cbn zeta. rewrite octets_cons in *. rewrite encode_labels_cons.
    rewrite label_len_dot, take_app_length by done.
    rewrite !(proj2 (Nat.ltb_ge _ _)) by lia.
    replace (drop (S (length l)) (l ++ dot :: s)) with s.
    2:{ rewrite <- Nat.add_1_r, <- drop_drop, drop_app_length. done. }
    rewrite IH; try done.
    + rewrite <- app_assoc. cbn. f_equal. f_equal. lia.
    + rewrite length_app in Hf. cbn in Hf. lia.
    + lia.
    + rewrite length_app. cbn. lia.
Qed.
Lemma dotted_det s ls ls' : dotted s ls → dotted s ls' → ls = ls'.
Proof.
  intros H. revert ls'. induction H as [|l Hne Hd|l s ls Hne Hd _ IH]; intros ls' H'.
  - inversion H' as [|l' Hne' Hd'|l' s' ls'' Hne' Hd' H'' E]; [done|done|by destruct l'].
  - inversion H' as [|l' Hne' Hd'|l' s' ls'' Hne' Hd' H'' E]; subst; [done|done|].
    destruct Hd. apply elem_of_app. right. by left.
  - inversion H' as [E|l' Hne' Hd' E|l' s' ls'' Hne' Hd' H'' E]; subst.
    + by destruct l.
    + destruct Hd'. apply elem_of_app. right. by left.
    + assert (length l = length l') as El.
      { rewrite <- (label_len_dot l s Hd), <- E. by apply label_len_dot. }
      apply app_inj_1 in E as [-> [= ->]]; [|done]. f_equal. by apply IH.
Qed.
Lemma qname_loop_error fuel s n out cap e :
  qname_loop fuel s n out cap = inl e →
  e = ALR_DOH_E_BADNAME ∨ (e = ALR_DOH_E_SMALLBUF ∧ (cap < length out + (255 - n) + 5)%nat).
Proof.
  revert s n out. induction fuel as [|fuel IH]; intros s n out H; [by destruct s|].
  destruct (decide (s = [])) as [->|Hs]; [done|].
  destruct (decide (label_len s = 0%nat)) as [Hz|Hz].
  { destruct s as [|c s]; [done|]. cbn [qname_loop] in H. rewrite Hz in H. cbn in H.
    injection H as <-. by left. }
  rewrite qname_loop_label in H by done. cbn zeta in H.
  destruct (Nat.ltb_spec 63 (length (take (label_len s) s))); [injection H as <-; by left|].
  destruct (Nat.ltb_spec ALR_DOH_MAX_QNAME (n + S (length (take (label_len s) s))));
    [injection H as <-; by left|]. unfold ALR_DOH_MAX_QNAME in *.
  destruct (Nat.ltb_spec cap (length out + S (length (take (label_len s) s)) + 5)).
  - injection H as <-. right. split; [done|]. lia.
  - apply IH in H as [->|(-> & Hc)]; [by left|]. right. split; [done|].
    rewrite length_app in Hc. cbn [length] in Hc. lia.
Qed.

Lemma build_query_cases id s qtype cap :
  qtype = ALR_DNS_T_A ∨ qtype = ALR_DNS_T_AAAA →
  (∃ ls, alr_doh_build_query id (Some s) qtype cap = inr (query_bytes id ls qtype) ∧
     dotted s ls ∧ name_ok ls ∧ (17 + octets ls ≤ cap)%nat) ∨
  (∃ e, alr_doh_build_query id (Some s) qtype cap = inl e ∧
     (e = ALR_DOH_E_BADNAME ∨ (e = ALR_DOH_E_SMALLBUF ∧ (cap < 272)%nat)) ∧
     ∀ ls, dotted s ls → name_ok ls → (cap < 17 + octets ls)%nat).
Proof.
  intros Ht. unfold alr_doh_build_query.
  assert (negb (qtype =? ALR_DNS_T_A) && negb (qtype =? ALR_DNS_T_AAAA) = false) as ->
    by (by destruct Ht as [->| ->]).
  destruct (Nat.ltb_spec cap (12 + 1 + 4)) as [Hc|Hc].
  { right. eexists. split; [done|]. split; [right; split; [done|lia]|]. intros ls _ _. lia. }
  destruct (qname_loop (length s) s 0 (query_header id) cap) as [e|[n out]] eqn:E.
  { right. exists e. split; [done|]. split.
    - apply qname_loop_error in E as [->|(-> & H)]; [by left|]. cbn in H.
      right. split; [done|lia].
    - intros ls Hd (_ & Hls & Hn). apply Nat.nle_gt. intros Hl.
      rewrite (qname_loop_complete s ls Hd) in E; [done|done|done|done|]. cbn. lia. }
  apply qname_loop_sound in E as (ls & Hd & Hls & -> & Hmax & ->); [|done|unfold ALR_DOH_MAX_QNAME; lia].
  rewrite length_app, length_encode_labels. change (length (query_header id)) with 12%nat.
  rewrite Nat.add_0_l in *. unfold ALR_DOH_MAX_QNAME in Hmax.
  destruct (Nat.ltb_spec cap (12 + octets ls + 1 + 4)) as [Hs|Hs].
  { right. eexists. split; [done|]. split; [right; split; [done|lia]|]. intros ls' Hd' _.
    rewrite (dotted_det _ _ _ Hd' Hd). lia. }
  destruct (Nat.eqb_spec (octets ls) 0) as [Hz|Hz].
  { right. eexists. split; [done|]. split; [by left|]. intros ls' Hd' (Hne & _).
    rewrite (dotted_det _ _ _ Hd' Hd) in Hne. by destruct ls. }
  left. exists ls. rewrite <- app_assoc. split; [done|]. split; [done|]. split; [|lia].
  split; [|done]. intros ->. by apply Hz.
Qed.

(** The query encoder accepts exactly the host names of RFC 1035: for an A or AAAA
    query it returns the message iff the name is a sequence of dot-separated labels of 1 to
    63 bytes (one trailing dot allowed) of at most 255 counted octets and the message fits
    the buffer, and the bytes are the header, the length-prefixed labels, the root, the
    type and the class; any other input gives BADNAME or SMALLBUF, and with 272 bytes of
    buffer never SMALLBUF. *)
Theorem build_query_exact (id : Z) (s : bytes) (qtype : Z) (cap : nat) :
  qtype = ALR_DNS_T_A ∨ qtype = ALR_DNS_T_AAAA →
  (∀ q, alr_doh_build_query id (Some s) qtype cap = inr q ↔
     ∃ ls, dotted s ls ∧ name_ok ls ∧ q = query_bytes id ls qtype ∧ (length q ≤ cap)%nat) ∧
  (∀ e, alr_doh_build_query id (Some s) qtype cap = inl e →
     e = ALR_DOH_E_BADNAME ∨ (e = ALR_DOH_E_SMALLBUF ∧ (cap < 272)%nat)).
Proof.
  intros Ht. destruct (build_query_cases id s qtype cap Ht)
    as [(ls & -> & Hd & Hok & Hl)|(e & -> & He & Hn)].
  - split; [|done]. intros q. split.
    + intros [= <-]. exists ls. by rewrite length_query_bytes.
    + intros (ls' & Hd' & _ & -> & _). by rewrite (dotted_det _ _ _ Hd' Hd).
  - split; [|intros e' [= <-]; exact He]. intros q. split; [done|].
    intros (ls & Hd & Hok & -> & Hl). rewrite length_query_bytes in Hl.
    pose proof (Hn ls Hd Hok). lia.
Qed.
Lemma build_query_exact_witness :
  alr_doh_build_query 0 (Some (str "deb.debian.org")) ALR_DNS_T_AAAA 512
  = inr (query_bytes 0 (split_on dot (str "deb.debian.org")) ALR_DNS_T_AAAA) ↔
  ∃ ls, dotted (str "deb.debian.org") ls ∧ name_ok ls ∧
    query_bytes 0 (split_on dot (str "deb.debian.org")) ALR_DNS_T_AAAA
    = query_bytes 0 ls ALR_DNS_T_AAAA ∧
    (length (query_bytes 0 (split_on dot (str "deb.debian.org")) ALR_DNS_T_AAAA) ≤ 512)%nat.
Proof.
  apply (proj1 (build_query_exact 0 (str "deb.debian.org") ALR_DNS_T_AAAA 512
    (or_intror eq_refl))).
Defined.
Example build_query_shape :
  length <$> (match alr_doh_build_query 0 (Some (str "deb.debian.org.")) ALR_DNS_T_A 512 with
              | inr q => Some q | inl _ => None end) = Some 32%nat ∧
  alr_doh_build_query 0 (Some (str "a..b")) ALR_DNS_T_A 512 = inl ALR_DOH_E_BADNAME ∧
  alr_doh_build_query 0 (Some (str ".")) ALR_DNS_T_A 512 = inl ALR_DOH_E_BADNAME ∧
  alr_doh_build_query 0 (Some (str "a.b")) ALR_DNS_T_A 20 = inl ALR_DOH_E_SMALLBUF.
Proof. vm_compute. done. Qed.
(** The root label is not counted: a name of 256 octets on the wire is accepted, one more
    than RFC 1035 allows. *)
Definition long_label : bytes := replicate 63 "a"%byte.
Definition long_name : bytes :=
  join_on dot [long_label; long_label; long_label; replicate 62 "a"%byte].
Example query_of_256_octets :
  octets (split_on dot long_name) = 255%nat ∧
  match alr_doh_build_query 0 (Some long_name) ALR_DNS_T_A 512 with
  | inr q => length q = (12 + 256 + 4)%nat | inl _ => False end.
Proof. vm_compute. done. Qed.

(** ** A query and its answer *)

Lemma get8_app_r pre s i : get8 (pre ++ s) (length pre + i) = get8 s i.
Proof. unfold get8. by rewrite lookup_app_r, Nat.add_sub' by lia. Qed.
Lemma get16_app_r pre s i : get16 (pre ++ s) (length pre + i) = get16 s i.
Proof. unfold get16. by rewrite get8_app_r, <- Nat.add_succ_r, get8_app_r. Qed.
Lemma get16_put16 v s : 0 ≤ v < 2 ^ 16 → get16 (put16 v ++ s) 0 = Some v.
Proof.
  intros Hv. unfold get16, get8, put16. cbn. rewrite !byte_val_of. f_equal.
  rewrite (Z.land_ones v 8 ltac:(lia) : Z.land v 255 = _), Z.mod_mod by lia.
  rewrite (Z.mod_small (Z.shiftr v 8)); [by apply (lor_shiftl_mod v 8)|].
  rewrite Z.shiftr_div_pow2 by lia. split; [apply Z.div_pos; lia|]. apply Z.div_lt_upper_bound; lia.
Qed.

Lemma wire_labels pre ls post n :
  Forall (λ l, l ≠ [] ∧ (length l ≤ 63)%nat) ls →
  wire_name (pre ++ encode_labels ls ++ Byte.x00 :: post) n (length pre)
    (length pre + octets ls + 1).
Proof.
  revert pre. induction ls as [|l ls IH]; intros pre Hls.
  - replace (length pre + octets [] + 1)%nat with (length pre + 1)%nat by (unfold octets; cbn; lia).
    apply wn_root. rewrite <- (Nat.add_0_r (length pre)) at 1. rewrite get8_app_r. done.
  - apply Forall_cons in Hls as [[Hne Hl] Hls].
    assert (0 < length l)%nat by (destruct l; [done|cbn; lia]).
    rewrite octets_cons, encode_labels_cons.
    apply (wn_label _ _ _ (Z.of_nat (length l))).
    + rewrite <- (Nat.add_0_r (length pre)) at 1. rewrite get8_app_r. cbn.
      rewrite byte_val_of, Z.mod_small by lia. done.
    + lia.
    + rewrite !length_app. cbn. lia.
    + rewrite Nat2Z.id. specialize (IH (pre ++ byte_of (Z.of_nat (length l)) :: l) Hls).
      rewrite length_app in IH. cbn [length] in IH. rewrite <- !app_assoc in IH |- *.
      replace (length pre + (S (length l) + octets ls) + 1)%nat
        with (length pre + S (length l) + octets ls + 1)%nat by lia. exact IH.
Qed.

(** A resource record whose owner is the name of the question (a pointer to byte 12). *)
Definition encode_rr (ttl : bytes) (r : rr) : bytes :=
  Byte.xc0 :: Byte.x0c :: put16 (rr_type r) ++ put16 (rr_class r) ++ ttl ++
    put16 (Z.of_nat (length (rr_data r))) ++ rr_data r.
Definition rr_ok (r : rr) : Prop :=
  0 ≤ rr_type r < 2 ^ 16 ∧ 0 ≤ rr_class r < 2 ^ 16 ∧ Z.of_nat (length (rr_data r)) < 2 ^ 16.
(** The answer a server gives to a query: its id, its question and the records. *)
Definition response_bytes (query : bytes) (flags : Z) (ttl : bytes) (rs : list rr) : bytes :=
  take 2 query ++ put16 flags ++ put16 1 ++ put16 (Z.of_nat (length rs)) ++ put16 0 ++ put16 0
    ++ drop 12 query ++ concat (encode_rr ttl <$> rs).

Lemma answers_rr pre ttl r rest e n l :
  let all := pre ++ encode_rr ttl r ++ rest in
  length ttl = 4%nat → rr_ok r → wire_name all 63 12 e → (12 < length pre)%nat →
  answers all n (length (pre ++ encode_rr ttl r)) l →
  answers all (S n) (length pre) (r :: l).
Proof.
  intros all Httl (Ht & Hc & Hd) Hn Hpre Hl. destruct r as [t c data].
  cbn [rr_type rr_class rr_data] in *.
  destruct ttl as [|t1 [|t2 [|t3 [|t4 [|]]]]]; try done. clear Httl.
  set (s := encode_rr [t1; t2; t3; t4] (mk_rr t c data) ++ rest).
  assert (∀ i, get8 all (length pre + i) = get8 s i) as H8 by (intros i; apply get8_app_r).
  assert (∀ i, get16 all (length pre + i) = get16 s i) as H16 by (intros i; apply get16_app_r).
  assert (length all = length pre + 12 + length data + length rest)%nat as Hlen.
  { unfold all, encode_rr. repeat (rewrite length_app || cbn [length put16 rr_data]). lia. }
  replace (mk_rr t c data) with
    (mk_rr t c (take (Z.to_nat (Z.of_nat (length data))) (drop (length pre + 2 + 10) all))) at 1.
  2:{ f_equal. unfold all. rewrite <- Nat.add_assoc, <- drop_drop, drop_app_length, Nat2Z.id.
      fold s. change (drop (2 + 10) s) with (data ++ rest). by rewrite take_app_length. }
  apply as_cons.
  - apply (wn_ptr _ 63 (length pre) 192 12 e); [|lia| | |exact Hn].
    + rewrite <- (Nat.add_0_r (length pre)), H8. done.
    + rewrite H8. done.
    + change (ptr_target 192 12) with 12%nat. lia.
  - lia.
  - rewrite H16. by apply (get16_put16 t (drop 4 s)).
  - rewrite <- Nat.add_assoc, H16. by apply (get16_put16 c (drop 6 s)).
  - rewrite <- Nat.add_assoc, H16. apply (get16_put16 (Z.of_nat (length data)) (drop 12 s)). lia.
  - lia.
  - rewrite length_app in Hl. replace (length pre + 2 + 10 + Z.to_nat (Z.of_nat (length data)))%nat
      with (length pre + length (encode_rr [t1; t2; t3; t4] (mk_rr t c data)))%nat; [exact Hl|].
    unfold encode_rr. repeat (rewrite length_app || cbn [length put16 rr_data]). lia.
Qed.
Lemma wire_answers pre ttl rs e :
  length ttl = 4%nat → Forall rr_ok rs → (12 < length pre)%nat →
  wire_name (pre ++ concat (encode_rr ttl <$> rs)) 63 12 e →
  answers (pre ++ concat (encode_rr ttl <$> rs)) (length rs) (length pre) rs.
Proof.
  intros Httl Hrs. revert pre. induction Hrs as [|r rs Hr Hrs IH]; intros pre Hpre Hn;
    cbn [length fmap list_fmap concat] in *; [constructor|].
  apply (answers_rr pre ttl r _ e); try done. rewrite app_assoc in Hn |- *. apply IH; [|done].
  rewrite length_app. lia.
Qed.

Lemma dotted_labels s ls : dotted s ls → Forall (λ l, l ≠ []) ls.
Proof. induction 1; by constructor. Qed.

Lemma response_valid id ls qtype flags ttl rs :
  0 ≤ id < 2 ^ 16 → Forall (λ l, l ≠ [] ∧ (length l ≤ 63)%nat) ls →
  0 ≤ flags < 2 ^ 16 → Z.land flags 0x8000 ≠ 0 → Z.land flags 0xf = 0 →
  length ttl = 4%nat → Forall rr_ok rs → Z.of_nat (length rs) < 2 ^ 16 →
  valid_response (response_bytes (query_bytes id ls qtype) flags ttl rs) id qtype 0
    (answer_addrs qtype rs).
Proof.
  intros Hid Hls Hf Hqr Hrc Httl Hrs Hn.
  set (qs := encode_labels ls ++ Byte.x00 :: put16 qtype ++ put16 ALR_DNS_C_IN).
  set (hd := put16 id ++ put16 flags ++ put16 1 ++ put16 (Z.of_nat (length rs)) ++ put16 0 ++ put16 0).
  set (all := hd ++ qs ++ concat (encode_rr ttl <$> rs)).
  change (response_bytes _ _ _ _) with all.
  assert (length (hd ++ qs) = 12 + octets ls + 5)%nat as Hlen.
  { unfold qs. rewrite !length_app, length_encode_labels. cbn. lia. }
  assert (∀ n, wire_name all n 12 (12 + octets ls + 1)) as Hname.
  { intros n. unfold all, qs. rewrite <- app_assoc. by apply (wire_labels hd). }
  assert (length all = 12 + octets ls + 5 + length (concat (encode_rr ttl <$> rs)))%nat as Hall.
  { unfold all. rewrite app_assoc, length_app, Hlen. done. }
  split; [lia|]. split; [by apply (get16_put16 id (drop 2 all))|].
  exists flags, 1, (Z.of_nat (length rs)), (length (hd ++ qs)).
  split; [by apply (get16_put16 flags (drop 4 all))|].
  split; [by apply (get16_put16 1 (drop 6 all))|].
  split; [apply (get16_put16 (Z.of_nat (length rs)) (drop 8 all)); lia|].
  split; [done|]. split; [by rewrite Hrc|]. split.
  - apply (qs_cons _ 0 12 (12 + octets ls + 1)); [done|lia|].
    replace (12 + octets ls + 1 + 4)%nat with (length (hd ++ qs)) by lia. constructor.
  - right. split; [done|]. exists rs. split; [|done]. rewrite Nat2Z.id.
    specialize (Hname 63%nat). unfold all in Hname |- *. rewrite app_assoc in Hname |- *.
    apply (wire_answers _ ttl rs (12 + octets ls + 1)); try done. lia.
Qed.

(** A query is answered: take any name and type for which the encoder produced a query,
    any answer records (of the name itself or of its aliases) and any flags of a
    successful response; the message a server builds from them by echoing the question and
    compressing the owner names is parsed to rcode 0 and exactly the addresses of the asked
    type, at most 16, in order. *)
Theorem query_answered (id : Z) (s : bytes) (qtype flags : Z) (cap : nat) (query ttl : bytes)
    (rs : list rr) :
  0 ≤ id < 2 ^ 16 → alr_doh_build_query id (Some s) qtype cap = inr query →
  0 ≤ flags < 2 ^ 16 → Z.land flags 0x8000 ≠ 0 → Z.land flags 0xf = 0 →
  length ttl = 4%nat → Forall rr_ok rs → Z.of_nat (length rs) < 2 ^ 16 →
  alr_doh_parse_response (response_bytes query flags ttl rs) id qtype
  = Some (ALR_DOH_OK, mk_res 0 (answer_addrs qtype rs)).
Proof.
  intros Hid Hq Hf Hqr Hrc Httl Hrs Hn.
  assert (qtype = ALR_DNS_T_A ∨ qtype = ALR_DNS_T_AAAA) as Ht.
  { unfold alr_doh_build_query in Hq.
    destruct (Z.eqb_spec qtype ALR_DNS_T_A); [by left|].
    destruct (Z.eqb_spec qtype ALR_DNS_T_AAAA); [by right|done]. }
  destruct (build_query_cases id s qtype cap Ht) as [(ls & E & Hd & Hok & _)|(e & E & _)];
    rewrite E in Hq; [|done]. injection Hq as <-. destruct Hok as (_ & Hls & _).
  assert (Forall (λ l, l ≠ [] ∧ (length l ≤ 63)%nat) ls) as Hls'.
  { pose proof (dotted_labels _ _ Hd) as Hne. rewrite Forall_forall in Hls, Hne |- *. auto. }
  apply parse_response_valid. by apply response_valid.
Qed.
Definition demo_rrs : list rr :=
  [mk_rr 5 1 (bytes_of [1; 97; 0]); mk_rr 1 1 (bytes_of [93; 184; 216; 34]); mk_rr 1 1 (bytes_of [1; 2; 3])].
Lemma query_answered_witness :
  alr_doh_parse_response
    (response_bytes (query_bytes 7 (split_on dot (str "deb.debian.org")) ALR_DNS_T_A) 0x8180
       (bytes_of [0; 0; 1; 44]) demo_rrs) 7 ALR_DNS_T_A
  = Some (ALR_DOH_OK, mk_res 0 (answer_addrs ALR_DNS_T_A demo_rrs)).
Proof.
  apply (query_answered 7 (str "deb.debian.org") ALR_DNS_T_A 0x8180 512);
    try done. repeat constructor; vm_compute; done.
Defined.
Example demo_answer : answer_addrs ALR_DNS_T_A demo_rrs = [bytes_of [93; 184; 216; 34]].
Proof. vm_compute. done. Qed.

(** ** base64url decodes back *)

(** The decoder of RFC 4648, section 5, without padding. *)
Definition b64_index (c : byte) : option Z := Z.of_nat <$> find_from c b64_alphabet.
Definition b64_decode4 (a b c d : Z) : bytes :=
  let v := a * 2 ^ 18 + b * 2 ^ 12 + c * 2 ^ 6 + d in
  [byte_of (v / 2 ^ 16); byte_of (v / 2 ^ 8); byte_of v].
Fixpoint b64_decode (s : bytes) : option bytes :=
  match s with
  | a :: b :: c :: d :: s' =>
      a ← b64_index a; b ← b64_index b; c ← b64_index c; d ← b64_index d;
      r ← b64_decode s'; Some (b64_decode4 a b c d ++ r)
  | [a; b; c] =>
      a ← b64_index a; b ← b64_index b; c ← b64_index c; Some (take 2 (b64_decode4 a b c 0))
  | [a; b] => a ← b64_index a; b ← b64_index b; Some (take 1 (b64_decode4 a b 0 0))
  | [_] => None
  | [] => Some []
  end.

Definition b64_index_ok (z : Z) : bool :=
  (64 <=? z) ||
  match b64_index (b64_alphabet !!! Z.to_nat z) with Some k => k =? z | None => false end.
Lemma b64_index_all : forallb (λ n, b64_index_ok (Z.of_nat n)) (seq 0 256) = true.
Proof. vm_compute. reflexivity. Qed.
Lemma b64_index_char v : b64_index (b64_char v) = Some (v mod 64).
Proof.
  unfold b64_char. rewrite (Z.land_ones v 6 ltac:(lia) : Z.land v 63 = _).
  pose proof (Z.mod_pos_bound v (2 ^ 6) ltac:(lia)) as H. change (2 ^ 6) with 64 in *.
  assert (b64_index_ok (v mod 64) = true) as H' by (apply byte_forall; [exact b64_index_all|lia]).
  unfold b64_index_ok in H'. rewrite (proj2 (Z.leb_gt 64 _)) in H' by lia. cbn [orb] in H'.
  destruct (b64_index _) as [k|]; [|done]. f_equal. lia.
Qed.
(** Three bytes as a number, and its four six-bit digits. *)
Lemma lor_bytes3 a b c : 0 ≤ a < 256 → 0 ≤ b < 256 → 0 ≤ c < 256 →
  Z.lor (Z.lor (Z.shiftl a 16) (Z.shiftl b 8)) c = a * 65536 + b * 256 + c.
Proof.
  intros Ha Hb Hc.
  pose proof (lor_shiftl_mod (a * 256 + b) 8 ltac:(lia)) as H1.
  pose proof (lor_shiftl_mod ((a * 256 + b) * 256 + c) 8 ltac:(lia)) as H2.
  rewrite Z.shiftr_div_pow2 in H1, H2 by lia. change (2 ^ 8) with 256 in *.
  assert (∀ x y, 0 ≤ y < 256 → (x * 256 + y) / 256 = x ∧ (x * 256 + y) mod 256 = y) as Hdm.
  { intros x y Hy. Z.to_euclidean_division_equations. lia. }
  destruct (Hdm a b Hb) as [D1 M1]. rewrite D1, M1 in H1.
  destruct (Hdm (a * 256 + b) c Hc) as [D2 M2]. rewrite D2, M2 in H2.
  replace (a * 65536 + b * 256 + c) with ((a * 256 + b) * 256 + c) by lia. rewrite <- H2. f_equal.
  rewrite <- H1. by rewrite Z.shiftl_lor, Z.shiftl_shiftl by lia.
Qed.
Lemma b64_digits v : 0 ≤ v < 2 ^ 24 →
  (Z.shiftr v 18 mod 64) * 2 ^ 18 + (Z.shiftr v 12 mod 64) * 2 ^ 12 + (Z.shiftr v 6 mod 64) * 2 ^ 6
  + v mod 64 = v.
Proof.
  intros Hv. rewrite !Z.shiftr_div_pow2 by lia. change (2 ^ 18) with 262144.
  change (2 ^ 12) with 4096. change (2 ^ 6) with 64. Z.to_euclidean_division_equations. lia.
Qed.
Lemma b64_decode4_bytes a b c :
  b64_decode4 0 0 0 (byte_val a * 65536 + byte_val b * 256 + byte_val c) = [a; b; c].
Proof.
  pose proof (byte_val_range a). pose proof (byte_val_range b). pose proof (byte_val_range c).
  unfold b64_decode4. change (2 ^ 16) with 65536. change (2 ^ 8) with 256.
  rewrite !Z.mul_0_l, !Z.add_0_l.
  repeat f_equal; apply byte_of_eq; Z.to_euclidean_division_equations; lia.
Qed.
Lemma b64_decode4_sum a b c d :
  b64_decode4 a b c d = b64_decode4 0 0 0 (a * 2 ^ 18 + b * 2 ^ 12 + c * 2 ^ 6 + d).
Proof. unfold b64_decode4. by rewrite !Z.mul_0_l, !Z.add_0_l. Qed.
Lemma b64_group a b c :
  let v := Z.lor (Z.lor (Z.shiftl (byte_val a) 16) (Z.shiftl (byte_val b) 8)) (byte_val c) in
  b64_decode4 (Z.shiftr v 18 mod 64) (Z.shiftr v 12 mod 64) (Z.shiftr v 6 mod 64) (v mod 64)
  = [a; b; c].
Proof.
  pose proof (byte_val_range a). pose proof (byte_val_range b). pose proof (byte_val_range c).
  intros v. rewrite b64_decode4_sum. unfold v. rewrite lor_bytes3 by done.
  rewrite b64_digits by lia. apply b64_decode4_bytes.
Qed.
(** Two bytes and one byte are groups that end in zeros. *)
Lemma b64_group2 a b :
  let v := Z.lor (Z.shiftl (byte_val a) 16) (Z.shiftl (byte_val b) 8) in
  b64_decode4 (Z.shiftr v 18 mod 64) (Z.shiftr v 12 mod 64) (Z.shiftr v 6 mod 64) 0
  = [a; b; Byte.x00].
Proof.
  intros v. rewrite <- b64_group. cbn zeta. change (byte_val Byte.x00) with 0.
  rewrite Z.lor_0_r. fold v. f_equal. unfold v.
  pose proof (byte_val_range a). pose proof (byte_val_range b).
  pose proof (lor_bytes3 (byte_val a) (byte_val b) 0) as E. rewrite Z.lor_0_r in E.
  rewrite E by lia. Z.to_euclidean_division_equations. lia.
Qed.
Lemma b64_group1 a :
  let v := Z.shiftl (byte_val a) 16 in
  b64_decode4 (Z.shiftr v 18 mod 64) (Z.shiftr v 12 mod 64) 0 0 = [a; Byte.x00; Byte.x00].
Proof.
  intros v. rewrite <- b64_group2. cbn zeta. change (byte_val Byte.x00) with 0.
  rewrite Z.shiftl_0_l, Z.lor_0_r. fold v. f_equal. unfold v.
  pose proof (byte_val_range a). rewrite Z.shiftl_mul_pow2, Z.shiftr_div_pow2 by lia.
  Z.to_euclidean_division_equations. lia.
Qed.

Lemma b64_loop_decode n s : (length s ≤ n)%nat → b64_decode (b64_loop s) = Some s.
Proof.
  revert s. induction n as [|n IH]; intros s Hn; [by destruct s; [|cbn in Hn; lia]|].
  destruct s as [|a [|b [|c s]]]; cbn [b64_loop b64_decode]; rewrite ?b64_index_char;
    cbn [mbind option_bind]; [done|by rewrite b64_group1|by rewrite b64_group2|].
  rewrite IH by (cbn in Hn; lia). cbn [mbind option_bind]. by rewrite b64_group.
Qed.
Lemma b64_loop_length n s : (length s ≤ n)%nat → length (b64_loop s) = b64_need (length s).
Proof.
  revert s. induction n as [|n IH]; intros s Hn; [by destruct s; [|cbn in Hn; lia]|].
  destruct s as [|a [|b [|c s]]]; try done. cbn [b64_loop length].
  rewrite IH by (cbn in Hn; lia). unfold b64_need.
  replace (S (S (S (length s)))) with (length s + 1 * 3)%nat by lia.
  rewrite Nat.div_add, Nat.Div0.mod_add by lia. lia.
Qed.

(** The dns parameter of a GET request carries the query exactly: base64url produces
    the predicted number of characters of the URL-safe alphabet, refuses exactly the
    buffers with no room for them and the NUL, and decoding the text by RFC 4648 gives the
    message back. *)
Theorem base64url_roundtrip (s : bytes) (cap : nat) :
  match alr_doh_base64url s cap with
  | inr t => b64_decode t = Some s ∧ length t = b64_need (length s) ∧
      (length t < cap)%nat ∧ Forall (λ c, c ∈ b64_alphabet) t
  | inl e => e = ALR_DOH_E_SMALLBUF ∧ (cap ≤ length (b64_loop s))%nat
  end.
Proof.
  unfold alr_doh_base64url. pose proof (b64_loop_length _ s (le_n _)) as Hl.
  destruct (Nat.ltb_spec cap (b64_need (length s) + 1)); [split; [done|lia]|].
  split; [by apply (b64_loop_decode (length s))|]. split; [done|]. split; [lia|].
  assert (∀ v, b64_char v ∈ b64_alphabet) as Hc.
  { intros v. pose proof (b64_index_char v) as Hi. unfold b64_index in Hi.
    apply fmap_Some in Hi as (k & Hk & _). apply find_from_Some in Hk as (r & -> & _).
    apply elem_of_app. right. by left. }
  clear -Hc. remember (length s) as n eqn:Hn. assert (length s ≤ n)%nat as H by lia. clear Hn.
  revert s H. induction n as [|n IH]; intros s Hn; [by destruct s; [|cbn in Hn; lia]|].
  destruct s as [|a [|b [|c s]]]; cbn [b64_loop];
    repeat (apply Forall_cons; split; [apply Hc|]); try by apply Forall_nil.
  apply IH. cbn in Hn. lia.
Qed.
Example base64url_demo :
  alr_doh_base64url (bytes_of [0xfb; 0xff; 0xfe; 0]) 7 = inr (str "-__-AA") ∧
  alr_doh_base64url (bytes_of [0xfb; 0xff; 0xfe; 0]) 6 = inl ALR_DOH_E_SMALLBUF.
Proof. vm_compute. done. Qed.
Close Scope Z_scope.
