(* ===== verification/DohResolver.v ===== *)
(** * The DoH resolver: [alr_doh/libalr_doh.c]

    A preloaded [getaddrinfo] that resolves names over HTTPS.  The settings, the HTTP
    request and the HTTP response are byte strings; the TLS connection is a parameter that
    answers a request with the bytes the server sends, and so is the next definition of
    [getaddrinfo]. *)

From S2P Require Import Prelude Bytes DohWire.
Open Scope Z_scope.

(** ** Settings *)

Record doh_cfg := mk_cfg { enabled : bool; insecure : bool; diag : bool;
  server_ip : bytes; server_port : Z; host : bytes; path : bytes; ca : bytes }.

(** [cfg_copy] into a buffer of [cap] bytes. *)
Definition cfg_copy (cap : nat) (src : option bytes) (dflt : bytes) : bytes :=
  take (cap - 1) (match src with Some ((_ :: _) as v) => v | _ => dflt end).
Definition env_is (c : byte) (v : option bytes) : bool :=
  match v with Some (x :: _) => bool_decide (x = c) | _ => false end.
Definition is_digit (c : byte) : bool := (48 <=? byte_val c) && (byte_val c <=? 57).
(** The leading digits as an [int] that wraps. *)
Fixpoint parse_int (p : Z) (s : bytes) : Z :=
  match s with
  | c :: s' => if is_digit c then parse_int (s32 (p * 10 + (byte_val c - 48))) s' else p
  | [] => p
  end.
Definition colon : byte := ":"%byte.
Definition cfg_init (getenv : bytes → option bytes) : doh_cfg :=
  let tmp := cfg_copy 80 (getenv (str "ALR_DOH_SERVER")) (str "1.1.1.1") in
  let '(ip, port) :=
    match find_from colon tmp with
    | Some k =>
        let p := parse_int 0 (drop (S k) tmp) in
        (take k tmp, if (0 <? p) && (p <? 65536) then p else 443)
    | None => (tmp, 443)
    end in
  mk_cfg (negb (env_is "0"%byte (getenv (str "ALR_DOH"))))
    (env_is "1"%byte (getenv (str "ALR_DOH_INSECURE")))
    (env_is "1"%byte (getenv (str "ALR_DOH_DIAG")))
    (cfg_copy 64 (Some ip) (str "1.1.1.1")) port
    (cfg_copy 128 (getenv (str "ALR_DOH_HOST")) (str "cloudflare-dns.com"))
    (cfg_copy 128 (getenv (str "ALR_DOH_PATH")) (str "/dns-query"))
    (cfg_copy 256 (getenv (str "ALR_DOH_CA")) (str "/etc/ssl/certs/ca-certificates.crt")).

(** The dotted quad of the server: the parts so far, the index, [seen]. *)
Fixpoint quad_loop (s : bytes) (parts : list Z) (pi : nat) (seen : bool)
    : option (list Z * nat * bool) :=
  match s with
  | c :: s' =>
      if is_digit c then
        quad_loop s' (<[pi := u32 (parts !!! pi * 10 + (byte_val c - 48))]> parts) pi true
      else if bool_decide (c = dot) then
        if (3 <? S pi)%nat then None else quad_loop s' parts (S pi) false
      else Some (parts, pi, seen)
  | [] => Some (parts, pi, seen)
  end.
Definition parse_quad (s : bytes) : option Z :=
  match quad_loop s [0; 0; 0; 0] 0 false with
  | Some (parts, pi, seen) =>
      if negb seen || negb (pi =? 3)%nat then None
      else Some (Z.lor (Z.lor (Z.lor (u32 (Z.shiftl (parts !!! 0%nat) 24))
        (u32 (Z.shiftl (parts !!! 1%nat) 16))) (u32 (Z.shiftl (parts !!! 2%nat) 8)))
        (parts !!! 3%nat))
  | None => None
  end.

(** ** HTTP *)

Definition crlf : bytes := [Byte.x0d; Byte.x0a].
Definition REQ_MAX : nat := 1024.
Definition request_head (cfg : doh_cfg) : bytes := "GET " ++ path cfg ++ "?dns=".
Definition request_tail (cfg : doh_cfg) : bytes :=
  " HTTP/1.1" ++ crlf ++ "Host: " ++ host cfg ++ crlf ++
  "Accept: application/dns-message" ++ crlf ++ "User-Agent: alr-doh/1" ++ crlf ++
  "Connection: close" ++ crlf ++ crlf.
(** What is stored in [req]. *)
Definition http_request (cfg : doh_cfg) (b64 : bytes) : bytes :=
  request_head cfg ++ take (REQ_MAX - 200 - length (request_head cfg)) b64 ++ request_tail cfg.

Definition HTTP_BUF : nat := 8 * 1024.
(** The index after the first empty line. *)
Fixpoint find_body (buf : bytes) (i : nat) : option nat :=
  match buf with
  | [] => None
  | _ :: buf' => if is_prefix (crlf ++ crlf) buf then Some (i + 4)%nat else find_body buf' (S i)
  end.
Definition ok200 (buf : bytes) : bool :=
  (12 <? length buf)%nat && bool_decide (buf !! 9%nat = Some "2"%byte) &&
  bool_decide (buf !! 10%nat = Some "0"%byte) && bool_decide (buf !! 11%nat = Some "0"%byte).

Section resolver.
(** [connect], the handshake, the certificate check and [SSL_write] for a server and a
    request: the bytes [SSL_read] will deliver, or a failure. *)
Context (tls : doh_cfg → Z → bytes → option bytes).
(** [g_ssl.ok] after [ossl_load]. *)
Context (ssl_ok : bool).

(** [doh_query_once]; [None] is -1. *)
Definition doh_query_once (cfg : doh_cfg) (qname : bytes) (qtype : Z) : option alr_doh_result :=
  if negb ssl_ok then None
  else match alr_doh_build_query 0 (Some qname) qtype 512 with
  | inl _ => None
  | inr q =>
      if (length q =? 0)%nat then None
      else match alr_doh_base64url q 768 with
      | inl _ => None
      | inr b64 =>
          if (length b64 =? 0)%nat then None
          else
            ip ← parse_quad (server_ip cfg);
            stream ← tls cfg ip (http_request cfg b64);
            let buf := take HTTP_BUF stream in
            body ← find_body buf 0;
            if ok200 buf && (12 <=? length buf - body)%nat then
              '(e, r) ← alr_doh_parse_response (drop body buf) 0 qtype;
              if e =? ALR_DOH_OK then Some r else None
            else None
      end
  end.

(** ** getaddrinfo *)

Record addrinfo := mk_ai { ai_family : Z; ai_socktype : Z; ai_protocol : Z; ai_port : Z;
                           ai_addr : bytes }.
Record ai_hints := mk_hints { h_numerichost : bool; h_family : Z; h_socktype : Z; h_protocol : Z }.
Definition AF_UNSPEC : Z := 0.
Definition AF_INET : Z := 2.
Definition AF_INET6 : Z := 10.
Definition EAI_FAIL : Z := -4.
Definition EAI_NONAME : Z := -2.
(** Our own list, the next [getaddrinfo], or an error because there is none. *)
Inductive gai := Ours (l : list addrinfo) | Real | Error (e : Z).

Fixpoint numeric_loop (s : bytes) (dots digits other : nat) : bool :=
  match s with
  | [] => (other =? 0)%nat && (dots =? 3)%nat && (4 <=? digits)%nat
  | c :: s' =>
      if bool_decide (c = colon) then true
      else if bool_decide (c = dot) then numeric_loop s' (S dots) digits other
      else if is_digit c then numeric_loop s' dots (S digits) other
      else numeric_loop s' dots digits (S other)
  end.
Definition is_numeric_host (node : bytes) : bool :=
  match node with [] => true | _ => numeric_loop node 0 0 0 end.

(** The port of the service: [None] when it is not a number. *)
Definition service_port (service : option bytes) : option Z :=
  match service with
  | Some ((_ :: _) as s) => if forallb is_digit s then Some (u16 (parse_int 0 s)) else None
  | _ => Some 0
  end.
Definition make_ai (family : Z) (addr : bytes) (alen : nat) (socktype proto port : Z) : addrinfo :=
  mk_ai family socktype proto port (take alen addr).

Context (have_real : bool).
Definition defer (e : Z) : gai := if have_real then Real else Error e.
(** The addresses of one query. *)
Definition query_ais (cfg : doh_cfg) (node : bytes) (qtype family : Z) (alen : nat)
    (socktype proto port : Z) : list addrinfo :=
  match doh_query_once cfg node qtype with
  | Some r =>
      if rcode r =? ALR_DNS_RCODE_NOERROR
      then (λ a, make_ai family a alen socktype proto port) <$> addrs r else []
  | None => []
  end.
Definition hint_family (hints : option ai_hints) : Z := default AF_UNSPEC (h_family <$> hints).
Definition must_defer (cfg : doh_cfg) (node : option bytes) (hints : option ai_hints) : bool :=
  let fam := hint_family hints in
  negb (enabled cfg) || bool_decide (node = None) || default false (h_numerichost <$> hints) ||
  (negb (fam =? AF_UNSPEC) && negb (fam =? AF_INET) && negb (fam =? AF_INET6)) ||
  default true (is_numeric_host <$> node).
Definition getaddrinfo (cfg : doh_cfg) (node service : option bytes) (hints : option ai_hints) : gai :=
  if must_defer cfg node hints then defer EAI_FAIL
  else if negb ssl_ok then defer EAI_FAIL
  else match service_port service with
  | None => defer EAI_FAIL
  | Some port =>
      let name := default [] node in
      let fam := hint_family hints in
      let socktype := default 0 (h_socktype <$> hints) in
      let proto := default 0 (h_protocol <$> hints) in
      let l :=
        (if fam =? AF_INET6 then []
         else query_ais cfg name ALR_DNS_T_A AF_INET 4 socktype proto port) ++
        (if fam =? AF_INET then []
         else query_ais cfg name ALR_DNS_T_AAAA AF_INET6 16 socktype proto port) in
      match l with [] => defer EAI_NONAME | _ => Ours l end
  end.
End resolver.

(** ** The request *)

Lemma cfg_copy_length cap src dflt : (length (cfg_copy cap src dflt) ≤ cap - 1)%nat.
Proof. unfold cfg_copy. rewrite length_take. lia. Qed.
(** The sizes the buffers of the settings enforce. *)
Definition cfg_ok (cfg : doh_cfg) : Prop :=
  (length (server_ip cfg) ≤ 63)%nat ∧ (length (host cfg) ≤ 127)%nat ∧
  (length (path cfg) ≤ 127)%nat ∧ 0 < server_port cfg < 65536.
Lemma cfg_init_ok getenv : cfg_ok (cfg_init getenv).
Proof.
  unfold cfg_init. set (tmp := cfg_copy 80 _ _). destruct (match find_from colon tmp with
    | Some k => _ | None => _ end) as [ip port] eqn:E.
  split; [apply (cfg_copy_length 64)|]. split; [apply (cfg_copy_length 128)|].
  split; [apply (cfg_copy_length 128)|]. cbn.
  destruct (find_from colon tmp); injection E as <- <-; [|lia].
  destruct (_ && _) eqn:Ep; lia.
Qed.
Lemma http_request_full cfg t :
  cfg_ok cfg → (length t ≤ 363)%nat →
  http_request cfg t = request_head cfg ++ t ++ request_tail cfg ∧
  (length (http_request cfg t) ≤ REQ_MAX)%nat.
Proof.
  intros (_ & Hh & Hp & _) Ht. unfold http_request.
  assert (length (request_head cfg) ≤ 136)%nat as Hhead.
  { unfold request_head. rewrite !length_app. cbn. lia. }
  rewrite take_ge by (unfold REQ_MAX; lia). split; [done|].
  assert (length (request_tail cfg) = 96 + length (host cfg))%nat as Htail.
  { unfold request_tail. rewrite !length_app. cbn. lia. }
  rewrite !length_app, Htail. unfold REQ_MAX. lia.
Qed.
Lemma query_param_length ls qtype :
  name_ok ls → (length (b64_loop (query_bytes 0 ls qtype)) ≤ 363)%nat.
Proof.
  intros (_ & _ & Ho). unfold ALR_DOH_MAX_QNAME in Ho.
  rewrite (b64_loop_length _ _ (le_n _)), length_query_bytes. unfold b64_need.
  assert ((17 + octets ls) / 3 < 91)%nat by (apply Nat.Div0.div_lt_upper_bound; lia).
  pose proof (Nat.mod_upper_bound (17 + octets ls) 3 ltac:(lia)). case_match; lia.
Qed.

Lemma is_prefix_app_l p l r : (length p ≤ length l)%nat → is_prefix p (l ++ r) = is_prefix p l.
Proof.
  revert l. induction p as [|a p IH]; intros [|b l] Hl; cbn [app is_prefix length] in *;
    [by destruct r|done|lia|]. by rewrite IH by lia.
Qed.
Lemma find_body_length hd i k : find_body hd i = Some k → (4 ≤ length hd)%nat.
Proof.
  revert i. induction hd as [|c hd IH]; intros i; [done|]. cbn [find_body].
  destruct (is_prefix (crlf ++ crlf) (c :: hd)) eqn:E.
  - apply is_prefix_spec in E as [r ->]. intros _. rewrite length_app. cbn. lia.
  - intros H%IH. cbn. lia.
Qed.
Lemma find_body_app hd body i k : find_body hd i = Some k → find_body (hd ++ body) i = Some k.
Proof.
  intros H. pose proof (find_body_length _ _ _ H) as Hl. revert i H Hl.
  induction hd as [|c hd IH]; intros i; [done|]. cbn [find_body app]. intros H Hl.
  change (c :: hd ++ body) with ((c :: hd) ++ body). rewrite is_prefix_app_l by done.
  destruct (is_prefix (crlf ++ crlf) (c :: hd)); [done|].
  apply IH; [done|]. by apply find_body_length in H.
Qed.

(** ** A lookup from end to end *)

Section served.
Context (tls : doh_cfg → Z → bytes → option bytes) (cfg : doh_cfg) (ip : Z).
Context (head ttl : bytes) (flags : Z) (records : bytes → list rr).
Hypothesis Hcfg : cfg_ok cfg.
Hypothesis Hip : parse_quad (server_ip cfg) = Some ip.
(** The head of a 200 response, ending in the first empty line. *)
Hypothesis Hhead : find_body head 0 = Some (length head).
Hypothesis H200 : ok200 head = true.
Hypothesis Hflags : 0 ≤ flags < 2 ^ 16 ∧ Z.land flags 0x8000 ≠ 0 ∧ Z.land flags 0xf = 0.
Hypothesis Httl : length ttl = 4%nat.
Hypothesis Hrecords : ∀ q, Forall rr_ok (records q) ∧ Z.of_nat (length (records q)) < 2 ^ 16.
(** The server decodes the dns parameter of a GET request and answers the query it holds. *)
Hypothesis Hserver : ∀ t q,
  b64_decode t = Some q →
  tls cfg ip (request_head cfg ++ t ++ request_tail cfg)
  = Some (head ++ response_bytes q flags ttl (records q)).
(** The response fits the buffer of the client. *)
Hypothesis Hfits : ∀ q,
  (length q ≤ 272)%nat → (length (head ++ response_bytes q flags ttl (records q)) ≤ HTTP_BUF)%nat.

Lemma ok200_app hd body : ok200 hd = true → ok200 (hd ++ body) = true.
Proof.
  unfold ok200. intros [[[H1 H2]%andb_true_iff H3]%andb_true_iff H4]%andb_true_iff.
  rewrite length_app. apply Nat.ltb_lt in H1. rewrite (proj2 (Nat.ltb_lt _ _)) by lia.
  by rewrite !lookup_app_l, H2, H3, H4 by lia.
Qed.

Lemma doh_query_once_served name ls qtype :
  dotted name ls → name_ok ls → qtype = ALR_DNS_T_A ∨ qtype = ALR_DNS_T_AAAA →
  doh_query_once tls true cfg name qtype
  = Some (mk_res 0 (answer_addrs qtype (records (query_bytes 0 ls qtype)))).
Proof.
  intros Hd Hok Ht. pose proof (proj2 (proj2 Hok)) as Ho. unfold ALR_DOH_MAX_QNAME in Ho.
  set (q := query_bytes 0 ls qtype).
  assert (length q = 17 + octets ls)%nat as Hq by apply length_query_bytes.
  unfold doh_query_once. cbn [negb].
  destruct (build_query_cases 0 name qtype 512 Ht) as [(ls' & -> & Hd' & _)|(e & _ & _ & Hno)].
  2:{ specialize (Hno ls Hd Hok). lia. }
  rewrite (dotted_det _ _ _ Hd' Hd). fold q. clear ls' Hd'.
  rewrite (proj2 (Nat.eqb_neq (length q) 0)) by lia.
  pose proof (query_param_length ls qtype Hok) as Hp. fold q in Hp.
  pose proof (b64_loop_length _ q (le_n _)) as Hl.
  unfold alr_doh_base64url. rewrite (proj2 (Nat.ltb_ge 768 _)) by lia.
  assert (length (b64_loop q) ≠ 0)%nat as Hne.
  { intros H%nil_length_inv. pose proof (b64_loop_decode (length q) q (le_n _)) as E.
    rewrite H in E. injection E as E. rewrite <- E in Hq. cbn in Hq. lia. }
  rewrite (proj2 (Nat.eqb_neq _ 0) Hne), Hip. cbn [mbind option_bind].
  rewrite (proj1 (http_request_full cfg _ Hcfg Hp)).
  rewrite (Hserver _ q) by (by apply (b64_loop_decode (length q))). cbn [mbind option_bind].
  rewrite take_ge by (apply Hfits; lia). rewrite (find_body_app _ _ _ _ Hhead).
  cbn [mbind option_bind]. rewrite ok200_app by done. cbn [andb].
  rewrite drop_app_length, length_app, Nat.add_sub'.
  destruct Hflags as (Hf & Hqr & Hrc). destruct (Hrecords q) as [Hr Hn].
  assert (Forall (λ l, l ≠ [] ∧ (length l ≤ 63)%nat) ls) as Hls.
  { pose proof (dotted_labels _ _ Hd) as H0. pose proof (proj1 (proj2 Hok)) as H1.
    rewrite Forall_forall in H0, H1 |- *. auto. }
  pose proof (response_valid 0 ls qtype flags ttl (records q) ltac:(lia) Hls Hf Hqr Hrc Httl Hr Hn) as Hv.
  fold q in Hv. rewrite (proj2 (Nat.leb_le 12 _)) by apply Hv.
  by rewrite (parse_response_valid _ _ _ _ _ Hv).
Qed.

(** The addresses the server has for a name. *)
Definition served_ais (ls : list bytes) (qtype family : Z) (alen : nat) (socktype proto port : Z)
    : list addrinfo :=
  (λ a, mk_ai family socktype proto port a) <$>
    answer_addrs qtype (records (query_bytes 0 ls qtype)).
Lemma query_ais_served name ls qtype family alen socktype proto port :
  dotted name ls → name_ok ls → qtype = ALR_DNS_T_A ∨ qtype = ALR_DNS_T_AAAA →
  alen = want_len qtype →
  query_ais tls true cfg name qtype family alen socktype proto port
  = served_ais ls qtype family alen socktype proto port.
Proof.
  intros Hd Hok Ht ->. unfold query_ais. rewrite (doh_query_once_served name ls) by done.
  cbn [rcode addrs]. rewrite Z.eqb_refl. unfold served_ais.
  destruct (answer_addrs_bound qtype (records (query_bytes 0 ls qtype))) as [_ Hall].
  apply list_fmap_ext. intros i a Ha. rewrite Forall_forall in Hall.
  unfold make_ai. rewrite take_ge; [done|].
  rewrite (Hall a); [done|]. by apply list_elem_of_lookup_2 in Ha.
Qed.

(** C20. Name resolution works from end to end: with TLS available and a server that decodes
    the dns parameter of the GET request and answers the query it holds, getaddrinfo of a
    valid host name with a numeric service returns exactly the server's A addresses
    followed by its AAAA addresses (only the family that was asked for), each with the
    port, and falls back to the next resolver when there is none. *)
Theorem doh_resolves (have_real : bool) (name : bytes) (ls : list bytes) (service : option bytes)
    (hints : option ai_hints) (port : Z) :
  dotted name ls → name_ok ls → must_defer cfg (Some name) hints = false →
  service_port service = Some port →
  getaddrinfo tls true have_real cfg (Some name) service hints =
    let fam := hint_family hints in
    let socktype := default 0 (h_socktype <$> hints) in
    let proto := default 0 (h_protocol <$> hints) in
    let l :=
      (if fam =? AF_INET6 then []
       else served_ais ls ALR_DNS_T_A AF_INET 4 socktype proto port) ++
      (if fam =? AF_INET then []
       else served_ais ls ALR_DNS_T_AAAA AF_INET6 16 socktype proto port) in
    if decide (l = []) then defer have_real EAI_NONAME else Ours l.
Proof.
  intros Hd Hok Hdefer Hport. unfold getaddrinfo. rewrite Hdefer, Hport. cbn [negb default].
  change (from_option id [] (Some name)) with name.
  rewrite !(query_ais_served name ls) by (try done; auto).
  cbn zeta. by destruct (_ ++ _).
Qed.
End served.

(** A server for the example: two records for every name. *)
Definition toy_head : bytes := "HTTP/1.1 200 OK" ++ crlf ++ crlf.
Definition toy_ttl : bytes := bytes_of [0; 0; 1; 44].
Definition toy_records (q : bytes) : list rr :=
  [mk_rr 1 1 (bytes_of [93; 184; 216; 34]); mk_rr 28 1 (replicate 16 Byte.x01)].
Definition toy_tls (cfg : doh_cfg) (ip : Z) (req : bytes) : option bytes :=
  let t := drop (length (request_head cfg)) (take (length req - length (request_tail cfg)) req) in
  q ← b64_decode t; Some (toy_head ++ response_bytes q 0x8180 toy_ttl (toy_records q)).
Definition toy_cfg : doh_cfg := cfg_init (λ _, None).
Lemma toy_tls_serves cfg ip t q :
  b64_decode t = Some q →
  toy_tls cfg ip (request_head cfg ++ t ++ request_tail cfg)
  = Some (toy_head ++ response_bytes q 0x8180 toy_ttl (toy_records q)).
Proof.
  intros Hq. unfold toy_tls. rewrite app_assoc, length_app, Nat.add_sub, take_app_length.
  by rewrite drop_app_length, Hq.
Qed.
Lemma toy_fits q :
  (length q ≤ 272)%nat →
  (length (toy_head ++ response_bytes q 0x8180 toy_ttl (toy_records q)) ≤ HTTP_BUF)%nat.
Proof.
  intros Hq. assert (length (toy_head ++ response_bytes q 0x8180 toy_ttl (toy_records q)) ≤ 400)%nat
    as H; [|etransitivity; [exact H|unfold HTTP_BUF; lia]].
  rewrite length_app. unfold response_bytes. rewrite !length_app, length_take, length_drop.
  assert (length toy_head = 19)%nat as -> by reflexivity.
  assert (length (concat (encode_rr toy_ttl <$> toy_records q)) = 44)%nat as -> by reflexivity.
  unfold put16. cbn [length]. lia.
Qed.
Lemma doh_resolves_witness :
  getaddrinfo toy_tls true true toy_cfg (Some (str "deb.debian.org")) (Some (str "443")) None
  = Ours [mk_ai AF_INET 0 0 443 (bytes_of [93; 184; 216; 34]);
          mk_ai AF_INET6 0 0 443 (replicate 16 Byte.x01)].
Proof.
  assert (dotted (str "deb.debian.org") (strs ["deb"; "debian"; "org"])) as Hd.
  { apply (dt_cons (str "deb")); [done|apply (bool_decide_unpack _); vm_compute; exact I|].
    apply (dt_cons (str "debian")); [done|apply (bool_decide_unpack _); vm_compute; exact I|].
    apply dt_last; [done|apply (bool_decide_unpack _); vm_compute; exact I]. }
  pose proof (doh_resolves toy_tls toy_cfg 0x01010101 toy_head toy_ttl 0x8180 toy_records
    (cfg_init_ok _) ltac:(vm_compute; reflexivity) ltac:(vm_compute; reflexivity)
    ltac:(vm_compute; reflexivity) ltac:(done) eq_refl
    ltac:(intros q; split; [repeat constructor; vm_compute; done|vm_compute; done])
    (toy_tls_serves toy_cfg 0x01010101) toy_fits true (str "deb.debian.org")
    (strs ["deb"; "debian"; "org"]) (Some (str "443")) None 443 Hd
    ltac:(split; [done|split; [repeat constructor|]; apply (bool_decide_unpack _); vm_compute; exact I])
    eq_refl eq_refl) as H.
  exact H.
Defined.

(** ** Inputs worth knowing *)

(** A port above 65535 wraps instead of being refused. *)
Example service_port_wraps : service_port (Some (str "70000")) = Some 4464.
Proof. vm_compute. done. Qed.
(** A part of the server address above 255 spills into the next; empty parts pass. *)
Example parse_quad_loose :
  parse_quad (str "1.1.0.256") = parse_quad (str "1.1.1.0") ∧
  parse_quad (str "1..1.1") = parse_quad (str "1.0.1.1").
Proof. vm_compute. done. Qed.
(** Settings: the first colon ends the address, a port out of range is ignored. *)
Example cfg_init_demo :
  let env := λ n, if bool_decide (n = str "ALR_DOH_SERVER") then Some (str "9.9.9.9:99999") else None in
  server_ip (cfg_init env) = str "9.9.9.9" ∧ server_port (cfg_init env) = 443 ∧
  enabled (cfg_init env) = true.
Proof. vm_compute. done. Qed.
Close Scope Z_scope.
