(* ===== verification/PulseTag.v ===== *)
(** * The PulseAudio tag stream: [alr_audio/alr_pulse_proto.h]

    A value is a type tag and a payload, integers big-endian.  [TagWriter] appends values
    to a buffer; [TagReader] walks a buffer with a cursor and an [ok] flag, never past the
    end.  A reader operation is a state function; [None] is a read outside the data. *)

From S2P Require Import Prelude Bytes.
Open Scope Z_scope.

Definition kProtocolVersion : Z := 13.
Definition kFrameSizeMax : Z := 64 * 1024.
Definition kChannelControl : Z := 0xFFFFFFFF.
Definition PA_VOLUME_NORM : Z := 0x10000.
Definition PA_INVALID_INDEX : Z := 0xFFFFFFFF.

(** The value tags. *)
Definition PA_TAG_STRING : Z := 116.
Definition PA_TAG_STRING_NULL : Z := 78.
Definition PA_TAG_U32 : Z := 76.
Definition PA_TAG_U8 : Z := 66.
Definition PA_TAG_U64 : Z := 82.
Definition PA_TAG_S64 : Z := 114.
Definition PA_TAG_SAMPLE_SPEC : Z := 97.
Definition PA_TAG_ARBITRARY : Z := 120.
Definition PA_TAG_BOOLEAN_TRUE : Z := 49.
Definition PA_TAG_BOOLEAN_FALSE : Z := 48.
Definition PA_TAG_TIMEVAL : Z := 84.
Definition PA_TAG_USEC : Z := 85.
Definition PA_TAG_CHANNEL_MAP : Z := 109.
Definition PA_TAG_CVOLUME : Z := 118.
Definition PA_TAG_PROPLIST : Z := 80.
Definition PA_TAG_VOLUME : Z := 86.
Definition PA_TAG_FORMAT_INFO : Z := 102.

(** Sample formats. *)
Definition PA_SAMPLE_U8 : Z := 0.
Definition PA_SAMPLE_S16LE : Z := 3.
Definition PA_SAMPLE_S16BE : Z := 4.
Definition PA_SAMPLE_FLOAT32LE : Z := 5.
Definition PA_SAMPLE_S32LE : Z := 7.
Record SampleSpec := mk_spec { format : Z; channels : Z; rate : Z }.
Definition default_spec : SampleSpec := mk_spec PA_SAMPLE_S16LE 2 48000.

Definition sample_size_bytes (fmt : Z) : Z :=
  if (0 <=? fmt) && (fmt <=? 2) then 1
  else if (fmt =? 3) || (fmt =? 4) then 2
  else if (fmt =? 9) || (fmt =? 10) then 3
  else if ((5 <=? fmt) && (fmt <=? 8)) || (fmt =? 11) || (fmt =? 12) then 4
  else 2.
Definition frame_size_bytes (s : SampleSpec) : Z :=
  let ch := if channels s =? 0 then 1 else channels s in
  u32 (sample_size_bytes (format s) * ch).

(** ** TagWriter *)

Definition put_be32 (v : Z) : bytes :=
  [byte_of (Z.shiftr v 24); byte_of (Z.shiftr v 16); byte_of (Z.shiftr v 8); byte_of v].
Definition put_be64 (v : Z) : bytes :=
  (λ i, byte_of (Z.shiftr v (Z.of_nat i * 8))) <$> reverse (seq 0 8).
Definition put_u32 (v : Z) : bytes := byte_of PA_TAG_U32 :: put_be32 v.
Definition put_u8 (v : Z) : bytes := [byte_of PA_TAG_U8; byte_of v].
Definition put_u64 (v : Z) : bytes := byte_of PA_TAG_U64 :: put_be64 v.
Definition put_s64 (v : Z) : bytes := byte_of PA_TAG_S64 :: put_be64 (u64 v).
Definition put_usec (v : Z) : bytes := byte_of PA_TAG_USEC :: put_be64 v.
Definition put_boolean (v : bool) : bytes :=
  [byte_of (if v then PA_TAG_BOOLEAN_TRUE else PA_TAG_BOOLEAN_FALSE)].
Definition put_string (s : option bytes) : bytes :=
  match s with
  | None => [byte_of PA_TAG_STRING_NULL]
  | Some s => byte_of PA_TAG_STRING :: c_str s ++ [nul]
  end.
Definition put_sample_spec (s : SampleSpec) : bytes :=
  byte_of PA_TAG_SAMPLE_SPEC :: byte_of (format s) :: byte_of (channels s) :: put_be32 (rate s).
Definition put_channel_map_stereo : bytes := bytes_of [PA_TAG_CHANNEL_MAP; 2; 1; 2].
Definition put_channel_map_mono : bytes := bytes_of [PA_TAG_CHANNEL_MAP; 1; 0].
Definition put_cvolume (channels vol : Z) : bytes :=
  byte_of PA_TAG_CVOLUME :: byte_of channels :: concat (replicate (Z.to_nat channels) (put_be32 vol)).
Definition put_volume (vol : Z) : bytes := byte_of PA_TAG_VOLUME :: put_be32 vol.
Definition put_empty_proplist : bytes := bytes_of [PA_TAG_PROPLIST; PA_TAG_STRING_NULL].
Definition put_timeval (sec usec : Z) : bytes :=
  byte_of PA_TAG_TIMEVAL :: put_be32 sec ++ put_be32 usec.

(** ** TagReader *)

Record rstate := mk_rd { pos : nat; rd_ok : bool }.
Definition rd_init : rstate := mk_rd 0 true.
(** A reader operation on some data. *)
Definition R (A : Type) : Type := bytes → rstate → option (A * rstate).
#[export] Instance R_ret : MRet R := λ A a _ s, Some (a, s).
#[export] Instance R_bind : MBind R := λ A B f m d s,
  match m d s with Some (a, s') => f a d s' | None => None end.

Definition avail (n : nat) : R bool := λ d s,
  Some (rd_ok s && (pos s + n <=? length d)%nat, s).
Definition fail {A} : R (option A) := λ d s, Some (None, mk_rd (pos s) false).
Definition peek : R Z := λ d s, (λ b, (byte_val b, s)) <$> d !! pos s.
Definition advance (n : nat) : R unit := λ d s, Some (tt, mk_rd (pos s + n) (rd_ok s)).
(** [data_\[pos_++\]] *)
Definition next8 : R Z := c ← peek; advance 1;; mret c.
Definition expect (tag : Z) : R bool :=
  b ← avail 1;
  if negb b then mret false
  else c ← peek; if c =? tag then advance 1;; mret true else (@fail unit;; mret false).
(** [if (!expect(tag) || !avail(n)) return fail();], then the rest. *)
Definition tagged {A} (tag : Z) (n : nat) (k : R A) : R (option A) :=
  b ← expect tag;
  if negb b then fail
  else b ← avail n; if negb b then fail else a ← k; mret (Some a).
Definition be32 : R Z :=
  a ← next8; b ← next8; c ← next8; d ← next8;
  mret (Z.lor (Z.lor (Z.lor (Z.shiftl a 24) (Z.shiftl b 16)) (Z.shiftl c 8)) d).
Fixpoint be_loop (n : nat) (v : Z) : R Z :=
  match n with
  | O => mret v
  | S n => b ← next8; be_loop n (Z.lor (u64 (Z.shiftl v 8)) b)
  end.
Definition be64 : R Z := be_loop 8 0.

Definition get_u32 : R (option Z) := tagged PA_TAG_U32 4 be32.
Definition get_u8 : R (option Z) := tagged PA_TAG_U8 1 next8.
Definition get_u64 : R (option Z) := tagged PA_TAG_U64 8 be64.
Definition get_s64 : R (option Z) := tagged PA_TAG_S64 8 (v ← be64; mret (s64 v)).
Definition get_boolean : R (option bool) :=
  b ← avail 1;
  if negb b then fail
  else t ← next8;
       if t =? PA_TAG_BOOLEAN_TRUE then mret (Some true)
       else if t =? PA_TAG_BOOLEAN_FALSE then mret (Some false) else fail.
(** [while (pos_ < len_ && data_\[pos_\] != 0) ++pos_;]: the bytes passed, and whether a
    NUL follows. *)
Definition scan_nul : R (bytes * bool) := λ d s,
  match find_from nul (drop (pos s) d) with
  | Some k => Some ((take k (drop (pos s) d), true), mk_rd (pos s + k) (rd_ok s))
  | None => Some ((drop (pos s) d, false), mk_rd (length d `max` pos s) (rd_ok s))
  end.
(** [Some None] is a NULL string. *)
Definition get_string : R (option (option bytes)) :=
  b ← avail 1;
  if negb b then fail
  else t ← next8;
       if t =? PA_TAG_STRING_NULL then mret (Some None)
       else if negb (t =? PA_TAG_STRING) then fail
       else '(str, found) ← scan_nul;
            if negb found then fail else (advance 1;; mret (Some (Some str))).
Definition get_sample_spec : R (option SampleSpec) :=
  tagged PA_TAG_SAMPLE_SPEC 6 (f ← next8; c ← next8; r ← be32; mret (mk_spec f c r)).

(** [avail(n) ? (pos_ += n, true) : fail()] *)
Definition skip_n (n : nat) : R (option unit) :=
  b ← avail n; if (b : bool) then advance n;; mret (Some tt) else fail.
(** The loop over the entries of a property list; [None] in the outcome is failure, the
    fuel bounds the entries. *)
Fixpoint proplist_loop (fuel : nat) : R (option unit) :=
  match fuel with
  | O => λ _ _, None
  | S fuel =>
      b ← avail 1;
      if negb b then fail
      else c ← peek;
        if c =? PA_TAG_STRING_NULL then advance 1;; mret (Some tt)
        else key ← get_string;
          match key with
          | None => fail
          | Some _ =>
              vlen ← get_u32;
              match vlen with
              | None => fail
              | Some vlen =>
                  b ← avail 1;
                  if negb b then fail
                  else t ← next8;
                    if negb (t =? PA_TAG_ARBITRARY) then fail
                    else b ← avail 4;
                      if negb b then fail
                      else alen ← be32;
                        b ← avail (Z.to_nat alen);
                        if negb (alen =? vlen) || negb b then fail
                        else advance (Z.to_nat alen);; proplist_loop fuel
              end
          end
  end.
Fixpoint skip_value_fuel (fuel : nat) : R (option unit) :=
  match fuel with
  | O => λ _ _, None
  | S fuel =>
      b ← avail 1;
      if negb b then fail
      else t ← next8;
        if t =? PA_TAG_U32 then skip_n 4
        else if t =? PA_TAG_U8 then skip_n 1
        else if (t =? PA_TAG_U64) || (t =? PA_TAG_S64) || (t =? PA_TAG_USEC) then skip_n 8
        else if t =? PA_TAG_VOLUME then skip_n 4
        else if (t =? PA_TAG_BOOLEAN_TRUE) || (t =? PA_TAG_BOOLEAN_FALSE) then mret (Some tt)
        else if t =? PA_TAG_STRING_NULL then mret (Some tt)
        else if t =? PA_TAG_STRING then
          '(_, found) ← scan_nul; if found : bool then advance 1;; mret (Some tt) else fail
        else if t =? PA_TAG_SAMPLE_SPEC then skip_n 6
        else if t =? PA_TAG_TIMEVAL then skip_n 8
        else if t =? PA_TAG_CHANNEL_MAP then
          b ← avail 1; if negb b then fail else n ← next8; skip_n (Z.to_nat n)
        else if t =? PA_TAG_CVOLUME then
          b ← avail 1; if negb b then fail else n ← next8; skip_n (Z.to_nat n * 4)
        else if t =? PA_TAG_ARBITRARY then
          b ← avail 4; if negb b then fail else n ← be32; skip_n (Z.to_nat n)
        else if t =? PA_TAG_PROPLIST then proplist_loop fuel
        else if t =? PA_TAG_FORMAT_INFO then
          b ← avail 1;
          if negb b then fail
          else t ← next8;
            if negb (t =? PA_TAG_U8) then fail
            else b ← avail 1;
              if negb b then fail else advance 1;; skip_value_fuel fuel
        else fail
  end.
(** Every turn of the loop and every recursive call consumes a byte. *)
Definition skip_value : R (option unit) := λ d s, skip_value_fuel (length d + 2) d s.

(** ** Integers *)

Lemma put_be32_bytes v : put_be32 v = be_bytes 4 v.
Proof.
  unfold put_be32, be_bytes. cbn [le_bytes reverse rev_append]. unfold reverse. cbn.
  rewrite !Z.div_div by lia. rewrite !Z.shiftr_div_pow2 by lia. done.
Qed.
Lemma put_be64_bytes v : put_be64 v = be_bytes 8 v.
Proof.
  unfold put_be64, be_bytes. cbn [seq le_bytes]. unfold reverse. cbn.
  rewrite !Z.div_div by lia. rewrite !Z.shiftr_div_pow2 by lia.
  by rewrite Z.pow_0_r, Z.div_1_r.
Qed.
Lemma put_be32_length v : length (put_be32 v) = 4%nat.
Proof. done. Qed.
Lemma put_be64_length v : length (put_be64 v) = 8%nat.
Proof. done. Qed.
Lemma put_be32_inv l : length l = 4%nat → ∃ v, 0 ≤ v < 2 ^ 32 ∧ l = put_be32 v.
Proof.
  intros Hl. exists (be_num l). pose proof (be_num_range l) as H. rewrite Hl in H. split; [exact H|].
  rewrite put_be32_bytes, <- Hl. symmetry. apply be_bytes_num.
Qed.
Lemma put_be64_inv l : length l = 8%nat → ∃ v, 0 ≤ v < 2 ^ 64 ∧ l = put_be64 v.
Proof.
  intros Hl. exists (be_num l). pose proof (be_num_range l) as H. rewrite Hl in H. split; [exact H|].
  rewrite put_be64_bytes, <- Hl. symmetry. apply be_bytes_num.
Qed.
Lemma be32_num a b c d :
  Z.lor (Z.lor (Z.lor (Z.shiftl (byte_val a) 24) (Z.shiftl (byte_val b) 16))
    (Z.shiftl (byte_val c) 8)) (byte_val d) = be_num [a; b; c; d].
Proof.
  pose proof (byte_val_range a). pose proof (byte_val_range b).
  pose proof (byte_val_range c). pose proof (byte_val_range d).
  rewrite <- (Z.shiftl_shiftl (byte_val a) 8 16 ltac:(lia) : _ = Z.shiftl _ 24), <- Z.shiftl_lor.
  rewrite (lor_shiftl_add (byte_val a)) by lia.
  rewrite <- (Z.shiftl_shiftl (byte_val a * 2 ^ 8 + byte_val b) 8 8 ltac:(lia) : _ = Z.shiftl _ 16),
    <- Z.shiftl_lor.
  rewrite (lor_shiftl_add (byte_val a * 2 ^ 8 + byte_val b)) by lia.
  rewrite lor_shiftl_add by lia. rewrite !be_num_cons. cbn [length].
  change (be_num []) with 0. lia.
Qed.

(** ** Running a reader

    [rest d p r]: the cursor [p] is inside the data and [r] is left. *)

Definition rest (d : bytes) (p : nat) (r : bytes) : Prop := drop p d = r ∧ (p ≤ length d)%nat.
Lemma rest_init d : rest d 0 d.
Proof. split; [done|lia]. Qed.
Lemma rest_length d p r : rest d p r → length d = (p + length r)%nat.
Proof. intros [<- Hp]. rewrite length_drop. lia. Qed.
Lemma rest_app d p l r : rest d p (l ++ r) → rest d (p + length l) r.
Proof.
  intros H. pose proof (rest_length _ _ _ H) as Hl. rewrite length_app in Hl.
  destruct H as [H Hp]. split; [|lia]. by rewrite <- drop_drop, H, drop_app_length.
Qed.
Lemma rest_cons d p b r : rest d p (b :: r) → rest d (p + 1) r.
Proof. apply (rest_app d p [b] r). Qed.
Lemma rest_at d p : (p ≤ length d)%nat → rest d p (drop p d).
Proof. by split. Qed.

Section run.
Context (d : bytes) (p : nat) (r : bytes) (ok : bool).

Lemma run_avail n : rest d p r → avail n d (mk_rd p true) = Some ((n <=? length r)%nat, mk_rd p true).
Proof.
  intros H. pose proof (rest_length _ _ _ H) as Hl. unfold avail. cbn. do 2 f_equal.
  apply eq_true_iff_eq. rewrite !Nat.leb_le. lia.
Qed.
Lemma run_peek b : rest d p (b :: r) → peek d (mk_rd p ok) = Some (byte_val b, mk_rd p ok).
Proof.
  intros [H _]. unfold peek. cbn [pos]. rewrite <- (Nat.add_0_r p), <- lookup_drop, H. done.
Qed.
Lemma run_next8 b : rest d p (b :: r) → next8 d (mk_rd p ok) = Some (byte_val b, mk_rd (p + 1) ok).
Proof.
  intros H. unfold next8, mbind, R_bind. rewrite (run_peek b H). done.
Qed.
End run.

(** Steps of a reader whose first operation is known. *)
Lemma R_bind_Some {A B} (m : R A) (f : A → R B) d s a s' :
  m d s = Some (a, s') → (m ≫= f) d s = f a d s'.
Proof. intros H. unfold mbind, R_bind. by rewrite H. Qed.

Lemma run_be32_num d p ok b1 b2 b3 b4 r :
  rest d p (b1 :: b2 :: b3 :: b4 :: r) →
  be32 d (mk_rd p ok) = Some (be_num [b1; b2; b3; b4], mk_rd (p + 4) ok).
Proof.
  intros H1. pose proof (rest_cons _ _ _ _ H1) as H2. pose proof (rest_cons _ _ _ _ H2) as H3.
  pose proof (rest_cons _ _ _ _ H3) as H4. unfold be32.
  rewrite (R_bind_Some _ _ _ _ _ _ (run_next8 _ _ _ _ _ H1)).
  rewrite (R_bind_Some _ _ _ _ _ _ (run_next8 _ _ _ _ _ H2)).
  rewrite (R_bind_Some _ _ _ _ _ _ (run_next8 _ _ _ _ _ H3)).
  rewrite (R_bind_Some _ _ _ _ _ _ (run_next8 _ _ _ _ _ H4)).
  rewrite be32_num. unfold mret, R_ret. do 3 f_equal. lia.
Qed.
Lemma run_be32 d p ok v r :
  rest d p (put_be32 v ++ r) → 0 ≤ v < 2 ^ 32 →
  be32 d (mk_rd p ok) = Some (v, mk_rd (p + 4) ok).
Proof.
  intros H Hv. rewrite (run_be32_num _ _ _ _ _ _ _ _ H).
  change [_; _; _; _] with (put_be32 v). rewrite put_be32_bytes, be_num_bytes by exact Hv. done.
Qed.
Lemma run_be_loop d l p ok v r :
  rest d p (l ++ r) → 0 ≤ v → (v + 1) * 256 ^ Z.of_nat (length l) ≤ 2 ^ 64 →
  be_loop (length l) v d (mk_rd p ok)
  = Some (v * 256 ^ Z.of_nat (length l) + be_num l, mk_rd (p + length l) ok).
Proof.
  revert p v. induction l as [|b l IH]; intros p v H Hv Hb.
  - change (be_num []) with 0. cbn. unfold mret, R_ret. do 3 f_equal; lia.
  - cbn [length be_loop app] in *. pose proof (byte_val_range b).
    rewrite Nat2Z.inj_succ, Z.pow_succ_r in Hb |- * by lia.
    assert (0 < 256 ^ Z.of_nat (length l)) by (apply Z.pow_pos_nonneg; lia).
    rewrite (R_bind_Some _ _ _ _ _ _ (run_next8 _ _ _ _ _ H)).
    assert ((v + 1) * 256 ≤ 2 ^ 64) as Hv64.
    { etransitivity; [|exact Hb]. rewrite Z.mul_assoc.
      rewrite <- (Z.mul_1_r ((v + 1) * 256)) at 1. apply Z.mul_le_mono_nonneg_l; lia. }
    rewrite Z.shiftl_mul_pow2, u64_small by lia.
    rewrite <- (Z.shiftl_mul_pow2 v 8), lor_shiftl_add by lia.
    rewrite IH by (first [exact (rest_cons _ _ _ _ H)|lia|nia]).
    rewrite be_num_cons. f_equal. f_equal; [change (2 ^ 8) with 256; ring|f_equal; lia].
Qed.
Lemma run_be64 d p ok v r :
  rest d p (put_be64 v ++ r) → 0 ≤ v < 2 ^ 64 →
  be64 d (mk_rd p ok) = Some (v, mk_rd (p + 8) ok).
Proof.
  intros H Hv. unfold be64. change 8%nat with (length (put_be64 v)).
  rewrite (run_be_loop d (put_be64 v) p ok 0 r H); [|lia|cbn; lia].
  by rewrite put_be64_bytes, be_num_bytes by exact Hv.
Qed.

Lemma run_expect d p tag b r :
  rest d p (b :: r) →
  expect tag d (mk_rd p true) =
    if byte_val b =? tag then Some (true, mk_rd (p + 1) true) else Some (false, mk_rd p false).
Proof.
  intros H. unfold expect. rewrite (R_bind_Some _ _ _ _ _ _ (run_avail _ _ _ 1 H)). cbn [negb Nat.leb length].
  rewrite (R_bind_Some _ _ _ _ _ _ (run_peek _ _ _ _ _ H)). by destruct (byte_val b =? tag).
Qed.
(** A tagged getter on the tag and [n] bytes. *)
Lemma run_tagged {A} d p tag n (k : R A) b l r a s :
  rest d p (b :: l ++ r) → byte_val b = tag → length l = n →
  k d (mk_rd (p + 1) true) = Some (a, s) →
  tagged tag n k d (mk_rd p true) = Some (Some a, s).
Proof.
  intros H Hb Hl Hk. unfold tagged.
  assert (expect tag d (mk_rd p true) = Some (true, mk_rd (p + 1) true)) as He.
  { rewrite (run_expect _ _ _ _ _ H). by rewrite Hb, Z.eqb_refl. }
  rewrite (R_bind_Some _ _ _ _ _ _ He). cbn [negb].
  rewrite (R_bind_Some _ _ _ _ _ _ (run_avail _ _ _ n (rest_cons _ _ _ _ H))).
  rewrite length_app, Hl, (proj2 (Nat.leb_le n _)) by lia. cbn [negb].
  by rewrite (R_bind_Some _ _ _ _ _ _ Hk).
Qed.
Lemma run_scan_nul d p ok s r :
  no_nul s → rest d p (s ++ nul :: r) →
  scan_nul d (mk_rd p ok) = Some ((s, true), mk_rd (p + length s) ok).
Proof.
  intros Hs [H _]. unfold scan_nul. cbn [pos rd_ok]. rewrite H, (find_from_app_sep nul s) by done.
  by rewrite take_app_length.
Qed.

(** ** What each operation does on the bytes that are left *)

Lemma length_ge_split {A} n (l : list A) : (n ≤ length l)%nat → ∃ a b, l = a ++ b ∧ length a = n.
Proof.
  intros H. exists (take n l), (drop n l). rewrite take_drop, length_take. split; [done|lia].
Qed.
(** The result of a failed operation. *)
Definition failed {A} (x : option (option A * rstate)) : Prop := ∃ p, x = Some (None, mk_rd p false).
Lemma failed_fail {A} d s : failed (@fail A d s).
Proof. by eexists. Qed.

(** A tagged getter: the tag and its bytes are there, or it fails. *)
Lemma tagged_cases {A} d p tag n (k : R A) r :
  rest d p r →
  (∃ b l r', r = b :: l ++ r' ∧ byte_val b = tag ∧ length l = n) ∨
  failed (tagged tag n k d (mk_rd p true)).
Proof.
  intros H. destruct r as [|b r].
  { right. unfold tagged, expect, mbind, R_bind. rewrite (run_avail _ _ _ 1 H). by eexists. }
  destruct (decide (byte_val b = tag)) as [Hb|Hb].
  - destruct (Nat.le_gt_cases n (length r)) as [Hn|Hn].
    + left. destruct (length_ge_split n r Hn) as (l & r' & -> & Hl). by exists b, l, r'.
    + right. unfold tagged. unfold mbind at 1, R_bind at 1. rewrite (run_expect _ _ _ _ _ H), Hb, Z.eqb_refl.
      cbn [negb]. unfold mbind at 1, R_bind at 1. rewrite (run_avail _ _ _ n (rest_cons _ _ _ _ H)).
      rewrite (proj2 (Nat.leb_gt n _)) by lia. by eexists.
  - right. unfold tagged. unfold mbind at 1, R_bind at 1. rewrite (run_expect _ _ _ _ _ H).
    apply Z.eqb_neq in Hb. rewrite Hb. by eexists.
Qed.

Lemma run_get_u32 d p v r : rest d p (put_u32 v ++ r) → 0 ≤ v < 2 ^ 32 →
  get_u32 d (mk_rd p true) = Some (Some v, mk_rd (p + 5) true).
Proof.
  intros H Hv. eapply (run_tagged d p _ 4 _ _ (put_be32 v) r); [exact H|done|done|].
  rewrite (run_be32 d (p + 1) true v r (rest_cons _ _ _ _ H) Hv). do 3 f_equal. lia.
Qed.
Lemma get_u32_cases d p r :
  rest d p r →
  (∃ v r', 0 ≤ v < 2 ^ 32 ∧ r = put_u32 v ++ r' ∧
     get_u32 d (mk_rd p true) = Some (Some v, mk_rd (p + 5) true)) ∨
  failed (get_u32 d (mk_rd p true)).
Proof.
  intros H. destruct (tagged_cases d p PA_TAG_U32 4 be32 r H) as [(b & l & r' & -> & Hb & Hl)|Hf];
    [|by right].
  destruct (put_be32_inv l Hl) as (v & Hv & ->). left. exists v, r'.
  assert (b = byte_of PA_TAG_U32) as -> by (by apply byte_val_inj; rewrite Hb).
  split; [done|]. split; [done|]. by apply (run_get_u32 d p v r').
Qed.

(** A string value on the wire. *)
Definition wire_string (s : bytes) : bytes := byte_of PA_TAG_STRING :: s ++ [nul].
Lemma put_string_wire s : no_nul s → put_string (Some s) = wire_string s.
Proof.
  intros Hs. unfold put_string, wire_string, c_str. destruct (find_from nul s) eqn:E; [|done].
  apply find_from_Some in E as (r & Hr & _). destruct Hs. rewrite Hr. apply elem_of_app.
  right. by left.
Qed.
Lemma run_scan_string d p s r :
  no_nul s → rest d p (s ++ nul :: r) →
  ('(str, found) ← scan_nul; if negb found then fail else (advance 1;; mret (Some (Some str))))
    d (mk_rd p true) = Some (Some (Some s), mk_rd (p + length s + 1) true).
Proof.
  intros Hs H. by rewrite (R_bind_Some _ _ _ _ _ _ (run_scan_nul d p true s r Hs H)).
Qed.
Lemma run_get_string d p s r :
  no_nul s → rest d p (wire_string s ++ r) →
  get_string d (mk_rd p true) = Some (Some (Some s), mk_rd (p + length (wire_string s)) true).
Proof.
  intros Hs H. unfold get_string.
  change (wire_string s ++ r) with (byte_of PA_TAG_STRING :: (s ++ [nul]) ++ r) in H.
  rewrite (R_bind_Some _ _ _ _ _ _ (run_avail _ _ _ 1 H)). cbn [negb Nat.leb length].
  rewrite (R_bind_Some _ _ _ _ _ _ (run_next8 _ _ _ _ _ H)).
  change (byte_val (byte_of PA_TAG_STRING)) with 116.
  cbn [Z.eqb Pos.eqb PA_TAG_STRING_NULL PA_TAG_STRING negb].
  apply rest_cons in H. rewrite <- app_assoc in H.
  rewrite (run_scan_string d (p + 1) s r Hs H). unfold wire_string. cbn [length].
  rewrite length_app. cbn [length]. do 3 f_equal. lia.
Qed.
Lemma run_get_string_null d p r :
  rest d p (byte_of PA_TAG_STRING_NULL :: r) →
  get_string d (mk_rd p true) = Some (Some None, mk_rd (p + 1) true).
Proof.
  intros H. unfold get_string.
  rewrite (R_bind_Some _ _ _ _ _ _ (run_avail _ _ _ 1 H)). cbn [negb Nat.leb length].
  by rewrite (R_bind_Some _ _ _ _ _ _ (run_next8 _ _ _ _ _ H)).
Qed.
Lemma nul_split r : nul ∈ r → ∃ s r', r = s ++ nul :: r' ∧ no_nul s.
Proof.
  intros H. destruct (find_from nul r) as [k|] eqn:E; [|by apply find_from_None in E].
  apply find_from_Some in E as (r' & Hr & Hs & _). by exists (take k r), r'.
Qed.
Lemma run_scan_none d p ok r :
  nul ∉ r → rest d p r → scan_nul d (mk_rd p ok) = Some ((r, false), mk_rd (length d `max` p) ok).
Proof.
  intros Hs [H _]. unfold scan_nul. cbn [pos rd_ok]. rewrite H.
  destruct (find_from nul r) as [k|] eqn:E; [|done].
  apply find_from_Some in E as (r' & Hr & _). destruct Hs. rewrite Hr. apply elem_of_app.
  right. by left.
Qed.
Lemma get_string_cases d p r :
  rest d p r →
  (∃ s r', no_nul s ∧ r = wire_string s ++ r' ∧
     get_string d (mk_rd p true) = Some (Some (Some s), mk_rd (p + length (wire_string s)) true)) ∨
  (∃ r', r = byte_of PA_TAG_STRING_NULL :: r' ∧
     get_string d (mk_rd p true) = Some (Some None, mk_rd (p + 1) true)) ∨
  failed (get_string d (mk_rd p true)).
Proof.
  intros H. destruct r as [|b r].
  { right; right. unfold get_string, mbind, R_bind. rewrite (run_avail _ _ _ 1 H). by eexists. }
  destruct (decide (b = byte_of PA_TAG_STRING_NULL)) as [->|Hn].
  { right; left. exists r. split; [done|]. by apply (run_get_string_null d p r). }
  destruct (decide (b = byte_of PA_TAG_STRING)) as [->|Ht].
  - destruct (decide (nul ∈ r)) as [Hin|Hin].
    + destruct (nul_split r Hin) as (s & r' & -> & Hs). left. exists s, r'. split; [done|].
      assert (byte_of PA_TAG_STRING :: s ++ nul :: r' = wire_string s ++ r') as Hw.
      { unfold wire_string. cbn. by rewrite <- app_assoc. }
      rewrite Hw in H |- *. split; [done|]. by apply (run_get_string d p s r').
    + right; right. unfold get_string. unfold mbind at 1, R_bind at 1.
      rewrite (run_avail _ _ _ 1 H). cbn [negb Nat.leb length].
      unfold mbind at 1, R_bind at 1. rewrite (run_next8 _ _ _ _ _ H).
      change (byte_val (byte_of PA_TAG_STRING)) with 116.
      cbn [Z.eqb Pos.eqb PA_TAG_STRING_NULL PA_TAG_STRING negb].
      unfold mbind at 1, R_bind at 1. rewrite (run_scan_none _ _ _ _ Hin (rest_cons _ _ _ _ H)).
      by eexists.
  - right; right. unfold get_string. unfold mbind at 1, R_bind at 1.
    rewrite (run_avail _ _ _ 1 H). cbn [negb Nat.leb length].
    unfold mbind at 1, R_bind at 1. rewrite (run_next8 _ _ _ _ _ H).
    assert (∀ t, 0 ≤ t < 256 → b ≠ byte_of t → (byte_val b =? t) = false) as Hne.
    { intros t Hr Hb. apply Z.eqb_neq. intros E. apply Hb, byte_val_inj.
      by rewrite byte_val_of, Z.mod_small. }
    rewrite !Hne by done. by eexists.
Qed.

(** ** The values [skip_value] walks over *)

(** The payload size of the tags that have a fixed one. *)
Definition fixed_size (t : Z) : option nat :=
  if t =? PA_TAG_U32 then Some 4%nat
  else if t =? PA_TAG_U8 then Some 1%nat
  else if (t =? PA_TAG_U64) || (t =? PA_TAG_S64) || (t =? PA_TAG_USEC) then Some 8%nat
  else if t =? PA_TAG_VOLUME then Some 4%nat
  else if (t =? PA_TAG_BOOLEAN_TRUE) || (t =? PA_TAG_BOOLEAN_FALSE) then Some 0%nat
  else if t =? PA_TAG_STRING_NULL then Some 0%nat
  else if t =? PA_TAG_SAMPLE_SPEC then Some 6%nat
  else if t =? PA_TAG_TIMEVAL then Some 8%nat
  else None.
Definition wire_prop (kv : bytes * bytes) : bytes :=
  wire_string (fst kv) ++ put_u32 (Z.of_nat (length (snd kv))) ++
  byte_of PA_TAG_ARBITRARY :: put_be32 (Z.of_nat (length (snd kv))) ++ snd kv.
Definition prop_ok (kv : bytes * bytes) : Prop :=
  no_nul (fst kv) ∧ Z.of_nat (length (snd kv)) < 2 ^ 32.
Definition wire_proplist (l : list (bytes * bytes)) : bytes :=
  concat (wire_prop <$> l) ++ [byte_of PA_TAG_STRING_NULL].

(** The encodings of values. *)
Inductive tag_value : bytes → Prop :=
| tv_fixed t n l : 0 ≤ t < 256 → fixed_size t = Some n → length l = n → tag_value (byte_of t :: l)
| tv_string s : no_nul s → tag_value (wire_string s)
| tv_channel_map n l :
    length l = Z.to_nat (byte_val n) → tag_value (byte_of PA_TAG_CHANNEL_MAP :: n :: l)
| tv_cvolume n l :
    length l = (Z.to_nat (byte_val n) * 4)%nat → tag_value (byte_of PA_TAG_CVOLUME :: n :: l)
| tv_arbitrary l : Z.of_nat (length l) < 2 ^ 32 →
    tag_value (byte_of PA_TAG_ARBITRARY :: put_be32 (Z.of_nat (length l)) ++ l)
| tv_proplist l : Forall prop_ok l → tag_value (byte_of PA_TAG_PROPLIST :: wire_proplist l)
| tv_format_info e v :
    tag_value v → tag_value (byte_of PA_TAG_FORMAT_INFO :: byte_of PA_TAG_U8 :: e :: v).

Lemma run_skip_n d p n r :
  rest d p r →
  skip_n n d (mk_rd p true) =
    if (n <=? length r)%nat then Some (Some tt, mk_rd (p + n) true) else Some (None, mk_rd p false).
Proof.
  intros H. unfold skip_n. unfold mbind at 1, R_bind at 1. rewrite (run_avail _ _ _ n H).
  by destruct (n <=? length r)%nat.
Qed.
(** The first byte of a value. *)
Lemma skip_nil fuel d p : rest d p [] → failed (skip_value_fuel (S fuel) d (mk_rd p true)).
Proof.
  intros H. cbn [skip_value_fuel]. unfold mbind at 1, R_bind at 1. rewrite (run_avail _ _ _ 1 H).
  by eexists.
Qed.
Definition skip_tail (fuel : nat) (t : Z) : R (option unit) :=
  match fixed_size t with
  | Some n => skip_n n
  | None =>
      if t =? PA_TAG_STRING then
        '(_, found) ← scan_nul; if found : bool then advance 1;; mret (Some tt) else fail
      else if t =? PA_TAG_CHANNEL_MAP then
        b ← avail 1; if negb b then fail else n ← next8; skip_n (Z.to_nat n)
      else if t =? PA_TAG_CVOLUME then
        b ← avail 1; if negb b then fail else n ← next8; skip_n (Z.to_nat n * 4)
      else if t =? PA_TAG_ARBITRARY then
        b ← avail 4; if negb b then fail else n ← be32; skip_n (Z.to_nat n)
      else if t =? PA_TAG_PROPLIST then proplist_loop fuel
      else if t =? PA_TAG_FORMAT_INFO then
        b ← avail 1;
        if negb b then fail
        else t ← next8;
          if negb (t =? PA_TAG_U8) then fail
          else b ← avail 1;
            if negb b then fail else advance 1;; skip_value_fuel fuel
      else fail
  end.
Lemma skip_0 d p r : rest d p r → skip_n 0 d (mk_rd p true) = Some (Some tt, mk_rd p true).
Proof. intros H. rewrite (run_skip_n d p 0 r H). cbn. by rewrite Nat.add_0_r. Qed.
Lemma skip_cons fuel d p b r :
  rest d p (b :: r) →
  skip_value_fuel (S fuel) d (mk_rd p true) = skip_tail fuel (byte_val b) d (mk_rd (p + 1) true).
Proof.
  intros H. cbn [skip_value_fuel]. unfold mbind at 1, R_bind at 1.
  rewrite (run_avail _ _ _ 1 H). cbn [negb Nat.leb length].
  unfold mbind at 1, R_bind at 1. rewrite (run_next8 _ _ _ _ _ H).
  apply rest_cons in H. pose proof (skip_0 d (p + 1) r H) as H0.
  unfold skip_tail, fixed_size. generalize (byte_val b) as t. intros t.
  destruct (t =? PA_TAG_U32); [done|]. destruct (t =? PA_TAG_U8); [done|].
  destruct (_ || _ || _); [done|]. destruct (t =? PA_TAG_VOLUME); [done|].
  destruct (_ || _); [by rewrite H0|]. destruct (t =? PA_TAG_STRING_NULL); [by rewrite H0|].
  destruct (Z.eqb_spec t PA_TAG_STRING) as [->|]; [done|].
  destruct (t =? PA_TAG_SAMPLE_SPEC); [done|]. by destruct (t =? PA_TAG_TIMEVAL).
Qed.

(** Walking over an encoded value. *)
Lemma run_prop d p k v r fuel :
  prop_ok (k, v) → rest d p (wire_prop (k, v) ++ r) →
  proplist_loop (S fuel) d (mk_rd p true)
  = proplist_loop fuel d (mk_rd (p + length (wire_prop (k, v))) true).
Proof.
  intros [Hk Hv] H. cbn [fst snd] in *. pose proof (rest_app _ _ _ _ H) as Hend.
  unfold wire_prop in H. cbn [fst snd] in H. rewrite <- !app_assoc in H. cbn [proplist_loop].
  unfold mbind at 1, R_bind at 1. rewrite (run_avail _ _ _ 1 H). cbn [negb Nat.leb length app wire_string].
  unfold mbind at 1, R_bind at 1. rewrite (run_peek _ _ _ _ _ H).
  change (byte_val (byte_of PA_TAG_STRING) =? PA_TAG_STRING_NULL) with false. cbn iota.
  unfold mbind at 1, R_bind at 1. rewrite (run_get_string d p k _ Hk H).
  apply rest_app in H. set (p1 := (p + length (wire_string k))%nat) in *.
  unfold mbind at 1, R_bind at 1. rewrite (run_get_u32 d p1 _ _ H) by lia.
  apply rest_app in H. change (length (put_u32 _)) with 5%nat in H. set (p2 := (p1 + 5)%nat) in *.
  unfold mbind at 1, R_bind at 1. rewrite (run_avail _ _ _ 1 H). cbn [negb Nat.leb length app].
  unfold mbind at 1, R_bind at 1. rewrite (run_next8 _ _ _ _ _ H).
  change (byte_val (byte_of PA_TAG_ARBITRARY) =? PA_TAG_ARBITRARY) with true. cbn [negb].
  rewrite <- app_comm_cons in H. apply rest_cons in H. rewrite <- app_assoc in H. set (p3 := (p2 + 1)%nat) in *.
  unfold mbind at 1, R_bind at 1. rewrite (run_avail _ _ _ 4 H). cbn [negb Nat.leb length app put_be32].
  unfold mbind at 1, R_bind at 1. rewrite (run_be32 d p3 true _ _ H) by lia.
  apply rest_app in H. change (length (put_be32 _)) with 4%nat in H. set (p4 := (p3 + 4)%nat) in *.
  unfold mbind at 1, R_bind at 1. rewrite (run_avail _ _ _ _ H), Nat2Z.id, length_app.
  rewrite (proj2 (Nat.leb_le _ _)) by lia. rewrite Z.eqb_refl. cbn [negb orb].
  unfold mbind at 1, R_bind at 1. unfold advance. cbn [pos rd_ok].
  do 2 f_equal. unfold p4, p3, p2, p1, wire_prop. cbn [fst snd].
  rewrite !length_app. cbn [length app put_u32 put_be32]. rewrite ?length_app. cbn [length]. lia.
Qed.
Lemma run_proplist d l p r fuel :
  Forall prop_ok l → rest d p (wire_proplist l ++ r) → (length l < fuel)%nat →
  proplist_loop fuel d (mk_rd p true) = Some (Some tt, mk_rd (p + length (wire_proplist l)) true).
Proof.
  intros Hl. revert p fuel. induction Hl as [|[k v] l Hkv Hl IH]; intros p fuel H Hf;
    (destruct fuel as [|fuel]; [lia|]); unfold wire_proplist in *; cbn [fmap list_fmap concat app] in *.
  - cbn [proplist_loop]. unfold mbind at 1, R_bind at 1. rewrite (run_avail _ _ _ 1 H). cbn [negb Nat.leb length].
    unfold mbind at 1, R_bind at 1. rewrite (run_peek _ _ _ _ _ H). done.
  - rewrite <- !app_assoc in H. rewrite (run_prop d p k v _ fuel Hkv H). apply rest_app in H.
    rewrite app_assoc in H. rewrite IH by (done || (cbn in Hf; lia)). rewrite !length_app. do 3 f_equal. lia.
Qed.
Lemma wire_proplist_length l : (length l < length (wire_proplist l))%nat.
Proof.
  unfold wire_proplist. rewrite length_app. cbn [length].
  induction l as [|kv l IH]; cbn [fmap list_fmap concat length]; [lia|].
  rewrite length_app. assert (0 < length (wire_prop kv))%nat; [|lia].
  unfold wire_prop. rewrite length_app. cbn. lia.
Qed.

(** One byte is read where there is one. *)
Lemma next_avail {A} d p c r (k : Z → R (option A)) :
  rest d p (c :: r) →
  (b ← avail 1; if negb b then fail else n ← next8; k n) d (mk_rd p true)
  = k (byte_val c) d (mk_rd (p + 1) true).
Proof.
  intros H. unfold mbind at 1, R_bind at 1. rewrite (run_avail _ _ _ 1 H). cbn [negb Nat.leb length].
  unfold mbind at 1, R_bind at 1. by rewrite (run_next8 _ _ _ _ _ H).
Qed.
Lemma next_avail_nil {A} d p (k : R (option A)) :
  rest d p [] → failed ((b ← avail 1; if negb b then fail else k) d (mk_rd p true)).
Proof.
  intros H. unfold mbind at 1, R_bind at 1. rewrite (run_avail _ _ _ 1 H). by eexists.
Qed.
Lemma skip_n_app d p l r n :
  rest d p (l ++ r) → length l = n → skip_n n d (mk_rd p true) = Some (Some tt, mk_rd (p + n) true).
Proof.
  intros H Hl. rewrite (run_skip_n d p n _ H), length_app, (proj2 (Nat.leb_le _ _)) by lia. done.
Qed.

Lemma run_skip_value v : tag_value v → ∀ d p r fuel,
  rest d p (v ++ r) → (length v < fuel)%nat →
  skip_value_fuel fuel d (mk_rd p true) = Some (Some tt, mk_rd (p + length v) true).
Proof.
  induction 1 as [t n l Ht Hn Hl|s Hs|n l Hl|n l Hl|l Hl|l Hl|e v _ IH]; intros d p r fuel H Hf;
    (destruct fuel as [|fuel]; [lia|]); pose proof H as H0; unfold wire_string in *;
    cbn [app] in H0;
    rewrite (skip_cons _ _ _ _ _ H0); apply rest_cons in H0; unfold skip_tail.
  - rewrite byte_val_of, Z.mod_small, Hn by lia. rewrite (skip_n_app _ _ _ _ _ H0 Hl).
    do 3 f_equal. cbn. lia.
  - change (fixed_size _) with (@None nat). cbn iota. rewrite <- app_assoc in H0.
    change (byte_val (byte_of PA_TAG_STRING) =? PA_TAG_STRING) with true. cbn iota.
    rewrite (R_bind_Some _ _ _ _ _ _ (run_scan_nul d (p + 1) true s r Hs H0)).
    unfold mbind, R_bind, advance, mret, R_ret. cbn [length pos rd_ok]. rewrite ?length_app. cbn.
    do 3 f_equal. lia.
  - change (fixed_size _) with (@None nat). cbn [Z.eqb Pos.eqb].
    change (byte_val (byte_of PA_TAG_CHANNEL_MAP)) with 109. cbn [Z.eqb Pos.eqb PA_TAG_STRING PA_TAG_CHANNEL_MAP].
    rewrite (next_avail _ _ _ _ (λ n, skip_n (Z.to_nat n)) H0).
    rewrite (skip_n_app _ _ _ _ _ (rest_cons _ _ _ _ H0) Hl). cbn [length]. rewrite Hl. do 3 f_equal. lia.
  - change (fixed_size _) with (@None nat).
    change (byte_val (byte_of PA_TAG_CVOLUME)) with 118.
    cbn [Z.eqb Pos.eqb PA_TAG_STRING PA_TAG_CHANNEL_MAP PA_TAG_CVOLUME].
    rewrite (next_avail _ _ _ _ (λ n, skip_n (Z.to_nat n * 4)) H0).
    rewrite (skip_n_app _ _ _ _ _ (rest_cons _ _ _ _ H0) Hl). cbn [length]. rewrite Hl. do 3 f_equal. lia.
  - change (fixed_size _) with (@None nat).
    change (byte_val (byte_of PA_TAG_ARBITRARY)) with 120.
    cbn [Z.eqb Pos.eqb PA_TAG_STRING PA_TAG_CHANNEL_MAP PA_TAG_CVOLUME PA_TAG_ARBITRARY].
    rewrite <- app_assoc in H0. unfold mbind at 1, R_bind at 1. rewrite (run_avail _ _ _ 4 H0).
    rewrite length_app, put_be32_length. cbn [negb Nat.leb Nat.add].
    rewrite (R_bind_Some _ _ _ _ _ _ (run_be32 d (p + 1) true _ _ H0 ltac:(lia))), Nat2Z.id.
    apply rest_app in H0. change (length (put_be32 _)) with 4%nat in H0.
    rewrite (skip_n_app _ _ _ _ _ H0 eq_refl). cbn [length].
    rewrite length_app, put_be32_length. do 3 f_equal. lia.
  - change (fixed_size _) with (@None nat).
    change (byte_val (byte_of PA_TAG_PROPLIST)) with 80.
    cbn [Z.eqb Pos.eqb PA_TAG_STRING PA_TAG_CHANNEL_MAP PA_TAG_CVOLUME PA_TAG_ARBITRARY PA_TAG_PROPLIST].
    pose proof (wire_proplist_length l). cbn [length] in Hf |- *.
    rewrite (run_proplist _ _ _ _ _ Hl H0) by lia. do 3 f_equal. lia.
  - change (fixed_size _) with (@None nat).
    change (byte_val (byte_of PA_TAG_FORMAT_INFO)) with 102.
    cbn [Z.eqb Pos.eqb PA_TAG_STRING PA_TAG_CHANNEL_MAP PA_TAG_CVOLUME PA_TAG_ARBITRARY PA_TAG_PROPLIST
      PA_TAG_FORMAT_INFO].
    rewrite (next_avail _ _ _ _ (λ t, if negb (t =? PA_TAG_U8) then fail else
      b ← avail 1; if negb b then fail else advance 1;; skip_value_fuel fuel) H0).
    change (byte_val (byte_of PA_TAG_U8) =? PA_TAG_U8) with true. cbn [negb].
    apply rest_cons in H0. unfold mbind at 1, R_bind at 1. rewrite (run_avail _ _ _ 1 H0).
    cbn [negb Nat.leb length]. unfold mbind at 1, R_bind at 1. unfold advance. cbn [pos rd_ok].
    apply rest_cons in H0. cbn [length] in Hf. rewrite (IH _ _ _ _ H0) by lia. do 3 f_equal. cbn. lia.
Qed.

(** A step whose first operation failed. *)
Lemma failed_bind {A B} (m : R (option A)) (f : option A → R (option B)) d s :
  failed (m d s) → (∀ s', failed (f None d s')) → failed ((m ≫= f) d s).
Proof. intros [p Hp] Hf. unfold mbind, R_bind. rewrite Hp. apply Hf. Qed.

Lemma byte_of_inj_val b t : byte_val b = t → b = byte_of t.
Proof. intros <-. by rewrite byte_of_val. Qed.

(** What follows the key and the length of an entry. *)
Lemma prop_value_cases fuel d p vlen r :
  rest d p r → 0 ≤ vlen < 2 ^ 32 →
  (∃ v r', r = byte_of PA_TAG_ARBITRARY :: put_be32 vlen ++ v ++ r' ∧ Z.of_nat (length v) = vlen) ∨
  failed ((b ← avail 1;
    if negb b then fail
    else t ← next8;
      if negb (t =? PA_TAG_ARBITRARY) then fail
      else b ← avail 4;
        if negb b then fail
        else alen ← be32;
          b ← avail (Z.to_nat alen);
          if negb (alen =? vlen) || negb b then fail
          else advance (Z.to_nat alen);; proplist_loop fuel) d (mk_rd p true)).
Proof.
  intros H Hv. destruct r as [|b r]; [right; by apply next_avail_nil|].
  rewrite (next_avail d p b r (λ t, if negb (t =? PA_TAG_ARBITRARY) then fail else _) H).
  destruct (Z.eqb_spec (byte_val b) PA_TAG_ARBITRARY) as [Hb|]; cbn [negb]; [|right; by eexists].
  apply byte_of_inj_val in Hb as ->. apply rest_cons in H.
  unfold mbind at 1, R_bind at 1. rewrite (run_avail _ _ _ 4 H).
  destruct (Nat.leb_spec 4 (length r)) as [H4|H4]; cbn [negb]; [|right; by eexists].
  destruct (length_ge_split 4 r H4) as (l & r' & -> & Hl). destruct (put_be32_inv l Hl) as (alen & Ha & ->).
  unfold mbind at 1, R_bind at 1. rewrite (run_be32 _ _ true _ _ H Ha).
  apply rest_app in H. change (length (put_be32 _)) with 4%nat in H.
  unfold mbind at 1, R_bind at 1. rewrite (run_avail _ _ _ _ H).
  destruct (Z.eqb_spec alen vlen) as [->|]; cbn [negb orb]; [|right; by eexists].
  destruct (Nat.leb_spec (Z.to_nat vlen) (length r')) as [Hn|Hn]; cbn [negb]; [|right; by eexists].
  destruct (length_ge_split _ r' Hn) as (v & r'' & -> & Hlen). left. exists v, r''.
  split; [done|]. lia.
Qed.
Lemma proplist_cases fuel d p r :
  rest d p r → (length r < fuel)%nat →
  (∃ l r', Forall prop_ok l ∧ r = wire_proplist l ++ r') ∨
  failed (proplist_loop fuel d (mk_rd p true)).
Proof.
  revert p r. induction fuel as [|fuel IH]; intros p r H Hf; [lia|].
  destruct r as [|b r]; [right; by apply next_avail_nil|].
  destruct (decide (b = byte_of PA_TAG_STRING_NULL)) as [->|Hb].
  { left. exists [], r. done. }
  assert ((byte_val b =? PA_TAG_STRING_NULL) = false) as Hb'.
  { apply Z.eqb_neq. intros E. by apply Hb, byte_of_inj_val. }
  set (r0 := b :: r) in *.
  assert (∀ k, (∃ k' v r', r0 = wire_prop (k', v) ++ r' ∧ prop_ok (k', v)) ∨
    failed (proplist_loop (S k) d (mk_rd p true))) as Hstep.
  { intros k. cbn [proplist_loop]. unfold mbind at 1, R_bind at 1.
    rewrite (run_avail _ _ _ 1 H). change (1 <=? length r0)%nat with true. cbn [negb].
    unfold mbind at 1, R_bind at 1. rewrite (run_peek _ _ _ _ _ H), Hb'.
    destruct (get_string_cases d p r0 H) as [(s & r1 & Hs & Hr & Hg)|[(r1 & Hr & _)|Hg]].
    - unfold mbind at 1, R_bind at 1. rewrite Hg. rewrite Hr in H. apply rest_app in H.
      destruct (get_u32_cases d _ r1 H) as [(v & r2 & Hv & -> & Hg2)|Hg2].
      + unfold mbind at 1, R_bind at 1. rewrite Hg2. apply rest_app in H.
        destruct (prop_value_cases k d _ v r2 H Hv) as [(val & r3 & -> & Hlen)|Hfail];
          [left|by right].
        exists s, val, r3. rewrite Hr. unfold wire_prop, prop_ok. cbn [fst snd]. rewrite Hlen.
        split; [|split; [done|lia]]. rewrite <- !app_assoc.
        by f_equal.
      + right. apply failed_bind; [done|]. intros s'. by eexists.
    - injection Hr as ->. done.
    - right. apply failed_bind; [done|]. intros s'. by eexists. }
  destruct (Hstep fuel) as [(k & v & r' & Hr & Hok)|Hfail]; [|by right].
  rewrite Hr in H, Hf |- *. rewrite (run_prop d p k v r' fuel Hok H). rewrite length_app in Hf.
  assert (0 < length (wire_prop (k, v)))%nat by (unfold wire_prop; rewrite length_app; cbn; lia).
  destruct (IH _ r' (rest_app _ _ _ _ H) ltac:(lia)) as [(l & r'' & Hl & ->)|Hfail]; [|by right].
  left. exists ((k, v) :: l), r''. split; [by constructor|]. unfold wire_proplist. cbn.
  by rewrite <- !app_assoc.
Qed.

Lemma skip_cases fuel d p r :
  rest d p r → (length r < fuel)%nat →
  (∃ v r', tag_value v ∧ r = v ++ r') ∨ failed (skip_value_fuel fuel d (mk_rd p true)).
Proof.
  revert p r. induction fuel as [|fuel IH]; intros p r H Hf; [lia|].
  destruct r as [|b r]; [right; by apply skip_nil|].
  rewrite (skip_cons _ _ _ _ _ H). apply rest_cons in H. cbn [length] in Hf.
  pose proof (byte_val_range b) as Hr. set (t := byte_val b) in *.
  assert (b = byte_of t) as Hb by (by apply byte_of_inj_val). unfold skip_tail.
  destruct (fixed_size t) as [n|] eqn:En.
  { rewrite (run_skip_n _ _ n _ H). destruct (Nat.leb_spec n (length r)) as [Hn|]; [|right; by eexists].
    destruct (length_ge_split n r Hn) as (l & r' & -> & Hl). left. exists (b :: l), r'.
    split; [|done]. rewrite Hb. by apply (tv_fixed t n). }
  destruct (Z.eqb_spec t PA_TAG_STRING) as [E|_].
  { rewrite E in Hb. destruct (decide (nul ∈ r)) as [Hin|Hin].
    - destruct (nul_split r Hin) as (s & r' & -> & Hs). left. exists (wire_string s), r'.
      split; [by apply tv_string|]. rewrite Hb. unfold wire_string. cbn. by rewrite <- app_assoc.
    - right. unfold mbind at 1, R_bind at 1. rewrite (run_scan_none _ _ _ _ Hin H). by eexists. }
  destruct (Z.eqb_spec t PA_TAG_CHANNEL_MAP) as [E|_].
  { rewrite E in Hb. destruct r as [|n r]; [right; by apply next_avail_nil|].
    rewrite (next_avail _ _ _ _ (λ n, skip_n (Z.to_nat n)) H). apply rest_cons in H.
    rewrite (run_skip_n _ _ _ _ H). destruct (Nat.leb_spec (Z.to_nat (byte_val n)) (length r)) as [Hn|];
      [|right; by eexists].
    destruct (length_ge_split _ r Hn) as (l & r' & -> & Hl). left. exists (b :: n :: l), r'.
    split; [|done]. rewrite Hb. by apply tv_channel_map. }
  destruct (Z.eqb_spec t PA_TAG_CVOLUME) as [E|_].
  { rewrite E in Hb. destruct r as [|n r]; [right; by apply next_avail_nil|].
    rewrite (next_avail _ _ _ _ (λ n, skip_n (Z.to_nat n * 4)) H). apply rest_cons in H.
    rewrite (run_skip_n _ _ _ _ H).
    destruct (Nat.leb_spec (Z.to_nat (byte_val n) * 4) (length r)) as [Hn|]; [|right; by eexists].
    destruct (length_ge_split _ r Hn) as (l & r' & -> & Hl). left. exists (b :: n :: l), r'.
    split; [|done]. rewrite Hb. by apply tv_cvolume. }
  destruct (Z.eqb_spec t PA_TAG_ARBITRARY) as [E|_].
  { rewrite E in Hb. unfold mbind at 1, R_bind at 1. rewrite (run_avail _ _ _ 4 H).
    destruct (Nat.leb_spec 4 (length r)) as [H4|]; cbn [negb]; [|right; by eexists].
    destruct (length_ge_split 4 r H4) as (l & r' & -> & Hl).
    destruct (put_be32_inv l Hl) as (n & Hn & ->).
    unfold mbind at 1, R_bind at 1. rewrite (run_be32 _ _ true _ _ H Hn).
    apply rest_app in H. change (length (put_be32 _)) with 4%nat in H. rewrite (run_skip_n _ _ _ _ H).
    destruct (Nat.leb_spec (Z.to_nat n) (length r')) as [Hn'|]; [|right; by eexists].
    destruct (length_ge_split _ r' Hn') as (v & r'' & -> & Hlen). left.
    exists (b :: put_be32 n ++ v), r''. split; [|cbn; by rewrite <- ?app_assoc].
    rewrite Hb. replace n with (Z.of_nat (length v)) by lia. apply tv_arbitrary. lia. }
  destruct (Z.eqb_spec t PA_TAG_PROPLIST) as [E|_].
  { rewrite E in Hb. destruct (proplist_cases fuel d _ r H ltac:(lia)) as [(l & r' & Hl & ->)|]; [|by right].
    left. exists (b :: wire_proplist l), r'. split; [|done]. rewrite Hb. by apply tv_proplist. }
  destruct (Z.eqb_spec t PA_TAG_FORMAT_INFO) as [E|_]; [|right; by eexists].
  rewrite E in Hb. destruct r as [|t2 r]; [right; by apply next_avail_nil|].
  rewrite (next_avail _ _ _ _ (λ t, if negb (t =? PA_TAG_U8) then fail else
      b ← avail 1; if negb b then fail else advance 1;; skip_value_fuel fuel) H).
  destruct (Z.eqb_spec (byte_val t2) PA_TAG_U8) as [E2|]; cbn [negb]; [|right; by eexists].
  apply byte_of_inj_val in E2 as ->. apply rest_cons in H.
  destruct r as [|e r]; [right; by apply next_avail_nil|].
  unfold mbind at 1, R_bind at 1. rewrite (run_avail _ _ _ 1 H). cbn [negb Nat.leb length] in *.
  unfold mbind at 1, R_bind at 1. unfold advance. cbn [pos rd_ok]. apply rest_cons in H.
  destruct (IH _ r H ltac:(lia)) as [(v & r' & Hv & ->)|]; [|by right].
  left. exists (b :: byte_of PA_TAG_U8 :: e :: v), r'. split; [|done]. rewrite Hb. by apply tv_format_info.
Qed.

(** [skip_value] walks over exactly one value: at any position of any data it
    terminates and reads only inside the data, it succeeds exactly when the bytes at the
    cursor start with the encoding of a value (fixed-size values, strings, channel maps,
    volumes, blobs, property lists, nested format infos), and then the cursor stands right
    behind that value. *)
Theorem skip_value_exact (d : bytes) (p : nat) :
  (p ≤ length d)%nat →
  skip_value d (mk_rd p true) ≠ None ∧
  ∀ s', skip_value d (mk_rd p true) = Some (Some tt, s') ↔
    ∃ v r, tag_value v ∧ drop p d = v ++ r ∧ s' = mk_rd (p + length v) true.
Proof.
  intros Hp. pose proof (rest_at d p Hp) as H. unfold skip_value.
  assert (length (drop p d) < length d + 2)%nat as Hf by (rewrite length_drop; lia).
  destruct (skip_cases _ d p _ H Hf) as [(v & r & Hv & Hd)|[p' Hfail]].
  - rewrite Hd in H, Hf. rewrite length_app in Hf.
    pose proof (run_skip_value v Hv d p r (length d + 2) H ltac:(lia)) as Hrun. rewrite Hrun.
    split; [done|]. intros s'. split.
    + intros [= <-]. by exists v, r.
    + intros (v' & r' & Hv' & Hd' & ->). rewrite Hd in Hd'. rewrite Hd' in H.
      assert (length v' < length d + 2)%nat as Hf'.
      { apply (f_equal length) in Hd'. rewrite !length_app in Hd'. lia. }
      by rewrite <- Hrun, (run_skip_value v' Hv' d p r' _ H Hf').
  - rewrite Hfail. split; [done|]. intros s'. split; [done|].
    intros (v & r & Hv & Hd & ->). rewrite Hd in H, Hf. rewrite length_app in Hf.
    by rewrite (run_skip_value v Hv d p r _ H) in Hfail by lia.
Qed.
Lemma skip_value_exact_witness :
  skip_value (put_u32 7 ++ put_cvolume 2 5) (mk_rd 5 true) ≠ None.
Proof. apply (skip_value_exact (put_u32 7 ++ put_cvolume 2 5) 5). cbn. lia. Defined.

(** ** What is written is read *)

(** The values the writer and the getters share. *)
Inductive field :=
| FU32 (v : Z) | FU8 (v : Z) | FU64 (v : Z) | FS64 (v : Z) | FBool (b : bool)
| FString (s : option bytes) | FSpec (s : SampleSpec).
Definition field_ok (f : field) : Prop :=
  match f with
  | FU32 v => 0 ≤ v < 2 ^ 32
  | FU8 v => 0 ≤ v < 2 ^ 8
  | FU64 v => 0 ≤ v < 2 ^ 64
  | FS64 v => - 2 ^ 63 ≤ v < 2 ^ 63
  | FBool _ | FString None => True
  | FString (Some s) => no_nul s
  | FSpec s => 0 ≤ format s < 2 ^ 8 ∧ 0 ≤ channels s < 2 ^ 8 ∧ 0 ≤ rate s < 2 ^ 32
  end.
Definition put_field (f : field) : bytes :=
  match f with
  | FU32 v => put_u32 v | FU8 v => put_u8 v | FU64 v => put_u64 v | FS64 v => put_s64 v
  | FBool b => put_boolean b | FString s => put_string s | FSpec s => put_sample_spec s
  end.
(** The getter for the kind of a field. *)
Definition get_field (f : field) : R (option field) :=
  match f with
  | FU32 _ => o ← get_u32; mret (FU32 <$> o)
  | FU8 _ => o ← get_u8; mret (FU8 <$> o)
  | FU64 _ => o ← get_u64; mret (FU64 <$> o)
  | FS64 _ => o ← get_s64; mret (FS64 <$> o)
  | FBool _ => o ← get_boolean; mret (FBool <$> o)
  | FString _ => o ← get_string; mret (FString <$> o)
  | FSpec _ => o ← get_sample_spec; mret (FSpec <$> o)
  end.
Fixpoint get_fields (fs : list field) : R (list (option field)) :=
  match fs with
  | [] => mret []
  | f :: fs => o ← get_field f; l ← get_fields fs; mret (o :: l)
  end.

Lemma s64_u64 v : - 2 ^ 63 ≤ v < 2 ^ 63 → s64 (u64 v) = v.
Proof.
  intros Hv. unfold s64, u64. rewrite Z.mod_mod by lia. destruct (Z.lt_ge_cases v 0).
  - replace (v mod 2 ^ 64) with (v + 2 ^ 64).
    + destruct (Z.ltb_spec (v + 2 ^ 64) (2 ^ 63)); lia.
    + rewrite <- (Z.mod_add v 1) by lia. rewrite Z.mod_small; lia.
  - rewrite Z.mod_small by lia. destruct (Z.ltb_spec v (2 ^ 63)); lia.
Qed.
Lemma run_get_field f d p r :
  field_ok f → rest d p (put_field f ++ r) →
  get_field f d (mk_rd p true) = Some (Some f, mk_rd (p + length (put_field f)) true).
Proof.
  intros Hf H. destruct f as [v|v|v|v|b|[s|]|s]; cbn [put_field get_field field_ok] in *.
  - by rewrite (R_bind_Some _ _ _ _ _ _ (run_get_u32 d p v r H Hf)).
  - rewrite (R_bind_Some get_u8 _ d _ (Some v) (mk_rd (p + 2) true)); [done|].
    eapply (run_tagged d p _ 1 _ _ [byte_of v] r); [exact H|done|done|].
    apply rest_cons in H. rewrite (run_next8 d (p + 1) r true _ H), byte_val_of, Z.mod_small by done.
    do 3 f_equal. lia.
  - rewrite (R_bind_Some get_u64 _ d _ (Some v) (mk_rd (p + 9) true)); [done|].
    eapply (run_tagged d p _ 8 _ _ (put_be64 v) r); [exact H|done|done|].
    apply rest_cons in H. rewrite (run_be64 d (p + 1) true v r H Hf). do 3 f_equal. lia.
  - rewrite (R_bind_Some get_s64 _ d _ (Some v) (mk_rd (p + 9) true)); [done|].
    eapply (run_tagged d p _ 8 _ _ (put_be64 (u64 v)) r); [exact H|done|done|].
    apply rest_cons in H.
    rewrite (R_bind_Some _ _ _ _ _ _ (run_be64 d (p + 1) true (u64 v) r H (u64_range v))).
    unfold mret, R_ret. rewrite s64_u64 by done. do 3 f_equal. lia.
  - unfold get_boolean. unfold mbind at 1 2, R_bind at 1 2. rewrite (run_avail _ _ _ 1 H). cbn [negb Nat.leb length app put_boolean].
    unfold mbind at 1, R_bind at 1. rewrite (run_next8 _ _ _ _ _ H). by destruct b.
  - rewrite (put_string_wire s Hf) in H |- *.
    by rewrite (R_bind_Some _ _ _ _ _ _ (run_get_string d p s r Hf H)).
  - by rewrite (R_bind_Some _ _ _ _ _ _ (run_get_string_null d p r H)).
  - destruct Hf as (H1 & H2 & H3). destruct s as [f c rt]. cbn [format channels rate] in *.
    rewrite (R_bind_Some get_sample_spec _ d _ (Some (mk_spec f c rt)) (mk_rd (p + 7) true)); [done|].
    eapply (run_tagged d p _ 6 _ _ (byte_of f :: byte_of c :: put_be32 rt) r); [exact H|done|done|].
    apply rest_cons in H. rewrite (R_bind_Some _ _ _ _ _ _ (run_next8 _ _ _ _ _ H)).
    apply rest_cons in H. rewrite (R_bind_Some _ _ _ _ _ _ (run_next8 _ _ _ _ _ H)).
    apply rest_cons in H. rewrite (R_bind_Some _ _ _ _ _ _ (run_be32 d _ true rt r H H3)).
    unfold mret, R_ret. rewrite !byte_val_of, !Z.mod_small by done. do 3 f_equal. lia.
Qed.

(** C0. What TagWriter writes, TagReader reads back: reading the values of any sequence of
    fields (integers of every width, booleans, strings including NULL, sample
    specifications) with the matching getters, from a buffer in which other bytes may
    precede and follow, gives exactly the fields, leaves the reader ok and stops at the
    first byte that was not written. *)
Theorem tag_roundtrip (fs : list field) (pre post : bytes) :
  Forall field_ok fs →
  get_fields fs (pre ++ concat (put_field <$> fs) ++ post) (mk_rd (length pre) true)
  = Some (Some <$> fs, mk_rd (length (pre ++ concat (put_field <$> fs))) true).
Proof.
  intros Hfs. set (d := pre ++ concat (put_field <$> fs) ++ post).
  assert (rest d (length pre) (concat (put_field <$> fs) ++ post)) as H.
  { unfold d, rest. rewrite drop_app_length, length_app. split; [done|lia]. }
  rewrite length_app. clearbody d. revert H. generalize (length pre) as p.
  induction Hfs as [|f fs Hf Hfs IH]; intros p H; cbn [fmap list_fmap concat get_fields] in *.
  - cbn. by rewrite Nat.add_0_r.
  - rewrite <- app_assoc in H. rewrite (R_bind_Some _ _ _ _ _ _ (run_get_field f d p _ Hf H)).
    rewrite (R_bind_Some _ _ _ _ _ _ (IH _ (rest_app _ _ _ _ H))).
    unfold mret, R_ret. rewrite length_app, Nat.add_assoc. done.
Qed.
Definition demo_fields : list field :=
  [FU32 8; FS64 (-5); FString (Some (str "alr")); FString None; FBool true; FSpec default_spec].
Lemma tag_roundtrip_witness :
  get_fields demo_fields (put_u8 1 ++ concat (put_field <$> demo_fields) ++ put_u8 2) (mk_rd 2 true)
  = Some (Some <$> demo_fields, mk_rd (length (put_u8 1 ++ concat (put_field <$> demo_fields))) true).
Proof.
  apply (tag_roundtrip demo_fields (put_u8 1) (put_u8 2)).
  repeat (apply Forall_cons; split); try apply Forall_nil; cbn [field_ok]; try (cbn; lia).
  - apply (bool_decide_unpack _). vm_compute. exact I.
  - unfold default_spec, PA_SAMPLE_S16LE. cbn [format channels rate]. lia.
Defined.
Close Scope Z_scope.
