(* ===== verification/PulseStream.v ===== *)
(** * Playback streams and the mixer: [alr_audio/alr_pulse_server.cpp]

    PCM of a client is decoded to 16-bit stereo, resampled to the rate of the device and
    put into the ring of its stream; the callback of the audio device adds the rings up and
    clips the sums.  Floating-point numbers are the IEEE numbers of the standard library. *)

From S2P Require Import Prelude Bytes PulseTag.
From Stdlib Require Import Floats.SpecFloat.
Open Scope Z_scope.

(** ** Floating point *)

(** [static_cast<double>] of an integer, and the operations on [double]. *)
Definition f64_of (z : Z) : spec_float := binary_normalize 53 1024 z 0 false.
Definition f64_add := SFadd 53 1024.
Definition f64_sub := SFsub 53 1024.
Definition f64_mul := SFmul 53 1024.
Definition f64_div := SFdiv 53 1024.
(** The bits of a [float]. *)
Definition f32_of_bits (z : Z) : spec_float :=
  let s := Z.testbit z 31 in
  let e := Z.land (Z.shiftr z 23) 0xff in
  let m := Z.land z 0x7fffff in
  if e =? 0 then match m with Zpos p => S754_finite s p (-149) | _ => S754_zero s end
  else if e =? 255 then if m =? 0 then S754_infinity s else S754_nan
  else match m + 2 ^ 23 with Zpos p => S754_finite s p (e - 150) | _ => S754_nan end.
Definition f32_one : spec_float := f32_of_bits 0x3f800000.
Definition f32_minus_one : spec_float := f32_of_bits 0xbf800000.
Definition f32_32767 : spec_float := f32_of_bits 0x46fffe00.
(** Conversion to an integer truncates.  A NaN converts to 0, as the AArch64 instruction
    does; the language leaves it undefined. *)
Definition sf_trunc (f : spec_float) : Z :=
  match f with
  | S754_finite s m e =>
      let a := if 0 <=? e then Zpos m * 2 ^ e else Zpos m / 2 ^ (- e) in
      if s then - a else a
  | _ => 0
  end.
Definition s16 (z : Z) : Z := (z + 2 ^ 15) mod 2 ^ 16 - 2 ^ 15.

(** ** Decoding a frame *)

Definition rd_s16le (q : bytes) : Z := s16 (Z.lor (byte_val (q !!! 0%nat)) (Z.shiftl (byte_val (q !!! 1%nat)) 8)).
Definition rd_s16be (q : bytes) : Z := s16 (Z.lor (byte_val (q !!! 1%nat)) (Z.shiftl (byte_val (q !!! 0%nat)) 8)).
Definition rd_f32le (q : bytes) : Z :=
  let f := f32_of_bits (le_val (take 4 q)) in
  let f := if SFltb f32_one f then f32_one else f in
  let f := if SFltb f f32_minus_one then f32_minus_one else f in
  s16 (sf_trunc (SFmul 24 128 f f32_32767)).
Definition rd_s32le (q : bytes) : Z := s16 (Z.shiftr (s32 (le_val (take 4 q))) 16).
Definition rd_u8 (q : bytes) : Z := s16 (Z.shiftl (byte_val (q !!! 0%nat) - 128) 8).
Definition sample_at (fmt : Z) (q : bytes) : Z :=
  if fmt =? PA_SAMPLE_S16LE then rd_s16le q
  else if fmt =? PA_SAMPLE_S16BE then rd_s16be q
  else if fmt =? PA_SAMPLE_FLOAT32LE then rd_f32le q
  else if fmt =? PA_SAMPLE_S32LE then rd_s32le q
  else if fmt =? PA_SAMPLE_U8 then rd_u8 q
  else 0.
Definition supported (fmt : Z) : bool :=
  (fmt =? PA_SAMPLE_S16LE) || (fmt =? PA_SAMPLE_S16BE) || (fmt =? PA_SAMPLE_FLOAT32LE) ||
  (fmt =? PA_SAMPLE_S32LE) || (fmt =? PA_SAMPLE_U8).
Abbreviation frame := (Z * Z)%type.
(** [decode_client_frame]; [None] is the result false. *)
Definition decode_client_frame (p : bytes) (spec : SampleSpec) : option frame :=
  let ssz := Z.to_nat (sample_size_bytes (format spec)) in
  if negb (supported (format spec)) then None
  else if 2 <=? channels spec then
    Some (sample_at (format spec) p, sample_at (format spec) (drop ssz p))
  else let m := sample_at (format spec) p in Some (m, m).

(** ** A stream and its ring *)

Record PlaybackStream := mk_stream {
  index : Z; channel : Z; spec : SampleSpec; corked : bool; started : bool;
  tlength : Z; minreq : Z; prebuf : Z; maxlength : Z;
  requested_bytes : Z; received_bytes : Z;
  ring : list frame; ring_frames : nat; head : nat; tail : nat; fill : nat;
  resample_pos : spec_float; last : frame; frames_played : Z }.
Definition f64_zero : spec_float := S754_zero false.

(** The fields a step changes. *)
Definition with_ring (st : PlaybackStream) (r : list frame) (h t f : nat) : PlaybackStream :=
  mk_stream (index st) (channel st) (spec st) (corked st) (started st) (tlength st) (minreq st)
    (prebuf st) (maxlength st) (requested_bytes st) (received_bytes st) r (ring_frames st) h t f
    (resample_pos st) (last st) (frames_played st).
Definition with_phase (st : PlaybackStream) (p : spec_float) (l : frame) : PlaybackStream :=
  mk_stream (index st) (channel st) (spec st) (corked st) (started st) (tlength st) (minreq st)
    (prebuf st) (maxlength st) (requested_bytes st) (received_bytes st) (ring st) (ring_frames st)
    (head st) (tail st) (fill st) p l (frames_played st).
Definition with_corked (st : PlaybackStream) (c : bool) : PlaybackStream :=
  mk_stream (index st) (channel st) (spec st) c (started st) (tlength st) (minreq st)
    (prebuf st) (maxlength st) (requested_bytes st) (received_bytes st) (ring st) (ring_frames st)
    (head st) (tail st) (fill st) (resample_pos st) (last st) (frames_played st).
Definition with_counts (st : PlaybackStream) (s : bool) (recv played : Z) : PlaybackStream :=
  mk_stream (index st) (channel st) (spec st) (corked st) s (tlength st) (minreq st)
    (prebuf st) (maxlength st) (requested_bytes st) recv (ring st) (ring_frames st)
    (head st) (tail st) (fill st) (resample_pos st) (last st) played.

(** The lambda of [push_pcm_to_ring]. *)
Definition write_frame (st : PlaybackStream) (f : frame) : PlaybackStream :=
  let st := if (ring_frames st <=? fill st)%nat
            then with_ring st (ring st) ((head st + 1) mod ring_frames st) (tail st) (fill st - 1)
            else st in
  with_ring st (<[tail st := f]> (ring st)) (head st) ((tail st + 1) mod ring_frames st) (fill st + 1).

(** Client frame [i] of the data. *)
Definition client_frame (data : bytes) (cf i : nat) (sp : SampleSpec) : option frame :=
  decode_client_frame (drop (i * cf) data) sp.
Fixpoint push_loop (n i : nat) (st : PlaybackStream) (data : bytes) (cf : nat) : PlaybackStream :=
  match n with
  | O => st
  | S n =>
      match client_frame data cf i (spec st) with
      | None => st
      | Some f => push_loop n (S i) (write_frame st f) data cf
      end
  end.
Definition lerp (a b : Z) (frac : spec_float) : Z :=
  s16 (sf_trunc (f64_add (f64_of a) (f64_mul (f64_of (b - a)) frac))).
(** The resampling loop: the stream, the phase, and whether it ended normally. *)
Fixpoint resample_loop (fuel : nat) (st : PlaybackStream) (data : bytes) (cf nframes : nat)
    (prev : frame) (step pos : spec_float) : option (PlaybackStream * spec_float * bool) :=
  match fuel with
  | O => None
  | S fuel =>
      if SFltb pos (f64_of (Z.of_nat nframes)) then
        let i0 := Z.to_nat (sf_trunc pos) in
        let frac := f64_sub pos (f64_of (Z.of_nat i0)) in
        match (if (i0 =? 0)%nat then Some prev else client_frame data cf (i0 - 1) (spec st)) with
        | None => Some (st, pos, false)
        | Some f0 =>
            match client_frame data cf i0 (spec st) with
            | None => Some (st, pos, false)
            | Some f1 =>
                resample_loop fuel
                  (write_frame st (lerp (fst f0) (fst f1) frac, lerp (snd f0) (snd f1) frac))
                  data cf nframes prev step (f64_add pos step)
            end
        end
      else Some (st, pos, true)
  end.
(** [push_pcm_to_ring]; [fuel] bounds the turns of the resampling loop. *)
Definition push_pcm_to_ring (fuel : nat) (st : PlaybackStream) (data : bytes) (device_rate : Z)
    : option PlaybackStream :=
  let cf := Z.to_nat (frame_size_bytes (spec st)) in
  if (cf =? 0)%nat then Some st
  else
    let nframes := (length data / cf)%nat in
    let need_resample := negb (rate (spec st) =? u32 device_rate) && negb (rate (spec st) =? 0) in
    if negb need_resample then Some (push_loop nframes 0 st data cf)
    else
      let step := f64_div (f64_of (rate (spec st))) (f64_of device_rate) in
      '(st', pos, ended) ← resample_loop fuel st data cf nframes (last st) step (resample_pos st);
      if negb ended then Some st'
      else
        let carried := if (0 <? nframes)%nat
                       then default (last st) (client_frame data cf (nframes - 1) (spec st))
                       else last st' in
        Some (with_phase st' (f64_sub pos (f64_of (Z.of_nat nframes))) carried).

(** ** The mixer *)

Definition clip (v : Z) : Z := Z.max (-32768) (Z.min 32767 v).
Definition add_frame (a b : frame) : frame := (fst a + fst b, snd a + snd b).
(** Up to [n] frames from the front of the ring are added to the accumulator. *)
Fixpoint mix_loop (n : nat) (st : PlaybackStream) (acc : list frame) : PlaybackStream * list frame :=
  match n, acc with
  | S n, a :: acc =>
      let f := ring st !!! head st in
      let '(st, acc) := mix_loop n
        (with_ring st (ring st) ((head st + 1) mod ring_frames st) (tail st) (fill st)) acc in
      (st, add_frame a f :: acc)
  | _, _ => (st, acc)
  end.
Definition mix_stream (num : nat) (st : PlaybackStream) (acc : list frame)
    : PlaybackStream * list frame :=
  if corked st || (ring_frames st =? 0)%nat then (st, acc)
  else
    let n := Nat.min num (fill st) in
    let '(st', acc) := mix_loop n st acc in
    (with_counts (with_ring st' (ring st') (head st') (tail st') (fill st' - n)) (started st')
       (received_bytes st') (frames_played st' + Z.of_nat n), acc).
Fixpoint mix_streams (num : nat) (sts : list PlaybackStream) (acc : list frame)
    : list PlaybackStream * list frame :=
  match sts with
  | [] => ([], acc)
  | st :: sts =>
      let '(st, acc) := mix_stream num st acc in
      let '(sts, acc) := mix_streams num sts acc in
      (st :: sts, acc)
  end.
(** [aaudio_cb] on the streams of the mixer: the streams, and the samples for the device. *)
Definition aaudio_cb (num : nat) (sts : list PlaybackStream) : list PlaybackStream * list frame :=
  let '(sts, acc) := mix_streams num sts (replicate num (0, 0)) in
  (sts, (λ f, (clip (fst f), clip (snd f))) <$> acc).

(** ** The ring is a bounded queue that drops its oldest frames *)

Definition ring_ok (st : PlaybackStream) : Prop :=
  (0 < ring_frames st)%nat ∧ length (ring st) = ring_frames st ∧
  (head st < ring_frames st)%nat ∧ (fill st ≤ ring_frames st)%nat ∧
  tail st = ((head st + fill st) mod ring_frames st)%nat.
(** The buffered frames, oldest first. *)
Definition queue (st : PlaybackStream) : list frame :=
  (λ k, ring st !!! ((head st + k) mod ring_frames st)%nat) <$> seq 0 (fill st).
(** The last [n] elements. *)
Definition lastn {A} (n : nat) (l : list A) : list A := drop (length l - n) l.

Lemma lastn_all {A} n (l : list A) : (length l ≤ n)%nat → lastn n l = l.
Proof. intros H. unfold lastn. by replace (length l - n)%nat with 0%nat by lia. Qed.
Lemma lastn_length {A} n (l : list A) : length (lastn n l) = Nat.min n (length l).
Proof. unfold lastn. rewrite length_drop. lia. Qed.
Lemma lastn_app {A} n (l k : list A) : lastn n (lastn n l ++ k) = lastn n (l ++ k).
Proof.
  unfold lastn. rewrite !length_app, length_drop.
  destruct (Nat.le_gt_cases (length l) n) as [H|H].
  - replace (length l - n)%nat with 0%nat by lia. rewrite drop_0. f_equal. lia.
  - replace (length l - (length l - n) + length k - n)%nat with (length k) by lia.
    rewrite <- (drop_app_le l k (length l - n)) by lia. rewrite drop_drop. f_equal. lia.
Qed.

Lemma queue_length st : length (queue st) = fill st.
Proof. unfold queue. by rewrite length_fmap, length_seq. Qed.
Lemma queue_lookup st k :
  (k < fill st)%nat → queue st !! k = Some (ring st !!! ((head st + k) mod ring_frames st)%nat).
Proof. intros H. unfold queue. rewrite list_lookup_fmap, lookup_seq_lt by done. done. Qed.
Lemma queue_ext st l :
  length l = fill st →
  (∀ k, (k < fill st)%nat → l !! k = Some (ring st !!! ((head st + k) mod ring_frames st)%nat)) →
  queue st = l.
Proof.
  intros Hl H. apply list_eq. intros k. destruct (Nat.lt_ge_cases k (fill st)) as [Hk|Hk].
  - by rewrite queue_lookup, H.
  - rewrite !lookup_ge_None_2; [done|by rewrite Hl|by rewrite queue_length].
Qed.

(** Positions in the ring that differ by less than a turn are different. *)
Lemma mod_inj n h i j :
  (0 < n)%nat → (i < n)%nat → (j < n)%nat → ((h + i) mod n = (h + j) mod n)%nat → i = j.
Proof.
  intros Hn Hi Hj H. pose proof (Nat.div_mod_eq (h + i) n) as Ei. pose proof (Nat.div_mod_eq (h + j) n) as Ej.
  rewrite H in Ei. pose proof (Nat.mod_upper_bound (h + j) n ltac:(lia)).
  set (a := ((h + i) / n)%nat) in *. set (b := ((h + j) / n)%nat) in *.
  destruct (Nat.lt_trichotomy a b) as [Hab|[Hab|Hab]]; [|subst; rewrite Hab in Ei; lia|].
  - pose proof (Nat.mul_le_mono_l (S a) b n Hab). lia.
  - pose proof (Nat.mul_le_mono_l (S b) a n Hab). lia.
Qed.

(** Dropping the oldest frame. *)
Lemma advance_head st n :
  ring_ok st → (n ≤ fill st)%nat →
  let st' := with_ring st (ring st) ((head st + n) mod ring_frames st) (tail st) (fill st - n) in
  ring_ok st' ∧ queue st' = drop n (queue st).
Proof.
  intros (Hn & Hl & Hh & Hf & Ht) Hle st'. split.
  - unfold ring_ok, st'. cbn [tail head fill ring_frames ring with_ring]. split_and!; try done;
      [apply Nat.mod_upper_bound; lia|lia|].
    rewrite Ht, Nat.Div0.add_mod_idemp_l. f_equal. lia.
  - apply queue_ext; unfold st'; cbn [fill with_ring].
    + by rewrite length_drop, queue_length.
    + intros k Hk. rewrite lookup_drop, queue_lookup by lia. cbn [ring head ring_frames with_ring].
      rewrite Nat.Div0.add_mod_idemp_l. do 3 f_equal. lia.
Qed.

(** Appending to a ring with room. *)
Lemma append_tail st f :
  ring_ok st → (fill st < ring_frames st)%nat →
  let st' := with_ring st (<[tail st := f]> (ring st)) (head st) ((tail st + 1) mod ring_frames st)
               (fill st + 1) in
  ring_ok st' ∧ queue st' = queue st ++ [f].
Proof.
  intros (Hn & Hl & Hh & Hf & Ht) Hlt st'.
  assert (tail st < length (ring st))%nat as Htl.
  { rewrite Hl, Ht. apply Nat.mod_upper_bound. lia. }
  split.
  - unfold ring_ok, st'. cbn [tail head fill ring_frames ring with_ring]. split_and!; try done;
      [by rewrite length_insert|lia|].
    rewrite Ht, Nat.Div0.add_mod_idemp_l. f_equal. lia.
  - apply queue_ext; unfold st'; cbn [fill with_ring].
    + rewrite length_app, queue_length. done.
    + intros k Hk. cbn [ring head ring_frames with_ring].
      destruct (decide (k = fill st)) as [->|Hne].
      * rewrite lookup_app_r by (rewrite queue_length; lia). rewrite queue_length, Nat.sub_diag, <- Ht.
        by rewrite list_lookup_total_insert_eq.
      * rewrite lookup_app_l by (rewrite queue_length; lia). rewrite queue_lookup by lia.
        rewrite list_lookup_total_insert_ne; [done|]. rewrite Ht. intros E.
        apply mod_inj in E; lia.
Qed.

Lemma write_frame_ok st f :
  ring_ok st →
  ring_ok (write_frame st f) ∧ queue (write_frame st f) = lastn (ring_frames st) (queue st ++ [f]).
Proof.
  intros Hok. pose proof Hok as (Hn & Hl & Hh & Hf & Ht). unfold write_frame.
  destruct (Nat.leb_spec (ring_frames st) (fill st)) as [Hfull|Hroom].
  - destruct (advance_head st 1 Hok) as [Hok1 Hq1]; [lia|].
    set (st1 := with_ring st (ring st) ((head st + 1) mod ring_frames st) (tail st) (fill st - 1)) in *.
    destruct (append_tail st1 f Hok1) as [Hok2 Hq2]; [cbn; lia|]. split; [exact Hok2|].
    rewrite Hq2, Hq1. unfold lastn. rewrite length_app, queue_length. cbn [length].
    replace (fill st + 1 - ring_frames st)%nat with 1%nat by lia.
    rewrite drop_app_le; [done|]. rewrite queue_length. lia.
  - destruct (append_tail st f Hok Hroom) as [Hok2 Hq2]. split; [exact Hok2|]. rewrite Hq2.
    rewrite lastn_all; [done|]. rewrite length_app, queue_length. cbn. lia.
Qed.
Lemma write_frame_spec st f : spec (write_frame st f) = spec st ∧ ring_frames (write_frame st f) = ring_frames st.
Proof. unfold write_frame. by destruct (_ <=? _)%nat. Qed.

(** What pushing and playing leave alone. *)
Definition ident (st : PlaybackStream) : Z * Z * SampleSpec * bool * bool * Z * Z * Z * nat :=
  (index st, channel st, spec st, corked st, started st, tlength st, minreq st, received_bytes st,
   ring_frames st).
Lemma write_frame_ident st f : ident (write_frame st f) = ident st.
Proof. unfold write_frame. by destruct (_ <=? _)%nat. Qed.

(** A stream after some frames were written. *)
Record written (st st' : PlaybackStream) (fs : list frame) : Prop := {
  wr_ok : ring_ok st';
  wr_queue : queue st' = lastn (ring_frames st) (queue st ++ fs);
  wr_ident : ident st' = ident st
}.
Lemma written_nil st : ring_ok st → written st st [].
Proof.
  intros H. split; try done. rewrite app_nil_r, lastn_all; [done|]. rewrite queue_length. apply H.
Qed.
Lemma written_cons st f st' fs :
  ring_ok st → written (write_frame st f) st' fs → written st st' (f :: fs).
Proof.
  intros H [Hok Hq Hi]. destruct (write_frame_ok st f H) as [_ Hw].
  destruct (write_frame_spec st f) as [H1 H2]. split; [done| |by rewrite Hi, write_frame_ident].
  rewrite Hq, Hw, H2, lastn_app, <- app_assoc. done.
Qed.

(** The frames of a chunk up to the first that cannot be decoded. *)
Fixpoint decoded (n i : nat) (data : bytes) (cf : nat) (sp : SampleSpec) : list frame :=
  match n with
  | O => []
  | S n => match client_frame data cf i sp with
           | None => []
           | Some f => f :: decoded n (S i) data cf sp
           end
  end.
Lemma push_loop_ok n i st data cf :
  ring_ok st → written st (push_loop n i st data cf) (decoded n i data cf (spec st)).
Proof.
  revert i st. induction n as [|n IH]; intros i st H; cbn [push_loop decoded]; [by apply written_nil|].
  destruct (client_frame data cf i (spec st)) as [f|]; [|by apply written_nil].
  apply written_cons; [done|]. rewrite <- (proj1 (write_frame_spec st f)). apply IH.
  by apply write_frame_ok.
Qed.
Lemma resample_loop_ok fuel st data cf nframes prev step pos st' pos' e :
  ring_ok st → resample_loop fuel st data cf nframes prev step pos = Some (st', pos', e) →
  ∃ fs, written st st' fs.
Proof.
  revert st pos. induction fuel as [|fuel IH]; intros st pos H; [done|]. cbn [resample_loop].
  destruct (SFltb _ _); [|intros [= <- <- <-]; exists []; by apply written_nil].
  destruct (if (_ =? 0)%nat then _ else _) as [f0|];
    [|intros [= <- <- <-]; exists []; by apply written_nil].
  destruct (client_frame _ _ _ _) as [f1|];
    [|intros [= <- <- <-]; exists []; by apply written_nil].
  intros Hr. apply IH in Hr as [fs Hfs]; [|by apply write_frame_ok].
  eexists. by apply written_cons.
Qed.
Lemma written_phase st st' p l fs : written st st' fs → written st (with_phase st' p l) fs.
Proof. by intros [? ? ?]. Qed.

Lemma push_pcm_ok fuel st data dr st' :
  ring_ok st → push_pcm_to_ring fuel st data dr = Some st' → ∃ fs, written st st' fs.
Proof.
  intros Hok. unfold push_pcm_to_ring. destruct (_ =? 0)%nat.
  { intros [= <-]. exists []. by apply written_nil. }
  destruct (negb (_ && _)).
  { intros [= <-]. eexists. by apply push_loop_ok. }
  destruct (resample_loop _ _ _ _ _ _ _ _) as [[[st1 pos] e]|] eqn:E; [|done].
  apply resample_loop_ok in E as [fs Hfs]; [|done]. cbn [mbind option_bind].
  destruct e; cbn [negb]; intros [= <-]; exists fs; [by apply written_phase|done].
Qed.

(** ** The mixer adds the fronts of the queues *)

Fixpoint add_frames (acc q : list frame) : list frame :=
  match acc, q with
  | a :: acc, f :: q => add_frame a f :: add_frames acc q
  | _, _ => acc
  end.
Lemma add_frames_nil acc : add_frames acc [] = acc.
Proof. by destruct acc. Qed.
Lemma add_frames_length acc q : length (add_frames acc q) = length acc.
Proof. revert q. induction acc as [|a acc IH]; intros [|f q]; cbn; [done..|]. by rewrite IH. Qed.
Lemma add_frames_lookup acc q i a :
  acc !! i = Some a → add_frames acc q !! i = Some (add_frame a (default (0, 0) (q !! i))).
Proof.
  revert q i. induction acc as [|b acc IH]; intros q i; [done|].
  destruct q as [|f q]; cbn [add_frames].
  - rewrite lookup_nil. intros ->. destruct a. unfold add_frame. cbn. by rewrite !Z.add_0_r.
  - destruct i as [|i]; cbn; [by intros [= ->]|]. apply IH.
Qed.

Lemma with_ring_twice st r h t f r' h' t' f' :
  with_ring (with_ring st r h t f) r' h' t' f' = with_ring st r' h' t' f'.
Proof. done. Qed.
Lemma mix_loop_ok n st acc :
  (0 < ring_frames st)%nat → (head st < ring_frames st)%nat → (n ≤ length acc)%nat →
  mix_loop n st acc =
    (with_ring st (ring st) ((head st + n) mod ring_frames st) (tail st) (fill st),
     add_frames acc ((λ k, ring st !!! ((head st + k) mod ring_frames st)%nat) <$> seq 0 n)).
Proof.
  intros Hn Hh. revert st acc Hn Hh. induction n as [|n IH]; intros st acc Hn Hh Hl.
  - cbn [seq fmap list_fmap]. rewrite add_frames_nil, Nat.add_0_r, Nat.mod_small by done.
    destruct st. by destruct acc.
  - destruct acc as [|a acc]; [cbn in Hl; lia|]. cbn [mix_loop].
    rewrite IH; cbn [ring_frames head with_ring length] in *; [|done|apply Nat.mod_upper_bound; lia|lia].
    cbn [ring tail fill with_ring seq fmap list_fmap add_frames].
    rewrite Nat.add_0_r, (Nat.mod_small (head st)) by done. f_equal; [|f_equal].
    + rewrite with_ring_twice. f_equal. rewrite Nat.Div0.add_mod_idemp_l. f_equal. lia.
    + rewrite <- (fmap_S_seq 0 n), <- list_fmap_compose. f_equal. apply list_fmap_ext.
      intros _ k _. cbn [compose]. f_equal. rewrite Nat.Div0.add_mod_idemp_l. f_equal. lia.
Qed.

(** What a callback for [num] frames takes from a stream. *)
Definition audible (num : nat) (st : PlaybackStream) : list frame :=
  if corked st then [] else take num (queue st).
(** A stream after a callback for [num] frames. *)
Record played (num : nat) (st st' : PlaybackStream) : Prop := {
  pl_ok : ring_ok st';
  pl_queue : queue st' = drop (length (audible num st)) (queue st);
  pl_count : frames_played st' = frames_played st + Z.of_nat (length (audible num st));
  pl_same : ident st' = ident st
}.
Lemma audible_length num st :
  length (audible num st) = if corked st then 0%nat else Nat.min num (fill st).
Proof. unfold audible. destruct (corked st); [done|]. by rewrite length_take, queue_length. Qed.

Lemma mix_stream_ok num st acc :
  ring_ok st → length acc = num →
  played num st (fst (mix_stream num st acc)) ∧
  snd (mix_stream num st acc) = add_frames acc (audible num st).
Proof.
  intros Hok Hacc. pose proof Hok as (Hn & Hl & Hh & Hf & Ht). unfold mix_stream.
  rewrite (proj2 (Nat.eqb_neq (ring_frames st) 0)), orb_false_r by lia.
  destruct (corked st) eqn:Ec.
  { cbn [fst snd]. split; [|unfold audible; rewrite Ec; by rewrite add_frames_nil].
    split; try done; rewrite audible_length, Ec; [done|lia]. }
  set (n := Nat.min num (fill st)).
  rewrite mix_loop_ok by lia. cbn [fst snd].
  destruct (advance_head st n Hok) as [Hok1 Hq1]; [lia|]. split.
  - split.
    + exact Hok1.
    + rewrite audible_length, Ec. exact Hq1.
    + rewrite audible_length, Ec. done.
    + done.
  - unfold audible. rewrite Ec. f_equal. unfold queue.
    change (take num ?l) with (take num l). rewrite <- fmap_take, take_seq. done.
Qed.
Lemma mix_streams_ok num sts acc :
  Forall ring_ok sts → length acc = num →
  Forall2 (played num) sts (fst (mix_streams num sts acc)) ∧
  snd (mix_streams num sts acc) = foldl add_frames acc (audible num <$> sts).
Proof.
  intros Hok. revert acc. induction Hok as [|st sts Hst Hok IH]; intros acc Hacc;
    [split; [constructor|done]|].
  cbn [mix_streams]. destruct (mix_stream_ok num st acc Hst Hacc) as [Hp Ha].
  destruct (mix_stream num st acc) as [st1 acc1]. cbn [fst snd] in Hp, Ha. subst acc1.
  destruct (IH (add_frames acc (audible num st))) as [Hps Has]; [by rewrite add_frames_length|].
  destruct (mix_streams num sts _) as [sts1 acc2]. cbn [fst snd] in *. split; [by constructor|done].
Qed.
Lemma foldl_add_frames_lookup qs acc i a :
  acc !! i = Some a →
  foldl add_frames acc qs !! i
  = Some (foldl add_frame a ((λ q, default (0, 0) (q !! i)) <$> qs)).
Proof.
  revert acc a. induction qs as [|q qs IH]; intros acc a H; [done|].
  cbn [foldl fmap list_fmap]. apply IH. by apply add_frames_lookup.
Qed.
Lemma foldl_add_frames_length qs acc : length (foldl add_frames acc qs) = length acc.
Proof.
  revert acc. induction qs as [|q qs IH]; intros acc; [done|]. cbn. by rewrite IH, add_frames_length.
Qed.
Definition zsum (l : list Z) : Z := foldr Z.add 0 l.
Lemma sum_frames l a :
  foldl add_frame a l = (fst a + zsum (fst <$> l), snd a + zsum (snd <$> l)).
Proof.
  revert a. induction l as [|f l IH]; intros a; cbn [foldl fmap list_fmap].
  - unfold zsum. cbn. rewrite !Z.add_0_r. by destruct a.
  - rewrite IH. unfold add_frame, zsum. cbn. f_equal; lia.
Qed.

(** The device plays the clipped sum of the streams: a callback for [num] frames
    delivers exactly [num] stereo frames, the i-th being on each side the sum, clipped to
    16 bits, of the i-th buffered frame of every stream that is not corked (silence where
    a stream has run out); every stream loses exactly the frames that were played, counts
    them, and its ring stays well formed. *)
Theorem mixer_correct (num : nat) (sts : list PlaybackStream) :
  Forall ring_ok sts →
  Forall2 (played num) sts (fst (aaudio_cb num sts)) ∧
  length (snd (aaudio_cb num sts)) = num ∧
  ∀ i, (i < num)%nat →
    snd (aaudio_cb num sts) !! i =
      let at_i := (λ st, default (0, 0) (audible num st !! i)) <$> sts in
      Some (clip (zsum (fst <$> at_i)), clip (zsum (snd <$> at_i))).
Proof.
  intros Hok. unfold aaudio_cb.
  destruct (mix_streams_ok num sts (replicate num (0, 0)) Hok) as [Hp Ha];
    [by rewrite length_replicate|].
  destruct (mix_streams _ _ _) as [sts' acc]. cbn [fst snd] in *. subst acc. split; [done|]. split.
  - by rewrite length_fmap, foldl_add_frames_length, length_replicate.
  - intros i Hi. rewrite list_lookup_fmap, (foldl_add_frames_lookup _ _ i (0, 0)).
    + cbn [fmap option_fmap option_map]. rewrite sum_frames. cbn [fst snd].
      rewrite !Z.add_0_l, <- (list_fmap_compose (audible num)). done.
    + by apply lookup_replicate.
Qed.
Definition demo_stream (q : list frame) (c : bool) : PlaybackStream :=
  mk_stream 1 1 default_spec c true 0 0 0 0 0 0 (q ++ replicate (4 - length q) (0, 0)) 4 0
    (length q mod 4) (length q) f64_zero (0, 0) 0.
Lemma mixer_correct_witness :
  Forall ring_ok [demo_stream [(30000, 1); (5, 5)] false; demo_stream [(30000, 2)] false;
                  demo_stream [(7, 7)] true] ∧
  snd (aaudio_cb 3 [demo_stream [(30000, 1); (5, 5)] false; demo_stream [(30000, 2)] false;
                    demo_stream [(7, 7)] true]) !! 0%nat = Some (32767, 3).
Proof.
  assert (Forall ring_ok [demo_stream [(30000, 1); (5, 5)] false; demo_stream [(30000, 2)] false;
                  demo_stream [(7, 7)] true]) as H.
  { repeat (apply Forall_cons; split); try apply Forall_nil; unfold ring_ok; cbn; lia. }
  split; [exact H|]. exact (proj2 (proj2 (mixer_correct 3 _ H)) 0%nat ltac:(lia)).
Defined.

(** Audio of a stream at the rate of the device is a bounded FIFO: pushing a chunk
    decodes its whole frames and appends them, in order, to what is buffered; when the ring
    overflows exactly the oldest frames are dropped, never a newer one, and the ring stays
    well formed. *)
Theorem push_is_fifo (fuel : nat) (st : PlaybackStream) (data : bytes) (device_rate : Z) :
  ring_ok st → rate (spec st) = u32 device_rate → frame_size_bytes (spec st) ≠ 0 →
  let cf := Z.to_nat (frame_size_bytes (spec st)) in
  ∃ st', push_pcm_to_ring fuel st data device_rate = Some st' ∧ ring_ok st' ∧
    queue st' = lastn (ring_frames st)
                  (queue st ++ decoded (length data / cf) 0 data cf (spec st)).
Proof.
  intros Hok Hr Hcf cf. unfold push_pcm_to_ring. fold cf.
  assert (0 ≤ frame_size_bytes (spec st)) by (unfold frame_size_bytes; apply u32_range).
  rewrite (proj2 (Nat.eqb_neq cf 0)) by (unfold cf; lia). rewrite Hr, Z.eqb_refl. cbn [negb andb].
  eexists. split; [done|]. destruct (push_loop_ok (length data / cf) 0 st data cf Hok) as [H1 H2 _].
  done.
Qed.
Lemma push_is_fifo_witness :
  ∃ st', push_pcm_to_ring 0 (demo_stream [(1, 1); (2, 2); (3, 3)] false)
      (bytes_of [4; 0; 4; 0; 255; 255; 0; 128]) 48000 = Some st' ∧ ring_ok st' ∧
    queue st' = [(2, 2); (3, 3); (4, 4); (-1, -32768)].
Proof.
  apply (push_is_fifo 0 (demo_stream [(1, 1); (2, 2); (3, 3)] false)
    (bytes_of [4; 0; 4; 0; 255; 255; 0; 128]) 48000).
  - unfold ring_ok. cbn. lia.
  - done.
  - vm_compute. discriminate.
Defined.

(** Decoding of the other formats, and resampling 24 kHz to 48 kHz. *)
Example decode_formats :
  rd_s16be (bytes_of [0x80; 0x00]) = -32768 ∧ rd_u8 (bytes_of [0]) = -32768 ∧
  rd_s32le (bytes_of [255; 255; 0; 128]) = -32768 ∧
  rd_f32le (bytes_of [0; 0; 0x80; 0xbf]) = -32767 ∧ rd_f32le (bytes_of [0; 0; 0; 0x3f]) = 16383 ∧
  rd_f32le (bytes_of [0; 0; 0x80; 0x7f]) = 32767.
Proof. vm_compute. done. Qed.
Example resample_24k :
  queue <$> push_pcm_to_ring 10
    (with_phase (mk_stream 1 1 (mk_spec PA_SAMPLE_S16LE 1 24000) false true 0 0 0 0 0 0
       (replicate 8 (0, 0)) 8 0 0 0 f64_zero (0, 0) 0) f64_zero (0, 0))
    (bytes_of [100; 0; 200; 0]) 48000
  = Some [(0, 0); (50, 50); (100, 100); (150, 150)].
Proof. vm_compute. done. Qed.
Close Scope Z_scope.
