(* ===== verification/PulseServer.v ===== *)
(** * The PulseAudio server: [alr_audio/alr_pulse_server.cpp]

    One loop accepts clients, reassembles the frames of their byte streams, answers each
    control frame and feeds each data frame to the ring of its stream.  A stream is shared
    by the client that created it and by the mixer: both hold its place in a heap.  The
    answers of the kernel ([send], [recv]) and of the audio device are data of the model. *)

From S2P Require Import Prelude Bytes PulseTag PulseStream.
Open Scope Z_scope.

(** ** Commands *)

Definition PA_COMMAND_ERROR : Z := 0.
Definition PA_COMMAND_REPLY : Z := 2.
Definition PA_COMMAND_CREATE_PLAYBACK_STREAM : Z := 3.
Definition PA_COMMAND_DELETE_PLAYBACK_STREAM : Z := 4.
Definition PA_COMMAND_AUTH : Z := 8.
Definition PA_COMMAND_SET_CLIENT_NAME : Z := 9.
Definition PA_COMMAND_DRAIN_PLAYBACK_STREAM : Z := 12.
Definition PA_COMMAND_GET_PLAYBACK_LATENCY : Z := 14.
Definition PA_COMMAND_GET_SERVER_INFO : Z := 20.
Definition PA_COMMAND_GET_SINK_INFO : Z := 21.
Definition PA_COMMAND_GET_SINK_INFO_LIST : Z := 22.
Definition PA_COMMAND_GET_SOURCE_INFO : Z := 23.
Definition PA_COMMAND_GET_SOURCE_INFO_LIST : Z := 24.
Definition PA_COMMAND_GET_MODULE_INFO_LIST : Z := 26.
Definition PA_COMMAND_GET_CLIENT_INFO : Z := 27.
Definition PA_COMMAND_GET_CLIENT_INFO_LIST : Z := 28.
Definition PA_COMMAND_GET_SINK_INPUT_INFO : Z := 29.
Definition PA_COMMAND_GET_SINK_INPUT_INFO_LIST : Z := 30.
Definition PA_COMMAND_SUBSCRIBE : Z := 35.
Definition PA_COMMAND_SET_SINK_INPUT_VOLUME : Z := 37.
Definition PA_COMMAND_CORK_PLAYBACK_STREAM : Z := 41.
Definition PA_COMMAND_FLUSH_PLAYBACK_STREAM : Z := 42.
Definition PA_COMMAND_TRIGGER_PLAYBACK_STREAM : Z := 43.
Definition PA_COMMAND_SET_PLAYBACK_STREAM_NAME : Z := 46.
Definition PA_COMMAND_REQUEST : Z := 61.
Definition PA_COMMAND_STARTED : Z := 66.
Definition PA_COMMAND_UPDATE_PLAYBACK_STREAM_PROPLIST : Z := 74.
Definition PA_ERR_INVALID : Z := 3.
Definition PA_ERR_NOTSUPPORTED : Z := 19.

(** ** State *)

(** An answer of [send]: that many bytes were taken, the socket is full, or an error. *)
Inductive send_result := Sent (n : nat) | Again | Hard.
(** An answer of the device when its stream is opened: refused, opened at a rate but not
    started, or running at a rate. *)
Inductive open_result := NotOpened | NotStarted (rate : Z) | Running (rate : Z).

(** [net] is what the kernel will answer to the sends of this client, [sent] the bytes it
    has taken; both are the environment of the code. *)
Record Client := mk_client {
  c_index : Z; authed : bool; rbuf : bytes; wbuf : bytes; streams : gmap Z nat;
  net : list send_result; sent : bytes }.
(** [heap] holds the streams, [mix] is [mix_streams]; [audio] is what the device will
    answer when it is opened. *)
Record Server := mk_server {
  device_rate : Z; next_client_index : Z; next_stream_index : Z;
  clients : gmap Z Client; heap : list PlaybackStream; mix : gmap Z nat;
  aaudio : bool; frames_written : Z; active_streams : Z; audio : list open_result }.

Definition with_wbuf (c : Client) (w : bytes) : Client :=
  mk_client (c_index c) (authed c) (rbuf c) w (streams c) (net c) (sent c).
Definition with_rbuf (c : Client) (r : bytes) : Client :=
  mk_client (c_index c) (authed c) r (wbuf c) (streams c) (net c) (sent c).
Definition with_streams (c : Client) (m : gmap Z nat) : Client :=
  mk_client (c_index c) (authed c) (rbuf c) (wbuf c) m (net c) (sent c).
Definition with_authed (c : Client) : Client :=
  mk_client (c_index c) true (rbuf c) (wbuf c) (streams c) (net c) (sent c).

Definition with_clients (s : Server) (m : gmap Z Client) : Server :=
  mk_server (device_rate s) (next_client_index s) (next_stream_index s) m (heap s) (mix s)
    (aaudio s) (frames_written s) (active_streams s) (audio s).
Definition with_heap (s : Server) (h : list PlaybackStream) : Server :=
  mk_server (device_rate s) (next_client_index s) (next_stream_index s) (clients s) h (mix s)
    (aaudio s) (frames_written s) (active_streams s) (audio s).
(** A change of [mix_streams] and the count that follows it. *)
Definition with_mix (s : Server) (m : gmap Z nat) : Server :=
  mk_server (device_rate s) (next_client_index s) (next_stream_index s) (clients s) (heap s) m
    (aaudio s) (frames_written s) (s32 (Z.of_nat (size m))) (audio s).
Definition with_device (s : Server) (r : Z) (a : bool) (o : list open_result) : Server :=
  mk_server r (next_client_index s) (next_stream_index s) (clients s) (heap s) (mix s)
    a (frames_written s) (active_streams s) o.
Definition with_written (s : Server) (n : Z) : Server :=
  mk_server (device_rate s) (next_client_index s) (next_stream_index s) (clients s) (heap s) (mix s)
    (aaudio s) n (active_streams s) (audio s).
Definition with_next (s : Server) (c i : Z) : Server :=
  mk_server (device_rate s) c i (clients s) (heap s) (mix s)
    (aaudio s) (frames_written s) (active_streams s) (audio s).
(** A change of one stream, through whichever pointer. *)
Definition upd_stream (s : Server) (id : nat) (f : PlaybackStream → PlaybackStream) : Server :=
  with_heap s (alter f id (heap s)).

(** A handler works on the server and on the client it serves. *)
Abbreviation conn := (Server * Client)%type.

Definition open_aaudio_locked (s : Server) : Server :=
  if aaudio s then s
  else match audio s with
       | [] => s
       | NotOpened :: o => with_device s (device_rate s) false o
       | NotStarted r :: o => with_device s r false o
       | Running r :: o => with_device s r true o
       end.

(** ** Framing of the answers *)

Definition frame_bytes (chan : Z) (payload : bytes) : bytes :=
  put_be32 (Z.of_nat (length payload)) ++ put_be32 chan ++ put_be32 0 ++ put_be32 0 ++ put_be32 0
  ++ payload.
Definition queue_frame (c : Client) (chan : Z) (payload : bytes) : Client :=
  with_wbuf c (wbuf c ++ frame_bytes chan payload).
Definition queue_command (c : Client) (tw : bytes) : Client := queue_frame c kChannelControl tw.
Definition make_reply (tag : Z) : bytes := put_u32 PA_COMMAND_REPLY ++ put_u32 tag.
Definition queue_error (c : Client) (tag err : Z) : Client :=
  queue_command c (put_u32 PA_COMMAND_ERROR ++ put_u32 tag ++ put_u32 err).
Definition queue_request (c : Client) (stream_index nbytes : Z) : Client :=
  queue_command c (put_u32 PA_COMMAND_REQUEST ++ put_u32 0xFFFFFFFF ++ put_u32 stream_index
                   ++ put_u32 nbytes).
Definition queue_started (c : Client) (stream_index : Z) : Client :=
  queue_command c (put_u32 PA_COMMAND_STARTED ++ put_u32 0xFFFFFFFF ++ put_u32 stream_index).
Definition reply (x : conn) (tag : Z) (body : bytes) : conn :=
  (fst x, queue_command (snd x) (make_reply tag ++ body)).

(** A getter whose result is ignored: the variable keeps its value when it fails. *)
Definition or_else {A} (m : R (option A)) (x : A) : R A := v ← m; mret (default x v).

(** [ok] *)
Definition get_ok : R bool := λ _ s, Some (rd_ok s, s).

(** ** Handlers *)

Definition handle_auth (x : conn) (tag : Z) : R conn :=
  client_version ← or_else get_u32 0;
  let low := Z.land client_version 0xFFFF in
  let ver := if negb (client_version =? 0) && (low <? kProtocolVersion) then low
             else kProtocolVersion in
  mret (reply (fst x, with_authed (snd x)) tag (put_u32 ver)).
Definition handle_set_client_name (x : conn) (tag : Z) : R conn :=
  skip_value;; mret (reply x tag (put_u32 (c_index (snd x)))).
Definition put_sink_info (spec : SampleSpec) (dr : Z) : bytes :=
  put_u32 0 ++ put_string (Some (str "alr-android")) ++ put_string (Some (str "ALR Android Sink"))
  ++ put_sample_spec (mk_spec (format spec) (channels spec) (u32 dr)) ++ put_channel_map_stereo
  ++ put_u32 PA_INVALID_INDEX ++ put_cvolume 2 PA_VOLUME_NORM ++ put_boolean false
  ++ put_u32 PA_INVALID_INDEX ++ put_string (Some (str "alr-android.monitor")) ++ put_usec 0
  ++ put_string (Some (str "alr")) ++ put_u32 1 ++ put_usec 2000000 ++ put_volume PA_VOLUME_NORM
  ++ put_u32 0 ++ put_u32 1 ++ put_u32 PA_INVALID_INDEX ++ put_u32 0 ++ put_empty_proplist.
Definition handle_get_sink_info (x : conn) (tag : Z) (spec : SampleSpec) (dr : Z) : R conn :=
  mret (reply x tag (put_sink_info spec dr)).
Definition handle_get_server_info (x : conn) (tag dr : Z) : R conn :=
  mret (reply x tag
    (put_string (Some (str "pulseaudio")) ++ put_string (Some (str "15.0.0"))
     ++ put_string (Some (str "alr")) ++ put_string (Some (str "android"))
     ++ put_sample_spec (mk_spec PA_SAMPLE_S16LE 2 (u32 dr)) ++ put_string (Some (str "alr-android"))
     ++ put_string (Some (str "alr-android.monitor")) ++ put_u32 0 ++ put_channel_map_stereo)).
Definition handle_get_sink_input_info (x : conn) (tag : Z) : R conn := mret (reply x tag []).

(** The arguments of CREATE_PLAYBACK_STREAM, and whether they could all be read. *)
Record create_args := mk_args {
  a_spec : SampleSpec; a_maxlength : Z; a_corked : bool; a_tlength : Z; a_prebuf : Z; a_minreq : Z }.
Definition parse_create : R (create_args * bool) :=
  get_string;;
  sp ← or_else get_sample_spec default_spec;
  skip_value;;
  get_u32;;
  get_string;;
  maxl ← or_else get_u32 0;
  cork ← or_else get_boolean false;
  tl ← or_else get_u32 0;
  pre ← or_else get_u32 0;
  mr ← or_else get_u32 0;
  get_u32;;
  skip_value;;
  ok ← get_ok;
  mret (mk_args sp maxl cork tl pre mr, ok).
Definition def_or (v d : Z) : Z := if (v =? 0) || (v =? 0xFFFFFFFF) then d else v.
(** The negotiated attributes: tlength, minreq, prebuf, maxlength. *)
Definition negotiate (a : create_args) : Z * Z * Z * Z :=
  let cf := frame_size_bytes (a_spec a) in
  let tlen := def_or (a_tlength a) (u32 (cf * (rate (a_spec a) / 4))) in
  let mreq := def_or (a_minreq a) (u32 (cf * (rate (a_spec a) / 20))) in
  let pre := def_or (a_prebuf a) mreq in
  let maxl := def_or (a_maxlength a) (u32 (tlen * 4)) in
  let mreq := if mreq =? 0 then u32 (cf * 256) else mreq in
  let tlen := if tlen <? mreq then u32 (mreq * 2) else tlen in
  (tlen, mreq, pre, maxl).
Definition kRingFramesDefault : Z := 48000.
Definition ring_size (spec : SampleSpec) (tlen dr : Z) : Z :=
  let cf := frame_size_bytes spec in
  let client_frames := if cf =? 0 then 0 else tlen / cf in
  let dev_frames := if rate spec =? 0 then client_frames
                    else u64 (client_frames * u64 dr) / rate spec in
  if kRingFramesDefault <? u64 (dev_frames + kRingFramesDefault)
  then u64 (dev_frames + kRingFramesDefault) else kRingFramesDefault.
(** The stream a CREATE_PLAYBACK_STREAM makes. *)
Definition new_stream (idx : Z) (a : create_args) (dr : Z) : PlaybackStream :=
  let '(tlen, mreq, pre, maxl) := negotiate a in
  let n := Z.to_nat (ring_size (a_spec a) tlen dr) in
  mk_stream idx idx (a_spec a) (a_corked a) false tlen mreq pre maxl tlen 0
    (replicate n (0, 0)) n 0 0 0 f64_zero (0, 0) 0.
Definition unsupported (sp : SampleSpec) : bool :=
  match decode_client_frame (replicate 8 nul) sp with
  | None => true
  | Some _ => (channels sp =? 0) || (rate sp =? 0) || (192000 <? rate sp)
  end.
Definition handle_create_playback_stream (x : conn) (tag : Z) : R conn :=
  '(a, ok) ← parse_create;
  let '(s, c) := x in
  if negb ok then mret (s, queue_error c tag PA_ERR_INVALID)
  else if unsupported (a_spec a) then mret (s, queue_error c tag PA_ERR_NOTSUPPORTED)
  else
    let idx := next_stream_index s in
    let st := new_stream idx a (device_rate s) in
    let id := length (heap s) in
    let s := with_next s (next_client_index s) (u32 (idx + 1)) in
    let s := with_mix (with_heap s (heap s ++ [st])) (<[idx := id]> (mix s)) in
    let c := with_streams c (<[idx := id]> (streams c)) in
    let s := open_aaudio_locked s in
    let '(s, c) := reply (s, c) tag
      (put_u32 idx ++ put_u32 idx ++ put_u32 (tlength st) ++ put_u32 (maxlength st)
       ++ put_u32 (tlength st) ++ put_u32 (prebuf st) ++ put_u32 (minreq st)
       ++ put_sample_spec (spec st) ++ put_channel_map_stereo ++ put_u32 0
       ++ put_string (Some (str "alr-android")) ++ put_boolean false) in
    mret (s, queue_request c idx (tlength st)).

Definition erase_stream (x : conn) (idx : Z) : conn :=
  (with_mix (fst x) (delete idx (mix (fst x))), with_streams (snd x) (delete idx (streams (snd x)))).
Definition handle_delete_playback_stream (x : conn) (tag : Z) : R conn :=
  idx ← or_else get_u32 0; mret (reply (erase_stream x idx) tag []).
(** A change of the stream the client has under an index, if it has one. *)
Definition on_stream (x : conn) (idx : Z) (f : PlaybackStream → PlaybackStream) : conn :=
  match streams (snd x) !! idx with
  | Some id => (upd_stream (fst x) id f, snd x)
  | None => x
  end.
Definition handle_cork (x : conn) (tag : Z) : R conn :=
  idx ← or_else get_u32 0; cork ← or_else get_boolean false;
  mret (reply (on_stream x idx (λ st, with_corked st cork)) tag []).
Definition flush_stream (st : PlaybackStream) : PlaybackStream :=
  with_phase (with_ring st (ring st) 0 0 0) f64_zero (last st).
Definition handle_flush (x : conn) (tag : Z) : R conn :=
  idx ← or_else get_u32 0; mret (reply (on_stream x idx flush_stream) tag []).
Definition handle_trigger (x : conn) (tag : Z) : R conn :=
  or_else get_u32 0;; mret (reply x tag []).
Definition handle_drain (x : conn) (tag : Z) : R conn :=
  or_else get_u32 0;; mret (reply x tag []).

Definition handle_empty_reply (x : conn) (tag : Z) : R conn := mret (reply x tag []).

Section Pulse.
(** [fuel] bounds the turns of the resampling loop; [timestamp] is the position the device
    reports, if it does. *)
Context (fuel : nat) (timestamp : Server → option Z).

Definition sink_latency (x : conn) (idx : Z) : Z :=
  let s := fst x in
  match streams (snd x) !! idx ≫= (heap s !!.) with
  | Some st =>
      if 0 <? device_rate s then
        let base := u64 (Z.of_nat (fill st) * 1000000) / device_rate s in
        match (if aaudio s then timestamp s else None) with
        | Some fpos =>
            if u64 fpos <? frames_written s
            then u64 (base + u64 ((frames_written s - u64 fpos) * 1000000) / device_rate s)
            else base
        | None => base
        end
      else 0
  | None => 0
  end.
Definition handle_get_playback_latency (x : conn) (tag : Z) : R conn :=
  idx ← or_else get_u32 0;
  skip_value;;
  mret (reply x tag (put_usec (sink_latency x idx) ++ put_usec 0 ++ put_boolean true
                     ++ put_timeval 0 0 ++ put_timeval 0 0 ++ put_s64 0 ++ put_s64 0
                     ++ put_u64 0 ++ put_u64 0)).

(** The commands acknowledged without an effect. *)
Definition stubbed : list Z :=
  [PA_COMMAND_GET_CLIENT_INFO; PA_COMMAND_GET_CLIENT_INFO_LIST; PA_COMMAND_GET_MODULE_INFO_LIST;
   PA_COMMAND_GET_SOURCE_INFO; PA_COMMAND_GET_SOURCE_INFO_LIST; PA_COMMAND_SUBSCRIBE;
   PA_COMMAND_SET_SINK_INPUT_VOLUME; PA_COMMAND_SET_PLAYBACK_STREAM_NAME;
   PA_COMMAND_UPDATE_PLAYBACK_STREAM_PROPLIST].
Definition dispatch_command (x : conn) (command tag : Z) : R conn :=
  let dr := device_rate (fst x) in
  if command =? PA_COMMAND_AUTH then handle_auth x tag
  else if command =? PA_COMMAND_SET_CLIENT_NAME then handle_set_client_name x tag
  else if command =? PA_COMMAND_GET_SERVER_INFO then handle_get_server_info x tag dr
  else if command =? PA_COMMAND_GET_SINK_INFO then handle_get_sink_info x tag default_spec dr
  else if command =? PA_COMMAND_GET_SINK_INFO_LIST then handle_get_sink_info x tag default_spec dr
  else if command =? PA_COMMAND_GET_SINK_INPUT_INFO then handle_get_sink_input_info x tag
  else if command =? PA_COMMAND_GET_SINK_INPUT_INFO_LIST then handle_get_sink_input_info x tag
  else if command =? PA_COMMAND_CREATE_PLAYBACK_STREAM then handle_create_playback_stream x tag
  else if command =? PA_COMMAND_DELETE_PLAYBACK_STREAM then handle_delete_playback_stream x tag
  else if command =? PA_COMMAND_CORK_PLAYBACK_STREAM then handle_cork x tag
  else if command =? PA_COMMAND_FLUSH_PLAYBACK_STREAM then handle_flush x tag
  else if command =? PA_COMMAND_TRIGGER_PLAYBACK_STREAM then handle_trigger x tag
  else if command =? PA_COMMAND_DRAIN_PLAYBACK_STREAM then handle_drain x tag
  else if command =? PA_COMMAND_GET_PLAYBACK_LATENCY then handle_get_playback_latency x tag
  else if bool_decide (command ∈ stubbed) then handle_empty_reply x tag
  else mret (fst x, queue_error (snd x) tag PA_ERR_NOTSUPPORTED).
Definition on_control_frame (x : conn) (payload : bytes) : option conn :=
  fst <$> (command ← get_u32;
           match command with
           | None => mret x
           | Some command =>
               tag ← get_u32;
               match tag with
               | None => mret x
               | Some tag => dispatch_command x command tag
               end
           end) payload rd_init.

(** ** Socket input and output *)

(** The loop of [flush_wbuf]: the bytes left, those taken by the kernel, and the answers
    not yet given. *)
Fixpoint send_loop (w : bytes) (taken : bytes) (answers : list send_result)
    : bytes * bytes * list send_result :=
  match answers with
  | [] => (w, taken, [])
  | r :: answers' =>
      match w with
      | [] => (w, taken, answers)
      | _ => match r with
             | Sent (S n) => send_loop (drop (S n) w) (taken ++ take (S n) w) answers'
             | Again => (w, taken, answers')
             | Sent O | Hard => ([], taken, answers')
             end
      end
  end.
Definition flush_wbuf (c : Client) : Client :=
  let '(w, taken, answers) := send_loop (wbuf c) (sent c) (net c) in
  mk_client (c_index c) (authed c) (rbuf c) w (streams c) answers taken.

Definition on_data_frame (x : conn) (chan : Z) (payload : bytes) : option conn :=
  let '(s, c) := x in
  match streams c !! chan with
  | None => Some x
  | Some id =>
      st ← heap s !! id;
      let len := Z.of_nat (length payload) in
      st' ← push_pcm_to_ring fuel
              (with_counts st (started st) (u64 (received_bytes st + len)) (frames_played st))
              payload (device_rate s);
      let just_started := negb (started st') in
      let st' := with_counts st' true (received_bytes st') (frames_played st') in
      let c := if just_started then queue_started c chan else c in
      let c := queue_request c chan (if minreq st' =? 0 then len else minreq st') in
      Some (upd_stream s id (λ _, st'), flush_wbuf c)
  end.

(** The 32-bit field at an offset of a frame header. *)
Definition hdr_be (h : bytes) (i : nat) : Z :=
  let b k := byte_val (h !!! (i + k)%nat) in
  Z.lor (Z.lor (Z.lor (Z.shiftl (b 0%nat) 24) (Z.shiftl (b 1%nat) 16)) (Z.shiftl (b 2%nat) 8)) (b 3%nat).
(** One turn of the loop of [drain_frames] on the bytes from the offset on. *)
Inductive next_frame := Incomplete | Oversize | Next (chan : Z) (payload rest : bytes).
Definition cut_frame (h : bytes) : next_frame :=
  if (length h <? 20)%nat then Incomplete
  else
    let flen := hdr_be h 0 in
    if kFrameSizeMax <? flen then Oversize
    else if (length h <? 20 + Z.to_nat flen)%nat then Incomplete
    else Next (hdr_be h 4) (take (Z.to_nat flen) (drop 20 h)) (drop (20 + Z.to_nat flen) h).
Definition on_frame (x : conn) (chan : Z) (payload : bytes) : option conn :=
  if chan =? kChannelControl then on_control_frame x payload else on_data_frame x chan payload.
(** The loop: the state, the bytes left, and whether the client may stay. *)
Fixpoint drain_loop (n : nat) (x : conn) (h : bytes) : option (conn * bytes * bool) :=
  match n with
  | O => Some (x, h, true)
  | S n =>
      match cut_frame h with
      | Incomplete => Some (x, h, true)
      | Oversize => Some (x, h, false)
      | Next chan payload rest => x ← on_frame x chan payload; drain_loop n x rest
      end
  end.
(** [drain_frames]: a turn consumes at least the 20 bytes of a header. *)
Definition drain_frames (x : conn) : option (conn * bool) :=
  '(x', h, ok) ← drain_loop (S (length (rbuf (snd x)))) x (rbuf (snd x));
  Some ((fst x', if (ok : bool) then with_rbuf (snd x') h else snd x'), ok).

(** ** Clients *)

Definition close_client (s : Server) (fd : Z) : Server :=
  match clients s !! fd with
  | None => s
  | Some c =>
      let s := with_mix s (map_fold (λ k _ m, delete k m) (mix s) (streams c)) in
      with_clients s (delete fd (clients s))
  end.
(** One turn of [accept_clients] for the descriptor [fd]; [added]: [epoll_ctl] succeeds. *)
Definition accept_client (s : Server) (fd : Z) (added : bool) (answers : list send_result) : Server :=
  let c := mk_client (next_client_index s) false [] [] ∅ answers [] in
  let s := with_next s (u32 (next_client_index s + 1)) (next_stream_index s) in
  let s := with_clients s (<[fd := c]> (clients s)) in
  if added then s else close_client s fd.
(** An answer of [recv]; the end of a list of answers is EAGAIN. *)
Inductive recv_result := Data (b : bytes) | Closed | Interrupted | Failed.
Fixpoint recv_loop (rs : list recv_result) (r : bytes) : option bytes :=
  match rs with
  | [] => Some r
  | Data b :: rs =>
      let r := r ++ b in
      if kFrameSizeMax * 4 <? Z.of_nat (length r) then None else recv_loop rs r
  | Interrupted :: rs => recv_loop rs r
  | Closed :: _ | Failed :: _ => None
  end.
Definition handle_client_readable (s : Server) (fd : Z) (rs : list recv_result) : option Server :=
  match clients s !! fd with
  | None => Some s
  | Some c =>
      match recv_loop rs (rbuf c) with
      | None => Some (close_client s fd)
      | Some r =>
          '((s, c), ok) ← drain_frames (s, with_rbuf c r);
          let put c := with_clients s (<[fd := c]> (clients s)) in
          Some (if (ok : bool) then put (flush_wbuf c) else close_client (put c) fd)
      end
  end.
(** The pass of [epoll_loop] over the clients with pending output. *)
Definition flush_clients (s : Server) : Server :=
  with_clients s ((λ c, match wbuf c with [] => c | _ => flush_wbuf c end) <$> clients s).
(** [aaudio_cb] on the server: the sum does not depend on the order of the map. *)
Definition audio_callback (num : nat) (s : Server) : Server * list frame :=
  let ids := (map_to_list (mix s)).*2 in
  let sts := omap (heap s !!.) ids in
  let '(sts', out) := aaudio_cb num sts in
  (with_written (with_heap s (foldl (λ h p, <[fst p := snd p]> h) (heap s) (zip ids sts')))
     (u64 (frames_written s + Z.of_nat num)), out).
(** [alr_audio_sink_stop] once the loop has ended. *)
Definition sink_stop (s : Server) : Server :=
  with_mix (with_clients (with_device s (device_rate s) false (audio s)) ∅) ∅.
Definition server_init (dr : Z) (answers : list open_result) : Server :=
  mk_server (if dr <=? 0 then 48000 else dr) 1 1 ∅ [] ∅ false 0 0 answers.

(** What the loop, the device and the control thread do, one event at a time.  The kernel
    gives a new connection a descriptor that is not in use. *)
Inductive step (s : Server) : Server → Prop :=
  | step_accept fd added answers : clients s !! fd = None →
      step s (accept_client s fd added answers)
  | step_readable fd rs s' : handle_client_readable s fd rs = Some s' → step s s'
  | step_hangup fd : step s (close_client s fd)
  | step_flush : step s (flush_clients s)
  | step_callback num : step s (fst (audio_callback num s))
  | step_stop : step s (sink_stop s).
Inductive reachable (dr : Z) (answers : list open_result) : Server → Prop :=
  | reach_init : reachable dr answers (server_init dr answers)
  | reach_step s s' : reachable dr answers s → step s s' → reachable dr answers s'.
End Pulse.

(** ** Every handler answers: a logic for the reader *)

(** The cursor of a reader that has not failed is inside the data. *)
Definition safe (d : bytes) (s : rstate) : Prop := rd_ok s = true → (pos s ≤ length d)%nat.
(** The operation reads only inside the data, terminates, and its result has [P]. *)
Definition ensures {A} (m : R A) (P : A → Prop) : Prop :=
  ∀ d s, safe d s → ∃ a s', m d s = Some (a, s') ∧ safe d s' ∧ P a.

Lemma ensures_ret {A} (a : A) (P : A → Prop) : P a → ensures (mret a) P.
Proof. intros H d s Hs. by exists a, s. Qed.
Lemma ensures_bind {A B} (m : R A) (f : A → R B) (Q : A → Prop) (P : B → Prop) :
  ensures m Q → (∀ a, Q a → ensures (f a) P) → ensures (m ≫= f) P.
Proof.
  intros Hm Hf d s Hs. destruct (Hm d s Hs) as (a & s' & E & Hs' & Ha).
  destruct (Hf a Ha d s' Hs') as (b & s'' & E' & Hs'' & Hb). exists b, s''.
  split; [by rewrite (R_bind_Some m f d s a s' E)|done].
Qed.
Lemma ensures_mono {A} (m : R A) (Q P : A → Prop) : (∀ a, Q a → P a) → ensures m Q → ensures m P.
Proof. intros H Hm d s Hs. destruct (Hm d s Hs) as (a & s' & ? & ? & ?). exists a, s'. auto. Qed.
Lemma ensures_or {A} (m : R (option A)) x (P : A → Prop) :
  P x → ensures m (λ v, match v with Some v => P v | None => True end) → ensures (or_else m x) P.
Proof.
  intros Hx Hm. eapply ensures_bind; [exact Hm|]. intros [v|] Hv; by apply ensures_ret.
Qed.
Lemma ensures_ok : ensures get_ok (λ _, True).
Proof. intros d s Hs. by exists (rd_ok s), s. Qed.

(** A getter: it fails, or it stops right behind what it read. *)
Lemma ensures_getter {A} (m : R (option A)) (P : option A → Prop) :
  P None →
  (∀ d p, failed (m d (mk_rd p false))) →
  (∀ d p r, rest d p r → failed (m d (mk_rd p true)) ∨
     ∃ a l r', r = l ++ r' ∧ m d (mk_rd p true) = Some (a, mk_rd (p + length l) true) ∧ P a) →
  ensures m P.
Proof.
  intros HN Hbad Hgood d [p [|]] Hs.
  - pose proof (rest_at d p (Hs eq_refl)) as H.
    destruct (Hgood d p _ H) as [[q E]|(a & l & r' & Hr & E & Ha)].
    + by exists None, (mk_rd q false).
    + exists a, (mk_rd (p + length l) true). split_and!; [done| |done]. intros _.
      rewrite Hr in H. apply (rest_app _ _ _ _) in H. apply H.
  - destruct (Hbad d p) as [q E]. by exists None, (mk_rd q false).
Qed.
Lemma tagged_bad {A} tag n (k : R A) d p : failed (tagged tag n k d (mk_rd p false)).
Proof. by eexists. Qed.

Definition opt_u32 (v : option Z) : Prop := match v with Some v => 0 ≤ v < 2 ^ 32 | None => True end.
Lemma ensures_u32 : ensures get_u32 opt_u32.
Proof.
  apply ensures_getter; [done|intros; apply tagged_bad|]. intros d p r H.
  destruct (get_u32_cases d p r H) as [(v & r' & Hv & -> & E)|Hf]; [right|by left].
  exists (Some v), (put_u32 v), r'. split_and!; [done|rewrite E|done]. done.
Qed.
Lemma ensures_boolean : ensures get_boolean (λ _, True).
Proof.
  apply ensures_getter; [done|by eexists|]. intros d p r H. unfold get_boolean.
  destruct r as [|b r].
  - left. unfold mbind, R_bind. rewrite (run_avail _ _ _ 1 H). by eexists.
  - unfold mbind, R_bind. rewrite (run_avail _ _ _ 1 H). cbn [negb Nat.leb length].
    rewrite (run_next8 _ _ _ _ _ H). destruct (byte_val b =? PA_TAG_BOOLEAN_TRUE).
    + right. by exists (Some true), [b], r.
    + destruct (byte_val b =? PA_TAG_BOOLEAN_FALSE); [|left; by eexists].
      right. by exists (Some false), [b], r.
Qed.
Lemma ensures_skip : ensures skip_value (λ _, True).
Proof.
  apply ensures_getter; [done| |].
  - intros d p. unfold skip_value. rewrite Nat.add_comm. by eexists.
  - intros d p r H. unfold skip_value.
    assert (length r < length d + 2)%nat as Hf by (pose proof (rest_length _ _ _ H); lia).
    destruct (skip_cases _ d p r H Hf) as [(v & r' & Hv & ->)|Hfail]; [right|by left].
    rewrite length_app in Hf. exists (Some tt), v, r'. split_and!; [done| |done].
    apply (run_skip_value v Hv d p r' _ H). lia.
Qed.
Lemma ensures_string : ensures get_string (λ _, True).
Proof.
  apply ensures_getter; [done|by eexists|]. intros d p r H.
  destruct (get_string_cases d p r H) as [(s & r' & _ & -> & E)|[(r' & -> & E)|Hf]]; [| |by left]; right.
  - by exists (Some (Some s)), (wire_string s), r'.
  - by exists (Some None), [byte_of PA_TAG_STRING_NULL], r'.
Qed.
Definition spec_ok (sp : SampleSpec) : Prop :=
  0 ≤ format sp < 256 ∧ 0 ≤ channels sp < 256 ∧ 0 ≤ rate sp < 2 ^ 32.
Lemma ensures_spec :
  ensures get_sample_spec (λ v, match v with Some v => spec_ok v | None => True end).
Proof.
  apply ensures_getter; [done|intros; apply tagged_bad|]. intros d p r H. unfold get_sample_spec.
  destruct (tagged_cases d p PA_TAG_SAMPLE_SPEC 6 (f ← next8; c ← next8; r ← be32; mret (mk_spec f c r)) r H)
    as [(b & l & r' & -> & Hb & Hl)|Hf]; [right|by left].
  destruct l as [|f [|c l]]; [done..|]. destruct (put_be32_inv l ltac:(cbn in Hl; lia)) as (v & Hv & ->).
  exists (Some (mk_spec (byte_val f) (byte_val c) v)), (b :: f :: c :: put_be32 v), r'.
  split_and!; [done| |].
  - eapply (run_tagged d p _ 6 _ b (f :: c :: put_be32 v) r'); [exact H|done|done|].
    apply rest_cons in H. rewrite (R_bind_Some _ _ _ _ _ _ (run_next8 _ _ _ _ _ H)).
    apply rest_cons in H. rewrite (R_bind_Some _ _ _ _ _ _ (run_next8 _ _ _ _ _ H)).
    apply rest_cons in H. rewrite (R_bind_Some _ _ _ _ _ _ (run_be32 _ _ _ _ _ H Hv)).
    unfold mret, R_ret. do 3 f_equal. cbn [length]. rewrite put_be32_length. lia.
  - unfold spec_ok. cbn [format channels rate]. pose proof (byte_val_range f).
    pose proof (byte_val_range c). lia.
Qed.

(** ** The invariant of the server *)

Record stream_ok (st : PlaybackStream) : Prop := {
  sk_ring : ring_ok st;
  sk_channel : channel st = index st;
  sk_minreq : 0 < minreq st;
  sk_format : supported (format (spec st)) = true;
  sk_spec : 0 < channels (spec st) < 256 ∧ 0 < rate (spec st) ≤ 192000;
  sk_size : kRingFramesDefault ≤ Z.of_nat (ring_frames st)
}.
(** The heap, the map of the mixer, the maps of the clients and the count agree: every
    entry points at the stream of that index, and the mixer plays only what a connected
    client owns. *)
Record state_ok (h : list PlaybackStream) (m : gmap Z nat) (ss : gmap Z (gmap Z nat)) (n : Z)
    : Prop := {
  so_heap : ∀ id st, h !! id = Some st → stream_ok st;
  so_mix : ∀ k id, m !! k = Some id → ∃ st, h !! id = Some st ∧ index st = k;
  so_streams : ∀ fd cm k id, ss !! fd = Some cm → cm !! k = Some id →
    ∃ st, h !! id = Some st ∧ index st = k;
  so_owned : ∀ k id, m !! k = Some id → ∃ fd cm, ss !! fd = Some cm ∧ cm !! k = Some id;
  so_active : n = s32 (Z.of_nat (size m))
}.
Definition server_ok (s : Server) : Prop :=
  state_ok (heap s) (mix s) (streams <$> clients s) (active_streams s).
(** The same while a client is being served. *)
Definition conn_ok (fd : Z) (x : conn) : Prop :=
  state_ok (heap (fst x)) (mix (fst x)) (<[fd := streams (snd x)]> (streams <$> clients (fst x)))
    (active_streams (fst x)).

Lemma state_alter h m ss n id (f : PlaybackStream → PlaybackStream) :
  (∀ st, h !! id = Some st → stream_ok st → stream_ok (f st) ∧ index (f st) = index st) →
  state_ok h m ss n → state_ok (alter f id h) m ss n.
Proof.
  intros Hf [Hh Hm Hs Ho Ha].
  assert (∀ j st, h !! j = Some st → ∃ st', alter f id h !! j = Some st' ∧ index st' = index st ∧
            stream_ok st') as Hal.
  { intros j st Hj. destruct (decide (j = id)) as [->|Hne].
    - exists (f st). rewrite list_lookup_alter_eq, Hj. destruct (Hf st Hj (Hh _ _ Hj)). done.
    - exists st. rewrite list_lookup_alter_ne by done. split_and!; [done|done|by eapply Hh]. }
  assert (∀ j k, (∃ st, h !! j = Some st ∧ index st = k) →
            ∃ st, alter f id h !! j = Some st ∧ index st = k) as Hpt.
  { intros j k (st & Hj & <-). destruct (Hal j st Hj) as (st' & ? & ? & _). eauto. }
  split; [|by eauto..|done].
  intros j st Hj. destruct (h !! j) as [st0|] eqn:E0.
  - destruct (Hal j st0 E0) as (st' & E & _ & ?). by rewrite E in Hj; simplify_eq.
  - apply lookup_lt_Some in Hj. rewrite length_alter in Hj. apply lookup_ge_None in E0. lia.
Qed.
(** A new stream enters the heap, the mixer and the map of its client. *)
Lemma state_create h m ss n fd cm k st :
  ss !! fd = Some cm → stream_ok st → index st = k →
  state_ok h m ss n →
  state_ok (h ++ [st]) (<[k := length h]> m) (<[fd := <[k := length h]> cm]> ss)
    (s32 (Z.of_nat (size (<[k := length h]> m)))).
Proof.
  intros Hfd Hst Hk [Hh Hm Hs Ho Ha].
  assert ((h ++ [st]) !! length h = Some st) as Hnew by (by rewrite list_lookup_middle).
  assert (Hold' : ∀ j i, (∃ st', h !! j = Some st' ∧ index st' = i) →
            ∃ st', (h ++ [st]) !! j = Some st' ∧ index st' = i).
  { intros j i (st' & Hj & Hi). exists st'. split; [|done]. by apply lookup_app_l_Some. }
  split; [| | | |done].
  - intros id st' Hid. apply lookup_app_Some in Hid as [Hid|[_ Hid]]; [by eapply Hh|].
    destruct (id - length h)%nat; cbn in Hid; [by injection Hid as ->|done].
  - intros k' id [[<- <-]|[Hne Hid]]%lookup_insert_Some; [by exists st|eauto].
  - intros fd' cm' k' id [[<- <-]|[Hne Hcm]]%lookup_insert_Some Hid; [|eauto].
    apply lookup_insert_Some in Hid as [[<- <-]|[_ Hid]]; [by exists st|eauto].
  - intros k' id [[<- <-]|[Hne Hid]]%lookup_insert_Some.
    + exists fd, (<[k := length h]> cm). by rewrite !lookup_insert_eq.
    + destruct (Ho k' id Hid) as (fd' & cm' & Hf & Hc). destruct (decide (fd' = fd)) as [->|Hn].
      * exists fd, (<[k := length h]> cm). rewrite lookup_insert_eq, lookup_insert_ne by done.
        by simplify_eq.
      * exists fd', cm'. by rewrite lookup_insert_ne.
Qed.
(** Entries leave the mixer, and a client gives up no stream the mixer still has. *)
Lemma state_shrink h m ss n m' ss' :
  (∀ k id, m' !! k = Some id → m !! k = Some id) →
  (∀ fd cm k id, ss' !! fd = Some cm → cm !! k = Some id →
     ∃ cm0, ss !! fd = Some cm0 ∧ cm0 !! k = Some id) →
  (∀ fd cm k id, m' !! k = Some id → ss !! fd = Some cm → cm !! k = Some id →
     ∃ cm', ss' !! fd = Some cm' ∧ cm' !! k = Some id) →
  state_ok h m ss n → state_ok h m' ss' (s32 (Z.of_nat (size m'))).
Proof.
  intros Hsub Hss Hkeep [Hh Hm Hs Ho Ha]. split; [done|eauto| | |done].
  - intros fd cm k id Hf Hc. destruct (Hss _ _ _ _ Hf Hc) as (cm0 & Hf0 & Hc0). eauto.
  - intros k id Hk. destruct (Ho k id (Hsub _ _ Hk)) as (fd & cm & Hf & Hc).
    destruct (Hkeep _ _ _ _ Hk Hf Hc) as (cm' & ? & ?). eauto.
Qed.
Lemma state_erase h m ss n fd cm k :
  ss !! fd = Some cm → state_ok h m ss n →
  state_ok h (delete k m) (<[fd := delete k cm]> ss) (s32 (Z.of_nat (size (delete k m)))).
Proof.
  intros Hfd. apply state_shrink.
  - intros k' id H. by apply lookup_delete_Some in H as [_ ?].
  - intros fd' cm' k' id [[<- <-]|[_ Hf]]%lookup_insert_Some Hc; [|eauto].
    apply lookup_delete_Some in Hc as [_ Hc]. eauto.
  - intros fd' cm' k' id [Hne _]%lookup_delete_Some Hf Hc.
    destruct (decide (fd' = fd)) as [->|Hn]; [|exists cm'; by rewrite lookup_insert_ne].
    exists (delete k cm). rewrite lookup_insert_eq, lookup_delete_ne by done. by simplify_eq.
Qed.

Lemma drop_keys_lookup (cm m : gmap Z nat) k :
  map_fold (λ k _ m, delete k m) m cm !! k = if decide (is_Some (cm !! k)) then None else m !! k.
Proof.
  induction cm as [|i x cm Hi Hfirst IH] using map_first_key_ind.
  - rewrite map_fold_empty, lookup_empty. by destruct (decide _) as [[? [=]]|].
  - rewrite map_fold_insert_first_key by done. destruct (decide (k = i)) as [->|Hne].
    + rewrite lookup_delete_eq, lookup_insert_eq. by rewrite decide_True by eauto.
    + by rewrite lookup_delete_ne, lookup_insert_ne, IH.
Qed.
(** The stream a valid request makes is well formed. *)
Definition args_ok (a : create_args) : Prop :=
  spec_ok (a_spec a) ∧ 0 ≤ a_minreq a < 2 ^ 32.
Lemma sample_size_supported f : supported f = true → 1 ≤ sample_size_bytes f ≤ 4.
Proof.
  unfold supported. rewrite !orb_true_iff, !Z.eqb_eq.
  intros [[[[->| ->]| ->]| ->]| ->]; vm_compute; split; discriminate.
Qed.
Lemma frame_size_range sp :
  supported (format sp) = true → 0 < channels sp < 256 → 1 ≤ frame_size_bytes sp ≤ 1020.
Proof.
  intros Hf Hc. unfold frame_size_bytes. rewrite (proj2 (Z.eqb_neq _ 0)) by lia.
  pose proof (sample_size_supported _ Hf). rewrite u32_small; nia.
Qed.
Lemma unsupported_false sp : unsupported sp = false →
  supported (format sp) = true ∧ channels sp ≠ 0 ∧ rate sp ≠ 0 ∧ rate sp ≤ 192000.
Proof.
  unfold unsupported, decode_client_frame. destruct (supported (format sp)); [|done]. cbn [negb].
  destruct (2 <=? channels sp); rewrite !orb_false_iff, !Z.eqb_neq, Z.ltb_ge; tauto.
Qed.
Lemma negotiate_minreq a : args_ok a → unsupported (a_spec a) = false →
  0 < (negotiate a).1.1.2.
Proof.
  intros [(_ & Hch & Hr) Hm] (Hf & Hc & Hr0 & Hrm)%unsupported_false.
  pose proof (frame_size_range (a_spec a) Hf ltac:(lia)) as Hcf. unfold negotiate. cbn [fst snd].
  destruct (_ =? 0) eqn:E; [rewrite u32_small; lia|].
  apply Z.eqb_neq in E. cut (0 ≤ def_or (a_minreq a) (u32 (frame_size_bytes (a_spec a) * (rate (a_spec a) / 20)))); [lia|].
  unfold def_or. pose proof (u32_range (frame_size_bytes (a_spec a) * (rate (a_spec a) / 20))).
  destruct (_ || _); lia.
Qed.
Lemma ring_size_min sp t dr : kRingFramesDefault ≤ ring_size sp t dr.
Proof.
  unfold ring_size. cbv zeta.
  match goal with |- context [kRingFramesDefault <? ?v] => destruct (Z.ltb_spec kRingFramesDefault v) end; lia.
Qed.
Lemma new_stream_ok idx a dr : args_ok a → unsupported (a_spec a) = false →
  stream_ok (new_stream idx a dr) ∧ index (new_stream idx a dr) = idx.
Proof.
  intros Ha Hu. pose proof (negotiate_minreq a Ha Hu) as Hmin.
  destruct Ha as [(_ & Hch & Hr) _]. apply unsupported_false in Hu as (Hf & Hc & Hr0 & Hrm).
  unfold new_stream. destruct (negotiate a) as [[[tl mr] pre] maxl]. cbn [fst snd] in Hmin.
  pose proof (ring_size_min (a_spec a) tl dr) as Hsz. unfold kRingFramesDefault in Hsz.
  set (n := ring_size (a_spec a) tl dr) in *. split; [|done].
  split; cbn [channel index minreq spec ring_frames]; [|done|done|done|lia|unfold kRingFramesDefault; lia].
  unfold ring_ok. cbn [ring_frames ring head tail fill]. rewrite length_replicate.
  split_and!; [lia|done|lia|lia|]. by rewrite Nat.Div0.mod_0_l.
Qed.

(** Commands other than these are refused. *)
Definition known : list Z :=
  [PA_COMMAND_AUTH; PA_COMMAND_SET_CLIENT_NAME; PA_COMMAND_GET_SERVER_INFO;
   PA_COMMAND_GET_SINK_INFO; PA_COMMAND_GET_SINK_INFO_LIST; PA_COMMAND_GET_SINK_INPUT_INFO;
   PA_COMMAND_GET_SINK_INPUT_INFO_LIST; PA_COMMAND_CREATE_PLAYBACK_STREAM;
   PA_COMMAND_DELETE_PLAYBACK_STREAM; PA_COMMAND_CORK_PLAYBACK_STREAM;
   PA_COMMAND_FLUSH_PLAYBACK_STREAM; PA_COMMAND_TRIGGER_PLAYBACK_STREAM;
   PA_COMMAND_DRAIN_PLAYBACK_STREAM; PA_COMMAND_GET_PLAYBACK_LATENCY] ++ stubbed.
(** Nothing is queued, sent or received between the two states of the client. *)
Definition quiet (x y : conn) : Prop :=
  wbuf (snd y) = wbuf (snd x) ∧ rbuf (snd y) = rbuf (snd x) ∧ sent (snd y) = sent (snd x) ∧
  net (snd y) = net (snd x) ∧ clients (fst y) = clients (fst x).
(** What a command with a tag does: a refusal changes nothing but the output, any other
    command queues one REPLY with the tag, and a created stream is announced, put into the
    client's map and the mixer under its index, and granted its first credit. *)
Inductive outcome (x : conn) (command tag : Z) : conn → Prop :=
  | out_unknown : command ∉ known →
      outcome x command tag (fst x, queue_error (snd x) tag PA_ERR_NOTSUPPORTED)
  | out_refused err : command = PA_COMMAND_CREATE_PLAYBACK_STREAM →
      err ∈ [PA_ERR_INVALID; PA_ERR_NOTSUPPORTED] →
      outcome x command tag (fst x, queue_error (snd x) tag err)
  | out_reply y body : command ∈ known → command ≠ PA_COMMAND_CREATE_PLAYBACK_STREAM →
      quiet x y → outcome x command tag (reply y tag body)
  | out_created y st body : command = PA_COMMAND_CREATE_PLAYBACK_STREAM →
      quiet x y → stream_ok st → index st = next_stream_index (fst x) →
      heap (fst y) = heap (fst x) ++ [st] →
      streams (snd y) !! index st = Some (length (heap (fst x))) →
      mix (fst y) !! index st = Some (length (heap (fst x))) →
      outcome x command tag
        (let z := reply y tag (put_u32 (index st) ++ body) in
         (fst z, queue_request (snd z) (index st) (tlength st))).
Ltac solve_known := unfold known; apply elem_of_app; left; repeat (first [left; reflexivity | right]).
Section handlers.
Context (fuel : nat) (timestamp : Server → option Z) (fd : Z) (x : conn) (tag : Z).

(** A handler whose commands are known and not CREATE. *)
Definition handles (command : Z) (m : R conn) : Prop :=
  ensures m (λ x', outcome x command tag x' ∧ (conn_ok fd x → conn_ok fd x')).
Lemma handles_reply command y body :
  command ∈ known → command ≠ PA_COMMAND_CREATE_PLAYBACK_STREAM → quiet x y →
  (conn_ok fd x → conn_ok fd y) → handles command (mret (reply y tag body)).
Proof. intros Hk Hc Hq Hok. apply ensures_ret. split; [by apply out_reply|done]. Qed.
Lemma quiet_refl : quiet x x.
Proof. done. Qed.
Lemma handles_or {A} (m : R (option A)) d (f : A → R conn) command (P : A → Prop) :
  P d → ensures m (λ v, match v with Some v => P v | None => True end) →
  (∀ a, handles command (f a)) → handles command (or_else m d ≫= f).
Proof. intros Hd Hm Hf. eapply ensures_bind; [by apply ensures_or|]. intros a _. apply Hf. Qed.
Lemma handles_u32 d (f : Z → R conn) command :
  (∀ a, handles command (f a)) → handles command (or_else get_u32 d ≫= f).
Proof.
  apply (handles_or _ _ _ _ (λ _, True)); [done|]. eapply ensures_mono; [|apply ensures_u32].
  by intros [?|].
Qed.
Lemma handles_boolean d (f : bool → R conn) command :
  (∀ a, handles command (f a)) → handles command (or_else get_boolean d ≫= f).
Proof.
  apply (handles_or _ _ _ _ (λ _, True)); [done|]. eapply ensures_mono; [|apply ensures_boolean].
  by intros [?|].
Qed.
Lemma handles_skip (f : option unit → R conn) command :
  (∀ a, handles command (f a)) → handles command (skip_value ≫= f).
Proof. intros Hf. eapply ensures_bind; [apply ensures_skip|]. intros a _. apply Hf. Qed.

(** Through a pointer of the client, a step that keeps the stream well formed. *)
Lemma quiet_on_stream idx f : quiet x (on_stream x idx f).
Proof. unfold on_stream. by destruct (_ !! _). Qed.
Lemma on_stream_ok idx f :
  (∀ st, stream_ok st → stream_ok (f st) ∧ index (f st) = index st) →
  conn_ok fd x → conn_ok fd (on_stream x idx f).
Proof.
  intros Hf. unfold on_stream. destruct (_ !! _) as [id|]; [|done]. unfold conn_ok, upd_stream.
  cbn [fst snd heap mix clients active_streams with_heap]. apply state_alter. auto.
Qed.
Lemma corked_ok st c : stream_ok st → stream_ok (with_corked st c) ∧ index (with_corked st c) = index st.
Proof. by intros [? ? ? ? ? ?]. Qed.
Lemma flush_stream_ok st : stream_ok st → stream_ok (flush_stream st) ∧ index (flush_stream st) = index st.
Proof.
  intros [(Hn & Hl & Hh & Hf & Ht) ? ? ? ? ?]. split; [|done]. split; try done. unfold ring_ok. cbn.
  split_and!; [done|done|lia|lia|]. by rewrite Nat.Div0.mod_0_l.
Qed.
Lemma lookup_streams : (<[fd := streams (snd x)]> (streams <$> clients (fst x))) !! fd = Some (streams (snd x)).
Proof. apply lookup_insert_eq. Qed.
Lemma erase_ok idx : conn_ok fd x → conn_ok fd (erase_stream x idx).
Proof.
  intros H. pose proof (state_erase _ _ _ _ fd _ idx lookup_streams H) as He.
  rewrite insert_insert_eq in He. exact He.
Qed.
Lemma open_aaudio_same s : heap (open_aaudio_locked s) = heap s ∧ mix (open_aaudio_locked s) = mix s ∧
  clients (open_aaudio_locked s) = clients s ∧ active_streams (open_aaudio_locked s) = active_streams s.
Proof. unfold open_aaudio_locked. destruct (aaudio s); [done|]. by destruct (audio s) as [|[]]. Qed.

Lemma ensures_parse_create : ensures parse_create (λ p, args_ok (fst p)).
Proof.
  assert (∀ P : Z → Prop, P 0 → (∀ v, 0 ≤ v < 2 ^ 32 → P v) → ensures (or_else get_u32 0) P) as Hu.
  { intros P H0 HP. apply ensures_or; [done|]. eapply ensures_mono; [|apply ensures_u32].
    intros [v|]; [|done]. apply HP. }
  unfold parse_create.
  eapply ensures_bind; [apply ensures_string|intros _ _].
  eapply ensures_bind; [apply (ensures_or _ _ spec_ok); [repeat split; vm_compute; congruence|apply ensures_spec]|].
  intros sp Hsp.
  eapply ensures_bind; [apply ensures_skip|intros _ _].
  eapply ensures_bind; [apply ensures_u32|intros _ _].
  eapply ensures_bind; [apply ensures_string|intros _ _].
  eapply ensures_bind; [apply (Hu (λ _, True)); done|intros maxl _].
  eapply ensures_bind; [apply (ensures_or _ _ (λ _, True)); [done|]|intros cork _].
  { eapply ensures_mono; [|apply ensures_boolean]. by intros [?|]. }
  eapply ensures_bind; [apply (Hu (λ _, True)); done|intros tl _].
  eapply ensures_bind; [apply (Hu (λ _, True)); done|intros pre _].
  eapply ensures_bind; [apply (Hu (λ v, 0 ≤ v < 2 ^ 32)); [lia|done]|intros mr Hmr].
  eapply ensures_bind; [apply ensures_u32|intros _ _].
  eapply ensures_bind; [apply ensures_skip|intros _ _].
  eapply ensures_bind; [apply ensures_ok|intros ok _].
  by apply ensures_ret.
Qed.
Lemma handles_create : handles PA_COMMAND_CREATE_PLAYBACK_STREAM (handle_create_playback_stream x tag).
Proof.
  unfold handle_create_playback_stream. eapply ensures_bind; [apply ensures_parse_create|].
  intros [a ok] Ha. cbn [fst] in Ha. destruct x as [s c] eqn:Ex.
  destruct ok; cbn [negb]; [|apply ensures_ret; split; [by apply out_refused; [|left]|done]].
  destruct (unsupported (a_spec a)) eqn:Hu.
  { apply ensures_ret. split; [by apply out_refused; [|right; left]|done]. }
  cbv zeta. set (idx := next_stream_index s). set (st := new_stream idx a (device_rate s)).
  destruct (new_stream_ok idx a (device_rate s) Ha Hu) as [Hst Hidx]. fold st in Hst, Hidx.
  set (s1 := with_mix _ _). destruct (open_aaudio_same s1) as (Hh & Hm & Hc & Hn).
  set (s2 := open_aaudio_locked s1) in *. unfold reply at 1. cbn [fst snd]. apply ensures_ret. split.
  - rewrite <- Hidx at 2 3. 
    eapply (out_created (s, c) _ tag (s2, with_streams c (<[idx:=length (heap s)]> (streams c))) st _);
      try done; cbn [fst snd streams with_streams].
    + rewrite Hidx. apply lookup_insert_eq.
    + rewrite Hidx, Hm. apply lookup_insert_eq.
  - unfold conn_ok at 2. cbn [fst snd]. rewrite Hh, Hm, Hc, Hn. intros Hok.
    pose proof (state_create _ _ _ _ fd _ idx st (lookup_insert_eq _ _ _) Hst Hidx Hok) as H.
    rewrite insert_insert_eq in H. exact H.
Qed.

Lemma handles_dispatch command : handles command (dispatch_command timestamp x command tag).
Proof.
  assert (∀ c y body, command = c → c ∈ known → c ≠ PA_COMMAND_CREATE_PLAYBACK_STREAM → quiet x y →
            (conn_ok fd x → conn_ok fd y) → handles command (mret (reply y tag body))) as Hr.
  { intros c y body -> ? ? ? ?. by apply handles_reply. }
  unfold dispatch_command. cbv zeta.
  destruct (Z.eqb_spec command PA_COMMAND_AUTH) as [E|E0].
  { apply handles_u32. intros v. eapply Hr; [exact E|solve_known|done|done|intros H; exact H]. }
  destruct (Z.eqb_spec command PA_COMMAND_SET_CLIENT_NAME) as [E|E1].
  { apply handles_skip. intros v. by eapply Hr; [exact E|solve_known|..]. }
  destruct (Z.eqb_spec command PA_COMMAND_GET_SERVER_INFO) as [E|E2].
  { by eapply Hr; [exact E|solve_known|..]. }
  destruct (Z.eqb_spec command PA_COMMAND_GET_SINK_INFO) as [E|E3].
  { by eapply Hr; [exact E|solve_known|..]. }
  destruct (Z.eqb_spec command PA_COMMAND_GET_SINK_INFO_LIST) as [E|E4].
  { by eapply Hr; [exact E|solve_known|..]. }
  destruct (Z.eqb_spec command PA_COMMAND_GET_SINK_INPUT_INFO) as [E|E5].
  { by eapply Hr; [exact E|solve_known|..]. }
  destruct (Z.eqb_spec command PA_COMMAND_GET_SINK_INPUT_INFO_LIST) as [E|E6].
  { by eapply Hr; [exact E|solve_known|..]. }
  destruct (Z.eqb_spec command PA_COMMAND_CREATE_PLAYBACK_STREAM) as [->|E7].
  { apply handles_create. }
  destruct (Z.eqb_spec command PA_COMMAND_DELETE_PLAYBACK_STREAM) as [E|E8].
  { apply handles_u32. intros v. by eapply Hr; [exact E|solve_known| | |apply erase_ok]. }
  destruct (Z.eqb_spec command PA_COMMAND_CORK_PLAYBACK_STREAM) as [E|E9].
  { apply handles_u32. intros v. apply handles_boolean. intros b.
    eapply Hr; [exact E|solve_known|done|apply quiet_on_stream|]. apply on_stream_ok.
    intros st. apply corked_ok. }
  destruct (Z.eqb_spec command PA_COMMAND_FLUSH_PLAYBACK_STREAM) as [E|E10].
  { apply handles_u32. intros v. eapply Hr; [exact E|solve_known|done|apply quiet_on_stream|].
    apply on_stream_ok, flush_stream_ok. }
  destruct (Z.eqb_spec command PA_COMMAND_TRIGGER_PLAYBACK_STREAM) as [E|E11].
  { apply handles_u32. intros v. by eapply Hr; [exact E|solve_known|..]. }
  destruct (Z.eqb_spec command PA_COMMAND_DRAIN_PLAYBACK_STREAM) as [E|E12].
  { apply handles_u32. intros v. by eapply Hr; [exact E|solve_known|..]. }
  destruct (Z.eqb_spec command PA_COMMAND_GET_PLAYBACK_LATENCY) as [E|E13].
  { apply handles_u32. intros v. apply handles_skip. intros u. by eapply Hr; [exact E|solve_known|..]. }
  destruct (bool_decide_reflect (command ∈ stubbed)) as [Hin|Hout].
  { apply handles_reply; [apply elem_of_app; by right|done|done|done]. }
  apply ensures_ret. split; [|done]. apply out_unknown. unfold known. rewrite elem_of_app.
  intros [Hk|Hk]; [|done]. repeat (apply elem_of_cons in Hk as [Hk|Hk]; [done|]). by apply elem_of_nil in Hk.
Qed.
End handlers.

(** A control frame carries a command and a tag if it starts with two 32-bit values. *)
Definition carries (payload : bytes) (command tag : Z) : Prop :=
  0 ≤ command < 2 ^ 32 ∧ 0 ≤ tag < 2 ^ 32 ∧ ∃ args, payload = put_u32 command ++ put_u32 tag ++ args.

Lemma control_frame_cases timestamp fd x payload :
  ∃ x', on_control_frame timestamp x payload = Some x' ∧ (conn_ok fd x → conn_ok fd x') ∧
    ((∃ command tag, carries payload command tag ∧ outcome x command tag x') ∨
     (¬ (∃ command tag, carries payload command tag) ∧ x' = x)).
Proof.
  unfold on_control_frame, rd_init.
  destruct (get_u32_cases payload 0 payload (rest_init payload)) as [(cmd & r & Hc & Hp & E)|[q E]].
  - rewrite (R_bind_Some _ _ _ _ _ _ E). pose proof (rest_init payload) as H1. rewrite Hp in H1 at 2.
    apply rest_app in H1. change (0 + length (put_u32 cmd))%nat with 5%nat in H1.
    destruct (get_u32_cases payload 5 r H1) as [(tag & r' & Ht & -> & E')|[q E']];
      rewrite (R_bind_Some _ _ _ _ _ _ E').
    + apply rest_app in H1. destruct (handles_dispatch timestamp fd x tag cmd payload (mk_rd (5 + 5) true))
        as (x' & s' & Ed & _ & Hout & Hok). { intros _. apply H1. }
      rewrite Ed. exists x'. split_and!; [done|exact Hok|]. left. exists cmd, tag.
      split; [|exact Hout]. split; [exact Hc|]. split; [exact Ht|]. by exists r'.
    + exists x. split_and!; [done|done|]. right. split; [|done].
      intros (c & t & _ & Ht & args & Hpay). rewrite Hp in Hpay.
      apply app_inj_1 in Hpay as [_ ->]; [|done].
      rewrite (run_get_u32 payload 5 t args H1 Ht) in E'. done.
  - rewrite (R_bind_Some _ _ _ _ _ _ E). exists x. split_and!; [done|done|]. right. split; [|done].
    intros (c & t & Hc & _ & args & Hpay). pose proof (rest_init payload) as H. rewrite Hpay in H at 2.
    by rewrite (run_get_u32 payload 0 c _ H Hc) in E.
Qed.

(** ** Data frames *)

(** What the server makes of the numbers it keeps about a stream is left alone. *)
Lemma ident_stream_ok st st' : ident st' = ident st → ring_ok st' → stream_ok st →
  stream_ok st' ∧ index st' = index st.
Proof.
  unfold ident. intros [= Hi Hc Hs _ _ _ Hm _ Hn] Hr [_ H1 H2 H3 H4 H5].
  split; [|done]. split; congruence.
Qed.

(** Sending loses nothing and keeps the order, unless the socket fails: then what was not
    yet taken is dropped. *)
Inductive flushed (pending : bytes) (c c' : Client) : Prop :=
  | fl_kept : sent c' ++ wbuf c' = sent c ++ pending → flushed pending c c'
  | fl_failed : wbuf c' = [] → sent c' `prefix_of` sent c ++ pending → flushed pending c c'.
Lemma send_loop_ok answers w taken :
  let '(w', taken', _) := send_loop w taken answers in
  taken' ++ w' = taken ++ w ∨ (w' = [] ∧ taken' `prefix_of` taken ++ w).
Proof.
  revert w taken. induction answers as [|r answers IH]; intros w taken; cbn [send_loop]; [by left|].
  destruct w as [|b w]; [by left|]. destruct r as [[|n]| |]; [right|  |by left|right].
  - split; [done|]. by exists (b :: w).
  - specialize (IH (drop (S n) (b :: w)) (taken ++ take (S n) (b :: w))).
    by rewrite <- app_assoc, take_drop in IH.
  - split; [done|]. by exists (b :: w).
Qed.
Lemma flush_wbuf_ok c : flushed (wbuf c) c (flush_wbuf c).
Proof.
  unfold flush_wbuf. pose proof (send_loop_ok (net c) (wbuf c) (sent c)) as H.
  destruct (send_loop _ _ _) as [[w t] a]. destruct H as [H|[H1 H2]]; [by apply fl_kept|by apply fl_failed].
Qed.
Lemma flush_wbuf_same c : streams (flush_wbuf c) = streams c ∧ rbuf (flush_wbuf c) = rbuf c.
Proof. unfold flush_wbuf. by destruct (send_loop _ _ _) as [[? ?] ?]. Qed.

(** The notifications a data frame queues. *)
Definition credit (st : PlaybackStream) (chan : Z) : bytes :=
  (if started st then [] else
     frame_bytes kChannelControl (put_u32 PA_COMMAND_STARTED ++ put_u32 0xFFFFFFFF ++ put_u32 chan)) ++
  frame_bytes kChannelControl (put_u32 PA_COMMAND_REQUEST ++ put_u32 0xFFFFFFFF ++ put_u32 chan
                               ++ put_u32 (minreq st)).
(** The stream [st] after the data of one frame. *)
Record fed (st st' : PlaybackStream) (payload : bytes) (fs : list frame) : Prop := {
  fd_ok : stream_ok st';
  fd_queue : queue st' = lastn (ring_frames st) (queue st ++ fs);
  fd_started : started st' = true;
  fd_received : received_bytes st' = u64 (received_bytes st + Z.of_nat (length payload));
  fd_index : index st' = index st
}.
Lemma data_frame_cases fuel s c chan payload id st :
  streams c !! chan = Some id → heap s !! id = Some st → stream_ok st →
  match push_pcm_to_ring fuel
          (with_counts st (started st) (u64 (received_bytes st + Z.of_nat (length payload)))
             (frames_played st)) payload (device_rate s) with
  | None => on_data_frame fuel (s, c) chan payload = None
  | Some st2 => ∃ st' c' fs,
      on_data_frame fuel (s, c) chan payload = Some (upd_stream s id (λ _, st'), c') ∧
      written (with_counts st (started st) (u64 (received_bytes st + Z.of_nat (length payload)))
             (frames_played st)) st2 fs ∧
      fed st st' payload fs ∧ queue st' = queue st2 ∧
      flushed (wbuf c ++ credit st chan) c c' ∧ streams c' = streams c ∧ rbuf c' = rbuf c
  end.
Proof.
  intros Hc Hh Hst. pose proof (sk_minreq _ Hst) as Hmin. unfold on_data_frame. rewrite Hc, Hh.
  cbn [mbind option_bind]. set (len := Z.of_nat (length payload)). set (st1 := with_counts st _ _ _).
  destruct (push_pcm_to_ring fuel st1 payload (device_rate s)) as [st2|] eqn:Ep; [|done]. cbn [mbind option_bind].
  assert (ring_ok st1) as Hr1 by apply Hst.
  destruct (push_pcm_ok _ _ _ _ _ Hr1 Ep) as [fs Hw]. exists (with_counts st2 true (received_bytes st2) (frames_played st2)).
  eexists _, fs. split; [done|]. split; [done|]. pose proof (wr_ident _ _ _ Hw) as Hi.
  assert (minreq st2 = minreq st ∧ started st2 = started st) as [Hm2 Hs2] by (injection Hi; done).
  split; [|split; [done|]].
  - split.
    + destruct (ident_stream_ok st (with_counts st2 (started st) (received_bytes st) (frames_played st2))) as [H _].
      * unfold ident in *. cbn in *. congruence.
      * apply Hw.
      * done.
      * destruct H. by split.
    + exact (wr_queue _ _ _ Hw).
    + done.
    + by injection Hi.
    + by injection Hi.
  - cbn [minreq with_counts]. rewrite Hm2, Hs2. rewrite (proj2 (Z.eqb_neq (minreq st) 0)) by lia.
    set (c1 := queue_request _ _ _). destruct (flush_wbuf_same c1) as [-> ->].
    assert (wbuf c1 = wbuf c ++ credit st chan ∧ sent c1 = sent c ∧ streams c1 = streams c ∧ rbuf c1 = rbuf c)
      as (Hw1 & Hs1 & -> & ->).
    { unfold c1, credit. destruct (started st); cbn; by rewrite <- ?app_assoc. }
    split; [|done]. pose proof (flush_wbuf_ok c1) as [H|H1 H2]; rewrite Hw1, Hs1 in *;
      [by apply fl_kept|by apply fl_failed].
Qed.
Lemma data_frame_ok fuel fd x chan payload x' :
  on_data_frame fuel x chan payload = Some x' → conn_ok fd x → conn_ok fd x'.
Proof.
  destruct x as [s c]. intros E Hok. destruct (streams c !! chan) as [id|] eqn:Hc.
  - destruct (so_streams _ _ _ _ Hok fd (streams c) chan id) as (st & Hh & Hi);
      [apply lookup_insert_eq|done|]. cbn [fst] in Hh.
    pose proof (so_heap _ _ _ _ Hok _ _ Hh) as Hst.
    pose proof (data_frame_cases fuel s c chan payload id st Hc Hh Hst) as H.
    destruct (push_pcm_to_ring _ _ _ _); [|congruence].
    destruct H as (st' & c' & fs & E' & _ & Hf & _ & _ & Hs & _). rewrite E' in E. injection E as <-.
    unfold conn_ok, upd_stream. cbn [fst snd heap mix clients active_streams with_heap]. rewrite Hs.
    apply state_alter; [|exact Hok]. intros st0 H0 _. rewrite Hh in H0. injection H0 as <-.
    split; apply Hf.
  - unfold on_data_frame in E. rewrite Hc in E. by injection E as <-.
Qed.

(** ** Reassembly does not depend on how the stream was cut *)

Definition setr (r : bytes) (x : conn) : conn := (fst x, with_rbuf (snd x) r).

Ltac run_reads d :=
  repeat match goal with
    | |- context [match ?m d ?s with Some _ => _ | None => _ end] =>
        destruct (m d s) as [[? ?]|]; try reflexivity
    end.
(** No handler looks at the bytes received. *)
Lemma create_rbuf x tag r d s :
  handle_create_playback_stream (setr r x) tag d s =
  match handle_create_playback_stream x tag d s with
  | Some (x', s') => Some (setr r x', s')
  | None => None
  end.
Proof.
  destruct x as [sv c]. unfold handle_create_playback_stream, mbind, R_bind.
  destruct (parse_create d s) as [[[a [|]] s']|]; [|done..]. cbn [setr fst snd negb].
  by destruct (unsupported (a_spec a)).
Qed.
Lemma handle_rbuf timestamp x command tag r d s :
  dispatch_command timestamp (setr r x) command tag d s =
  match dispatch_command timestamp x command tag d s with
  | Some (x', s') => Some (setr r x', s')
  | None => None
  end.
Proof.
  destruct x as [sv c]. unfold dispatch_command. cbn [setr fst snd].
  repeat match goal with |- context [if ?b then _ else _] => destruct b end;
    try reflexivity; try apply create_rbuf;
    unfold handle_auth, handle_set_client_name,
      handle_delete_playback_stream, handle_cork, handle_flush, handle_trigger, handle_drain,
      handle_get_playback_latency, or_else, mbind, R_bind, mret, R_ret, on_stream, sink_latency;
    cbn [setr fst snd streams with_rbuf]; run_reads d;
    repeat match goal with
      | |- context [streams c !! ?i] => destruct (streams c !! i); try reflexivity
      end.
Qed.
Lemma on_frame_rbuf fuel timestamp x chan payload r :
  on_frame fuel timestamp (setr r x) chan payload = setr r <$> on_frame fuel timestamp x chan payload.
Proof.
  unfold on_frame. destruct (chan =? kChannelControl).
  - unfold on_control_frame, mbind, R_bind. destruct (get_u32 payload rd_init) as [[[cmd|] s]|]; [|done..].
    destruct (get_u32 payload s) as [[[tag|] s']|]; [|done..]. rewrite handle_rbuf.
    by destruct (dispatch_command _ _ _ _ _ _) as [[? ?]|].
  - destruct x as [s c]. unfold on_data_frame, setr. cbn [fst snd streams with_rbuf].
    destruct (streams c !! chan) as [id|]; [|done]. destruct (heap s !! id) as [st|]; [|done].
    cbn [mbind option_bind]. destruct (push_pcm_to_ring _ _ _ _) as [st'|]; [|done]. cbn [mbind option_bind].
    cbn [fmap option_fmap option_map fst snd]. do 2 f_equal. 
    unfold flush_wbuf, queue_request, queue_started, queue_command, queue_frame.
    destruct (negb (started st')); cbn [wbuf sent net with_wbuf with_rbuf];
      by destruct (send_loop _ _ _) as [[? ?] ?].
Qed.

Section drain.
Context (fuel : nat) (timestamp : Server → option Z).
Abbreviation drain_loop' := (drain_loop fuel timestamp).
Definition setr3 (r : bytes) (o : conn * bytes * bool) : conn * bytes * bool :=
  (setr r o.1.1, o.1.2, o.2).
Lemma drain_loop_rbuf n x h r : drain_loop' n (setr r x) h = setr3 r <$> drain_loop' n x h.
Proof.
  revert x h. induction n as [|n IH]; intros x h; [done|]. cbn [drain_loop].
  destruct (cut_frame h) as [| |chan payload rest]; [done..|]. rewrite on_frame_rbuf.
  destruct (on_frame _ _ _ _ _) as [x'|]; [|done]. apply IH.
Qed.

(** Cutting a frame off a longer stream. *)
Lemma hdr_be_app h b i : (i + 4 ≤ length h)%nat → hdr_be (h ++ b) i = hdr_be h i.
Proof. intros H. unfold hdr_be. by rewrite !lookup_total_app_l by lia. Qed.
Lemma cut_frame_app h b :
  match cut_frame h with
  | Incomplete => True
  | Oversize => cut_frame (h ++ b) = Oversize
  | Next chan payload rest => cut_frame (h ++ b) = Next chan payload (rest ++ b)
  end.
Proof.
  unfold cut_frame. destruct (Nat.ltb_spec (length h) 20) as [|Hl]; [done|]. rewrite length_app.
  rewrite (proj2 (Nat.ltb_ge (length h + length b) 20)), !hdr_be_app by lia.
  destruct (kFrameSizeMax <? hdr_be h 0); [done|].
  destruct (Nat.ltb_spec (length h) (20 + Z.to_nat (hdr_be h 0))) as [|Hf]; [done|].
  rewrite (proj2 (Nat.ltb_ge (length h + length b) _)) by lia.
  rewrite !drop_app_le, take_app_le by (rewrite ?length_drop; lia). done.
Qed.
Lemma cut_frame_shorter h chan payload rest :
  cut_frame h = Next chan payload rest → (length rest + 20 ≤ length h)%nat.
Proof.
  unfold cut_frame. destruct (Nat.ltb_spec (length h) 20); [done|]. destruct (_ <? _); [done|].
  destruct (Nat.ltb_spec (length h) (20 + Z.to_nat (hdr_be h 0))); [done|]. intros [= _ _ <-].
  rewrite length_drop. lia.
Qed.
(** Any bound above the length of the data is enough. *)
Lemma drain_loop_enough n m x h : (length h < n)%nat → (length h < m)%nat →
  drain_loop' n x h = drain_loop' m x h.
Proof.
  revert m x h. induction n as [|n IH]; intros [|m] x h Hn Hm; [lia..|]. cbn [drain_loop].
  destruct (cut_frame h) as [| |chan payload rest] eqn:E; [done..|].
  apply cut_frame_shorter in E. destruct (on_frame _ _ _ _ _) as [x'|]; [|done].
  apply IH; lia.
Qed.
Lemma drain_loop_rest n x h x' h' ok : drain_loop' n x h = Some (x', h', ok) → (length h' ≤ length h)%nat.
Proof.
  revert x h. induction n as [|n IH]; intros x h; [by intros [= _ <- _]|]. cbn [drain_loop].
  destruct (cut_frame h) as [| |chan payload rest] eqn:E; [by intros [= _ <- _]..|].
  apply cut_frame_shorter in E. destruct (on_frame _ _ _ _ _) as [x1|]; [|done].
  intros H%IH. lia.
Qed.
Lemma drain_loop_app n x h b m :
  (length h < n)%nat → (length (h ++ b) < m)%nat →
  drain_loop' m x (h ++ b) =
    '(x', h', ok) ← drain_loop' n x h;
    if (ok : bool) then drain_loop' m x' (h' ++ b) else Some (x', h' ++ b, false).
Proof.
  revert m x h. induction n as [|n IH]; intros [|m] x h Hn Hm; [lia..|].
  cbn [drain_loop]. pose proof (cut_frame_app h b) as Hcut.
  destruct (cut_frame h) as [| |chan payload rest] eqn:E; [done|by rewrite Hcut|].
  rewrite Hcut. apply cut_frame_shorter in E. rewrite length_app in Hm.
  destruct (on_frame _ _ _ _ _) as [x1|]; [|done]. cbn [mbind option_bind].
  rewrite (IH m x1 rest) by (rewrite ?length_app; lia).
  destruct (drain_loop' n x1 rest) as [[[x2 h2] [|]]|] eqn:E2; [|done..]. cbn [mbind option_bind].
  apply drain_loop_rest in E2. change (drain_loop' m x2 (h2 ++ b) = drain_loop' (S m) x2 (h2 ++ b)).
  apply drain_loop_enough; rewrite length_app; lia.
Qed.

(** Bytes arrive on the socket of a client; once it is refused, what it sends and what is
    left in its buffer no longer matter. *)
Definition settle (o : conn * bool) : conn * bool := if snd o then o else (setr [] (fst o), false).
Definition feed (st : conn * bool) (b : bytes) : option (conn * bool) :=
  if snd st then
    settle <$> drain_frames fuel timestamp (setr (rbuf (snd (fst st)) ++ b) (fst st))
  else Some st.
Lemma drain_frames_eq x h :
  settle <$> drain_frames fuel timestamp (setr h x) =
    '(x', h', ok) ← drain_loop' (S (length h)) x h;
    Some (if (ok : bool) then (setr h' x', true) else (setr [] x', false)).
Proof.
  unfold drain_frames. cbn [setr snd rbuf with_rbuf]. change (fst x, with_rbuf (snd x) h) with (setr h x).
  rewrite drain_loop_rbuf. destruct (drain_loop' _ _ _) as [[[x' h'] [|]]|]; done.
Qed.
Lemma feed_true x b :
  feed (x, true) b =
    '(x', h', ok) ← drain_loop' (S (length (rbuf (snd x) ++ b))) x (rbuf (snd x) ++ b);
    Some (if (ok : bool) then (setr h' x', true) else (setr [] x', false)).
Proof. apply drain_frames_eq. Qed.
Lemma feed_app st a b : (st' ← feed st a; feed st' b) = feed st (a ++ b).
Proof.
  destruct st as [x [|]]; [|done]. rewrite !feed_true, app_assoc. set (h := rbuf (snd x) ++ a).
  rewrite (drain_loop_app (S (length h)) x h b) by lia.
  destruct (drain_loop' (S (length h)) x h) as [[[x' h'] [|]]|] eqn:E; [|done..].
  cbn [mbind option_bind]. rewrite feed_true. cbn [setr snd rbuf with_rbuf].
  change (fst x', with_rbuf (snd x') h') with (setr h' x'). rewrite drain_loop_rbuf.
  apply drain_loop_rest in E.
  rewrite (drain_loop_enough (S (length (h ++ b))) (S (length (h' ++ b))))
    by (rewrite !length_app; lia).
  by destruct (drain_loop' _ x' (h' ++ b)) as [[[x2 h2] [|]]|].
Qed.
End drain.


(** ** The life of the server *)

Lemma drain_loop_ok fuel timestamp fd n x h x' h' ok :
  drain_loop fuel timestamp n x h = Some (x', h', ok) → conn_ok fd x → conn_ok fd x'.
Proof.
  revert x h. induction n as [|n IH]; intros x h; [by intros [= <- _ _]|]. cbn [drain_loop].
  destruct (cut_frame h) as [| |chan payload rest]; [by intros [= <- _ _]..|].
  destruct (on_frame fuel timestamp x chan payload) as [x1|] eqn:E; [|done].
  intros H Hok. eapply IH; [exact H|]. unfold on_frame in E. destruct (chan =? kChannelControl).
  - destruct (control_frame_cases timestamp fd x payload) as (y & E' & Hy & _).
    rewrite E in E'. injection E' as <-. auto.
  - eapply data_frame_ok; eauto.
Qed.
Lemma server_of_conn s fd c :
  conn_ok fd (s, c) ↔ server_ok (with_clients s (<[fd := c]> (clients s))).
Proof. unfold conn_ok, server_ok. cbn. by rewrite fmap_insert. Qed.
Lemma conn_of_server s fd c : server_ok s → clients s !! fd = Some c → conn_ok fd (s, c).
Proof.
  intros H Hc. unfold conn_ok. cbn [fst snd]. rewrite insert_id; [exact H|].
  by rewrite lookup_fmap, Hc.
Qed.
Lemma close_client_ok s fd : server_ok s → server_ok (close_client s fd).
Proof.
  intros Hok. unfold close_client. destruct (clients s !! fd) as [c|] eqn:Hc; [|done].
  unfold server_ok. cbn [heap mix clients active_streams with_clients with_mix].
  rewrite fmap_delete. revert Hok. apply state_shrink.
  - intros k id. rewrite drop_keys_lookup. by destruct (decide _).
  - intros fd' cm k id [_ Hf]%lookup_delete_Some Hk. eauto.
  - intros fd' cm k id Hm Hf Hk. rewrite drop_keys_lookup in Hm.
    destruct (decide (is_Some (streams c !! k))) as [Hs|Hs]; [done|].
    exists cm. split; [|done]. rewrite lookup_delete_ne; [done|]. intros ->.
    rewrite lookup_fmap, Hc in Hf. injection Hf as <-. apply Hs. by exists id.
Qed.
Lemma accept_client_ok s fd added answers :
  clients s !! fd = None → server_ok s → server_ok (accept_client s fd added answers).
Proof.
  intros Hfd [Hh Hm Hs Ho Ha]. unfold accept_client.
  set (s1 := with_clients _ _). assert (server_ok s1) as H1.
  { unfold server_ok, s1. cbn [heap mix clients active_streams with_clients with_next].
    rewrite fmap_insert. cbn [streams]. split; [done|done| | |done].
    - intros fd' cm k id [[<- <-]|[_ Hf]]%lookup_insert_Some Hk; [by rewrite lookup_empty in Hk|eauto].
    - intros k id Hk. destruct (Ho k id Hk) as (fd' & cm & Hf & Hc). exists fd', cm.
      split; [|done]. rewrite lookup_insert_ne; [done|]. intros <-.
      by rewrite lookup_fmap, Hfd in Hf. }
  destruct added; [done|by apply close_client_ok].
Qed.
Lemma readable_ok fuel timestamp s fd rs s' :
  handle_client_readable fuel timestamp s fd rs = Some s' → server_ok s → server_ok s'.
Proof.
  intros E Hok. unfold handle_client_readable in E. destruct (clients s !! fd) as [c|] eqn:Hc;
    [|by injection E as <-].
  destruct (recv_loop rs (rbuf c)) as [r|]; [|injection E as <-; by apply close_client_ok].
  unfold drain_frames in E. cbn [snd rbuf with_rbuf] in E.
  destruct (drain_loop _ _ _ _ _) as [[[[s1 c1] h] ok]|] eqn:Ed; [|done].
  apply (drain_loop_ok _ _ fd) in Ed; [|exact (conn_of_server s fd c Hok Hc)].
  cbn [mbind option_bind fst snd] in E. destruct ok; injection E as <-.
  - rewrite <- server_of_conn. unfold conn_ok in *. cbn [fst snd] in *.
    destruct (flush_wbuf_same (with_rbuf c1 h)) as [-> _]. exact Ed.
  - apply close_client_ok. by rewrite <- server_of_conn.
Qed.
Lemma flush_clients_ok s : server_ok s → server_ok (flush_clients s).
Proof.
  unfold server_ok, flush_clients. cbn [heap mix clients active_streams with_clients].
  rewrite <- map_fmap_compose. erewrite map_fmap_ext; [done|]. intros fd c _. cbn.
  destruct (wbuf c); [done|]. symmetry. apply flush_wbuf_same.
Qed.

(** The callback of the device writes back the streams it played. *)
Lemma insert_alter (h : list PlaybackStream) id st : <[id := st]> h = alter (λ _, st) id h.
Proof. revert id. induction h as [|x h IH]; intros [|id]; cbn; [done..|]. f_equal. apply IH. Qed.
Lemma write_back_ok ps h m ss n :
  Forall (λ p, stream_ok (snd p) ∧ ∃ st, h !! fst p = Some st ∧ index (snd p) = index st) ps →
  state_ok h m ss n → state_ok (foldl (λ h p, <[fst p := snd p]> h) h ps) m ss n.
Proof.
  revert h. induction ps as [|[id st'] ps IH]; intros h Hps Hok; [done|].
  apply Forall_cons in Hps as [(Hst' & st & Hh & Hi) Hps]. cbn [fst snd foldl] in *. apply IH.
  - eapply Forall_impl; [exact Hps|]. intros [j st1] [H1 (st0 & H0 & H2)]. split; [done|]. cbn in *.
    destruct (decide (j = id)) as [->|Hne].
    + exists st'. rewrite list_lookup_insert_eq by (by eapply lookup_lt_Some). split; [done|congruence].
    + exists st0. by rewrite list_lookup_insert_ne.
  - rewrite insert_alter. apply state_alter; [|done]. intros st0 H0 _. rewrite Hh in H0.
    by injection H0 as <-.
Qed.
Lemma omap_all {A} (h : list A) ids :
  Forall (λ id, is_Some (h !! id)) ids → Forall2 (λ id st, h !! id = Some st) ids (omap (h !!.) ids).
Proof.
  induction 1 as [|id ids [st Hst] _ IH]; [constructor|]. cbn. rewrite Hst. by constructor.
Qed.
Lemma mixer_streams s : server_ok s →
  let ids := (map_to_list (mix s)).*2 in
  Forall2 (λ id st, heap s !! id = Some st) ids (omap (heap s !!.) ids) ∧
  Forall stream_ok (omap (heap s !!.) ids).
Proof.
  intros [Hh Hm _ _ _] ids. assert (Forall (λ id, is_Some (heap s !! id)) ids) as Hids.
  { apply Forall_forall. intros id Hid. unfold ids in Hid. apply list_elem_of_fmap in Hid as ([k id'] & -> & Hk).
    apply elem_of_map_to_list, Hm in Hk as (st & Hst & _). by exists st. }
  pose proof (omap_all _ _ Hids) as H2. split; [done|].
  clear Hids. induction H2 as [|id st l k Hst _ IH]; constructor; [by eapply Hh|done].
Qed.
Lemma callback_ok num s : server_ok s → server_ok (fst (audio_callback num s)).
Proof.
  intros Hok. unfold audio_callback. destruct (mixer_streams s Hok) as [H2 Hall].
  set (ids := (map_to_list (mix s)).*2) in *. set (sts := omap (heap s !!.) ids) in *.
  assert (Forall ring_ok sts) as Hr by (eapply Forall_impl; [exact Hall|]; by intros ? []).
  unfold aaudio_cb. destruct (mix_streams_ok num sts (replicate num (0, 0)) Hr) as [Hp _];
    [by rewrite length_replicate|].
  destruct (mix_streams _ _ _) as [sts' acc]. cbn [fst] in *.
  apply write_back_ok; [|exact Hok]. clear Hr. revert sts' Hp Hall.
  induction H2 as [|id st l k Hst _ IH]; intros sts' Hp Hall; inversion Hp as [|? st' ? l' Hst' Hp']; subst;
    cbn [zip zip_with]; constructor.
  - apply Forall_cons in Hall as [Hall _]. cbn [fst snd].
    destruct (ident_stream_ok st st') as [H1 H3]; [apply Hst'|apply Hst'|done|]. eauto.
  - apply IH; [done|]. by apply Forall_cons in Hall as [_ Hall].
Qed.
Lemma stop_ok s : server_ok s → server_ok (sink_stop s).
Proof.
  intros [Hh _ _ _ _]. unfold server_ok, sink_stop.
  cbn [heap mix clients active_streams with_mix with_clients with_device].
  rewrite fmap_empty. split; [done| | | |done]; intros *; by rewrite ?lookup_empty.
Qed.
Lemma server_init_ok dr answers : server_ok (server_init dr answers).
Proof.
  unfold server_ok. cbn. rewrite fmap_empty. split; [| | | |done]; intros *; by rewrite ?lookup_empty, ?lookup_nil.
Qed.

(** C21. In every state the server can reach - clients coming, sending anything cut in any
    way, hanging up, failing; the device calling back; the sink being stopped - every
    stream is well formed (its ring is a bounded queue, its format is one that can be
    decoded, its credit is positive), every entry of the mixer and of a client's map
    points at the stream of that index, the mixer plays only streams that a connected
    client owns, and the published count of streams is the size of the mixer. *)
Theorem server_invariant (fuel : nat) (timestamp : Server → option Z) (dr : Z)
    (answers : list open_result) (s : Server) :
  reachable fuel timestamp dr answers s →
  server_ok s ∧ (clients s = ∅ → mix s = ∅ ∧ active_streams s = 0).
Proof.
  intros Hreach. assert (server_ok s) as Hok.
  { induction Hreach as [|s s' _ IH Hstep]; [apply server_init_ok|].
    destruct Hstep as [fd added al Hfd|fd rs s' Hr|fd| |num|];
      [by apply accept_client_ok|by eapply readable_ok|by apply close_client_ok|
       by apply flush_clients_ok|by apply callback_ok|by apply stop_ok]. }
  split; [done|]. intros Hc. assert (mix s = ∅) as Hm.
  { apply map_eq. intros k. rewrite lookup_empty. destruct (mix s !! k) as [id|] eqn:E; [|done].
    destruct (so_owned _ _ _ _ Hok k id E) as (fd & cm & Hf & _).
    by rewrite Hc, fmap_empty, lookup_empty in Hf. }
  split; [done|]. by rewrite (so_active _ _ _ _ Hok), Hm.
Qed.

(** Every control frame is answered, exactly once, with its own tag: handling a control
    frame terminates, reads only inside the frame, and if the frame carries a command and
    a tag then an unknown command is refused with an ERROR and changes nothing else; a
    request for a stream is either refused the same way, or creates one stream, registers
    it with the client and the mixer under the index it replies and grants its first
    credit; and every other command queues one REPLY. A frame that carries none is
    ignored. *)
Theorem control_answered (timestamp : Server → option Z) (x : conn) (payload : bytes) :
  ∃ x', on_control_frame timestamp x payload = Some x' ∧
    ((∃ command tag, carries payload command tag ∧ outcome x command tag x') ∨
     (¬ (∃ command tag, carries payload command tag) ∧ x' = x)).
Proof. destruct (control_frame_cases timestamp 0 x payload) as (x' & E & _ & H). by exists x'. Qed.

(** Back-pressure: the data frame of a stream appends its audio to the stream's queue
    and queues for the client, in order behind what was pending, the STARTED notice if it
    is the first, and exactly one REQUEST for [minreq] more bytes; what the socket takes
    plus what stays pending is that output, unless the socket fails.  At the rate of the
    device the frame is always handled. *)
Theorem data_frame_credit (fuel : nat) (s : Server) (c : Client) (chan : Z) (payload : bytes)
    (id : nat) (st : PlaybackStream) :
  streams c !! chan = Some id → heap s !! id = Some st → stream_ok st →
  (rate (spec st) = u32 (device_rate s) → on_data_frame fuel (s, c) chan payload ≠ None) ∧
  ∀ x', on_data_frame fuel (s, c) chan payload = Some x' → ∃ st' fs,
    fst x' = upd_stream s id (λ _, st') ∧ fed st st' payload fs ∧
    flushed (wbuf c ++ credit st chan) c (snd x') ∧ rbuf (snd x') = rbuf c ∧
    streams (snd x') = streams c.
Proof.
  intros Hc Hh Hst. pose proof (data_frame_cases fuel s c chan payload id st Hc Hh Hst) as H.
  split.
  - intros Hr. unfold push_pcm_to_ring in H. cbn [spec with_counts] in H.
    rewrite Hr, Z.eqb_refl in H. cbn [negb andb] in H.
    destruct (_ =? 0)%nat; destruct H as (? & ? & ? & E & _); by rewrite E.
  - intros x' E. destruct (push_pcm_to_ring _ _ _ _); [|congruence].
    destruct H as (st' & c' & fs & E' & _ & Hf & _ & Hfl & Hs & Hb). rewrite E' in E.
    injection E as <-. by exists st', fs.
Qed.

(** ** Concrete runs *)

Definition no_timestamp (_ : Server) : option Z := None.
Lemma server_invariant_witness :
  let s := accept_client (server_init 48000 []) 5 true [] in
  server_ok s ∧ (clients s = ∅ → mix s = ∅ ∧ active_streams s = 0).
Proof.
  intros s. apply (server_invariant 0 no_timestamp 48000 []). eapply reach_step; [apply reach_init|].
  by apply step_accept.
Defined.
Definition demo_args : create_args := mk_args default_spec 0xFFFFFFFF false 0xFFFFFFFF 0 0xFFFFFFFF.
Definition demo_client : Client := mk_client 1 true [] [] {[1 := 0%nat]} [] [].
Definition demo_server : Server :=
  mk_server 48000 2 2 {[5 := demo_client]} [new_stream 1 demo_args 48000] {[1 := 0%nat]} true 0 1 [].
Lemma demo_args_ok : args_ok demo_args ∧ unsupported (a_spec demo_args) = false.
Proof. split; [|done]. repeat split; vm_compute; congruence. Qed.
Lemma data_frame_credit_witness :
  on_data_frame 0 (demo_server, demo_client) 1 (bytes_of [1; 0; 2; 0]) ≠ None.
Proof.
  refine (proj1 (data_frame_credit 0 demo_server demo_client 1 (bytes_of [1; 0; 2; 0]) 0
    (new_stream 1 demo_args 48000) _ _ _) _).
  - reflexivity.
  - reflexivity.
  - apply new_stream_ok; apply demo_args_ok.
  - reflexivity.
Defined.

(** A client authenticates, creates a stream, writes a frame of audio and hears it. *)
Definition create_payload : bytes :=
  put_u32 3 ++ put_u32 9 ++ put_string (Some (str "song")) ++ put_sample_spec default_spec
  ++ put_channel_map_stereo ++ put_u32 PA_INVALID_INDEX ++ put_string None ++ put_u32 0xFFFFFFFF
  ++ put_boolean false ++ put_u32 0xFFFFFFFF ++ put_u32 0xFFFFFFFF ++ put_u32 0xFFFFFFFF
  ++ put_u32 0 ++ put_cvolume 2 PA_VOLUME_NORM.
Definition session : bytes :=
  frame_bytes kChannelControl (put_u32 8 ++ put_u32 1 ++ put_u32 35)
  ++ frame_bytes kChannelControl create_payload
  ++ frame_bytes 1 (bytes_of [100; 0; 200; 0; 1; 0; 2; 0]).
Definition play : option (Server * list frame) :=
  s ← handle_client_readable 0 no_timestamp
        (accept_client (server_init 48000 [Running 48000]) 5 true [Sent 10; Again]) 5
        [Data (take 33 session); Interrupted; Data (drop 33 session)];
  Some (audio_callback 3 s).
Example play_session :
  (λ p, (snd p, active_streams (fst p), aaudio (fst p), frames_written (fst p),
         (λ c, (length (wbuf c) + length (sent c))%nat) <$> clients (fst p) !! 5)) <$> play
  = Some ([(100, 200); (1, 2); (0, 0)], 1, true, 3,
          Some 245%nat).
Proof. vm_compute. done. Qed.

(** A client that deletes a stream index it never created silences its owner: the mixer
    loses the stream, the owner's map keeps it. *)
Example delete_foreign_stream :
  match on_control_frame no_timestamp
          (demo_server, mk_client 2 true [] [] ∅ [] []) (put_u32 4 ++ put_u32 7 ++ put_u32 1) with
  | Some (s, _) => mix s = ∅ ∧ streams <$> clients s !! 5 = Some {[1 := 0%nat]}
  | None => False
  end.
Proof. vm_compute. done. Qed.
(** A target of twice the minimum wraps. *)
Example negotiate_wraps :
  (negotiate (mk_args default_spec 0 false 1 0 0x80000000)).1.1.1 = 0.
Proof. vm_compute. done. Qed.
Close Scope Z_scope.
