(* ===== verification/GpuRing.v ===== *)
(** * The GPU command ring: [alr_gpu_ring.hpp] and its C port

    The single-producer/single-consumer byte ring of the GPU path.  The file
    holds the shared region ([RingHeader] and the data bytes behind it), the
    operations of [RingProducer] and [RingConsumer] run to completion, the C
    producer of [alr_gpu_ring_c.h], and the two threads interleaved at the
    granularity of single byte copies and cursor accesses.

    A [memcpy] outside the data region is undefined behaviour and is modelled by
    [None].  Cursors are 64-bit counters that wrap; offsets and lengths are
    32-bit. *)

From S2P Require Import Prelude Bytes.
Open Scope Z_scope.

(** ** The shared region *)

Definition kRingIdentMax : Z := 64.
Definition kMagic : Z := 0x47524C41.
Definition kVersion : Z := 1.

Record RingHeader := mk_header {
  magic : Z; version : Z; ring_bytes : Z;
  head : Z; tail : Z;
  reply_seq : Z; req_seq : Z; closed : Z;
  identity_ready : Z;
  renderer : bytes; vendor : bytes; gl_version : bytes;
}.

(** [region]: the header and the [ring_bytes] data bytes that follow it. *)
Record Region := mk_region { hdr : RingHeader; data : bytes }.

Definition set_head (v : Z) (r : Region) : Region :=
  let h := hdr r in
  mk_region (mk_header (magic h) (version h) (ring_bytes h) v (tail h) (reply_seq h)
    (req_seq h) (closed h) (identity_ready h) (renderer h) (vendor h) (gl_version h)) (data r).
Definition set_tail (v : Z) (r : Region) : Region :=
  let h := hdr r in
  mk_region (mk_header (magic h) (version h) (ring_bytes h) (head h) v (reply_seq h)
    (req_seq h) (closed h) (identity_ready h) (renderer h) (vendor h) (gl_version h)) (data r).
Definition set_seqs (reply req : Z) (r : Region) : Region :=
  let h := hdr r in
  mk_region (mk_header (magic h) (version h) (ring_bytes h) (head h) (tail h) reply req
    (closed h) (identity_ready h) (renderer h) (vendor h) (gl_version h)) (data r).
Definition set_closed (v : Z) (r : Region) : Region :=
  let h := hdr r in
  mk_region (mk_header (magic h) (version h) (ring_bytes h) (head h) (tail h) (reply_seq h)
    (req_seq h) v (identity_ready h) (renderer h) (vendor h) (gl_version h)) (data r).
Definition set_data (d : bytes) (r : Region) : Region := mk_region (hdr r) d.

Definition ring_region_size (n : Z) : Z := u64 (56 + 3 * kRingIdentMax + n).

(** [ring_init] on a zeroed region; [None] is the null pointer. *)
Definition ring_init (region : option Region) (n : Z) : bool * option Region :=
  match region with
  | None => (false, None)
  | Some r =>
      if (n =? 0) || negb (Z.land n (u32 (n - 1)) =? 0) then (false, Some r)
      else (true, Some (mk_region
        (mk_header kMagic kVersion n 0 0 0 0 0 0
           (<[0%nat := nul]> (renderer (hdr r))) (<[0%nat := nul]> (vendor (hdr r)))
           (<[0%nat := nul]> (gl_version (hdr r))))
        (data r)))
  end.

Definition ring_valid (r : Region) : bool :=
  let h := hdr r in
  (magic h =? kMagic) && (version h =? kVersion) && negb (ring_bytes h =? 0) &&
  (Z.land (ring_bytes h) (u32 (ring_bytes h - 1)) =? 0).

(** ** The identity block *)

(** The [copy] lambda: at most [kRingIdentMax - 1] bytes and a NUL; the rest of
    the field keeps what it held.  [None] is the null pointer. *)
Definition ident_copy (dst : bytes) (src : option bytes) : bytes :=
  match src with
  | None => <[0%nat := nul]> dst
  | Some s =>
      let cp := take (Z.to_nat (kRingIdentMax - 1)) (c_str s) in
      cp ++ nul :: drop (S (length cp)) dst
  end.
Definition ring_set_identity (r : Region) (rend vend vers : option bytes) : Region :=
  let h := hdr r in
  mk_region (mk_header (magic h) (version h) (ring_bytes h) (head h) (tail h) (reply_seq h)
    (req_seq h) (closed h) 1
    (ident_copy (renderer h) rend) (ident_copy (vendor h) vend)
    (ident_copy (gl_version h) vers)) (data r).

Inductive AlrRingIdent := ALR_IDENT_RENDERER | ALR_IDENT_VENDOR | ALR_IDENT_VERSION.
(** The guest's reader: the C string of the field, [None] for the null pointer. *)
Definition alr_ring_identity (r : Region) (which : AlrRingIdent) : option bytes :=
  if negb (ring_valid r) then None
  else if identity_ready (hdr r) =? 0 then None
  else
    let s := match which with
             | ALR_IDENT_RENDERER => renderer (hdr r)
             | ALR_IDENT_VENDOR => vendor (hdr r)
             | ALR_IDENT_VERSION => gl_version (hdr r)
             end in
    match c_str s with [] => None | c => Some c end.

(** ** Raw copies *)

Definition memcpy (d : bytes) (off : Z) (s : bytes) : option bytes :=
  if (Z.of_nat (length s) =? 0) then Some d
  else if (0 <=? off) && (off + Z.of_nat (length s) <=? Z.of_nat (length d))
  then Some (take (Z.to_nat off) d ++ s ++ drop (Z.to_nat off + length s) d)
  else None.
Definition memread (d : bytes) (off n : Z) : option bytes :=
  if n =? 0 then Some []
  else if (0 <=? off) && (off + n <=? Z.of_nat (length d))
  then Some (take (Z.to_nat n) (drop (Z.to_nat off) d))
  else None.

(** ** [RingProducer] *)

Definition mask (r : Region) : Z := u32 (ring_bytes (hdr r) - 1).

Definition free_bytes (r : Region) : Z :=
  let used := u64 (head (hdr r) - tail (hdr r)) in
  u64 (u32 (ring_bytes (hdr r) - 1) - used).

(** Where a transfer of [len] bytes at a cursor starts, and how many bytes it
    places before the wrap. *)
Definition transfer_off (r : Region) (cursor : Z) : Z := u32 (Z.land cursor (mask r)).
Definition transfer_first (r : Region) (off len : Z) : Z :=
  if u32 (off + len) <=? ring_bytes (hdr r) then len else u32 (ring_bytes (hdr r) - off).

Definition write_split (r : Region) (src : bytes) : option bytes :=
  let len := Z.of_nat (length src) in
  let off := transfer_off r (head (hdr r)) in
  let first := transfer_first r off len in
  d ← memcpy (data r) off (take (Z.to_nat first) src);
  if first <? len then memcpy d 0 (drop (Z.to_nat first) src) else Some d.

Definition append (r : Region) (src : bytes) : option (bool * Region) :=
  let len := Z.of_nat (length src) in
  if negb (ring_valid r) || (len =? 0) then Some (len =? 0, r)
  else if free_bytes r <? len then Some (false, r)
  else
    d ← write_split r src;
    Some (true, set_head (u64 (head (hdr r) + len)) (set_data d r)).

(** The request half of [flush_and_wait]: the number it waits for. *)
Definition flush_request (r : Region) : Z * Region :=
  let want := u32 (req_seq (hdr r) + 1) in
  (want, set_seqs (reply_seq (hdr r)) want r).
(** The spin: the region as the successive iterations observe it, then the
    value the final load returns. *)
Fixpoint flush_spin (want : Z) (spin : nat) (obs : nat → Region) (i : nat) : nat :=
  match spin with
  | O => i
  | S spin' =>
      if want <=? reply_seq (hdr (obs i)) then i
      else if negb (closed (hdr (obs i)) =? 0) then i
      else flush_spin want spin' obs (S i)
  end.

Definition close (r : Region) : Region := set_closed 1 r.

(** ** [RingConsumer] *)

Definition available (r : Region) : Z := u64 (head (hdr r) - tail (hdr r)).

Definition snapshot_len (r : Region) (out_cap : Z) : Z :=
  u32 (if available r <? out_cap then available r else out_cap).
Definition snapshot (r : Region) (out_cap : Z) : option bytes :=
  let n := snapshot_len r out_cap in
  if n =? 0 then Some []
  else
    let off := transfer_off r (tail (hdr r)) in
    let first := transfer_first r off n in
    a ← memread (data r) off first;
    b ← (if first <? n then memread (data r) 0 (n - first) else Some []);
    Some (a ++ b).

Definition advance (r : Region) (n : Z) : Region := set_tail (u64 (tail (hdr r) + n)) r.
Definition post_reply (r : Region) : Region :=
  set_seqs (req_seq (hdr r)) (req_seq (hdr r)) r.
Definition producer_closed (r : Region) : bool := negb (closed (hdr r) =? 0).

(** ** The C producer *)

Definition alr_ring_free_bytes (r : Region) : Z :=
  let used := u64 (head (hdr r) - tail (hdr r)) in
  u64 (u64 (ring_bytes (hdr r) - 1) - used).
Definition alr_ring_append (r : Region) (src : bytes) : option (bool * Region) :=
  let len := Z.of_nat (length src) in
  if negb (ring_valid r) then Some (false, r)
  else if len =? 0 then Some (true, r)
  else if alr_ring_free_bytes r <? len then Some (false, r)
  else
    let off := u32 (Z.land (head (hdr r)) (mask r)) in
    let first := if u32 (off + len) <=? ring_bytes (hdr r) then len
                 else u32 (ring_bytes (hdr r) - off) in
    d1 ← memcpy (data r) off (take (Z.to_nat first) src);
    d2 ← (if first <? len then memcpy d1 0 (drop (Z.to_nat first) src) else Some d1);
    Some (true, set_head (u64 (head (hdr r) + len)) (set_data d2 r)).

(** ** Powers of two *)

Lemma pow2_land n :
  0 < n < 2 ^ 32 → Z.land n (u32 (n - 1)) = 0 → ∃ k, 0 ≤ k < 32 ∧ n = 2 ^ k.
Proof.
  intros Hn Hl. rewrite u32_small in Hl by lia.
  exists (Z.log2 n). pose proof (Z.log2_spec n ltac:(lia)) as [Hlo Hhi].
  split; [split; [apply Z.log2_nonneg|apply Z.log2_lt_pow2; lia]|].
  destruct (decide (n = 2 ^ Z.log2 n)) as [|Hne]; [done|exfalso].
  assert (Z.log2 (n - 1) = Z.log2 n) as Hlog.
  { apply Z.log2_unique; [apply Z.log2_nonneg|lia]. }
  assert (Z.testbit (Z.land n (n - 1)) (Z.log2 n) = true) as Hb.
  { rewrite Z.land_spec, Z.bit_log2 by lia. rewrite <- Hlog at 1.
    rewrite Z.bit_log2; [done|]. pose proof (Z.pow_pos_nonneg 2 (Z.log2 n)).
    pose proof (Z.log2_nonneg n). lia. }
  rewrite Hl, Z.bits_0 in Hb. done.
Qed.

(** A power of two divides [2^64]: the wrap of a cursor does not move its slot. *)
Lemma u64_mod_pow2 k z : 0 ≤ k < 32 → u64 z mod 2 ^ k = z mod 2 ^ k.
Proof.
  intros Hk. unfold u64. apply Z.mod_mod_divide. exists (2 ^ (64 - k)).
  rewrite <- Z.pow_add_r by lia. f_equal. lia.
Qed.

(** ** Well-formed rings and the queue they hold *)

Record ring_ok (r : Region) : Prop := {
  ok_valid : ring_valid r = true;
  ok_bytes : 0 < ring_bytes (hdr r) < 2 ^ 32;
  ok_data : Z.of_nat (length (data r)) = ring_bytes (hdr r);
}.

(** The slot of the byte with absolute index [i]. *)
Definition slot (r : Region) (i : Z) : nat := Z.to_nat (i mod ring_bytes (hdr r)).

Lemma ok_pow2 r : ring_ok r → ∃ k, 0 ≤ k < 32 ∧ ring_bytes (hdr r) = 2 ^ k.
Proof.
  intros [Hv Hb _]. apply pow2_land; [done|]. unfold ring_valid in Hv.
  rewrite !andb_true_iff in Hv. lia.
Qed.

Lemma slot_lt r i : ring_ok r → (slot r i < length (data r))%nat.
Proof.
  intros Hok. pose proof (ok_bytes r Hok). pose proof (ok_data r Hok). unfold slot.
  pose proof (Z.mod_pos_bound i (ring_bytes (hdr r)) ltac:(lia)). lia.
Qed.

Lemma slot_inj r i j :
  ring_ok r → slot r i = slot r j → - ring_bytes (hdr r) < i - j < ring_bytes (hdr r) → i = j.
Proof.
  intros Hok Hs Hij. pose proof (ok_bytes r Hok) as Hb. unfold slot in Hs.
  pose proof (Z.mod_pos_bound i (ring_bytes (hdr r)) ltac:(lia)).
  pose proof (Z.mod_pos_bound j (ring_bytes (hdr r)) ltac:(lia)).
  pose proof (Z.div_mod i (ring_bytes (hdr r)) ltac:(lia)) as Ei.
  pose proof (Z.div_mod j (ring_bytes (hdr r)) ltac:(lia)) as Ej.
  assert (i mod ring_bytes (hdr r) = j mod ring_bytes (hdr r)) as Em by lia.
  set (b := ring_bytes (hdr r)) in *.
  assert (i / b = j / b) by nia. nia.
Qed.

Lemma mask_ok r : ring_ok r → mask r = ring_bytes (hdr r) - 1.
Proof. intros Hok. pose proof (ok_bytes r Hok). unfold mask. apply u32_small. lia. Qed.

Lemma transfer_off_ok r c :
  ring_ok r → transfer_off r (u64 c) = c mod ring_bytes (hdr r).
Proof.
  intros Hok. destruct (ok_pow2 r Hok) as (k & Hk & Hb).
  pose proof (ok_bytes r Hok) as Hr.
  unfold transfer_off. rewrite mask_ok by done. rewrite Hb in *.
  replace (2 ^ k - 1) with (Z.ones k) by (rewrite Z.ones_equiv; lia).
  rewrite Z.land_ones by lia. rewrite u64_mod_pow2 by lia.
  apply u32_small. pose proof (Z.mod_pos_bound c (2 ^ k) ltac:(lia)). lia.
Qed.

(** No 32-bit overflow in the split: [off + len] fits. *)
Lemma transfer_first_ok r c len :
  ring_ok r → 0 ≤ len < ring_bytes (hdr r) →
  transfer_first r (c mod ring_bytes (hdr r)) len =
    Z.min len (ring_bytes (hdr r) - c mod ring_bytes (hdr r)).
Proof.
  intros Hok Hlen. destruct (ok_pow2 r Hok) as (k & Hk & Hb).
  pose proof (ok_bytes r Hok) as Hr.
  pose proof (Z.mod_pos_bound c (ring_bytes (hdr r)) ltac:(lia)) as Hc.
  assert (ring_bytes (hdr r) ≤ 2 ^ 31).
  { rewrite Hb. apply Z.pow_le_mono_r; lia. }
  unfold transfer_first. rewrite (u32_small (_ + len)) by lia.
  destruct (_ <=? _) eqn:E; [lia|]. rewrite u32_small by lia. lia.
Qed.

(** The slot of the [k]-th byte of a transfer. *)
Lemma slot_first r c k :
  ring_ok r → 0 ≤ k < ring_bytes (hdr r) - c mod ring_bytes (hdr r) →
  slot r (c + k) = Z.to_nat (c mod ring_bytes (hdr r) + k).
Proof.
  intros Hok Hk. pose proof (ok_bytes r Hok). unfold slot. f_equal.
  pose proof (Z.mod_pos_bound c (ring_bytes (hdr r)) ltac:(lia)).
  rewrite <- Z.add_mod_idemp_l by lia. apply Z.mod_small. lia.
Qed.
Lemma slot_wrapped r c k :
  ring_ok r →
  ring_bytes (hdr r) - c mod ring_bytes (hdr r) ≤ k < ring_bytes (hdr r) →
  slot r (c + k) = Z.to_nat (k - (ring_bytes (hdr r) - c mod ring_bytes (hdr r))).
Proof.
  intros Hok Hk. pose proof (ok_bytes r Hok). unfold slot. f_equal.
  pose proof (Z.mod_pos_bound c (ring_bytes (hdr r)) ltac:(lia)).
  rewrite <- Z.add_mod_idemp_l by lia.
  symmetry. apply (Z.mod_unique _ _ 1 (k - (ring_bytes (hdr r) - c mod ring_bytes (hdr r)))); lia.
Qed.
(** ** Copies *)

Lemma memcpy_spec d off s :
  0 ≤ off → off + Z.of_nat (length s) ≤ Z.of_nat (length d) →
  ∃ d', memcpy d off s = Some d' ∧ length d' = length d ∧
    ∀ j, d' !! j = if decide (Z.to_nat off ≤ j < Z.to_nat off + length s)%nat
                   then s !! (j - Z.to_nat off)%nat else d !! j.
Proof.
  intros Ho Hlen. unfold memcpy. destruct (_ =? 0) eqn:E.
  - exists d. split; [done|]. split; [done|]. intros j. rewrite decide_False by lia. done.
  - rewrite (proj2 (Z.leb_le 0 off)), (proj2 (Z.leb_le (off + _) _)) by lia. cbn [andb].
    eexists. split; [done|]. split.
    + rewrite !length_app, length_take, length_drop. lia.
    + intros j. case_decide as Hj.
      * rewrite lookup_app_r, length_take by (rewrite length_take; lia).
        rewrite Nat.min_l by lia. rewrite lookup_app_l by lia. done.
      * destruct (decide (j < Z.to_nat off)%nat).
        -- rewrite lookup_app_l by (rewrite length_take; lia).
           apply lookup_take_lt. lia.
        -- rewrite lookup_app_r, length_take by (rewrite length_take; lia).
           rewrite Nat.min_l by lia. rewrite lookup_app_r by lia.
           rewrite lookup_drop. f_equal. lia.
Qed.

Lemma memread_spec d off n :
  0 ≤ n → 0 ≤ off → off + n ≤ Z.of_nat (length d) →
  ∃ o, memread d off n = Some o ∧ length o = Z.to_nat n ∧
    ∀ j, (j < Z.to_nat n)%nat → o !! j = d !! (Z.to_nat off + j)%nat.
Proof.
  intros Hn Ho Hlen. unfold memread. destruct (n =? 0) eqn:E.
  - exists []. split; [done|]. split; [simpl; lia|]. intros j Hj. lia.
  - rewrite (proj2 (Z.leb_le 0 off)), (proj2 (Z.leb_le (off + _) _)) by lia. cbn [andb].
    eexists. split; [done|]. split; [rewrite length_take, length_drop; lia|].
    intros j Hj. rewrite lookup_take_lt, lookup_drop by done. done.
Qed.

(** A split write places byte [i] in slot [head + i] and nothing else. *)
Lemma write_split_ok r c src :
  ring_ok r → head (hdr r) = u64 c → Z.of_nat (length src) < ring_bytes (hdr r) →
  ∃ d, write_split r src = Some d ∧ length d = length (data r) ∧
    (∀ i, (i < length src)%nat → d !! slot r (c + Z.of_nat i) = src !! i) ∧
    (∀ s, (∀ i, (i < length src)%nat → s ≠ slot r (c + Z.of_nat i)) → d !! s = data r !! s).
Proof.
  intros Hok Hc Hlen. pose proof (ok_bytes r Hok) as Hb. pose proof (ok_data r Hok) as Hd.
  pose proof (Z.mod_pos_bound c (ring_bytes (hdr r)) ltac:(lia)) as Hoff.
  unfold write_split. rewrite Hc, transfer_off_ok, transfer_first_ok by (done || lia).
  set (off := c mod ring_bytes (hdr r)) in *.
  set (first := Z.min (Z.of_nat (length src)) (ring_bytes (hdr r) - off)).
  destruct (memcpy_spec (data r) off (take (Z.to_nat first) src)) as (d1 & E1 & L1 & K1);
    [lia|rewrite length_take; lia|].
  rewrite E1. cbn [mbind option_bind]. rewrite length_take in K1.
  destruct (first <? Z.of_nat (length src)) eqn:Ew.
  - destruct (memcpy_spec d1 0 (drop (Z.to_nat first) src)) as (d2 & E2 & L2 & K2);
      [lia|rewrite length_drop; lia|].
    rewrite length_drop in K2. exists d2. rewrite E2. split; [done|]. split; [lia|]. split.
    + intros i Hi. destruct (decide (i < Z.to_nat first)%nat).
      * rewrite slot_first by (done || fold off; lia). fold off.
        rewrite K2, decide_False, K1, decide_True by lia.
        rewrite lookup_take_lt by lia. f_equal. lia.
      * rewrite slot_wrapped by (done || fold off; lia). fold off.
        rewrite K2, decide_True, lookup_drop by lia. f_equal. lia.
    + intros s Hs. rewrite K2, decide_False.
      * rewrite K1, decide_False; [done|]. intros Hr.
        apply (Hs (s - Z.to_nat off)%nat); [lia|].
        rewrite slot_first by (done || fold off; lia). fold off. lia.
      * intros Hr. apply (Hs (s + Z.to_nat first)%nat); [lia|].
        rewrite slot_wrapped by (done || fold off; lia). fold off. lia.
  - exists d1. split; [done|]. split; [done|]. split.
    + intros i Hi. rewrite slot_first by (done || fold off; lia). fold off.
      rewrite K1, decide_True, lookup_take_lt by lia. f_equal. lia.
    + intros s Hs. rewrite K1, decide_False; [done|]. intros Hr.
      apply (Hs (s - Z.to_nat off)%nat); [lia|].
      rewrite slot_first by (done || fold off; lia). fold off. lia.
Qed.
(** A split read returns the bytes of the slots [c], [c + 1], ... *)
Lemma read_split_ok r c n :
  ring_ok r → 0 ≤ n < ring_bytes (hdr r) →
  ∃ a b, memread (data r) (transfer_off r (u64 c))
           (transfer_first r (transfer_off r (u64 c)) n) = Some a ∧
    (if transfer_first r (transfer_off r (u64 c)) n <? n
     then memread (data r) 0 (n - transfer_first r (transfer_off r (u64 c)) n)
     else Some []) = Some b ∧
    length (a ++ b) = Z.to_nat n ∧
    ∀ i, (i < Z.to_nat n)%nat → (a ++ b) !! i = data r !! slot r (c + Z.of_nat i).
Proof.
  intros Hok Hn. pose proof (ok_bytes r Hok) as Hb. pose proof (ok_data r Hok) as Hd.
  pose proof (Z.mod_pos_bound c (ring_bytes (hdr r)) ltac:(lia)) as Hoff.
  rewrite transfer_off_ok, transfer_first_ok by (done || lia).
  set (off := c mod ring_bytes (hdr r)) in *.
  set (first := Z.min n (ring_bytes (hdr r) - off)).
  destruct (memread_spec (data r) off first) as (a & Ea & La & Ka); [lia..|].
  exists a. destruct (first <? n) eqn:Ew.
  - destruct (memread_spec (data r) 0 (n - first)) as (b & Eb & Lb & Kb); [lia..|].
    exists b. split; [done|]. split; [done|]. split; [rewrite length_app; lia|].
    intros i Hi. destruct (decide (i < Z.to_nat first)%nat).
    + rewrite lookup_app_l, Ka by lia. f_equal.
      rewrite slot_first by (done || fold off; lia). fold off. lia.
    + rewrite lookup_app_r, Kb by lia. f_equal.
      rewrite slot_wrapped by (done || fold off; lia). fold off. lia.
  - exists []. split; [done|]. split; [done|]. rewrite app_nil_r.
    split; [lia|]. intros i Hi. rewrite Ka by lia. f_equal.
    rewrite slot_first by (done || fold off; lia). fold off. lia.
Qed.

(** The region holds the queue [q]; its first byte has absolute index [T], a
    count that is not bounded by the width of the cursors. *)
Record holds (r : Region) (T : Z) (q : bytes) : Prop := {
  holds_tail : tail (hdr r) = u64 T;
  holds_head : head (hdr r) = u64 (T + Z.of_nat (length q));
  holds_fits : Z.of_nat (length q) ≤ ring_bytes (hdr r) - 1;
  holds_bytes : ∀ i, (i < length q)%nat → data r !! slot r (T + Z.of_nat i) = q !! i;
}.

Lemma u64_diff a n : 0 ≤ n < 2 ^ 64 → u64 (u64 (a + n) - u64 a) = n.
Proof.
  intros Hn. unfold u64. rewrite <- Zminus_mod. replace (a + n - a) with n by lia.
  apply Z.mod_small. done.
Qed.
Lemma u64_step a n : u64 (u64 a + n) = u64 (a + n).
Proof. apply Z.add_mod_idemp_l. done. Qed.

Lemma free_bytes_ok r T q :
  ring_ok r → holds r T q → free_bytes r = ring_bytes (hdr r) - 1 - Z.of_nat (length q).
Proof.
  intros Hok Hh. pose proof (ok_bytes r Hok). pose proof (holds_fits r T q Hh).
  unfold free_bytes. rewrite (holds_tail r T q Hh), (holds_head r T q Hh).
  rewrite u64_diff by lia. rewrite u32_small, u64_small by lia. done.
Qed.
Lemma available_ok r T q :
  ring_ok r → holds r T q → available r = Z.of_nat (length q).
Proof.
  intros Hok Hh. pose proof (ok_bytes r Hok). pose proof (holds_fits r T q Hh).
  unfold available. rewrite (holds_tail r T q Hh), (holds_head r T q Hh).
  apply u64_diff. lia.
Qed.

(** Writes of data and cursors keep the ring well formed. *)
Lemma ring_ok_update r d v :
  ring_ok r → length d = length (data r) → ring_ok (set_head v (set_data d r)).
Proof.
  intros [Hv Hb Hd] Hl. split; [exact Hv|exact Hb|].
  change (Z.of_nat (length d) = ring_bytes (hdr r)). lia.
Qed.

Lemma holds_append r T q src d :
  ring_ok r → holds r T q →
  Z.of_nat (length src) ≤ ring_bytes (hdr r) - 1 - Z.of_nat (length q) →
  (∀ i, (i < length src)%nat →
    d !! slot r (T + Z.of_nat (length q) + Z.of_nat i) = src !! i) →
  (∀ s, (∀ i, (i < length src)%nat →
    s ≠ slot r (T + Z.of_nat (length q) + Z.of_nat i)) → d !! s = data r !! s) →
  holds (set_head (u64 (head (hdr r) + Z.of_nat (length src))) (set_data d r)) T (q ++ src).
Proof.
  intros Hok Hh Hlen Hin Hout. pose proof (ok_bytes r Hok) as Hb.
  set (r' := set_head _ _).
  assert (∀ i, slot r' i = slot r i) as Hslot by (intros; reflexivity).
  split.
  - apply (holds_tail r T q Hh).
  - change (head (hdr r')) with (u64 (head (hdr r) + Z.of_nat (length src))).
    rewrite (holds_head r T q Hh), u64_step, length_app. f_equal. lia.
  - change (ring_bytes (hdr r')) with (ring_bytes (hdr r)). rewrite length_app. lia.
  - intros i Hi. rewrite Hslot. change (data r') with d. rewrite length_app in Hi.
    destruct (decide (i < length q)%nat).
    + rewrite lookup_app_l by done. rewrite Hout; [apply (holds_bytes r T q Hh); lia|].
      intros j Hj Heq. apply slot_inj in Heq; [lia|done|lia].
    + rewrite lookup_app_r by lia. rewrite <- Hin by lia. do 2 f_equal. lia.
Qed.

Lemma append_queue r T q src :
  ring_ok r → holds r T q → Z.of_nat (length src) < 2 ^ 32 →
  if decide (Z.of_nat (length src) ≤ ring_bytes (hdr r) - 1 - Z.of_nat (length q))
  then ∃ r', append r src = Some (true, r') ∧ ring_ok r' ∧ holds r' T (q ++ src) ∧
    (∃ d, r' = r ∨ r' = set_head (u64 (head (hdr r) + Z.of_nat (length src))) (set_data d r))
  else append r src = Some (false, r).
Proof.
  intros Hok Hh Hlen. unfold append. rewrite (ok_valid r Hok). cbn [negb orb].
  pose proof (holds_fits r T q Hh) as Hfit.
  rewrite (free_bytes_ok r T q Hok Hh).
  destruct (Z.of_nat (length src) =? 0) eqn:E0.
  - rewrite decide_True by lia. exists r. split; [done|]. split; [done|].
    split; [|exists []; by left].
    destruct src; [|simpl in E0; lia]. by rewrite app_nil_r.
  - case_decide as Hfits.
    + rewrite (proj2 (Z.ltb_ge _ _)) by lia.
      destruct (write_split_ok r (T + Z.of_nat (length q)) src) as (d & Ed & Ld & Kin & Kout);
        [done|apply (holds_head r T q Hh)|lia|].
      rewrite Ed. eexists. split; [done|]. split; [by apply ring_ok_update|].
      split; [by apply holds_append|]. exists d. by right.
    + rewrite (proj2 (Z.ltb_lt _ _)) by lia. done.
Qed.

(** On a ring that holds the queue [q], [append] adds the bytes at the end of the
    queue exactly when they fit beside the byte that is kept free, and otherwise changes
    nothing; the split copy stays inside the data region.  The absolute position [T] is
    unbounded: the wrap of the 64-bit cursors and of the ring index is covered. *)
Theorem append_fifo r T q src :
  ring_ok r → holds r T q → Z.of_nat (length src) < 2 ^ 32 →
  if decide (Z.of_nat (length src) ≤ ring_bytes (hdr r) - 1 - Z.of_nat (length q))
  then ∃ r', append r src = Some (true, r') ∧ ring_ok r' ∧ holds r' T (q ++ src) ∧
    reply_seq (hdr r') = reply_seq (hdr r) ∧ req_seq (hdr r') = req_seq (hdr r)
  else append r src = Some (false, r).
Proof.
  intros Hok Hh Hlen. pose proof (append_queue r T q src Hok Hh Hlen) as H.
  destruct (decide _); [|done].
  destruct H as (r' & E & H1 & H2 & d & [->| ->]); eauto 6.
Qed.

Lemma snapshot_ok r T q cap :
  ring_ok r → holds r T q → 0 ≤ cap < 2 ^ 32 → snapshot r cap = Some (take (Z.to_nat cap) q).
Proof.
  intros Hok Hh Hcap. pose proof (ok_bytes r Hok). pose proof (holds_fits r T q Hh).
  assert (snapshot_len r cap = Z.min (Z.of_nat (length q)) cap) as Hn.
  { unfold snapshot_len. rewrite (available_ok r T q Hok Hh).
    destruct (_ <? _) eqn:E; rewrite u32_small; lia. }
  unfold snapshot. rewrite Hn. set (n := Z.min _ _).
  destruct (n =? 0) eqn:E.
  - f_equal. symmetry. destruct q; [by rewrite take_nil|].
    cbn [length] in *. replace (Z.to_nat cap) with 0%nat by lia. done.
  - rewrite (holds_tail r T q Hh).
    destruct (read_split_ok r T n) as (a & b & -> & -> & L & K); [done|lia|].
    cbn [mbind option_bind]. f_equal. apply list_eq_same_length with (n := Z.to_nat n).
    + rewrite length_take. lia.
    + done.
    + intros i x y Hi Hx Hy. rewrite K in Hx by done.
      rewrite (holds_bytes r T q Hh) in Hx by lia.
      rewrite lookup_take_lt in Hy by lia. congruence.
Qed.

Lemma holds_advance r T q n :
  ring_ok r → holds r T q → 0 ≤ n ≤ Z.of_nat (length q) →
  ring_ok (advance r n) ∧ holds (advance r n) (T + n) (drop (Z.to_nat n) q).
Proof.
  intros [Hv Hb Hd] Hh Hn. split; [by split|].
  assert (∀ i, slot (advance r n) i = slot r i) as Hslot by (intros; reflexivity). split.
  - change (tail (hdr (advance r n))) with (u64 (tail (hdr r) + n)).
    rewrite (holds_tail r T q Hh). apply u64_step.
  - change (head (hdr (advance r n))) with (head (hdr r)).
    rewrite (holds_head r T q Hh), length_drop. f_equal. lia.
  - change (ring_bytes (hdr (advance r n))) with (ring_bytes (hdr r)).
    pose proof (holds_fits r T q Hh). rewrite length_drop. lia.
  - intros i Hi. rewrite Hslot. change (data (advance r n)) with (data r).
    rewrite length_drop in Hi. rewrite lookup_drop, <- (holds_bytes r T q Hh) by lia.
    do 2 f_equal. lia.
Qed.

(** [snapshot] returns the oldest [min(cap, available)] bytes of the queue, in
    order, and [advance] over them removes exactly those. *)
Theorem snapshot_advance_fifo r T q cap :
  ring_ok r → holds r T q → 0 ≤ cap < 2 ^ 32 →
  let n := Z.min cap (Z.of_nat (length q)) in
  snapshot r cap = Some (take (Z.to_nat n) q) ∧
  ring_ok (advance r n) ∧ holds (advance r n) (T + n) (drop (Z.to_nat n) q).
Proof.
  intros Hok Hh Hcap n. split.
  - rewrite (snapshot_ok r T q cap) by done. f_equal.
    destruct (decide (cap ≤ Z.of_nat (length q))); unfold n.
    + by rewrite Z.min_l by lia.
    + rewrite Z.min_r, !take_ge by lia. done.
  - apply holds_advance; [done|done|lia].
Qed.

Lemma c_append_append r src :
  0 ≤ ring_bytes (hdr r) < 2 ^ 32 → ring_valid r = true ∨ src ≠ [] →
  alr_ring_append r src = append r src.
Proof.
  intros Hb Hor. unfold alr_ring_append, append, write_split, transfer_off, transfer_first.
  destruct (ring_valid r) eqn:Hv; cbn [negb orb].
  - destruct (Z.of_nat (length src) =? 0); [done|].
    assert (ring_bytes (hdr r) ≠ 0) as Hnz.
    { unfold ring_valid in Hv. rewrite !andb_true_iff in Hv. lia. }
    assert (alr_ring_free_bytes r = free_bytes r) as ->.
    { unfold alr_ring_free_bytes, free_bytes. f_equal. f_equal.
      rewrite u32_small, u64_small by lia. done. }
    destruct (_ <? _); [done|]. cbv zeta. destruct (memcpy _ _ _) as [d1|]; [|done].
    cbn [mbind option_bind]. by destruct (_ <? _).
  - destruct Hor as [?|Hs]; [done|].
    destruct src; [done|]. by rewrite (proj2 (Z.eqb_neq _ 0)) by (cbn [length]; lia).
Qed.
(** The C producer of the guest shim and the C++ [RingProducer] append alike; they
    differ only on an empty append to an invalid ring. *)
Theorem c_append_agrees r src :
  0 ≤ ring_bytes (hdr r) < 2 ^ 32 →
  alr_ring_append r src =
    if ring_valid r || negb (bool_decide (src = [])) then append r src else Some (false, r).
Proof.
  intros Hb. destruct (ring_valid r) eqn:Hv; cbn [orb].
  - apply c_append_append; [done|by left].
  - destruct (decide (src = [])) as [->|Hne].
    + unfold alr_ring_append. by rewrite Hv.
    + rewrite bool_decide_false by done. cbn [negb]. apply c_append_append; [done|by right].
Qed.

(** ** The two threads interleaved

    The producer runs [append] and the consumer [snapshot] and [advance]
    concurrently.  One step is one access to shared memory: a load or store of a
    cursor, or the copy of one byte.  The release stores of [head] and [tail] and
    the acquire loads that read them make this interleaving semantics the one the
    threads observe.  [sent] and [received] are history variables. *)
Module Threads.

Inductive producer_pc :=
| PIdle
| PCopy (src : bytes) (off first : Z) (k : nat).

Inductive consumer_pc :=
| CIdle
| CCopy (n off first : Z) (out : bytes)
| CGot (out : bytes).

Record sys := mk_sys {
  reg : Region; ppc : producer_pc; cpc : consumer_pc; sent : bytes; received : bytes;
}.

(** The address of the [k]-th byte of the two [memcpy] calls. *)
Definition split_slot (off first : Z) (k : nat) : Z :=
  if Z.of_nat k <? first then off + Z.of_nat k else Z.of_nat k - first.

Inductive step : sys → sys → Prop :=
| p_begin r c snt rcv (src : bytes) :
    src ≠ [] → Z.of_nat (length src) < 2 ^ 32 →
    (free_bytes r <? Z.of_nat (length src)) = false →
    let off := transfer_off r (head (hdr r)) in
    step (mk_sys r PIdle c snt rcv)
         (mk_sys r (PCopy src off (transfer_first r off (Z.of_nat (length src))) 0) c snt rcv)
| p_full r c snt rcv (src : bytes) :
    free_bytes r < Z.of_nat (length src) →
    step (mk_sys r PIdle c snt rcv) (mk_sys r PIdle c snt rcv)
| p_copy r c snt rcv (src : bytes) off first k b d :
    src !! k = Some b → memcpy (data r) (split_slot off first k) [b] = Some d →
    step (mk_sys r (PCopy src off first k) c snt rcv)
         (mk_sys (set_data d r) (PCopy src off first (S k)) c snt rcv)
| p_publish r c snt rcv (src : bytes) off first :
    step (mk_sys r (PCopy src off first (length src)) c snt rcv)
         (mk_sys (set_head (u64 (head (hdr r) + Z.of_nat (length src))) r)
            PIdle c (snt ++ src) rcv)
| p_flush r c snt rcv :
    step (mk_sys r PIdle c snt rcv) (mk_sys (flush_request r).2 PIdle c snt rcv)
| p_close r c snt rcv :
    step (mk_sys r PIdle c snt rcv) (mk_sys (close r) PIdle c snt rcv)
| c_begin r p snt rcv cap :
    0 ≤ cap < 2 ^ 32 →
    let n := snapshot_len r cap in
    let off := transfer_off r (tail (hdr r)) in
    step (mk_sys r p CIdle snt rcv)
         (mk_sys r p (CCopy n off (transfer_first r off n) []) snt rcv)
| c_copy r p snt rcv n off first (out : bytes) b :
    Z.of_nat (length out) < n →
    memread (data r) (split_slot off first (length out)) 1 = Some [b] →
    step (mk_sys r p (CCopy n off first out) snt rcv)
         (mk_sys r p (CCopy n off first (out ++ [b])) snt rcv)
| c_done r p snt rcv n off first (out : bytes) :
    Z.of_nat (length out) = n →
    step (mk_sys r p (CCopy n off first out) snt rcv) (mk_sys r p (CGot out) snt rcv)
| c_advance r p snt rcv (out : bytes) m :
    (m ≤ length out)%nat →
    step (mk_sys r p (CGot out) snt rcv)
         (mk_sys (advance r (Z.of_nat m)) p CIdle snt (rcv ++ take m out))
| c_reply r p snt rcv :
    step (mk_sys r p CIdle snt rcv) (mk_sys (post_reply r) p CIdle snt rcv).

Definition boot (r : Region) : sys := mk_sys r PIdle CIdle [] [].

(** *** The invariant *)

Definition producer_inv (r : Region) (c : Z) (room : Z) (p : producer_pc) : Prop :=
  match p with
  | PIdle => True
  | PCopy src off first k =>
      (0 < length src)%nat ∧ Z.of_nat (length src) ≤ room ∧ (k ≤ length src)%nat ∧
      off = transfer_off r (u64 c) ∧
      first = transfer_first r off (Z.of_nat (length src)) ∧
      ∀ j, (j < k)%nat → data r !! slot r (c + Z.of_nat j) = src !! j
  end.

Definition consumer_inv (r : Region) (T : Z) (q : bytes) (c : consumer_pc) : Prop :=
  match c with
  | CIdle => True
  | CCopy n off first out =>
      0 ≤ n ≤ Z.of_nat (length q) ∧ off = transfer_off r (u64 T) ∧
      first = transfer_first r off n ∧ Z.of_nat (length out) ≤ n ∧ out = take (length out) q
  | CGot out => out = take (length out) q
  end.

Record inv (s : sys) (q : bytes) : Prop := {
  inv_ok : ring_ok (reg s);
  inv_holds : holds (reg s) (Z.of_nat (length (received s))) q;
  inv_sent : sent s = received s ++ q;
  inv_p : producer_inv (reg s) (Z.of_nat (length (received s)) + Z.of_nat (length q))
            (ring_bytes (hdr (reg s)) - 1 - Z.of_nat (length q)) (ppc s);
  inv_c : consumer_inv (reg s) (Z.of_nat (length (received s))) q (cpc s);
}.

(** The address of a byte of a transfer is the slot of its absolute index. *)
Lemma split_slot_ok r c len k :
  ring_ok r → 0 ≤ len < ring_bytes (hdr r) → Z.of_nat k < len →
  split_slot (transfer_off r (u64 c)) (transfer_first r (transfer_off r (u64 c)) len) k =
    Z.of_nat (slot r (c + Z.of_nat k)).
Proof.
  intros Hok Hlen Hk. pose proof (ok_bytes r Hok).
  pose proof (Z.mod_pos_bound c (ring_bytes (hdr r)) ltac:(lia)).
  rewrite transfer_off_ok, transfer_first_ok by (done || lia). unfold split_slot.
  destruct (_ <? _) eqn:E.
  - rewrite slot_first by (done || lia). lia.
  - rewrite slot_wrapped by (done || lia). lia.
Qed.

(** A one-byte copy to a slot is an update of that slot. *)
Lemma memcpy_byte r i b :
  ring_ok r → memcpy (data r) (Z.of_nat (slot r i)) [b] = Some (<[slot r i := b]> (data r)).
Proof.
  intros Hok. pose proof (slot_lt r i Hok) as Hlt. unfold memcpy. cbn [length].
  rewrite (proj2 (Z.eqb_neq _ 0)), (proj2 (Z.leb_le 0 _)), (proj2 (Z.leb_le _ _)) by lia.
  cbn [andb]. f_equal. rewrite insert_take_drop by done. cbn [app]. rewrite Nat2Z.id.
  do 2 f_equal. f_equal. lia.
Qed.
Lemma memread_byte r i b :
  ring_ok r → memread (data r) (Z.of_nat (slot r i)) 1 = Some [b] ↔ data r !! slot r i = Some b.
Proof.
  intros Hok. pose proof (slot_lt r i Hok) as Hlt.
  destruct (memread_spec (data r) (Z.of_nat (slot r i)) 1) as (o & -> & L & K); [lia..|].
  specialize (K 0%nat ltac:(lia)). rewrite Nat2Z.id, Nat.add_0_r in K. rewrite <- K.
  destruct o as [|b' [|]]; cbn [length lookup list_lookup] in *; [lia| |lia].
  split; congruence.
Qed.

(** Steps that leave the data, the cursors and the geometry alone. *)
Definition same_core (r r' : Region) : Prop :=
  data r' = data r ∧ head (hdr r') = head (hdr r) ∧ tail (hdr r') = tail (hdr r) ∧
  ring_bytes (hdr r') = ring_bytes (hdr r) ∧ ring_valid r' = ring_valid r.

Lemma inv_same_core r r' p c snt rcv q :
  same_core r r' → inv (mk_sys r p c snt rcv) q → inv (mk_sys r' p c snt rcv) q.
Proof.
  intros (Hd & Hh & Ht & Hb & Hv) [Hok Hhold Hsent Hp Hc].
  cbn [reg ppc cpc sent received] in *.
  assert (∀ i, slot r' i = slot r i) as Hs by (intros i; unfold slot; by rewrite Hb).
  assert (∀ x, transfer_off r' x = transfer_off r x) as Ho
    by (intros x; unfold transfer_off, mask; by rewrite Hb).
  assert (∀ x y, transfer_first r' x y = transfer_first r x y) as Hf
    by (intros x y; unfold transfer_first; by rewrite Hb).
  split; cbn [reg ppc cpc sent received].
  - destruct Hok as [H1 H2 H3]. split; congruence.
  - destruct Hhold as [H1 H2 H3 H4]. split; try congruence.
    intros i Hi. rewrite Hd, Hs. auto.
  - done.
  - destruct p as [|src off first k]; [done|].
    destruct Hp as (P1 & P2 & P3 & P4 & P5 & P6). unfold producer_inv.
    rewrite Hb, Ho, Hf, Hd. repeat (split; [done|]). intros j Hj. rewrite Hs. auto.
  - destruct c as [|n off first out|out]; [done| |done].
    unfold consumer_inv. rewrite Ho, Hf. exact Hc.
Qed.

(** One byte written into the free part disturbs neither the queue nor the bytes
    already placed. *)
Lemma inv_copy r c snt rcv src off first k b q :
  src !! k = Some b →
  inv (mk_sys r (PCopy src off first k) c snt rcv) q →
  memcpy (data r) (split_slot off first k) [b] =
    Some (<[slot r (Z.of_nat (length rcv) + Z.of_nat (length q) + Z.of_nat k) := b]> (data r)) ∧
  inv (mk_sys (set_data
    (<[slot r (Z.of_nat (length rcv) + Z.of_nat (length q) + Z.of_nat k) := b]> (data r)) r)
    (PCopy src off first (S k)) c snt rcv) q.
Proof.
  intros Hk [Hok Hhold Hsent Hp Hc]. cbn [reg ppc cpc sent received] in *.
  destruct Hp as (P1 & P2 & P3 & -> & -> & P6).
  pose proof (ok_bytes r Hok) as Hb. pose proof (ok_data r Hok) as Hd.
  set (H := Z.of_nat (length rcv) + Z.of_nat (length q)) in *.
  apply lookup_lt_Some in Hk as Hlt.
  split.
  { rewrite split_slot_ok by (done || lia). by apply memcpy_byte. }
  set (d := <[slot r (H + Z.of_nat k) := b]> (data r)).
  assert (∀ i, (i < length q)%nat →
    d !! slot r (Z.of_nat (length rcv) + Z.of_nat i) = q !! i) as Hq.
  { intros i Hi. unfold d. rewrite list_lookup_insert_ne.
    - by apply (holds_bytes r _ q Hhold).
    - intros He. apply slot_inj in He; [lia|done|lia]. }
  split; cbn [reg ppc cpc sent received].
  - destruct Hok as [H1 H2 H3]. split; [done|done|]. unfold d, set_data.
    cbn [data hdr]. by rewrite length_insert.
  - destruct Hhold as [H1 H2 H3 H4]. split; done.
  - done.
  - split; [done|]. split; [done|]. split; [lia|]. split; [done|]. split; [done|].
    intros j Hj. change (d !! slot r (H + Z.of_nat j) = src !! j).
    destruct (decide (j = k)) as [->|Hne].
    + unfold d. rewrite list_lookup_insert_eq; [done|]. by apply slot_lt.
    + unfold d. rewrite list_lookup_insert_ne; [apply P6; lia|].
      intros He. apply slot_inj in He; [lia|done|lia].
  - destruct c; exact Hc.
Qed.

Lemma inv_publish r c snt rcv src off first q :
  inv (mk_sys r (PCopy src off first (length src)) c snt rcv) q →
  inv (mk_sys (set_head (u64 (head (hdr r) + Z.of_nat (length src))) r) PIdle c
         (snt ++ src) rcv) (q ++ src).
Proof.
  intros [Hok Hhold Hsent Hp Hc]. cbn [reg ppc cpc sent received] in *.
  destruct Hp as (P1 & P2 & P3 & -> & -> & P6).
  assert (set_head (u64 (head (hdr r) + Z.of_nat (length src))) r =
          set_head (u64 (head (hdr r) + Z.of_nat (length src))) (set_data (data r) r)) as ->
    by (by destruct r).
  split; cbn [reg ppc cpc sent received].
  - by apply ring_ok_update.
  - by apply holds_append.
  - rewrite Hsent. by rewrite <- (assoc_L (++)).
  - done.
  - destruct c as [|n off first out|out]; [done| |].
    + destruct Hc as (C1 & C2 & C3 & C4 & C5). unfold consumer_inv.
      rewrite length_app. split; [lia|]. split; [done|]. split; [done|].
      split; [done|]. rewrite take_app_le by lia. done.
    + unfold consumer_inv in *. apply (f_equal length) in Hc as Hl.
      rewrite length_take in Hl. rewrite take_app_le by lia. done.
Qed.

Lemma inv_begin_read r p snt rcv cap q :
  0 ≤ cap < 2 ^ 32 → inv (mk_sys r p CIdle snt rcv) q →
  inv (mk_sys r p (CCopy (snapshot_len r cap) (transfer_off r (tail (hdr r)))
    (transfer_first r (transfer_off r (tail (hdr r))) (snapshot_len r cap)) []) snt rcv) q.
Proof.
  intros Hcap [Hok Hhold Hsent Hp Hc]. cbn [reg ppc cpc sent received] in *.
  pose proof (ok_bytes r Hok). pose proof (holds_fits r _ q Hhold).
  split; [done..|]. cbn [reg ppc cpc sent received]. unfold consumer_inv.
  rewrite (holds_tail r _ q Hhold). split.
  - unfold snapshot_len. rewrite (available_ok r _ q Hok Hhold).
    destruct (_ <? _) eqn:E; rewrite u32_small; lia.
  - split; [done|]. split; [done|]. cbn [length]. split; [|done].
    unfold snapshot_len, u32. apply Z.mod_pos_bound. lia.
Qed.

Lemma inv_read r p snt rcv n off first out b q :
  Z.of_nat (length out) < n →
  memread (data r) (split_slot off first (length out)) 1 = Some [b] →
  inv (mk_sys r p (CCopy n off first out) snt rcv) q →
  inv (mk_sys r p (CCopy n off first (out ++ [b])) snt rcv) q.
Proof.
  intros Hlt Hread [Hok Hhold Hsent Hp Hc]. cbn [reg ppc cpc sent received] in *.
  destruct Hc as (C1 & -> & -> & C4 & C5).
  pose proof (holds_fits r _ q Hhold).
  split; [done..|]. cbn [reg ppc cpc sent received]. unfold consumer_inv.
  rewrite split_slot_ok in Hread by (done || lia).
  apply memread_byte in Hread; [|done].
  rewrite (holds_bytes r _ q Hhold) in Hread by lia.
  rewrite length_app. cbn [length]. split; [lia|]. split; [done|]. split; [done|].
  split; [lia|]. rewrite Nat.add_1_r, (take_S_r _ _ b) by done. by rewrite <- C5.
Qed.

Lemma inv_advance r p snt rcv out m q :
  (m ≤ length out)%nat → inv (mk_sys r p (CGot out) snt rcv) q →
  inv (mk_sys (advance r (Z.of_nat m)) p CIdle snt (rcv ++ take m out)) (drop m q).
Proof.
  intros Hm [Hok Hhold Hsent Hp Hc]. cbn [reg ppc cpc sent received] in *.
  unfold consumer_inv in Hc. apply (f_equal length) in Hc as Hl.
  rewrite length_take in Hl.
  destruct (holds_advance r _ q (Z.of_nat m) Hok Hhold) as [Hok' Hh']; [lia|].
  rewrite Nat2Z.id in Hh'.
  assert (length (rcv ++ take m out) = length rcv + m)%nat as Elen
    by (rewrite length_app, length_take; lia).
  split; cbn [reg ppc cpc sent received].
  - done.
  - rewrite Elen. rewrite Nat2Z.inj_add. done.
  - rewrite Hsent, Hc, take_take, Nat.min_l by lia.
    rewrite <- (assoc_L (++)). by rewrite take_drop.
  - destruct p as [|src off first k]; [done|].
    destruct Hp as (P1 & P2 & P3 & P4 & P5 & P6). unfold producer_inv.
    rewrite Elen, length_drop.
    replace (Z.of_nat (length rcv + m) + Z.of_nat (length q - m))
      with (Z.of_nat (length rcv) + Z.of_nat (length q)) by lia.
    split; [done|]. split; [change (ring_bytes (hdr (advance r (Z.of_nat m))))
      with (ring_bytes (hdr r)); lia|]. done.
  - done.
Qed.

Lemma step_inv s s' q : step s s' → inv s q → ∃ q', inv s' q'.
Proof.
  intros Hstep Hinv. destruct Hstep.
  - exists q. destruct Hinv as [Hok Hhold Hsent Hp Hc]. cbn [reg ppc cpc sent received] in *.
    rewrite (free_bytes_ok r _ q Hok Hhold) in *.
    split; [done..| |done]. cbn [reg ppc cpc sent received]. unfold producer_inv.
    split; [destruct src; [done|cbn [length]; lia]|]. split; [lia|]. split; [lia|].
    unfold off. rewrite (holds_head r _ q Hhold).
    split; [done|]. split; [done|]. intros j Hj. lia.
  - by exists q.
  - destruct (inv_copy r c snt rcv src off first k b q) as [E Hi]; [done|done|].
    exists q. by simplify_eq.
  - exists (q ++ src). eapply inv_publish, Hinv.
  - exists q. eapply inv_same_core, Hinv. done.
  - exists q. eapply inv_same_core, Hinv. done.
  - exists q. by apply inv_begin_read.
  - exists q. eapply inv_read; eauto.
  - exists q. destruct Hinv as [Hok Hhold Hsent Hp Hc]. split; [done..|].
    cbn [reg ppc cpc sent received] in *. apply Hc.
  - exists (drop m q). by apply inv_advance.
  - exists q. eapply inv_same_core, Hinv. done.
Qed.

Lemma boot_inv r0 n r :
  0 ≤ n < 2 ^ 32 → Z.of_nat (length (data r0)) = n →
  ring_init (Some r0) n = (true, Some r) → inv (boot r) [].
Proof.
  intros Hn Hd Hi. unfold ring_init in Hi.
  destruct ((n =? 0) || _) eqn:E; [by injection Hi|].
  apply pair_equal_spec in Hi as [_ Hi]. apply Some_inj in Hi as <-.
  apply orb_false_iff in E as [E1 E2]. apply negb_false_iff in E2.
  split; cbn [reg ppc cpc sent received boot]; [| |done|done|done].
  - split; cbn [hdr ring_bytes data]; [|lia|done].
    unfold ring_valid. cbn [hdr magic version ring_bytes]. rewrite E1, E2. done.
  - split; cbn [hdr tail head ring_bytes length].
    + done.
    + done.
    + lia.
    + intros i Hi. lia.
Qed.

Lemma reachable_inv r0 n r s :
  0 ≤ n < 2 ^ 32 → Z.of_nat (length (data r0)) = n →
  ring_init (Some r0) n = (true, Some r) → rtc step (boot r) s → ∃ q, inv s q.
Proof.
  intros Hn Hd Hi Hs. pose proof (boot_inv r0 n r Hn Hd Hi) as Hb.
  assert (∃ q, inv (boot r) q) as Hex by (by exists []). clear Hb.
  induction Hs as [|s1 s2 s3 H12 _ IH]; [done|]. apply IH.
  destruct Hex as [q Hq]. by eapply step_inv.
Qed.

(** C4. Whatever the interleaving of the two threads, what the consumer has taken is a
    prefix of what the producer has published, the rest fits the ring, and a finished
    snapshot is exactly the next bytes: none lost, duplicated, reordered or torn. *)
Theorem ring_fifo r0 n r s :
  0 ≤ n < 2 ^ 32 → Z.of_nat (length (data r0)) = n →
  ring_init (Some r0) n = (true, Some r) → rtc step (boot r) s →
  ∃ q, sent s = received s ++ q ∧ Z.of_nat (length q) ≤ n - 1 ∧
    (∀ out, cpc s = CGot out → out `prefix_of` q).
Proof.
  intros Hn Hd Hi Hs. destruct (reachable_inv r0 n r s Hn Hd Hi Hs) as [q Hq].
  exists q. destruct Hq as [Hok Hhold Hsent Hp Hc]. split; [done|]. split.
  - pose proof (holds_fits _ _ q Hhold) as Hf.
    assert (ring_bytes (hdr (reg s)) = n) as <-; [|done].
    clear Hok Hhold Hsent Hp Hc Hf.
    assert (ring_bytes (hdr (reg (boot r))) = n) as Hr.
    { unfold ring_init in Hi. destruct ((n =? 0) || _); [by injection Hi|].
      apply pair_equal_spec in Hi as [_ Hi]. by apply Some_inj in Hi as <-. }
    induction Hs as [|s1 s2 s3 H12 _ IH]; [done|]. apply IH. by destruct H12.
  - intros out Hout. rewrite Hout in Hc. unfold consumer_inv in Hc. rewrite Hc.
    apply prefix_take.
Qed.

(** When both threads are in the middle of a copy, both addresses are inside the data
    region and they differ: the producer never writes a byte the consumer reads. *)
Theorem ring_race_free r0 n r s src off first k m off' first' out :
  0 ≤ n < 2 ^ 32 → Z.of_nat (length (data r0)) = n →
  ring_init (Some r0) n = (true, Some r) → rtc step (boot r) s →
  ppc s = PCopy src off first k → (k < length src)%nat →
  cpc s = CCopy m off' first' out → Z.of_nat (length out) < m →
  0 ≤ split_slot off first k < Z.of_nat (length (data (reg s))) ∧
  0 ≤ split_slot off' first' (length out) < Z.of_nat (length (data (reg s))) ∧
  split_slot off first k ≠ split_slot off' first' (length out).
Proof.
  intros Hn Hd Hi Hs Hpc Hk Hcc Hout.
  destruct (reachable_inv r0 n r s Hn Hd Hi Hs) as [q [Hok Hhold Hsent Hp Hc]].
  rewrite Hpc in Hp. rewrite Hcc in Hc.
  destruct Hp as (P1 & P2 & P3 & -> & -> & _). destruct Hc as (C1 & -> & -> & _).
  pose proof (ok_bytes _ Hok). pose proof (holds_fits _ _ q Hhold).
  rewrite !split_slot_ok by (done || lia).
  pose proof (slot_lt (reg s) (Z.of_nat (length (received s)) + Z.of_nat (length q) + Z.of_nat k) Hok).
  pose proof (slot_lt (reg s) (Z.of_nat (length (received s)) + Z.of_nat (length out)) Hok).
  split; [lia|]. split; [lia|]. intros He%Nat2Z.inj. apply slot_inj in He; [lia|done|lia].
Qed.

(** The copy loop of the producer, run alone. *)
Lemma copy_run r c snt rcv src off first k q :
  inv (mk_sys r (PCopy src off first k) c snt rcv) q →
  ∃ d, rtc step (mk_sys r (PCopy src off first k) c snt rcv)
         (mk_sys (set_data d r) (PCopy src off first (length src)) c snt rcv) ∧
    inv (mk_sys (set_data d r) (PCopy src off first (length src)) c snt rcv) q ∧
    (∀ x, (∀ i, (i < length src)%nat →
       x ≠ slot r (Z.of_nat (length rcv) + Z.of_nat (length q) + Z.of_nat i)) →
       d !! x = data r !! x).
Proof.
  intros Hinv. assert (k ≤ length src)%nat as Hk by apply (inv_p _ _ Hinv).
  remember (length src - k)%nat as m eqn:Em.
  revert r k Hinv Hk Em. induction m as [|m IH]; intros r k Hinv Hk Em.
  - assert (k = length src) as -> by lia. exists (data r).
    assert (set_data (data r) r = r) as -> by (by destruct r).
    split; [apply rtc_refl|]. split; [done|]. done.
  - destruct (lookup_lt_is_Some_2 src k) as [b Hb]; [lia|].
    destruct (inv_copy r c snt rcv src off first k b q Hb Hinv) as [E Hi].
    set (H := Z.of_nat (length rcv) + Z.of_nat (length q)) in *.
    set (d1 := <[slot r (H + Z.of_nat k) := b]> (data r)) in *.
    destruct (IH (set_data d1 r) (S k) Hi) as (d & Hrun & Hd & Hout); [lia|lia|].
    exists d. split; [|split; [exact Hd|]].
    + eapply rtc_l; [|exact Hrun]. by apply p_copy with b.
    + intros x Hx. rewrite Hout by exact Hx. change (data (set_data d1 r)) with d1.
      unfold d1. apply list_lookup_insert_ne. intros He. apply (Hx k); [lia|]. done.
Qed.

(** The step-by-step producer run alone performs [append]: a sequential append is the
    composition of the thread's steps. *)
Theorem append_is_producer_run r c snt rcv src r' q :
  inv (mk_sys r PIdle c snt rcv) q → Z.of_nat (length src) < 2 ^ 32 → src ≠ [] →
  append r src = Some (true, r') →
  rtc step (mk_sys r PIdle c snt rcv) (mk_sys r' PIdle c (snt ++ src) rcv).
Proof.
  intros Hinv Hlen Hne Happ.
  pose proof Hinv as [Hok Hhold Hsent Hp Hc]. cbn [reg ppc cpc sent received] in *.
  unfold append in Happ. rewrite (ok_valid r Hok) in Happ. cbn [negb orb] in Happ.
  rewrite (proj2 (Z.eqb_neq _ 0)) in Happ by (destruct src; [done|cbn [length]; lia]).
  destruct (free_bytes r <? _) eqn:Ef; [done|].
  set (off := transfer_off r (head (hdr r))).
  set (first := transfer_first r off (Z.of_nat (length src))).
  assert (step (mk_sys r PIdle c snt rcv) (mk_sys r (PCopy src off first 0) c snt rcv)) as H1
    by (by apply p_begin).
  destruct (step_inv _ _ q H1 Hinv) as [q1 Hinv1].
  assert (q1 = q) as ->.
  { pose proof (inv_sent _ _ Hinv1) as E. cbn [sent received] in E. rewrite Hsent in E.
    by apply app_inv_head in E. }
  destruct (copy_run _ _ _ _ _ _ _ _ _ Hinv1) as (d & Hrun & Hinv2 & Hout).
  destruct (write_split_ok r (Z.of_nat (length rcv) + Z.of_nat (length q)) src)
    as (d' & Ed & Ld & Kin & Kout); [done|apply (holds_head r _ q Hhold)| |].
  { pose proof (inv_p _ _ Hinv1) as (_ & P2 & _). cbn [reg] in P2. lia. }
  rewrite Ed in Happ. cbn [mbind option_bind] in Happ.
  apply Some_inj, pair_equal_spec in Happ as [_ <-].
  assert (d = d') as <-.
  { pose proof (inv_p _ _ Hinv2) as (_ & _ & _ & _ & _ & P6).
    cbn [reg received] in P6.
    apply list_eq. intros x.
    destruct (decide (Exists (λ i,
      x = slot r (Z.of_nat (length rcv) + Z.of_nat (length q) + Z.of_nat i))
      (seq 0 (length src)))) as [Hex|Hnex].
    - apply Exists_exists in Hex as (i & Hi & ->). apply elem_of_seq in Hi.
      rewrite Kin by lia. apply P6. lia.
    - rewrite Kout, Hout; [done|..]; intros i Hi ->; apply Hnex, Exists_exists;
        exists i; (split; [apply elem_of_seq; lia|done]). }
  eapply rtc_l; [exact H1|]. eapply rtc_r; [exact Hrun|].
  apply (p_publish (set_data d r)).
Qed.

(** *** A run with both threads copying *)

Definition ring8_init : Region :=
  mk_region (mk_header 0 0 0 0 0 0 0 0 0 (replicate 64 nul) (replicate 64 nul)
    (replicate 64 nul)) (replicate 8 nul).
Definition ring8 : Region :=
  match ring_init (Some ring8_init) 8 with (_, Some r) => r | _ => ring8_init end.

Lemma ring8_run : ∃ s, rtc step (boot ring8) s ∧
  ppc s = PCopy "cd" 2 2 1 ∧ cpc s = CCopy 2 0 2 ["a"%byte] ∧ sent s = "ab".
Proof.
  eexists. split.
  - eapply rtc_l; [apply (p_begin _ _ _ _ "ab"); [done|done|vm_compute; reflexivity]|].
    eapply rtc_l; [eapply p_copy; vm_compute; reflexivity|].
    eapply rtc_l; [eapply p_copy; vm_compute; reflexivity|].
    eapply rtc_l; [apply p_publish|].
    eapply rtc_l; [apply (p_begin _ _ _ _ "cd"); [done|done|vm_compute; reflexivity]|].
    eapply rtc_l; [apply (c_begin _ _ _ _ 64); lia|].
    eapply rtc_l; [eapply p_copy; vm_compute; reflexivity|].
    apply rtc_once. eapply c_copy; [vm_compute; reflexivity|vm_compute; reflexivity].
  - vm_compute. auto.
Qed.

Lemma ring_fifo_witness : ∃ s q, rtc step (boot ring8) s ∧ cpc s ≠ CIdle ∧
  sent s = received s ++ q ∧ Z.of_nat (length q) ≤ 7.
Proof.
  destruct ring8_run as (s & Hs & Hp & Hc & Hsent).
  destruct (ring_fifo ring8_init 8 ring8 s) as (q & H1 & H2 & _);
    [lia|reflexivity|reflexivity|exact Hs|].
  exists s, q. split; [exact Hs|]. split; [rewrite Hc; discriminate|].
  split; [exact H1|lia].
Defined.

Lemma ring_race_free_witness : ∃ s, rtc step (boot ring8) s ∧
  split_slot 2 2 1 ≠ split_slot 0 2 1.
Proof.
  destruct ring8_run as (s & Hs & Hp & Hc & _). exists s. split; [exact Hs|].
  apply (ring_race_free ring8_init 8 ring8 s "cd" 2 2 1 2 0 2 ["a"%byte]);
    [lia|reflexivity|reflexivity|exact Hs|exact Hp|cbn; lia|exact Hc|cbn; lia].
Defined.

Lemma append_is_producer_run_witness : ∃ r',
  rtc step (boot ring8) (mk_sys r' PIdle CIdle "hello" []) ∧ head (hdr r') = 5.
Proof.
  assert (∃ r', append ring8 "hello" = Some (true, r') ∧ head (hdr r') = 5) as (r' & E & Hh)
    by (eexists; split; vm_compute; reflexivity).
  exists r'. split; [|exact Hh].
  apply (append_is_producer_run ring8 CIdle [] [] "hello" r' []);
    [|cbn; lia|discriminate|exact E].
  apply (boot_inv ring8_init 8 ring8); [lia|reflexivity|reflexivity].
Defined.
End Threads.

(** A ring whose cursors are about to wrap around 2^64. *)
Definition wrap_ring : Region :=
  mk_region (mk_header kMagic kVersion 8 (2 ^ 64 - 1) (2 ^ 64 - 3) 0 0 0 0 [] [] []) "xxxxxabx".
Lemma wrap_ring_ok : ring_ok wrap_ring.
Proof. split; [reflexivity|cbn; lia|reflexivity]. Qed.
Lemma wrap_ring_holds : holds wrap_ring (2 ^ 64 - 3) "ab".
Proof.
  split; [reflexivity|reflexivity|cbn; lia|].
  intros i Hi. destruct i as [|[|i]]; [reflexivity|reflexivity|cbn in Hi; lia].
Qed.

Lemma append_fifo_witness : ∃ r', append wrap_ring "cdefg" = Some (true, r') ∧
  head (hdr r') = 4 ∧ holds r' (2 ^ 64 - 3) "abcdefg".
Proof.
  pose proof (append_fifo wrap_ring (2 ^ 64 - 3) "ab" "cdefg" wrap_ring_ok wrap_ring_holds)
    as H.
  specialize (H ltac:(cbn; lia)).
  destruct (decide _) as [_|n]; [|exfalso; apply n; cbn; lia].
  destruct H as (r' & E & _ & Hh & _). exists r'. split; [exact E|]. split; [|exact Hh].
  rewrite (holds_head _ _ _ Hh). reflexivity.
Defined.

Lemma snapshot_advance_fifo_witness :
  snapshot wrap_ring 1 = Some ("a" : bytes) ∧ holds (advance wrap_ring 1) (2 ^ 64 - 2) "b".
Proof.
  destruct (snapshot_advance_fifo wrap_ring (2 ^ 64 - 3) "ab" 1 wrap_ring_ok wrap_ring_holds)
    as (E & _ & Hh); [lia|]. split; [exact E|exact Hh].
Defined.

Lemma c_append_agrees_witness : alr_ring_append wrap_ring "cdefg" = append wrap_ring "cdefg".
Proof. apply (c_append_agrees wrap_ring "cdefg"). cbn. lia. Defined.
Close Scope Z_scope.
