(* ===== verification/Wire.v ===== *)
(** * Little-endian streams

    The bounds-checked cursor of the command-stream decoders ([Reader] of
    [alr_gpu_decode.hpp], [VkReader] of [alr_gpu_vk_decode.hpp]) as a parser monad,
    the encoders that write what it reads, and the two facts every decoder is proved
    with: a reader gives back what was encoded, and it looks only at what it
    consumes. *)

From S2P Require Import Prelude Bytes.
Open Scope Z_scope.

(** ** The cursor

    The cursor is the unread suffix of the buffer. *)

Definition rd (A : Type) : Type := bytes → option (A * bytes).
#[export] Instance rd_ret : MRet rd := λ A a s, Some (a, s).
#[export] Instance rd_bind : MBind rd := λ A B f m s,
  match m s with Some (a, s') => f a s' | None => None end.

(** [take]: [if (pos_ + bytes > n_) return false]. *)
Definition rd_take (n : Z) : rd bytes := λ s,
  if Z.of_nat (length s) <? n then None
  else Some (take (Z.to_nat n) s, drop (Z.to_nat n) s).
Definition rd_u8 : rd Z := b ← rd_take 1; mret (le_val b).
Definition rd_u16 : rd Z := b ← rd_take 2; mret (le_val b).
Definition rd_u32 : rd Z := b ← rd_take 4; mret (le_val b).
Definition rd_u64 : rd Z := b ← rd_take 8; mret (le_val b).
Definition rd_i32 : rd Z := b ← rd_take 4; mret (s32 (le_val b)).
(** A float is its bit pattern. *)
Definition rd_f32 : rd Z := b ← rd_take 4; mret (le_val b).
Definition rd_blob : rd bytes := len ← rd_u32; rd_take len.
(** [for (i = 0; i < n; ++i) if (!read(dst[i])) return false;]  Every element
    consumes at least one byte, so the buffer bounds the iterations. *)
Fixpoint rd_loop {A} (f : rd A) (fuel : nat) (n : Z) : rd (list A) :=
  if n <=? 0 then mret []
  else match fuel with
       | O => λ _, None
       | S fuel => v ← f; vs ← rd_loop f fuel (n - 1); mret (v :: vs)
       end.
Definition rd_words {A} (f : rd A) (n : Z) : rd (list A) := λ s, rd_loop f (length s) n s.
Definition rd_floats (n : Z) : rd (list Z) := rd_words rd_f32 n.
Definition rd_fail {A} : rd A := λ _, None.


(** ** The encoders *)

(** One call on an encoder. *)
Inductive wire :=
  WU8 (z : Z) | WU16 (z : Z) | WU32 (z : Z) | WU64 (z : Z) | WI32 (z : Z) | WF32 (z : Z)
| WBlob (d : bytes) | WRaw (d : bytes).

(** [Encoder] of [alr_gpu_decode.hpp]: the bytes the call appends. *)
Definition enc_wire (x : wire) : bytes :=
  match x with
  | WU8 z => le_bytes 1 z
  | WU32 z | WI32 z | WF32 z => le_bytes 4 z
  | WU16 z => le_bytes 2 z
  | WU64 z => le_bytes 8 z
  | WBlob d => le_bytes 4 (Z.of_nat (length d)) ++ d
  | WRaw d => d
  end.
(** The calls [ws] in front of [rest]. *)
Definition enc_onto (ws : list wire) (rest : bytes) : bytes :=
  foldr (λ x acc, enc_wire x ++ acc) rest ws.

(** The values the C types hold. *)
Definition wire_ok (x : wire) : Prop :=
  match x with
  | WU8 z => 0 ≤ z < 2 ^ 8
  | WU32 z | WF32 z => 0 ≤ z < 2 ^ 32
  | WI32 z => - 2 ^ 31 ≤ z < 2 ^ 31
  | WU16 z => 0 ≤ z < 2 ^ 16
  | WU64 z => 0 ≤ z < 2 ^ 64
  | WBlob d | WRaw d => Z.of_nat (length d) < 2 ^ 32
  end.

(** ** Reading back what was encoded *)

Lemma le_val1 z : 0 ≤ z < 2 ^ 8 → le_val (le_bytes 1 z) = z.
Proof. intros Hz. rewrite le_val_bytes. by apply Z.mod_small. Qed.

Lemma rd_take_app p s : rd_take (Z.of_nat (length p)) (p ++ s) = Some (p, s).
Proof.
  unfold rd_take. rewrite length_app.
  rewrite (proj2 (Z.ltb_ge _ _)) by lia. rewrite Nat2Z.id, take_app_length, drop_app_length.
  done.
Qed.
Lemma rd_take_le n z s :
  rd_take (Z.of_nat n) (le_bytes n z ++ s) = Some (le_bytes n z, s).
Proof. rewrite <- (le_bytes_length n z) at 1. apply rd_take_app. Qed.

Lemma rd_bind_eq {A B} (m : rd A) (f : A → rd B) s a s' :
  m s = Some (a, s') → (m ≫= f) s = f a s'.
Proof. intros H. unfold mbind, rd_bind. by rewrite H. Qed.

Lemma s32_u32 z : - 2 ^ 31 ≤ z < 2 ^ 31 → s32 (z mod 2 ^ 32) = z.
Proof.
  intros Hz. unfold s32, u32. rewrite Z.mod_mod by lia.
  destruct (decide (0 ≤ z)).
  - rewrite Z.mod_small by lia. destruct (_ <? _) eqn:E; lia.
  - assert (z mod 2 ^ 32 = z + 2 ^ 32) as ->.
    { symmetry. apply (Z.mod_unique _ _ (-1)); lia. }
    destruct (_ <? _) eqn:E; lia.
Qed.

Lemma rd_u8_enc z s : 0 ≤ z < 2 ^ 8 → rd_u8 (enc_wire (WU8 z) ++ s) = Some (z, s).
Proof.
  intros Hz. unfold rd_u8. rewrite (rd_bind_eq _ _ _ _ _ (rd_take_le 1 z s)).
  unfold mret, rd_ret. by rewrite le_val1.
Qed.
Lemma rd_u16_enc z s : 0 ≤ z < 2 ^ 16 → rd_u16 (enc_wire (WU16 z) ++ s) = Some (z, s).
Proof.
  intros Hz. unfold rd_u16. rewrite (rd_bind_eq _ _ _ _ _ (rd_take_le 2 z s)).
  unfold mret, rd_ret. by rewrite le_val2.
Qed.
Lemma rd_u64_enc z s : 0 ≤ z < 2 ^ 64 → rd_u64 (enc_wire (WU64 z) ++ s) = Some (z, s).
Proof.
  intros Hz. unfold rd_u64. rewrite (rd_bind_eq _ _ _ _ _ (rd_take_le 8 z s)).
  unfold mret, rd_ret. by rewrite le_val8.
Qed.
Lemma rd_u32_enc z s : 0 ≤ z < 2 ^ 32 → rd_u32 (enc_wire (WU32 z) ++ s) = Some (z, s).
Proof.
  intros Hz. unfold rd_u32. rewrite (rd_bind_eq _ _ _ _ _ (rd_take_le 4 z s)).
  unfold mret, rd_ret. by rewrite le_val4.
Qed.
Lemma rd_f32_enc z s : 0 ≤ z < 2 ^ 32 → rd_f32 (enc_wire (WF32 z) ++ s) = Some (z, s).
Proof. apply rd_u32_enc. Qed.
Lemma rd_i32_enc z s : - 2 ^ 31 ≤ z < 2 ^ 31 → rd_i32 (enc_wire (WI32 z) ++ s) = Some (z, s).
Proof.
  intros Hz. unfold rd_i32. rewrite (rd_bind_eq _ _ _ _ _ (rd_take_le 4 z s)).
  unfold mret, rd_ret. rewrite le_val_bytes. change (256 ^ Z.of_nat 4) with (2 ^ 32).
  by rewrite s32_u32.
Qed.
Lemma rd_blob_enc d s :
  Z.of_nat (length d) < 2 ^ 32 → rd_blob (enc_wire (WBlob d) ++ s) = Some (d, s).
Proof.
  intros Hz. unfold rd_blob. cbn [enc_wire]. rewrite <- (assoc_L (++)).
  rewrite (rd_bind_eq _ _ _ _ _ (rd_u32_enc _ _ (conj (Zle_0_nat _) Hz))).
  apply rd_take_app.
Qed.

Lemma rd_uint_range n s z s' :
  0 ≤ n → (b ← rd_take n; mret (le_val b)) s = Some (z, s') → 0 ≤ z < 256 ^ n.
Proof.
  intros Hn. unfold mbind, rd_bind, rd_take. destruct (_ <? n) eqn:E; [done|].
  intros [= <- _]. pose proof (le_val_range (take (Z.to_nat n) s)) as H.
  rewrite length_take in H. replace (Z.of_nat (Z.to_nat n `min` length s)) with n in H by lia.
  done.
Qed.
Lemma rd_u32_range s z s' : rd_u32 s = Some (z, s') → 0 ≤ z < 2 ^ 32.
Proof. intros H. by apply (rd_uint_range 4) in H. Qed.
Lemma rd_u64_range s z s' : rd_u64 s = Some (z, s') → 0 ≤ z < 2 ^ 64.
Proof. intros H. by apply (rd_uint_range 8) in H. Qed.

(** A run of encoded words. *)
Lemma rd_words_enc (f : rd Z) (c : Z → wire) (P : Z → Prop) (v : list Z) rest :
  (∀ z s, P z → f (enc_wire (c z) ++ s) = Some (z, s)) →
  (∀ z, length (enc_wire (c z)) = 4%nat) →
  Forall P v →
  rd_words f (Z.of_nat (length v)) (enc_onto (c <$> v) rest) = Some (v, rest).
Proof.
  intros Hf Hlen Hv. unfold rd_words.
  assert (length v ≤ length (enc_onto (c <$> v) rest))%nat as Hfuel.
  { clear Hv. induction v as [|z v IH]; cbn [fmap list_fmap length enc_onto foldr]; [lia|].
    rewrite length_app, Hlen. unfold enc_onto in IH. lia. }
  revert Hfuel. generalize (length (enc_onto (c <$> v) rest)) as fuel.
  induction Hv as [|z v Hz Hv IH]; intros fuel Hfuel.
  - by destruct fuel.
  - destruct fuel as [|fuel]; cbn [length] in Hfuel; [lia|].
    cbn [rd_loop length fmap list_fmap enc_onto foldr].
    rewrite (proj2 (Z.leb_gt _ _)) by lia.
    rewrite (rd_bind_eq _ _ _ _ _ (Hf z _ Hz)).
    replace (Z.of_nat (S (length v)) - 1) with (Z.of_nat (length v)) by lia.
    rewrite (rd_bind_eq _ _ _ _ _ (IH fuel ltac:(lia))). done.
Qed.

Lemma rd_floats_enc n v rest :
  Z.of_nat (length v) = n →
  Forall wire_ok (WF32 <$> v) →
  rd_words rd_f32 n (enc_onto (WF32 <$> v) rest) = Some (v, rest).
Proof.
  intros <- Hv. apply (proj1 (Forall_fmap WF32 wire_ok v)) in Hv.
  apply (rd_words_enc rd_f32 WF32 (λ z, 0 ≤ z < 2 ^ 32)); [apply rd_f32_enc| |exact Hv].
  intros z. apply le_bytes_length.
Qed.
Lemma rd_u32s_enc n v rest :
  Z.of_nat (length v) = n →
  Forall wire_ok (WU32 <$> v) →
  rd_words rd_u32 n (enc_onto (WU32 <$> v) rest) = Some (v, rest).
Proof.
  intros <- Hv. apply (proj1 (Forall_fmap WU32 wire_ok v)) in Hv.
  apply (rd_words_enc rd_u32 WU32 (λ z, 0 ≤ z < 2 ^ 32)); [apply rd_u32_enc| |exact Hv].
  intros z. apply le_bytes_length.
Qed.
Lemma rd_i32s_enc n v rest :
  Z.of_nat (length v) = n →
  Forall wire_ok (WI32 <$> v) →
  rd_words rd_i32 n (enc_onto (WI32 <$> v) rest) = Some (v, rest).
Proof.
  intros <- Hv. apply (proj1 (Forall_fmap WI32 wire_ok v)) in Hv.
  apply (rd_words_enc rd_i32 WI32 (λ z, - 2 ^ 31 ≤ z < 2 ^ 31));
    [apply rd_i32_enc| |exact Hv].
  intros z. apply le_bytes_length.
Qed.

(** Read one encoded field. *)
Ltac rd_field :=
  first
    [ erewrite rd_bind_eq by (apply rd_u32_enc; assumption)
    | erewrite rd_bind_eq by (apply rd_i32_enc; assumption)
    | erewrite rd_bind_eq by (apply rd_u8_enc; assumption)
    | erewrite rd_bind_eq by (apply rd_f32_enc; assumption)
    | erewrite rd_bind_eq by (apply rd_u64_enc; assumption)
    | erewrite rd_bind_eq by (apply rd_blob_enc; assumption)
    | erewrite rd_bind_eq by (apply rd_floats_enc; [lia|assumption])
    | erewrite rd_bind_eq by (apply rd_u32s_enc; [lia|assumption])
    | erewrite rd_bind_eq by (apply rd_i32s_enc; [lia|assumption]) ].

(** ** Readers look only at what they consume *)

Definition local {A} (m : rd A) : Prop := ∀ s a s',
  m s = Some (a, s') → (∃ p, s = p ++ s') ∧ ∀ t, m (s ++ t) = Some (a, s' ++ t).

Create HintDb rd.

Lemma local_ret {A} (a : A) : local (mret a).
Proof. intros s a' s' [= -> ->]. split; [by exists []|done]. Qed.
Lemma local_fail {A} : local (@rd_fail A).
Proof. by intros s a s'. Qed.
Lemma local_bind {A B} (m : rd A) (f : A → rd B) :
  local m → (∀ a, local (f a)) → local (m ≫= f).
Proof.
  intros Hm Hf s b s'. unfold mbind, rd_bind.
  destruct (m s) as [[a s1]|] eqn:E; [|done]. intros E2.
  destruct (Hm _ _ _ E) as [[p1 ->] K1]. destruct (Hf _ _ _ _ E2) as [[p2 ->] K2].
  split; [exists (p1 ++ p2); by rewrite (assoc_L (++))|]. intros t. by rewrite K1, K2.
Qed.
Lemma local_if {A} (b : bool) (m1 m2 : rd A) :
  local m1 → local m2 → local (if b then m1 else m2).
Proof. by destruct b. Qed.
#[export] Hint Resolve local_ret local_fail local_bind local_if : rd.

Lemma local_take n : local (rd_take n).
Proof.
  intros s a s'. unfold rd_take. destruct (_ <? _) eqn:E; [done|]. intros [= <- <-].
  split; [exists (take (Z.to_nat n) s); by rewrite take_drop|]. intros t.
  rewrite length_app, (proj2 (Z.ltb_ge _ _)) by lia.
  rewrite take_app_le, drop_app_le by lia. done.
Qed.
#[export] Hint Resolve local_take : rd.
Lemma local_u8 : local rd_u8.
Proof. unfold rd_u8. auto with rd. Qed.
Lemma local_u16 : local rd_u16.
Proof. unfold rd_u16. auto with rd. Qed.
Lemma local_u64 : local rd_u64.
Proof. unfold rd_u64. auto with rd. Qed.
Lemma local_u32 : local rd_u32.
Proof. unfold rd_u32. auto with rd. Qed.
Lemma local_i32 : local rd_i32.
Proof. unfold rd_i32. auto with rd. Qed.
Lemma local_f32 : local rd_f32.
Proof. unfold rd_f32. auto with rd. Qed.
#[export] Hint Resolve local_u8 local_u16 local_u64 local_u32 local_i32 local_f32 : rd.
Lemma local_blob : local rd_blob.
Proof. unfold rd_blob. auto with rd. Qed.

Lemma local_loop {A} (f : rd A) fuel n : local f → local (rd_loop f fuel n).
Proof.
  intros Hf. revert n. induction fuel as [|fuel IH]; intros n; cbn [rd_loop];
    apply local_if; auto with rd.
Qed.
Lemma rd_loop_mono {A} (f : rd A) fuel fuel' n s r :
  (fuel ≤ fuel')%nat → rd_loop f fuel n s = Some r → rd_loop f fuel' n s = Some r.
Proof.
  revert fuel' n s r. induction fuel as [|fuel IH]; intros fuel' n s r Hle H.
  - destruct fuel'; cbn [rd_loop] in *; by destruct (n <=? 0).
  - destruct fuel' as [|fuel']; [lia|]. cbn [rd_loop] in *. destruct (n <=? 0); [done|].
    unfold mbind, rd_bind in *. destruct (f s) as [[v s1]|]; [|done].
    destruct (rd_loop f fuel (n - 1) s1) as [[vs s2]|] eqn:E; [|done].
    apply (IH fuel') in E; [|lia]. by rewrite E.
Qed.
Lemma local_words {A} (f : rd A) n : local f → local (rd_words f n).
Proof.
  intros Hf s a s' H. unfold rd_words in *.
  destruct (local_loop f (length s) n Hf _ _ _ H) as [Hp Ht]. split; [done|].
  intros t. apply (rd_loop_mono f (length s)); [rewrite length_app; lia|apply Ht].
Qed.
#[export] Hint Resolve local_blob local_words : rd.

Lemma local_floats n : local (rd_floats n).
Proof. unfold rd_floats. auto with rd. Qed.
#[export] Hint Resolve local_floats : rd.
(** ** Encoders over a caller-owned buffer of fixed capacity

    [AlrEncoder] of [alr_gles_proto.h]; the [raw] of [AlrVkCmdRecorder] and
    [AlrVkCmdEncoder] is the same function. *)

Record AlrEncoder := mk_enc { enc_buf : bytes; enc_cap : Z; enc_overflow : bool }.
Definition alr_enc_init (cap : Z) : AlrEncoder := mk_enc [] cap false.
Definition alr_enc_raw (e : AlrEncoder) (p : bytes) : AlrEncoder :=
  if enc_overflow e then e
  else if enc_cap e <? Z.of_nat (length (enc_buf e)) + Z.of_nat (length p)
  then mk_enc (enc_buf e) (enc_cap e) true
  else mk_enc (enc_buf e ++ p) (enc_cap e) false.
Definition alr_enc_blob (e : AlrEncoder) (d : bytes) : AlrEncoder :=
  let e := alr_enc_raw e (le_bytes 4 (Z.of_nat (length d))) in
  match d with [] => e | _ => alr_enc_raw e d end.
(** The GLES encoder has no 16-bit, 64-bit or unprefixed field, the Vulkan ones no
    length-prefixed field. *)
Definition alr_enc (e : AlrEncoder) (x : wire) : AlrEncoder :=
  match x with
  | WU8 z => alr_enc_raw e (le_bytes 1 z)
  | WU32 z | WI32 z | WF32 z => alr_enc_raw e (le_bytes 4 z)
  | WBlob d => alr_enc_blob e d
  | WU16 _ | WU64 _ | WRaw _ => alr_enc_raw e (enc_wire x)
  end.
Definition alr_enc_all (e : AlrEncoder) (ws : list wire) : AlrEncoder := foldl alr_enc e ws.

(** The raw writes of one call. *)
Definition chunks (x : wire) : list bytes :=
  match x with
  | WU8 z => [le_bytes 1 z]
  | WU32 z | WI32 z | WF32 z => [le_bytes 4 z]
  | WBlob [] => [le_bytes 4 0]
  | WBlob d => [le_bytes 4 (Z.of_nat (length d)); d]
  | WU16 _ | WU64 _ | WRaw _ => [enc_wire x]
  end.

Lemma alr_enc_chunks e x : alr_enc e x = foldl alr_enc_raw e (chunks x).
Proof. destruct x as [| | | | | |[]|]; reflexivity. Qed.
Lemma concat_chunks x : concat (chunks x) = enc_wire x.
Proof.
  destruct x as [z|z|z|z|z|z|[|b d]|d]; cbn [chunks concat enc_wire];
    rewrite ?app_nil_r; reflexivity.
Qed.

Lemma alr_overflowed e ps : enc_overflow e = true → foldl alr_enc_raw e ps = e.
Proof.
  intros He. induction ps as [|p ps IH]; [done|]. cbn [foldl].
  unfold alr_enc_raw at 2. by rewrite He.
Qed.

Lemma alr_raws e ps :
  enc_overflow e = false → Z.of_nat (length (enc_buf e)) ≤ enc_cap e →
  let all := enc_buf e ++ concat ps in
  let e' := foldl alr_enc_raw e ps in
  Z.of_nat (length (enc_buf e')) ≤ enc_cap e ∧
  (if enc_cap e <? Z.of_nat (length all) then enc_overflow e' = true ∧ enc_buf e' `prefix_of` all
   else e' = mk_enc all (enc_cap e) false).
Proof.
  revert e. induction ps as [|p ps IH]; intros e He Hlen; cbn [foldl concat].
  - rewrite app_nil_r, (proj2 (Z.ltb_ge _ _)) by done. split; [done|].
    destruct e; cbn [enc_overflow] in He. by subst.
  - assert (alr_enc_raw e p =
      if enc_cap e <? Z.of_nat (length (enc_buf e)) + Z.of_nat (length p)
      then mk_enc (enc_buf e) (enc_cap e) true
      else mk_enc (enc_buf e ++ p) (enc_cap e) false) as ->
      by (unfold alr_enc_raw; by rewrite He).
    destruct (enc_cap e <? Z.of_nat (length (enc_buf e)) + _) eqn:E.
    + rewrite !alr_overflowed by done. cbn [enc_buf enc_overflow]. split; [done|].
      rewrite (proj2 (Z.ltb_lt _ _)); [|rewrite !length_app; lia].
      split; [done|]. by apply prefix_app_r.
    + destruct (IH (mk_enc (enc_buf e ++ p) (enc_cap e) false)) as [H1 H2];
        [done|cbn [enc_buf enc_cap]; rewrite length_app; lia|].
      cbn [enc_buf enc_cap] in H1, H2. rewrite <- (assoc_L (++)) in H2. done.
Qed.

Lemma enc_onto_app a b s : enc_onto (a ++ b) s = enc_onto a (enc_onto b s).
Proof. apply foldr_app. Qed.
Lemma enc_onto_nil ws s : enc_onto ws s = enc_onto ws [] ++ s.
Proof.
  unfold enc_onto. induction ws as [|x l IH]; [done|]. cbn [foldr].
  by rewrite IH, (assoc_L (++)).
Qed.

Lemma alr_all_raws ws e :
  alr_enc_all e ws = foldl alr_enc_raw e (concat (chunks <$> ws)).
Proof.
  revert e. unfold alr_enc_all. induction ws as [|x l IH]; intros e; [done|].
  cbn [foldl fmap list_fmap concat]. rewrite foldl_app, <- alr_enc_chunks. apply IH.
Qed.
Lemma concat_all_chunks ws : concat (concat (chunks <$> ws)) = enc_onto ws [].
Proof.
  unfold enc_onto. induction ws as [|x l IH]; [done|].
  cbn [fmap list_fmap concat foldr]. by rewrite concat_app, IH, concat_chunks.
Qed.

(** What a sequence of encoder calls leaves in the buffer. *)
Lemma alr_all_bytes ws cap :
  0 ≤ cap →
  let e := alr_enc_all (alr_enc_init cap) ws in
  Z.of_nat (length (enc_buf e)) ≤ cap ∧
  (if cap <? Z.of_nat (length (enc_onto ws []))
   then enc_overflow e = true ∧ enc_buf e `prefix_of` enc_onto ws []
   else e = mk_enc (enc_onto ws []) cap false).
Proof.
  intros Hcap. cbv zeta. rewrite alr_all_raws.
  pose proof (alr_raws (alr_enc_init cap) (concat (chunks <$> ws)) eq_refl) as H.
  cbv zeta in H. cbn [alr_enc_init enc_buf enc_cap app length] in H.
  rewrite concat_all_chunks in H. apply H. lia.
Qed.
Lemma alr_all_append ws e :
  enc_overflow e = false →
  Z.of_nat (length (enc_buf e)) + Z.of_nat (length (enc_onto ws [])) ≤ enc_cap e →
  alr_enc_all e ws = mk_enc (enc_buf e ++ enc_onto ws []) (enc_cap e) false.
Proof.
  intros He Hle. rewrite alr_all_raws.
  pose proof (alr_raws e (concat (chunks <$> ws)) He ltac:(lia)) as [_ H].
  cbv zeta in H. rewrite concat_all_chunks, length_app in H.
  rewrite (proj2 (Z.ltb_ge _ _)) in H by lia. exact H.
Qed.
Close Scope Z_scope.
