(* ===== verification/VkArena.v ===== *)
(** * The shared arena: [generated/alr_gpu_vk_arena.hpp]

    The region the guest and the host both map: its creation, the bump allocator, the
    resolution of offsets, and the bytes.  The Vulkan import and the staged copies of
    the header call the driver and are not modelled. *)

From S2P Require Import Prelude Bytes.
Open Scope Z_scope.

(** ** The arena *)

(** [base]: the bytes of the mapping, [None] before it exists; [next]: the bump cursor. *)
Record AlrVkArena := mk_arena { size : Z; base : option bytes; next : Z }.
Definition kAlrVkArenaDefaultBytes : Z := 256 * 1024 * 1024.
Definition kAlrVkArenaNoOffset : Z := 2 ^ 64 - 1.
Definition no_arena : AlrVkArena := mk_arena 0 None 0.

Definition alr_vk_arena_page_round (n : Z) : Z :=
  Z.land (u64 (n + 4096 - 1)) (u64 (Z.lnot (4096 - 1))).

Definition arena_ready (a : AlrVkArena) : bool := bool_decide (is_Some (base a)).

(** [os sz]: [memfd_create], [ftruncate] and [mmap] of [sz] bytes succeed. *)
Definition alr_vk_arena_create (os : Z → bool) (n : Z) (a : AlrVkArena) : bool * AlrVkArena :=
  if arena_ready a then (true, a)
  else
    let sz := alr_vk_arena_page_round (if n =? 0 then kAlrVkArenaDefaultBytes else n) in
    if os sz then (true, mk_arena sz (Some (replicate (Z.to_nat sz) Byte.x00)) 0)
    else (false, a).

(** [None] is the null pointer; a pointer into the mapping is its offset. *)
Definition alr_vk_arena_ptr (a : AlrVkArena) (off : Z) : option Z :=
  if (off =? kAlrVkArenaNoOffset) || negb (arena_ready a) || (size a <=? off)
  then None else Some off.

Definition alr_vk_arena_alloc (a : AlrVkArena) (n : Z) : Z * AlrVkArena :=
  if negb (arena_ready a) || (n =? 0) then (kAlrVkArenaNoOffset, a)
  else
    let need := alr_vk_arena_page_round n in
    if size a <? u64 (next a + need) then (kAlrVkArenaNoOffset, a)
    else (next a, mk_arena (size a) (base a) (u64 (next a + need))).

(** Successive allocations. *)
Fixpoint alloc_all (a : AlrVkArena) (ns : list Z) : list Z * AlrVkArena :=
  match ns with
  | [] => ([], a)
  | n :: ns' =>
      let '(off, a1) := alr_vk_arena_alloc a n in
      let '(offs, a2) := alloc_all a1 ns' in (off :: offs, a2)
  end.

(** The bytes [[off, off + len)], and a [memcpy] to them through the mapping. *)
Definition arena_bytes (a : AlrVkArena) (off len : Z) : bytes :=
  take (Z.to_nat len) (drop (Z.to_nat off) (default [] (base a))).
Definition arena_store (a : AlrVkArena) (off : Z) (d : bytes) : AlrVkArena :=
  mk_arena (size a)
    ((λ m, take (Z.to_nat off) m ++ d ++ drop (Z.to_nat off + length d) m) <$> base a)
    (next a).

(** ** Page rounding *)

Lemma land_pages x : 0 ≤ x < 2 ^ 64 → Z.land x (u64 (Z.lnot 4095)) = 4096 * (x / 4096).
Proof.
  intros Hx. change (u64 (Z.lnot 4095)) with (Z.shiftl (Z.ones 52) 12).
  change 4096 with (2 ^ 12). rewrite <- Z.shiftr_div_pow2, Z.mul_comm, <- Z.shiftl_mul_pow2 by lia.
  apply Z.bits_inj'. intros n Hn.
  rewrite Z.land_spec, !Z.shiftl_spec by done.
  destruct (decide (n < 12)) as [Hlt|Hge].
  - rewrite !(Z.testbit_neg_r _ (n - 12)) by lia. by rewrite andb_false_r.
  - rewrite Z.shiftr_spec by lia. replace (n - 12 + 12) with n by lia.
    destruct (decide (n < 64)).
    + rewrite Z.ones_spec_low by lia. by rewrite andb_true_r.
    + rewrite <- (Z.mod_small x (2 ^ 64)) by lia.
      rewrite Z.mod_pow2_bits_high by lia. done.
Qed.

Lemma page_round_spec n :
  0 ≤ n ≤ 2 ^ 64 - 4096 →
  let r := alr_vk_arena_page_round n in
  n ≤ r < n + 4096 ∧ r mod 4096 = 0 ∧ 0 ≤ r.
Proof.
  intros Hn. unfold alr_vk_arena_page_round. change (4096 - 1) with 4095.
  replace (n + 4096 - 1) with (n + 4095) by lia. rewrite u64_small by lia.
  rewrite land_pages by lia. cbv zeta.
  pose proof (Z.div_mod (n + 4095) 4096 ltac:(lia)).
  pose proof (Z.mod_pos_bound (n + 4095) 4096 ltac:(lia)).
  split; [lia|]. split; [|lia].
  rewrite Z.mul_comm. by apply Z.mod_mul.
Qed.

(** ** Allocation *)

Record arena_ok (a : AlrVkArena) : Prop := {
  ok_ready : is_Some (base a);
  ok_mem : Z.of_nat (length (default [] (base a))) = size a;
  ok_size : size a ≤ 2 ^ 63;
  ok_next : 0 ≤ next a ≤ size a;
  ok_page : next a mod 4096 = 0
}.

Lemma arena_ok_ready a : arena_ok a → arena_ready a = true.
Proof. intros [H _ _ _ _]. unfold arena_ready. by apply bool_decide_eq_true_2. Qed.

Lemma alloc_spec a n :
  arena_ok a → 0 ≤ n ≤ 2 ^ 63 - 4096 →
  let '(off, a') := alr_vk_arena_alloc a n in
  arena_ok a' ∧ base a' = base a ∧ size a' = size a ∧
  if bool_decide (n = 0 ∨ size a < next a + alr_vk_arena_page_round n)
  then off = kAlrVkArenaNoOffset ∧ a' = a
  else off = next a ∧ next a' = next a + alr_vk_arena_page_round n.
Proof.
  intros Ha Hn. unfold alr_vk_arena_alloc. rewrite (arena_ok_ready a Ha).
  destruct Ha as [H1 H2 H3 H4 H5].
  destruct (page_round_spec n ltac:(lia)) as (Hr & Hp & Hr0).
  cbn [negb orb]. case_bool_decide as Hcase.
  - assert ((n =? 0) = true ∨ (n =? 0) = false ∧
      (size a <? u64 (next a + alr_vk_arena_page_round n)) = true) as [->|[-> ->]].
    { destruct (n =? 0) eqn:E; [by left|]. right. split; [done|].
      rewrite u64_small by lia. lia. }
    all: repeat split; assumption || lia.
  - rewrite (proj2 (Z.eqb_neq n 0)) by lia. rewrite u64_small by lia.
    rewrite (proj2 (Z.ltb_ge _ _)) by lia.
    repeat split; cbn [base size next]; try assumption || lia.
    rewrite Z.add_mod, H5, Hp by lia. done.
Qed.

Lemma alloc_all_spec a ns :
  arena_ok a → Forall (λ n, 0 ≤ n ≤ 2 ^ 63 - 4096) ns →
  let '(offs, a') := alloc_all a ns in
  arena_ok a' ∧ base a' = base a ∧ size a' = size a ∧ next a ≤ next a' ∧
  length offs = length ns ∧
  (∀ i n off, ns !! i = Some n → offs !! i = Some off → off ≠ kAlrVkArenaNoOffset →
     0 < n ∧ next a ≤ off ∧ off + n ≤ next a' ∧ off mod 4096 = 0) ∧
  (∀ i j n off off', (i < j)%nat → ns !! i = Some n → offs !! i = Some off →
     offs !! j = Some off' → off ≠ kAlrVkArenaNoOffset → off' ≠ kAlrVkArenaNoOffset →
     off + n ≤ off').
Proof.
  intros Ha Hns. revert a Ha. induction Hns as [|n ns Hn Hns IH]; intros a Ha; cbn [alloc_all].
  { split_and!; try done; intros **;
      match goal with H : [] !! _ = Some _ |- _ => by rewrite lookup_nil in H end. }
  pose proof (alloc_spec a n Ha Hn) as Hal.
  destruct (alr_vk_arena_alloc a n) as [off a1]. destruct Hal as (Ha1 & Hb & Hsz & Hcase).
  specialize (IH a1 Ha1). destruct (alloc_all a1 ns) as [offs a2].
  destruct IH as (I1 & I2 & I3 & I4 & I5 & I6 & I7).
  destruct (page_round_spec n ltac:(lia)) as (Hr & _ & _).
  assert (next a ≤ next a1) as Hle by (case_bool_decide; destruct Hcase; subst; lia).
  assert (off ≠ kAlrVkArenaNoOffset →
    0 < n ∧ next a ≤ off ∧ off + n ≤ next a1 ∧ off mod 4096 = 0) as Hoff.
  { intros Hne. case_bool_decide; destruct Hcase as [-> Hc]; [done|].
    pose proof (ok_page a Ha). lia. }
  rewrite I2, I3. split_and!; auto; try (cbn [length]; lia).
  - intros [|i] m o Hm Ho Hne; cbn in Hm, Ho; simplify_eq.
    + destruct (Hoff Hne) as (? & ? & ? & ?). split_and!; [done|lia|lia|done].
    + destruct (I6 i m o Hm Ho Hne) as (? & ? & ? & ?). split_and!; [done|lia|lia|done].
  - intros i j m o o' Hij Hm Ho Ho' Hne Hne'. destruct j as [|j]; [lia|].
    destruct i as [|i]; cbn in Hm, Ho, Ho'; simplify_eq.
    + destruct (proj2 (lookup_lt_is_Some ns j)) as [n' Hn'].
      { rewrite <- I5. by eapply lookup_lt_Some. }
      destruct (I6 j n' o' Hn' Ho' Hne') as (? & ? & ? & ?).
      destruct (Hoff Hne) as (? & ? & ? & ?). lia.
    + apply (I7 i j m o o'); auto. lia.
Qed.

Lemma page_round_nonneg n : 0 ≤ alr_vk_arena_page_round n.
Proof.
  unfold alr_vk_arena_page_round. apply Z.land_nonneg. left. apply u64_range.
Qed.

(** [ftruncate] takes a signed length. *)
Lemma create_ok os n a :
  (∀ sz, os sz = true → sz < 2 ^ 63) →
  alr_vk_arena_create os n no_arena = (true, a) → arena_ok a ∧ next a = 0.
Proof.
  intros Hos. unfold alr_vk_arena_create.
  change (arena_ready no_arena) with false. cbv iota.
  destruct (os _) eqn:E; [|done]. intros [= <-]. split; [|done].
  pose proof (page_round_nonneg (if n =? 0 then kAlrVkArenaDefaultBytes else n)).
  apply Hos in E. split; cbn [base size next default]; [done| |lia|lia|done].
  unfold id. rewrite length_replicate. lia.
Qed.

Lemma alloc_refuses a n :
  arena_ok a → 0 ≤ n ≤ 2 ^ 63 - 4096 →
  (fst (alr_vk_arena_alloc a n) = kAlrVkArenaNoOffset
   ↔ n = 0 ∨ size a < next a + alr_vk_arena_page_round n).
Proof.
  intros Ha Hn. pose proof (alloc_spec a n Ha Hn) as H. destruct Ha as [_ _ Hs Hx _].
  destruct (alr_vk_arena_alloc a n) as [off a1]. destruct H as (_ & _ & _ & H).
  unfold kAlrVkArenaNoOffset in *. cbn [fst].
  case_bool_decide as Hc; destruct H as [-> _]; [by split|].
  split; [lia|done].
Qed.

(** ** The contract of the allocator *)

(** On the arena the host creates, whatever sizes are asked for (below the
    63-bit limit), the slabs handed out are page aligned, inside the mapping,
    addressable and pairwise disjoint, and the next request is refused exactly when it
    is empty or its rounded size does not fit. *)
Theorem arena_slabs_disjoint os bytes a ns n' :
  (∀ sz, os sz = true → sz < 2 ^ 63) →
  alr_vk_arena_create os bytes no_arena = (true, a) →
  Forall (λ n, 0 ≤ n ≤ 2 ^ 63 - 4096) ns → 0 ≤ n' ≤ 2 ^ 63 - 4096 →
  let '(offs, a') := alloc_all a ns in
  (∀ i n off, ns !! i = Some n → offs !! i = Some off → off ≠ kAlrVkArenaNoOffset →
     off mod 4096 = 0 ∧ 0 ≤ off ∧ off + n ≤ size a ∧ alr_vk_arena_ptr a' off = Some off) ∧
  (∀ i j n m off off', i ≠ j → ns !! i = Some n → ns !! j = Some m →
     offs !! i = Some off → offs !! j = Some off' →
     off ≠ kAlrVkArenaNoOffset → off' ≠ kAlrVkArenaNoOffset →
     off + n ≤ off' ∨ off' + m ≤ off) ∧
  (fst (alr_vk_arena_alloc a' n') = kAlrVkArenaNoOffset
   ↔ n' = 0 ∨ size a < next a' + alr_vk_arena_page_round n').
Proof.
  intros Hos Hc Hns Hn'. destruct (create_ok os bytes a Hos Hc) as [Ha H0].
  pose proof (alloc_all_spec a ns Ha Hns) as H.
  destruct (alloc_all a ns) as [offs a']. destruct H as (Ha' & Hb & Hs & _ & _ & Hoff & Hdis).
  split_and!.
  - intros i n off Hn Ho Hne. destruct (Hoff i n off Hn Ho Hne) as (? & ? & ? & ?).
    pose proof (ok_next a' Ha'). split_and!; [done|lia|lia|].
    unfold alr_vk_arena_ptr. rewrite (arena_ok_ready a' Ha').
    rewrite (proj2 (Z.eqb_neq off _)) by done. cbn [orb negb].
    by rewrite (proj2 (Z.leb_gt _ _)) by lia.
  - intros i j n m off off' Hij Hn Hm Ho Ho' Hne Hne'.
    destruct (decide (i < j)%nat); [left|right].
    + by apply (Hdis i j n off off').
    + apply (Hdis j i m off' off); auto. lia.
  - rewrite <- Hs. by apply alloc_refuses.
Qed.

Lemma arena_slabs_disjoint_witness :
  let os := (λ sz, sz <=? 65536) in
  ∃ a, alr_vk_arena_create os 16384 no_arena = (true, a) ∧
    fst (alloc_all a [100; 4096; 0; 9000; 1]) = [0; 4096; 2 ^ 64 - 1; 2 ^ 64 - 1; 8192] ∧
    let '(offs, a') := alloc_all a [100; 4096; 0; 9000; 1] in
    (∀ i n off, [100; 4096; 0; 9000; 1] !! i = Some n → offs !! i = Some off →
       off ≠ kAlrVkArenaNoOffset →
       off mod 4096 = 0 ∧ 0 ≤ off ∧ off + n ≤ size a ∧ alr_vk_arena_ptr a' off = Some off) ∧
    (∀ i j n m off off', i ≠ j → [100; 4096; 0; 9000; 1] !! i = Some n →
       [100; 4096; 0; 9000; 1] !! j = Some m →
       offs !! i = Some off → offs !! j = Some off' →
       off ≠ kAlrVkArenaNoOffset → off' ≠ kAlrVkArenaNoOffset →
       off + n ≤ off' ∨ off' + m ≤ off) ∧
    (fst (alr_vk_arena_alloc a' 4097) = kAlrVkArenaNoOffset
     ↔ 4097 = 0 ∨ size a < next a' + alr_vk_arena_page_round 4097).
Proof.
  intros os. eexists. split; [reflexivity|]. split; [vm_compute; reflexivity|].
  apply (arena_slabs_disjoint os 16384); [|reflexivity| |lia].
  - intros sz H. apply Z.leb_le in H. lia.
  - repeat (apply Forall_cons; split; [lia|]). apply Forall_nil. exact I.
Defined.

(** Without the limit the cursor wraps: a request of [2 ^ 64 - 4096] bytes succeeds and
    rewinds it, and the next slab is one already handed out. *)
Lemma arena_alloc_rewinds :
  let a := mk_arena 8192 (Some []) 0 in
  fst (alloc_all a [4096; 2 ^ 64 - 4096; 4096]) = [0; 4096; 0].
Proof. vm_compute. reflexivity. Qed.
Close Scope Z_scope.
