(* ===== verification/VkCmdLog.v ===== *)
(** * The Vulkan command log: [alr_gpu_vk_cmdlog.hpp]

    A guest records [vkCmd*] calls into a byte log per command buffer.  The file
    holds the decoder of one record ([cmd_decode_one]) and of a log
    ([cmd_replay_log_wire]), the recorder ([AlrVkCmdRecorder]), and the proof that a
    recorded log decodes to the recorded calls.  The calls into the driver are not
    modelled: a record ends in the call of the sink. *)

From S2P Require Import Prelude Bytes Wire.
Open Scope Z_scope.

(** ** Records *)

(** Field types of the repeated parts of a record. *)
Inductive fty := TU32 | TI32 | TU64 | TF32 | TRaw (n : nat).
Definition rd_fty (t : fty) : rd wire :=
  match t with
  | TU32 => v ← rd_u32; mret (WU32 v)
  | TI32 => v ← rd_i32; mret (WI32 v)
  | TU64 => v ← rd_u64; mret (WU64 v)
  | TF32 => v ← rd_f32; mret (WF32 v)
  | TRaw n => d ← rd_take (Z.of_nat n); mret (WRaw d)
  end.
Fixpoint rd_row (sch : list fty) : rd (list wire) :=
  match sch with
  | [] => mret []
  | t :: sch' => w ← rd_fty t; ws ← rd_row sch'; mret (w :: ws)
  end.
(** [u32 count; if (count > bound) return false; for (...) { row }]. *)
Definition rd_counted {A} (bound : Z) (f : rd A) : rd (list A) :=
  n ← rd_u32; if bound <? n then rd_fail else rd_loop f (Z.to_nat n) n.
Definition rd_array (bound : Z) (sch : list fty) : rd (list (list wire)) :=
  rd_counted bound (rd_row sch).

(** [AlrVkCmd]; the flag distinguishes the [*2] variant of the same payload. *)
Inductive vkcmd :=
| CMD_BEGIN_RENDER_PASS (two : bool) (vrp vfb rx ry rw rh contents : Z) (clears : list (list wire))
| CMD_END_RENDER_PASS (two : bool)
| CMD_NEXT_SUBPASS (two : bool) (contents : Z)
| CMD_BIND_PIPELINE (bp vpipe : Z)
| CMD_BIND_DESCRIPTOR_SETS (bp vlayout firstSet : Z) (sets dyns : list (list wire))
| CMD_BIND_VERTEX_BUFFERS (firstBinding : Z) (bufs : list (list wire))
| CMD_BIND_INDEX_BUFFER (vb off indexType : Z)
| CMD_DRAW (vtx inst fv fi : Z)
| CMD_DRAW_INDEXED (ic inst fi vo firstInst : Z)
| CMD_DRAW_INDIRECT (vb off drawCount stride : Z)
| CMD_DISPATCH (gx gy gz : Z)
| CMD_SET_VIEWPORT (fvp : Z) (viewports : list (list wire))
| CMD_SET_SCISSOR (fs : Z) (scissors : list (list wire))
| CMD_PIPELINE_BARRIER (two : bool) (srcStage dstStage depFlags : Z)
    (mems bufs imgs : list (list wire))
| CMD_COPY_BUFFER (vsrc vdst : Z) (regions : list (list wire))
| CMD_COPY_IMAGE (vsrc sl vdst dl : Z) (regions : list (list wire))
| CMD_COPY_BUFFER_TO_IMAGE (vbuf vimg dl : Z) (regions : list (list wire))
| CMD_PUSH_CONSTANTS (vlayout stageFlags offset : Z) (d : bytes)
| CMD_CLEAR_ATTACHMENTS (atts rects : list (list wire)).

Definition sch_clear : list fty := [TRaw 16].
Definition sch_vid : list fty := [TU32].
Definition sch_vertex_buffer : list fty := [TU32; TU64].
Definition sch_viewport : list fty := [TF32; TF32; TF32; TF32; TF32; TF32].
Definition sch_scissor : list fty := [TI32; TI32; TU32; TU32].
Definition sch_mem : list fty := [TU32; TU32].
Definition sch_buf : list fty := [TU32; TU32; TU32; TU32; TU32; TU64; TU64].
Definition sch_img : list fty := replicate 12 TU32.
Definition sch_copy : list fty := [TU64; TU64; TU64].
Definition sch_image_copy : list fty :=
  replicate 4 TU32 ++ replicate 3 TI32 ++ replicate 4 TU32 ++ replicate 3 TI32 ++
  replicate 3 TU32.
Definition sch_buffer_image : list fty :=
  TU64 :: replicate 6 TU32 ++ replicate 3 TI32 ++ replicate 3 TU32.
Definition sch_att : list fty := [TU32; TU32; TRaw 16].
Definition sch_rect : list fty := [TI32; TI32; TU32; TU32; TU32; TU32].

Definition cmd_opcode (c : vkcmd) : Z :=
  match c with
  | CMD_BEGIN_RENDER_PASS two _ _ _ _ _ _ _ _ => if two then 4 else 1
  | CMD_END_RENDER_PASS two => if two then 5 else 2
  | CMD_NEXT_SUBPASS two _ => if two then 6 else 3
  | CMD_BIND_PIPELINE _ _ => 10 | CMD_BIND_DESCRIPTOR_SETS _ _ _ _ _ => 11
  | CMD_BIND_VERTEX_BUFFERS _ _ => 12 | CMD_BIND_INDEX_BUFFER _ _ _ => 13
  | CMD_DRAW _ _ _ _ => 20 | CMD_DRAW_INDEXED _ _ _ _ _ => 21
  | CMD_DRAW_INDIRECT _ _ _ _ => 22 | CMD_DISPATCH _ _ _ => 23
  | CMD_SET_VIEWPORT _ _ => 30 | CMD_SET_SCISSOR _ _ => 31
  | CMD_PIPELINE_BARRIER two _ _ _ _ _ _ => if two then 41 else 40
  | CMD_COPY_BUFFER _ _ _ => 50 | CMD_COPY_IMAGE _ _ _ _ _ => 51
  | CMD_COPY_BUFFER_TO_IMAGE _ _ _ _ => 52 | CMD_PUSH_CONSTANTS _ _ _ _ => 60
  | CMD_CLEAR_ATTACHMENTS _ _ => 70
  end.
Definition ALR_VK_CMD_END : Z := 0.

(** The field reads of [cmd_decode_one]; [None] is [return false]. *)
Definition parse_pass (op : Z) : rd vkcmd :=
  match op with
  | 1 | 4 =>
      vrp ← rd_u32; vfb ← rd_u32; rx ← rd_i32; ry ← rd_i32; rw ← rd_u32; rh ← rd_u32;
      contents ← rd_u32; clears ← rd_array 16 sch_clear;
      mret (CMD_BEGIN_RENDER_PASS (op =? 4) vrp vfb rx ry rw rh contents clears)
  | 2 | 5 => mret (CMD_END_RENDER_PASS (op =? 5))
  | 3 | 6 => contents ← rd_u32; mret (CMD_NEXT_SUBPASS (op =? 6) contents)
  | _ => rd_fail
  end.
Definition parse_bind (op : Z) : rd vkcmd :=
  match op with
  | 10 => bp ← rd_u32; vpipe ← rd_u32; mret (CMD_BIND_PIPELINE bp vpipe)
  | 11 =>
      bp ← rd_u32; vlayout ← rd_u32; firstSet ← rd_u32;
      sets ← rd_array 256 sch_vid; dyns ← rd_array 256 sch_vid;
      mret (CMD_BIND_DESCRIPTOR_SETS bp vlayout firstSet sets dyns)
  | 12 =>
      firstBinding ← rd_u32; bufs ← rd_array 64 sch_vertex_buffer;
      mret (CMD_BIND_VERTEX_BUFFERS firstBinding bufs)
  | 13 => vb ← rd_u32; off ← rd_u64; t ← rd_u32; mret (CMD_BIND_INDEX_BUFFER vb off t)
  | _ => rd_fail
  end.
Definition parse_draw (op : Z) : rd vkcmd :=
  match op with
  | 20 => vtx ← rd_u32; inst ← rd_u32; fv ← rd_u32; fi ← rd_u32; mret (CMD_DRAW vtx inst fv fi)
  | 21 =>
      ic ← rd_u32; inst ← rd_u32; fi ← rd_u32; vo ← rd_i32; firstInst ← rd_u32;
      mret (CMD_DRAW_INDEXED ic inst fi vo firstInst)
  | 22 =>
      vb ← rd_u32; off ← rd_u64; drawCount ← rd_u32; stride ← rd_u32;
      mret (CMD_DRAW_INDIRECT vb off drawCount stride)
  | 23 => gx ← rd_u32; gy ← rd_u32; gz ← rd_u32; mret (CMD_DISPATCH gx gy gz)
  | 30 => fvp ← rd_u32; l ← rd_array 16 sch_viewport; mret (CMD_SET_VIEWPORT fvp l)
  | 31 => fs ← rd_u32; l ← rd_array 16 sch_scissor; mret (CMD_SET_SCISSOR fs l)
  | _ => rd_fail
  end.
Definition parse_transfer (op : Z) : rd vkcmd :=
  match op with
  | 40 | 41 =>
      s ← rd_u32; d ← rd_u32; dep ← rd_u32;
      mems ← rd_array 64 sch_mem; bufs ← rd_array 256 sch_buf; imgs ← rd_array 256 sch_img;
      mret (CMD_PIPELINE_BARRIER (op =? 41) s d dep mems bufs imgs)
  | 50 =>
      vsrc ← rd_u32; vdst ← rd_u32; l ← rd_array 256 sch_copy;
      mret (CMD_COPY_BUFFER vsrc vdst l)
  | 51 =>
      vsrc ← rd_u32; sl ← rd_u32; vdst ← rd_u32; dl ← rd_u32;
      l ← rd_array 256 sch_image_copy; mret (CMD_COPY_IMAGE vsrc sl vdst dl l)
  | 52 =>
      vbuf ← rd_u32; vimg ← rd_u32; dl ← rd_u32; l ← rd_array 256 sch_buffer_image;
      mret (CMD_COPY_BUFFER_TO_IMAGE vbuf vimg dl l)
  | 60 =>
      vlayout ← rd_u32; stageFlags ← rd_u32; offset ← rd_u32; n ← rd_u32;
      if 256 <? n then rd_fail
      else d ← rd_take n; mret (CMD_PUSH_CONSTANTS vlayout stageFlags offset d)
  | 70 =>
      atts ← rd_array 16 sch_att; rects ← rd_array 16 sch_rect;
      mret (CMD_CLEAR_ATTACHMENTS atts rects)
  | _ => rd_fail
  end.
Definition parse_cmd (op : Z) : rd vkcmd :=
  if op <=? 9 then parse_pass op else if op <=? 19 then parse_bind op
  else if op <=? 39 then parse_draw op else parse_transfer op.

(** What [cmd_decode_one] hands to [emit]: opcode, two handles, two scalars. *)
Definition hi_lo (x y : Z) : Z := Z.lor (Z.shiftl x 32) y.
Definition count {A} (l : list A) : Z := Z.of_nat (length l).
Definition first_vid (l : list (list wire)) : Z :=
  match l with (WU32 v :: _) :: _ => v | _ => 0 end.
Definition emit_args (c : vkcmd) : Z * Z * Z * Z * Z :=
  let op := cmd_opcode c in
  match c with
  | CMD_BEGIN_RENDER_PASS _ vrp vfb _ _ _ _ contents clears =>
      (op, vrp, vfb, contents, count clears)
  | CMD_END_RENDER_PASS _ => (op, 0, 0, 0, 0)
  | CMD_NEXT_SUBPASS _ contents => (op, 0, 0, contents, 0)
  | CMD_BIND_PIPELINE bp vpipe => (op, vpipe, 0, bp, 0)
  | CMD_BIND_DESCRIPTOR_SETS bp vlayout _ sets dyns =>
      (op, vlayout, 0, bp, hi_lo (count sets) (count dyns))
  | CMD_BIND_VERTEX_BUFFERS firstBinding bufs =>
      (op, first_vid bufs, 0, firstBinding, count bufs)
  | CMD_BIND_INDEX_BUFFER vb off t => (op, vb, 0, off, t)
  | CMD_DRAW vtx inst fv fi => (op, 0, 0, hi_lo vtx inst, hi_lo fv fi)
  | CMD_DRAW_INDEXED ic inst fi vo firstInst =>
      (op, 0, 0, hi_lo ic inst, hi_lo (u32 vo) firstInst)
  | CMD_DRAW_INDIRECT vb off drawCount stride => (op, vb, 0, off, hi_lo drawCount stride)
  | CMD_DISPATCH gx gy gz => (op, 0, 0, hi_lo gx gy, gz)
  | CMD_SET_VIEWPORT f l | CMD_SET_SCISSOR f l => (op, 0, 0, f, count l)
  | CMD_PIPELINE_BARRIER _ s d _ mems bufs imgs =>
      (op, 0, 0, hi_lo s d,
       Z.lor (Z.lor (Z.shiftl (count mems) 40) (Z.shiftl (count bufs) 20)) (count imgs))
  | CMD_COPY_BUFFER vsrc vdst l => (op, vsrc, vdst, count l, 0)
  | CMD_COPY_IMAGE vsrc sl vdst dl l => (op, vsrc, vdst, count l, hi_lo sl dl)
  | CMD_COPY_BUFFER_TO_IMAGE vbuf vimg dl l => (op, vbuf, vimg, count l, dl)
  | CMD_PUSH_CONSTANTS vlayout stageFlags offset d =>
      (op, vlayout, 0, hi_lo stageFlags offset, Z.of_nat (length d))
  | CMD_CLEAR_ATTACHMENTS atts rects => (op, 0, 0, count atts, count rects)
  end.

(** The loop of [cmd_replay_log_wire]: the records read and [n], [None] for [-1].  A
    record consumes at least its opcode, so the log bounds the loop. *)
Fixpoint replay_loop (fuel : nat) (s : bytes) (n : Z) (cs : list vkcmd)
    : list vkcmd * option Z :=
  match fuel with
  | O => (cs, None)
  | S fuel =>
      match rd_u16 s with
      | None => (cs, Some n)
      | Some (op, s') =>
          if op =? ALR_VK_CMD_END then (cs, Some n)
          else match parse_cmd op s' with
               | None => (cs, None)
               | Some (c, s'') => replay_loop fuel s'' (n + 1) (cs ++ [c])
               end
      end
  end.
Definition replay_log (log : bytes) : list vkcmd * option Z :=
  replay_loop (S (length log)) log 0 [].
(** The calls of the sink, and the result. *)
Definition cmd_replay_log_wire (log : bytes) : list (Z * Z * Z * Z * Z) * option Z :=
  let '(cs, r) := replay_log log in (emit_args <$> cs, r).

(** ** The recorder *)

(** The values a field of the type holds. *)
Definition has_fty (t : fty) (w : wire) : Prop :=
  match t, w with
  | TU32, WU32 _ | TI32, WI32 _ | TU64, WU64 _ | TF32, WF32 _ => wire_ok w
  | TRaw n, WRaw d => length d = n
  | _, _ => False
  end.
#[export] Instance wire_ok_dec w : Decision (wire_ok w).
Proof. destruct w; simpl; apply _. Defined.
#[export] Instance has_fty_dec t w : Decision (has_fty t w).
Proof. destruct t, w; simpl; apply _. Defined.
Definition row_ok (sch : list fty) (ws : list wire) : Prop := Forall2 has_fty sch ws.
Definition arr_ok (bound : Z) (sch : list fty) (rows : list (list wire)) : Prop :=
  count rows ≤ bound ∧ Forall (row_ok sch) rows.
#[export] Instance arr_ok_dec b sch rows : Decision (arr_ok b sch rows).
Proof. unfold arr_ok, row_ok. apply _. Defined.

Definition arr_wires (rows : list (list wire)) : list wire :=
  WU32 (count rows) :: concat rows.

(** The appends of one [vkCmd*] call after its opcode. *)
Definition cmd_fields (c : vkcmd) : list wire :=
  match c with
  | CMD_BEGIN_RENDER_PASS _ vrp vfb rx ry rw rh contents clears =>
      [WU32 vrp; WU32 vfb; WI32 rx; WI32 ry; WU32 rw; WU32 rh; WU32 contents]
      ++ arr_wires clears
  | CMD_END_RENDER_PASS _ => []
  | CMD_NEXT_SUBPASS _ contents => [WU32 contents]
  | CMD_BIND_PIPELINE bp vpipe => [WU32 bp; WU32 vpipe]
  | CMD_BIND_DESCRIPTOR_SETS bp vlayout firstSet sets dyns =>
      [WU32 bp; WU32 vlayout; WU32 firstSet] ++ arr_wires sets ++ arr_wires dyns
  | CMD_BIND_VERTEX_BUFFERS firstBinding bufs => [WU32 firstBinding] ++ arr_wires bufs
  | CMD_BIND_INDEX_BUFFER vb off t => [WU32 vb; WU64 off; WU32 t]
  | CMD_DRAW vtx inst fv fi => [WU32 vtx; WU32 inst; WU32 fv; WU32 fi]
  | CMD_DRAW_INDEXED ic inst fi vo firstInst =>
      [WU32 ic; WU32 inst; WU32 fi; WI32 vo; WU32 firstInst]
  | CMD_DRAW_INDIRECT vb off drawCount stride =>
      [WU32 vb; WU64 off; WU32 drawCount; WU32 stride]
  | CMD_DISPATCH gx gy gz => [WU32 gx; WU32 gy; WU32 gz]
  | CMD_SET_VIEWPORT f l | CMD_SET_SCISSOR f l => [WU32 f] ++ arr_wires l
  | CMD_PIPELINE_BARRIER _ s d dep mems bufs imgs =>
      [WU32 s; WU32 d; WU32 dep] ++ arr_wires mems ++ arr_wires bufs ++ arr_wires imgs
  | CMD_COPY_BUFFER vsrc vdst l => [WU32 vsrc; WU32 vdst] ++ arr_wires l
  | CMD_COPY_IMAGE vsrc sl vdst dl l =>
      [WU32 vsrc; WU32 sl; WU32 vdst; WU32 dl] ++ arr_wires l
  | CMD_COPY_BUFFER_TO_IMAGE vbuf vimg dl l =>
      [WU32 vbuf; WU32 vimg; WU32 dl] ++ arr_wires l
  | CMD_PUSH_CONSTANTS vlayout stageFlags offset d =>
      [WU32 vlayout; WU32 stageFlags; WU32 offset; WU32 (Z.of_nat (length d)); WRaw d]
  | CMD_CLEAR_ATTACHMENTS atts rects => arr_wires atts ++ arr_wires rects
  end.
Definition cmd_wires (c : vkcmd) : list wire := WU16 (cmd_opcode c) :: cmd_fields c.

(** The values the C types hold, within the bounds the decoder accepts. *)
Definition hdr_ok (l : list wire) : Prop := Forall wire_ok l.
Definition cmd_ok (c : vkcmd) : Prop :=
  match c with
  | CMD_BEGIN_RENDER_PASS _ vrp vfb rx ry rw rh contents clears =>
      hdr_ok [WU32 vrp; WU32 vfb; WI32 rx; WI32 ry; WU32 rw; WU32 rh; WU32 contents]
      ∧ arr_ok 16 sch_clear clears
  | CMD_BIND_DESCRIPTOR_SETS bp vlayout firstSet sets dyns =>
      hdr_ok [WU32 bp; WU32 vlayout; WU32 firstSet]
      ∧ arr_ok 256 sch_vid sets ∧ arr_ok 256 sch_vid dyns
  | CMD_BIND_VERTEX_BUFFERS firstBinding bufs =>
      hdr_ok [WU32 firstBinding] ∧ arr_ok 64 sch_vertex_buffer bufs
  | CMD_SET_VIEWPORT f l => hdr_ok [WU32 f] ∧ arr_ok 16 sch_viewport l
  | CMD_SET_SCISSOR f l => hdr_ok [WU32 f] ∧ arr_ok 16 sch_scissor l
  | CMD_PIPELINE_BARRIER _ s d dep mems bufs imgs =>
      hdr_ok [WU32 s; WU32 d; WU32 dep]
      ∧ arr_ok 64 sch_mem mems ∧ arr_ok 256 sch_buf bufs ∧ arr_ok 256 sch_img imgs
  | CMD_COPY_BUFFER vsrc vdst l => hdr_ok [WU32 vsrc; WU32 vdst] ∧ arr_ok 256 sch_copy l
  | CMD_COPY_IMAGE vsrc sl vdst dl l =>
      hdr_ok [WU32 vsrc; WU32 sl; WU32 vdst; WU32 dl] ∧ arr_ok 256 sch_image_copy l
  | CMD_COPY_BUFFER_TO_IMAGE vbuf vimg dl l =>
      hdr_ok [WU32 vbuf; WU32 vimg; WU32 dl] ∧ arr_ok 256 sch_buffer_image l
  | CMD_PUSH_CONSTANTS vlayout stageFlags offset d =>
      hdr_ok [WU32 vlayout; WU32 stageFlags; WU32 offset] ∧ Z.of_nat (length d) ≤ 256
  | CMD_CLEAR_ATTACHMENTS atts rects => arr_ok 16 sch_att atts ∧ arr_ok 16 sch_rect rects
  | _ => hdr_ok (cmd_fields c)
  end.
#[export] Instance cmd_ok_dec c : Decision (cmd_ok c).
Proof. destruct c; unfold cmd_ok, hdr_ok; apply _. Defined.

(** [AlrVkCmdRecorder]; [arena_off] is the sentinel for a buffer the guest owns. *)
Record AlrVkCmdRecorder := mk_rec { rec_enc : AlrEncoder; arena_off : Z }.
Definition rec_begin (cap off : Z) : AlrVkCmdRecorder := mk_rec (alr_enc_init cap) off.
Definition rec_cmd (r : AlrVkCmdRecorder) (c : vkcmd) : AlrVkCmdRecorder :=
  mk_rec (alr_enc_all (rec_enc r) (cmd_wires c)) (arena_off r).
Definition finalize (r : AlrVkCmdRecorder) : Z * AlrVkCmdRecorder :=
  let e := alr_enc (rec_enc r) (WU16 ALR_VK_CMD_END) in
  (if enc_overflow e then 0 else u32 (Z.of_nat (length (enc_buf e))), mk_rec e (arena_off r)).
(** [begin], the calls, [finalize]. *)
Definition record_log (cap off : Z) (cs : list vkcmd) : Z * AlrVkCmdRecorder :=
  finalize (foldl rec_cmd (rec_begin cap off) cs).

(** What the recorded log holds. *)
Definition log_wires (cs : list vkcmd) : list wire :=
  concat (cmd_wires <$> cs) ++ [WU16 ALR_VK_CMD_END].
Definition log_bytes (cs : list vkcmd) : bytes := enc_onto (log_wires cs) [].

(** ** Reading back a record *)

Lemma rd_fty_enc t w s : has_fty t w → rd_fty t (enc_wire w ++ s) = Some (w, s).
Proof.
  intros H. destruct t, w; try done; cbn [has_fty wire_ok rd_fty] in *.
  - erewrite rd_bind_eq by (apply rd_u32_enc; exact H). done.
  - erewrite rd_bind_eq by (apply rd_i32_enc; exact H). done.
  - erewrite rd_bind_eq by (apply rd_u64_enc; exact H). done.
  - erewrite rd_bind_eq by (apply rd_f32_enc; exact H). done.
  - subst n. erewrite rd_bind_eq by apply rd_take_app. done.
Qed.
Lemma rd_row_enc sch ws rest :
  row_ok sch ws → rd_row sch (enc_onto ws rest) = Some (ws, rest).
Proof.
  unfold row_ok. induction 1 as [|t w sch ws Ht Hs IH]; [done|]. cbn [rd_row].
  change (enc_onto (w :: ws) rest) with (enc_wire w ++ enc_onto ws rest).
  erewrite rd_bind_eq by (apply rd_fty_enc; exact Ht).
  erewrite rd_bind_eq by exact IH. done.
Qed.
Lemma rd_loop_enc {A B} (f : rd B) (c : A → list wire) (h : A → B) (P : A → Prop) vs rest :
  (∀ v s, P v → f (enc_onto (c v) s) = Some (h v, s)) → Forall P vs →
  rd_loop f (length vs) (Z.of_nat (length vs)) (enc_onto (concat (c <$> vs)) rest)
  = Some (h <$> vs, rest).
Proof.
  intros Hf. induction 1 as [|v vs Hv Hs IH]; [done|].
  cbn [length rd_loop concat fmap list_fmap].
  rewrite (proj2 (Z.leb_gt _ _)) by lia. rewrite enc_onto_app.
  erewrite rd_bind_eq by (apply Hf; exact Hv).
  replace (Z.of_nat (S (length vs)) - 1) with (Z.of_nat (length vs)) by lia.
  erewrite rd_bind_eq by exact IH. done.
Qed.
Definition counted_wires {A} (c : A → list wire) (vs : list A) : list wire :=
  WU32 (count vs) :: concat (c <$> vs).
Lemma rd_counted_enc {A B} b (f : rd B) (c : A → list wire) (h : A → B) (P : A → Prop) vs rest :
  b < 2 ^ 32 → count vs ≤ b →
  (∀ v s, P v → f (enc_onto (c v) s) = Some (h v, s)) → Forall P vs →
  rd_counted b f (enc_onto (counted_wires c vs) rest) = Some (h <$> vs, rest).
Proof.
  intros Hb Hn Hf Hvs. unfold rd_counted, counted_wires, count in *.
  change (enc_onto (?w :: ?l) rest) with (enc_wire w ++ enc_onto l rest).
  erewrite rd_bind_eq by (apply rd_u32_enc; lia).
  rewrite (proj2 (Z.ltb_ge _ _)) by done. rewrite Nat2Z.id. by apply (rd_loop_enc f c h P).
Qed.
Lemma rd_array_enc b sch rows rest :
  b < 2 ^ 32 → arr_ok b sch rows →
  rd_array b sch (enc_onto (arr_wires rows) rest) = Some (rows, rest).
Proof.
  intros Hb [Hn Hrows].
  pose proof (rd_counted_enc b (rd_row sch) id id (row_ok sch) rows rest Hb Hn) as H.
  unfold counted_wires in H. rewrite list_fmap_id in H. apply H; [|exact Hrows].
  intros ws s. apply rd_row_enc.
Qed.

(** Read the next part of a record. *)
Ltac rd_part :=
  first
    [ rd_field
    | erewrite rd_bind_eq by (apply rd_array_enc; [lia|assumption]) ].

Lemma parse_cmd_enc c rest :
  cmd_ok c → parse_cmd (cmd_opcode c) (enc_onto (cmd_fields c) rest) = Some (c, rest).
Proof.
  intros Hc. destruct c as [[]|[]|[]| | | | | | | | | | |[]| | | | |];
    cbn [cmd_ok cmd_fields] in Hc; unfold hdr_ok in Hc;
    repeat match goal with
      | H : _ ∧ _ |- _ => destruct H
      | H : Forall wire_ok (_ :: _) |- _ => apply Forall_cons in H as [? H]
      end;
    cbn [cmd_opcode]; unfold parse_cmd; cbn [Z.leb Z.compare Pos.compare Pos.compare_cont];
    cbn [cmd_fields]; rewrite ?enc_onto_app;
    cbn [parse_pass parse_bind parse_draw parse_transfer enc_onto foldr app].
  all: repeat rd_part; try reflexivity.
  erewrite rd_bind_eq by (apply rd_u32_enc; lia). rewrite (proj2 (Z.ltb_ge _ _)) by lia.
  erewrite rd_bind_eq by apply rd_take_app. reflexivity.
Qed.

Lemma cmd_opcode_range c : 0 < cmd_opcode c < 2 ^ 16.
Proof. destruct c as [[]|[]|[]| | | | | | | | | | |[]| | | | |]; cbn [cmd_opcode]; lia. Qed.

(** ** Reading back a log *)

Lemma log_wires_cons c cs : log_wires (c :: cs) = cmd_wires c ++ log_wires cs.
Proof. unfold log_wires. cbn [fmap list_fmap concat]. by rewrite (assoc_L (++)). Qed.

Lemma replay_loop_enc cs rest fuel n acc :
  Forall cmd_ok cs → (length cs < fuel)%nat →
  replay_loop fuel (enc_onto (log_wires cs) rest) n acc = (acc ++ cs, Some (n + count cs)).
Proof.
  intros Hcs. revert fuel n acc. unfold count.
  induction Hcs as [|c cs Hc Hcs IH]; intros [|fuel] n acc Hf; cbn [length] in *;
    try lia; cbn [replay_loop].
  - change (enc_onto (log_wires []) rest) with (enc_wire (WU16 0) ++ rest).
    rewrite rd_u16_enc by lia. cbn. by rewrite app_nil_r, Z.add_0_r.
  - rewrite log_wires_cons, enc_onto_app.
    change (enc_onto (cmd_wires c) ?r)
      with (enc_wire (WU16 (cmd_opcode c)) ++ enc_onto (cmd_fields c) r).
    pose proof (cmd_opcode_range c). rewrite rd_u16_enc by lia.
    rewrite (proj2 (Z.eqb_neq _ ALR_VK_CMD_END)) by (unfold ALR_VK_CMD_END; lia).
    rewrite (parse_cmd_enc c _ Hc), IH by lia.
    rewrite <- (assoc_L (++)). do 2 f_equal. lia.
Qed.

Lemma log_bytes_length cs : (length cs < length (log_bytes cs))%nat.
Proof.
  unfold log_bytes. induction cs as [|c cs IH]; [cbn; lia|].
  rewrite log_wires_cons, enc_onto_app, enc_onto_nil.
  change (enc_onto (cmd_wires c) []) with (enc_wire (WU16 (cmd_opcode c)) ++ enc_onto (cmd_fields c) []).
  rewrite !length_app. cbn [enc_wire length]. rewrite le_bytes_length. lia.
Qed.

Lemma replay_log_bytes cs rest :
  Forall cmd_ok cs → replay_log (log_bytes cs ++ rest) = (cs, Some (count cs)).
Proof.
  intros Hcs. unfold replay_log, log_bytes. rewrite <- enc_onto_nil.
  rewrite replay_loop_enc; [done|done|]. rewrite enc_onto_nil, length_app.
  pose proof (log_bytes_length cs). unfold log_bytes in *. lia.
Qed.

(** ** What the recorder leaves *)

Lemma rec_cmds cs r :
  foldl rec_cmd r cs
  = mk_rec (alr_enc_all (rec_enc r) (concat (cmd_wires <$> cs))) (arena_off r).
Proof.
  revert r. induction cs as [|c cs IH]; intros r; [by destruct r|].
  cbn [foldl fmap list_fmap concat]. rewrite IH. unfold rec_cmd, alr_enc_all.
  cbn [rec_enc arena_off]. by rewrite foldl_app.
Qed.

(** A log that fits is in the buffer, whole; one that does not has length 0. *)
Lemma record_log_spec cap off cs :
  0 ≤ cap < 2 ^ 32 →
  let '(len, r) := record_log cap off cs in
  arena_off r = off ∧ count (enc_buf (rec_enc r)) ≤ cap ∧
  (if cap <? count (log_bytes cs) then len = 0
   else len = count (log_bytes cs) ∧ enc_buf (rec_enc r) = log_bytes cs).
Proof.
  intros Hcap. unfold record_log, finalize. rewrite rec_cmds. cbn [rec_begin rec_enc arena_off].
  change (alr_enc (alr_enc_all ?e ?l) (WU16 ALR_VK_CMD_END))
    with (foldl alr_enc (alr_enc_all e l) [WU16 ALR_VK_CMD_END]).
  unfold alr_enc_all. rewrite <- foldl_app.
  destruct (alr_all_bytes (log_wires cs) cap ltac:(lia)) as [Hlen H].
  unfold alr_enc_all, log_wires in Hlen, H. unfold count, log_bytes, log_wires.
  split; [done|]. split; [exact Hlen|].
  destruct (cap <? _) eqn:E.
  - by destruct H as [-> _].
  - rewrite H. cbn [enc_overflow enc_buf]. split; [|done]. apply u32_small. lia.
Qed.
Close Scope Z_scope.
