(* ===== verification/VkSubmit.v ===== *)
(** * Queue submission and the command band of the Vulkan stream

    The operations behind the escape byte with sub-opcodes from 0x4000 on: the guest
    encoder ([AlrVkCmdEncoder] of [alr_gpu_vk_cmdlog.hpp]), the host dispatcher
    ([cmd_read_submit], [decode_vk_cmd_op] of [alr_gpu_vk_cmd_dispatch.hpp], called by
    [decode_vk_batch]), and the way of a command log from its recording in the shared
    arena to its replay.  The driver behind the dispatcher is a parameter. *)

From S2P Require Import Prelude Bytes Wire VkArena VkCmdLog.
Open Scope Z_scope.

(** ** The operations *)

(** [A]: the type of the command buffers of a submit, on the guest and on the host. *)
Inductive vk_cmd_op (A : Type) :=
| QUEUE_SUBMIT (vqueue vfence : Z) (waits : list (Z * Z)) (signals : list Z) (cmds : list A)
| QUEUE_WAIT_IDLE (vqueue : Z)
| DEVICE_WAIT_IDLE (vdev : Z)
| CREATE_FENCE (vdev vfence flags : Z)
| DESTROY_FENCE (vdev vfence : Z)
| WAIT_FOR_FENCES (vdev wait_all timeout : Z) (vfences : list Z)
| RESET_FENCES (vdev : Z) (vfences : list Z)
| GET_FENCE_STATUS (vdev vfence : Z)
| CREATE_SEMAPHORE (vdev vsem flags : Z)
| DESTROY_SEMAPHORE (vdev vsem : Z).
Arguments QUEUE_SUBMIT {A}. Arguments QUEUE_WAIT_IDLE {A}. Arguments DEVICE_WAIT_IDLE {A}.
Arguments CREATE_FENCE {A}. Arguments DESTROY_FENCE {A}. Arguments WAIT_FOR_FENCES {A}.
Arguments RESET_FENCES {A}. Arguments GET_FENCE_STATUS {A}. Arguments CREATE_SEMAPHORE {A}.
Arguments DESTROY_SEMAPHORE {A}.

Definition kVkGenEscapeOp : Z := 230.
Definition ALR_VK_CMD_SUBOP_BASE : Z := 0x4000.
Definition subop {A} (o : vk_cmd_op A) : Z :=
  match o with
  | QUEUE_SUBMIT _ _ _ _ _ => 0x4000 | QUEUE_WAIT_IDLE _ => 0x4001
  | DEVICE_WAIT_IDLE _ => 0x4002 | CREATE_FENCE _ _ _ => 0x4010
  | DESTROY_FENCE _ _ => 0x4011 | WAIT_FOR_FENCES _ _ _ _ => 0x4012
  | RESET_FENCES _ _ => 0x4013 | GET_FENCE_STATUS _ _ => 0x4014
  | CREATE_SEMAPHORE _ _ _ => 0x4020 | DESTROY_SEMAPHORE _ _ => 0x4021
  end.

(** ** The host: reading an operation *)

(** [const uint8_t* log]: null, into the arena mapping, or into the request. *)
Inductive log_ptr := LNull | LArena (off : Z) | LBytes (d : bytes).
(** [VkCmdSubmitInfo::Cmd]. *)
Record SubmitCmd := mk_cmd { vcmd : Z; log : log_ptr; log_len : Z }.

Definition rd_pair : rd (Z * Z) := x ← rd_u32; y ← rd_u32; mret (x, y).
(** The loop body of [cmd_read_submit] for one command buffer. *)
Definition rd_submit_cmd (a : AlrVkArena) : rd SubmitCmd :=
  v ← rd_u32; off ← rd_u64; len ← rd_u32;
  if negb (off =? kAlrVkArenaNoOffset) then
    mret (match alr_vk_arena_ptr a off with
          | None => mk_cmd v LNull len
          | Some o => if size a <? u64 (off + len) then mk_cmd v LNull 0
                      else mk_cmd v (LArena o) len
          end)
  else if 0 <? len then d ← rd_take len; mret (mk_cmd v (LBytes d) len)
  else mret (mk_cmd v LNull len).
Definition cmd_read_submit (a : AlrVkArena) : rd (vk_cmd_op SubmitCmd) :=
  vq ← rd_u32; vf ← rd_u32;
  waits ← rd_counted 64 rd_pair;
  signals ← rd_counted 64 rd_u32;
  cmds ← rd_counted 256 (rd_submit_cmd a);
  mret (QUEUE_SUBMIT vq vf waits signals cmds).
(** The field reads of the [switch (sub)] of [decode_vk_cmd_op]. *)
Definition parse_subop (a : AlrVkArena) (sub : Z) : rd (vk_cmd_op SubmitCmd) :=
  match sub with
  | 0x4000 => cmd_read_submit a
  | 0x4001 => vq ← rd_u32; mret (QUEUE_WAIT_IDLE vq)
  | 0x4002 => vd ← rd_u32; mret (DEVICE_WAIT_IDLE vd)
  | 0x4010 => vd ← rd_u32; vf ← rd_u32; fl ← rd_u32; mret (CREATE_FENCE vd vf fl)
  | 0x4011 => vd ← rd_u32; vf ← rd_u32; mret (DESTROY_FENCE vd vf)
  | 0x4012 =>
      vd ← rd_u32; wait_all ← rd_u32; timeout ← rd_u64; l ← rd_counted 256 rd_u32;
      mret (WAIT_FOR_FENCES vd wait_all timeout l)
  | 0x4013 => vd ← rd_u32; l ← rd_counted 256 rd_u32; mret (RESET_FENCES vd l)
  | 0x4014 => vd ← rd_u32; vf ← rd_u32; mret (GET_FENCE_STATUS vd vf)
  | 0x4020 => vd ← rd_u32; vs ← rd_u32; fl ← rd_u32; mret (CREATE_SEMAPHORE vd vs fl)
  | 0x4021 => vd ← rd_u32; vs ← rd_u32; mret (DESTROY_SEMAPHORE vd vs)
  | _ => rd_fail
  end.

(** ** The host: executing an operation *)

Section host.
Context {C : Type}.

(** [VkCmdProvider]: the optional callbacks over their context; a result is the new
    value of the out parameter.  On a device the [cmd_real_*] functions stand here. *)
Record VkCmdProvider := mk_provider {
  p_submit : option (C → vk_cmd_op SubmitCmd → Z * Z → (Z * Z) * C);
  p_create_fence : option (C → Z → Z → Z → Z * C);
  p_destroy_fence : option (C → Z → Z → C);
  p_wait_fences : option (C → Z → Z → Z → list Z → Z * C);
  p_reset_fences : option (C → Z → list Z → Z * C);
  p_get_fence_status : option (C → Z → Z → Z * C);
  p_create_semaphore : option (C → Z → Z → Z → Z * C);
  p_destroy_semaphore : option (C → Z → Z → C);
  p_queue_wait_idle : option (C → Z → Z * C);
  p_device_wait_idle : option (C → Z → Z * C)
}.

(** [VkDecodeState::ok], [::decoded], the context and the reply so far. *)
Record vk_state := mk_vk { ok : bool; decoded : Z; ctx : C; reply : bytes }.

Definition vk_reply (st : vk_state) (ctx' : C) (ws : list wire) : vk_state :=
  mk_vk (ok st) (decoded st + 1) ctx' (reply st ++ enc_onto ws []).
Definition vk_fail (st : vk_state) : vk_state := mk_vk false (decoded st) (ctx st) (reply st).
Definition cmd_reply_result (key result : Z) : list wire :=
  [WU8 kVkGenEscapeOp; WU16 0x4001; WU32 key; WI32 result].
(** A callback, or the initial value of [res] without one. *)
Definition callback {R} (f : option (C → R * C)) (res : R) (c : C) : R * C :=
  match f with Some g => g c | None => (res, c) end.

Definition exec_cmd_op (cp : VkCmdProvider) (o : vk_cmd_op SubmitCmd) (st : vk_state)
    : vk_state :=
  let result key dflt f :=
    let '(res, c') := callback f dflt (ctx st) in vk_reply st c' (cmd_reply_result key res) in
  let quiet f := vk_reply st (match f with Some g => g (ctx st) | None => ctx st end) [] in
  match o with
  | QUEUE_SUBMIT vq _ _ _ _ =>
      let '((res, rep), c') :=
        callback ((λ f c, f c o (-1, 0)) <$> p_submit cp) (-1, 0) (ctx st) in
      vk_reply st c' [WU8 kVkGenEscapeOp; WU16 0x4000; WU32 vq; WI32 res; WI32 rep]
  | QUEUE_WAIT_IDLE vq => result vq 0 ((λ f c, f c vq) <$> p_queue_wait_idle cp)
  | DEVICE_WAIT_IDLE vd => result vd 0 ((λ f c, f c vd) <$> p_device_wait_idle cp)
  | CREATE_FENCE vd vf fl => result vf (-1) ((λ f c, f c vd vf fl) <$> p_create_fence cp)
  | DESTROY_FENCE vd vf => quiet ((λ f c, f c vd vf) <$> p_destroy_fence cp)
  | WAIT_FOR_FENCES vd wa tm l => result vd 0 ((λ f c, f c vd wa tm l) <$> p_wait_fences cp)
  | RESET_FENCES vd l => result vd 0 ((λ f c, f c vd l) <$> p_reset_fences cp)
  | GET_FENCE_STATUS vd vf => result vf 0 ((λ f c, f c vd vf) <$> p_get_fence_status cp)
  | CREATE_SEMAPHORE vd vs fl =>
      result vs (-1) ((λ f c, f c vd vs fl) <$> p_create_semaphore cp)
  | DESTROY_SEMAPHORE vd vs => quiet ((λ f c, f c vd vs) <$> p_destroy_semaphore cp)
  end.

(** [decode_vk_cmd_op]: whether the operation was claimed.  After a failure the cursor
    is not used again. *)
Definition decode_vk_cmd_op (cp : VkCmdProvider) (a : AlrVkArena) (op : Z)
    (st : vk_state) (s : bytes) : bool * (vk_state * bytes) :=
  if negb (op =? kVkGenEscapeOp) then (false, (st, s))
  else match (sub ← rd_u16;
              if sub <? ALR_VK_CMD_SUBOP_BASE then rd_fail else parse_subop a sub) s with
       | None => (true, (vk_fail st, s))
       | Some (o, s') => (true, (exec_cmd_op cp o st, s'))
       end.

(** [decode_vk_batch]; [other] stands for the operations outside the band. *)
Variable other : Z → vk_state → bytes → vk_state * bytes.
Fixpoint vk_batch_loop (fuel : nat) (cp : VkCmdProvider) (a : AlrVkArena)
    (st : vk_state) (s : bytes) : vk_state :=
  match fuel with
  | O => st
  | S fuel =>
      if negb (ok st) then st
      else match rd_u8 s with
           | None => st
           | Some (op, s') =>
               if op =? 0 then st
               else if op =? kVkGenEscapeOp then
                 match rd_u16 s' with
                 | None => vk_fail st
                 | Some (sub, _) =>
                     if 0x4000 <=? sub then
                       let '(claimed, (st', s'')) := decode_vk_cmd_op cp a op st s' in
                       if claimed : bool then vk_batch_loop fuel cp a st' s''
                       else vk_fail st'
                     else let '(st', s'') := other op st s' in vk_batch_loop fuel cp a st' s''
                 end
               else let '(st', s'') := other op st s' in vk_batch_loop fuel cp a st' s''
           end
  end.
Definition decode_vk_batch (cp : VkCmdProvider) (a : AlrVkArena) (data : bytes)
    (st : vk_state) : vk_state :=
  let st' := vk_batch_loop (S (length data)) cp a st data in
  mk_vk (ok st') (decoded st') (ctx st') (reply st' ++ [byte_of 0]).
End host.

(** ** The guest: encoding an operation *)

(** The arguments of [queue_submit_cmd]; [log] is null or a buffer. *)
Record GuestCmd := mk_gcmd { g_vcmd : Z; g_off : Z; g_len : Z; g_log : option bytes }.
Definition inline_log (g : GuestCmd) : list wire :=
  match g_log g with
  | Some d => if (g_off g =? kAlrVkArenaNoOffset) && negb (g_len g =? 0)
              then [WRaw (take (Z.to_nat (g_len g)) d)] else []
  | None => []
  end.
Definition gcmd_wires (g : GuestCmd) : list wire :=
  [WU32 (g_vcmd g); WU64 (g_off g); WU32 (g_len g)] ++ inline_log g.
Definition pair_wires (p : Z * Z) : list wire := [WU32 (fst p); WU32 (snd p)].
Definition word_wires (z : Z) : list wire := [WU32 z].

(** The operands on the wire. *)
Definition op_fields (o : vk_cmd_op GuestCmd) : list wire :=
  match o with
  | QUEUE_SUBMIT vq vf waits signals cmds =>
      [WU32 vq; WU32 vf] ++ counted_wires pair_wires waits
      ++ counted_wires word_wires signals ++ counted_wires gcmd_wires cmds
  | QUEUE_WAIT_IDLE x | DEVICE_WAIT_IDLE x => [WU32 x]
  | CREATE_FENCE x y z | CREATE_SEMAPHORE x y z => [WU32 x; WU32 y; WU32 z]
  | DESTROY_FENCE x y | GET_FENCE_STATUS x y | DESTROY_SEMAPHORE x y => [WU32 x; WU32 y]
  | WAIT_FOR_FENCES vd wait_all timeout l =>
      [WU32 vd; WU32 wait_all; WU64 timeout] ++ counted_wires word_wires l
  | RESET_FENCES vd l => [WU32 vd] ++ counted_wires word_wires l
  end.
Definition op_wires (o : vk_cmd_op GuestCmd) : list wire :=
  [WU8 kVkGenEscapeOp; WU16 (subop o)] ++ op_fields o.

(** [AlrVkCmdEncoder]: the submit is built call by call, its counts patched in later. *)
Record AlrVkCmdEncoder := mk_ce {
  ce_enc : AlrEncoder; wait_n : Z; signal_n : Z; cmd_n : Z;
  wait_count_pos : Z; signal_count_pos : Z; cmd_count_pos : Z }.
Definition ce_init (cap : Z) : AlrVkCmdEncoder := mk_ce (alr_enc_init cap) 0 0 0 0 0 0.
Definition ce_put (e : AlrVkCmdEncoder) (ws : list wire) : AlrVkCmdEncoder :=
  mk_ce (alr_enc_all (ce_enc e) ws) (wait_n e) (signal_n e) (cmd_n e)
    (wait_count_pos e) (signal_count_pos e) (cmd_count_pos e).
Definition ce_len (e : AlrVkCmdEncoder) : Z := count (enc_buf (ce_enc e)).
Definition patch_u32 (e : AlrEncoder) (pos v : Z) : AlrEncoder :=
  if u32 (pos + 4) <=? count (enc_buf e) then
    mk_enc (take (Z.to_nat pos) (enc_buf e) ++ le_bytes 4 v
            ++ drop (Z.to_nat pos + 4) (enc_buf e)) (enc_cap e) (enc_overflow e)
  else e.

Definition queue_submit_begin (e : AlrVkCmdEncoder) (vq vf : Z) : AlrVkCmdEncoder :=
  let e1 := ce_put e [WU8 kVkGenEscapeOp; WU16 0x4000; WU32 vq; WU32 vf] in
  ce_put (mk_ce (ce_enc e1) 0 0 0 (ce_len e1) (signal_count_pos e1) (cmd_count_pos e1))
    [WU32 0].
Definition queue_submit_wait (e : AlrVkCmdEncoder) (p : Z * Z) : AlrVkCmdEncoder :=
  let e1 := ce_put e (pair_wires p) in
  mk_ce (ce_enc e1) (u32 (wait_n e1 + 1)) (signal_n e1) (cmd_n e1)
    (wait_count_pos e1) (signal_count_pos e1) (cmd_count_pos e1).
Definition queue_submit_waits_done (e : AlrVkCmdEncoder) : AlrVkCmdEncoder :=
  let enc := patch_u32 (ce_enc e) (wait_count_pos e) (wait_n e) in
  ce_put (mk_ce enc (wait_n e) (signal_n e) (cmd_n e) (wait_count_pos e)
            (count (enc_buf enc)) (cmd_count_pos e)) [WU32 0].
Definition queue_submit_signal (e : AlrVkCmdEncoder) (v : Z) : AlrVkCmdEncoder :=
  let e1 := ce_put e (word_wires v) in
  mk_ce (ce_enc e1) (wait_n e1) (u32 (signal_n e1 + 1)) (cmd_n e1)
    (wait_count_pos e1) (signal_count_pos e1) (cmd_count_pos e1).
Definition queue_submit_signals_done (e : AlrVkCmdEncoder) : AlrVkCmdEncoder :=
  let enc := patch_u32 (ce_enc e) (signal_count_pos e) (signal_n e) in
  ce_put (mk_ce enc (wait_n e) (signal_n e) (cmd_n e) (wait_count_pos e)
            (signal_count_pos e) (count (enc_buf enc))) [WU32 0].
Definition queue_submit_cmd (e : AlrVkCmdEncoder) (g : GuestCmd) : AlrVkCmdEncoder :=
  let e1 := ce_put e (gcmd_wires g) in
  mk_ce (ce_enc e1) (wait_n e1) (signal_n e1) (u32 (cmd_n e1 + 1))
    (wait_count_pos e1) (signal_count_pos e1) (cmd_count_pos e1).
Definition queue_submit_cmds_done (e : AlrVkCmdEncoder) : AlrVkCmdEncoder :=
  mk_ce (patch_u32 (ce_enc e) (cmd_count_pos e) (cmd_n e)) (wait_n e) (signal_n e) (cmd_n e)
    (wait_count_pos e) (signal_count_pos e) (cmd_count_pos e).

(** One operation; a submit is the calls in their order. *)
Definition ce_op (e : AlrVkCmdEncoder) (o : vk_cmd_op GuestCmd) : AlrVkCmdEncoder :=
  match o with
  | QUEUE_SUBMIT vq vf waits signals cmds =>
      let e := queue_submit_waits_done
                 (foldl queue_submit_wait (queue_submit_begin e vq vf) waits) in
      let e := queue_submit_signals_done (foldl queue_submit_signal e signals) in
      queue_submit_cmds_done (foldl queue_submit_cmd e cmds)
  | _ => ce_put e (op_wires o)
  end.
(** [init], the operations, [end]. *)
Definition ce_batch (cap : Z) (os : list (vk_cmd_op GuestCmd)) : AlrVkCmdEncoder :=
  ce_put (foldl ce_op (ce_init cap) os) [WU8 0].
Definition batch_wires (os : list (vk_cmd_op GuestCmd)) : list wire :=
  concat (op_wires <$> os) ++ [WU8 0].

(** ** What the encoder leaves *)

Lemma enc_bytes_app x y : enc_onto (x ++ y) [] = enc_onto x [] ++ enc_onto y [].
Proof. by rewrite enc_onto_app, enc_onto_nil. Qed.
Lemma put_fits b cap ws :
  count (b ++ enc_onto ws []) ≤ cap →
  alr_enc_all (mk_enc b cap false) ws = mk_enc (b ++ enc_onto ws []) cap false.
Proof.
  intros H. unfold count in H. rewrite length_app in H.
  apply alr_all_append; [done|]. cbn [enc_buf enc_cap]. lia.
Qed.
Lemma patch_back b c cap v :
  count b + 4 < 2 ^ 32 →
  patch_u32 (mk_enc (b ++ le_bytes 4 0 ++ c) cap false) (count b) v
  = mk_enc (b ++ le_bytes 4 v ++ c) cap false.
Proof.
  intros H. unfold patch_u32, count in *. cbn [enc_buf enc_cap enc_overflow].
  rewrite u32_small by lia. rewrite !length_app, le_bytes_length.
  rewrite (proj2 (Z.leb_le _ _)) by lia. rewrite Nat2Z.id, take_app_length.
  rewrite <- drop_drop, drop_app_length, drop_app_length' by (by rewrite le_bytes_length).
  done.
Qed.

(** The fold of a list-building call: its bytes, and its counter. *)
Lemma fold_waits l e :
  0 ≤ wait_n e → wait_n e + count l < 2 ^ 32 →
  foldl queue_submit_wait e l
  = mk_ce (alr_enc_all (ce_enc e) (concat (pair_wires <$> l))) (wait_n e + count l)
      (signal_n e) (cmd_n e) (wait_count_pos e) (signal_count_pos e) (cmd_count_pos e).
Proof.
  unfold count. revert e. induction l as [|x l IH]; intros e H0 H.
  - destruct e. cbn. by rewrite Z.add_0_r.
  - cbn [length foldl fmap list_fmap concat] in *.
    rewrite IH; unfold queue_submit_wait, ce_put; cbn [wait_n signal_n cmd_n ce_enc
      wait_count_pos signal_count_pos cmd_count_pos]; rewrite u32_small by lia; try lia.
    unfold alr_enc_all. rewrite foldl_app. f_equal. lia.
Qed.
Lemma fold_signals l e :
  0 ≤ signal_n e → signal_n e + count l < 2 ^ 32 →
  foldl queue_submit_signal e l
  = mk_ce (alr_enc_all (ce_enc e) (concat (word_wires <$> l))) (wait_n e)
      (signal_n e + count l) (cmd_n e) (wait_count_pos e) (signal_count_pos e)
      (cmd_count_pos e).
Proof.
  unfold count. revert e. induction l as [|x l IH]; intros e H0 H.
  - destruct e. cbn. by rewrite Z.add_0_r.
  - cbn [length foldl fmap list_fmap concat] in *.
    rewrite IH; unfold queue_submit_signal, ce_put; cbn [wait_n signal_n cmd_n ce_enc
      wait_count_pos signal_count_pos cmd_count_pos]; rewrite u32_small by lia; try lia.
    unfold alr_enc_all. rewrite foldl_app. f_equal. lia.
Qed.
Lemma fold_cmds l e :
  0 ≤ cmd_n e → cmd_n e + count l < 2 ^ 32 →
  foldl queue_submit_cmd e l
  = mk_ce (alr_enc_all (ce_enc e) (concat (gcmd_wires <$> l))) (wait_n e)
      (signal_n e) (cmd_n e + count l) (wait_count_pos e) (signal_count_pos e)
      (cmd_count_pos e).
Proof.
  unfold count. revert e. induction l as [|x l IH]; intros e H0 H.
  - destruct e. cbn. by rewrite Z.add_0_r.
  - cbn [length foldl fmap list_fmap concat] in *.
    rewrite IH; unfold queue_submit_cmd, ce_put; cbn [wait_n signal_n cmd_n ce_enc
      wait_count_pos signal_count_pos cmd_count_pos]; rewrite u32_small by lia; try lia.
    unfold alr_enc_all. rewrite foldl_app. f_equal. lia.
Qed.

Definition zero4 : bytes := le_bytes 4 0.
Lemma enc_zero : enc_onto [WU32 0] [] = zero4.
Proof. done. Qed.
Lemma count_app {A} (x y : list A) : count (x ++ y) = count x + count y.
Proof. unfold count. rewrite length_app. lia. Qed.
Lemma count_nonneg {A} (x : list A) : 0 ≤ count x.
Proof. unfold count. lia. Qed.
Lemma count_le4 z : count (le_bytes 4 z) = 4.
Proof. done. Qed.

(** The three phases: a list is appended behind its zero count, then the count patched
    and the next zero count appended. *)
Lemma waits_phase l b cap e :
  ce_enc e = mk_enc (b ++ zero4) cap false → wait_n e = 0 → wait_count_pos e = count b →
  count l < 2 ^ 32 → cap < 2 ^ 32 →
  let b' := b ++ enc_onto (counted_wires pair_wires l) [] in
  count b' + 4 ≤ cap →
  let e' := queue_submit_waits_done (foldl queue_submit_wait e l) in
  ce_enc e' = mk_enc (b' ++ zero4) cap false ∧ signal_count_pos e' = count b' ∧
  signal_n e' = signal_n e ∧ cmd_n e' = cmd_n e.
Proof.
  intros He Hn Hp Hl Hcap b' Hb' e'. unfold e', b' in *. clear e' b'.
  pose proof (count_nonneg b). pose proof (count_nonneg (enc_onto (concat (pair_wires <$> l)) [])).
  change (enc_onto (counted_wires pair_wires l) [])
    with (le_bytes 4 (count l) ++ enc_onto (concat (pair_wires <$> l)) []) in *.
  rewrite !count_app, count_le4 in Hb'.
  rewrite fold_waits by lia. rewrite He, Hn, Hp.
  rewrite put_fits by (rewrite !count_app; unfold zero4; rewrite count_le4; lia).
  unfold queue_submit_waits_done. cbn [ce_enc wait_n wait_count_pos].
  rewrite <- (assoc_L (++)). rewrite patch_back by lia.
  unfold ce_put. cbn [ce_enc signal_n cmd_n signal_count_pos enc_buf].
  rewrite put_fits by (rewrite enc_zero, !count_app; unfold zero4; rewrite !count_le4; lia).
  done.
Qed.
Lemma signals_phase l b cap e :
  ce_enc e = mk_enc (b ++ zero4) cap false → signal_n e = 0 → signal_count_pos e = count b →
  count l < 2 ^ 32 → cap < 2 ^ 32 →
  let b' := b ++ enc_onto (counted_wires word_wires l) [] in
  count b' + 4 ≤ cap →
  let e' := queue_submit_signals_done (foldl queue_submit_signal e l) in
  ce_enc e' = mk_enc (b' ++ zero4) cap false ∧ cmd_count_pos e' = count b' ∧
  cmd_n e' = cmd_n e.
Proof.
  intros He Hn Hp Hl Hcap b' Hb' e'. unfold e', b' in *. clear e' b'.
  pose proof (count_nonneg b). pose proof (count_nonneg (enc_onto (concat (word_wires <$> l)) [])).
  change (enc_onto (counted_wires word_wires l) [])
    with (le_bytes 4 (count l) ++ enc_onto (concat (word_wires <$> l)) []) in *.
  rewrite !count_app, count_le4 in Hb'.
  rewrite fold_signals by lia. rewrite He, Hn, Hp.
  rewrite put_fits by (rewrite !count_app; unfold zero4; rewrite count_le4; lia).
  unfold queue_submit_signals_done. cbn [ce_enc signal_n signal_count_pos].
  rewrite <- (assoc_L (++)). rewrite patch_back by lia.
  unfold ce_put. cbn [ce_enc cmd_n cmd_count_pos enc_buf].
  rewrite put_fits by (rewrite enc_zero, !count_app; unfold zero4; rewrite !count_le4; lia).
  done.
Qed.
Lemma cmds_phase l b cap e :
  ce_enc e = mk_enc (b ++ zero4) cap false → cmd_n e = 0 → cmd_count_pos e = count b →
  count l < 2 ^ 32 → cap < 2 ^ 32 →
  let b' := b ++ enc_onto (counted_wires gcmd_wires l) [] in
  count b' ≤ cap →
  ce_enc (queue_submit_cmds_done (foldl queue_submit_cmd e l)) = mk_enc b' cap false.
Proof.
  intros He Hn Hp Hl Hcap b' Hb'. unfold b' in *. clear b'.
  pose proof (count_nonneg b). pose proof (count_nonneg (enc_onto (concat (gcmd_wires <$> l)) [])).
  change (enc_onto (counted_wires gcmd_wires l) [])
    with (le_bytes 4 (count l) ++ enc_onto (concat (gcmd_wires <$> l)) []) in *.
  rewrite !count_app, count_le4 in Hb'.
  rewrite fold_cmds by lia. rewrite He, Hn, Hp.
  rewrite put_fits by (rewrite !count_app; unfold zero4; rewrite count_le4; lia).
  unfold queue_submit_cmds_done. cbn [ce_enc cmd_n cmd_count_pos].
  rewrite <- (assoc_L (++)). by rewrite patch_back by lia.
Qed.

Lemma counted_min {A} (c : A → list wire) l :
  4 ≤ count (enc_onto (counted_wires c l) []).
Proof.
  change (4 ≤ count (le_bytes 4 (count l) ++ enc_onto (concat (c <$> l)) [])).
  rewrite count_app, count_le4. pose proof (count_nonneg (enc_onto (concat (c <$> l)) [])). lia.
Qed.

(** The lists of an operation have 32-bit lengths. *)
Definition op_counts (o : vk_cmd_op GuestCmd) : Prop :=
  match o with
  | QUEUE_SUBMIT _ _ waits signals cmds =>
      count waits ≤ 64 ∧ count signals ≤ 64 ∧ count cmds ≤ 256
  | WAIT_FOR_FENCES _ _ _ l | RESET_FENCES _ l => count l ≤ 256
  | _ => True
  end.
Lemma ce_op_bytes o b cap e :
  ce_enc e = mk_enc b cap false → op_counts o → cap < 2 ^ 32 →
  count (b ++ enc_onto (op_wires o) []) ≤ cap →
  ce_enc (ce_op e o) = mk_enc (b ++ enc_onto (op_wires o) []) cap false.
Proof.
  intros He Hc Hcap Hfit. destruct o as [vq vf ws ss gs| | | | | | | | |];
    try (cbn [ce_op ce_put ce_enc]; rewrite He; by apply put_fits).
  destruct Hc as (Hw & Hs & Hg). cbn [ce_op].
  pose (hdr := [WU8 kVkGenEscapeOp; WU16 0x4000; WU32 vq; WU32 vf]).
  change (op_wires (QUEUE_SUBMIT vq vf ws ss gs)) with (hdr ++ counted_wires pair_wires ws
    ++ counted_wires word_wires ss ++ counted_wires gcmd_wires gs) in *.
  rewrite !enc_bytes_app in *. rewrite !(assoc_L (++)) in *.
  set (b1 := b ++ enc_onto hdr []) in *.
  pose proof (counted_min pair_wires ws). pose proof (counted_min word_wires ss).
  pose proof (counted_min gcmd_wires gs). rewrite !count_app in Hfit.
  assert (Hb : ce_enc (queue_submit_begin e vq vf) = mk_enc (b1 ++ zero4) cap false ∧
    wait_n (queue_submit_begin e vq vf) = 0 ∧ signal_n (queue_submit_begin e vq vf) = 0 ∧
    cmd_n (queue_submit_begin e vq vf) = 0 ∧
    wait_count_pos (queue_submit_begin e vq vf) = count b1).
  { unfold queue_submit_begin, ce_put, ce_len. fold hdr.
    cbn [ce_enc wait_n signal_n cmd_n wait_count_pos].
    rewrite He, put_fits by (fold b1; lia). fold b1. cbn [enc_buf].
    by rewrite put_fits by (rewrite enc_zero, count_app; unfold zero4; rewrite count_le4; lia). }
  destruct Hb as (Hb1 & Hb2 & Hb3 & Hb4 & Hb5).
  destruct (waits_phase ws b1 cap _ Hb1 Hb2 Hb5 ltac:(lia) Hcap
    ltac:(rewrite count_app; lia)) as (Hw1 & Hw2 & Hw3 & Hw4).
  rewrite Hb3 in Hw3. rewrite Hb4 in Hw4.
  destruct (signals_phase ss _ cap _ Hw1 Hw3 Hw2 ltac:(lia) Hcap
    ltac:(rewrite !count_app; lia)) as (Hs1 & Hs2 & Hs3).
  rewrite Hw4 in Hs3.
  apply (cmds_phase gs _ cap _ Hs1 Hs3 Hs2 ltac:(lia) Hcap). rewrite !count_app. lia.
Qed.

Lemma ce_ops_bytes os b cap e :
  ce_enc e = mk_enc b cap false → Forall op_counts os → cap < 2 ^ 32 →
  count (b ++ enc_onto (concat (op_wires <$> os)) []) ≤ cap →
  ce_enc (foldl ce_op e os) = mk_enc (b ++ enc_onto (concat (op_wires <$> os)) []) cap false.
Proof.
  intros He Hos Hcap. revert b e He. induction Hos as [|o os Ho Hos IH]; intros b e He Hfit.
  - cbn. by rewrite app_nil_r.
  - cbn [fmap list_fmap concat foldl] in *. rewrite enc_bytes_app, (assoc_L (++)) in *.
    apply IH; [|exact Hfit]. apply ce_op_bytes; [done..|].
    rewrite count_app in Hfit. pose proof (count_nonneg (enc_onto (concat (op_wires <$> os)) [])).
    lia.
Qed.
Lemma ce_batch_bytes cap os :
  Forall op_counts os → cap < 2 ^ 32 → count (enc_onto (batch_wires os) []) ≤ cap →
  ce_enc (ce_batch cap os) = mk_enc (enc_onto (batch_wires os) []) cap false.
Proof.
  intros Hos Hcap Hfit. unfold ce_batch, ce_put, batch_wires in *. cbn [ce_enc].
  rewrite enc_bytes_app, count_app in *.
  pose proof (count_nonneg (enc_onto [WU8 0] [])).
  rewrite (ce_ops_bytes os [] cap) by (done || (cbn [app]; lia)). cbn [app].
  apply put_fits. rewrite count_app. lia.
Qed.

(** ** Reading back an operation *)

(** What the host makes of a command buffer of a submit. *)
Definition resolve (a : AlrVkArena) (g : GuestCmd) : SubmitCmd :=
  if g_off g =? kAlrVkArenaNoOffset then
    mk_cmd (g_vcmd g)
      (if 0 <? g_len g then LBytes (take (Z.to_nat (g_len g)) (default [] (g_log g)))
       else LNull) (g_len g)
  else match alr_vk_arena_ptr a (g_off g) with
       | None => mk_cmd (g_vcmd g) LNull (g_len g)
       | Some o => if size a <? u64 (g_off g + g_len g) then mk_cmd (g_vcmd g) LNull 0
                   else mk_cmd (g_vcmd g) (LArena o) (g_len g)
       end.
Definition op_resolve (a : AlrVkArena) (o : vk_cmd_op GuestCmd) : vk_cmd_op SubmitCmd :=
  match o with
  | QUEUE_SUBMIT vq vf ws ss gs => QUEUE_SUBMIT vq vf ws ss (resolve a <$> gs)
  | QUEUE_WAIT_IDLE x => QUEUE_WAIT_IDLE x
  | DEVICE_WAIT_IDLE x => DEVICE_WAIT_IDLE x
  | CREATE_FENCE x y z => CREATE_FENCE x y z
  | DESTROY_FENCE x y => DESTROY_FENCE x y
  | WAIT_FOR_FENCES x y z l => WAIT_FOR_FENCES x y z l
  | RESET_FENCES x l => RESET_FENCES x l
  | GET_FENCE_STATUS x y => GET_FENCE_STATUS x y
  | CREATE_SEMAPHORE x y z => CREATE_SEMAPHORE x y z
  | DESTROY_SEMAPHORE x y => DESTROY_SEMAPHORE x y
  end.

(** The values the C types hold; a log shipped in the request is a buffer of its
    length. *)
Definition gcmd_ok (g : GuestCmd) : Prop :=
  Forall wire_ok [WU32 (g_vcmd g); WU64 (g_off g); WU32 (g_len g)] ∧
  (g_off g = kAlrVkArenaNoOffset → g_len g ≠ 0 → g_len g ≤ count (default [] (g_log g))).
#[export] Instance gcmd_ok_dec g : Decision (gcmd_ok g).
Proof. unfold gcmd_ok. apply _. Defined.
Definition pair_ok (p : Z * Z) : Prop := Forall wire_ok (pair_wires p).
Definition word_ok (z : Z) : Prop := wire_ok (WU32 z).
Definition op_ok (o : vk_cmd_op GuestCmd) : Prop :=
  op_counts o ∧
  match o with
  | QUEUE_SUBMIT vq vf ws ss gs =>
      hdr_ok [WU32 vq; WU32 vf] ∧ Forall pair_ok ws ∧ Forall word_ok ss ∧ Forall gcmd_ok gs
  | WAIT_FOR_FENCES x y z l =>
      hdr_ok [WU32 x; WU32 y; WU64 z] ∧ Forall word_ok l
  | RESET_FENCES x l => hdr_ok [WU32 x] ∧ Forall word_ok l
  | _ => hdr_ok (op_fields o)
  end.
#[export] Instance op_ok_dec o : Decision (op_ok o).
Proof. destruct o; unfold op_ok, op_counts, hdr_ok, pair_ok, word_ok; apply _. Defined.

Lemma rd_word_enc v s : word_ok v → rd_u32 (enc_onto (word_wires v) s) = Some (id v, s).
Proof. apply rd_u32_enc. Qed.
Lemma rd_pair_enc p s : pair_ok p → rd_pair (enc_onto (pair_wires p) s) = Some (id p, s).
Proof.
  intros Hp. destruct p as [x y]. apply Forall_cons in Hp as [? Hp].
  apply Forall_cons in Hp as [? _]. unfold rd_pair. cbn [pair_wires enc_onto foldr fst snd].
  by repeat rd_field.
Qed.
Lemma rd_submit_cmd_enc a g s :
  gcmd_ok g → rd_submit_cmd a (enc_onto (gcmd_wires g) s) = Some (resolve a g, s).
Proof.
  intros [Hf Hlen]. repeat (apply Forall_cons in Hf as [? Hf]).
  unfold rd_submit_cmd, gcmd_wires. rewrite enc_onto_app. cbn [enc_onto foldr].
  repeat rd_field. unfold resolve, inline_log.
  destruct (g_off g =? kAlrVkArenaNoOffset) eqn:Eoff; cbn [negb].
  - apply Z.eqb_eq in Eoff. specialize (Hlen Eoff). cbn [wire_ok] in *.
    destruct (0 <? g_len g) eqn:Elen.
    + specialize (Hlen ltac:(lia)). destruct (g_log g) as [d|]; cbn [default] in *;
        [|unfold count in Hlen; cbn [length] in Hlen; lia].
      unfold count, id in Hlen. rewrite (proj2 (Z.eqb_neq _ _)) by lia.
      cbn [andb negb enc_onto foldr enc_wire].
      assert (Z.of_nat (length (take (Z.to_nat (g_len g)) d)) = g_len g) as Hd
        by (rewrite length_take; lia).
      rewrite <- Hd at 1. erewrite rd_bind_eq by apply rd_take_app. done.
    + rewrite (proj2 (Z.eqb_eq _ 0)) by lia. by destruct (g_log g).
  - by destruct (g_log g).
Qed.

Lemma rd_words_counted l s :
  Forall word_ok l → count l ≤ 256 →
  rd_counted 256 rd_u32 (enc_onto (counted_wires word_wires l) s) = Some (l, s).
Proof.
  intros Hl Hn. rewrite (rd_counted_enc 256 rd_u32 word_wires id word_ok) by
    (lia || done || (intros; by apply rd_word_enc)).
  by rewrite list_fmap_id.
Qed.

Lemma parse_subop_enc a o s :
  op_ok o → parse_subop a (subop o) (enc_onto (op_fields o) s) = Some (op_resolve a o, s).
Proof.
  intros [Hc Ho]. destruct o as [vq vf ws ss gs| | | | | | | | |];
    unfold op_counts, hdr_ok in *; cbn [op_fields] in Ho;
    repeat match goal with
      | H : _ ∧ _ |- _ => destruct H
      | H : Forall wire_ok (_ :: _) |- _ => apply Forall_cons in H as [? H]
      end;
    cbn [subop parse_subop op_fields]; rewrite ?enc_onto_app; cbn [enc_onto foldr app];
    try (repeat rd_field; reflexivity).
  - unfold cmd_read_submit. do 2 rd_field.
    erewrite rd_bind_eq by (apply (rd_counted_enc 64 rd_pair pair_wires id pair_ok);
      [lia|assumption|intros; by apply rd_pair_enc|assumption]).
    erewrite rd_bind_eq by (apply (rd_counted_enc 64 rd_u32 word_wires id word_ok);
      [lia|assumption|intros; by apply rd_word_enc|assumption]).
    erewrite rd_bind_eq by (apply (rd_counted_enc 256 (rd_submit_cmd a) gcmd_wires (resolve a)
      gcmd_ok); [lia|assumption|intros; by apply rd_submit_cmd_enc|assumption]).
    by rewrite !list_fmap_id.
  - repeat rd_field. erewrite rd_bind_eq by (apply rd_words_counted; assumption). done.
  - repeat rd_field. erewrite rd_bind_eq by (apply rd_words_counted; assumption). done.
Qed.

(** ** Decoding a batch of the band *)

Lemma subop_range {A} (o : vk_cmd_op A) : 0x4000 ≤ subop o < 2 ^ 16.
Proof. destruct o; cbn [subop]; lia. Qed.

Section batch.
Context {C : Type} (other : Z → @vk_state C → bytes → @vk_state C * bytes).

Lemma exec_cmd_op_ok (cp : @VkCmdProvider C) o st : ok (exec_cmd_op cp o st) = ok st.
Proof. destruct o; cbn [exec_cmd_op]; repeat case_match; done. Qed.

Lemma vk_batch_loop_enc cp a os st rest fuel :
  Forall op_ok os → ok st = true → (length os < fuel)%nat →
  vk_batch_loop other fuel cp a st (enc_onto (batch_wires os) rest)
  = foldl (λ st o, exec_cmd_op cp (op_resolve a o) st) st os.
Proof.
  intros Hos. revert st fuel.
  induction Hos as [|o os Ho Hos IH]; intros st [|fuel] Hok Hf; cbn [length] in Hf; try lia;
    cbn [vk_batch_loop foldl]; rewrite Hok; cbn [negb].
  - change (enc_onto (batch_wires []) rest) with (enc_wire (WU8 0) ++ rest).
    by rewrite rd_u8_enc by lia.
  - change (batch_wires (o :: os)) with ((op_wires o ++ concat (op_wires <$> os)) ++ [WU8 0]).
    rewrite <- (assoc_L (++)). fold (batch_wires os). rewrite enc_onto_app.
    change (enc_onto (op_wires o) ?r) with (enc_wire (WU8 kVkGenEscapeOp) ++
      enc_wire (WU16 (subop o)) ++ enc_onto (op_fields o) r).
    rewrite rd_u8_enc by (unfold kVkGenEscapeOp; lia).
    change (kVkGenEscapeOp =? 0) with false. change (kVkGenEscapeOp =? kVkGenEscapeOp) with true.
    cbv iota. pose proof (subop_range o). rewrite rd_u16_enc by lia.
    rewrite (proj2 (Z.leb_le _ _)) by lia. unfold decode_vk_cmd_op.
    change (negb (kVkGenEscapeOp =? kVkGenEscapeOp)) with false. cbv iota.
    erewrite rd_bind_eq by (apply rd_u16_enc; lia). unfold ALR_VK_CMD_SUBOP_BASE.
    rewrite (proj2 (Z.ltb_ge _ _)) by lia. rewrite (parse_subop_enc a o _ Ho).
    apply IH; [by rewrite exec_cmd_op_ok|lia].
Qed.

Lemma batch_length os : (length os < length (enc_onto (batch_wires os) []))%nat.
Proof.
  induction os as [|o os IH]; [cbn; lia|].
  change (batch_wires (o :: os)) with ((op_wires o ++ concat (op_wires <$> os)) ++ [WU8 0]).
  rewrite <- (assoc_L (++)). fold (batch_wires os). rewrite enc_bytes_app, length_app.
  change (enc_onto (op_wires o) []) with (enc_wire (WU8 kVkGenEscapeOp) ++
    enc_onto (WU16 (subop o) :: op_fields o) []).
  rewrite length_app. cbn [enc_wire length le_bytes]. lia.
Qed.

Lemma decode_vk_batch_enc cp a os st :
  Forall op_ok os → ok st = true →
  decode_vk_batch other cp a (enc_onto (batch_wires os) []) st
  = let st' := foldl (λ st o, exec_cmd_op cp (op_resolve a o) st) st os in
    mk_vk (ok st') (decoded st') (ctx st') (reply st' ++ [byte_of 0]).
Proof.
  intros Hos Hok. unfold decode_vk_batch.
  rewrite vk_batch_loop_enc; [done|done|done|]. pose proof (batch_length os). lia.
Qed.
End batch.

(** ** From the recording to the replay *)

(** The log handling of [cmd_real_queue_submit] for one command buffer: [None] is
    [ALR_VK_CMD_REPLAY_LOG_UNREADABLE] or [_DECODE]; an empty log replays nothing. *)
Definition log_contents (a : AlrVkArena) (c : SubmitCmd) : bytes :=
  match log c with
  | LNull => []
  | LArena off => arena_bytes a off (log_len c)
  | LBytes d => d
  end.
Definition is_null (p : log_ptr) : bool := match p with LNull => true | _ => false end.
Definition replay_of (a : AlrVkArena) (c : SubmitCmd) : option (list vkcmd) :=
  if is_null (log c) && negb (log_len c =? 0) then None
  else if negb (is_null (log c)) && negb (log_len c =? 0) then
    match replay_log (log_contents a c) with (cs, Some _) => Some cs | (_, None) => None end
  else Some [].

(** One command buffer: [vkBeginCommandBuffer] takes a slab of the shared arena for the
    log, or a buffer of the guest when there is none; the recorder fills it; the submit
    names its offset, or ships it. *)
Record job := mk_job { j_vcmd : Z; j_cap : Z; j_cmds : list vkcmd }.
Definition record_job (a : AlrVkArena) (j : job) : GuestCmd * AlrVkArena :=
  let '(off, a1) := alr_vk_arena_alloc a (j_cap j) in
  let '(len, r) := record_log (j_cap j) off (j_cmds j) in
  (mk_gcmd (j_vcmd j) (arena_off r) len (Some (enc_buf (rec_enc r))),
   if off =? kAlrVkArenaNoOffset then a1 else arena_store a1 off (enc_buf (rec_enc r))).
Fixpoint record_jobs (a : AlrVkArena) (js : list job) : list GuestCmd * AlrVkArena :=
  match js with
  | [] => ([], a)
  | j :: js' =>
      let '(g, a1) := record_job a j in
      let '(gs, a2) := record_jobs a1 js' in (g :: gs, a2)
  end.

Definition job_ok (j : job) : Prop :=
  0 ≤ j_vcmd j < 2 ^ 32 ∧ 0 < j_cap j < 2 ^ 32 ∧ Forall cmd_ok (j_cmds j).
#[export] Instance job_ok_dec j : Decision (job_ok j).
Proof. unfold job_ok. apply _. Defined.
(** What the replay of the command buffer must do: nothing if the log overflowed. *)
Definition job_replay (j : job) : list vkcmd :=
  if j_cap j <? count (log_bytes (j_cmds j)) then [] else j_cmds j.

(** [arena_store] and [arena_bytes]. *)
Lemma store_same a off d :
  0 ≤ off → off + count d ≤ count (default [] (base a)) → is_Some (base a) →
  arena_bytes (arena_store a off d) off (count d) = d.
Proof.
  intros H0 H [m Hm]. unfold arena_bytes, arena_store, count in *. rewrite Hm in *.
  cbn [base fmap option_fmap option_map default] in *. unfold id in *.
  rewrite drop_app_length' by (rewrite length_take; lia).
  rewrite Nat2Z.id. apply take_app_length.
Qed.
Lemma store_below a off d o l :
  0 ≤ o → 0 ≤ l → o + l ≤ off → off ≤ count (default [] (base a)) →
  arena_bytes (arena_store a off d) o l = arena_bytes a o l.
Proof.
  intros Ho Hl H Hm. unfold arena_bytes, arena_store, count in *.
  destruct (base a) as [m|]; [|done].
  cbn [base fmap option_fmap option_map default] in *. unfold id in *.
  rewrite drop_app_le by (rewrite length_take; lia).
  rewrite take_app_le by (rewrite length_drop, length_take; lia).
  rewrite <- (take_drop (Z.to_nat off) m) at 2.
  rewrite (drop_app_le (take _ m)) by (rewrite length_take; lia).
  by rewrite (take_app_le (drop _ _)) by (rewrite length_drop, length_take; lia).
Qed.
Lemma store_ok a off d :
  arena_ok a → 0 ≤ off → off + count d ≤ size a → arena_ok (arena_store a off d).
Proof.
  intros [[m Hm] H2 H3 H4 H5] H0 H. unfold arena_store. rewrite Hm in *. unfold count in *.
  cbn [default] in H2. unfold id in H2.
  split; cbn [base size next fmap option_fmap option_map default]; [done| |done|done|done].
  unfold id. rewrite !length_app, length_take, length_drop. lia.
Qed.

Lemma log_nonempty cs : 0 < count (log_bytes cs).
Proof. pose proof (log_bytes_length cs). unfold count. lia. Qed.
Lemma replay_inline a v j :
  job_ok j → (j_cap j <? count (log_bytes (j_cmds j))) = false →
  replay_of a (resolve a (mk_gcmd v kAlrVkArenaNoOffset (count (log_bytes (j_cmds j)))
    (Some (log_bytes (j_cmds j))))) = Some (job_replay j).
Proof.
  intros (_ & _ & Hcs) Hfit. pose proof (log_nonempty (j_cmds j)).
  unfold resolve, job_replay. rewrite Hfit. cbn [g_off g_vcmd g_len g_log].
  rewrite Z.eqb_refl, (proj2 (Z.ltb_lt _ _)) by lia. unfold replay_of.
  cbn [log log_len is_null andb negb log_contents default]. rewrite (proj2 (Z.eqb_neq _ _)) by lia.
  cbn [negb]. unfold log_contents. cbn [log]. unfold id, count. rewrite Nat2Z.id, firstn_all.
  rewrite <- (app_nil_r (log_bytes _)). by rewrite replay_log_bytes.
Qed.
Lemma replay_arena a v off j :
  job_ok j → (j_cap j <? count (log_bytes (j_cmds j))) = false →
  arena_ready a = true → size a < 2 ^ 64 - 1 →
  0 ≤ off → off + count (log_bytes (j_cmds j)) ≤ size a →
  arena_bytes a off (count (log_bytes (j_cmds j))) = log_bytes (j_cmds j) →
  ∀ d, replay_of a (resolve a (mk_gcmd v off (count (log_bytes (j_cmds j))) d))
       = Some (job_replay j).
Proof.
  intros (_ & _ & Hcs) Hfit Hr Hs H0 Hin Hb d. pose proof (log_nonempty (j_cmds j)).
  unfold resolve, job_replay, alr_vk_arena_ptr. rewrite Hfit, Hr. cbn [g_off g_vcmd g_len].
  assert ((off =? kAlrVkArenaNoOffset) = false) as ->
    by (apply Z.eqb_neq; unfold kAlrVkArenaNoOffset; lia).
  cbn [orb negb]. rewrite (proj2 (Z.leb_gt _ _)) by lia. rewrite u64_small by lia.
  rewrite (proj2 (Z.ltb_ge _ _)) by lia. unfold replay_of.
  cbn [log log_len is_null andb negb]. rewrite (proj2 (Z.eqb_neq _ _)) by lia.
  cbn [negb]. unfold log_contents. cbn [log log_len]. rewrite Hb.
  rewrite <- (app_nil_r (log_bytes _)). by rewrite replay_log_bytes.
Qed.
(** An empty log, at an offset of the arena or with none. *)
Lemma replay_empty a v off d :
  off = kAlrVkArenaNoOffset ∨ arena_ready a = true ∧ 0 ≤ off ≤ size a ∧ size a < 2 ^ 64 - 1 →
  replay_of a (resolve a (mk_gcmd v off 0 d)) = Some [].
Proof.
  unfold resolve, alr_vk_arena_ptr. cbn [g_off g_vcmd g_len].
  intros [->|(Hr & H0 & Hs)]; [done|]. destruct (off =? kAlrVkArenaNoOffset); [done|].
  rewrite Hr. cbn [orb negb].
  destruct (size a <=? off); [done|]. by destruct (size a <? u64 (off + 0)).
Qed.

(** One recording: nothing below the cursor is touched, and as long as the slab is left
    alone the host replays what was recorded. *)
Lemma record_job_spec a j :
  arena_ok a → job_ok j →
  let '(g, a1) := record_job a j in
  arena_ok a1 ∧ size a1 = size a ∧ next a ≤ next a1 ∧ g_vcmd g = j_vcmd j ∧ gcmd_ok g ∧
  (∀ o l, 0 ≤ o → 0 ≤ l → o + l ≤ next a → arena_bytes a1 o l = arena_bytes a o l) ∧
  (∀ a2, arena_ok a2 → size a2 = size a →
     (∀ o l, 0 ≤ o → 0 ≤ l → o + l ≤ next a1 → arena_bytes a2 o l = arena_bytes a1 o l) →
     replay_of a2 (resolve a2 g) = Some (job_replay j)).
Proof.
  intros Ha Hj. pose proof Hj as (Hv & Hcap & _). unfold record_job.
  pose proof (alloc_spec a (j_cap j) Ha ltac:(lia)) as Hal.
  destruct (alr_vk_arena_alloc a (j_cap j)) as [off a1]. destruct Hal as (Ha1 & Hb & Hs & Hcase).
  pose proof (record_log_spec (j_cap j) off (j_cmds j) ltac:(lia)) as Hrec.
  destruct (record_log (j_cap j) off (j_cmds j)) as [len r].
  destruct Hrec as (Hoff & Hbuf & Hfit). rewrite Hoff.
  destruct (page_round_spec (j_cap j) ltac:(lia)) as (Hr & _ & _).
  assert (0 ≤ len ≤ j_cap j ∧ (len ≠ 0 → len ≤ count (enc_buf (rec_enc r)))) as [Hlen Hlen'].
  { destruct (j_cap j <? _) eqn:E; [subst len; lia|]. destruct Hfit as [-> ->].
    pose proof (log_nonempty (j_cmds j)). lia. }
  pose proof (ok_next a Ha). pose proof (ok_size a Ha).
  assert (gcmd_ok (mk_gcmd (j_vcmd j) off len (Some (enc_buf (rec_enc r))))) as Hg.
  { split; [|intros _ Hne; by apply Hlen']. cbn [g_vcmd g_off g_len].
    repeat (apply Forall_cons; split); [done| |cbn [wire_ok]; lia|by apply Forall_nil].
    cbn [wire_ok]. unfold kAlrVkArenaNoOffset in Hcase. case_bool_decide; lia. }
  case_bool_decide as Hfull; destruct Hcase as [-> Hnext].
  - subst a1. rewrite Z.eqb_refl. split_and!; try done. intros a2 Ha2 Hs2 _.
    destruct (j_cap j <? _) eqn:E.
    + subst len. unfold job_replay. rewrite E. apply replay_empty. by left.
    + destruct Hfit as [-> ->]. by apply replay_inline.
  - rewrite (proj2 (Z.eqb_neq (next a) _)) by (unfold kAlrVkArenaNoOffset; lia).
    assert (count (default [] (base a1)) = size a) as Hm by (rewrite <- Hs; apply (ok_mem a1 Ha1)).
    split_and!; try done.
    + apply store_ok; [done|lia|lia].
    + cbn [arena_store next]. lia.
    + intros o l Ho Hl Hol. rewrite store_below; try done.
      * unfold arena_bytes. by rewrite Hb.
      * lia.
    + intros a2 Ha2 Hs2 Hsame. pose proof (arena_ok_ready a2 Ha2).
      destruct (j_cap j <? _) eqn:E.
      * subst len. unfold job_replay. rewrite E. apply replay_empty. right. split; [done|lia].
      * destruct Hfit as [-> Hlog]. rewrite Hlog in *. apply replay_arena; try done; try lia.
        rewrite Hsame; [|lia|lia|cbn [arena_store next]; lia].
        apply store_same; [lia|lia|apply (ok_ready a1 Ha1)].
Qed.

Lemma record_jobs_spec a js :
  arena_ok a → Forall job_ok js →
  let '(gs, a') := record_jobs a js in
  arena_ok a' ∧ size a' = size a ∧ next a ≤ next a' ∧
  g_vcmd <$> gs = j_vcmd <$> js ∧ Forall gcmd_ok gs ∧
  (∀ o l, 0 ≤ o → 0 ≤ l → o + l ≤ next a → arena_bytes a' o l = arena_bytes a o l) ∧
  (λ g, replay_of a' (resolve a' g)) <$> gs = (λ j, Some (job_replay j)) <$> js.
Proof.
  intros Ha Hjs. revert a Ha. induction Hjs as [|j js Hj Hjs IH]; intros a Ha; cbn [record_jobs].
  { by split_and!. }
  pose proof (record_job_spec a j Ha Hj) as H. destruct (record_job a j) as [g a1].
  destruct H as (Ha1 & Hs1 & Hn1 & Hv & Hg & Hsame & Hrep).
  specialize (IH a1 Ha1). destruct (record_jobs a1 js) as [gs a2].
  destruct IH as (Ha2 & Hs2 & Hn2 & Hvs & Hgs & Hsame2 & Hreps).
  split_and!; [done|by rewrite Hs2|lia|cbn; by rewrite Hv, <- Hvs|by apply Forall_cons| |].
  - intros o l Ho Hl Hol. rewrite Hsame2 by lia. by apply Hsame.
  - cbn [fmap list_fmap]. f_equal; [|exact Hreps].
    apply Hrep; [done|by rewrite Hs2|exact Hsame2].
Qed.

(** ** The contracts *)

(** C11. The command buffers a guest records, in the shared arena or in buffers of its
    own, reach the driver as recorded: after a submit built by the encoder, the host
    calls the driver once, with the queue, the fence and the semaphores of the guest and
    one log per command buffer that replays exactly the commands recorded in it (none if
    it overflowed its buffer), whatever was recorded in the other buffers; the reply holds
    the result. *)
Theorem submit_replays_recorded {C} other (cp : @VkCmdProvider C) f a js vq vf ws ss cap st :
  arena_ok a → Forall job_ok js → p_submit cp = Some f →
  0 ≤ vq < 2 ^ 32 → 0 ≤ vf < 2 ^ 32 → Forall pair_ok ws → Forall word_ok ss →
  count ws ≤ 64 → count ss ≤ 64 → count js ≤ 256 → ok st = true →
  let '(gs, a') := record_jobs a js in
  let o := QUEUE_SUBMIT vq vf ws ss gs in
  count (enc_onto (batch_wires [o]) []) ≤ cap < 2 ^ 32 →
  let e := ce_enc (ce_batch cap [o]) in
  enc_overflow e = false ∧
  ∃ cs, j_vcmd <$> js = vcmd <$> cs ∧
    replay_of a' <$> cs = (λ j, Some (job_replay j)) <$> js ∧
    decode_vk_batch other cp a' (enc_buf e) st
    = let '((res, rep), ctx') := f (ctx st) (QUEUE_SUBMIT vq vf ws ss cs) (-1, 0) in
      mk_vk true (decoded st + 1) ctx'
        (reply st ++ enc_onto [WU8 230; WU16 0x4000; WU32 vq; WI32 res; WI32 rep] []
         ++ [byte_of 0]).
Proof.
  intros Ha Hjs Hf Hvq Hvf Hws Hss Hw Hs Hj Hok.
  pose proof (record_jobs_spec a js Ha Hjs) as H. destruct (record_jobs a js) as [gs a'].
  destruct H as (Ha' & _ & _ & Hv & Hgs & _ & Hrep). intros o Hcap e.
  assert (count gs = count js) as Hn.
  { unfold count. rewrite <- (length_fmap g_vcmd gs), Hv. by rewrite length_fmap. }
  assert (Forall op_ok [o]) as Ho.
  { apply Forall_cons. split; [|by apply Forall_nil]. split; [cbn; lia|].
    split_and!; try done. repeat (apply Forall_cons; split); [done|done|by apply Forall_nil]. }
  assert (e = mk_enc (enc_onto (batch_wires [o]) []) cap false) as ->.
  { unfold e. apply ce_batch_bytes; [|lia|lia]. apply Forall_cons. split; [cbn; lia|].
    by apply Forall_nil. }
  split; [done|]. exists (resolve a' <$> gs). split_and!.
  - rewrite <- Hv, <- list_fmap_compose. apply list_fmap_ext. intros i g _. cbn.
    unfold resolve. repeat case_match; done.
  - rewrite <- Hrep, <- list_fmap_compose. done.
  - cbn [enc_buf]. rewrite (decode_vk_batch_enc other cp a' [o] st Ho Hok).
    cbn [foldl op_resolve exec_cmd_op o]. rewrite Hf. cbn [fmap option_fmap option_map callback].
    destruct (f _ _ _) as [[res rep] ctx']. unfold vk_reply. cbn [ok decoded ctx reply].
    by rewrite Hok, <- (assoc_L (++)).
Qed.

(** Three command buffers: in the arena, inline because the arena is full, and one whose
    log overflows. *)
Lemma submit_replays_recorded_witness :
  let a := mk_arena 4096 (Some (replicate 4096 (byte_of 0))) 0 in
  let draw := [CMD_BIND_PIPELINE 0 9; CMD_BEGIN_RENDER_PASS false 1 2 (-4) 0 64 64 0
                 [[WRaw (replicate 16 (byte_of 1))]]; CMD_DRAW 3 1 0 0] in
  let js := [mk_job 11 4000 draw; mk_job 12 512 [CMD_DISPATCH 8 8 1]; mk_job 13 4 draw] in
  let f := λ (c : Z) (_ : vk_cmd_op SubmitCmd) (_ : Z * Z), ((0, 0), c + 1) in
  let cp := mk_provider (Some f) None None None None None None None None None in
  let other := λ (_ : Z) (st : vk_state) (s : bytes), (vk_fail st, s) in
  let st := mk_vk true 0 5 [] in
  map job_replay js = [draw; [CMD_DISPATCH 8 8 1]; []] ∧
  let '(gs, a') := record_jobs a js in
  map g_off gs = [0; 2 ^ 64 - 1; 2 ^ 64 - 1] ∧
  let e := ce_enc (ce_batch 256 [QUEUE_SUBMIT 7 3 [(5, 1024)] [6] gs]) in
  enc_overflow e = false ∧
  ∃ cs, j_vcmd <$> js = vcmd <$> cs ∧
    replay_of a' <$> cs = (λ j, Some (job_replay j)) <$> js ∧
    decode_vk_batch other cp a' (enc_buf e) st
    = let '((res, rep), ctx') := f (ctx st) (QUEUE_SUBMIT 7 3 [(5, 1024)] [6] cs) (-1, 0) in
      mk_vk true (decoded st + 1) ctx'
        (reply st ++ enc_onto [WU8 230; WU16 0x4000; WU32 7; WI32 res; WI32 rep] []
         ++ [byte_of 0]).
Proof.
  intros a draw js f cp other st. split; [vm_compute; reflexivity|].
  assert (let '(gs, a') := record_jobs a js in
    map g_off gs = [0; 2 ^ 64 - 1; 2 ^ 64 - 1] ∧
    count (enc_onto (batch_wires [QUEUE_SUBMIT 7 3 [(5, 1024)] [6] gs]) []) ≤ 256 < 2 ^ 32)
    as Hb by (vm_compute; split; [reflexivity|split; [discriminate|reflexivity]]).
  pose proof (submit_replays_recorded other cp f a js 7 3 [(5, 1024)] [6] 256 st) as H.
  assert (arena_ok a) as Ha by (split; vm_compute;
    [by eexists|reflexivity|discriminate|split; discriminate|reflexivity]).
  assert (Forall job_ok js) as Hj by (apply (bool_decide_unpack _); vm_compute; exact I).
  assert (Forall pair_ok [(5, 1024)]) as Hp
    by (apply Forall_singleton; unfold pair_ok; apply (bool_decide_unpack _); vm_compute; exact I).
  assert (Forall word_ok [6]) as Hw by (apply Forall_singleton; unfold word_ok; cbn; lia).
  specialize (H Ha Hj eq_refl ltac:(lia) ltac:(lia) Hp Hw
    ltac:(vm_compute; discriminate) ltac:(vm_compute; discriminate)
    ltac:(vm_compute; discriminate) eq_refl).
  destruct (record_jobs a js) as [gs a']. destruct Hb as [Hoff Hb].
  split; [exact Hoff|exact (H Hb)].
Defined.

(** ** What an accepted submit points to *)

Lemma rd_bind_inv {A B} (m : rd A) (f : A → rd B) s b s' :
  (m ≫= f) s = Some (b, s') → ∃ a s1, m s = Some (a, s1) ∧ f a s1 = Some (b, s').
Proof. unfold mbind, rd_bind. destruct (m s) as [[a s1]|]; [|done]. eauto. Qed.
Lemma local_suffix {A} (m : rd A) s a s' : local m → m s = Some (a, s') → suffix s' s.
Proof. intros Hm H. by destruct (Hm _ _ _ H) as [Hp _]. Qed.

Lemma rd_loop_forall {A} (f : rd A) (P : A → Prop) data fuel n s vs s' :
  local f → (∀ t v t', suffix t data → f t = Some (v, t') → P v) → suffix s data → 0 ≤ n →
  rd_loop f fuel n s = Some (vs, s') →
  Forall P vs ∧ count vs = n ∧ suffix s' data.
Proof.
  intros Hf HP. unfold count. revert n s vs. induction fuel as [|fuel IH]; intros n s vs Hs Hn;
    cbn [rd_loop]; destruct (n <=? 0) eqn:E; try done.
  - intros [= <- <-]. split_and!; [by apply Forall_nil|cbn; lia|done].
  - intros [= <- <-]. split_and!; [by apply Forall_nil|cbn; lia|done].
  - intros H. apply rd_bind_inv in H as (v & s1 & Hv & H).
    apply rd_bind_inv in H as (vs1 & s2 & Hvs & H). injection H as <- <-.
    destruct (IH (n - 1) s1 vs1) as (H1 & H2 & H3); [|lia|exact Hvs|].
    + etrans; [by eapply local_suffix|done].
    + split_and!; [apply Forall_cons; split; [by apply (HP s v s1)|done]|cbn [length]; lia|done].
Qed.
Lemma rd_counted_forall {A} b (f : rd A) (P : A → Prop) data s vs s' :
  local f → (∀ t v t', suffix t data → f t = Some (v, t') → P v) → suffix s data →
  rd_counted b f s = Some (vs, s') → Forall P vs ∧ count vs ≤ b ∧ suffix s' data.
Proof.
  intros Hf HP Hs H. unfold rd_counted in H. apply rd_bind_inv in H as (n & s1 & Hn & H).
  destruct (b <? n) eqn:E; [done|].
  pose proof (rd_u32_range _ _ _ Hn).
  assert (suffix s1 data) as Hs1
    by (etrans; [eapply local_suffix; [apply local_u32|exact Hn]|done]).
  destruct (rd_loop_forall f P data _ n s1 vs s' Hf HP Hs1 ltac:(lia) H) as (H1 & H2 & H3).
  split_and!; [done|lia|done].
Qed.

Lemma local_pair : local rd_pair.
Proof. unfold rd_pair. auto with rd. Qed.
Lemma local_submit_cmd a : local (rd_submit_cmd a).
Proof. unfold rd_submit_cmd. auto 10 with rd. Qed.

(** A log pointer stays inside the arena mapping or inside the request. *)
Definition cmd_in_bounds (a : AlrVkArena) (data : bytes) (c : SubmitCmd) : Prop :=
  match log c with
  | LNull => True
  | LArena off => 0 ≤ off ∧ 0 ≤ log_len c ∧ off + log_len c ≤ size a
  | LBytes d => 0 < log_len c ∧ count d = log_len c ∧ ∃ p q, data = p ++ d ++ q
  end.
Lemma submit_cmd_bounds a data s c s' :
  0 ≤ size a < 2 ^ 63 → suffix s data → rd_submit_cmd a s = Some (c, s') →
  cmd_in_bounds a data c.
Proof.
  intros Hsz [p ->] H. unfold rd_submit_cmd in H.
  apply rd_bind_inv in H as (v & s1 & H1 & H).
  apply rd_bind_inv in H as (off & s2 & H2 & H).
  apply rd_bind_inv in H as (len & s3 & H3 & H).
  apply local_u32 in H1 as [[p1 ->] _].
  pose proof (rd_u64_range _ _ _ H2). apply local_u64 in H2 as [[p2 ->] _].
  pose proof (rd_u32_range _ _ _ H3). apply local_u32 in H3 as [[p3 ->] _].
  unfold cmd_in_bounds. destruct (off =? kAlrVkArenaNoOffset); cbn [negb] in H.
  - destruct (0 <? len) eqn:E; [|by injection H as <- _].
    apply rd_bind_inv in H as (d & s4 & H4 & H). injection H as <- _. cbn [log log_len].
    unfold rd_take in H4. destruct (Z.of_nat (length s3) <? len) eqn:E4; [done|]. injection H4 as <- <-.
    split; [lia|]. split; [unfold count; rewrite length_take; lia|].
    exists (p ++ p1 ++ p2 ++ p3), (drop (Z.to_nat len) s3). by rewrite take_drop, <- !(assoc_L (++)).
  - injection H as <- _. unfold alr_vk_arena_ptr.
    destruct (_ || _ || _) eqn:E; [done|]. apply orb_false_iff in E as [_ E].
    rewrite u64_small by lia. destruct (size a <? off + len) eqn:E2; cbn [log log_len]; [done|lia].
Qed.

(** C12. Whatever bytes a guest sends as a submit, a submit the host accepts has at most
    64 wait and 64 signal semaphores and 256 command buffers, and each of its log
    pointers covers only bytes of the arena mapping or of the request. *)
Theorem submit_logs_in_bounds a data vq vf ws ss cs s' :
  0 ≤ size a < 2 ^ 63 →
  cmd_read_submit a data = Some (QUEUE_SUBMIT vq vf ws ss cs, s') →
  count ws ≤ 64 ∧ count ss ≤ 64 ∧ count cs ≤ 256 ∧ Forall (cmd_in_bounds a data) cs ∧
  suffix s' data.
Proof.
  intros Hsz H. unfold cmd_read_submit in H.
  apply rd_bind_inv in H as (v & s1 & H1 & H). apply local_suffix in H1; [|apply local_u32].
  apply rd_bind_inv in H as (f & s2 & H2 & H). apply local_suffix in H2; [|apply local_u32].
  assert (suffix s2 data) as Hs2 by (by etrans).
  apply rd_bind_inv in H as (l1 & s3 & H3 & H).
  apply (rd_counted_forall _ _ (λ _, True) data) in H3 as (_ & ? & Hs3);
    [|apply local_pair|done|done].
  apply rd_bind_inv in H as (l2 & s4 & H4 & H).
  apply (rd_counted_forall _ _ (λ _, True) data) in H4 as (_ & ? & Hs4);
    [|apply local_u32|done|done].
  apply rd_bind_inv in H as (l3 & s5 & H5 & H).
  apply (rd_counted_forall _ _ (cmd_in_bounds a data) data) in H5 as (? & ? & Hs5);
    [|apply local_submit_cmd|by intros; eapply submit_cmd_bounds|done].
  by injection H as <- <- <- <- <- <-.
Qed.

(** A request that names a log past the end of the arena, one within it, and an inline
    one. *)
Lemma submit_logs_in_bounds_witness :
  let a := mk_arena 4096 (Some []) 0 in
  let data := enc_onto [WU32 7; WU32 3; WU32 0; WU32 0; WU32 3;
    WU32 1; WU64 4000; WU32 97; WU32 1; WU64 4000; WU32 96;
    WU32 2; WU64 (2 ^ 64 - 1); WU32 2; WRaw [byte_of 0; byte_of 0]] [] in
  let cs := [mk_cmd 1 LNull 0; mk_cmd 1 (LArena 4000) 96;
             mk_cmd 2 (LBytes [byte_of 0; byte_of 0]) 2] in
  cmd_read_submit a data = Some (QUEUE_SUBMIT 7 3 [] [] cs, []) ∧
  Forall (cmd_in_bounds a data) cs.
Proof.
  intros a data cs.
  assert (cmd_read_submit a data = Some (QUEUE_SUBMIT 7 3 [] [] cs, [])) as H
    by (vm_compute; reflexivity).
  split; [exact H|].
  apply (submit_logs_in_bounds a data 7 3 [] [] cs []); [cbn; lia|exact H].
Defined.

(** The log that does not fit is replaced by an empty one, so the submit is not refused. *)
Lemma arena_log_too_long :
  let a := mk_arena 4096 (Some []) 0 in
  replay_of a (resolve a (mk_gcmd 1 4000 97 None)) = Some [] ∧
  replay_of a (resolve a (mk_gcmd 1 4096 97 None)) = None.
Proof. vm_compute. by split. Qed.
Close Scope Z_scope.
