(* ===== verification/VkBatch.v ===== *)
(** * The object operations of the Vulkan stream

    Operations 200 to 229 of the batch stream: the requests a guest encodes with the
    [alr_vk_enc_*] functions of [alr_gpu_vk_proto.hpp], the cases of [decode_vk_batch] of
    [alr_gpu_vk_decode.hpp] that execute them, the reply they write and [decode_vk_reply]
    that reads it.  What stands behind the virtual ids is a [VkProvider], on a device the
    functions of [VkHost].  The decoder is that of [VkSubmit] with these operations in
    place of its parameter. *)

From S2P Require Import Prelude Bytes Wire VkArena VkCmdLog VkSubmit.
Open Scope Z_scope.

(** ** Requests *)

Inductive vk_req :=
| CREATE_INSTANCE (vinst app_api : Z)
| ENUMERATE_PHYSICAL_DEVICES (vinst vphys_base : Z)
| GET_PHYSICAL_DEVICE_PROPERTIES (vinst vphys : Z)
| GET_PHYS_IMAGE_FORMAT_PROPS (vinst vphys format type tiling usage flags : Z)
| CREATE_DEVICE2 (vinst vphys vdev : Z) (qcis : list (Z * Z)) (exts : list bytes) (feats : list (Z * bytes))
| GET_DEVICE_QUEUE2 (vdev fam queue_index vqueue : Z)
| GET_PHYS_FORMAT_PROPS (vinst vphys format : Z)
| DESTROY_INSTANCE (vinst : Z)
| CREATE_DEVICE (vinst vphys vdev : Z)
| GET_DEVICE_QUEUE (vdev queue_index vqueue : Z)
| CREATE_COMMAND_POOL (vdev vpool : Z)
| ALLOCATE_COMMAND_BUFFERS (vdev vpool vcmd : Z)
| CMD_BEGIN_CLEAR (vdev vcmd w h cr cg cb ca : Z)
| QUEUE_SUBMIT (vdev vqueue vcmd : Z)
| DESTROY_DEVICE (vdev : Z)
| CMD_BEGIN_DRAW (vdev vcmd w h br bg bb ba : Z)
| CREATE_SHADER_MODULE (vdev vshader stage : Z) (spirv : bytes)
| CREATE_SWAPCHAIN (vdev vsw w h cnt : Z)
| DESTROY_SHADER_MODULE (vdev vshader : Z)
| ACQUIRE_NEXT_IMAGE (vdev vsw : Z)
| CMD_BEGIN_DRAW_MODULES (vdev vcmd vsw img vvert vfrag w h br bg bb ba : Z)
| QUEUE_PRESENT (vdev vqueue vcmd vsw img : Z)
| DESTROY_SWAPCHAIN (vdev vsw : Z).

(** [AlrVkOp] *)
Definition opcode (q : vk_req) : Z :=
  match q with
  | CREATE_INSTANCE _ _ => 200 | ENUMERATE_PHYSICAL_DEVICES _ _ => 201 | GET_PHYSICAL_DEVICE_PROPERTIES _ _ => 202
  | GET_PHYS_IMAGE_FORMAT_PROPS _ _ _ _ _ _ _ => 203 | CREATE_DEVICE2 _ _ _ _ _ _ => 204 | GET_DEVICE_QUEUE2 _ _ _ _ => 205
  | GET_PHYS_FORMAT_PROPS _ _ _ => 206 | DESTROY_INSTANCE _ => 209 | CREATE_DEVICE _ _ _ => 210 | GET_DEVICE_QUEUE _ _ _ => 211
  | CREATE_COMMAND_POOL _ _ => 212 | ALLOCATE_COMMAND_BUFFERS _ _ _ => 213 | CMD_BEGIN_CLEAR _ _ _ _ _ _ _ _ => 214
  | QUEUE_SUBMIT _ _ _ => 215 | DESTROY_DEVICE _ => 216 | CMD_BEGIN_DRAW _ _ _ _ _ _ _ _ => 217 | CREATE_SHADER_MODULE _ _ _ _ => 218
  | CREATE_SWAPCHAIN _ _ _ _ _ => 219 | DESTROY_SHADER_MODULE _ _ => 225 | ACQUIRE_NEXT_IMAGE _ _ => 226
  | CMD_BEGIN_DRAW_MODULES _ _ _ _ _ _ _ _ _ _ _ _ => 227 | QUEUE_PRESENT _ _ _ _ _ => 228 | DESTROY_SWAPCHAIN _ _ => 229
  end.

(** The fields of a request; a float is its bit pattern. *)
Definition words (l : list Z) : list wire := WU32 <$> l.
Definition floats (l : list Z) : list wire := WF32 <$> l.
Definition qci_wires (q : Z * Z) : list wire := [WU32 (fst q); WU32 (snd q)].
Definition ext_wires (e : bytes) : list wire := [WBlob e].
Definition feat_wires (f : Z * bytes) : list wire := [WU32 (fst f); WBlob (snd f)].
Definition req_fields (q : vk_req) : list wire :=
  match q with
  | CREATE_INSTANCE x y | ENUMERATE_PHYSICAL_DEVICES x y | GET_PHYSICAL_DEVICE_PROPERTIES x y | CREATE_COMMAND_POOL x y
  | DESTROY_SHADER_MODULE x y | ACQUIRE_NEXT_IMAGE x y | DESTROY_SWAPCHAIN x y => [WU32 x; WU32 y]
  | GET_PHYS_FORMAT_PROPS x y z | CREATE_DEVICE x y z | GET_DEVICE_QUEUE x y z | ALLOCATE_COMMAND_BUFFERS x y z | QUEUE_SUBMIT x y z => [WU32 x; WU32 y; WU32 z]
  | DESTROY_INSTANCE x | DESTROY_DEVICE x => [WU32 x]
  | GET_DEVICE_QUEUE2 a b c d => [WU32 a; WU32 b; WU32 c; WU32 d]
  | CREATE_SWAPCHAIN a b c d e | QUEUE_PRESENT a b c d e => [WU32 a; WU32 b; WU32 c; WU32 d; WU32 e]
  | GET_PHYS_IMAGE_FORMAT_PROPS a b c d e f g => [WU32 a; WU32 b; WU32 c; WU32 d; WU32 e; WU32 f; WU32 g]
  | CMD_BEGIN_CLEAR a b c d r g u v | CMD_BEGIN_DRAW a b c d r g u v => [WU32 a; WU32 b; WU32 c; WU32 d; WF32 r; WF32 g; WF32 u; WF32 v]
  | CMD_BEGIN_DRAW_MODULES a b c d e f w h r g u v =>
      [WU32 a; WU32 b; WU32 c; WU32 d; WU32 e; WU32 f; WU32 w; WU32 h; WF32 r; WF32 g; WF32 u; WF32 v]
  | CREATE_SHADER_MODULE a b c d => [WU32 a; WU32 b; WU32 c; WBlob d]
  | CREATE_DEVICE2 a b c qcis exts feats =>
      [WU32 a; WU32 b; WU32 c] ++ counted_wires qci_wires qcis ++ counted_wires ext_wires exts ++ counted_wires feat_wires feats
  end.
(** [alr_vk_enc_*]: the calls on the encoder. *)
Definition req_wires (q : vk_req) : list wire := WU8 (opcode q) :: req_fields q.
Definition alr_vk_enc (e : AlrEncoder) (q : vk_req) : AlrEncoder := alr_enc_all e (req_wires q).

(** ** The host: reading a request *)

Definition MAX_QUEUES : Z := 64.
Definition MAX_EXTS : Z := 256.
Definition MAX_EXT_NAME : Z := 256.
Definition MAX_FEATS : Z := 64.
Definition MAX_FEAT_BYTES : Z := 1024.
Definition rd_bounded_blob (bound : Z) : rd bytes := d ← rd_blob; if bound <? Z.of_nat (length d) then rd_fail else mret d.
Definition rd_feat : rd (Z * bytes) := t ← rd_u32; d ← rd_bounded_blob MAX_FEAT_BYTES; mret (t, d).
(** The field reads of the [switch (op)] of [decode_vk_batch]. *)
Definition rd_1 {A} (f : Z → A) : rd A := x ← rd_u32; mret (f x).
Definition rd_2 {A} (f : Z → Z → A) : rd A := x ← rd_u32; y ← rd_u32; mret (f x y).
Definition rd_3 {A} (f : Z → Z → Z → A) : rd A := x ← rd_u32; y ← rd_u32; z ← rd_u32; mret (f x y z).
Definition rd_record (f : Z → Z → Z → Z → Z → Z → Z → Z → vk_req) : rd vk_req :=
  a ← rd_u32; b ← rd_u32; c ← rd_u32; d ← rd_u32; r ← rd_f32; g ← rd_f32; u ← rd_f32; v ← rd_f32; mret (f a b c d r g u v).
Definition parse_req (op : Z) : rd vk_req :=
  match op with
  | 200 => rd_2 CREATE_INSTANCE
  | 201 => rd_2 ENUMERATE_PHYSICAL_DEVICES
  | 202 => rd_2 GET_PHYSICAL_DEVICE_PROPERTIES
  | 203 => a ← rd_u32; b ← rd_u32; c ← rd_u32; d ← rd_u32; e ← rd_u32; f ← rd_u32; g ← rd_u32; mret (GET_PHYS_IMAGE_FORMAT_PROPS a b c d e f g)
  | 204 =>
      a ← rd_u32; b ← rd_u32; c ← rd_u32;
      qcis ← rd_counted MAX_QUEUES rd_pair; exts ← rd_counted MAX_EXTS (rd_bounded_blob MAX_EXT_NAME); feats ← rd_counted MAX_FEATS rd_feat;
      mret (CREATE_DEVICE2 a b c qcis exts feats)
  | 205 => a ← rd_u32; b ← rd_u32; c ← rd_u32; d ← rd_u32; mret (GET_DEVICE_QUEUE2 a b c d)
  | 206 => rd_3 GET_PHYS_FORMAT_PROPS
  | 209 => rd_1 DESTROY_INSTANCE
  | 210 => rd_3 CREATE_DEVICE
  | 211 => rd_3 GET_DEVICE_QUEUE
  | 212 => rd_2 CREATE_COMMAND_POOL
  | 213 => rd_3 ALLOCATE_COMMAND_BUFFERS
  | 214 => rd_record CMD_BEGIN_CLEAR
  | 215 => rd_3 QUEUE_SUBMIT
  | 216 => rd_1 DESTROY_DEVICE
  | 217 => rd_record CMD_BEGIN_DRAW
  | 218 => a ← rd_u32; b ← rd_u32; c ← rd_u32; d ← rd_blob; mret (CREATE_SHADER_MODULE a b c d)
  | 219 => a ← rd_u32; b ← rd_u32; c ← rd_u32; d ← rd_u32; e ← rd_u32; mret (CREATE_SWAPCHAIN a b c d e)
  | 225 => rd_2 DESTROY_SHADER_MODULE
  | 226 => rd_2 ACQUIRE_NEXT_IMAGE
  | 227 =>
      a ← rd_u32; b ← rd_u32; c ← rd_u32; d ← rd_u32; e ← rd_u32; f ← rd_u32; w ← rd_u32; h ← rd_u32;
      r ← rd_f32; g ← rd_f32; u ← rd_f32; v ← rd_f32; mret (CMD_BEGIN_DRAW_MODULES a b c d e f w h r g u v)
  | 228 => a ← rd_u32; b ← rd_u32; c ← rd_u32; d ← rd_u32; e ← rd_u32; mret (QUEUE_PRESENT a b c d e)
  | 229 => rd_2 DESTROY_SWAPCHAIN
  | _ => rd_fail
  end.

(** ** Replies *)

(** [VkPhysProps], [VkImageFmtProps], [VkFmtProps], [VkClearRecord] *)
Record VkPhysProps := mk_props {
  api_version : Z; driver_version : Z; vendor_id : Z; device_id : Z; device_type : Z; device_name : bytes; is_software : bool;
  queue_families : list (Z * Z); features_blob : bytes; limits_blob : bytes; memprops_blob : bytes; caps_flags : Z }.
Definition no_props : VkPhysProps := mk_props 0 0 0 0 0 [] false [] [] [] [] 0.
Record VkImageFmtProps := mk_ifp {
  vk_result : Z; max_extent_w : Z; max_extent_h : Z; max_extent_d : Z; max_mip_levels : Z; max_array_layers : Z;
  sample_counts : Z; max_resource_size : Z }.
Record VkFmtProps := mk_fp { linear_tiling_features : Z; optimal_tiling_features : Z; buffer_features : Z }.
Record VkClearRecord := mk_clear {
  recorded : bool; is_draw : bool; width : Z; height : Z; clear : list Z;
  is_present_draw : bool; vswapchain : Z; image_index : Z; vvert : Z; vfrag : Z }.
Definition no_clear : VkClearRecord := mk_clear false false 0 0 [0; 0; 0; 0] false 0 0 0 0.
Record pixel := mk_px { px0 : Z; px1 : Z; px2 : Z; px3 : Z }.

(** [AlrVkReply] *)
Inductive vk_rep :=
| R_INSTANCE (vinst result : Z)
| R_PHYS_COUNT (vinst vphys_base count result : Z)
| R_PHYS_PROPS (vphys : Z) (p : VkPhysProps)
| R_DEVICE (vdev result gfx_family : Z)
| R_SUBMIT (vdev vcmd submit_result render_result : Z) (px : pixel)
| R_SHADER (vshader result : Z)
| R_SWAPCHAIN (vsw result image_count : Z)
| R_ACQUIRE (vsw image_index result : Z)
| R_PRESENT (vsw image_index submit_result render_result presented : Z) (px : pixel)
| R_IMAGE_FORMAT_PROPS (vphys : Z) (p : VkImageFmtProps)
| R_FORMAT_PROPS (vphys : Z) (p : VkFmtProps).
Definition rep_opcode (r : vk_rep) : Z :=
  match r with
  | R_INSTANCE _ _ => 220 | R_PHYS_COUNT _ _ _ _ => 221 | R_PHYS_PROPS _ _ => 222 | R_DEVICE _ _ _ => 223 | R_SUBMIT _ _ _ _ _ => 224
  | R_SHADER _ _ => 225 | R_SWAPCHAIN _ _ _ => 226 | R_ACQUIRE _ _ _ => 227 | R_PRESENT _ _ _ _ _ _ => 228
  | R_IMAGE_FORMAT_PROPS _ _ => 229 | R_FORMAT_PROPS _ _ => 231
  end.
Definition px_wires (p : pixel) : list wire := [WU8 (px0 p); WU8 (px1 p); WU8 (px2 p); WU8 (px3 p)].
(** [encode_phys_props_reply], and the replies written in the cases. *)
Definition props_wires (p : VkPhysProps) : list wire :=
  [WU32 (api_version p); WU32 (driver_version p); WU32 (vendor_id p); WU32 (device_id p); WU32 (device_type p); WBlob (device_name p)]
  ++ counted_wires qci_wires (queue_families p)
  ++ [WU8 (if is_software p then 1 else 0); WBlob (features_blob p); WBlob (limits_blob p); WBlob (memprops_blob p); WU32 (caps_flags p)].
Definition rep_fields (r : vk_rep) : list wire :=
  match r with
  | R_INSTANCE v x | R_SHADER v x => [WU32 v; WI32 x]
  | R_PHYS_COUNT v b c x => [WU32 v; WU32 b; WU32 c; WI32 x]
  | R_PHYS_PROPS v p => WU32 v :: props_wires p
  | R_DEVICE v x g | R_SWAPCHAIN v x g => [WU32 v; WI32 x; WU32 g]
  | R_SUBMIT v c x y p => [WU32 v; WU32 c; WI32 x; WI32 y] ++ px_wires p
  | R_ACQUIRE v i x => [WU32 v; WU32 i; WI32 x]
  | R_PRESENT v i x y d p => [WU32 v; WU32 i; WI32 x; WI32 y; WU8 d] ++ px_wires p
  | R_IMAGE_FORMAT_PROPS v p =>
      [WU32 v; WI32 (vk_result p); WU32 (max_extent_w p); WU32 (max_extent_h p); WU32 (max_extent_d p); WU32 (max_mip_levels p);
       WU32 (max_array_layers p); WU32 (sample_counts p); WU64 (max_resource_size p)]
  | R_FORMAT_PROPS v p => [WU32 v; WU32 (linear_tiling_features p); WU32 (optimal_tiling_features p); WU32 (buffer_features p)]
  end.
Definition rep_wires (r : vk_rep) : list wire := WU8 (rep_opcode r) :: rep_fields r.

(** The guest's reading of one record; the capability flags of an older host may be missing. *)
Definition rd_px : rd pixel := a ← rd_u8; b ← rd_u8; c ← rd_u8; d ← rd_u8; mret (mk_px a b c d).
Definition rd_optional_u32 : rd Z := λ s, match rd_u32 s with Some r => Some r | None => Some (0, s) end.
Definition parse_rep (op : Z) : rd vk_rep :=
  match op with
  | 220 => v ← rd_u32; x ← rd_i32; mret (R_INSTANCE v x)
  | 221 => v ← rd_u32; b ← rd_u32; c ← rd_u32; x ← rd_i32; mret (R_PHYS_COUNT v b c x)
  | 222 =>
      v ← rd_u32; a ← rd_u32; d ← rd_u32; n ← rd_u32; i ← rd_u32; t ← rd_u32; name ← rd_blob; nq ← rd_u32;
      qfs ← rd_words rd_pair nq; sw ← rd_u8; f ← rd_blob; l ← rd_blob; m ← rd_blob; c ← rd_optional_u32;
      mret (R_PHYS_PROPS v (mk_props a d n i t name (negb (sw =? 0)) qfs f l m c))
  | 223 => v ← rd_u32; x ← rd_i32; g ← rd_u32; mret (R_DEVICE v x g)
  | 224 => v ← rd_u32; c ← rd_u32; x ← rd_i32; y ← rd_i32; p ← rd_px; mret (R_SUBMIT v c x y p)
  | 225 => v ← rd_u32; x ← rd_i32; mret (R_SHADER v x)
  | 226 => v ← rd_u32; x ← rd_i32; g ← rd_u32; mret (R_SWAPCHAIN v x g)
  | 227 => v ← rd_u32; i ← rd_u32; x ← rd_i32; mret (R_ACQUIRE v i x)
  | 228 => v ← rd_u32; i ← rd_u32; x ← rd_i32; y ← rd_i32; d ← rd_u8; p ← rd_px; mret (R_PRESENT v i x y d p)
  | 229 =>
      v ← rd_u32; x ← rd_i32; a ← rd_u32; b ← rd_u32; c ← rd_u32; d ← rd_u32; e ← rd_u32; f ← rd_u32; g ← rd_u64;
      mret (R_IMAGE_FORMAT_PROPS v (mk_ifp x a b c d e f g))
  | 231 => v ← rd_u32; a ← rd_u32; b ← rd_u32; c ← rd_u32; mret (R_FORMAT_PROPS v (mk_fp a b c))
  | _ => rd_fail
  end.
(** [VkDecodedReply]: the records by kind; [props] keeps the last of each device. *)
Record VkDecodedReply := mk_decoded {
  d_instances : list (Z * Z); d_enumerations : list (Z * Z * Z * Z); d_props : gmap Z VkPhysProps; d_devices : list (Z * Z * Z);
  d_submits : list (Z * Z * Z * Z * pixel); d_shaders : list (Z * Z); d_swapchains : list (Z * Z * Z); d_acquires : list (Z * Z * Z);
  d_presents : list (Z * Z * Z * Z * Z * pixel); d_image_format_props : list (Z * VkImageFmtProps); d_format_props : list (Z * VkFmtProps) }.
Definition nothing_decoded : VkDecodedReply := mk_decoded [] [] ∅ [] [] [] [] [] [] [] [].
Definition add_rep (d : VkDecodedReply) (r : vk_rep) : VkDecodedReply :=
  let 'mk_decoded i e p dv su sh sw ac pr im fp := d in
  match r with
  | R_INSTANCE v x => mk_decoded (i ++ [(v, x)]) e p dv su sh sw ac pr im fp
  | R_PHYS_COUNT v b c x => mk_decoded i (e ++ [(v, b, c, x)]) p dv su sh sw ac pr im fp
  | R_PHYS_PROPS v q => mk_decoded i e (<[v := q]> p) dv su sh sw ac pr im fp
  | R_DEVICE v x g => mk_decoded i e p (dv ++ [(v, x, g)]) su sh sw ac pr im fp
  | R_SUBMIT v c x y q => mk_decoded i e p dv (su ++ [(v, c, x, y, q)]) sh sw ac pr im fp
  | R_SHADER v x => mk_decoded i e p dv su (sh ++ [(v, x)]) sw ac pr im fp
  | R_SWAPCHAIN v x g => mk_decoded i e p dv su sh (sw ++ [(v, x, g)]) ac pr im fp
  | R_ACQUIRE v k x => mk_decoded i e p dv su sh sw (ac ++ [(v, k, x)]) pr im fp
  | R_PRESENT v k x y n q => mk_decoded i e p dv su sh sw ac (pr ++ [(v, k, x, y, n, q)]) im fp
  | R_IMAGE_FORMAT_PROPS v q => mk_decoded i e p dv su sh sw ac pr (im ++ [(v, q)]) fp
  | R_FORMAT_PROPS v q => mk_decoded i e p dv su sh sw ac pr im (fp ++ [(v, q)])
  end.
(** [decode_vk_reply]: the result, and what was decoded so far. *)
Fixpoint decode_reply_loop (fuel : nat) (d : VkDecodedReply) (s : bytes) : bool * VkDecodedReply :=
  match fuel with
  | O => (true, d)
  | S fuel =>
      match rd_u8 s with
      | None => (true, d)
      | Some (op, s') =>
          if op =? 0 then (true, d)
          else match parse_rep op s' with
               | None => (false, d)
               | Some (r, s'') => decode_reply_loop fuel (add_rep d r) s''
               end
      end
  end.
Definition decode_vk_reply (data : bytes) : bool * VkDecodedReply := decode_reply_loop (S (length data)) nothing_decoded data.

(** ** The host: executing a request *)

(** [AlrVkRenderResult] *)
Definition ALR_VK_RENDER_OK : Z := 0.
Definition ALR_VK_RENDER_NO_CLEAR_RECORDED : Z := 6.
(** [VkDecodeState]: the tables of the virtual ids. *)
Record objects := mk_objects {
  instances : gset Z; enum_base : gmap Z Z; enum_count : gmap Z Z; props : gmap Z VkPhysProps; devices : gset Z; queues : gset Z;
  pools : gset Z; cmds : gset Z; clears : gmap Z VkClearRecord; swapchains : gmap Z Z; shaders : gset Z }.
Definition no_objects : objects := mk_objects ∅ ∅ ∅ ∅ ∅ ∅ ∅ ∅ ∅ ∅ ∅.

Section host.
Context {C : Type}.

(** [VkProvider]: the optional callbacks over their context; an out parameter is part of
    the result. *)
Record VkProvider := mk_vkp {
  create_instance : option (C → Z → Z → Z * C);
  enumerate : option (C → Z → Z → Z * C);
  query_props : option (C → Z → VkPhysProps → bool * VkPhysProps * C);
  image_format_props : option (C → Z → list Z → VkImageFmtProps → VkImageFmtProps * C);
  format_props : option (C → Z → Z → VkFmtProps → VkFmtProps * C);
  destroy_instance : option (C → Z → C);
  create_device : option (C → Z → Z → Z * Z * C);
  get_queue : option (C → Z → Z → Z → C);
  create_device2 : option (C → Z → Z → list (Z * Z) → list bytes → list (Z * bytes) → Z * Z * C);
  get_queue2 : option (C → Z → Z → Z → Z → C);
  create_pool : option (C → Z → Z → Z * C);
  alloc_cmd : option (C → Z → Z → Z → Z * C);
  clear_submit : option (C → Z → Z → Z → VkClearRecord → Z * pixel * C);
  draw_submit : option (C → Z → Z → Z → VkClearRecord → Z * pixel * C);
  destroy_device : option (C → Z → C);
  create_shader_module : option (C → Z → Z → bytes → Z * C);
  destroy_shader_module : option (C → Z → Z → C);
  create_swapchain : option (C → Z → Z → Z → Z → Z → Z * Z * C);
  destroy_swapchain : option (C → Z → C);
  acquire_next_image : option (C → Z → bool * Z * C);
  draw_present : option (C → Z → Z → Z → VkClearRecord → Z * pixel * Z * C) }.
Context (pv : VkProvider).

(** A callback, or the initial values of its results without one. *)
Definition with_out {R} (f : option (C → R * C)) (out : R) (c : C) : R * C := match f with Some g => g c | None => (out, c) end.
Definition quietly (f : option (C → C)) (c : C) : C := match f with Some g => g c | None => c end.
Definition set_instances (s : gset Z) (o : objects) := mk_objects s (enum_base o) (enum_count o) (props o) (devices o) (queues o) (pools o) (cmds o) (clears o) (swapchains o) (shaders o).
Definition set_enumerated (v b n : Z) (o : objects) := mk_objects (instances o) (<[v := b]> (enum_base o)) (<[v := n]> (enum_count o)) (props o) (devices o) (queues o) (pools o) (cmds o) (clears o) (swapchains o) (shaders o).
Definition set_props (m : gmap Z VkPhysProps) (o : objects) := mk_objects (instances o) (enum_base o) (enum_count o) m (devices o) (queues o) (pools o) (cmds o) (clears o) (swapchains o) (shaders o).
Definition set_devices (s : gset Z) (o : objects) := mk_objects (instances o) (enum_base o) (enum_count o) (props o) s (queues o) (pools o) (cmds o) (clears o) (swapchains o) (shaders o).
Definition set_queues (s : gset Z) (o : objects) := mk_objects (instances o) (enum_base o) (enum_count o) (props o) (devices o) s (pools o) (cmds o) (clears o) (swapchains o) (shaders o).
Definition set_pools (s : gset Z) (o : objects) := mk_objects (instances o) (enum_base o) (enum_count o) (props o) (devices o) (queues o) s (cmds o) (clears o) (swapchains o) (shaders o).
Definition set_cmds (s : gset Z) (o : objects) := mk_objects (instances o) (enum_base o) (enum_count o) (props o) (devices o) (queues o) (pools o) s (clears o) (swapchains o) (shaders o).
Definition set_clears (m : gmap Z VkClearRecord) (o : objects) := mk_objects (instances o) (enum_base o) (enum_count o) (props o) (devices o) (queues o) (pools o) (cmds o) m (swapchains o) (shaders o).
Definition set_swapchains (m : gmap Z Z) (o : objects) := mk_objects (instances o) (enum_base o) (enum_count o) (props o) (devices o) (queues o) (pools o) (cmds o) (clears o) m (shaders o).
Definition set_shaders (s : gset Z) (o : objects) := mk_objects (instances o) (enum_base o) (enum_count o) (props o) (devices o) (queues o) (pools o) (cmds o) (clears o) (swapchains o) s.
(** [if (res == 0) st.table[id] = true;] *)
Definition on_success (res : Z) (f : objects → objects) (o : objects) : objects := if res =? 0 then f o else o.
(** The code of a submission whose rendering gave this result. *)
Definition submit_code (render_res : Z) : Z :=
  if negb (render_res =? ALR_VK_RENDER_OK) && negb (render_res =? ALR_VK_RENDER_NO_CLEAR_RECORDED) then -1 else 0.

(** The cases of the [switch (op)] after their reads: the tables, the context and the records
    of the reply. *)
Definition answered : Type := objects * C * list vk_rep.
Definition case_create_instance (vinst api : Z) (o : objects) (c : C) : answered :=
  let '(res, c) := with_out ((λ f c, f c vinst api) <$> create_instance pv) (-1) c in
  (on_success res (λ o, set_instances ({[vinst]} ∪ instances o) o) o, c, [R_INSTANCE vinst res]).
Definition case_enumerate_physical_devices (vinst base : Z) (o : objects) (c : C) : answered :=
  let '(n, c) := with_out ((λ f c, f c vinst base) <$> enumerate pv) 0 c in
  (set_enumerated vinst base n o, c, [R_PHYS_COUNT vinst base n 0]).
Definition case_get_physical_device_properties (vphys : Z) (o : objects) (c : C) : answered :=
  let '((got, p), c) := with_out ((λ f c, f c vphys no_props) <$> query_props pv) (false, no_props) c in
  if (got : bool) then (set_props (<[vphys := p]> (props o)) o, c, [R_PHYS_PROPS vphys p]) else (o, c, []).
Definition case_get_phys_image_format_props (vphys format type tiling usage flags : Z) (o : objects) (c : C) : answered :=
  let out := mk_ifp (-11) 0 0 0 0 0 0 0 in
  let '(p, c) := with_out ((λ f c, f c vphys [format; type; tiling; usage; flags] out) <$> image_format_props pv) out c in
  (o, c, [R_IMAGE_FORMAT_PROPS vphys p]).
Definition case_create_device2 (vphys vdev : Z) (qcis : list (Z * Z)) (exts : list bytes) (feats : list (Z * bytes)) (o : objects) (c : C) : answered :=
  let '((res, g), c) := with_out ((λ f c, f c vphys vdev qcis exts feats) <$> create_device2 pv) (-1, 0) c in
  (on_success res (λ o, set_devices ({[vdev]} ∪ devices o) o) o, c, [R_DEVICE vdev res g]).
Definition case_get_device_queue2 (vdev fam i vqueue : Z) (o : objects) (c : C) : answered :=
  (set_queues ({[vqueue]} ∪ queues o) o, quietly ((λ f c, f c vdev fam i vqueue) <$> get_queue2 pv) c, []).
Definition case_get_phys_format_props (vphys format : Z) (o : objects) (c : C) : answered :=
  let out := mk_fp 0 0 0 in
  let '(p, c) := with_out ((λ f c, f c vphys format out) <$> format_props pv) out c in (o, c, [R_FORMAT_PROPS vphys p]).
Definition case_destroy_instance (vinst : Z) (o : objects) (c : C) : answered :=
  (set_instances (instances o ∖ {[vinst]}) o, quietly ((λ f c, f c vinst) <$> destroy_instance pv) c, []).
Definition case_create_device (vphys vdev : Z) (o : objects) (c : C) : answered :=
  let '((res, g), c) := with_out ((λ f c, f c vphys vdev) <$> create_device pv) (-1, 0) c in
  (on_success res (λ o, set_devices ({[vdev]} ∪ devices o) o) o, c, [R_DEVICE vdev res g]).
Definition case_get_device_queue (vdev i vqueue : Z) (o : objects) (c : C) : answered :=
  (set_queues ({[vqueue]} ∪ queues o) o, quietly ((λ f c, f c vdev i vqueue) <$> get_queue pv) c, []).
Definition case_create_command_pool (vdev vpool : Z) (o : objects) (c : C) : answered :=
  let '(res, c) := with_out ((λ f c, f c vdev vpool) <$> create_pool pv) (-1) c in
  (on_success res (λ o, set_pools ({[vpool]} ∪ pools o) o) o, c, []).
Definition case_allocate_command_buffers (vdev vpool vcmd : Z) (o : objects) (c : C) : answered :=
  let '(res, c) := with_out ((λ f c, f c vdev vpool vcmd) <$> alloc_cmd pv) (-1) c in
  (on_success res (λ o, set_cmds ({[vcmd]} ∪ cmds o) o) o, c, []).
Definition case_cmd_begin_clear (vcmd w h cr cg cb ca : Z) (o : objects) (c : C) : answered :=
  (set_clears (<[vcmd := mk_clear true false w h [cr; cg; cb; ca] false 0 0 0 0]> (clears o)) o, c, []).
Definition case_cmd_begin_draw (vcmd w h br bg bb ba : Z) (o : objects) (c : C) : answered :=
  (set_clears (<[vcmd := mk_clear true true w h [br; bg; bb; ba] false 0 0 0 0]> (clears o)) o, c, []).
Definition case_cmd_begin_draw_modules (vcmd vsw img vv vf w h br bg bb ba : Z) (o : objects) (c : C) : answered :=
  (set_clears (<[vcmd := mk_clear true true w h [br; bg; bb; ba] true vsw img vv vf]> (clears o)) o, c, []).
Definition case_create_shader_module (vdev vshader : Z) (spirv : bytes) (o : objects) (c : C) : answered :=
  let '(res, c) := with_out ((λ f c, f c vdev vshader spirv) <$> create_shader_module pv) (-1) c in
  (on_success res (λ o, set_shaders ({[vshader]} ∪ shaders o) o) o, c, [R_SHADER vshader res]).
Definition case_destroy_shader_module (vdev vshader : Z) (o : objects) (c : C) : answered :=
  (set_shaders (shaders o ∖ {[vshader]}) o, quietly ((λ f c, f c vdev vshader) <$> destroy_shader_module pv) c, []).
Definition case_create_swapchain (vdev vsw w h n : Z) (o : objects) (c : C) : answered :=
  let '((res, got), c) := with_out ((λ f c, f c vdev vsw w h n) <$> create_swapchain pv) (-1, 0) c in
  (on_success res (λ o, set_swapchains (<[vsw := got]> (swapchains o)) o) o, c, [R_SWAPCHAIN vsw res got]).
Definition case_destroy_swapchain (vsw : Z) (o : objects) (c : C) : answered :=
  (set_swapchains (delete vsw (swapchains o)) o, quietly ((λ f c, f c vsw) <$> destroy_swapchain pv) c, []).
Definition case_acquire_next_image (vsw : Z) (o : objects) (c : C) : answered :=
  let '((got, i), c) := with_out ((λ f c, f c vsw) <$> acquire_next_image pv) (false, 0) c in
  (o, c, [R_ACQUIRE vsw i (if got : bool then 0 else -1)]).
Definition case_queue_present (vdev vqueue vcmd vsw img : Z) (o : objects) (c : C) : answered :=
  let rec := default no_clear (clears o !! vcmd) in
  let '(((res, px), shown), c) := with_out ((λ f c, f c vdev vqueue vcmd rec) <$> draw_present pv) (ALR_VK_RENDER_NO_CLEAR_RECORDED, mk_px 0 0 0 0, 0) c in
  (set_clears (delete vcmd (clears o)) o, c, [R_PRESENT vsw img (submit_code res) res shown px]).
Definition case_queue_submit (vdev vqueue vcmd : Z) (o : objects) (c : C) : answered :=
  let rec := default no_clear (clears o !! vcmd) in
  let f := match (if is_draw rec then draw_submit pv else None) with Some f => Some f | None => clear_submit pv end in
  let '((res, px), c) := with_out ((λ f c, f c vdev vqueue vcmd rec) <$> f) (ALR_VK_RENDER_NO_CLEAR_RECORDED, mk_px 0 0 0 0) c in
  (set_clears (delete vcmd (clears o)) o, c, [R_SUBMIT vdev vcmd (submit_code res) res px]).
Definition case_destroy_device (vdev : Z) (o : objects) (c : C) : answered :=
  (set_devices (devices o ∖ {[vdev]}) o, quietly ((λ f c, f c vdev) <$> destroy_device pv) c, []).
Definition serve (q : vk_req) (o : objects) (c : C) : answered :=
  match q with
  | CREATE_INSTANCE vinst api => case_create_instance vinst api o c
  | ENUMERATE_PHYSICAL_DEVICES vinst base => case_enumerate_physical_devices vinst base o c
  | GET_PHYSICAL_DEVICE_PROPERTIES _ vphys => case_get_physical_device_properties vphys o c
  | GET_PHYS_IMAGE_FORMAT_PROPS _ vphys format type tiling usage flags => case_get_phys_image_format_props vphys format type tiling usage flags o c
  | CREATE_DEVICE2 _ vphys vdev qcis exts feats => case_create_device2 vphys vdev qcis exts feats o c
  | GET_DEVICE_QUEUE2 vdev fam i vqueue => case_get_device_queue2 vdev fam i vqueue o c
  | GET_PHYS_FORMAT_PROPS _ vphys format => case_get_phys_format_props vphys format o c
  | DESTROY_INSTANCE vinst => case_destroy_instance vinst o c
  | CREATE_DEVICE _ vphys vdev => case_create_device vphys vdev o c
  | GET_DEVICE_QUEUE vdev i vqueue => case_get_device_queue vdev i vqueue o c
  | CREATE_COMMAND_POOL vdev vpool => case_create_command_pool vdev vpool o c
  | ALLOCATE_COMMAND_BUFFERS vdev vpool vcmd => case_allocate_command_buffers vdev vpool vcmd o c
  | CMD_BEGIN_CLEAR _ vcmd w h cr cg cb ca => case_cmd_begin_clear vcmd w h cr cg cb ca o c
  | CMD_BEGIN_DRAW _ vcmd w h br bg bb ba => case_cmd_begin_draw vcmd w h br bg bb ba o c
  | CMD_BEGIN_DRAW_MODULES _ vcmd vsw img vv vf w h br bg bb ba => case_cmd_begin_draw_modules vcmd vsw img vv vf w h br bg bb ba o c
  | CREATE_SHADER_MODULE vdev vshader _ spirv => case_create_shader_module vdev vshader spirv o c
  | DESTROY_SHADER_MODULE vdev vshader => case_destroy_shader_module vdev vshader o c
  | CREATE_SWAPCHAIN vdev vsw w h n => case_create_swapchain vdev vsw w h n o c
  | DESTROY_SWAPCHAIN _ vsw => case_destroy_swapchain vsw o c
  | ACQUIRE_NEXT_IMAGE _ vsw => case_acquire_next_image vsw o c
  | QUEUE_PRESENT vdev vqueue vcmd vsw img => case_queue_present vdev vqueue vcmd vsw img o c
  | QUEUE_SUBMIT vdev vqueue vcmd => case_queue_submit vdev vqueue vcmd o c
  | DESTROY_DEVICE vdev => case_destroy_device vdev o c
  end.

(** The cases as the parameter of the decoder: the tables and the context are its context.
    [gen] is the generated decoder, when it is registered; the batch fails without it. *)
Abbreviation state := (@vk_state (objects * C)).
Context (gen : option (state → bytes → state * bytes)).
Definition served (q : vk_req) (st : state) : state :=
  let '(o, c, reps) := serve q (fst (ctx st)) (snd (ctx st)) in
  vk_reply st (o, c) (concat (rep_wires <$> reps)).
Definition object_op (op : Z) (st : state) (s : bytes) : state * bytes :=
  if op =? kVkGenEscapeOp then match gen with Some g => g st s | None => (vk_fail st, s) end
  else match parse_req op s with
       | None => (vk_fail st, s)
       | Some (q, s') => (served q st, s')
       end.
Definition decode_batch (cp : @VkCmdProvider (objects * C)) (a : AlrVkArena) (data : bytes) (st : state) : state :=
  decode_vk_batch object_op cp a data st.
End host.
Arguments VkProvider : clear implicits.
Ltac open_serve :=
  cbn [serve];
  unfold case_create_instance, case_enumerate_physical_devices, case_get_physical_device_properties, case_get_phys_image_format_props, case_create_device2,
    case_get_device_queue2, case_get_phys_format_props, case_destroy_instance, case_create_device, case_get_device_queue,
    case_create_command_pool, case_allocate_command_buffers, case_cmd_begin_clear, case_cmd_begin_draw, case_cmd_begin_draw_modules,
    case_create_shader_module, case_destroy_shader_module, case_create_swapchain, case_destroy_swapchain, case_acquire_next_image,
    case_queue_present, case_queue_submit, case_destroy_device;
  cbv zeta.

(** ** Reading exactly what was encoded *)

(** The values the C types hold, and the bounds of the lists. *)
Definition req_ok (q : vk_req) : Prop :=
  Forall wire_ok (req_fields q) ∧
  match q with
  | CREATE_DEVICE2 _ _ _ qcis exts feats =>
      count qcis ≤ MAX_QUEUES ∧ (count exts ≤ MAX_EXTS ∧ Forall (λ e, count e ≤ MAX_EXT_NAME) exts)
      ∧ count feats ≤ MAX_FEATS ∧ Forall (λ f, count (snd f) ≤ MAX_FEAT_BYTES) feats
  | _ => True
  end.
#[export] Instance req_ok_dec q : Decision (req_ok q).
Proof. destruct q; unfold req_ok; apply _. Defined.

Lemma rd_take_inv n s d s' : 0 ≤ n → rd_take n s = Some (d, s') → count d = n ∧ s = d ++ s'.
Proof.
  intros Hn. unfold rd_take, count. destruct (_ <? n) eqn:E; [done|]. intros [= <- <-].
  rewrite length_take, take_drop. split; [lia|done].
Qed.
Lemma rd_u32_inv s z s' : rd_u32 s = Some (z, s') → wire_ok (WU32 z) ∧ s = enc_wire (WU32 z) ++ s'.
Proof.
  intros H. split; [by apply rd_u32_range in H|].
  apply rd_bind_inv in H as (d & s1 & Hd & H). apply rd_take_inv in Hd as [Hd ->]; [|lia].
  injection H as <- <-. unfold count in Hd. cbn [enc_wire].
  pose proof (le_bytes_val d) as E. by replace (length d) with 4%nat in E by lia; rewrite E.
Qed.
Lemma rd_f32_inv s z s' : rd_f32 s = Some (z, s') → wire_ok (WF32 z) ∧ s = enc_wire (WF32 z) ++ s'.
Proof. apply rd_u32_inv. Qed.
Lemma rd_blob_inv s d s' : rd_blob s = Some (d, s') → wire_ok (WBlob d) ∧ s = enc_wire (WBlob d) ++ s'.
Proof.
  intros H. apply rd_bind_inv in H as (n & s1 & Hn & H). apply rd_u32_inv in Hn as [Hr ->].
  apply rd_take_inv in H as [<- ->]; [|cbn [wire_ok] in Hr; lia].
  split; [exact (proj2 Hr)|]. cbn [enc_wire]. by rewrite <- (assoc_L (++)).
Qed.
Lemma rd_bounded_blob_inv b s d s' :
  rd_bounded_blob b s = Some (d, s') → (wire_ok (WBlob d) ∧ count d ≤ b) ∧ s = enc_onto (ext_wires d) s'.
Proof.
  intros H. apply rd_bind_inv in H as (x & s1 & Hx & H). apply rd_blob_inv in Hx as [Hr ->].
  fold (count x) in H. destruct (b <? count x) eqn:E; [done|]. injection H as <- <-.
  split; [split; [done|lia]|done].
Qed.
Lemma rd_loop_inv {A} (f : rd A) (w : A → list wire) (P : A → Prop) fuel n s l s' :
  (∀ s a s', f s = Some (a, s') → P a ∧ s = enc_onto (w a) s') → 0 ≤ n →
  rd_loop f fuel n s = Some (l, s') →
  Forall P l ∧ count l = n ∧ s = enc_onto (concat (w <$> l)) s'.
Proof.
  intros Hf. revert n s l. induction fuel as [|fuel IH]; intros n s l Hn H; cbn [rd_loop] in H;
    destruct (n <=? 0) eqn:E; try done; try (injection H as <- <-; split_and!; [done|unfold count; cbn; lia|done]).
  apply rd_bind_inv in H as (v & s1 & Hv & H). apply rd_bind_inv in H as (vs & s2 & Hvs & H).
  injection H as <- <-. apply Hf in Hv as [? ->]. apply IH in Hvs as (? & ? & ->); [|lia].
  unfold count in *. cbn [length fmap list_fmap concat]. rewrite enc_onto_app.
  split_and!; [by constructor|lia|done].
Qed.
Lemma rd_counted_inv {A} b (f : rd A) (w : A → list wire) (P : A → Prop) s l s' :
  (∀ s a s', f s = Some (a, s') → P a ∧ s = enc_onto (w a) s') →
  rd_counted b f s = Some (l, s') →
  Forall P l ∧ (count l ≤ b ∧ wire_ok (WU32 (count l))) ∧ s = enc_onto (counted_wires w l) s'.
Proof.
  intros Hf H. apply rd_bind_inv in H as (n & s1 & Hn & H). apply rd_u32_inv in Hn as [Hr ->].
  destruct (b <? n) eqn:E; [done|]. cbn [wire_ok] in Hr.
  apply (rd_loop_inv f w P) in H as (? & <- & ->); [|done|lia].
  split_and!; [done|lia|exact Hr|done].
Qed.

(** Fields that were read are values of their types. *)
Ltac wires_read := repeat (apply Forall_cons_2; [assumption|]); apply Forall_nil_2.

(** One row of each list of a device creation. *)
Definition qci_ok (q : Z * Z) : Prop := Forall wire_ok (qci_wires q).
Definition ext_ok (e : bytes) : Prop := wire_ok (WBlob e) ∧ count e ≤ MAX_EXT_NAME.
Definition feat_ok (f : Z * bytes) : Prop := Forall wire_ok (feat_wires f) ∧ count (snd f) ≤ MAX_FEAT_BYTES.
Lemma rd_pair_inv s q s' : rd_pair s = Some (q, s') → qci_ok q ∧ s = enc_onto (qci_wires q) s'.
Proof.
  intros H. apply rd_bind_inv in H as (x & s1 & Hx & H). apply rd_bind_inv in H as (y & s2 & Hy & H).
  injection H as <- <-. apply rd_u32_inv in Hx as [? ->]. apply rd_u32_inv in Hy as [? ->].
  split; [wires_read|done].
Qed.
Lemma rd_feat_inv s f s' : rd_feat s = Some (f, s') → feat_ok f ∧ s = enc_onto (feat_wires f) s'.
Proof.
  intros H. apply rd_bind_inv in H as (x & s1 & Hx & H). apply rd_bind_inv in H as (y & s2 & Hy & H).
  injection H as <- <-. apply rd_u32_inv in Hx as [? ->]. apply rd_bounded_blob_inv in Hy as [[? ?] ->].
  split; [split; [wires_read|done]|done].
Qed.
Lemma rd_qci_enc q s : qci_ok q → rd_pair (enc_onto (qci_wires q) s) = Some (id q, s).
Proof. apply rd_pair_enc. Qed.
Lemma rd_ext_enc b e s : wire_ok (WBlob e) → count e ≤ b → rd_bounded_blob b (enc_onto (ext_wires e) s) = Some (id e, s).
Proof.
  intros He Hb. unfold rd_bounded_blob. cbn [ext_wires enc_onto foldr].
  erewrite rd_bind_eq by (by apply rd_blob_enc). fold (count e). by rewrite (proj2 (Z.ltb_ge _ _)).
Qed.
Lemma rd_feat_enc f s : feat_ok f → rd_feat (enc_onto (feat_wires f) s) = Some (id f, s).
Proof.
  destruct f as [t d]. intros [Hw Hd]. apply Forall_cons in Hw as [? Hw]. apply Forall_cons in Hw as [? _].
  unfold rd_feat. cbn [feat_wires enc_onto foldr fst snd]. rd_field.
  erewrite rd_bind_eq by (by apply (rd_ext_enc MAX_FEAT_BYTES d)). done.
Qed.
Lemma wires_ok_counted {A} (w : A → list wire) (l : list A) :
  Forall wire_ok (counted_wires w l) ↔ wire_ok (WU32 (count l)) ∧ Forall (λ a, Forall wire_ok (w a)) l.
Proof.
  unfold counted_wires. rewrite Forall_cons. apply and_iff_compat_l.
  induction l as [|a l IH]; cbn [fmap list_fmap concat]; [by split; intros; constructor|].
  by rewrite Forall_app, Forall_cons, IH.
Qed.

Lemma parse_req_enc q s : req_ok q → parse_req (opcode q) (enc_onto (req_fields q) s) = Some (q, s).
Proof.
  intros [Hw Hc]. destruct q; cbn [req_fields] in *;
    try (repeat (apply Forall_cons in Hw as [? Hw]); cbn [opcode parse_req enc_onto foldr];
         unfold rd_1, rd_2, rd_3, rd_record; repeat rd_field; reflexivity).
  destruct Hc as (Hq & [He Hel] & Hf & Hfl). rewrite !Forall_app, !wires_ok_counted in Hw.
  destruct Hw as (Hh & [_ Hqw] & [_ Hew] & [_ Hfw]). repeat (apply Forall_cons in Hh as [? Hh]).
  cbn [opcode parse_req]. rewrite !enc_onto_app. cbn [enc_onto foldr]. repeat rd_field.
  assert (He2 : Forall ext_ok exts).
  { apply Forall_and; split; [|done]. eapply Forall_impl; [exact Hew|]. intros e H2. by apply Forall_cons in H2 as [? _]. }
  unfold MAX_QUEUES, MAX_EXTS, MAX_FEATS in *.
  erewrite rd_bind_eq by (apply (rd_counted_enc 64 rd_pair qci_wires id qci_ok); [lia|done|intros; by apply rd_qci_enc|done]).
  erewrite rd_bind_eq by (apply (rd_counted_enc 256 (rd_bounded_blob MAX_EXT_NAME) ext_wires id ext_ok);
    [lia|done|intros v t [? ?]; by apply rd_ext_enc|done]).
  erewrite rd_bind_eq by (apply (rd_counted_enc 64 rd_feat feat_wires id feat_ok); [lia|done|intros; by apply rd_feat_enc|by apply Forall_and]).
  by rewrite !list_fmap_id.
Qed.

(** Take a reading apart, field by field. *)
Ltac rd_invert H :=
  repeat (let v := fresh "v" in let t := fresh "t" in let Hv := fresh "Hv" in
    apply rd_bind_inv in H as (v & t & Hv & H);
    first [ apply rd_u32_inv in Hv as [? ->] | apply rd_f32_inv in Hv as [? ->] | apply rd_blob_inv in Hv as [? ->]
          | apply (rd_counted_inv _ _ qci_wires qci_ok) in Hv as (? & [? ?] & ->); [|exact rd_pair_inv]
          | apply (rd_counted_inv _ _ ext_wires ext_ok) in Hv as (? & [? ?] & ->); [|exact (rd_bounded_blob_inv _)]
          | apply (rd_counted_inv _ _ feat_wires feat_ok) in Hv as (? & [? ?] & ->); [|exact rd_feat_inv] ]);
  try (injection H as <- <-).
Lemma parse_req_inv op s q s' :
  parse_req op s = Some (q, s') → op = opcode q ∧ req_ok q ∧ s = enc_onto (req_fields q) s'.
Proof.
  intros H. unfold parse_req, rd_1, rd_2, rd_3, rd_record in H.
  destruct op as [|p|p]; try done; do 8 (try (destruct p as [p|p|]; try done));
    rd_invert H; (split; [done|split; [|cbn [req_fields]; rewrite ?enc_onto_app; done]]);
    try (split; [cbn [req_fields]; wires_read|done]).
  repeat match goal with H : Forall ext_ok _ |- _ => apply Forall_and in H as [? ?]
    | H : Forall feat_ok _ |- _ => apply Forall_and in H as [? ?] end.
  split; [|done]. cbn [req_fields]. rewrite !Forall_app, !wires_ok_counted.
  split_and!; try done; [wires_read|]. eapply Forall_impl; [exact H|]. intros; cbn [ext_wires]; wires_read.
Qed.

(** A request is read exactly when its bytes are those the guest encodes for it with the
    values in range and the lists in their bounds: the host's parser and the guest's encoder
    are the same relation. *)
Theorem request_exact op s q s' :
  parse_req op s = Some (q, s') ↔ op = opcode q ∧ req_ok q ∧ s = enc_onto (req_fields q) s'.
Proof. split; [apply parse_req_inv|]. intros (-> & Hq & ->). by apply parse_req_enc. Qed.

(** ** Replies are read back *)

Definition rep_ok (r : vk_rep) : Prop := Forall wire_ok (rep_fields r).
#[export] Instance rep_ok_dec r : Decision (rep_ok r).
Proof. unfold rep_ok. apply _. Defined.

Lemma rd_qfs_enc (l : list (Z * Z)) s :
  Forall qci_ok l → rd_words rd_pair (count l) (enc_onto (concat (qci_wires <$> l)) s) = Some (l, s).
Proof.
  intros Hl. pose proof (rd_loop_enc rd_pair qci_wires id qci_ok l s ltac:(intros; by apply rd_qci_enc) Hl) as H.
  unfold rd_words, count in *. rewrite list_fmap_id in H. eapply rd_loop_mono; [|exact H].
  clear. induction l as [|q l IH]; cbn [length fmap list_fmap concat]; [lia|]. rewrite enc_onto_app.
  set (r := enc_onto (concat (qci_wires <$> l)) s) in *. fold r in IH.
  cbn [qci_wires enc_onto foldr enc_wire]. rewrite !length_app, !le_bytes_length. lia.
Qed.
Lemma rd_px_enc p s : Forall wire_ok (px_wires p) → rd_px (enc_onto (px_wires p) s) = Some (p, s).
Proof.
  intros H. repeat (apply Forall_cons in H as [? H]). unfold rd_px. cbn [px_wires enc_onto foldr].
  repeat rd_field. by destruct p.
Qed.
Lemma rd_optional_enc z s : wire_ok (WU32 z) → rd_optional_u32 (enc_wire (WU32 z) ++ s) = Some (z, s).
Proof. intros H. unfold rd_optional_u32. by rewrite rd_u32_enc. Qed.
Lemma parse_props_enc v p s :
  rep_ok (R_PHYS_PROPS v p) → parse_rep 222 (enc_onto (WU32 v :: props_wires p) s) = Some (R_PHYS_PROPS v p, s).
Proof.
  intros Hr. apply Forall_cons in Hr as [? Hr]. unfold props_wires in *.
  rewrite !Forall_app, wires_ok_counted in Hr. destruct Hr as (Hh & [? Hq] & Ht).
  repeat (apply Forall_cons in Hh as [? Hh]). repeat (apply Forall_cons in Ht as [? Ht]). cbn [parse_rep].
  change (enc_onto (?w :: ?l) s) with (enc_wire w ++ enc_onto l s). rd_field. rewrite !enc_onto_app.
  set (tail := enc_onto (_ :: _) s). cbn [enc_onto foldr]. repeat rd_field.
  erewrite rd_bind_eq by (by apply rd_qfs_enc). unfold tail. cbn [enc_onto foldr]. repeat rd_field.
  erewrite rd_bind_eq by (by apply rd_optional_enc). destruct p as [? ? ? ? ? ? [] ? ? ? ? ?]; reflexivity.
Qed.
Lemma parse_rep_enc r s : rep_ok r → parse_rep (rep_opcode r) (enc_onto (rep_fields r) s) = Some (r, s).
Proof.
  destruct r as [| |v p| |? ? ? ? p| | | |? ? ? ? ? p|v p|v p]; [| |by apply parse_props_enc|..]; unfold rep_ok;
    cbn [rep_fields]; intros Hr; rewrite ?Forall_app in Hr; cbn [rep_opcode parse_rep]; rewrite ?enc_onto_app;
    repeat match goal with H : _ ∧ _ |- _ => destruct H | H : Forall wire_ok (_ :: _) |- _ => apply Forall_cons in H as [? H] end;
    cbn [enc_onto foldr]; repeat rd_field; try (erewrite rd_bind_eq by (by apply rd_px_enc)); try reflexivity; by destruct p.
Qed.

Lemma decode_reply_enc reps d rest fuel :
  Forall rep_ok reps → (length reps < fuel)%nat →
  decode_reply_loop fuel d (enc_onto (concat (rep_wires <$> reps) ++ [WU8 0]) rest) = (true, foldl add_rep d reps).
Proof.
  intros Hr. revert d fuel. induction Hr as [|r reps Hr Hrs IH]; intros d [|fuel] Hf; cbn [length] in Hf; try lia;
    cbn [decode_reply_loop foldl].
  - change (enc_onto _ rest) with (enc_wire (WU8 0) ++ rest). by rewrite rd_u8_enc by lia.
  - cbn [fmap list_fmap concat]. rewrite <- (assoc_L (++)), enc_onto_app.
    change (enc_onto (rep_wires r) ?s) with (enc_wire (WU8 (rep_opcode r)) ++ enc_onto (rep_fields r) s).
    rewrite rd_u8_enc by (destruct r; cbn; lia). rewrite (proj2 (Z.eqb_neq _ _)) by (destruct r; cbn; lia).
    rewrite parse_rep_enc by done. apply IH. lia.
Qed.

(** ** Running a batch *)

Section batch.
Context {C : Type} (pv : VkProvider C).
Abbreviation state := (@vk_state (objects * C)).
Context (gen : option (state → bytes → state * bytes)) (cp : @VkCmdProvider (objects * C)) (a : AlrVkArena).

(** A batch mixes requests for objects and operations of the command band. *)
Definition item : Type := vk_req + vk_cmd_op GuestCmd.
Definition item_ok (i : item) : Prop := match i with inl q => req_ok q | inr o => op_ok o end.
#[export] Instance item_ok_dec i : Decision (item_ok i).
Proof. destruct i; apply _. Defined.
Definition item_wires (i : item) : list wire := match i with inl q => req_wires q | inr o => op_wires o end.
Definition exec_item (st : state) (i : item) : state :=
  match i with inl q => served pv q st | inr o => exec_cmd_op cp (op_resolve a o) st end.

Lemma req_opcode_range q : 200 ≤ opcode q < 230.
Proof. destruct q; cbn; lia. Qed.
Lemma served_ok q st : ok (served pv q st) = ok st.
Proof. unfold served. by destruct (serve pv q _ _) as [[o c] reps]. Qed.
Lemma exec_item_ok st i : ok (exec_item st i) = ok st.
Proof. destruct i; [apply served_ok|apply exec_cmd_op_ok]. Qed.

Lemma object_op_enc q st rest :
  req_ok q → object_op pv gen (opcode q) st (enc_onto (req_fields q) rest) = (served pv q st, rest).
Proof.
  intros Hq. unfold object_op. pose proof (req_opcode_range q). unfold kVkGenEscapeOp.
  rewrite (proj2 (Z.eqb_neq _ _)) by lia. by rewrite parse_req_enc.
Qed.
(** One turn of the loop over an encoded item. *)
Lemma loop_item i st rest fuel :
  item_ok i → ok st = true →
  vk_batch_loop (object_op pv gen) (S fuel) cp a st (enc_onto (item_wires i) rest)
  = vk_batch_loop (object_op pv gen) fuel cp a (exec_item st i) rest.
Proof.
  intros Hi Hok. destruct i as [q|o]; cbn [item_ok item_wires exec_item] in *; cbn [vk_batch_loop]; rewrite Hok; cbn [negb].
  - change (enc_onto (req_wires q) rest) with (enc_wire (WU8 (opcode q)) ++ enc_onto (req_fields q) rest).
    pose proof (req_opcode_range q). rewrite rd_u8_enc by lia. unfold kVkGenEscapeOp.
    rewrite !(proj2 (Z.eqb_neq _ _)) by lia. by rewrite object_op_enc.
  - change (enc_onto (op_wires o) rest) with (enc_wire (WU8 kVkGenEscapeOp) ++ enc_wire (WU16 (subop o)) ++ enc_onto (op_fields o) rest).
    rewrite rd_u8_enc by (unfold kVkGenEscapeOp; lia). change (kVkGenEscapeOp =? 0) with false.
    rewrite Z.eqb_refl. pose proof (subop_range o). rewrite rd_u16_enc by lia.
    rewrite (proj2 (Z.leb_le _ _)) by lia. unfold decode_vk_cmd_op. rewrite Z.eqb_refl. cbn [negb].
    erewrite rd_bind_eq by (apply rd_u16_enc; lia). unfold ALR_VK_CMD_SUBOP_BASE.
    rewrite (proj2 (Z.ltb_ge _ _)) by lia. by rewrite (parse_subop_enc a o _ Hi).
Qed.
Definition items_wires (l : list item) : list wire := concat (item_wires <$> l) ++ [WU8 0].
Lemma loop_items l st rest fuel :
  Forall item_ok l → ok st = true → (length l < fuel)%nat →
  vk_batch_loop (object_op pv gen) fuel cp a st (enc_onto (items_wires l) rest) = foldl exec_item st l.
Proof.
  intros Hl. revert st fuel. induction Hl as [|i l Hi Hl IH]; intros st [|fuel] Hok Hf; cbn [length] in Hf; try lia.
  - cbn [vk_batch_loop]. rewrite Hok. cbn [negb].
    change (enc_onto _ rest) with (enc_wire (WU8 0) ++ rest). by rewrite rd_u8_enc by lia.
  - unfold items_wires. cbn [fmap list_fmap concat]. rewrite <- (assoc_L (++)), enc_onto_app, loop_item by done.
    cbn [foldl]. apply IH; [by rewrite exec_item_ok|lia].
Qed.
Lemma items_length l : (length l < length (enc_onto (items_wires l) []))%nat.
Proof.
  induction l as [|i l IH]; [cbn; lia|]. unfold items_wires in *. cbn [fmap list_fmap concat].
  rewrite <- (assoc_L (++)), enc_bytes_app, length_app.
  assert (0 < length (enc_onto (item_wires i) []))%nat; [|cbn [length]; lia].
  destruct i as [q|o]; [change (enc_onto (item_wires (inl q)) []) with (enc_wire (WU8 (opcode q)) ++ enc_onto (req_fields q) [])
    |change (enc_onto (item_wires (inr o)) []) with (enc_wire (WU8 kVkGenEscapeOp) ++ enc_onto (WU16 (subop o) :: op_fields o) [])];
    rewrite length_app; cbn [enc_wire]; rewrite le_bytes_length; lia.
Qed.

(** What the guest encodes is what the host executes: a batch of requests and command
    operations in any order runs each of them, in order, on the tables and the driver, and
    stays well formed. *)
Theorem batch_executed l st :
  Forall item_ok l → ok st = true →
  let st' := foldl exec_item st l in
  decode_batch pv gen cp a (enc_onto (items_wires l) []) st
  = mk_vk true (decoded st') (ctx st') (reply st' ++ [byte_of 0]).
Proof.
  intros Hl Hok. unfold decode_batch, decode_vk_batch.
  rewrite loop_items by (done || (pose proof (items_length l); lia)).
  enough (ok (foldl exec_item st l) = true) as -> by done.
  clear Hl. revert st Hok. induction l as [|i l IH]; intros st Hok; [done|]. apply IH. by rewrite exec_item_ok.
Qed.

(** What a sequence of requests leaves: the tables, the driver and the records of the reply. *)
Fixpoint serve_all (qs : list vk_req) (o : objects) (c : C) : objects * C * list vk_rep :=
  match qs with
  | [] => (o, c, [])
  | q :: qs => let '(o1, c1, r1) := serve pv q o c in let '(o2, c2, r2) := serve_all qs o1 c1 in (o2, c2, r1 ++ r2)
  end.
Lemma served_all qs st :
  let '(o, c, reps) := serve_all qs (fst (ctx st)) (snd (ctx st)) in
  foldl (λ st q, served pv q st) st qs = mk_vk (ok st) (decoded st + count qs) (o, c) (reply st ++ enc_onto (concat (rep_wires <$> reps)) []).
Proof.
  revert st. induction qs as [|q qs IH]; intros st; cbn [serve_all foldl].
  - destruct st as [? ? [? ?] ?]. cbn. by rewrite app_nil_r, Z.add_0_r.
  - specialize (IH (served pv q st)). unfold served in *. destruct (serve pv q _ _) as [[o1 c1] r1].
    cbn [vk_reply ctx ok decoded reply fst snd] in IH. destruct (serve_all qs o1 c1) as [[o2 c2] r2]. rewrite IH.
    rewrite fmap_app, concat_app, enc_bytes_app, (assoc_L (++)). f_equal. unfold count. cbn [length]. lia.
Qed.

(** The results of the callbacks are values of their types. *)
Definition int_ok (z : Z) : Prop := wire_ok (WI32 z).
Definition u32_ok (z : Z) : Prop := wire_ok (WU32 z).
Record typed := mk_typed {
  t_instance f c x y : create_instance pv = Some f → int_ok (f c x y).1;
  t_enumerate f c x y : enumerate pv = Some f → u32_ok (f c x y).1;
  t_props f c x p : query_props pv = Some f → Forall wire_ok (props_wires p) → Forall wire_ok (props_wires (f c x p).1.2);
  t_image f c x l p : image_format_props pv = Some f → rep_ok (R_IMAGE_FORMAT_PROPS 0 p) → rep_ok (R_IMAGE_FORMAT_PROPS 0 (f c x l p).1);
  t_format f c x y p : format_props pv = Some f → rep_ok (R_FORMAT_PROPS 0 p) → rep_ok (R_FORMAT_PROPS 0 (f c x y p).1);
  t_device f c x y : create_device pv = Some f → int_ok (f c x y).1.1 ∧ u32_ok (f c x y).1.2;
  t_device2 f c x y q e l : create_device2 pv = Some f → int_ok (f c x y q e l).1.1 ∧ u32_ok (f c x y q e l).1.2;
  t_clear f c x y z r : clear_submit pv = Some f → int_ok (f c x y z r).1.1 ∧ Forall wire_ok (px_wires (f c x y z r).1.2);
  t_draw f c x y z r : draw_submit pv = Some f → int_ok (f c x y z r).1.1 ∧ Forall wire_ok (px_wires (f c x y z r).1.2);
  t_shader f c x y d : create_shader_module pv = Some f → int_ok (f c x y d).1;
  t_swapchain f c x y z u v : create_swapchain pv = Some f → int_ok (f c x y z u v).1.1 ∧ u32_ok (f c x y z u v).1.2;
  t_acquire f c x : acquire_next_image pv = Some f → u32_ok (f c x).1.2;
  t_present f c x y z r : draw_present pv = Some f →
    int_ok (f c x y z r).1.1.1 ∧ Forall wire_ok (px_wires (f c x y z r).1.1.2) ∧ wire_ok (WU8 (f c x y z r).1.2) }.

(** A callback's result, or the initial values, satisfy what both do. *)
Lemma with_out_ok {F R} (f : option F) (g : F → C → R * C) (out : R) (P : R → Prop) c :
  P out → (∀ h, f = Some h → P (g h c).1) → P (with_out (g <$> f) out c).1.
Proof. intros H0 H. destruct f as [h|]; [by apply H|done]. Qed.
Lemma submit_code_ok z : int_ok (submit_code z).
Proof. unfold submit_code, int_ok. destruct (_ && _); cbn; lia. Qed.
Ltac wires_eval := unfold rep_ok; apply (bool_decide_unpack _); by vm_compute.
Lemma t_submit (T : typed) (b : bool) f c x y z r :
  match (if b then draw_submit pv else None) with Some f => Some f | None => clear_submit pv end = Some f →
  int_ok (f c x y z r).1.1 ∧ Forall wire_ok (px_wires (f c x y z r).1.2).
Proof.
  destruct b; [destruct (draw_submit pv) eqn:E; [intros [= ->]; by apply (t_draw T)|]|]; apply (t_clear T).
Qed.
(** The callback of a case gives values that satisfy [P], by the law [law] of the provider. *)
Ltac out_typed P law :=
  lazymatch goal with |- context [with_out (?g <$> ?f) ?out ?c] =>
    let H := fresh "Hout" in
    assert (P (with_out (g <$> f) out c).1) as H;
      [apply (with_out_ok f g out P c); [try (cbn; lia); try wires_eval|intros; eapply law; first [eassumption|wires_eval]]
      |destruct (with_out (g <$> f) out c) as [? ?]; cbn [fst snd] in H]
  end.
Ltac rep_typed :=
  repeat match goal with x : _ * _ |- _ => destruct x end; unfold rep_ok in *; cbn [fst snd rep_fields] in *;
  repeat match goal with H : _ ∧ _ |- _ => destruct H | H : Forall wire_ok (_ :: _) |- _ => apply Forall_cons in H as [? H] end;
  repeat match goal with |- Forall _ [_] => apply Forall_cons_2; [|apply Forall_nil_2] end;
  cbn [rep_fields]; rewrite ?Forall_app; try split; repeat (apply Forall_cons_2; [first [assumption|apply submit_code_ok|cbn; lia]|]); first [assumption|apply Forall_nil_2|idtac].
Lemma serve_typed q o c : typed → req_ok q → Forall rep_ok (serve pv q o c).2.
Proof.
  intros T [Hq _].
  destruct q; open_serve; cbn [req_fields] in *; try (cbn [snd]; apply Forall_nil_2);
    repeat (apply Forall_cons in Hq as [? Hq]); unfold rep_ok.
  - out_typed int_ok (t_instance T). rep_typed.
  - out_typed u32_ok (t_enumerate T). rep_typed.
  - out_typed (λ r : bool * VkPhysProps, Forall wire_ok (props_wires r.2)) (t_props T).
    destruct p as [[] p]; rep_typed.
  - out_typed (λ p, rep_ok (R_IMAGE_FORMAT_PROPS 0 p)) (t_image T). rep_typed.
  - out_typed (λ r : Z * Z, int_ok r.1 ∧ u32_ok r.2) (t_device2 T). rep_typed.
  - out_typed (λ p, rep_ok (R_FORMAT_PROPS 0 p)) (t_format T). rep_typed.
  - out_typed (λ r : Z * Z, int_ok r.1 ∧ u32_ok r.2) (t_device T). rep_typed.
  - destruct (with_out _ _ _). apply Forall_nil_2.
  - destruct (with_out _ _ _). apply Forall_nil_2.
  - out_typed (λ r : Z * pixel, int_ok r.1 ∧ Forall wire_ok (px_wires r.2)) (t_submit T). rep_typed.
  - out_typed int_ok (t_shader T). rep_typed.
  - out_typed (λ r : Z * Z, int_ok r.1 ∧ u32_ok r.2) (t_swapchain T). rep_typed.
  - out_typed (λ r : bool * Z, u32_ok r.2) (t_acquire T). destruct p as [[] ?]; rep_typed.
  - out_typed (λ r : Z * pixel * Z, int_ok r.1.1 ∧ Forall wire_ok (px_wires r.1.2) ∧ wire_ok (WU8 r.2)) (t_present T). rep_typed.
Qed.

Lemma serve_all_typed qs o c : typed → Forall req_ok qs → Forall rep_ok (serve_all qs o c).2.
Proof.
  intros T Hqs. revert o c. induction Hqs as [|q qs Hq Hqs IH]; intros o c; [apply Forall_nil_2|]. cbn [serve_all].
  pose proof (serve_typed q o c T Hq) as H1. destruct (serve pv q o c) as [[o1 c1] r1].
  specialize (IH o1 c1). destruct (serve_all qs o1 c1) as [[o2 c2] r2]. by apply Forall_app.
Qed.
Lemma exec_requests qs st : foldl exec_item st (inl <$> qs) = foldl (λ st q, served pv q st) st qs.
Proof. revert st. induction qs as [|q qs IH]; intros st; [done|]. apply IH. Qed.

(** The guest's buffer: [init], the requests, [end]. *)
Definition guest_batch (cap : Z) (qs : list vk_req) : AlrEncoder :=
  alr_enc (foldl alr_vk_enc (alr_enc_init cap) qs) (WU8 0).
Definition requests_wires (qs : list vk_req) : list wire := concat (req_wires <$> qs) ++ [WU8 0].
Lemma guest_batch_wires cap qs : guest_batch cap qs = alr_enc_all (alr_enc_init cap) (requests_wires qs).
Proof.
  unfold guest_batch, requests_wires, alr_enc_all. rewrite foldl_app. cbn [foldl]. f_equal.
  generalize (alr_enc_init cap). induction qs as [|q qs IH]; intros e; [done|].
  cbn [fmap list_fmap concat foldl]. by rewrite foldl_app, <- IH.
Qed.
Lemma items_requests qs : items_wires (inl <$> qs) = requests_wires qs.
Proof. unfold items_wires, requests_wires. f_equal. f_equal. by rewrite <- list_fmap_compose. Qed.

(** C36. From the guest's calls back to the guest's records: a batch of requests that fits the
    guest's buffer, decoded on the host and its reply decoded on the guest, runs every request
    once, in order, on the tables and the driver, and gives the guest exactly the records they
    produced. *)
Theorem requests_served cap qs o c :
  typed → Forall req_ok qs → 0 ≤ cap → count (enc_onto (requests_wires qs) []) ≤ cap →
  let '(o', c', reps) := serve_all qs o c in
  let e := guest_batch cap qs in
  let st := decode_batch pv gen cp a (enc_buf e) (mk_vk true 0 (o, c) []) in
  enc_overflow e = false ∧ ok st = true ∧ decoded st = count qs ∧ ctx st = (o', c')
  ∧ decode_vk_reply (reply st) = (true, foldl add_rep nothing_decoded reps).
Proof.
  intros T Hqs Hcap Hfit. pose proof (serve_all_typed qs o c T Hqs) as Hr.
  pose proof (served_all qs (mk_vk true 0 (o, c) [])) as Hs. cbn [ctx fst snd ok decoded reply app] in Hs.
  destruct (serve_all qs o c) as [[o' c'] reps]. rewrite guest_batch_wires.
  destruct (alr_all_bytes (requests_wires qs) cap Hcap) as [_ He]. unfold count in Hfit.
  rewrite (proj2 (Z.ltb_ge _ _)) in He by lia. rewrite He. cbn [enc_buf enc_overflow]. rewrite <- items_requests.
  unfold decode_batch, decode_vk_batch. rewrite loop_items, exec_requests, Hs;
    [|by apply Forall_fmap|done|pose proof (items_length (inl <$> qs)); lia].
  cbn [ok decoded ctx reply]. split_and!; try done. unfold decode_vk_reply.
  replace (enc_onto (concat (rep_wires <$> reps)) [] ++ [byte_of 0])
    with (enc_onto (concat (rep_wires <$> reps) ++ [WU8 0]) []) by (by rewrite enc_bytes_app).
  apply decode_reply_enc; [done|]. clear. rewrite enc_bytes_app, length_app. cbn [length].
  induction reps as [|r reps IH]; cbn [length fmap list_fmap concat]; [lia|].
  rewrite enc_bytes_app, length_app. change (enc_onto (rep_wires r) []) with (enc_wire (WU8 (rep_opcode r)) ++ enc_onto (rep_fields r) []).
  rewrite length_app. cbn [enc_wire]. rewrite le_bytes_length. lia.
Qed.

(** ** Any bytes *)

Definition head_byte (s : bytes) : option Z := byte_val <$> head s.
Lemma rd_u8_head s : rd_u8 s = match s with [] => None | b :: s' => Some (byte_val b, s') end.
Proof.
  destruct s as [|b s]; [done|]. unfold rd_u8, mbind, rd_bind, rd_take. cbn [length].
  rewrite (proj2 (Z.ltb_ge _ _)) by lia. change (Some (byte_val b + 256 * 0, s) = Some (byte_val b, s)). by rewrite Z.add_0_r.
Qed.
(** The stream from here on starts with no request: it ends, escapes or is malformed. *)
Definition no_request (s : bytes) : Prop := ∀ q t, req_ok q → s ≠ enc_onto (req_wires q) t.
Definition stop_at (fuel : nat) (st : state) (rest : bytes) : state :=
  match head_byte rest with
  | None => st
  | Some op => if op =? 0 then st
               else if op =? kVkGenEscapeOp then vk_batch_loop (object_op pv gen) fuel cp a st rest
               else vk_fail st
  end.
Lemma loop_bytes fuel s st :
  ok st = true → (length s < fuel)%nat →
  ∃ qs rest fuel', Forall req_ok qs ∧ s = enc_onto (concat (req_wires <$> qs)) rest ∧ no_request rest ∧ (length rest < fuel')%nat ∧
    vk_batch_loop (object_op pv gen) fuel cp a st s = stop_at fuel' (foldl (λ st q, served pv q st) st qs) rest.
Proof.
  revert s st. induction fuel as [|fuel IH]; intros s st Hok Hf; [lia|].
  assert (Hstop : no_request s → vk_batch_loop (object_op pv gen) (S fuel) cp a st s = stop_at (S fuel) st s →
    ∃ qs rest fuel', Forall req_ok qs ∧ s = enc_onto (concat (req_wires <$> qs)) rest ∧ no_request rest ∧ (length rest < fuel')%nat ∧
      vk_batch_loop (object_op pv gen) (S fuel) cp a st s = stop_at fuel' (foldl (λ st q, served pv q st) st qs) rest).
  { intros Hn He. by exists [], s, (S fuel). }
  destruct s as [|b s].
  { apply Hstop; [by intros q t _|cbn; by rewrite Hok]. }
  destruct (parse_req (byte_val b) s) as [[q s']|] eqn:E.
  - apply parse_req_inv in E as (Hb & Hq & ->).
    assert (He : b :: enc_onto (req_fields q) s' = enc_onto (item_wires (inl q)) s').
    { change (enc_onto (item_wires (inl q)) s') with (byte_of (opcode q) :: enc_onto (req_fields q) s'). f_equal.
      rewrite <- Hb. by rewrite byte_of_val. }
    rewrite He, loop_item by done. rewrite enc_onto_nil in Hf. cbn [length] in Hf. rewrite length_app in Hf.
    destruct (IH s' (exec_item st (inl q))) as (qs & rest & f' & Hqs & -> & Hn & Hf' & ->); [by rewrite exec_item_ok|lia|].
    exists (q :: qs), rest, f'. cbn [fmap list_fmap concat foldl]. rewrite enc_onto_app. split_and!; try done. by constructor.
  - assert (Hn : no_request (b :: s)).
    { intros q t Hq He. injection He as -> ->. rewrite byte_val_of, Z.mod_small in E by (pose proof (req_opcode_range q); lia).
      by rewrite parse_req_enc in E. }
    apply (Hstop Hn). unfold stop_at, head_byte. cbn [head fmap option_fmap option_map].
    destruct (byte_val b =? kVkGenEscapeOp) eqn:E1; [by destruct (byte_val b =? 0) eqn:E0; [cbn [vk_batch_loop]; rewrite Hok, rd_u8_head, E0|]|].
    cbn [vk_batch_loop]. rewrite Hok, rd_u8_head, E1. cbn [negb]. destruct (byte_val b =? 0); [done|].
    unfold object_op. rewrite E1, E. by destruct fuel.
Qed.

(** C37. Whatever bytes the guest sends, the host executes the longest prefix of them that is a
    sequence of well-formed requests, each once and in order, and what follows decides the
    rest: nothing or a zero byte ends the batch, an escape byte goes to the other bands, and
    anything else fails the stream before it touches the tables or the driver. *)
Theorem bytes_executed data st :
  ok st = true →
  ∃ qs rest fuel, Forall req_ok qs ∧ data = enc_onto (concat (req_wires <$> qs)) rest ∧ no_request rest ∧ (length rest < fuel)%nat ∧
    let st' := stop_at fuel (foldl (λ st q, served pv q st) st qs) rest in
    decode_batch pv gen cp a data st = mk_vk (ok st') (decoded st') (ctx st') (reply st' ++ [byte_of 0]).
Proof.
  intros Hok. destruct (loop_bytes (S (length data)) data st Hok ltac:(lia)) as (qs & rest & f & Hqs & Hd & Hn & Hf & He).
  exists qs, rest, f. split_and!; try done. unfold decode_batch, decode_vk_batch. by rewrite He.
Qed.

(** A stream that failed once stays failed: the servicer keeps [VkDecodeState] for the life of
    the ring, so no later batch is executed. *)
Lemma failed_sticks data st : ok st = false → decode_batch pv gen cp a data st = mk_vk false (decoded st) (ctx st) (reply st ++ [byte_of 0]).
Proof. intros H. unfold decode_batch, decode_vk_batch. cbn [vk_batch_loop]. rewrite H. cbn. by rewrite H. Qed.
End batch.

(** ** Batch after batch *)

(** A host without the other bands. *)
Definition no_cmds {C} : @VkCmdProvider C := mk_provider None None None None None None None None None None.
Section service.
Context {C : Type} (pv : VkProvider C) (a : AlrVkArena).
Abbreviation state := (@vk_state (objects * C)).
(** The part of [VkRingServicer::thread_main] that runs one batch: the decode state lives as
    long as the thread, each batch has a reply of its own, and an empty batch is answered too. *)
Definition service_batch (st : state) (data : bytes) : state :=
  let st := mk_vk (ok st) (decoded st) (ctx st) [] in
  match data with
  | [] => mk_vk (ok st) (decoded st) (ctx st) [byte_of 0]
  | _ => decode_batch pv None no_cmds a data st
  end.
(** What every request preserves of the driver's context, every batch does. *)
Variable P : C → Prop.
Hypothesis serve_keeps : ∀ q o c, P c → P (snd (fst (serve pv q o c))).
Lemma exec_no_cmds o (st : state) : ctx (exec_cmd_op no_cmds o st) = ctx st.
Proof. by destruct o. Qed.
Lemma object_op_keeps op (st : state) s : P (snd (ctx st)) → P (snd (ctx (fst (object_op pv None op st s)))).
Proof.
  intros HP. unfold object_op. destruct (op =? _); [done|]. destruct (parse_req op s) as [[q s']|]; [|done]. cbn [fst].
  pose proof (serve_keeps q (fst (ctx st)) (snd (ctx st)) HP) as H. unfold served. by destruct (serve pv q _ _) as [[o c] reps].
Qed.
Lemma loop_keeps fuel (st : state) s : P (snd (ctx st)) → P (snd (ctx (vk_batch_loop (object_op pv None) fuel no_cmds a st s))).
Proof.
  revert st s. induction fuel as [|fuel IH]; intros st s HP; cbn [vk_batch_loop]; [done|].
  destruct (negb (ok st)); [done|]. destruct (rd_u8 s) as [[op s']|]; [|done]. destruct (op =? 0); [done|].
  assert (Hother : P (snd (ctx (let '(st', s'') := object_op pv None op st s' in vk_batch_loop (object_op pv None) fuel no_cmds a st' s'')))).
  { pose proof (object_op_keeps op st s' HP) as H. destruct (object_op pv None op st s') as [st' s'']. by apply IH. }
  destruct (op =? kVkGenEscapeOp); [|done]. destruct (rd_u16 s') as [[sub s1]|]; [|done]. destruct (16384 <=? sub); [|done].
  unfold decode_vk_cmd_op. destruct (negb (op =? _)); [done|].
  match goal with |- context [match ?x with Some _ => _ | None => _ end] => destruct x as [[o s'']|] end; apply IH; [by rewrite exec_no_cmds|done].
Qed.
Lemma batches_keep batches (st : state) : P (snd (ctx st)) → P (snd (ctx (foldl service_batch st batches))).
Proof.
  revert st. induction batches as [|d batches IH]; intros st HP; [done|]. cbn [foldl]. apply IH. unfold service_batch.
  destruct d; [done|]. by apply loop_keeps.
Qed.
End service.

(** ** An instance *)

(** A provider that knows one device and counts the calls it gets. *)
Definition one_device : VkProvider nat :=
  mk_vkp (Some (λ c _ _, (0, S c))) (Some (λ c _ _, (1, S c)))
    (Some (λ c x p, if x =? 16 then (true, mk_props 4206592 7 5045 1 1 (str "Mali-G615") false [(1, 2)] [] [] [] 3, S c) else (false, p, S c)))
    None None (Some (λ c _, S c)) (Some (λ c _ _, (0, 0, S c))) None None None None None None None (Some (λ c _, S c)) None None None None None None.
Lemma one_device_typed : typed one_device.
Proof.
  split; intros; try discriminate.
  - injection H as <-. unfold int_ok. cbn. lia.
  - injection H as <-. unfold u32_ok. cbn. lia.
  - injection H as <-. destruct (x =? 16); [apply (bool_decide_unpack _); by vm_compute|done].
  - injection H as <-. unfold int_ok, u32_ok. cbn. lia.
Qed.
Definition some_requests : list vk_req :=
  [CREATE_INSTANCE 1 0; ENUMERATE_PHYSICAL_DEVICES 1 16; GET_PHYSICAL_DEVICE_PROPERTIES 1 16; GET_PHYSICAL_DEVICE_PROPERTIES 1 17;
   CREATE_DEVICE 1 16 2; DESTROY_DEVICE 2; DESTROY_INSTANCE 1].
Lemma requests_served_witness :
  let '(o', c', reps) := serve_all one_device some_requests no_objects 0%nat in
  let e := guest_batch 1024 some_requests in
  let st := decode_batch one_device None no_cmds no_arena (enc_buf e) (mk_vk true 0 (no_objects, 0%nat) []) in
  c' = 7%nat ∧ length reps = 4%nat ∧ enc_overflow e = false ∧ ok st = true ∧ decoded st = count some_requests ∧ ctx st = (o', c')
  ∧ decode_vk_reply (reply st) = (true, foldl add_rep nothing_decoded reps).
Proof.
  pose proof (requests_served one_device None no_cmds no_arena 1024 some_requests no_objects 0%nat one_device_typed
    ltac:(apply (bool_decide_unpack _); by vm_compute) ltac:(lia) ltac:(by vm_compute)) as H.
  assert (Hc : (serve_all one_device some_requests no_objects 0%nat).1.2 = 7%nat) by by vm_compute.
  assert (Hr : length (serve_all one_device some_requests no_objects 0%nat).2 = 4%nat) by by vm_compute.
  destruct (serve_all one_device some_requests no_objects 0%nat) as [[o' c'] reps]. by split.
Defined.
(** A request, then a byte that is no operation. *)
Definition some_bytes : bytes := enc_onto (req_wires (CREATE_INSTANCE 1 0)) [byte_of 99; byte_of 1].
Lemma bytes_executed_witness :
  ok (mk_vk true 0 (no_objects, 0%nat) []) = true ∧
  ∃ qs rest fuel, Forall req_ok qs ∧ some_bytes = enc_onto (concat (req_wires <$> qs)) rest ∧ no_request rest ∧ (length rest < fuel)%nat ∧
    let st' := stop_at one_device None no_cmds no_arena fuel
                 (foldl (λ st q, served one_device q st) (mk_vk true 0 (no_objects, 0%nat) []) qs) rest in
    decode_batch one_device None no_cmds no_arena some_bytes (mk_vk true 0 (no_objects, 0%nat) [])
    = mk_vk (ok st') (decoded st') (ctx st') (reply st' ++ [byte_of 0]).
Proof. split; [reflexivity|]. apply bytes_executed. reflexivity. Defined.
Example bytes_executed_once :
  let st := decode_batch one_device None no_cmds no_arena some_bytes (mk_vk true 0 (no_objects, 0%nat) []) in
  ok st = false ∧ decoded st = 1 ∧ snd (ctx st) = 1%nat.
Proof. by vm_compute. Qed.

(** One malformed batch ends the service: the next batch of the guest, well formed, is
    answered with nothing but the terminator. *)
Example malformed_batch_sticks :
  let st := service_batch one_device no_arena (service_batch one_device no_arena (mk_vk true 0 (no_objects, 0%nat) []) [byte_of 99])
              (enc_buf (guest_batch 1024 some_requests)) in
  ok st = false ∧ decoded st = 0 ∧ reply st = [byte_of 0].
Proof. by vm_compute. Qed.
