(* ===== verification/VkDriver.v ===== *)
(** * The Vulkan driver under the host

    What the functions of [alr_gpu_vk_decode.hpp] that run on a device call: a driver that
    answers each call from the calls made so far.  The history of calls gives the objects
    that are live, and whether every call used and destroyed live objects only.  A routine
    that creates objects in local variables and destroys them in its [cleanup] is a program
    over a frame of such variables; its specification says which variables hold an object on
    success and which may on an error.

    Command buffers, queues and physical devices are not objects of their own: they live with
    their pool, device and instance. *)

From stdpp Require Import gmultiset.
From S2P Require Import Prelude Bytes.
Open Scope Z_scope.

(** ** Calls and answers *)

Inductive kind :=
  KInstance | KDevice | KPool | KShader | KImage | KMemory | KView | KRenderPass | KFramebuffer
| KLayout | KPipeline | KBuffer | KFence | KAhb.
#[export] Instance kind_eq_dec : EqDecision kind.
Proof. solve_decision. Defined.
Definition kind_num (k : kind) : nat :=
  match k with
  | KInstance => 0 | KDevice => 1 | KPool => 2 | KShader => 3 | KImage => 4 | KMemory => 5 | KView => 6 | KRenderPass => 7
  | KFramebuffer => 8 | KLayout => 9 | KPipeline => 10 | KBuffer => 11 | KFence => 12 | KAhb => 13
  end%nat.
Definition num_kind (n : nat) : kind :=
  match n with
  | 0 => KInstance | 1 => KDevice | 2 => KPool | 3 => KShader | 4 => KImage | 5 => KMemory | 6 => KView | 7 => KRenderPass
  | 8 => KFramebuffer | 9 => KLayout | 10 => KPipeline | 11 => KBuffer | 12 => KFence | _ => KAhb
  end%nat.
Lemma num_kind_num k : num_kind (kind_num k) = k.
Proof. by destruct k. Qed.
#[export] Instance kind_countable : Countable kind := inj_countable' kind_num num_kind num_kind_num.

(** An object: its kind and its handle; zero is [VK_NULL_HANDLE]. *)
Definition obj : Type := kind * Z.

(** The functions that neither create nor destroy an object. *)
Inductive fn :=
| EnumeratePhysicalDevices | QueryPhysicalDevice | GetInstanceProcAddr | GetDeviceProcAddr | GetDeviceQueue | AllocateCommandBuffers | DeviceWaitIdle
| GetAhbProperties | BindImageMemory | GetBufferMemoryRequirements | GetPhysicalDeviceMemoryProperties
| BindBufferMemory | MapMemory | WriteMapped | UnmapMemory | ResetCommandBuffer | BeginCommandBuffer | CmdBeginRenderPass
| CmdBindPipeline | CmdBindVertexBuffers | CmdDraw | CmdEndRenderPass | CmdPipelineBarrier | EndCommandBuffer | QueueSubmit
| WaitForFences | QueueWaitIdle | AhbDescribe | AhbLock | AhbRead | AhbUnlock | PresentSink.

(** A call names the objects it uses; the other arguments that vary are [params] and [data]. *)
Inductive call :=
| Create (k : kind) (uses : list obj) (params : list Z) (data : list (list bytes))
| Destroy (k : kind) (uses : list obj) (handle : Z)
| Do (f : fn) (uses : list obj) (params : list Z).
(** The result code and the values of the out parameters. *)
Record answer := mk_ans { result : Z; values : list Z }.
Definition value (i : nat) (a : answer) : Z := default 0 (values a !! i).
Definition handle (a : answer) : Z := value 0 a.
(** The calls so far, newest first. *)
Definition history : Type := list (call * answer).
Definition driver : Type := history → call → answer.

(** What the host relies on: a creation that succeeds gives a handle, which Vulkan promises, and
    one that fails leaves the null handle of its variable.  Drivers do that, although Vulkan
    calls the outputs of a failed command undefined ([failed_handle_destroyed] of [VkRender]). *)
Definition creates_ok (drv : driver) : Prop :=
  ∀ h k us ps d, result (drv h (Create k us ps d)) = 0 ↔ handle (drv h (Create k us ps d)) ≠ 0.

(** ** Live objects *)

(** As a multiset: a driver may give the same handle twice. *)
Definition step_live (e : call * answer) (L : gmultiset obj) : gmultiset obj :=
  match e with
  | (Create k _ _ _, a) => if result a =? 0 then {[+ (k, handle a) +]} ⊎ L else L
  | (Destroy k _ x, _) => L ∖ {[+ (k, x) +]}
  | (Do _ _ _, _) => L
  end.
Definition live (h : history) : gmultiset obj := foldr step_live ∅ h.
(** A call is made on live objects, and a destruction of a live object. *)
Definition call_ok (L : gmultiset obj) (c : call) : Prop :=
  match c with
  | Create _ us _ _ | Do _ us _ => Forall (.∈ L) us
  | Destroy k us x => Forall (.∈ L) us ∧ (k, x) ∈ L
  end.
Fixpoint sound (h : history) : Prop :=
  match h with [] => True | (c, _) :: h' => call_ok (live h') c ∧ sound h' end.

(** ** Programs over the driver *)

Definition M (A : Type) : Type := history → A * history.
#[export] Instance M_ret : MRet M := λ A a h, (a, h).
#[export] Instance M_bind : MBind M := λ A B f m h, let '(a, h') := m h in f a h'.

(** The local variables of a routine; [None] is [VK_NULL_HANDLE]. *)
Inductive slot := SAhb | SImage | SMem | SView | SRp | SFb | SVert | SFrag | SLayout | SPipeline | SVbuf | SVmem.
#[export] Instance slot_eq_dec : EqDecision slot.
Proof. solve_decision. Defined.
Definition slot_num (s : slot) : nat :=
  match s with
  | SAhb => 0 | SImage => 1 | SMem => 2 | SView => 3 | SRp => 4 | SFb => 5 | SVert => 6 | SFrag => 7 | SLayout => 8 | SPipeline => 9
  | SVbuf => 10 | SVmem => 11
  end%nat.
Definition num_slot (n : nat) : slot :=
  match n with
  | 0 => SAhb | 1 => SImage | 2 => SMem | 3 => SView | 4 => SRp | 5 => SFb | 6 => SVert | 7 => SFrag | 8 => SLayout | 9 => SPipeline
  | 10 => SVbuf | _ => SVmem
  end%nat.
Lemma num_slot_num s : num_slot (slot_num s) = s.
Proof. by destruct s. Qed.
#[export] Instance slot_countable : Countable slot := inj_countable' slot_num num_slot num_slot_num.
Definition kind_of (s : slot) : kind :=
  match s with
  | SAhb => KAhb | SImage => KImage | SMem | SVmem => KMemory | SView => KView | SRp => KRenderPass | SFb => KFramebuffer
  | SVert | SFrag => KShader | SLayout => KLayout | SPipeline => KPipeline | SVbuf => KBuffer
  end.
Abbreviation frame := (gmap slot Z).
Definition get (x : frame) (s : slot) : Z := default 0 (x !! s).
Definition set_slot (s : slot) (v : Z) (x : frame) : frame := if v =? 0 then delete s x else <[s := v]> x.
(** An object of a call: a local variable, or one of the caller's. *)
Definition use : Type := slot + obj.
Definition resolve (x : frame) (u : use) : obj := match u with inl s => (kind_of s, get x s) | inr o => o end.

(** A routine that may stop with an error code. *)
Definition R (A : Type) : Type := frame → M ((Z + A) * frame).
#[export] Instance R_ret : MRet R := λ A a x h, ((inr a, x), h).
#[export] Instance R_bind : MBind R := λ A B f m x h,
  let '((r, x'), h') := m x h in match r with inl e => ((inl e, x'), h') | inr a => f a x' h' end.
Definition r_throw {A} (e : Z) : R A := λ x h, ((inl e, x), h).

Section driver.
Context (drv : driver).
Definition call_drv (c : call) : M answer := λ h, (drv h c, (c, drv h c) :: h).
(** [if (vkCreateX(..., &s) != VK_SUCCESS) error] *)
Definition r_create (s : slot) (us : list use) (ps : list Z) (err : Z) : R answer := λ x h,
  let '(a, h') := call_drv (Create (kind_of s) (resolve x <$> us) ps []) h in
  ((if result a =? 0 then inr a else inl err, set_slot s (handle a) x), h').
(** [vkX(...)], its result ignored *)
Definition r_do (f : fn) (us : list use) (ps : list Z) : R answer := λ x h,
  let '(a, h') := call_drv (Do f (resolve x <$> us) ps) h in ((inr a, x), h').
(** [if (vkX(...) != VK_SUCCESS) error] *)
Definition r_check (f : fn) (us : list use) (ps : list Z) (err : Z) : R answer :=
  a ← r_do f us ps; if result a =? 0 then mret a else r_throw err.
(** [vkDestroyX(dev, s)]; a hardware buffer has no device. *)
Definition owner (dev : Z) (s : slot) : list use := match s with SAhb => [] | _ => [inr (KDevice, dev)] end.
Definition r_free (dev : Z) (s : slot) : R () := λ x h,
  let '(_, h') := call_drv (Destroy (kind_of s) (resolve x <$> owner dev s) (get x s)) h in ((inr (), delete s x), h').
(** [if (s) vkDestroyX(dev, s)] *)
Definition r_free_if (dev : Z) (s : slot) : R () := λ x h, if get x s =? 0 then ((inr (), x), h) else r_free dev s x h.
(** A [cleanup] in the order of the variables, and a routine that runs it on every exit. *)
Fixpoint r_cleanup (dev : Z) (order : list slot) : R () :=
  match order with [] => mret () | s :: order => _ ← r_free_if dev s; r_cleanup dev order end.
Definition with_cleanup {A} (dev : Z) (order : list slot) (m : R A) (x : frame) : M (Z + A) := λ h,
  let '((r, x1), h1) := m x h in let '(_, h2) := r_cleanup dev order x1 h1 in (r, h2).

(** ** Specifications *)

Definition owned (x : frame) : gmultiset obj := list_to_set_disj ((λ p, (kind_of (fst p), snd p)) <$> map_to_list x).
(** The live objects are the caller's and those of the frame. *)
Record inv (B : gmultiset obj) (x : frame) (h : history) : Prop := {
  inv_live : live h = B ⊎ owned x;
  inv_sound : sound h;
  inv_some s v : x !! s = Some v → v ≠ 0 }.
(** From a frame whose variables [F] hold objects: on success those of [G] do, and on an error
    some of [D]. *)
Definition spec (B : gmultiset obj) (F : gset slot) {A} (m : R A) (G D : gset slot) : Prop :=
  ∀ x h, inv B x h → dom x = F →
  let '((r, x'), h') := m x h in
  inv B x' h' ∧ match r with inl _ => dom x' ⊆ D | inr _ => dom x' = G end.

Lemma owned_insert x s v : x !! s = None → owned (<[s := v]> x) = {[+ (kind_of s, v) +]} ⊎ owned x.
Proof. intros H. unfold owned. by rewrite (map_to_list_insert x s v H), fmap_cons, list_to_set_disj_cons. Qed.
Lemma owned_delete x s v : x !! s = Some v → owned x = {[+ (kind_of s, v) +]} ⊎ owned (delete s x).
Proof. intros H. rewrite <- (owned_insert (delete s x) s v (lookup_delete_eq x s)). f_equal. symmetry. by apply insert_delete_id. Qed.
Lemma owned_empty : owned ∅ = ∅.
Proof. unfold owned. by rewrite map_to_list_empty. Qed.
Lemma owned_singleton s v : owned {[s := v]} = {[+ (kind_of s, v) +]}.
Proof. unfold owned. rewrite map_to_list_singleton. cbn. by rewrite (right_id ∅ _). Qed.
Lemma inv_empty B h : live h = B → sound h → inv B ∅ h.
Proof. intros H1 H2. split; [by rewrite owned_empty, (right_id ∅ _)|done|]. intros s v. by rewrite lookup_empty. Qed.

(** The objects a call may name: variables that hold one, and the caller's. *)
Definition usable (B : gmultiset obj) (F : gset slot) (u : use) : Prop := match u with inl s => s ∈ F | inr o => o ∈ B end.
Lemma usable_live B F x h us :
  inv B x h → dom x = F → Forall (usable B F) us → Forall (.∈ live h) (resolve x <$> us).
Proof.
  intros I HF Hus. apply Forall_fmap. eapply Forall_impl; [exact Hus|]. intros [s|o] H; cbn in *; rewrite (inv_live _ _ _ I).
  - rewrite <- HF in H. apply elem_of_dom in H as [v Hv]. unfold get. rewrite Hv. cbn [default]. unfold id.
    rewrite (owned_delete x s v Hv). multiset_solver.
  - multiset_solver.
Qed.

Lemma spec_ret B F A (a : A) D : spec B F (mret a) F D.
Proof. by intros x h I HF. Qed.
Lemma spec_throw B F A e (D G : gset slot) : F ⊆ D → spec B F (r_throw e : R A) G D.
Proof. intros HD x h I HF. split; [done|]. by rewrite HF. Qed.
Lemma spec_bind B F G K D A C (m : R A) (f : A → R C) :
  spec B F m G D → (∀ a, spec B G (f a) K D) → spec B F (m ≫= f) K D.
Proof.
  intros Hm Hf x h I HF. unfold mbind, R_bind. specialize (Hm x h I HF). destruct (m x h) as [[[e|a] x'] h'].
  - exact Hm.
  - destruct Hm as [I' HG]. exact (Hf a x' h' I' HG).
Qed.
Lemma spec_do B F f us ps D : Forall (usable B F) us → spec B F (r_do f us ps) F D.
Proof.
  intros Hus x h I HF. unfold r_do, call_drv. split; [|done]. destruct I as [H1 H2 H3]. split; [done| |done].
  cbn [sound call_ok]. split; [|done]. by apply (usable_live B F).
Qed.
Lemma spec_check B F f us ps err D : F ⊆ D → Forall (usable B F) us → spec B F (r_check f us ps err) F D.
Proof.
  intros HD Hus. eapply spec_bind; [by apply spec_do|]. intros a. destruct (result a =? 0); [apply spec_ret|by apply spec_throw].
Qed.
Lemma spec_create B F s us ps err D :
  creates_ok drv → s ∉ F → F ⊆ D → Forall (usable B F) us → spec B F (r_create s us ps err) ({[s]} ∪ F) D.
Proof.
  intros Hc Hs HD Hus x h I HF. unfold r_create, call_drv.
  pose proof (usable_live B F x h us I HF Hus) as Hl. pose proof (Hc h (kind_of s) (resolve x <$> us) ps []) as Ha.
  set (a := drv h _) in *. assert (Hn : x !! s = None) by (apply not_elem_of_dom; by rewrite HF).
  destruct I as [H1 H2 H3]. unfold set_slot. destruct (result a =? 0) eqn:E.
  - apply Z.eqb_eq in E. rewrite (proj2 (Z.eqb_neq _ _)) by tauto. split.
    + split; [|split; [exact Hl|done]|].
      * cbn [live foldr step_live]. rewrite E. cbn [Z.eqb]. fold (live h). rewrite owned_insert, H1 by done. multiset_solver.
      * intros t v [[<- <-]|[_ Hv]]%lookup_insert_Some; [tauto|by apply (H3 t)].
    + rewrite dom_insert_L. by rewrite HF.
  - apply Z.eqb_neq in E. rewrite (proj2 (Z.eqb_eq _ 0)) by (destruct (decide (handle a = 0)); [done|tauto]).
    rewrite delete_id by done. split; [|by rewrite HF]. split; [|split; [exact Hl|done]|done].
    cbn [live foldr step_live]. by rewrite (proj2 (Z.eqb_neq _ _)).
Qed.
Lemma spec_free B F dev s D : s ∈ F → (KDevice, dev) ∈ B → spec B F (r_free dev s) (F ∖ {[s]}) D.
Proof.
  intros Hs Hd x h I HF. unfold r_free, call_drv.
  assert (Hl : Forall (.∈ live h) (resolve x <$> owner dev s)).
  { apply (usable_live B F); [done..|]. destruct s; cbn; repeat constructor; exact Hd. }
  destruct I as [H1 H2 H3]. assert (Hv : is_Some (x !! s)) by (apply elem_of_dom; by rewrite HF). destruct Hv as [v Hv].
  unfold get. rewrite Hv. cbn [default]. unfold id. rewrite (owned_delete x s v Hv) in H1. split.
  - split.
    + cbn [live foldr step_live]. fold (live h). rewrite H1. multiset_solver.
    + split; [split; [exact Hl|]|done]. rewrite H1. multiset_solver.
    + intros t w [_ Ht]%lookup_delete_Some. by apply (H3 t).
  - by rewrite dom_delete_L, HF.
Qed.
Lemma spec_free_if B dev s x h :
  (KDevice, dev) ∈ B → inv B x h →
  let '((r, x'), h') := r_free_if dev s x h in r = inr () ∧ inv B x' h' ∧ dom x' = dom x ∖ {[s]}.
Proof.
  intros Hd I. unfold r_free_if, get. destruct (x !! s) as [v|] eqn:E; cbn [default]; unfold id.
  - rewrite (proj2 (Z.eqb_neq _ _)) by (by eapply inv_some). pose proof (spec_free B (dom x) dev s ∅) as H.
    specialize (H (elem_of_dom_2 _ _ _ E) Hd x h I eq_refl). unfold r_free, call_drv in *. by destruct H as [H1 H2].
  - split_and!; [done|done|]. apply not_elem_of_dom in E. set_solver.
Qed.
Lemma cleanup_all B dev order x h :
  (KDevice, dev) ∈ B → inv B x h → dom x ⊆ list_to_set order →
  let '((r, x'), h') := r_cleanup dev order x h in inv B ∅ h' ∧ x' = ∅.
Proof.
  intros Hd. revert x h. induction order as [|s order IH]; intros x h I Hx; cbn [r_cleanup].
  - cbn in *. assert (x = ∅) as -> by (apply dom_empty_inv_L; set_solver). done.
  - unfold mbind, R_bind. pose proof (spec_free_if B dev s x h Hd I) as H. destruct (r_free_if dev s x h) as [[r x1] h1].
    destruct H as (-> & I1 & Hx1). apply IH; [done|]. cbn in Hx. set_solver.
Qed.
(** A routine whose errors and success leave only variables its cleanup frees changes no
    object and makes no bad call. *)
Lemma with_cleanup_balanced {A} B F (m : R A) G D dev order x h :
  (KDevice, dev) ∈ B → spec B F m G D → G ⊆ list_to_set order → D ⊆ list_to_set order → inv B x h → dom x = F →
  let '(_, h') := with_cleanup dev order m x h in live h' = B ∧ sound h'.
Proof.
  intros Hd Hm HG HD I HF. unfold with_cleanup. specialize (Hm x h I HF). destruct (m x h) as [[r x1] h1].
  destruct Hm as [I1 H1]. assert (Hx : dom x1 ⊆ list_to_set order) by (destruct r; set_solver).
  pose proof (cleanup_all B dev order x1 h1 Hd I1 Hx) as H. destruct (r_cleanup dev order x1 h1) as [[r2 x2] h2].
  destruct H as [[H3 H4 _] _]. split; [|done]. by rewrite H3, owned_empty, (right_id ∅ _).
Qed.
End driver.
