(* ===== verification/VkRender.v ===== *)
(** * Rendering on the host driver

    The functions of [alr_gpu_vk_decode.hpp] that replay a recorded clear or draw on the
    driver ([vk_real_clear_submit], [vk_real_draw_submit], [vk_real_draw_present]) and the
    images of a swapchain, as programs over [VkDriver].  Each creates a dozen objects, may
    stop at any of them, and must leave no object behind.  The constant fields of the
    create-info structures are not modelled. *)

From stdpp Require Import gmultiset.
From S2P Require Import Prelude Bytes Wire VkArena VkCmdLog VkSubmit VkBatch VkDriver.
Open Scope Z_scope.

(** ** Data *)

(** [AlrVkRenderResult], after those of [VkBatch] *)
Definition ALR_VK_RENDER_NO_DEVICE : Z := 1.
Definition ALR_VK_RENDER_TARGET_ALLOC : Z := 2.
Definition ALR_VK_RENDER_RECORD : Z := 3.
Definition ALR_VK_RENDER_SUBMIT : Z := 4.
Definition ALR_VK_RENDER_READBACK : Z := 5.
Definition ALR_VK_RENDER_PIPELINE : Z := 7.
Definition ALR_VK_RENDER_NO_SWAPCHAIN : Z := 8.
Definition ALR_VK_RENDER_NO_SHADER : Z := 9.
Definition VK_FORMAT_R8G8B8A8_UNORM : Z := 37.
Definition SPIRV_MAGIC : Z := 0x07230203.
(** [kAlrVkTriVertSpv], [kAlrVkTriFragSpv], [kAlrVkTriVerts] (bit patterns) *)
Definition kAlrVkTriVertSpv : list Z := [
  0x07230203; 0x00010300; 0x000d000a; 0x0000001b; 0x00000000; 0x00020011; 0x00000001; 0x0006000b; 0x00000001; 0x4c534c47; 0x6474732e; 0x3035342e;
  0x00000000; 0x0003000e; 0x00000000; 0x00000001; 0x0007000f; 0x00000000; 0x00000004; 0x6e69616d; 0x00000000; 0x0000000d; 0x00000012; 0x00050048;
  0x0000000b; 0x00000000; 0x0000000b; 0x00000000; 0x00050048; 0x0000000b; 0x00000001; 0x0000000b; 0x00000001; 0x00050048; 0x0000000b; 0x00000002;
  0x0000000b; 0x00000003; 0x00050048; 0x0000000b; 0x00000003; 0x0000000b; 0x00000004; 0x00030047; 0x0000000b; 0x00000002; 0x00040047; 0x00000012;
  0x0000001e; 0x00000000; 0x00020013; 0x00000002; 0x00030021; 0x00000003; 0x00000002; 0x00030016; 0x00000006; 0x00000020; 0x00040017; 0x00000007;
  0x00000006; 0x00000004; 0x00040015; 0x00000008; 0x00000020; 0x00000000; 0x0004002b; 0x00000008; 0x00000009; 0x00000001; 0x0004001c; 0x0000000a;
  0x00000006; 0x00000009; 0x0006001e; 0x0000000b; 0x00000007; 0x00000006; 0x0000000a; 0x0000000a; 0x00040020; 0x0000000c; 0x00000003; 0x0000000b;
  0x0004003b; 0x0000000c; 0x0000000d; 0x00000003; 0x00040015; 0x0000000e; 0x00000020; 0x00000001; 0x0004002b; 0x0000000e; 0x0000000f; 0x00000000;
  0x00040017; 0x00000010; 0x00000006; 0x00000002; 0x00040020; 0x00000011; 0x00000001; 0x00000010; 0x0004003b; 0x00000011; 0x00000012; 0x00000001;
  0x0004002b; 0x00000006; 0x00000014; 0x00000000; 0x0004002b; 0x00000006; 0x00000015; 0x3f800000; 0x00040020; 0x00000019; 0x00000003; 0x00000007;
  0x00050036; 0x00000002; 0x00000004; 0x00000000; 0x00000003; 0x000200f8; 0x00000005; 0x0004003d; 0x00000010; 0x00000013; 0x00000012; 0x00050051;
  0x00000006; 0x00000016; 0x00000013; 0x00000000; 0x00050051; 0x00000006; 0x00000017; 0x00000013; 0x00000001; 0x00070050; 0x00000007; 0x00000018;
  0x00000016; 0x00000017; 0x00000014; 0x00000015; 0x00050041; 0x00000019; 0x0000001a; 0x0000000d; 0x0000000f; 0x0003003e; 0x0000001a; 0x00000018;
  0x000100fd; 0x00010038].
Definition kAlrVkTriFragSpv : list Z := [
  0x07230203; 0x00010300; 0x000d000a; 0x0000000f; 0x00000000; 0x00020011; 0x00000001; 0x0006000b; 0x00000001; 0x4c534c47; 0x6474732e; 0x3035342e;
  0x00000000; 0x0003000e; 0x00000000; 0x00000001; 0x0006000f; 0x00000004; 0x00000004; 0x6e69616d; 0x00000000; 0x00000009; 0x00030010; 0x00000004;
  0x00000007; 0x00040047; 0x00000009; 0x0000001e; 0x00000000; 0x00020013; 0x00000002; 0x00030021; 0x00000003; 0x00000002; 0x00030016; 0x00000006;
  0x00000020; 0x00040017; 0x00000007; 0x00000006; 0x00000004; 0x00040020; 0x00000008; 0x00000003; 0x00000007; 0x0004003b; 0x00000008; 0x00000009;
  0x00000003; 0x0004002b; 0x00000006; 0x0000000a; 0x3f733333; 0x0004002b; 0x00000006; 0x0000000b; 0x3dcccccd; 0x0004002b; 0x00000006; 0x0000000c;
  0x3f4ccccd; 0x0004002b; 0x00000006; 0x0000000d; 0x3f800000; 0x0007002c; 0x00000007; 0x0000000e; 0x0000000a; 0x0000000b; 0x0000000c; 0x0000000d;
  0x00050036; 0x00000002; 0x00000004; 0x00000000; 0x00000003; 0x000200f8; 0x00000005; 0x0003003e; 0x00000009; 0x0000000e; 0x000100fd; 0x00010038].
Definition kAlrVkTriVerts : list Z := [0x00000000; 0xBF4CCCCD; 0xBF4CCCCD; 0x3F4CCCCD; 0x3F4CCCCD; 0x3F4CCCCD].

(** The part of [VkDecodeState] that exists on a device. *)
Record RealDevice := mk_device { rd_phys : Z; rd_dev : Z; gfx_family : Z; queue_counts : gmap Z Z }.
Record SwapImage := mk_image { im_ahb : Z; im_image : Z; im_mem : Z; im_view : Z }.
Record RealSwapchain := mk_swapchain { sc_vdev : Z; sc_width : Z; sc_height : Z; sc_format : Z; sc_next : Z; sc_images : list SwapImage }.
Record real := mk_real {
  real_inst : gmap Z Z; real_phys : gmap Z Z; real_dev : gmap Z RealDevice; real_queue : gmap Z Z; real_pool : gmap Z (Z * Z);
  real_cmd : gmap Z (Z * Z); real_shader : gmap Z (Z * Z); real_swapchain : gmap Z RealSwapchain; present_serial : Z }.
Definition black : pixel := mk_px 0 0 0 0.

(** The lowest of the 32 bits that is set, as the loops over memory types find it. *)
Fixpoint lowest_bit_from (i : Z) (n : nat) (bits : Z) : option Z :=
  match n with O => None | S n => if Z.testbit bits i then Some i else lowest_bit_from (i + 1) n bits end.
Definition lowest_bit (bits : Z) : option Z := lowest_bit_from 0 32 bits.
(** The first type of [memoryTypes] the buffer can use that is host visible and coherent. *)
Fixpoint host_visible_from (i bits : Z) (flags : list Z) : option Z :=
  match flags with
  | [] => None
  | f :: flags => if Z.testbit bits i && Z.testbit f 1 && Z.testbit f 2 then Some i else host_visible_from (i + 1) bits flags
  end.

(** ** Programs *)

Section render.
Context (drv : driver).
Definition D (dev : Z) : use := inr (KDevice, dev).

(** From [p_ahb_props] to [vkCreateImageView]: the image of the buffer in [SAhb]; its format. *)
Definition image_of_ahb (dev w h err : Z) : R Z :=
  a ← r_check drv GetAhbProperties [D dev; inl SAhb] [] err;
  let fmt := if value 0 a =? 0 then VK_FORMAT_R8G8B8A8_UNORM else value 0 a in
  _ ← r_create drv SImage [D dev] [fmt; w; h] err;
  match lowest_bit (value 1 a) with
  | None => r_throw err
  | Some mem_type =>
      _ ← r_create drv SMem [D dev; inl SAhb; inl SImage] [value 2 a; mem_type] err;
      _ ← r_check drv BindImageMemory [D dev; inl SImage; inl SMem] [] err;
      _ ← r_create drv SView [D dev; inl SImage] [fmt] err;
      mret fmt
  end.
(** The render pass and framebuffer over an image view. *)
Definition pass_of (dev : Z) (view : use) (fmt w h : Z) : R () :=
  _ ← r_create drv SRp [D dev] [fmt] ALR_VK_RENDER_RECORD;
  _ ← r_create drv SFb [D dev; inl SRp; view] [w; h] ALR_VK_RENDER_RECORD;
  mret ().
(** The layout, the vertex buffer and the pipeline of a triangle. *)
Definition vertex_buffer (dev phys : Z) : R () :=
  _ ← r_create drv SVbuf [D dev] [24] ALR_VK_RENDER_PIPELINE;
  req ← r_do drv GetBufferMemoryRequirements [D dev; inl SVbuf] [];
  mp ← r_do drv GetPhysicalDeviceMemoryProperties [] [phys];
  match host_visible_from 0 (value 0 req) (values mp) with
  | None => r_throw ALR_VK_RENDER_PIPELINE
  | Some vtype =>
      _ ← r_create drv SVmem [D dev] [value 1 req; vtype] ALR_VK_RENDER_PIPELINE;
      _ ← r_check drv BindBufferMemory [D dev; inl SVbuf; inl SVmem] [] ALR_VK_RENDER_PIPELINE;
      vmap ← r_check drv MapMemory [D dev; inl SVmem] [24] ALR_VK_RENDER_PIPELINE;
      if value 0 vmap =? 0 then r_throw ALR_VK_RENDER_PIPELINE
      else _ ← r_do drv WriteMapped [inl SVmem] kAlrVkTriVerts; _ ← r_do drv UnmapMemory [D dev; inl SVmem] []; mret ()
  end.
Definition triangle_pipeline (dev phys : Z) (vert frag : use) (w h : Z) : R () :=
  _ ← r_create drv SLayout [D dev] [] ALR_VK_RENDER_PIPELINE;
  _ ← vertex_buffer dev phys;
  _ ← r_create drv SPipeline [D dev; vert; frag; inl SLayout; inl SRp] [w; h] ALR_VK_RENDER_PIPELINE;
  mret ().
(** The modules of the embedded shaders. *)
Definition embedded_shaders (dev : Z) : R () :=
  if negb (default 0 (head kAlrVkTriVertSpv) =? SPIRV_MAGIC) || negb (default 0 (head kAlrVkTriFragSpv) =? SPIRV_MAGIC)
  then r_throw ALR_VK_RENDER_PIPELINE
  else
    _ ← r_create drv SVert [D dev] kAlrVkTriVertSpv ALR_VK_RENDER_PIPELINE;
    _ ← r_create drv SFrag [D dev] kAlrVkTriFragSpv ALR_VK_RENDER_PIPELINE;
    mret ().
(** The recording: clear, draw if there is a pipeline, release of the image. *)
Definition record_commands (cmd w h gfx : Z) (clear : list Z) (draw : bool) (image : use) : R () :=
  _ ← r_do drv ResetCommandBuffer [] [cmd];
  _ ← r_check drv BeginCommandBuffer [] [cmd] ALR_VK_RENDER_RECORD;
  _ ← r_do drv CmdBeginRenderPass [inl SRp; inl SFb] (cmd :: w :: h :: clear);
  _ ← (if draw then
         _ ← r_do drv CmdBindPipeline [inl SPipeline] [cmd];
         _ ← r_do drv CmdBindVertexBuffers [inl SVbuf] [cmd];
         _ ← r_do drv CmdDraw [] [cmd; 3; 1; 0; 0]; mret ()
       else mret ());
  _ ← r_do drv CmdEndRenderPass [] [cmd];
  _ ← r_do drv CmdPipelineBarrier [image] [cmd; gfx];
  _ ← r_check drv EndCommandBuffer [] [cmd] ALR_VK_RENDER_RECORD;
  mret ().
(** Submit with a fence if one can be made, and wait. *)
Definition submit_and_wait (dev queue cmd : Z) : R () := λ x h,
  let '(a, h) := call_drv drv (Create KFence [(KDevice, dev)] [] []) h in
  let fence := if result a =? 0 then handle a else 0 in
  let fences := if fence =? 0 then [] else [(KFence, fence)] in
  let destroy := λ h, if fence =? 0 then h else snd (call_drv drv (Destroy KFence [(KDevice, dev)] fence) h) in
  let '(s, h) := call_drv drv (Do QueueSubmit fences [queue; cmd]) h in
  if negb (result s =? 0) then ((inl ALR_VK_RENDER_SUBMIT, x), destroy h)
  else if fence =? 0 then ((inr (), x), snd (call_drv drv (Do QueueWaitIdle [] [queue]) h))
  else ((inr (), x), destroy (snd (call_drv drv (Do WaitForFences ((KDevice, dev) :: fences) []) h))).
(** The offset of the center pixel in the locked buffer, a [size_t]. *)
Definition center_offset (w h stride : Z) : Z := u64 (u64 (u64 (h / 2 * stride) + w / 2) * 4).
Definition read_center (ahb : use) (w h : Z) : R pixel :=
  got ← r_do drv AhbDescribe [ahb] [];
  l ← r_do drv AhbLock [ahb] [];
  if (result l =? 0) && negb (value 0 l =? 0) then
    let stride_px := if value 0 got =? 0 then w else value 0 got in
    p ← r_do drv AhbRead [ahb] [center_offset w h stride_px];
    _ ← r_do drv AhbUnlock [ahb] [];
    mret (mk_px (u8 (value 0 p)) (u8 (value 1 p)) (u8 (value 2 p)) (u8 (value 3 p)))
  else r_throw ALR_VK_RENDER_READBACK.

(** The buffer a throwaway target is made of: [None] when it cannot be allocated. *)
Definition throwaway_ahb (dev w h : Z) : M (option Z) :=
  p ← call_drv drv (Do GetDeviceProcAddr [(KDevice, dev)] []);
  if value 0 p =? 0 then mret None
  else a ← call_drv drv (Create KAhb [] [w; h] []); mret (if (result a =? 0) && negb (handle a =? 0) then Some (handle a) else None).
Definition rendered (r : Z + pixel) : Z * pixel := match r with inl e => (e, black) | inr px => (ALR_VK_RENDER_OK, px) end.

Definition clear_cleanup : list slot := [SFb; SRp; SView; SImage; SMem; SAhb].
Definition clear_body (dev queue cmd gfx w h : Z) (clear : list Z) : R pixel :=
  fmt ← image_of_ahb dev w h ALR_VK_RENDER_TARGET_ALLOC;
  _ ← pass_of dev (inl SView) fmt w h;
  _ ← record_commands cmd w h gfx clear false (inl SImage);
  _ ← submit_and_wait dev queue cmd;
  read_center (inl SAhb) w h.
Definition draw_cleanup : list slot := [SVbuf; SVmem; SPipeline; SLayout; SFrag; SVert; SFb; SRp; SView; SImage; SMem; SAhb].
Definition draw_body (dev phys queue cmd gfx w h : Z) (clear : list Z) : R pixel :=
  fmt ← image_of_ahb dev w h ALR_VK_RENDER_TARGET_ALLOC;
  _ ← pass_of dev (inl SView) fmt w h;
  _ ← embedded_shaders dev;
  _ ← triangle_pipeline dev phys (inl SVert) (inl SFrag) w h;
  _ ← record_commands cmd w h gfx clear true (inl SImage);
  _ ← submit_and_wait dev queue cmd;
  read_center (inl SAhb) w h.
(** The lookups both start with. *)
Definition submit_handles (st : real) (vdev vqueue vcmd : Z) : option (RealDevice * Z * Z) :=
  d ← real_dev st !! vdev; q ← real_queue st !! vqueue; c ← real_cmd st !! vcmd; Some (d, q, snd c).
Definition or_64 (z : Z) : Z := if z =? 0 then 64 else z.
Definition on_throwaway (dev w h : Z) (order : list slot) (body : R pixel) : M (Z * pixel) :=
  o ← throwaway_ahb dev w h;
  match o with
  | None => mret (ALR_VK_RENDER_TARGET_ALLOC, black)
  | Some ahb => r ← with_cleanup drv dev order body {[SAhb := ahb]}; mret (rendered r)
  end.
Definition vk_real_clear_submit (st : real) (vdev vqueue vcmd : Z) (rec : VkClearRecord) : M (Z * pixel) :=
  if negb (recorded rec) then mret (ALR_VK_RENDER_NO_CLEAR_RECORDED, black)
  else match submit_handles st vdev vqueue vcmd with
       | None => mret (ALR_VK_RENDER_NO_DEVICE, black)
       | Some (d, queue, cmd) =>
           let w := or_64 (width rec) in let h := or_64 (height rec) in
           on_throwaway (rd_dev d) w h clear_cleanup (clear_body (rd_dev d) queue cmd (gfx_family d) w h (clear rec))
       end.
Definition vk_real_draw_submit (st : real) (vdev vqueue vcmd : Z) (rec : VkClearRecord) : M (Z * pixel) :=
  if negb (recorded rec) then mret (ALR_VK_RENDER_NO_CLEAR_RECORDED, black)
  else match submit_handles st vdev vqueue vcmd with
       | None => mret (ALR_VK_RENDER_NO_DEVICE, black)
       | Some (d, queue, cmd) =>
           let w := or_64 (width rec) in let h := or_64 (height rec) in
           on_throwaway (rd_dev d) w h draw_cleanup (draw_body (rd_dev d) (rd_phys d) queue cmd (gfx_family d) w h (clear rec))
       end.

(** An error as a value. *)
Definition r_try {A} (m : R A) : R (Z + A) := λ x h, let '((r, x'), h') := m x h in ((inr r, x'), h').
(** A present: into an image of a swapchain, with the guest's shaders; the sink, when one is
    installed, is told of the frame before the pixel is read back. *)
Definition present_cleanup : list slot := [SVbuf; SVmem; SPipeline; SLayout; SFb; SRp].
Definition show_frame (sink : bool) (im : SwapImage) (w h serial : Z) : R Z :=
  if sink then a ← r_do drv PresentSink [inr (KAhb, im_ahb im)] [w; h; serial]; mret (if value 0 a =? 0 then 0 else 1) else mret 0.
Definition present_body (sink : bool) (dev phys queue cmd gfx vert frag serial : Z) (sc : RealSwapchain) (im : SwapImage)
    (clear : list Z) : R (Z * (Z + pixel)) :=
  let w := sc_width sc in let h := sc_height sc in
  _ ← pass_of dev (inr (KView, im_view im)) (sc_format sc) w h;
  _ ← triangle_pipeline dev phys (inr (KShader, vert)) (inr (KShader, frag)) w h;
  _ ← record_commands cmd w h gfx clear true (inr (KImage, im_image im));
  _ ← submit_and_wait dev queue cmd;
  shown ← show_frame sink im w h serial;
  r ← r_try (read_center (inr (KAhb, im_ahb im)) w h);
  mret (shown, r).
Definition vk_real_draw_present (sink : bool) (st : real) (vdev vqueue vcmd : Z) (rec : VkClearRecord) : M (Z * pixel * Z * real) :=
  if negb (recorded rec) || negb (is_present_draw rec) then mret (ALR_VK_RENDER_NO_CLEAR_RECORDED, black, 0, st)
  else match submit_handles st vdev vqueue vcmd with
  | None => mret (ALR_VK_RENDER_NO_DEVICE, black, 0, st)
  | Some (d, queue, cmd) =>
      match (sc ← real_swapchain st !! vswapchain rec; im ← sc_images sc !! Z.to_nat (image_index rec); Some (sc, im)) with
      | None => mret (ALR_VK_RENDER_NO_SWAPCHAIN, black, 0, st)
      | Some (sc, im) =>
          match (v ← real_shader st !! vvert rec; f ← real_shader st !! vfrag rec; Some (snd v, snd f)) with
          | None => mret (ALR_VK_RENDER_NO_SHADER, black, 0, st)
          | Some (vert, frag) =>
              r ← with_cleanup drv (rd_dev d) present_cleanup
                    (present_body sink (rd_dev d) (rd_phys d) queue cmd (gfx_family d) vert frag (present_serial st) sc im (clear rec)) ∅;
              let st' := mk_real (real_inst st) (real_phys st) (real_dev st) (real_queue st) (real_pool st) (real_cmd st) (real_shader st)
                           (real_swapchain st) (u64 (present_serial st + 1)) in
              match r with
              | inl e => mret (e, black, 0, st)
              | inr (shown, r) => let '(code, px) := rendered r in mret (code, px, shown, if sink then st' else st)
              end
          end
      end
  end.

(** ** Swapchain images *)

(** [vk_real_alloc_swap_image]: as the throwaway target, but each failure frees by hand what
    was made so far. *)
Definition abandon (dev : Z) (made : list slot) : R Z := _ ← r_cleanup drv dev made; r_throw 1.
Definition or_abandon (dev : Z) (made : list slot) {A} (m : R A) : R A := λ x h,
  let '((r, x'), h') := m x h in
  match r with
  | inr a => ((inr a, x'), h')
  | inl e => let '((_, x''), h'') := r_cleanup drv dev made x' h' in ((inl e, x''), h'')
  end.
Definition swap_image (dev w h : Z) : R Z :=
  a ← or_abandon dev [SAhb] (r_check drv GetAhbProperties [D dev; inl SAhb] [] 1);
  let fmt := if value 0 a =? 0 then VK_FORMAT_R8G8B8A8_UNORM else value 0 a in
  _ ← or_abandon dev [SAhb] (r_create drv SImage [D dev] [fmt; w; h] 1);
  match lowest_bit (value 1 a) with
  | None => abandon dev [SImage; SAhb]
  | Some mem_type =>
      _ ← or_abandon dev [SMem; SImage; SAhb]
            (_ ← r_create drv SMem [D dev; inl SAhb; inl SImage] [value 2 a; mem_type] 1;
             r_check drv BindImageMemory [D dev; inl SImage; inl SMem] [] 1);
      _ ← or_abandon dev [SMem; SImage; SAhb] (r_create drv SView [D dev; inl SImage] [fmt] 1);
      mret fmt
  end.
Definition image_in (x : frame) : SwapImage := mk_image (get x SAhb) (get x SImage) (get x SMem) (get x SView).
Definition image_frame (im : SwapImage) : frame :=
  set_slot SAhb (im_ahb im) (set_slot SImage (im_image im) (set_slot SMem (im_mem im) (set_slot SView (im_view im) ∅))).
Definition vk_real_alloc_swap_image (dev w h : Z) : M (option (Z * SwapImage)) := λ hs,
  let '(o, hs) := throwaway_ahb dev w h hs in
  match o with
  | None => (None, hs)
  | Some ahb =>
      let '((r, x), hs) := swap_image dev w h {[SAhb := ahb]} hs in
      (match r with inl _ => None | inr fmt => Some (fmt, image_in x) end, hs)
  end.
Definition vk_real_free_swap_image (dev : Z) (im : SwapImage) : M () := λ hs,
  let '(_, hs) := r_cleanup drv dev [SView; SImage; SMem; SAhb] (image_frame im) hs in ((), hs).
Fixpoint free_images (dev : Z) (ims : list SwapImage) : M () :=
  match ims with [] => mret () | im :: ims => _ ← vk_real_free_swap_image dev im; free_images dev ims end.
(** The ring of a swapchain: [None] when an image failed, and all are freed. *)
Fixpoint alloc_ring (n : nat) (dev w h fmt : Z) (ims : list SwapImage) : M (option (Z * list SwapImage)) :=
  match n with
  | O => mret (Some (fmt, ims))
  | S n =>
      o ← vk_real_alloc_swap_image dev w h;
      match o with
      | None => _ ← free_images dev ims; mret None
      | Some (got_fmt, im) => alloc_ring n dev w h got_fmt (ims ++ [im])
      end
  end.
End render.

(** ** Every routine leaves the objects as it found them *)

Section balance.
Context (drv : driver) (Hdrv : creates_ok drv) (B : gmultiset obj) (dev : Z) (Hdev : (KDevice, dev) ∈ B).

(** Facts about sets of variables, and the objects a call uses. *)
Ltac above := repeat (first [reflexivity | etrans; [|apply union_subseteq_r]]).
Ltac slots :=
  match goal with
  | H : ?P |- ?P => exact H
  | |- _ ∉ _ => rewrite ?not_elem_of_union, ?not_elem_of_singleton; repeat (apply conj); first [assumption | discriminate]
  | |- _ ∈ _ => repeat (first [assumption | apply elem_of_union_l; apply elem_of_singleton_2; reflexivity | apply elem_of_union_r | apply elem_of_singleton_2; reflexivity])
  | H : ?G ⊆ ?K |- ?F ⊆ ?K => etrans; [|exact H]; above
  | |- _ ⊆ _ => above
  end.
(** The same for sets without variables. *)
Ltac closed := first [assumption | discriminate | cbn [usable]; apply (bool_decide_unpack _); vm_compute; exact I | intros _; split; closed].
Ltac usables := repeat (apply Forall_cons_2; [first [assumption | cbn [usable D]; slots]|]); apply Forall_nil_2.
(** One call of a routine. *)
Ltac spec_call :=
  first [ apply spec_create; [assumption|slots|slots|usables] | apply spec_check; [slots|usables] | apply spec_do; usables
        | apply spec_ret | apply spec_throw; slots ].
Ltac spec_step := eapply spec_bind; [spec_call|intros ?].

Lemma usable_mono F G u : F ⊆ G → usable B F u → usable B G u.
Proof. destruct u; [cbn [usable]; set_solver|done]. Qed.

Definition target_slots : gset slot := {[SView]} ∪ ({[SMem]} ∪ ({[SImage]} ∪ {[SAhb]})).
Lemma spec_image w h err (K : gset slot) : target_slots ⊆ K → spec B {[SAhb]} (image_of_ahb drv dev w h err) target_slots K.
Proof.
  unfold target_slots. intros HK. unfold image_of_ahb. do 2 spec_step.
  destruct (lowest_bit _) as [t|]; [|spec_call]. do 3 spec_step. spec_call.
Qed.
Definition pass_slots (F : gset slot) : gset slot := {[SFb]} ∪ ({[SRp]} ∪ F).
Lemma spec_pass F view fmt w h (K : gset slot) :
  SRp ∉ F → SFb ∉ F → usable B F view → pass_slots F ⊆ K → spec B F (pass_of drv dev view fmt w h) (pass_slots F) K.
Proof.
  unfold pass_slots. intros H1 H2 Hv HK. unfold pass_of. spec_step.
  assert (usable B ({[SRp]} ∪ F) view) by (apply (usable_mono F); [slots|done]). spec_step. spec_call.
Qed.
Definition pipeline_slots (F : gset slot) : gset slot := {[SPipeline]} ∪ ({[SVmem]} ∪ ({[SVbuf]} ∪ ({[SLayout]} ∪ F))).
Lemma spec_vertex_buffer F phys (K : gset slot) :
  SVbuf ∉ F → SVmem ∉ F → {[SVmem]} ∪ ({[SVbuf]} ∪ F) ⊆ K →
  spec B F (vertex_buffer drv dev phys) ({[SVmem]} ∪ ({[SVbuf]} ∪ F)) K.
Proof.
  intros H1 H2 HK. unfold vertex_buffer. do 3 spec_step. destruct (host_visible_from _ _ _) as [t|]; [|spec_call].
  do 3 spec_step. destruct (value 0 _ =? 0); [spec_call|]. do 2 spec_step. spec_call.
Qed.
Lemma spec_triangle F phys vert frag w h (K : gset slot) :
  SPipeline ∉ F → SVmem ∉ F → SVbuf ∉ F → SLayout ∉ F → SRp ∈ F → usable B F vert → usable B F frag → pipeline_slots F ⊆ K →
  spec B F (triangle_pipeline drv dev phys vert frag w h) (pipeline_slots F) K.
Proof.
  unfold pipeline_slots. intros HF1 HF2 HF3 HF4 HR Hv Hf HK. unfold triangle_pipeline. spec_step.
  eapply spec_bind; [apply spec_vertex_buffer; slots|intros ?].
  assert (usable B ({[SVmem]} ∪ ({[SVbuf]} ∪ ({[SLayout]} ∪ F))) vert) by (apply (usable_mono F); [slots|done]).
  assert (usable B ({[SVmem]} ∪ ({[SVbuf]} ∪ ({[SLayout]} ∪ F))) frag) by (apply (usable_mono F); [slots|done]). spec_step. spec_call.
Qed.
Lemma spec_shaders F (K : gset slot) :
  SVert ∉ F → SFrag ∉ F → {[SFrag]} ∪ ({[SVert]} ∪ F) ⊆ K → spec B F (embedded_shaders drv dev) ({[SFrag]} ∪ ({[SVert]} ∪ F)) K.
Proof. intros H1 H2 HK. unfold embedded_shaders. change (_ || _) with false. cbv iota. do 2 spec_step. spec_call. Qed.
Lemma spec_record F cmd w h gfx clear draw image (K : gset slot) :
  SRp ∈ F → SFb ∈ F → (draw = true → SPipeline ∈ F ∧ SVbuf ∈ F) → usable B F image → F ⊆ K →
  spec B F (record_commands drv cmd w h gfx clear draw image) F K.
Proof.
  intros H1 H2 Hd Hi HK. unfold record_commands. do 3 spec_step. eapply spec_bind.
  { destruct draw; [destruct (Hd eq_refl); do 3 spec_step|]; spec_call. }
  intros ?. do 3 spec_step. spec_call.
Qed.
Lemma spec_submit F queue cmd (K : gset slot) : F ⊆ K → spec B F (submit_and_wait drv dev queue cmd) F K.
Proof.
  intros HK x h [H1 H2 H3] HF. unfold submit_and_wait, call_drv.
  pose proof (Hdrv h KFence [(KDevice, dev)] [] []) as Ha. set (a := drv h (Create _ _ _ _)) in *.
  assert (Hd : (KDevice, dev) ∈ live h) by (rewrite H1; multiset_solver).
  assert (Hx : dom x ⊆ K) by (by rewrite HF).
  destruct (result a =? 0) eqn:E.
  - assert (Hn : handle a ≠ 0) by (apply Ha; lia). rewrite (proj2 (Z.eqb_neq (handle a) 0)) by done.
    set (h1 := (_, a) :: h). assert (L1 : live h1 = {[+ (KFence, handle a) +]} ⊎ live h) by (cbn; by rewrite E).
    assert (S1 : sound h1) by (split; [by repeat constructor|done]).
    set (s := drv h1 _). set (h2 := (_, s) :: h1). assert (L2 : live h2 = live h1) by done.
    assert (S2 : sound h2) by (split; [|done]; apply Forall_cons_2; [rewrite L1; multiset_solver|apply Forall_nil_2]).
    destruct (result s =? 0); cbn [negb snd].
    + split; [|done]. split; [|split; [split|split; [|exact S2]]|exact H3]; cbn [live foldr step_live]; fold (live h2).
      * rewrite L2, L1, H1. multiset_solver.
      * apply Forall_cons_2; [|apply Forall_nil_2]. change (live _) with (live h2). rewrite L2, L1. multiset_solver.
      * change (live _) with (live h2). rewrite L2, L1. multiset_solver.
      * repeat (apply Forall_cons_2; [rewrite L2, L1; multiset_solver|]). apply Forall_nil_2.
    + split; [|done]. split; [|split; [split|exact S2]|exact H3]; cbn [live foldr step_live]; fold (live h2).
      * rewrite L2, L1, H1. multiset_solver.
      * apply Forall_cons_2; [|apply Forall_nil_2]. rewrite L2, L1. multiset_solver.
      * rewrite L2, L1. multiset_solver.
  - set (h1 := (_, a) :: h). assert (L1 : live h1 = live h) by (cbn; by rewrite E).
    assert (S1 : sound h1) by (split; [by repeat constructor|done]). cbn [Z.eqb].
    destruct (negb _); cbn [snd]; (split; [|done]); (split; [by rewrite <- H1| |exact H3]); cbn [sound call_ok];
      repeat (apply conj; [apply Forall_nil_2|]); exact S1.
Qed.
Lemma spec_read F ahb w h (K : gset slot) : usable B F ahb → F ⊆ K → spec B F (read_center drv ahb w h) F K.
Proof. intros Hu HK. unfold read_center. do 2 spec_step. destruct (_ && _); [|spec_call]. do 2 spec_step. spec_call. Qed.

Definition clear_slots : gset slot := list_to_set clear_cleanup.
Lemma spec_clear queue cmd gfx w h clear :
  spec B {[SAhb]} (clear_body drv dev queue cmd gfx w h clear) (pass_slots target_slots) clear_slots.
Proof.
  unfold clear_body. eapply spec_bind; [apply spec_image; closed|intros fmt].
  eapply spec_bind; [apply spec_pass; closed|intros ?].
  eapply spec_bind; [apply spec_record; closed|intros ?].
  eapply spec_bind; [apply spec_submit; closed|intros ?]. apply spec_read; closed.
Qed.
Definition draw_slots : gset slot := list_to_set draw_cleanup.
Definition drawn_slots : gset slot := pipeline_slots ({[SFrag]} ∪ ({[SVert]} ∪ pass_slots target_slots)).
Lemma spec_draw phys queue cmd gfx w h clear :
  spec B {[SAhb]} (draw_body drv dev phys queue cmd gfx w h clear) drawn_slots draw_slots.
Proof.
  unfold draw_body. eapply spec_bind; [apply spec_image; closed|intros fmt].
  eapply spec_bind; [apply spec_pass; closed|intros ?].
  eapply spec_bind; [apply spec_shaders; closed|intros ?].
  eapply spec_bind; [apply spec_triangle; closed|intros ?].
  eapply spec_bind; [apply spec_record; closed|intros ?].
  eapply spec_bind; [apply spec_submit; closed|intros ?]. apply spec_read; closed.
Qed.
(** An error that left the variables alone is a value. *)
Lemma spec_try {A} F (m : R A) (K : gset slot) :
  spec B F m F F → (∀ x h, snd (fst (m x h)) = x) → spec B F (r_try m) F K.
Proof.
  intros Hm Hx x h I HF. unfold r_try. specialize (Hm x h I HF). specialize (Hx x h). destruct (m x h) as [[r x'] h'].
  cbn in Hx. subst x'. split; [apply Hm|done].
Qed.
Lemma read_center_frame ahb w h x hs : snd (fst (read_center drv ahb w h x hs)) = x.
Proof. unfold read_center, mbind, R_bind, r_do, call_drv. by destruct (_ && _). Qed.
Lemma spec_show F sink im w h serial K : (KAhb, im_ahb im) ∈ B → spec B F (show_frame drv sink im w h serial) F K.
Proof. intros Him. unfold show_frame. destruct sink; [spec_step|]; spec_call. Qed.
Definition present_slots : gset slot := list_to_set present_cleanup.
Lemma spec_present sink phys queue cmd gfx vert frag serial sc im clear :
  (KShader, vert) ∈ B → (KShader, frag) ∈ B → (KAhb, im_ahb im) ∈ B → (KImage, im_image im) ∈ B → (KView, im_view im) ∈ B →
  spec B ∅ (present_body drv sink dev phys queue cmd gfx vert frag serial sc im clear) (pipeline_slots (pass_slots ∅)) present_slots.
Proof.
  intros Hv Hf Ha Hi Hw. unfold present_body. eapply spec_bind; [apply spec_pass; closed|intros ?].
  eapply spec_bind; [apply spec_triangle; closed|intros ?].
  eapply spec_bind; [apply spec_record; closed|intros ?].
  eapply spec_bind; [apply spec_submit; closed|intros ?].
  eapply spec_bind; [by apply spec_show|intros shown].
  eapply spec_bind; [|intros r; apply spec_ret]. apply spec_try; [apply spec_read; [exact Ha|reflexivity]|apply read_center_frame].
Qed.

(** Every run: the objects are those it started with, and no call was bad. *)
Definition balanced {A} (m : M A) (h : history) : Prop := let '(_, h') := m h in live h' = live h ∧ sound h'.
Definition one_ahb (o : option Z) : frame := match o with Some a => {[SAhb := a]} | None => ∅ end.
Lemma throwaway_inv w h hs :
  live hs = B → sound hs → let '(o, hs') := throwaway_ahb drv dev w h hs in inv B (one_ahb o) hs'.
Proof.
  intros HB Hs. unfold throwaway_ahb, mbind, M_bind, mret, M_ret, call_drv. set (p := drv hs _). set (h1 := (_, p) :: hs).
  assert (H1 : live h1 = B ∧ sound h1).
  { split; [done|]. split; [|done]. apply Forall_cons_2; [by rewrite HB|apply Forall_nil_2]. }
  destruct (value 0 p =? 0); [apply inv_empty; apply H1|]. pose proof (Hdrv h1 KAhb [] [w; h] []) as Ha. set (a := drv h1 _) in *.
  destruct (result a =? 0) eqn:E; cbn [andb].
  - assert (handle a ≠ 0) by (apply Ha; lia). rewrite (proj2 (Z.eqb_neq _ _)) by done. cbn [negb one_ahb].
    split; [|split; [apply Forall_nil_2|apply H1]|].
    + cbn [live foldr step_live]. rewrite E. fold (live h1). rewrite (proj1 H1). rewrite owned_singleton. cbn [kind_of]. multiset_solver.
    + intros s v [_ <-]%lookup_singleton_Some. done.
  - apply inv_empty; [|by split; [apply Forall_nil_2|apply H1]]. cbn [live foldr step_live]. rewrite E. apply H1.
Qed.
Lemma on_throwaway_balanced {G : gset slot} w h order body hs :
  live hs = B → sound hs → spec B {[SAhb]} body G (list_to_set order) → G ⊆ list_to_set order →
  balanced (on_throwaway drv dev w h order body) hs.
Proof.
  intros HB Hs Hb HG. unfold balanced, on_throwaway, mbind, M_bind. pose proof (throwaway_inv w h hs HB Hs) as H1.
  destruct (throwaway_ahb drv dev w h hs) as [[ahb|] h1].
  - pose proof (with_cleanup_balanced drv B {[SAhb]} body G (list_to_set order) dev order {[SAhb := ahb]} h1 Hdev Hb HG (reflexivity _) H1) as H.
    destruct (with_cleanup _ _ _ _ _ _) as [r h2]. rewrite HB. apply H. apply dom_singleton_L.
  - destruct H1 as [H1 H2 _]. cbn [one_ahb] in H1. rewrite owned_empty, (right_id ∅ _) in H1. by rewrite HB.
Qed.

(** Swapchain images. *)
Definition image_objs (im : SwapImage) : gmultiset obj := owned (image_frame im).
Fixpoint images_objs (ims : list SwapImage) : gmultiset obj := match ims with [] => ∅ | im :: ims => image_objs im ⊎ images_objs ims end.
(** An image with all its objects. *)
Definition whole (im : SwapImage) : Prop := im_ahb im ≠ 0 ∧ im_image im ≠ 0 ∧ im_mem im ≠ 0 ∧ im_view im ≠ 0.
Lemma spec_or_abandon {A} F (m : R A) G made :
  spec B F m G (list_to_set made) → spec B F (or_abandon drv dev made m) G ∅.
Proof.
  intros Hm x h I HF. unfold or_abandon. specialize (Hm x h I HF). destruct (m x h) as [[[e|a] x'] h']; [|exact Hm].
  destruct Hm as [I' Hx]. pose proof (cleanup_all drv B dev made x' h' Hdev I' Hx) as H.
  destruct (r_cleanup _ _ _ _ _) as [[r x''] h'']. destruct H as [H ->]. split; [done|]. by rewrite dom_empty_L.
Qed.
Lemma spec_abandon F made G : F ⊆ list_to_set made → spec B F (abandon drv dev made) G ∅.
Proof.
  intros HF x h I Hx. unfold abandon, mbind, R_bind, r_throw. pose proof (cleanup_all drv B dev made x h Hdev I ltac:(by rewrite Hx)) as H.
  destruct (r_cleanup _ _ _ _ _) as [[[e|r] x''] h'']; destruct H as [H ->]; (split; [done|]); by rewrite dom_empty_L.
Qed.
Lemma spec_swap_image w h : spec B {[SAhb]} (swap_image drv dev w h) target_slots ∅.
Proof.
  unfold swap_image. eapply spec_bind; [apply spec_or_abandon, spec_check; [closed|usables]|intros a].
  eapply spec_bind; [apply spec_or_abandon, spec_create; [assumption|closed|closed|usables]|intros ?].
  destruct (lowest_bit _); [|apply spec_abandon; closed].
  eapply spec_bind; [apply spec_or_abandon|intros ?].
  { eapply spec_bind; [apply spec_create; [assumption|closed|closed|usables]|intros ?]. apply spec_check; [closed|usables]. }
  eapply spec_bind; [apply spec_or_abandon, spec_create; [assumption|closed|closed|usables]|intros ?]. apply spec_ret.
Qed.
Lemma image_in_frame (x : frame) :
  dom x = target_slots → (∀ s v, x !! s = Some v → v ≠ 0) → image_frame (image_in x) = x.
Proof.
  intros Hd Hn. assert (Hs : ∀ s, s ∈ target_slots → ∃ v, x !! s = Some v ∧ v ≠ 0).
  { intros s Hin. rewrite <- Hd in Hin. apply elem_of_dom in Hin as [v Hv]. eauto. }
  destruct (Hs SAhb ltac:(closed)) as (a & Ha & ?). destruct (Hs SImage ltac:(closed)) as (b & Hb & ?).
  destruct (Hs SMem ltac:(closed)) as (c & Hc & ?). destruct (Hs SView ltac:(closed)) as (d & He & ?).
  unfold image_frame, image_in, set_slot, get. cbn [im_ahb im_image im_mem im_view]. rewrite Ha, Hb, Hc, He. cbn [default].
  unfold id. rewrite !(proj2 (Z.eqb_neq _ _)) by done. apply map_eq. intros s.
  assert (Ho : s ∉ target_slots → x !! s = None) by (intros Hin; apply not_elem_of_dom; by rewrite Hd).
  destruct s; simplify_map_eq; try done; symmetry; apply Ho; closed.
Qed.
Lemma image_in_whole (x : frame) :
  dom x = target_slots → (∀ s v, x !! s = Some v → v ≠ 0) → whole (image_in x).
Proof.
  intros Hd Hn. assert (Hs : ∀ s, s ∈ target_slots → get x s ≠ 0).
  { intros s Hin. rewrite <- Hd in Hin. apply elem_of_dom in Hin as [v Hv]. unfold get. rewrite Hv. by apply (Hn s). }
  split_and!; apply Hs; closed.
Qed.
Lemma image_frame_inv im h : live h = B ⊎ image_objs im → sound h → inv B (image_frame im) h.
Proof.
  intros H1 H2. split; [done..|]. unfold image_frame. intros s v.
  assert (Hset : ∀ t w (x : frame), (∀ v, x !! s = Some v → v ≠ 0) → ∀ v, set_slot t w x !! s = Some v → v ≠ 0).
  { intros t w x Hx u. unfold set_slot. destruct (w =? 0) eqn:E; [intros [_ H]%lookup_delete_Some; auto|].
    intros [[_ <-]|[_ H]]%lookup_insert_Some; [lia|auto]. }
  revert v. do 4 apply Hset. intros v. by rewrite lookup_empty.
Qed.
Lemma free_swap_image im h : live h = B ⊎ image_objs im → sound h → let '(_, h') := vk_real_free_swap_image drv dev im h in live h' = B ∧ sound h'.
Proof.
  intros H1 H2. unfold vk_real_free_swap_image.
  pose proof (cleanup_all drv B dev [SView; SImage; SMem; SAhb] (image_frame im) h Hdev (image_frame_inv im h H1 H2)) as H.
  destruct (r_cleanup _ _ _ _ _) as [[r x] h']. destruct H as [[H3 H4 _] _].
  - unfold image_frame, set_slot. intros s. repeat case_match; rewrite ?dom_delete_L, ?dom_insert_L, ?dom_empty_L; set_solver.
  - split; [|done]. by rewrite H3, owned_empty, (right_id ∅ _).
Qed.
Lemma alloc_swap_image w h hs :
  live hs = B → sound hs →
  let '(o, hs') := vk_real_alloc_swap_image drv dev w h hs in
  live hs' = B ⊎ match o with Some (_, im) => image_objs im | None => ∅ end ∧ sound hs'
  ∧ match o with Some (_, im) => whole im | None => True end.
Proof.
  intros HB Hs. unfold vk_real_alloc_swap_image. pose proof (throwaway_inv w h hs HB Hs) as H1.
  destruct (throwaway_ahb drv dev w h hs) as [[ahb|] h1]; cbn [one_ahb] in H1.
  - pose proof (spec_swap_image w h _ h1 H1 (dom_singleton_L _ _)) as H2.
    destruct (swap_image _ _ _ _ _ _) as [[[e|fmt] x] h2]; destruct H2 as [[H2 H3 H4] H5]; (split; [|split; [done|first [done|by apply image_in_whole]]]); rewrite H2; f_equal.
    + assert (x = ∅) as -> by (apply dom_empty_inv_L; set_solver). apply owned_empty.
    + unfold image_objs. by rewrite image_in_frame.
  - destruct H1 as [H1 H2 _]. rewrite owned_empty in H1. by split_and!.
Qed.
End balance.

Lemma free_images_live drv dev B ims h :
  creates_ok drv → (KDevice, dev) ∈ B → live h = B ⊎ images_objs ims → sound h →
  let '(_, h') := free_images drv dev ims h in live h' = B ∧ sound h'.
Proof.
  intros Hdrv Hd. revert h. induction ims as [|im ims IH]; intros h H1 H2; cbn [free_images images_objs] in *.
  - by rewrite (right_id ∅ _) in H1.
  - unfold mbind, M_bind. pose proof (free_swap_image drv Hdrv (B ⊎ images_objs ims) dev ltac:(multiset_solver) im h ltac:(rewrite H1; multiset_solver) H2) as H.
    destruct (vk_real_free_swap_image _ _ _ _) as [u h1]. destruct H as [H3 H4]. by apply IH.
Qed.
Lemma images_objs_snoc ims im : images_objs (ims ++ [im]) = images_objs ims ⊎ image_objs im.
Proof. induction ims as [|i ims IH]; cbn [app images_objs]; [multiset_solver|]. rewrite IH. multiset_solver. Qed.
(** The whole ring or nothing. *)
Lemma alloc_ring_live drv dev B n w h fmt ims hs :
  creates_ok drv → (KDevice, dev) ∈ B → live hs = B ⊎ images_objs ims → sound hs → Forall whole ims →
  let '(o, hs') := alloc_ring drv n dev w h fmt ims hs in
  live hs' = B ⊎ match o with Some (_, ims') => images_objs ims' | None => ∅ end ∧ sound hs'
  ∧ match o with Some (_, ims') => length ims' = (n + length ims)%nat ∧ Forall whole ims' | None => True end.
Proof.
  intros Hdrv Hd. revert fmt ims hs. induction n as [|n IH]; intros fmt ims hs H1 H2 Hw; cbn [alloc_ring].
  - split_and!; done.
  - unfold mbind at 1, M_bind at 1.
    pose proof (alloc_swap_image drv Hdrv (B ⊎ images_objs ims) dev ltac:(multiset_solver) w h hs H1 H2) as H.
    destruct (vk_real_alloc_swap_image _ _ _ _ _) as [[[f im]|] h1]; destruct H as (H3 & H4 & H7).
    + specialize (IH f (ims ++ [im]) h1). rewrite images_objs_snoc, length_app in IH. cbn [length] in IH.
      specialize (IH ltac:(rewrite H3; multiset_solver) H4 ltac:(apply Forall_app; split; [exact Hw|apply Forall_singleton; exact H7])). destruct (alloc_ring _ _ _ _ _ _ _ _) as [[[f' ims']|] h2]; [|exact IH].
      destruct IH as (? & ? & ? & ?). split_and!; [done..|lia|done].
    + unfold mbind, M_bind. pose proof (free_images_live drv dev B ims h1 Hdrv Hd) as H5.
      rewrite (right_id ∅ _) in H3. specialize (H5 H3 H4). destruct (free_images _ _ _ _) as [u h2]. destruct H5 as [H5 H6].
      split_and!; [by rewrite (right_id ∅ _)|done|done].
Qed.

(** What the tables promise: their devices, modules and images are live. *)
Definition tables_live (st : real) (h : history) : Prop :=
  (∀ v d, real_dev st !! v = Some d → (KDevice, rd_dev d) ∈ live h) ∧
  (∀ v p, real_shader st !! v = Some p → (KShader, snd p) ∈ live h) ∧
  (∀ v sc im, real_swapchain st !! v = Some sc → im ∈ sc_images sc →
     (KAhb, im_ahb im) ∈ live h ∧ (KImage, im_image im) ∈ live h ∧ (KView, im_view im) ∈ live h).

Lemma submit_handles_live st h vdev vqueue vcmd d q c :
  tables_live st h → submit_handles st vdev vqueue vcmd = Some (d, q, c) → (KDevice, rd_dev d) ∈ live h.
Proof.
  intros (H & _ & _). unfold submit_handles. destruct (real_dev st !! vdev) as [d'|] eqn:E; [|done]. cbn.
  destruct (real_queue st !! vqueue); [|done]. cbn. destruct (real_cmd st !! vcmd); [|done]. cbn. intros [= -> _ _]. by eapply H.
Qed.
Lemma ret_balanced {A} (a : A) h : sound h → balanced (mret a) h.
Proof. done. Qed.

Lemma renders_balanced drv sink st vdev vqueue vcmd rec h :
  creates_ok drv → sound h → tables_live st h →
  balanced (vk_real_clear_submit drv st vdev vqueue vcmd rec) h ∧
  balanced (vk_real_draw_submit drv st vdev vqueue vcmd rec) h ∧
  balanced (vk_real_draw_present drv sink st vdev vqueue vcmd rec) h.
Proof.
  intros Hdrv Hs Ht. unfold vk_real_clear_submit, vk_real_draw_submit, vk_real_draw_present.
  destruct (recorded rec); cbn [negb orb]; [|by split_and!; apply ret_balanced].
  destruct (submit_handles st vdev vqueue vcmd) as [[[d q] c]|] eqn:E; [|by split_and!; [..|destruct (negb _)]; apply ret_balanced].
  pose proof (submit_handles_live _ _ _ _ _ _ _ _ Ht E) as Hd. split_and!.
  - eapply on_throwaway_balanced; [done|exact Hd|done|done|by apply spec_clear|apply (bool_decide_unpack _); by vm_compute].
  - eapply on_throwaway_balanced; [done|exact Hd|done|done|by apply spec_draw|apply (bool_decide_unpack _); by vm_compute].
  - destruct (negb (is_present_draw rec)); [by apply ret_balanced|]. destruct Ht as (_ & Hsh & Hsw).
    destruct (real_swapchain st !! vswapchain rec) as [sc|] eqn:E1; [|by apply ret_balanced]. cbn [mbind option_bind].
    destruct (sc_images sc !! _) as [im|] eqn:E2; [|by apply ret_balanced]. cbn [mbind option_bind].
    destruct (real_shader st !! vvert rec) as [v|] eqn:E3; [|by apply ret_balanced]. cbn [mbind option_bind].
    destruct (real_shader st !! vfrag rec) as [f|] eqn:E4; [|by apply ret_balanced]. cbn [mbind option_bind].
    destruct (Hsw _ _ _ E1 (list_elem_of_lookup_2 _ _ _ E2)) as (Ha & Hi & Hv).
    unfold balanced, mbind, M_bind.
    pose proof (with_cleanup_balanced drv (live h) ∅ _ _ _ (rd_dev d) present_cleanup ∅ h Hd
      (spec_present drv Hdrv (live h) (rd_dev d) Hd sink (rd_phys d) q c (gfx_family d) (snd v) (snd f) (present_serial st) sc im (clear rec)
        (Hsh _ _ E3) (Hsh _ _ E4) Ha Hi Hv) ltac:(apply (bool_decide_unpack _); by vm_compute) (reflexivity _)
      (inv_empty _ _ eq_refl Hs) dom_empty_L) as H.
    destruct (with_cleanup _ _ _ _ _ _) as [[e|[shown r]] h']; [exact H|]. by destruct (rendered r).
Qed.

(** The pixel read back lies in the buffer: a stride of at least the width, and a size below
    2^64. *)
Lemma center_in_bounds w h stride :
  0 < w ≤ stride → 0 < h → stride * h * 4 < 2 ^ 64 → 0 ≤ center_offset w h stride ∧ center_offset w h stride + 4 ≤ stride * h * 4.
Proof.
  intros Hw Hh Hb. unfold center_offset.
  pose proof (Z.div_mod h 2 ltac:(lia)). pose proof (Z.mod_pos_bound h 2 ltac:(lia)).
  pose proof (Z.div_mod w 2 ltac:(lia)). pose proof (Z.mod_pos_bound w 2 ltac:(lia)).
  assert (0 ≤ h / 2 * stride ≤ (h - 1) * stride) by (assert (0 ≤ h / 2 ≤ h - 1) by lia; nia).
  assert (0 ≤ w / 2 ≤ w - 1) by lia.
  assert ((h - 1) * stride = stride * h - stride) by ring. set (r := h / 2 * stride) in *.
  rewrite (u64_small r) by lia. rewrite (u64_small (r + w / 2)) by lia. rewrite u64_small by lia. lia.
Qed.


(** ** An instance *)

(** A driver on which everything succeeds: a new handle for each object. *)
Definition some_driver : driver := λ h c,
  mk_ans 0 match c with
           | Create _ _ _ _ => [Z.of_nat (length h) + 1]
           | Destroy _ _ _ => []
           | Do f _ _ =>
               match f with
               | EnumeratePhysicalDevices => [1; 7] | GetAhbProperties => [37; 1; 16384] | GetDeviceProcAddr | GetInstanceProcAddr => [1]
               | GetDeviceQueue => [Z.of_nat (length h) + 500] | AllocateCommandBuffers => [600] | GetBufferMemoryRequirements => [1; 24]
               | GetPhysicalDeviceMemoryProperties => [6] | MapMemory => [1] | AhbDescribe => [64] | AhbLock => [1]
               | AhbRead => [242; 25; 204; 255] | PresentSink => [1] | _ => []
               end
           end.
Lemma some_driver_creates : creates_ok some_driver.
Proof. intros h k us ps d. unfold handle, value. cbn. split; [lia|done]. Qed.
(** A device with a swapchain of one image and two shader modules, and a draw recorded for it. *)
Definition some_image : SwapImage := mk_image 4 5 6 7.
Definition some_calls : history :=
  foldl (λ h c, (c, some_driver h c) :: h) []
    [Create KDevice [] [7] []; Create KShader [(KDevice, 1)] [] []; Create KShader [(KDevice, 1)] [] []; Create KAhb [] [64; 64] [];
     Create KImage [(KDevice, 1)] [] []; Create KMemory [(KDevice, 1)] [] []; Create KView [(KDevice, 1)] [] []].
Definition some_tables : real :=
  mk_real ∅ ∅ {[2 := mk_device 7 1 0 {[0 := 1]}]} {[3 := 500]} ∅ {[5 := (2, 600)]} (<[8 := (2, 2)]> {[9 := (2, 3)]})
    {[6 := mk_swapchain 2 64 64 37 0 [some_image]]} 0.
Definition some_record : VkClearRecord := mk_clear true true 64 64 [0; 0; 0; 0] true 6 0 8 9.
Lemma some_tables_live : tables_live some_tables some_calls.
Proof.
  split; [|split]; cbn [some_tables real_dev real_shader real_swapchain].
  - intros v d [_ <-]%lookup_singleton_Some. apply (bool_decide_unpack _). by vm_compute.
  - intros v m [[_ <-]|[_ [_ <-]%lookup_singleton_Some]]%lookup_insert_Some; apply (bool_decide_unpack _); by vm_compute.
  - intros v sc im [_ <-]%lookup_singleton_Some ->%list_elem_of_singleton. split_and!; apply (bool_decide_unpack _); by vm_compute.
Qed.
(** The present shows the frame and reads the pixel back; when the driver
    refuses the pipeline the present stops there. *)
Example present_runs :
  let '((code, px, shown, st), h) := vk_real_draw_present some_driver true some_tables 2 3 5 some_record some_calls in
  code = ALR_VK_RENDER_OK ∧ px = mk_px 242 25 204 255 ∧ shown = 1 ∧ present_serial st = 1.
Proof. by vm_compute. Qed.
Example present_stops :
  let drv : driver := λ h c, match c with Create KPipeline _ _ _ => mk_ans (-3) [0] | _ => some_driver h c end in
  let '((code, px, shown, st), h) := vk_real_draw_present drv true some_tables 2 3 5 some_record some_calls in
  code = ALR_VK_RENDER_PIPELINE ∧ px = black ∧ shown = 0 ∧ bool_decide (live h = live some_calls) = true.
Proof. by vm_compute. Qed.
(** On a driver that leaves something else in the handle when it fails, the cleanup destroys it. *)
Example failed_handle_destroyed :
  let drv : driver := λ h c, match c with Create KPipeline _ _ _ => mk_ans (-3) [77] | _ => some_driver h c end in
  let '(_, h) := vk_real_draw_present drv true some_tables 2 3 5 some_record some_calls in
  existsb (λ e, match fst e with Destroy KPipeline _ x => x =? 77 | _ => false end) h = true.
Proof. by vm_compute. Qed.
