(* ===== verification/VkHost.v ===== *)
(** * The host functions behind the Vulkan stream

    The [vk_real_*] functions of [alr_gpu_vk_decode.hpp] that [decode_vk_batch] calls on a
    device: they keep the tables from virtual ids to handles, build what the driver is asked
    for from the guest's request, and destroy what a virtual device owned.  They form the
    [VkProvider] of [VkBatch]; its context is the tables and the history of driver calls.

    The tables of wire mode that some of these functions write as well ([instances],
    [shaders], [swapchains]) are read by no function; [VkBatch] keeps them.  Log messages are
    not modelled. *)

From stdpp Require Import gmultiset.
From S2P Require Import Prelude Bytes Wire VkArena VkCmdLog VkSubmit VkBatch VkDriver VkRender.
Open Scope Z_scope.

(** ** What the driver reports *)

(** A physical device: its answers to the [vkGetPhysicalDevice*] queries, which do not change.
    [p_extensions] is [None] when the enumeration fails; the last two are the features read
    through [vkGetPhysicalDeviceFeatures2]. *)
Record physical := mk_physical {
  p_api : Z; p_driver : Z; p_vendor : Z; p_device : Z; p_type : Z; p_name : bytes; p_limits : bytes; p_features : bytes; p_memory : bytes;
  p_families : list (Z * Z); p_extensions : option (list bytes); p_image_format : list Z → VkImageFmtProps; p_format : Z → VkFmtProps;
  p_provoking_last : bool; p_transform_feedback : bool }.

Definition VK_ERROR_INITIALIZATION_FAILED : Z := -3.
Definition VK_API_VERSION_1_1 : Z := 4198400.
Definition VK_PHYSICAL_DEVICE_TYPE_CPU : Z := 4.
Definition UINT32_MAX : Z := 2 ^ 32 - 1.
Definition kAlrVkAhbExt : bytes := "VK_ANDROID_external_memory_android_hardware_buffer".
Definition kForeignExt : bytes := "VK_EXT_queue_family_foreign".

Definition lower (c : byte) : byte := let z := byte_val c in if (65 <=? z) && (z <=? 90) then byte_of (z + 32) else c.
Definition vk_decode_name_software (name : bytes) : bool :=
  let n := lower <$> name in
  has_sub "swiftshader" n || has_sub "llvmpipe" n || has_sub "lavapipe" n || has_sub "softpipe" n || has_sub "software" n.
(** [vk_real_dev_ext_present]: by [strcmp]. *)
Definition vk_real_dev_ext_present (p : physical) (want : bytes) : bool :=
  match p_extensions p with None => false | Some l => bool_decide (c_str want ∈ l) end.
Definition graphics (f : Z * Z) : bool := Z.testbit (fst f) 0.
Fixpoint find_graphics (i : Z) (fs : list (Z * Z)) : option Z :=
  match fs with [] => None | f :: fs => if graphics f then Some i else find_graphics (i + 1) fs end.
Definition vk_real_gfx_family (p : physical) : option Z := find_graphics 0 (p_families p).

(** The entries of a [std::map] in the order of its keys. *)
Definition key_le {A} : relation (Z * A) := λ p q, fst p ≤ fst q.
#[export] Instance key_le_dec {A} : RelDecision (@key_le A).
Proof. intros p q. apply Z_le_dec. Defined.
Definition in_order {A} (m : gmap Z A) : list (Z * A) := merge_sort key_le (map_to_list m).

(** ** The request of a device *)

(** [vk_passthrough_feature_stype_allowed] *)
Definition allowed_stypes : list Z := [
  1000059000; 49; 51; 53; 1000156004; 1000053001; 1000063000; 1000083000; 1000177000; 1000120000; 1000145001; 1000161001; 1000207000; 1000257000;
  1000253000; 1000221000; 1000261000; 1000108000; 1000241000; 1000082000; 1000044003; 1000314007; 1000267000; 1000377000; 1000287002; 1000265000;
  1000259000; 1000254000; 1000028000; 1000190002].
Definition vk_passthrough_feature_stype_allowed (s_type : Z) : bool := bool_decide (s_type ∈ allowed_stypes).

(** The queue list: what is requested of the driver, the counts that are remembered, and the
    first graphics family. *)
Record queue_request := mk_queues { qci : list (Z * Z); created_counts : gmap Z Z; first_gfx : Z }.
Definition add_queue (fams : list (Z * Z)) (s : queue_request) (fc : Z * Z) : queue_request :=
  let nqf := count fams in
  let fam := fst fc in let want := if snd fc =? 0 then 1 else snd fc in
  if (0 <? nqf) && (nqf <=? fam) then s
  else
    let f := default (0, 0) (fams !! Z.to_nat fam) in
    let avail := if (0 <? nqf) && (fam <? nqf) then snd f else want in
    let cnt := if want <? avail then want else avail in
    let cnt := if cnt =? 0 then 1 else cnt in
    let cnt := if 64 <? cnt then 64 else cnt in
    mk_queues (qci s ++ [(fam, cnt)]) (<[fam := cnt]> (created_counts s))
      (if (first_gfx s =? UINT32_MAX) && ((nqf =? 0) || graphics f) then fam else first_gfx s).
Definition queues_of (p : physical) (qcis : list (Z * Z)) : option queue_request :=
  let s := foldl (add_queue (p_families p)) (mk_queues [] ∅ UINT32_MAX) qcis in
  match qci s with
  | [] => fam ← vk_real_gfx_family p; Some (mk_queues [(fam, 1)] {[fam := 1]} fam)
  | (fam, _) :: _ => Some (if first_gfx s =? UINT32_MAX then mk_queues (qci s) (created_counts s) fam else s)
  end.
(** The extensions: the guest's that the driver has, then those of the present path. *)
Definition add_guest_ext (p : physical) (l : list bytes) (e : bytes) : list bytes :=
  match e with
  | [] => l
  | _ => if bool_decide (e = str "VK_KHR_swapchain") then l
         else if vk_real_dev_ext_present p e then (if bool_decide (e ∈ l) then l else l ++ [c_str e])
         else l
  end.
Definition add_ext_if_present (p : physical) (name : bytes) (l : list bytes) : list bytes :=
  if vk_real_dev_ext_present p name then (if bool_decide (name ∈ l) then l else l ++ [name]) else l.
Definition extensions_of (p : physical) (exts : list bytes) : list bytes :=
  add_ext_if_present p kForeignExt (add_ext_if_present p kAlrVkAhbExt (foldl (add_guest_ext p) [] exts)).
(** The feature chain: the allowed structures in their order; the link in bytes 8 to 15 of each
    is rewritten, and left out here. *)
Definition feature_struct (f : Z * bytes) : option bytes :=
  if vk_passthrough_feature_stype_allowed (fst f) && (16 <=? count (snd f)) then Some (take 8 (snd f) ++ drop 16 (snd f)) else None.
Definition chain_of (feats : list (Z * bytes)) : list bytes := omap feature_struct feats.

(** ** The tables *)

Definition no_real : real := mk_real ∅ ∅ ∅ ∅ ∅ ∅ ∅ ∅ 0.
Definition with_inst (m : gmap Z Z) (s : real) := mk_real m (real_phys s) (real_dev s) (real_queue s) (real_pool s) (real_cmd s) (real_shader s) (real_swapchain s) (present_serial s).
Definition with_phys (m : gmap Z Z) (s : real) := mk_real (real_inst s) m (real_dev s) (real_queue s) (real_pool s) (real_cmd s) (real_shader s) (real_swapchain s) (present_serial s).
Definition with_dev (m : gmap Z RealDevice) (s : real) := mk_real (real_inst s) (real_phys s) m (real_queue s) (real_pool s) (real_cmd s) (real_shader s) (real_swapchain s) (present_serial s).
Definition with_queue (m : gmap Z Z) (s : real) := mk_real (real_inst s) (real_phys s) (real_dev s) m (real_pool s) (real_cmd s) (real_shader s) (real_swapchain s) (present_serial s).
Definition with_pool (m : gmap Z (Z * Z)) (s : real) := mk_real (real_inst s) (real_phys s) (real_dev s) (real_queue s) m (real_cmd s) (real_shader s) (real_swapchain s) (present_serial s).
Definition with_cmd (m : gmap Z (Z * Z)) (s : real) := mk_real (real_inst s) (real_phys s) (real_dev s) (real_queue s) (real_pool s) m (real_shader s) (real_swapchain s) (present_serial s).
Definition with_shader (m : gmap Z (Z * Z)) (s : real) := mk_real (real_inst s) (real_phys s) (real_dev s) (real_queue s) (real_pool s) (real_cmd s) m (real_swapchain s) (present_serial s).
Definition with_swapchain (m : gmap Z RealSwapchain) (s : real) := mk_real (real_inst s) (real_phys s) (real_dev s) (real_queue s) (real_pool s) (real_cmd s) (real_shader s) m (present_serial s).

Section host.
Context (drv : driver) (phys : Z → physical) (sink : bool).

(** A call whose only effect is to be made. *)
Definition note (f : fn) (us : list obj) (ps : list Z) : M answer := call_drv drv (Do f us ps).
Definition created (k : kind) (us : list obj) (ps : list Z) (data : list (list bytes)) : M (Z * Z) :=
  a ← call_drv drv (Create k us ps data); mret (result a, handle a).

Definition vk_real_create_instance (s : real) (vinst app_api : Z) : M (Z * real) :=
  r ← created KInstance [] [if app_api =? 0 then VK_API_VERSION_1_1 else app_api] [];
  mret (fst r, if fst r =? 0 then with_inst (<[vinst := snd r]> (real_inst s)) s else s).
(** The ids [base], [base + 1], ... of the devices of the second call. *)
Fixpoint number_from (base : Z) (l : list Z) (m : gmap Z Z) : gmap Z Z :=
  match l with [] => m | d :: l => number_from (u32 (base + 1)) l (<[base := d]> m) end.
Definition vk_real_enumerate (s : real) (vinst vphys_base : Z) : M (Z * real) :=
  match real_inst s !! vinst with
  | None => mret (0, s)
  | Some inst =>
      a ← note EnumeratePhysicalDevices [(KInstance, inst)] [];
      if value 0 a =? 0 then mret (0, s)
      else
        b ← note EnumeratePhysicalDevices [(KInstance, inst)] [value 0 a];
        let devs := (λ i, value (S i) b) <$> seq 0 (Z.to_nat (value 0 b)) in
        mret (value 0 b, with_phys (number_from vphys_base devs (real_phys s)) s)
  end.
(** The feature flags of [vk_real_props]: [vkGetPhysicalDeviceFeatures2] is looked up on the
    first instance of the table, then under its older name. *)
Definition features2_known (s : real) : M bool :=
  match in_order (real_inst s) with
  | [] => mret false
  | (_, inst) :: _ =>
      a ← note GetInstanceProcAddr [(KInstance, inst)] [0];
      if value 0 a =? 0 then b ← note GetInstanceProcAddr [(KInstance, inst)] [1]; mret (negb (value 0 b =? 0)) else mret true
  end.
Definition capability (s : real) (p : physical) (ext : bytes) (bit : Z) (feature : bool) : M Z :=
  if vk_real_dev_ext_present p ext then
    known ← features2_known s; mret (if (known : bool) && feature then bit + 2 * bit else bit)
  else mret 0.
Definition vk_real_props (s : real) (vphys : Z) (out : VkPhysProps) : M (bool * VkPhysProps) :=
  match real_phys s !! vphys with
  | None => mret (false, out)
  | Some d =>
      _ ← note QueryPhysicalDevice [] [d];
      let p := phys d in
      pv ← capability s p "VK_EXT_provoking_vertex" 1 (p_provoking_last p);
      xfb ← capability s p "VK_EXT_transform_feedback" 4 (p_transform_feedback p);
      mret (true, mk_props (p_api p) (p_driver p) (p_vendor p) (p_device p) (p_type p) (p_name p)
        ((p_type p =? VK_PHYSICAL_DEVICE_TYPE_CPU) || vk_decode_name_software (p_name p))
        (queue_families out ++ p_families p) (p_features p) (p_limits p) (p_memory p) (pv + xfb))
  end.
Definition vk_real_image_format_props (s : real) (vphys : Z) (l : list Z) (out : VkImageFmtProps) : M VkImageFmtProps :=
  match real_phys s !! vphys with
  | None => mret out
  | Some d =>
      _ ← note QueryPhysicalDevice [] (d :: l);
      let p := p_image_format (phys d) l in
      mret (if vk_result p =? 0 then p
            else mk_ifp (vk_result p) (max_extent_w out) (max_extent_h out) (max_extent_d out) (max_mip_levels out) (max_array_layers out)
                   (sample_counts out) (max_resource_size out))
  end.
Definition vk_real_format_props (s : real) (vphys format : Z) (out : VkFmtProps) : M VkFmtProps :=
  match real_phys s !! vphys with
  | None => mret out
  | Some d => _ ← note QueryPhysicalDevice [] [d; format]; mret (p_format (phys d) format)
  end.
Definition vk_real_destroy_instance (s : real) (vinst : Z) : M real :=
  match real_inst s !! vinst with
  | None => mret s
  | Some inst => _ ← call_drv drv (Destroy KInstance [] inst); mret (with_inst (delete vinst (real_inst s)) s)
  end.

(** ** Devices and queues *)

Definition pairs (l : list (Z * Z)) : list Z := concat ((λ p, [fst p; snd p]) <$> l).
Definition vk_real_create_device (s : real) (vphys vdev : Z) : M (Z * Z * real) :=
  match (d ← real_phys s !! vphys; f ← vk_real_gfx_family (phys d); Some (d, f)) with
  | None => mret (VK_ERROR_INITIALIZATION_FAILED, 0, s)
  | Some (d, family) =>
      let exts := (if vk_real_dev_ext_present (phys d) kAlrVkAhbExt then [kAlrVkAhbExt] else [])
                  ++ (if vk_real_dev_ext_present (phys d) kForeignExt then [kForeignExt] else []) in
      r ← created KDevice [] (d :: pairs [(family, 1)]) [exts; []];
      mret (if fst r =? 0 then (0, family, with_dev (<[vdev := mk_device d (snd r) family {[family := 1]}]> (real_dev s)) s) else (fst r, 0, s))
  end.
Definition vk_real_get_queue (s : real) (vdev queue_index vqueue : Z) : M real :=
  match real_dev s !! vdev with
  | None => mret s
  | Some d =>
      a ← note GetDeviceQueue [(KDevice, rd_dev d)] [gfx_family d; queue_index];
      mret (if value 0 a =? 0 then s else with_queue (<[vqueue := value 0 a]> (real_queue s)) s)
  end.
Definition vk_real_create_device2 (s : real) (vphys vdev : Z) (qcis : list (Z * Z)) (exts : list bytes) (feats : list (Z * bytes)) : M (Z * Z * real) :=
  match (d ← real_phys s !! vphys; q ← queues_of (phys d) qcis; Some (d, q)) with
  | None => mret (VK_ERROR_INITIALIZATION_FAILED, 0, s)
  | Some (d, q) =>
      r ← created KDevice [] (d :: pairs (qci q)) [extensions_of (phys d) exts; chain_of feats];
      mret (if fst r =? 0
            then (0, first_gfx q, with_dev (<[vdev := mk_device d (snd r) (first_gfx q) (created_counts q)]> (real_dev s)) s)
            else (fst r, 0, s))
  end.
(** The family and index asked for, or the first queue of the graphics family. *)
Definition queue_slot (d : RealDevice) (fam idx : Z) : Z * Z :=
  match queue_counts d !! fam with
  | Some n => if n <=? idx then (gfx_family d, 0) else (fam, idx)
  | None => (gfx_family d, 0)
  end.
Definition vk_real_get_queue2 (s : real) (vdev fam idx vqueue : Z) : M real :=
  match real_dev s !! vdev with
  | None => mret s
  | Some d =>
      let '(f, i) := queue_slot d fam idx in
      a ← note GetDeviceQueue [(KDevice, rd_dev d)] [f; i];
      mret (if value 0 a =? 0 then s else with_queue (<[vqueue := value 0 a]> (real_queue s)) s)
  end.
Definition vk_real_create_pool (s : real) (vdev vpool : Z) : M (Z * real) :=
  match real_dev s !! vdev with
  | None => mret (VK_ERROR_INITIALIZATION_FAILED, s)
  | Some d =>
      r ← created KPool [(KDevice, rd_dev d)] [gfx_family d] [];
      mret (fst r, if fst r =? 0 then with_pool (<[vpool := (vdev, snd r)]> (real_pool s)) s else s)
  end.
Definition vk_real_alloc_cmd (s : real) (vdev vpool vcmd : Z) : M (Z * real) :=
  match (d ← real_dev s !! vdev; p ← real_pool s !! vpool; Some (d, p)) with
  | None => mret (VK_ERROR_INITIALIZATION_FAILED, s)
  | Some (d, p) =>
      a ← note AllocateCommandBuffers [(KDevice, rd_dev d); (KPool, snd p)] [];
      mret (result a, if result a =? 0 then with_cmd (<[vcmd := (vdev, value 0 a)]> (real_cmd s)) s else s)
  end.

(** ** Shaders and swapchains *)

Definition spirv_ok (spirv : bytes) : bool :=
  (8 <=? count spirv) && (count spirv mod 4 =? 0) && (le_val (take 4 spirv) =? SPIRV_MAGIC).
Definition vk_real_create_shader_module (s : real) (vdev vshader : Z) (spirv : bytes) : M (Z * real) :=
  match real_dev s !! vdev with
  | None => mret (VK_ERROR_INITIALIZATION_FAILED, s)
  | Some d =>
      if negb (spirv_ok spirv) then mret (VK_ERROR_INITIALIZATION_FAILED, s)
      else
        r ← created KShader [(KDevice, rd_dev d)] [count spirv] [[spirv]];
        mret (fst r, if fst r =? 0 then with_shader (<[vshader := (vdev, snd r)]> (real_shader s)) s else s)
  end.
Definition destroy_module (dev mod_ : Z) : M () := if mod_ =? 0 then mret () else _ ← call_drv drv (Destroy KShader [(KDevice, dev)] mod_); mret ().
Definition vk_real_destroy_shader_module (s : real) (vdev vshader : Z) : M real :=
  match real_shader s !! vshader with
  | None => mret s
  | Some m =>
      _ ← match real_dev s !! vdev with Some d => destroy_module (rd_dev d) (snd m) | None => mret () end;
      mret (with_shader (delete vshader (real_shader s)) s)
  end.
Definition ring_size (image_count : Z) : Z := let n := if image_count =? 0 then 2 else image_count in if 4 <? n then 4 else n.
Definition vk_real_create_swapchain (s : real) (vdev vsw w h image_count : Z) : M (Z * Z * real) :=
  match real_dev s !! vdev with
  | None => mret (VK_ERROR_INITIALIZATION_FAILED, 0, s)
  | Some d =>
      let w := or_64 w in let h := or_64 h in
      o ← alloc_ring drv (Z.to_nat (ring_size image_count)) (rd_dev d) w h VK_FORMAT_R8G8B8A8_UNORM [];
      match o with
      | None => mret (VK_ERROR_INITIALIZATION_FAILED, 0, s)
      | Some (fmt, ims) => mret (0, count ims, with_swapchain (<[vsw := mk_swapchain vdev w h fmt 0 ims]> (real_swapchain s)) s)
      end
  end.
Definition vk_real_destroy_swapchain (s : real) (vsw : Z) : M real :=
  match real_swapchain s !! vsw with
  | None => mret s
  | Some sc =>
      _ ← match real_dev s !! sc_vdev sc with
          | Some d => _ ← note DeviceWaitIdle [(KDevice, rd_dev d)] []; free_images drv (rd_dev d) (sc_images sc)
          | None => mret ()
          end;
      mret (with_swapchain (delete vsw (real_swapchain s)) s)
  end.
Definition vk_real_acquire_next_image (s : real) (vsw : Z) : bool * Z * real :=
  match real_swapchain s !! vsw with
  | None => (false, 0, s)
  | Some sc =>
      if count (sc_images sc) =? 0 then (false, 0, s)
      else (true, sc_next sc, with_swapchain (<[vsw := mk_swapchain (sc_vdev sc) (sc_width sc) (sc_height sc) (sc_format sc)
              (u32 (sc_next sc + 1) mod count (sc_images sc)) (sc_images sc)]> (real_swapchain s)) s)
  end.

(** [vk_real_destroy_device]: each table is walked in the order of its keys. *)
Fixpoint for_each {A} (f : A → M ()) (l : list A) : M () := match l with [] => mret () | a :: l => _ ← f a; for_each f l end.
Definition owned_by {A} (vdev : Z) (m : gmap Z (Z * A)) : gmap Z (Z * A) := filter (λ p, fst (snd p) = vdev) m.
Definition not_owned_by {A} (vdev : Z) (m : gmap Z (Z * A)) : gmap Z (Z * A) := filter (λ p, fst (snd p) ≠ vdev) m.
Definition chains_of (vdev : Z) (m : gmap Z RealSwapchain) : gmap Z RealSwapchain := filter (λ p, sc_vdev (snd p) = vdev) m.
Definition chains_not_of (vdev : Z) (m : gmap Z RealSwapchain) : gmap Z RealSwapchain := filter (λ p, sc_vdev (snd p) ≠ vdev) m.
Definition vk_real_destroy_device (s : real) (vdev : Z) : M real :=
  match real_dev s !! vdev with
  | None => mret s
  | Some d =>
      let dev := rd_dev d in
      _ ← note DeviceWaitIdle [(KDevice, dev)] [];
      _ ← for_each (λ p, _ ← call_drv drv (Destroy KPool [(KDevice, dev)] (snd (snd p))); mret ()) (in_order (owned_by vdev (real_pool s)));
      _ ← for_each (λ p, free_images drv dev (sc_images (snd p))) (in_order (chains_of vdev (real_swapchain s)));
      _ ← for_each (λ p, destroy_module dev (snd (snd p))) (in_order (owned_by vdev (real_shader s)));
      _ ← call_drv drv (Destroy KDevice [] dev);
      mret (mk_real (real_inst s) (real_phys s) (delete vdev (real_dev s)) (real_queue s) (not_owned_by vdev (real_pool s))
              (not_owned_by vdev (real_cmd s)) (not_owned_by vdev (real_shader s)) (chains_not_of vdev (real_swapchain s)) (present_serial s))
  end.

(** ** The provider *)

Definition C : Type := real * history.
(** A function of the tables as a callback. *)
Definition on {A} (c : C) (f : real → M (A * real)) : A * C := let '((a, s), h) := f (fst c) (snd c) in (a, (s, h)).
Definition on_ (c : C) (f : real → M real) : C := let '(s, h) := f (fst c) (snd c) in (s, h).
Definition reading {A} (c : C) (f : real → M A) : A * C := let '(a, h) := f (fst c) (snd c) in (a, (fst c, h)).
Definition host : VkProvider C := mk_vkp
  (Some (λ c x y, on c (λ s, vk_real_create_instance s x y)))
  (Some (λ c x y, on c (λ s, vk_real_enumerate s x y)))
  (Some (λ c x p, reading c (λ s, vk_real_props s x p)))
  (Some (λ c x l p, reading c (λ s, vk_real_image_format_props s x l p)))
  (Some (λ c x y p, reading c (λ s, vk_real_format_props s x y p)))
  (Some (λ c x, on_ c (λ s, vk_real_destroy_instance s x)))
  (Some (λ c x y, on c (λ s, vk_real_create_device s x y)))
  (Some (λ c x y z, on_ c (λ s, vk_real_get_queue s x y z)))
  (Some (λ c x y q e f, on c (λ s, vk_real_create_device2 s x y q e f)))
  (Some (λ c x y z u, on_ c (λ s, vk_real_get_queue2 s x y z u)))
  (Some (λ c x y, on c (λ s, vk_real_create_pool s x y)))
  (Some (λ c x y z, on c (λ s, vk_real_alloc_cmd s x y z)))
  (Some (λ c x y z r, reading c (λ s, vk_real_clear_submit drv s x y z r)))
  (Some (λ c x y z r, reading c (λ s, vk_real_draw_submit drv s x y z r)))
  (Some (λ c x, on_ c (λ s, vk_real_destroy_device s x)))
  (Some (λ c x y d, on c (λ s, vk_real_create_shader_module s x y d)))
  (Some (λ c x y, on_ c (λ s, vk_real_destroy_shader_module s x y)))
  (Some (λ c x y z u v, on c (λ s, vk_real_create_swapchain s x y z u v)))
  (Some (λ c x, on_ c (λ s, vk_real_destroy_swapchain s x)))
  (Some (λ c x, let '(r, s) := vk_real_acquire_next_image (fst c) x in (r, (s, snd c))))
  (Some (λ c x y z r, on c (λ s, vk_real_draw_present drv sink s x y z r))).
End host.

(** ** The objects the tables hold *)

Definition msum {A} (f : A → gmultiset obj) (l : list A) : gmultiset obj := foldr (λ a X, f a ⊎ X) ∅ l.
Lemma msum_perm {A} (f : A → gmultiset obj) l l' : l ≡ₚ l' → msum f l = msum f l'.
Proof. unfold msum. induction 1; cbn [foldr]; multiset_solver. Qed.
(** The objects of the entries of a table. *)
Definition tbl {A} (f : A → gmultiset obj) (m : gmap Z A) : gmultiset obj := msum (λ p, f (snd p)) (map_to_list m).
Lemma tbl_empty {A} (f : A → gmultiset obj) : tbl f ∅ = ∅.
Proof. unfold tbl. by rewrite map_to_list_empty. Qed.
Lemma tbl_insert_new {A} (f : A → gmultiset obj) m k v : m !! k = None → tbl f (<[k := v]> m) = f v ⊎ tbl f m.
Proof. intros H. unfold tbl. by rewrite (msum_perm _ _ _ (map_to_list_insert m k v H)). Qed.
Lemma tbl_delete {A} (f : A → gmultiset obj) m k v : m !! k = Some v → tbl f m = f v ⊎ tbl f (delete k m).
Proof. intros H. rewrite <- (tbl_insert_new f (delete k m) k v (lookup_delete_eq m k)). by rewrite insert_delete_id. Qed.
Lemma tbl_insert {A} (f : A → gmultiset obj) m k v : tbl f (<[k := v]> m) ⊆ f v ⊎ tbl f m.
Proof.
  destruct (m !! k) as [w|] eqn:E; [|by rewrite tbl_insert_new].
  rewrite <- insert_delete_eq, tbl_insert_new, (tbl_delete f m k w E) by apply lookup_delete_eq. multiset_solver.
Qed.
Lemma tbl_lookup {A} (f : A → gmultiset obj) m k v : m !! k = Some v → f v ⊆ tbl f m.
Proof. intros H. rewrite (tbl_delete f m k v H). multiset_solver. Qed.
Lemma tbl_sub_delete {A} (f : A → gmultiset obj) m k : tbl f (delete k m) ⊆ tbl f m.
Proof. destruct (m !! k) as [v|] eqn:E; [rewrite (tbl_delete f m k v E); multiset_solver|]. by rewrite delete_id. Qed.
(** An entry whose objects do not change. *)
Lemma tbl_update {A} (f : A → gmultiset obj) m k v w : m !! k = Some v → f w = f v → tbl f (<[k := w]> m) = tbl f m.
Proof.
  intros H E. rewrite <- insert_delete_eq, tbl_insert_new, (tbl_delete f m k v H), E by apply lookup_delete_eq. done.
Qed.
Lemma tbl_split {A} (f : A → gmultiset obj) (P : Z * A → Prop) `{∀ x, Decision (P x)} m :
  tbl f m = tbl f (filter P m) ⊎ tbl f (filter (λ x, ¬ P x) m).
Proof.
  induction m as [|k v m Hk IH] using map_ind; [by rewrite !map_filter_empty, !tbl_empty|].
  rewrite tbl_insert_new, IH by done. destruct (decide (P (k, v))) as [HP|HP].
  - rewrite (map_filter_insert_True P), (map_filter_insert_False (λ x, ¬ P x)) by tauto.
    rewrite (delete_id m k Hk), tbl_insert_new by (apply map_lookup_filter_None; by left). multiset_solver.
  - rewrite (map_filter_insert_False P), (map_filter_insert_True (λ x, ¬ P x)) by tauto.
    rewrite (delete_id m k Hk), tbl_insert_new by (apply map_lookup_filter_None; by left). multiset_solver.
Qed.
Lemma in_order_perm {A} (m : gmap Z A) : in_order m ≡ₚ map_to_list m.
Proof. apply merge_sort_Permutation. Qed.
Lemma tbl_in_order {A} (f : A → gmultiset obj) m : tbl f m = msum (λ p, f (snd p)) (in_order m).
Proof. unfold tbl. symmetry. apply msum_perm, in_order_perm. Qed.

Definition inst_objs (i : Z) : gmultiset obj := {[+ (KInstance, i) +]}.
Definition dev_objs (d : RealDevice) : gmultiset obj := {[+ (KDevice, rd_dev d) +]}.
Definition pool_objs (p : Z * Z) : gmultiset obj := {[+ (KPool, snd p) +]}.
Definition shader_objs (p : Z * Z) : gmultiset obj := {[+ (KShader, snd p) +]}.
Definition swap_objs (sc : RealSwapchain) : gmultiset obj := images_objs (sc_images sc).
Definition held (s : real) : gmultiset obj :=
  tbl inst_objs (real_inst s) ⊎ tbl dev_objs (real_dev s) ⊎ tbl pool_objs (real_pool s) ⊎ tbl shader_objs (real_shader s)
  ⊎ tbl swap_objs (real_swapchain s).
(** The invariant: every call so far was on live objects, the tables hold distinct live
    objects, and the swapchains whole images. *)
Record safe (c : C) : Prop := mk_safe {
  safe_sound : sound (snd c);
  safe_held : held (fst c) ⊆ live (snd c);
  safe_images v sc : real_swapchain (fst c) !! v = Some sc → Forall whole (sc_images sc) }.

Lemma image_objs_whole im : whole im → image_objs im = {[+ (KAhb, im_ahb im); (KImage, im_image im); (KMemory, im_mem im); (KView, im_view im) +]}.
Proof.
  intros (H1 & H2 & H3 & H4). unfold image_objs, image_frame, set_slot. rewrite !(proj2 (Z.eqb_neq _ _)) by done.
  rewrite !owned_insert, owned_empty by (by simplify_map_eq). cbn [kind_of]. multiset_solver.
Qed.
Lemma images_objs_elem im ims : im ∈ ims → image_objs im ⊆ images_objs ims.
Proof. induction 1 as [x|x y l H IH]; cbn [images_objs]; multiset_solver. Qed.

Section safety.
Context (drv : driver) (phys : Z → physical) (sink : bool) (Hdrv : creates_ok drv).
Implicit Types (s : real) (h : history).

(** What the tables name is live. *)
Lemma inst_live s h v i : safe (s, h) → real_inst s !! v = Some i → (KInstance, i) ∈ live h.
Proof. intros [_ H _] E. cbn [fst snd] in H. assert ({[+ (KInstance, i) +]} ⊆ tbl inst_objs (real_inst s)) by exact (tbl_lookup inst_objs _ _ _ E). unfold held in H. multiset_solver. Qed.
Lemma dev_live s h v d : safe (s, h) → real_dev s !! v = Some d → (KDevice, rd_dev d) ∈ live h.
Proof. intros [_ H _] E. cbn [fst snd] in H. assert ({[+ (KDevice, rd_dev d) +]} ⊆ tbl dev_objs (real_dev s)) by exact (tbl_lookup dev_objs _ _ _ E). unfold held in H. multiset_solver. Qed.
Lemma pool_live s h v p : safe (s, h) → real_pool s !! v = Some p → (KPool, snd p) ∈ live h.
Proof. intros [_ H _] E. cbn [fst snd] in H. assert ({[+ (KPool, snd p) +]} ⊆ tbl pool_objs (real_pool s)) by exact (tbl_lookup pool_objs _ _ _ E). unfold held in H. multiset_solver. Qed.
Lemma shader_live s h v p : safe (s, h) → real_shader s !! v = Some p → (KShader, snd p) ∈ live h.
Proof. intros [_ H _] E. cbn [fst snd] in H. assert ({[+ (KShader, snd p) +]} ⊆ tbl shader_objs (real_shader s)) by exact (tbl_lookup shader_objs _ _ _ E). unfold held in H. multiset_solver. Qed.
Lemma safe_tables s h : safe (s, h) → tables_live s h.
Proof.
  intros S. split; [|split]; [intros; by eapply dev_live|intros; by eapply shader_live|].
  intros v sc im E Him. pose proof (safe_images _ S v sc E) as Hw. rewrite Forall_forall in Hw.
  pose proof (images_objs_elem im _ Him) as H1. rewrite (image_objs_whole im (Hw im Him)) in H1.
  assert (H2 : images_objs (sc_images sc) ⊆ tbl swap_objs (real_swapchain s)) by exact (tbl_lookup swap_objs _ _ _ E).
  pose proof (safe_held _ S) as H3. cbn [fst snd] in H3. unfold held in H3.
  split_and!; multiset_solver.
Qed.

(** One call. *)
Lemma note_safe s h f us ps a : safe (s, h) → Forall (.∈ live h) us → safe (s, (Do f us ps, a) :: h).
Proof. intros [H1 H2 H3] Hu. by split. Qed.
(** A creation, and the entry it is stored in. *)
Definition born (k : kind) (a : answer) : gmultiset obj := if result a =? 0 then {[+ (k, handle a) +]} else ∅.
Lemma create_live h k us ps d a : live ((Create k us ps d, a) :: h) = born k a ⊎ live h.
Proof. unfold born. cbn. destruct (result a =? 0); multiset_solver. Qed.
Lemma stored s s' h k us ps d a :
  safe (s, h) → Forall (.∈ live h) us → held s' ⊆ born k a ⊎ held s → real_swapchain s' = real_swapchain s →
  safe (s', (Create k us ps d, a) :: h).
Proof.
  intros [H1 H2 H3] Hu Hh He. split; cbn [fst snd] in *.
  - by split.
  - rewrite create_live. multiset_solver.
  - intros v sc. rewrite He. apply H3.
Qed.
(** Only the tables change, and hold no more. *)
Lemma retable s s' h : safe (s, h) → held s' ⊆ held s → real_swapchain s' = real_swapchain s → safe (s', h).
Proof. intros [H1 H2 H3] Hh He. split; cbn [fst snd] in *; [done|multiset_solver|]. intros v sc. rewrite He. apply H3. Qed.

Ltac uses := repeat (apply Forall_cons_2; [first [assumption | done]|]); apply Forall_nil_2.
Ltac noted := apply note_safe; [|uses].
Ltac run := unfold note, created, call_drv, mbind, M_bind, mret, M_ret; cbv zeta; cbn [fst snd].
Lemma held_inst s k v : held (with_inst (<[k := v]> (real_inst s)) s) ⊆ {[+ (KInstance, v) +]} ⊎ held s.
Proof. pose proof (tbl_insert inst_objs (real_inst s) k v) as H. change (inst_objs v) with ({[+ (KInstance, v) +]} : gmultiset obj) in H. unfold held. cbn [real_inst real_dev real_pool real_shader real_swapchain with_inst]. multiset_solver. Qed.
Lemma held_dev s k d : held (with_dev (<[k := d]> (real_dev s)) s) ⊆ {[+ (KDevice, rd_dev d) +]} ⊎ held s.
Proof. pose proof (tbl_insert dev_objs (real_dev s) k d) as H. change (dev_objs d) with ({[+ (KDevice, rd_dev d) +]} : gmultiset obj) in H. unfold held. cbn [real_inst real_dev real_pool real_shader real_swapchain with_dev]. multiset_solver. Qed.
Lemma held_pool s k p : held (with_pool (<[k := p]> (real_pool s)) s) ⊆ {[+ (KPool, snd p) +]} ⊎ held s.
Proof. pose proof (tbl_insert pool_objs (real_pool s) k p) as H. change (pool_objs p) with ({[+ (KPool, snd p) +]} : gmultiset obj) in H. unfold held. cbn [real_inst real_dev real_pool real_shader real_swapchain with_pool]. multiset_solver. Qed.
Lemma held_shader s k p : held (with_shader (<[k := p]> (real_shader s)) s) ⊆ {[+ (KShader, snd p) +]} ⊎ held s.
Proof. pose proof (tbl_insert shader_objs (real_shader s) k p) as H. change (shader_objs p) with ({[+ (KShader, snd p) +]} : gmultiset obj) in H. unfold held. cbn [real_inst real_dev real_pool real_shader real_swapchain with_shader]. multiset_solver. Qed.
Lemma held_swapchain s k sc : held (with_swapchain (<[k := sc]> (real_swapchain s)) s) ⊆ images_objs (sc_images sc) ⊎ held s.
Proof. pose proof (tbl_insert swap_objs (real_swapchain s) k sc) as H. change (swap_objs sc) with (images_objs (sc_images sc)) in H. unfold held. cbn [real_inst real_dev real_pool real_shader real_swapchain with_swapchain]. multiset_solver. Qed.

Lemma create_instance_safe s h x y : safe (s, h) → safe (on (s, h) (λ s, vk_real_create_instance drv s x y)).2.
Proof.
  intros S. unfold on, vk_real_create_instance. run. set (a := drv h _).
  eapply stored; [exact S|uses| |by destruct (result a =? 0)]. unfold born.
  destruct (result a =? 0); [apply held_inst|multiset_solver].
Qed.
Lemma enumerate_safe s h x y : safe (s, h) → safe (on (s, h) (λ s, vk_real_enumerate drv s x y)).2.
Proof.
  intros S. unfold on, vk_real_enumerate. cbn [fst snd]. destruct (real_inst s !! x) as [i|] eqn:E; [|exact S].
  pose proof (inst_live _ _ _ _ S E). run. set (a := drv h _). destruct (value 0 a =? 0); cbn [fst snd]; [by noted|].
  apply (retable s); [by do 2 noted|done|done].
Qed.
Lemma features2_safe s h : safe (s, h) → safe (s, (features2_known drv s h).2).
Proof.
  intros S. unfold features2_known. destruct (in_order (real_inst s)) as [|[v i] l] eqn:E; [exact S|].
  assert (Hi : (v, i) ∈ map_to_list (real_inst s)) by (rewrite <- in_order_perm, E; apply list_elem_of_here).
  apply elem_of_map_to_list in Hi. pose proof (inst_live _ _ _ _ S Hi). run. set (a := drv h _).
  destruct (value 0 a =? 0); cbn [fst snd]; [by do 2 noted|by noted].
Qed.
Lemma capability_safe s h p e b f : safe (s, h) → safe (s, (capability drv s p e b f h).2).
Proof.
  intros S. unfold capability. destruct (vk_real_dev_ext_present p e); [|exact S].
  pose proof (features2_safe s h S) as H. run. by destruct (features2_known drv s h).
Qed.
Lemma props_safe s h x p : safe (s, h) → safe (reading (s, h) (λ s, vk_real_props drv phys s x p)).2.
Proof.
  intros S. unfold reading, vk_real_props. cbn [fst snd]. destruct (real_phys s !! x) as [d|]; [|exact S]. run.
  set (e := (_, _)). assert (S1 : safe (s, e :: h)) by (apply note_safe; [done|uses]). clearbody e.
  pose proof (capability_safe s (e :: h) (phys d) "VK_EXT_provoking_vertex" 1 (p_provoking_last (phys d)) S1) as S2.
  destruct (capability _ _ _ _ _ _ (e :: h)) as [pv h2]. cbn [snd] in S2.
  pose proof (capability_safe s h2 (phys d) "VK_EXT_transform_feedback" 4 (p_transform_feedback (phys d)) S2) as S3.
  by destruct (capability _ _ _ _ _ _ h2).
Qed.
Lemma image_props_safe s h x l p : safe (s, h) → safe (reading (s, h) (λ s, vk_real_image_format_props drv phys s x l p)).2.
Proof. intros S. unfold reading, vk_real_image_format_props. cbn [fst snd]. destruct (real_phys s !! x); [|exact S]. run. by noted. Qed.
Lemma format_props_safe s h x y p : safe (s, h) → safe (reading (s, h) (λ s, vk_real_format_props drv phys s x y p)).2.
Proof. intros S. unfold reading, vk_real_format_props. cbn [fst snd]. destruct (real_phys s !! x); [|exact S]. run. by noted. Qed.

(** A destruction of what an entry held. *)
Lemma destroyed s s' h k us x a :
  safe (s, h) → Forall (.∈ live h) us → held s' ⊎ {[+ (k, x) +]} ⊆ held s →
  (∀ v sc, real_swapchain s' !! v = Some sc → real_swapchain s !! v = Some sc) → safe (s', (Destroy k us x, a) :: h).
Proof.
  intros [H1 H2 H3] Hu Hh He. cbn [fst snd] in *. split; cbn [fst snd].
  - split; [|done]. split; [done|]. multiset_solver.
  - change (live (_ :: h)) with (live h ∖ {[+ (k, x) +]}). multiset_solver.
  - intros v sc E. by eapply H3, He.
Qed.
Lemma destroy_instance_safe s h x : safe (s, h) → safe (on_ (s, h) (λ s, vk_real_destroy_instance drv s x)).
Proof.
  intros S. unfold on_, vk_real_destroy_instance. cbn [fst snd]. destruct (real_inst s !! x) as [i|] eqn:E; [|exact S]. run.
  eapply destroyed; [exact S|uses| |done]. pose proof (tbl_delete inst_objs _ _ _ E) as H.
  change (inst_objs i) with ({[+ (KInstance, i) +]} : gmultiset obj) in H. unfold held.
  cbn [real_inst real_dev real_pool real_shader real_swapchain with_inst]. rewrite H. multiset_solver.
Qed.
Lemma create_device_safe s h x y : safe (s, h) → safe (on (s, h) (λ s, vk_real_create_device drv phys s x y)).2.
Proof.
  intros S. unfold on, vk_real_create_device. cbn [fst snd]. destruct (real_phys s !! x) as [d|]; [|exact S]. cbn [mbind option_bind].
  destruct (vk_real_gfx_family (phys d)) as [f|]; [|exact S]. cbn [mbind option_bind]. run. set (a := drv h _).
  destruct (result a =? 0) eqn:E; cbn [fst snd]; (eapply stored; [exact S|uses| |done]); unfold born; rewrite E; [|multiset_solver].
  apply (held_dev s y (mk_device d (handle a) f {[f := 1]})).
Qed.
Lemma create_device2_safe s h x y q e l : safe (s, h) → safe (on (s, h) (λ s, vk_real_create_device2 drv phys s x y q e l)).2.
Proof.
  intros S. unfold on, vk_real_create_device2. cbn [fst snd]. destruct (real_phys s !! x) as [d|]; [|exact S]. cbn [mbind option_bind].
  destruct (queues_of (phys d) q) as [r|]; [|exact S]. cbn [mbind option_bind]. run. set (a := drv h _).
  destruct (result a =? 0) eqn:E; cbn [fst snd]; (eapply stored; [exact S|uses| |done]); unfold born; rewrite E; [|multiset_solver].
  apply (held_dev s y (mk_device d (handle a) (first_gfx r) (created_counts r))).
Qed.
Lemma get_queue_safe s h x y z : safe (s, h) → safe (on_ (s, h) (λ s, vk_real_get_queue drv s x y z)).
Proof.
  intros S. unfold on_, vk_real_get_queue. cbn [fst snd]. destruct (real_dev s !! x) as [d|] eqn:E; [|exact S].
  pose proof (dev_live _ _ _ _ S E). run. set (a := drv h _). destruct (value 0 a =? 0); [by noted|]. apply (retable s); [by noted|done|done].
Qed.
Lemma get_queue2_safe s h x y z u : safe (s, h) → safe (on_ (s, h) (λ s, vk_real_get_queue2 drv s x y z u)).
Proof.
  intros S. unfold on_, vk_real_get_queue2. cbn [fst snd]. destruct (real_dev s !! x) as [d|] eqn:E; [|exact S].
  pose proof (dev_live _ _ _ _ S E). destruct (queue_slot d y z) as [f i]. run. set (a := drv h _).
  destruct (value 0 a =? 0); [by noted|]. apply (retable s); [by noted|done|done].
Qed.
Lemma create_pool_safe s h x y : safe (s, h) → safe (on (s, h) (λ s, vk_real_create_pool drv s x y)).2.
Proof.
  intros S. unfold on, vk_real_create_pool. cbn [fst snd]. destruct (real_dev s !! x) as [d|] eqn:Ed; [|exact S].
  pose proof (dev_live _ _ _ _ S Ed). run. set (a := drv h _). eapply stored; [exact S|uses| |by destruct (result a =? 0)].
  unfold born. destruct (result a =? 0); [apply (held_pool s y (x, handle a))|multiset_solver].
Qed.
Lemma alloc_cmd_safe s h x y z : safe (s, h) → safe (on (s, h) (λ s, vk_real_alloc_cmd drv s x y z)).2.
Proof.
  intros S. unfold on, vk_real_alloc_cmd. cbn [fst snd]. destruct (real_dev s !! x) as [d|] eqn:Ed; [|exact S]. cbn [mbind option_bind].
  destruct (real_pool s !! y) as [p|] eqn:Ep; [|exact S]. cbn [mbind option_bind]. pose proof (dev_live _ _ _ _ S Ed). pose proof (pool_live _ _ _ _ S Ep).
  run. set (a := drv h _). destruct (result a =? 0); [apply (retable s); [by noted|done|done]|by noted].
Qed.
Lemma create_shader_safe s h x y d : safe (s, h) → safe (on (s, h) (λ s, vk_real_create_shader_module drv s x y d)).2.
Proof.
  intros S. unfold on, vk_real_create_shader_module. cbn [fst snd]. destruct (real_dev s !! x) as [r|] eqn:Ed; [|exact S].
  destruct (negb _); [exact S|]. pose proof (dev_live _ _ _ _ S Ed). run. set (a := drv h _).
  eapply stored; [exact S|uses| |by destruct (result a =? 0)]. unfold born.
  destruct (result a =? 0); [apply (held_shader s y (x, handle a))|multiset_solver].
Qed.

(** Renderings. *)
Lemma balanced_safe {A} s h (m : M A) : safe (s, h) → balanced m h → safe (s, (m h).2).
Proof. unfold balanced. intros [H1 H2 H3] Hb. destruct (m h) as [a h']. destruct Hb as [Hb Hs]. split; cbn [fst snd] in *; [done|by rewrite Hb|done]. Qed.
Lemma clear_submit_safe s h x y z r : safe (s, h) → safe (reading (s, h) (λ s, vk_real_clear_submit drv s x y z r)).2.
Proof.
  intros S. pose proof (renders_balanced drv sink s x y z r h Hdrv (safe_sound _ S) (safe_tables _ _ S)) as (H & _ & _).
  apply (balanced_safe s h _ S) in H. unfold reading. cbn [fst snd]. by destruct (vk_real_clear_submit _ _ _ _ _ _ _).
Qed.
Lemma draw_submit_safe s h x y z r : safe (s, h) → safe (reading (s, h) (λ s, vk_real_draw_submit drv s x y z r)).2.
Proof.
  intros S. pose proof (renders_balanced drv sink s x y z r h Hdrv (safe_sound _ S) (safe_tables _ _ S)) as (_ & H & _).
  apply (balanced_safe s h _ S) in H. unfold reading. cbn [fst snd]. by destruct (vk_real_draw_submit _ _ _ _ _ _ _).
Qed.
(** A present changes nothing of the tables but the serial. *)
Definition same_tables (s s' : real) : Prop := held s' = held s ∧ real_swapchain s' = real_swapchain s.
Lemma draw_present_tables s x y z r h : same_tables s (vk_real_draw_present drv sink s x y z r h).1.2.
Proof.
  unfold vk_real_draw_present. repeat case_match; try done; unfold mbind, M_bind;
  destruct (with_cleanup _ _ _ _ _ _) as [[e|[shown [e|px]]] h']; try done; cbn [rendered]; by destruct sink.
Qed.
Lemma draw_present_safe s h x y z r : safe (s, h) → safe (on (s, h) (λ s, vk_real_draw_present drv sink s x y z r)).2.
Proof.
  intros S. pose proof (renders_balanced drv sink s x y z r h Hdrv (safe_sound _ S) (safe_tables _ _ S)) as (_ & _ & H).
  apply (balanced_safe s h _ S) in H. pose proof (draw_present_tables s x y z r h) as [H1 H2]. unfold on. cbn [fst snd].
  destruct (vk_real_draw_present _ _ _ _ _ _ _ _) as [[a s'] h']. cbn [fst snd] in *. apply (retable s); [done|by rewrite H1|done].
Qed.

(** Modules and rings. *)
Lemma destroy_module_keeps dev m B h :
  (KDevice, dev) ∈ B → {[+ (KShader, m) +]} ⊎ B ⊆ live h → sound h →
  let '(_, h') := destroy_module drv dev m h in B ⊆ live h' ∧ sound h'.
Proof.
  intros Hd H Hs. unfold destroy_module. destruct (m =? 0); run; [split; [multiset_solver|done]|].
  split; [change (live (_ :: h)) with (live h ∖ {[+ (KShader, m) +]}); multiset_solver|].
  split; [|done]. split; [apply Forall_cons_2; [multiset_solver|apply Forall_nil_2]|multiset_solver].
Qed.
Lemma free_images_keeps dev ims B h :
  (KDevice, dev) ∈ B → images_objs ims ⊎ B ⊆ live h → sound h →
  let '(_, h') := free_images drv dev ims h in B ⊆ live h' ∧ sound h'.
Proof.
  intros Hd H Hs. pose proof (free_images_live drv dev (live h ∖ images_objs ims) ims h Hdrv ltac:(multiset_solver) ltac:(multiset_solver) Hs) as H1.
  destruct (free_images _ _ _ _) as [u h']. destruct H1 as [-> H2]. split; [multiset_solver|done].
Qed.
Lemma for_each_keeps {A} (f : A → gmultiset obj) (g : A → M ()) dev B l h :
  (∀ a B h, (KDevice, dev) ∈ B → f a ⊎ B ⊆ live h → sound h → let '(_, h') := g a h in B ⊆ live h' ∧ sound h') →
  (KDevice, dev) ∈ B → msum f l ⊎ B ⊆ live h → sound h → let '(_, h') := for_each g l h in B ⊆ live h' ∧ sound h'.
Proof.
  intros Hg Hd. revert h. induction l as [|a l IH]; intros h H Hs; cbn [for_each msum foldr] in *.
  - split; [multiset_solver|done].
  - unfold mbind, M_bind. fold (msum f l) in H. specialize (Hg a (msum f l ⊎ B) h ltac:(multiset_solver) ltac:(multiset_solver) Hs).
    destruct (g a h) as [u h1]. destruct Hg as [H1 H2]. by apply IH.
Qed.

Lemma destroy_shader_safe s h x y : safe (s, h) → safe (on_ (s, h) (λ s, vk_real_destroy_shader_module drv s x y)).
Proof.
  intros S. unfold on_, vk_real_destroy_shader_module. cbn [fst snd]. destruct (real_shader s !! y) as [m|] eqn:Em; [|exact S].
  set (s' := with_shader (delete y (real_shader s)) s).
  assert (Hh : held s = {[+ (KShader, snd m) +]} ⊎ held s').
  { pose proof (tbl_delete shader_objs _ _ _ Em) as H. change (shader_objs m) with ({[+ (KShader, snd m) +]} : gmultiset obj) in H.
    unfold held, s'. cbn [real_inst real_dev real_pool real_shader real_swapchain with_shader]. rewrite H. multiset_solver. }
  pose proof S as [H1 H2 H3]. cbn [fst snd] in *. unfold mbind, M_bind, mret, M_ret.
  destruct (real_dev s !! x) as [d|] eqn:Ed.
  - assert (Hd : (KDevice, rd_dev d) ∈ held s').
    { assert (H : {[+ (KDevice, rd_dev d) +]} ⊆ tbl dev_objs (real_dev s)) by exact (tbl_lookup dev_objs _ _ _ Ed).
      unfold held, s'. cbn [real_inst real_dev real_pool real_shader real_swapchain with_shader]. multiset_solver. }
    pose proof (destroy_module_keeps (rd_dev d) (snd m) (held s') h Hd ltac:(by rewrite <- Hh) H1) as H.
    destruct (destroy_module _ _ _ _) as [u h']. destruct H as [H4 H5]. by split.
  - apply (retable s); [done|multiset_solver|done].
Qed.
Lemma create_swapchain_safe s h x y z u v : safe (s, h) → safe (on (s, h) (λ s, vk_real_create_swapchain drv s x y z u v)).2.
Proof.
  intros S. unfold on, vk_real_create_swapchain. cbn [fst snd]. destruct (real_dev s !! x) as [d|] eqn:Ed; [|exact S].
  pose proof (dev_live _ _ _ _ S Ed) as Hd. pose proof S as [H1 H2 H3]. cbn [fst snd] in *.
  pose proof (alloc_ring_live drv (rd_dev d) (live h) (Z.to_nat (ring_size v)) (or_64 z) (or_64 u) VK_FORMAT_R8G8B8A8_UNORM [] h Hdrv Hd
    ltac:(cbn [images_objs]; multiset_solver) H1 (Forall_nil_2 _)) as H. cbv zeta. unfold mbind, M_bind, mret, M_ret.
  destruct (alloc_ring _ _ _ _ _ _ _ _) as [[[fmt ims]|] h']; cbn [fst snd]; destruct H as (H4 & H5 & H6).
  - split; cbn [fst snd]; [done| |].
    + rewrite H4. pose proof (held_swapchain s y (mk_swapchain x (or_64 z) (or_64 u) fmt 0 ims)) as H7. cbn [sc_images] in H7. multiset_solver.
    + intros w sc. cbn [real_swapchain with_swapchain]. intros [[_ <-]|[_ E]]%lookup_insert_Some; [apply H6|by eapply H3].
  - split; cbn [fst snd]; [done| |done]. rewrite H4. multiset_solver.
Qed.
Lemma destroy_swapchain_safe s h x : safe (s, h) → safe (on_ (s, h) (λ s, vk_real_destroy_swapchain drv s x)).
Proof.
  intros S. unfold on_, vk_real_destroy_swapchain. cbn [fst snd]. destruct (real_swapchain s !! x) as [sc|] eqn:Es; [|exact S].
  set (s' := with_swapchain (delete x (real_swapchain s)) s).
  assert (Hh : held s = images_objs (sc_images sc) ⊎ held s').
  { pose proof (tbl_delete swap_objs _ _ _ Es) as H. change (swap_objs sc) with (images_objs (sc_images sc)) in H.
    unfold held, s'. cbn [real_inst real_dev real_pool real_shader real_swapchain with_swapchain]. rewrite H. multiset_solver. }
  assert (Hw : ∀ v sc', real_swapchain s' !! v = Some sc' → Forall whole (sc_images sc')).
  { intros v sc'. unfold s'. cbn [real_swapchain with_swapchain]. intros [_ E]%lookup_delete_Some. by eapply (safe_images _ S). }
  pose proof S as [H1 H2 H3]. cbn [fst snd] in *. run. destruct (real_dev s !! sc_vdev sc) as [d|] eqn:Ed.
  - assert (Hd : (KDevice, rd_dev d) ∈ held s').
    { assert (H : {[+ (KDevice, rd_dev d) +]} ⊆ tbl dev_objs (real_dev s)) by exact (tbl_lookup dev_objs _ _ _ Ed).
      unfold held, s'. cbn [real_inst real_dev real_pool real_shader real_swapchain with_swapchain]. multiset_solver. }
    set (e := (_, _)). assert (Hs : sound (e :: h)) by (split; [apply Forall_cons_2; [multiset_solver|apply Forall_nil_2]|done]).
    assert (Hl : live (e :: h) = live h) by done. clearbody e.
    pose proof (free_images_keeps (rd_dev d) (sc_images sc) (held s') (e :: h) Hd ltac:(by rewrite Hl, <- Hh) Hs) as H.
    destruct (free_images _ _ _ _) as [u h']. destruct H as [H4 H5]. by split.
  - split; cbn [fst snd]; [done|multiset_solver|done].
Qed.
Lemma acquire_safe s h x : safe (s, h) → safe ((vk_real_acquire_next_image s x).2, h).
Proof.
  intros S. unfold vk_real_acquire_next_image. destruct (real_swapchain s !! x) as [sc|] eqn:E; [|exact S].
  destruct (_ =? 0); [exact S|]. cbn [snd]. set (sc' := mk_swapchain _ _ _ _ _ _).
  pose proof S as [H1 H2 H3]. split; cbn [fst snd] in *; [done| |].
  - unfold held in *. cbn [real_inst real_dev real_pool real_shader real_swapchain with_swapchain].
    rewrite (tbl_update swap_objs (real_swapchain s) x sc sc' E eq_refl). exact H2.
  - intros v t. cbn [real_swapchain with_swapchain]. intros [[_ <-]|[_ Ht]]%lookup_insert_Some; [exact (H3 x sc E)|by eapply H3].
Qed.

Lemma destroy_pool_keeps dev (a : Z * (Z * Z)) B h :
  (KDevice, dev) ∈ B → pool_objs (snd a) ⊎ B ⊆ live h → sound h →
  let '(_, h') := (_ ← call_drv drv (Destroy KPool [(KDevice, dev)] (snd (snd a))); mret ()) h in B ⊆ live h' ∧ sound h'.
Proof.
  intros Hd H Hs. change (pool_objs (snd a)) with ({[+ (KPool, snd (snd a)) +]} : gmultiset obj) in H. run.
  split; [change (live (_ :: h)) with (live h ∖ {[+ (KPool, snd (snd a)) +]}); multiset_solver|].
  split; [|done]. split; [apply Forall_cons_2; [multiset_solver|apply Forall_nil_2]|multiset_solver].
Qed.
Lemma destroy_device_safe s h x : safe (s, h) → safe (on_ (s, h) (λ s, vk_real_destroy_device drv s x)).
Proof.
  intros S. unfold on_, vk_real_destroy_device. cbn [fst snd]. destruct (real_dev s !! x) as [d|] eqn:Ed; [|exact S].
  set (s' := mk_real _ _ (delete x _) _ _ _ _ _ _). set (dev := rd_dev d).
  set (P := tbl pool_objs (owned_by x (real_pool s))). set (W := tbl swap_objs (chains_of x (real_swapchain s))).
  set (X := tbl shader_objs (owned_by x (real_shader s))). set (V := {[+ (KDevice, dev) +]} : gmultiset obj).
  assert (Hh : held s = P ⊎ (W ⊎ (X ⊎ (V ⊎ held s')))).
  { unfold held, s'. cbn [real_inst real_dev real_pool real_shader real_swapchain].
    rewrite (tbl_delete dev_objs _ _ _ Ed). change (dev_objs d) with V.
    rewrite (tbl_split pool_objs (λ p, fst (snd p) = x) (real_pool s)), (tbl_split shader_objs (λ p, fst (snd p) = x) (real_shader s)),
      (tbl_split swap_objs (λ p, sc_vdev (snd p) = x) (real_swapchain s)).
    unfold P, W, X, owned_by, not_owned_by, chains_of, chains_not_of. multiset_solver. }
  pose proof S as [H1 H2 H3]. cbn [fst snd] in *. rewrite Hh in H2.
  assert (Hw : ∀ v sc, real_swapchain s' !! v = Some sc → Forall whole (sc_images sc)).
  { intros v sc. unfold s'. cbn [real_swapchain]. intros [E _]%map_lookup_filter_Some. by eapply H3. }
  clearbody s'. unfold note, call_drv. cbv zeta. unfold mbind, M_bind, mret, M_ret. set (e := (Do _ _ _, _)).
  assert (Hs : sound (e :: h)) by (split; [apply Forall_cons_2; [unfold V in *; multiset_solver|apply Forall_nil_2]|done]).
  assert (Hl : live (e :: h) = live h) by done. clearbody e.
  match goal with |- context [for_each ?g (in_order (owned_by x (real_pool s)))] => set (g1 := g) end.
  pose proof (for_each_keeps (λ p, pool_objs (snd p)) g1 dev (W ⊎ (X ⊎ (V ⊎ held s'))) (in_order (owned_by x (real_pool s))) (e :: h)
    (destroy_pool_keeps dev) ltac:(unfold V; multiset_solver) ltac:(rewrite <- tbl_in_order; by rewrite Hl) Hs) as K1.
  destruct (for_each g1 _ _) as [u1 h1]. destruct K1 as [K1 S1].
  pose proof (for_each_keeps (λ p, swap_objs (snd p)) (λ p, free_images drv dev (sc_images (snd p))) dev (X ⊎ (V ⊎ held s'))
    (in_order (chains_of x (real_swapchain s))) h1 (λ a, free_images_keeps dev (sc_images (snd a)))
    ltac:(unfold V; multiset_solver) ltac:(by rewrite <- tbl_in_order) S1) as K2.
  destruct (for_each _ _ h1) as [u2 h2]. destruct K2 as [K2 S2].
  pose proof (for_each_keeps (λ p, shader_objs (snd p)) (λ p, destroy_module drv dev (snd (snd p))) dev (V ⊎ held s')
    (in_order (owned_by x (real_shader s))) h2 (λ a, destroy_module_keeps dev (snd (snd a)))
    ltac:(unfold V; multiset_solver) ltac:(by rewrite <- tbl_in_order) S2) as K3.
  destruct (for_each _ _ h2) as [u3 h3]. destruct K3 as [K3 S3]. unfold V in K3.
  split; cbn [fst snd]; [|change (live (_ :: h3)) with (live h3 ∖ {[+ (KDevice, dev) +]}); multiset_solver|done].
  split; [|done]. split; [apply Forall_nil_2|multiset_solver].
Qed.

(** The cases of the batch decoder over these functions. *)
Lemma serve_safe q o (c : C) : safe c → safe (serve (host drv phys sink) q o c).1.2.
Proof.
  destruct c as [s h]. intros S.
  destruct q; open_serve; cbn [host with_out quietly fmap option_fmap option_map create_instance enumerate query_props image_format_props format_props
    destroy_instance create_device get_queue create_device2 get_queue2 create_pool alloc_cmd clear_submit draw_submit destroy_device
    create_shader_module destroy_shader_module create_swapchain destroy_swapchain acquire_next_image draw_present fst snd];
    try exact S.
  - pose proof (create_instance_safe s h vinst app_api S) as H. by destruct (on (s, h) _).
  - pose proof (enumerate_safe s h vinst vphys_base S) as H. by destruct (on (s, h) _).
  - pose proof (props_safe s h vphys no_props S) as H. by destruct (reading (s, h) _) as [[[] p] c].
  - pose proof (image_props_safe s h vphys [format; type; tiling; usage; flags] (mk_ifp (-11) 0 0 0 0 0 0 0) S) as H. by destruct (reading (s, h) _).
  - pose proof (create_device2_safe s h vphys vdev qcis exts feats S) as H. by destruct (on (s, h) _) as [[] ?].
  - exact (get_queue2_safe s h vdev fam queue_index vqueue S).
  - pose proof (format_props_safe s h vphys format (mk_fp 0 0 0) S) as H. by destruct (reading (s, h) _).
  - exact (destroy_instance_safe s h vinst S).
  - pose proof (create_device_safe s h vphys vdev S) as H. by destruct (on (s, h) _) as [[] ?].
  - exact (get_queue_safe s h vdev queue_index vqueue S).
  - pose proof (create_pool_safe s h vdev vpool S) as H. by destruct (on (s, h) _).
  - pose proof (alloc_cmd_safe s h vdev vpool vcmd S) as H. by destruct (on (s, h) _).
  - set (rec := default no_clear _). pose proof (draw_submit_safe s h vdev vqueue vcmd rec S) as H1. pose proof (clear_submit_safe s h vdev vqueue vcmd rec S) as H2.
    destruct (is_draw rec); cbn [with_out fmap option_fmap option_map]; [clear H2|clear H1]; by destruct (reading (s, h) _) as [[] ?].
  - exact (destroy_device_safe s h vdev S).
  - pose proof (create_shader_safe s h vdev vshader spirv S) as H. by destruct (on (s, h) _).
  - pose proof (create_swapchain_safe s h vdev vsw w h0 cnt S) as H. by destruct (on (s, h) _) as [[] ?].
  - exact (destroy_shader_safe s h vdev vshader S).
  - pose proof (acquire_safe s h vsw S) as H. by destruct (vk_real_acquire_next_image s vsw) as [[[] ?] ?].
  - pose proof (draw_present_safe s h vdev vqueue vcmd (default no_clear (clears o !! vcmd)) S) as H. by destruct (on (s, h) _) as [[[] ?] ?].
  - exact (destroy_swapchain_safe s h vsw S).
Qed.
End safety.


(** ** What a device is asked for *)

(** A queue the driver can give: a family that exists, and no more queues than it has. *)
Definition queue_ok (p : physical) (fc : Z * Z) : Prop :=
  1 ≤ snd fc ≤ 64 ∧ (p_families p = [] ∨ (0 ≤ fst fc < count (p_families p) ∧
    snd fc ≤ Z.max 1 (snd (default (0, 0) (p_families p !! Z.to_nat (fst fc)))))).
Record request_ok (p : physical) (q : queue_request) : Prop := {
  rq_queues fc : fc ∈ qci q → queue_ok p fc;
  rq_counts f n : created_counts q !! f = Some n → (f, n) ∈ qci q;
  rq_created f n : (f, n) ∈ qci q → is_Some (created_counts q !! f);
  rq_first : first_gfx q ≠ UINT32_MAX → ∃ n, (first_gfx q, n) ∈ qci q }.
(** The families report sizes that are not negative. *)
Definition families_ok (p : physical) : Prop := Forall (λ f, 0 ≤ snd f) (p_families p).
Ltac case_clamp := repeat match goal with |- context [if ?b then _ else _] =>
  lazymatch b with context [if _ then _ else _] => fail | _ => let E := fresh in destruct b eqn:E end end; lia.
Lemma add_queue_ok p q fc : families_ok p → qci_ok fc → request_ok p q → request_ok p (add_queue (p_families p) q fc).
Proof.
  intros Hp Hfc [H1 H2 H3 H4]. apply Forall_cons in Hfc as [Hf Hfc]. apply Forall_cons in Hfc as [Hw _]. cbn [wire_ok] in Hf, Hw.
  unfold add_queue. set (fam := fst fc) in *. set (want := if snd fc =? 0 then 1 else snd fc). set (nqf := count (p_families p)).
  destruct ((0 <? nqf) && (nqf <=? fam)) eqn:Ein; [done|]. set (f := default (0, 0) _).
  set (cnt := if 64 <? _ then 64 else _).
  assert (Hw1 : 1 ≤ want) by (unfold want; destruct (snd fc =? 0) eqn:E; lia).
  assert (Hf0 : 0 ≤ snd f).
  { unfold f. destruct (p_families p !! Z.to_nat fam) as [g|] eqn:E; cbn; [|lia]. by apply (Forall_lookup_1 _ _ _ _ Hp E). }
  assert (Hq : queue_ok p (fam, cnt)).
  { unfold queue_ok. cbn [fst snd]. fold f. fold nqf. pose proof (count_nonneg (p_families p)). fold nqf in H.
    destruct (0 <? nqf) eqn:E0; cbn [andb] in *.
    - assert (Hin : (fam <? nqf) = true) by lia.
      assert (Hc : cnt = Z.min 64 (Z.max 1 (Z.min want (snd f)))) by (unfold cnt; rewrite Hin; cbn [andb]; case_clamp). lia.
    - assert (Hc : cnt = Z.min 64 want) by (unfold cnt; cbn [andb]; case_clamp). split; [lia|].
      left. apply nil_length_inv. clear -E0. unfold nqf, count in E0. lia. }
  split; cbn [qci created_counts first_gfx].
  - intros c [Hc|Hc%list_elem_of_singleton]%elem_of_app; [by apply H1|by subst].
  - intros g n [[<- <-]|[_ Hg]]%lookup_insert_Some; apply elem_of_app; [right; by apply list_elem_of_singleton|left; by apply H2].
  - intros g n Hg. destruct (decide (g = fam)) as [->|Hne]; [by simplify_map_eq|]. rewrite lookup_insert_ne by done.
    apply elem_of_app in Hg as [Hg|Hg%list_elem_of_singleton]; [by eapply H3|by simplify_eq].
  - destruct ((first_gfx q =? UINT32_MAX) && _); [intros _; exists cnt; apply elem_of_app; right; by apply list_elem_of_singleton|].
    intros Hn. destruct (H4 Hn) as [n Hg]. exists n. apply elem_of_app. by left.
Qed.
Lemma find_graphics_range i fs k : find_graphics i fs = Some k → i ≤ k < i + count fs.
Proof.
  revert i. induction fs as [|f fs IH]; intros i; cbn [find_graphics]; [done|]. unfold count in *. cbn [length].
  destruct (graphics f); [intros [= ->]; lia|]. intros H. apply IH in H. lia.
Qed.
Lemma queues_of_ok p qcis q :
  families_ok p → Forall qci_ok qcis → queues_of p qcis = Some q → request_ok p q ∧ ∃ n, (first_gfx q, n) ∈ qci q.
Proof.
  intros Hp Hq. unfold queues_of. set (s := foldl _ _ _).
  assert (Hs : request_ok p s).
  { unfold s. assert (H0 : request_ok p (mk_queues [] ∅ UINT32_MAX)) by (split; cbn; [by intros ? ?%elem_of_nil|done|by intros ? ? ?%elem_of_nil|done]).
    clear s. revert H0. generalize (mk_queues [] ∅ UINT32_MAX). induction Hq as [|fc l Hfc Hl IH]; intros s Hs; [done|].
    cbn [foldl]. apply IH. by apply add_queue_ok. }
  destruct (qci s) as [|[f0 n0] l] eqn:El.
  - destruct (vk_real_gfx_family p) as [k|] eqn:Ek; [|done]. cbn. intros [= <-]. apply find_graphics_range in Ek.
    split; [|exists 1; apply list_elem_of_here]. split; cbn [qci created_counts first_gfx].
    + intros fc ->%list_elem_of_singleton. unfold queue_ok. cbn [fst snd]. split; [lia|right; lia].
    + intros f n [<- <-]%lookup_singleton_Some. apply list_elem_of_here.
    + intros f n [= -> ->]%list_elem_of_singleton. by rewrite lookup_singleton_eq.
    + intros _. exists 1. apply list_elem_of_here.
  - destruct Hs as [H1 H2 H3 H4]. intros [= <-]. destruct (first_gfx s =? UINT32_MAX) eqn:E.
    + rewrite <- El. split; [|exists n0; cbn [first_gfx qci]; rewrite El; apply list_elem_of_here].
      split; cbn [qci created_counts first_gfx]; try done. intros _. exists n0. rewrite El. apply list_elem_of_here.
    + split; [by split|]. apply H4. lia.
Qed.
(** The extensions asked for are extensions of the driver. *)
Definition has_ext (p : physical) (e : bytes) : Prop := ∃ l, p_extensions p = Some l ∧ e ∈ l.
Lemma present_has p e : vk_real_dev_ext_present p e = true → has_ext p (c_str e).
Proof. unfold vk_real_dev_ext_present, has_ext. destruct (p_extensions p) as [l|]; [|done]. intros H%bool_decide_eq_true. eauto. Qed.
Lemma add_ext_has p n l : c_str n = n → Forall (has_ext p) l → Forall (has_ext p) (add_ext_if_present p n l).
Proof.
  intros Hn Hl. unfold add_ext_if_present. destruct (vk_real_dev_ext_present p n) eqn:E; [|done]. destruct (bool_decide _); [done|].
  apply Forall_app. split; [done|]. apply Forall_singleton. rewrite <- Hn. by apply present_has.
Qed.
Lemma guest_exts_has p exts l : Forall (has_ext p) l → Forall (has_ext p) (foldl (add_guest_ext p) l exts).
Proof.
  revert l. induction exts as [|e exts IH]; intros l Hl; [done|]. cbn [foldl]. apply IH. unfold add_guest_ext.
  destruct e as [|b e]; [done|]. destruct (bool_decide _); [done|]. destruct (vk_real_dev_ext_present p (b :: e)) eqn:E; [|done].
  destruct (bool_decide _); [done|]. apply Forall_app. split; [done|]. apply Forall_singleton. by apply present_has.
Qed.


(** ** A session *)

Definition mali : physical :=
  mk_physical 4206592 7 5045 1 1 (str "Mali-G615") [] [] [] [(7, 2); (2, 1)]
    (Some [kAlrVkAhbExt; kForeignExt; str "VK_KHR_swapchain"; str "VK_KHR_maintenance1"]) (λ _, mk_ifp 0 1 1 1 1 1 1 1) (λ _, mk_fp 0 0 0) true true.
Definition some_host : VkProvider C := host some_driver (λ _, mali) true.
Definition some_spirv : bytes := le_bytes 4 SPIRV_MAGIC ++ le_bytes 4 65536.
Definition one_device_up (vdev : Z) : list vk_req :=
  [CREATE_INSTANCE 1 0; ENUMERATE_PHYSICAL_DEVICES 1 16; CREATE_DEVICE2 1 16 vdev [(0, 1)] [str "VK_KHR_maintenance1"] []; GET_DEVICE_QUEUE2 vdev 0 0 3;
   CREATE_COMMAND_POOL vdev 4; ALLOCATE_COMMAND_BUFFERS vdev 4 5].
Definition frame_shown : list vk_req :=
  [CREATE_SHADER_MODULE 2 8 0 some_spirv; CREATE_SHADER_MODULE 2 9 4 some_spirv; CREATE_SWAPCHAIN 2 6 64 64 3; ACQUIRE_NEXT_IMAGE 2 6;
   CMD_BEGIN_DRAW_MODULES 2 5 6 0 8 9 64 64 0 0 0 0; QUEUE_PRESENT 2 3 5 6 0].
Definition all_down : list vk_req := [DESTROY_DEVICE 2; DESTROY_INSTANCE 1].
Definition after (qs : list vk_req) : C := (serve_all some_host qs no_objects (no_real, [])).1.2.
Definition answers_of (qs : list vk_req) : list vk_rep := (serve_all some_host qs no_objects (no_real, [])).2.
(** A frame from start to end; nothing is left. *)
Example frame_answered :
  answers_of (one_device_up 2 ++ frame_shown) =
  [R_INSTANCE 1 0; R_PHYS_COUNT 1 16 1 0; R_DEVICE 2 0 0; R_SHADER 8 0; R_SHADER 9 0; R_SWAPCHAIN 6 0 3; R_ACQUIRE 6 0 0;
   R_PRESENT 6 0 0 0 1 (mk_px 242 25 204 255)].
Proof. by vm_compute. Qed.
Example all_freed : bool_decide (live (snd (after (one_device_up 2 ++ frame_shown ++ all_down))) = ∅) = true.
Proof. by vm_compute. Qed.

(** ** What the tables do not keep apart *)

(** A queue outlives its device: the id still names the handle after the device is destroyed,
    and a device created again under the same id submits to it. *)
Example stale_queue :
  real_queue (fst (after (one_device_up 2 ++ all_down))) !! 3 = real_queue (fst (after (one_device_up 2))) !! 3 ∧
  is_Some (real_queue (fst (after (one_device_up 2 ++ all_down))) !! 3).
Proof. split; vm_compute; eauto. Qed.
(** The physical devices outlive their instance. *)
Example stale_physical : real_inst (fst (after (one_device_up 2 ++ all_down))) = ∅ ∧ real_phys (fst (after (one_device_up 2 ++ all_down))) = {[16 := 7]}.
Proof. by vm_compute. Qed.
(** An id used twice loses the first device. *)
Definition created_twice : list vk_req := [CREATE_INSTANCE 1 0; ENUMERATE_PHYSICAL_DEVICES 1 16; CREATE_DEVICE 1 16 2; CREATE_DEVICE 1 16 2].
Example device_lost : bool_decide (live (snd (after (created_twice ++ all_down))) = {[+ (KDevice, 4) +]}) = true.
Proof. by vm_compute. Qed.
(** A command buffer comes from the pool of another device, and a module is destroyed on the
    device the guest names. *)
Definition second_device : list vk_req := [CREATE_DEVICE 1 16 12; ALLOCATE_COMMAND_BUFFERS 12 4 15].
Example foreign_pool :
  let s := fst (after (one_device_up 2 ++ second_device)) in
  fst <$> real_pool s !! 4 = Some 2 ∧ fst <$> real_cmd s !! 15 = Some 12.
Proof. by vm_compute. Qed.
Example foreign_module :
  ∃ h a, snd (after (one_device_up 2 ++ second_device ++ [CREATE_SHADER_MODULE 2 8 0 some_spirv; DESTROY_SHADER_MODULE 12 8]))
  = (Destroy KShader [(KDevice, 8)] 10, a) :: (Create KShader [(KDevice, 4)] [8] [[some_spirv]], mk_ans 0 [10]) :: h.
Proof. vm_compute. eauto. Qed.
(** A family named twice is requested twice, which Vulkan forbids. *)
Example family_twice : qci <$> queues_of mali [(0, 1); (0, 1)] = Some [(0, 1); (0, 1)].
Proof. by vm_compute. Qed.
(** A name with a NUL byte at its end passes the filter of the swapchain extension, and is
    taken for another name than its own. *)
Example filter_bypassed :
  let nul (n : bytes) := n ++ [byte_of 0] in
  extensions_of mali [nul (str "VK_KHR_swapchain"); nul (str "VK_KHR_maintenance1"); nul (str "VK_KHR_maintenance1")]
  = [str "VK_KHR_swapchain"; str "VK_KHR_maintenance1"; str "VK_KHR_maintenance1"; kAlrVkAhbExt; kForeignExt].
Proof. by vm_compute. Qed.
(** The type that is checked is not the type the driver reads. *)
Example feature_type_forged :
  chain_of [(49, le_bytes 4 1000999000 ++ repeat (byte_of 0) 12)] = [le_bytes 4 1000999000 ++ repeat (byte_of 0) 4].
Proof. by vm_compute. Qed.
(** The coarse path asks for any index of the one queue it made. *)
Example queue_index_unchecked :
  ∃ a h, snd (after [CREATE_INSTANCE 1 0; ENUMERATE_PHYSICAL_DEVICES 1 16; CREATE_DEVICE 1 16 2; GET_DEVICE_QUEUE 2 9 3])
  = (Do GetDeviceQueue [(KDevice, 4)] [0; 9], a) :: h.
Proof. vm_compute. eauto. Qed.
