(* ===== verification/GlesDecode.v ===== *)
(** * The GLES command stream: [alr_gpu_decode.hpp] and [alr_gles_proto.h]

    The wire format of the GPU path, both ends of it: the operations, the
    bounds-checked [Reader] and [decode_batch] of the host, the [AlrEncoder] and
    the builders of the guest shim.

    A decoder case first reads all its fields and then calls GL; [parse_op] is the
    reads of the cases and [exec_op] their calls.  The GL library is a parameter
    ([GL]): the names it allocates and the locations it answers may depend on all
    calls made so far, and every call is recorded. *)

From S2P Require Import Prelude Bytes Wire.
Open Scope Z_scope.

(** ** Operations, with the fields of the wire *)

Inductive gop :=
| OP_VIEWPORT (x y w h : Z)
| OP_CLEARCOLOR (c : list Z)
| OP_CLEAR
| OP_ENABLE_SCISSOR
| OP_SCISSOR (x y w h : Z)
| OP_DISABLE_SCISSOR
| OP_CREATE_SHADER (vid type : Z)
| OP_SHADER_SOURCE (vid : Z) (src : bytes)
| OP_COMPILE_SHADER (vid : Z)
| OP_CREATE_PROGRAM (vid : Z)
| OP_ATTACH_SHADER (vp vs : Z)
| OP_BIND_ATTRIB_LOCATION (vp index : Z) (name : bytes)
| OP_LINK_PROGRAM (vp : Z)
| OP_USE_PROGRAM (vp : Z)
| OP_GEN_BUFFER (vid : Z)
| OP_BIND_BUFFER (target vid : Z)
| OP_BUFFER_DATA (target : Z) (d : bytes) (usage : Z)
| OP_BUFFER_SUBDATA (target offset : Z) (d : bytes)
| OP_ENABLE_VAA (index : Z)
| OP_VERTEX_ATTRIB_POINTER (index size type norm stride offset : Z)
| OP_DRAW_ARRAYS (mode first count : Z)
| OP_UNIFORM_MATRIX4FV (vp : Z) (name : bytes) (m : list Z)
| OP_UNIFORM1I (vp : Z) (name : bytes) (val : Z)
| OP_UNIFORM_FV (vp : Z) (name : bytes) (cols count : Z) (v : list Z)
| OP_UNIFORM_IV (vp : Z) (name : bytes) (cols count : Z) (v : list Z)
| OP_UNIFORM_MATRIX_FV (vp : Z) (name : bytes) (dim count : Z) (v : list Z)
| OP_GEN_TEXTURE (vid : Z)
| OP_ACTIVE_TEXTURE (unit : Z)
| OP_BIND_TEXTURE (target vid : Z)
| OP_TEX_PARAMETERI (target pname param : Z)
| OP_TEX_IMAGE_2D (target level ifmt w h fmt type : Z) (d : bytes)
| OP_GENERATE_MIPMAP (target : Z)
| OP_TEX_SUBIMAGE_2D (target level xoff yoff w h fmt type : Z) (d : bytes)
| OP_ENABLE (cap : Z)
| OP_DISABLE (cap : Z)
| OP_DEPTH_FUNC (func : Z)
| OP_CULL_FACE (mode : Z)
| OP_FRONT_FACE (mode : Z)
| OP_ENABLE_VAA_NAMED (vp : Z) (name : bytes)
| OP_VERTEX_ATTRIB_POINTER_NAMED (vp : Z) (name : bytes) (size type norm stride offset : Z)
| OP_DRAW_ELEMENTS (mode count type offset : Z)
| OP_VERTEX_ATTRIB_F (index ncomp : Z) (v : list Z)
| OP_VERTEX_ATTRIB_F_NAMED (vp : Z) (name : bytes) (ncomp : Z) (v : list Z)
| OP_GEN_FRAMEBUFFER (vid : Z)
| OP_BIND_FRAMEBUFFER (target vid : Z)
| OP_FRAMEBUFFER_TEXTURE2D (target attachment textarget vtex level : Z)
| OP_GEN_RENDERBUFFER (vid : Z)
| OP_BIND_RENDERBUFFER (target vid : Z)
| OP_RENDERBUFFER_STORAGE (target ifmt w h : Z)
| OP_FRAMEBUFFER_RENDERBUFFER (target attachment rbtarget vrb : Z)
| OP_GEN_VERTEX_ARRAY (vid : Z)
| OP_BIND_VERTEX_ARRAY (vid : Z)
| OP_DRAW_ARRAYS_INSTANCED (mode first count inst : Z)
| OP_DRAW_ELEMENTS_INSTANCED (mode count type offset inst : Z)
| OP_VERTEX_ATTRIB_DIVISOR (index divisor : Z)
| OP_VERTEX_ATTRIB_DIVISOR_NAMED (vp : Z) (name : bytes) (divisor : Z)
| OP_BLEND_FUNC (s d : Z)
| OP_BLEND_FUNC_SEPARATE (sr dr sa da : Z)
| OP_BLEND_EQUATION (mode : Z)
| OP_BLEND_EQUATION_SEPARATE (mr ma : Z)
| OP_BLEND_COLOR (c : list Z)
| OP_COLOR_MASK (cr cg cb ca : Z)
| OP_DEPTH_MASK (f : Z)
| OP_DEPTH_RANGEF (n fr : Z)
| OP_CLEAR_DEPTHF (d : Z)
| OP_CLEAR_STENCIL (s : Z)
| OP_STENCIL_FUNC (func ref mask : Z)
| OP_STENCIL_FUNC_SEPARATE (face func ref mask : Z)
| OP_STENCIL_OP (sf df dp : Z)
| OP_STENCIL_OP_SEPARATE (face sf df dp : Z)
| OP_STENCIL_MASK (m : Z)
| OP_STENCIL_MASK_SEPARATE (face m : Z)
| OP_POLYGON_OFFSET (factor units : Z)
| OP_LINE_WIDTH (w : Z)
| OP_SAMPLE_COVERAGE (v inv : Z)
| OP_BIND_BUFFER_BASE (target index vid : Z)
| OP_BIND_BUFFER_RANGE (target index vid offset size : Z)
| OP_UNIFORM_BLOCK_BINDING (vp : Z) (name : bytes) (binding : Z)
| OP_GEN_SAMPLER (vid : Z)
| OP_BIND_SAMPLER (unit vid : Z)
| OP_SAMPLER_PARAMETERI (vid pname param : Z)
| OP_DRAW_BUFFERS (n : Z) (bufs : list Z)
| OP_READ_BUFFER (mode : Z)
| OP_INVALIDATE_FRAMEBUFFER (target n : Z) (att : list Z).

(** [enum Op : uint8_t]. *)
Definition opcode (w : gop) : Z :=
  match w with
  | OP_VIEWPORT _ _ _ _ => 1 | OP_CLEARCOLOR _ => 2 | OP_CLEAR => 3
  | OP_ENABLE_SCISSOR => 4 | OP_SCISSOR _ _ _ _ => 5 | OP_DISABLE_SCISSOR => 6
  | OP_CREATE_SHADER _ _ => 20 | OP_SHADER_SOURCE _ _ => 21 | OP_COMPILE_SHADER _ => 22
  | OP_CREATE_PROGRAM _ => 23 | OP_ATTACH_SHADER _ _ => 24
  | OP_BIND_ATTRIB_LOCATION _ _ _ => 25 | OP_LINK_PROGRAM _ => 26 | OP_USE_PROGRAM _ => 27
  | OP_GEN_BUFFER _ => 30 | OP_BIND_BUFFER _ _ => 31 | OP_BUFFER_DATA _ _ _ => 32
  | OP_BUFFER_SUBDATA _ _ _ => 33
  | OP_ENABLE_VAA _ => 40 | OP_VERTEX_ATTRIB_POINTER _ _ _ _ _ _ => 41
  | OP_DRAW_ARRAYS _ _ _ => 42
  | OP_UNIFORM_MATRIX4FV _ _ _ => 50 | OP_UNIFORM1I _ _ _ => 51
  | OP_UNIFORM_FV _ _ _ _ _ => 52 | OP_UNIFORM_IV _ _ _ _ _ => 53
  | OP_UNIFORM_MATRIX_FV _ _ _ _ _ => 54
  | OP_GEN_TEXTURE _ => 60 | OP_ACTIVE_TEXTURE _ => 61 | OP_BIND_TEXTURE _ _ => 62
  | OP_TEX_PARAMETERI _ _ _ => 63 | OP_TEX_IMAGE_2D _ _ _ _ _ _ _ _ => 64
  | OP_GENERATE_MIPMAP _ => 65 | OP_TEX_SUBIMAGE_2D _ _ _ _ _ _ _ _ _ => 66
  | OP_ENABLE _ => 70 | OP_DISABLE _ => 71 | OP_DEPTH_FUNC _ => 72 | OP_CULL_FACE _ => 73
  | OP_FRONT_FACE _ => 74
  | OP_ENABLE_VAA_NAMED _ _ => 80 | OP_VERTEX_ATTRIB_POINTER_NAMED _ _ _ _ _ _ _ => 81
  | OP_DRAW_ELEMENTS _ _ _ _ => 82
  | OP_VERTEX_ATTRIB_F _ _ _ => 84 | OP_VERTEX_ATTRIB_F_NAMED _ _ _ _ => 85
  | OP_GEN_FRAMEBUFFER _ => 90 | OP_BIND_FRAMEBUFFER _ _ => 91
  | OP_FRAMEBUFFER_TEXTURE2D _ _ _ _ _ => 92 | OP_GEN_RENDERBUFFER _ => 93
  | OP_BIND_RENDERBUFFER _ _ => 94 | OP_RENDERBUFFER_STORAGE _ _ _ _ => 95
  | OP_FRAMEBUFFER_RENDERBUFFER _ _ _ _ => 96
  | OP_GEN_VERTEX_ARRAY _ => 100 | OP_BIND_VERTEX_ARRAY _ => 101
  | OP_DRAW_ARRAYS_INSTANCED _ _ _ _ => 102 | OP_DRAW_ELEMENTS_INSTANCED _ _ _ _ _ => 103
  | OP_VERTEX_ATTRIB_DIVISOR _ _ => 104 | OP_VERTEX_ATTRIB_DIVISOR_NAMED _ _ _ => 105
  | OP_BLEND_FUNC _ _ => 110 | OP_BLEND_FUNC_SEPARATE _ _ _ _ => 111
  | OP_BLEND_EQUATION _ => 112 | OP_BLEND_EQUATION_SEPARATE _ _ => 113
  | OP_BLEND_COLOR _ => 114 | OP_COLOR_MASK _ _ _ _ => 115 | OP_DEPTH_MASK _ => 116
  | OP_DEPTH_RANGEF _ _ => 117 | OP_CLEAR_DEPTHF _ => 118 | OP_CLEAR_STENCIL _ => 119
  | OP_STENCIL_FUNC _ _ _ => 120 | OP_STENCIL_FUNC_SEPARATE _ _ _ _ => 121
  | OP_STENCIL_OP _ _ _ => 122 | OP_STENCIL_OP_SEPARATE _ _ _ _ => 123
  | OP_STENCIL_MASK _ => 124 | OP_STENCIL_MASK_SEPARATE _ _ => 125
  | OP_POLYGON_OFFSET _ _ => 126 | OP_LINE_WIDTH _ => 127 | OP_SAMPLE_COVERAGE _ _ => 128
  | OP_BIND_BUFFER_BASE _ _ _ => 130 | OP_BIND_BUFFER_RANGE _ _ _ _ _ => 131
  | OP_UNIFORM_BLOCK_BINDING _ _ _ => 132 | OP_GEN_SAMPLER _ => 133
  | OP_BIND_SAMPLER _ _ => 134 | OP_SAMPLER_PARAMETERI _ _ _ => 135
  | OP_DRAW_BUFFERS _ _ => 136 | OP_READ_BUFFER _ => 137
  | OP_INVALIDATE_FRAMEBUFFER _ _ _ => 138
  end.
Definition OP_END : Z := 0.

Definition rd4 (f : Z → Z → Z → Z → gop) (a b c d : rd Z) : rd gop :=
  x ← a; y ← b; z ← c; w ← d; mret (f x y z w).
Definition rd3 (f : Z → Z → Z → gop) (a b c : rd Z) : rd gop :=
  x ← a; y ← b; z ← c; mret (f x y z).
Definition rd2 (f : Z → Z → gop) (a b : rd Z) : rd gop := x ← a; y ← b; mret (f x y).
Definition rd1 (f : Z → gop) (a : rd Z) : rd gop := x ← a; mret (f x).

(** The field reads of each [case] of [decode_batch], by group of opcodes;
    [None] is [st.ok = false]. *)
Definition parse_raster (op : Z) : rd gop :=
  match op with
  | 1 => rd4 OP_VIEWPORT rd_i32 rd_i32 rd_i32 rd_i32
  | 2 => c ← rd_floats 4; mret (OP_CLEARCOLOR c)
  | 3 => mret OP_CLEAR
  | 4 => mret OP_ENABLE_SCISSOR
  | 5 => rd4 OP_SCISSOR rd_i32 rd_i32 rd_i32 rd_i32
  | 6 => mret OP_DISABLE_SCISSOR
  | _ => rd_fail
  end.
Definition parse_shader (op : Z) : rd gop :=
  match op with
  | 20 => rd2 OP_CREATE_SHADER rd_u32 rd_u32
  | 21 => vid ← rd_u32; src ← rd_blob; mret (OP_SHADER_SOURCE vid src)
  | 22 => rd1 OP_COMPILE_SHADER rd_u32
  | 23 => rd1 OP_CREATE_PROGRAM rd_u32
  | 24 => rd2 OP_ATTACH_SHADER rd_u32 rd_u32
  | 25 => vp ← rd_u32; index ← rd_u32; name ← rd_blob;
          mret (OP_BIND_ATTRIB_LOCATION vp index name)
  | 26 => rd1 OP_LINK_PROGRAM rd_u32
  | 27 => rd1 OP_USE_PROGRAM rd_u32
  | _ => rd_fail
  end.
Definition parse_buffer (op : Z) : rd gop :=
  match op with
  | 30 => rd1 OP_GEN_BUFFER rd_u32
  | 31 => rd2 OP_BIND_BUFFER rd_u32 rd_u32
  | 32 => target ← rd_u32; d ← rd_blob; usage ← rd_u32; mret (OP_BUFFER_DATA target d usage)
  | 33 => target ← rd_u32; offset ← rd_u32; d ← rd_blob;
          mret (OP_BUFFER_SUBDATA target offset d)
  | 40 => rd1 OP_ENABLE_VAA rd_u32
  | 41 => index ← rd_u32; size ← rd_i32; type ← rd_u32; norm ← rd_u8;
          stride ← rd_i32; offset ← rd_u32;
          mret (OP_VERTEX_ATTRIB_POINTER index size type norm stride offset)
  | 42 => rd3 OP_DRAW_ARRAYS rd_u32 rd_i32 rd_i32
  | _ => rd_fail
  end.
Definition parse_uniform (op : Z) : rd gop :=
  match op with
  | 50 => vp ← rd_u32; name ← rd_blob; m ← rd_floats 16;
          mret (OP_UNIFORM_MATRIX4FV vp name m)
  | 51 => vp ← rd_u32; name ← rd_blob; val ← rd_i32; mret (OP_UNIFORM1I vp name val)
  | 52 => vp ← rd_u32; name ← rd_blob; cols ← rd_u8; count ← rd_u32;
          if (cols <? 1) || (4 <? cols) then rd_fail
          else v ← rd_floats (cols * count); mret (OP_UNIFORM_FV vp name cols count v)
  | 53 => vp ← rd_u32; name ← rd_blob; cols ← rd_u8; count ← rd_u32;
          if (cols <? 1) || (4 <? cols) then rd_fail
          else v ← rd_words rd_i32 (cols * count); mret (OP_UNIFORM_IV vp name cols count v)
  | 54 => vp ← rd_u32; name ← rd_blob; dim ← rd_u8; count ← rd_u32;
          if (dim <? 2) || (3 <? dim) then rd_fail
          else v ← rd_floats (dim * dim * count);
               mret (OP_UNIFORM_MATRIX_FV vp name dim count v)
  | _ => rd_fail
  end.
Definition parse_texture (op : Z) : rd gop :=
  match op with
  | 60 => rd1 OP_GEN_TEXTURE rd_u32
  | 61 => rd1 OP_ACTIVE_TEXTURE rd_u32
  | 62 => rd2 OP_BIND_TEXTURE rd_u32 rd_u32
  | 63 => rd3 OP_TEX_PARAMETERI rd_u32 rd_u32 rd_i32
  | 64 => target ← rd_u32; level ← rd_i32; ifmt ← rd_u32; w ← rd_i32; h ← rd_i32;
          fmt ← rd_u32; type ← rd_u32; d ← rd_blob;
          mret (OP_TEX_IMAGE_2D target level ifmt w h fmt type d)
  | 65 => rd1 OP_GENERATE_MIPMAP rd_u32
  | 66 => target ← rd_u32; level ← rd_i32; xoff ← rd_i32; yoff ← rd_i32; w ← rd_i32;
          h ← rd_i32; fmt ← rd_u32; type ← rd_u32; d ← rd_blob;
          mret (OP_TEX_SUBIMAGE_2D target level xoff yoff w h fmt type d)
  | _ => rd_fail
  end.
Definition parse_enable (op : Z) : rd gop :=
  match op with
  | 70 => rd1 OP_ENABLE rd_u32
  | 71 => rd1 OP_DISABLE rd_u32
  | 72 => rd1 OP_DEPTH_FUNC rd_u32
  | 73 => rd1 OP_CULL_FACE rd_u32
  | 74 => rd1 OP_FRONT_FACE rd_u32
  | _ => rd_fail
  end.
Definition parse_named (op : Z) : rd gop :=
  match op with
  | 80 => vp ← rd_u32; name ← rd_blob; mret (OP_ENABLE_VAA_NAMED vp name)
  | 81 => vp ← rd_u32; name ← rd_blob; size ← rd_i32; type ← rd_u32; norm ← rd_u8;
          stride ← rd_i32; offset ← rd_u32;
          mret (OP_VERTEX_ATTRIB_POINTER_NAMED vp name size type norm stride offset)
  | 82 => rd4 OP_DRAW_ELEMENTS rd_u32 rd_i32 rd_u32 rd_u32
  | 84 => index ← rd_u32; ncomp ← rd_u8;
          if (ncomp <? 1) || (4 <? ncomp) then rd_fail
          else v ← rd_floats ncomp; mret (OP_VERTEX_ATTRIB_F index ncomp v)
  | 85 => vp ← rd_u32; name ← rd_blob; ncomp ← rd_u8;
          if (ncomp <? 1) || (4 <? ncomp) then rd_fail
          else v ← rd_floats ncomp; mret (OP_VERTEX_ATTRIB_F_NAMED vp name ncomp v)
  | _ => rd_fail
  end.
Definition parse_framebuffer (op : Z) : rd gop :=
  match op with
  | 90 => rd1 OP_GEN_FRAMEBUFFER rd_u32
  | 91 => rd2 OP_BIND_FRAMEBUFFER rd_u32 rd_u32
  | 92 => target ← rd_u32; attachment ← rd_u32; textarget ← rd_u32; vtex ← rd_u32;
          level ← rd_i32;
          mret (OP_FRAMEBUFFER_TEXTURE2D target attachment textarget vtex level)
  | 93 => rd1 OP_GEN_RENDERBUFFER rd_u32
  | 94 => rd2 OP_BIND_RENDERBUFFER rd_u32 rd_u32
  | 95 => rd4 OP_RENDERBUFFER_STORAGE rd_u32 rd_u32 rd_i32 rd_i32
  | 96 => rd4 OP_FRAMEBUFFER_RENDERBUFFER rd_u32 rd_u32 rd_u32 rd_u32
  | _ => rd_fail
  end.
Definition parse_instanced (op : Z) : rd gop :=
  match op with
  | 100 => rd1 OP_GEN_VERTEX_ARRAY rd_u32
  | 101 => rd1 OP_BIND_VERTEX_ARRAY rd_u32
  | 102 => rd4 OP_DRAW_ARRAYS_INSTANCED rd_u32 rd_i32 rd_i32 rd_i32
  | 103 => mode ← rd_u32; count ← rd_i32; type ← rd_u32; offset ← rd_u32; inst ← rd_i32;
           mret (OP_DRAW_ELEMENTS_INSTANCED mode count type offset inst)
  | 104 => rd2 OP_VERTEX_ATTRIB_DIVISOR rd_u32 rd_u32
  | 105 => vp ← rd_u32; name ← rd_blob; divisor ← rd_u32;
           mret (OP_VERTEX_ATTRIB_DIVISOR_NAMED vp name divisor)
  | _ => rd_fail
  end.
Definition parse_state (op : Z) : rd gop :=
  match op with
  | 110 => rd2 OP_BLEND_FUNC rd_u32 rd_u32
  | 111 => rd4 OP_BLEND_FUNC_SEPARATE rd_u32 rd_u32 rd_u32 rd_u32
  | 112 => rd1 OP_BLEND_EQUATION rd_u32
  | 113 => rd2 OP_BLEND_EQUATION_SEPARATE rd_u32 rd_u32
  | 114 => c ← rd_floats 4; mret (OP_BLEND_COLOR c)
  | 115 => rd4 OP_COLOR_MASK rd_u8 rd_u8 rd_u8 rd_u8
  | 116 => rd1 OP_DEPTH_MASK rd_u8
  | 117 => rd2 OP_DEPTH_RANGEF rd_f32 rd_f32
  | 118 => rd1 OP_CLEAR_DEPTHF rd_f32
  | 119 => rd1 OP_CLEAR_STENCIL rd_i32
  | 120 => rd3 OP_STENCIL_FUNC rd_u32 rd_i32 rd_u32
  | 121 => rd4 OP_STENCIL_FUNC_SEPARATE rd_u32 rd_u32 rd_i32 rd_u32
  | 122 => rd3 OP_STENCIL_OP rd_u32 rd_u32 rd_u32
  | 123 => rd4 OP_STENCIL_OP_SEPARATE rd_u32 rd_u32 rd_u32 rd_u32
  | 124 => rd1 OP_STENCIL_MASK rd_u32
  | 125 => rd2 OP_STENCIL_MASK_SEPARATE rd_u32 rd_u32
  | 126 => rd2 OP_POLYGON_OFFSET rd_f32 rd_f32
  | 127 => rd1 OP_LINE_WIDTH rd_f32
  | 128 => rd2 OP_SAMPLE_COVERAGE rd_f32 rd_u8
  | _ => rd_fail
  end.
Definition parse_gles3 (op : Z) : rd gop :=
  match op with
  | 130 => rd3 OP_BIND_BUFFER_BASE rd_u32 rd_u32 rd_u32
  | 131 => target ← rd_u32; index ← rd_u32; vid ← rd_u32; offset ← rd_u32; size ← rd_u32;
           mret (OP_BIND_BUFFER_RANGE target index vid offset size)
  | 132 => vp ← rd_u32; name ← rd_blob; binding ← rd_u32;
           mret (OP_UNIFORM_BLOCK_BINDING vp name binding)
  | 133 => rd1 OP_GEN_SAMPLER rd_u32
  | 134 => rd2 OP_BIND_SAMPLER rd_u32 rd_u32
  | 135 => rd3 OP_SAMPLER_PARAMETERI rd_u32 rd_u32 rd_i32
  | 136 => n ← rd_u32; bufs ← rd_words rd_u32 n; mret (OP_DRAW_BUFFERS n bufs)
  | 137 => rd1 OP_READ_BUFFER rd_u32
  | 138 => target ← rd_u32; n ← rd_u32; att ← rd_words rd_u32 n;
           mret (OP_INVALIDATE_FRAMEBUFFER target n att)
  | _ => rd_fail
  end.
(** An unknown opcode is fail-stop. *)
Definition parse_op (op : Z) : rd gop :=
  if op <=? 19 then parse_raster op else
  if op <=? 29 then parse_shader op else
  if op <=? 49 then parse_buffer op else
  if op <=? 59 then parse_uniform op else
  if op <=? 69 then parse_texture op else
  if op <=? 79 then parse_enable op else
  if op <=? 89 then parse_named op else
  if op <=? 99 then parse_framebuffer op else
  if op <=? 109 then parse_instanced op else
  if op <=? 129 then parse_state op else
  parse_gles3 op.

(** ** The host: virtual names and GL calls *)

(** An argument of a GL call.  [New] is a name the call returns; [Obj] is a
    parameter that GL reads as the name of
    an object (shader, program, buffer, texture, framebuffer, ...). *)
Inductive arg :=
| Num (z : Z)
| Obj (z : Z)
| New (z : Z)
| Words (l : list Z)
| Blob (d : bytes)
| Null.
Record glcall := Call { gl_fn : string; gl_args : list arg }.

(** The GL library: what [glCreate*] and [glGen*] return after the given calls,
    and the location queries by name. *)
Record GL := mk_gl {
  gl_new : list glcall → Z;
  glGetAttribLocation : list glcall → Z → bytes → Z;
  glGetUniformLocation : list glcall → Z → bytes → Z;
  glGetUniformBlockIndex : list glcall → Z → bytes → Z;
}.
Definition GL_INVALID_INDEX : Z := 0xFFFFFFFF.

Record HostState := mk_st {
  shaders : gmap Z Z; programs : gmap Z Z; buffers : gmap Z Z; textures : gmap Z Z;
  framebuffers : gmap Z Z; renderbuffers : gmap Z Z; vertex_arrays : gmap Z Z;
  samplers : gmap Z Z;
  cur_program : Z; default_fbo : Z; ok : bool; decoded : Z;
  calls : list glcall;
}.

Definition lookup_name (m : gmap Z Z) (v : Z) : Z := default 0 (m !! v).
Definition real_shader (st : HostState) (v : Z) : Z := lookup_name (shaders st) v.
Definition real_prog (st : HostState) (v : Z) : Z := lookup_name (programs st) v.
Definition real_buf (st : HostState) (v : Z) : Z := lookup_name (buffers st) v.
Definition real_tex (st : HostState) (v : Z) : Z := lookup_name (textures st) v.
Definition real_fb (st : HostState) (v : Z) : Z :=
  if v =? 0 then default_fbo st else lookup_name (framebuffers st) v.
Definition real_rb (st : HostState) (v : Z) : Z := lookup_name (renderbuffers st) v.
Definition real_va (st : HostState) (v : Z) : Z :=
  if v =? 0 then 0 else lookup_name (vertex_arrays st) v.
Definition real_sampler (st : HostState) (v : Z) : Z :=
  if v =? 0 then 0 else lookup_name (samplers st) v.

Definition set_ok (b : bool) (st : HostState) : HostState :=
  mk_st (shaders st) (programs st) (buffers st) (textures st) (framebuffers st)
    (renderbuffers st) (vertex_arrays st) (samplers st) (cur_program st) (default_fbo st)
    b (decoded st) (calls st).
(** [gl...(...); ...; ++st.decoded;] *)
Definition call_all (cs : list glcall) (st : HostState) : HostState :=
  mk_st (shaders st) (programs st) (buffers st) (textures st) (framebuffers st)
    (renderbuffers st) (vertex_arrays st) (samplers st) (cur_program st) (default_fbo st)
    (ok st) (decoded st + 1) (calls st ++ cs).
Definition call (fn : string) (args : list arg) (st : HostState) : HostState :=
  call_all [Call fn args] st.

Inductive name_map :=
  MShader | MProgram | MBuffer | MTexture | MFramebuffer | MRenderbuffer | MVertexArray | MSampler.
(** [st.m[vid] = name]. *)
Definition set_name (m : name_map) (vid name : Z) (st : HostState) : HostState :=
  let put (k : name_map → bool) (mp : gmap Z Z) := if k m then <[vid := name]> mp else mp in
  mk_st
    (put (λ m, match m with MShader => true | _ => false end) (shaders st))
    (put (λ m, match m with MProgram => true | _ => false end) (programs st))
    (put (λ m, match m with MBuffer => true | _ => false end) (buffers st))
    (put (λ m, match m with MTexture => true | _ => false end) (textures st))
    (put (λ m, match m with MFramebuffer => true | _ => false end) (framebuffers st))
    (put (λ m, match m with MRenderbuffer => true | _ => false end) (renderbuffers st))
    (put (λ m, match m with MVertexArray => true | _ => false end) (vertex_arrays st))
    (put (λ m, match m with MSampler => true | _ => false end) (samplers st))
    (cur_program st) (default_fbo st) (ok st) (decoded st) (calls st).
Definition set_cur_program (p : Z) (st : HostState) : HostState :=
  mk_st (shaders st) (programs st) (buffers st) (textures st) (framebuffers st)
    (renderbuffers st) (vertex_arrays st) (samplers st) p (default_fbo st)
    (ok st) (decoded st) (calls st).

Section exec.
Context (G : GL).

(** [st.m[vid] = glCreate...(args)] / [glGen...(1, &name); st.m[vid] = name]. *)
Definition create (m : name_map) (fn : string) (args : list arg) (vid : Z) (st : HostState)
    : HostState :=
  let name := gl_new G (calls st) in
  call fn (args ++ [New name]) (set_name m vid name st).

Definition gl_bool (z : Z) : arg := Num (if z =? 0 then 0 else 1).
Definition opt_blob (d : bytes) : arg := match d with [] => Null | _ => Blob d end.

Definition glUniformNfv (cols : Z) : string :=
  match cols with
  | 1 => "glUniform1fv" | 2 => "glUniform2fv" | 3 => "glUniform3fv" | _ => "glUniform4fv"
  end.
Definition glUniformNiv (cols : Z) : string :=
  match cols with
  | 1 => "glUniform1iv" | 2 => "glUniform2iv" | 3 => "glUniform3iv" | _ => "glUniform4iv"
  end.
Definition glVertexAttribNfv (n : Z) : string :=
  match n with
  | 1 => "glVertexAttrib1fv" | 2 => "glVertexAttrib2fv" | 3 => "glVertexAttrib3fv"
  | _ => "glVertexAttrib4fv"
  end.

(** Look the location up by name on the real program, then call if it is there. *)
Definition with_uniform (vp : Z) (name : bytes) (st : HostState) (k : Z → list glcall)
    : HostState :=
  let loc := glGetUniformLocation G (calls st) (real_prog st vp) (c_str name) in
  call_all (Call "glGetUniformLocation" [Obj (real_prog st vp); Blob (c_str name)] ::
            if 0 <=? loc then k loc else []) st.
Definition with_attrib (vp : Z) (name : bytes) (st : HostState) (k : Z → list glcall)
    : HostState :=
  let loc := glGetAttribLocation G (calls st) (real_prog st vp) (c_str name) in
  call_all (Call "glGetAttribLocation" [Obj (real_prog st vp); Blob (c_str name)] ::
            if 0 <=? loc then k loc else []) st.

(** The calls of the cases for shaders, programs, uniforms and attributes. *)
Definition exec_program (w : gop) (st : HostState) : option HostState :=
  match w with
  | OP_CREATE_SHADER vid type => Some (create MShader "glCreateShader" [Num type] vid st)
  | OP_SHADER_SOURCE vid src =>
      Some (call "glShaderSource" [Obj (real_shader st vid); Num 1; Blob src;
              Num (s32 (Z.of_nat (length src)))] st)
  | OP_COMPILE_SHADER vid => Some (call "glCompileShader" [Obj (real_shader st vid)] st)
  | OP_CREATE_PROGRAM vid => Some (create MProgram "glCreateProgram" [] vid st)
  | OP_ATTACH_SHADER vp vs =>
      Some (call "glAttachShader" [Obj (real_prog st vp); Obj (real_shader st vs)] st)
  | OP_BIND_ATTRIB_LOCATION vp index name =>
      Some (call "glBindAttribLocation" [Obj (real_prog st vp); Num index; Blob (c_str name)] st)
  | OP_LINK_PROGRAM vp => Some (call "glLinkProgram" [Obj (real_prog st vp)] st)
  | OP_USE_PROGRAM vp =>
      let st := set_cur_program (real_prog st vp) st in
      Some (call "glUseProgram" [Obj (cur_program st)] st)
  | OP_UNIFORM_MATRIX4FV vp name m =>
      Some (with_uniform vp name st
        (λ loc, [Call "glUniformMatrix4fv" [Num loc; Num 1; Num 0; Words m]]))
  | OP_UNIFORM1I vp name val =>
      Some (with_uniform vp name st (λ loc, [Call "glUniform1i" [Num loc; Num val]]))
  | OP_UNIFORM_FV vp name cols count v =>
      Some (with_uniform vp name st
        (λ loc, [Call (glUniformNfv cols) [Num loc; Num (s32 count); Words v]]))
  | OP_UNIFORM_IV vp name cols count v =>
      Some (with_uniform vp name st
        (λ loc, [Call (glUniformNiv cols) [Num loc; Num (s32 count); Words v]]))
  | OP_UNIFORM_MATRIX_FV vp name dim count v =>
      Some (with_uniform vp name st
        (λ loc, [Call (if dim =? 2 then "glUniformMatrix2fv" else "glUniformMatrix3fv")
                   [Num loc; Num (s32 count); Num 0; Words v]]))
  | OP_UNIFORM_BLOCK_BINDING vp name binding =>
      let idx := glGetUniformBlockIndex G (calls st) (real_prog st vp) (c_str name) in
      Some (call_all
        (Call "glGetUniformBlockIndex" [Obj (real_prog st vp); Blob (c_str name)] ::
         if idx =? GL_INVALID_INDEX then []
         else [Call "glUniformBlockBinding" [Obj (real_prog st vp); Num idx; Num binding]]) st)
  | OP_ENABLE_VAA index => Some (call "glEnableVertexAttribArray" [Num index] st)
  | OP_VERTEX_ATTRIB_POINTER index size type norm stride offset =>
      Some (call "glVertexAttribPointer"
        [Num index; Num size; Num type; gl_bool norm; Num stride; Num offset] st)
  | OP_ENABLE_VAA_NAMED vp name =>
      Some (with_attrib vp name st (λ loc, [Call "glEnableVertexAttribArray" [Num loc]]))
  | OP_VERTEX_ATTRIB_POINTER_NAMED vp name size type norm stride offset =>
      Some (with_attrib vp name st
        (λ loc, [Call "glVertexAttribPointer"
           [Num loc; Num size; Num type; gl_bool norm; Num stride; Num offset]]))
  | OP_VERTEX_ATTRIB_F index ncomp v =>
      Some (call (glVertexAttribNfv ncomp) [Num index; Words v] st)
  | OP_VERTEX_ATTRIB_F_NAMED vp name ncomp v =>
      Some (with_attrib vp name st
        (λ loc, [Call (glVertexAttribNfv ncomp) [Num loc; Words v]]))
  | OP_VERTEX_ATTRIB_DIVISOR index divisor =>
      Some (call "glVertexAttribDivisor" [Num index; Num divisor] st)
  | OP_VERTEX_ATTRIB_DIVISOR_NAMED vp name divisor =>
      Some (with_attrib vp name st
        (λ loc, [Call "glVertexAttribDivisor" [Num loc; Num divisor]]))
  | _ => None
  end.

(** The calls of the cases for the other objects: buffers, textures, framebuffers,
    renderbuffers, vertex arrays, samplers. *)
Definition exec_object (w : gop) (st : HostState) : option HostState :=
  match w with
  | OP_GEN_BUFFER vid => Some (create MBuffer "glGenBuffers" [Num 1] vid st)
  | OP_BIND_BUFFER target vid =>
      Some (call "glBindBuffer" [Num target; Obj (real_buf st vid)] st)
  | OP_BUFFER_DATA target d usage =>
      Some (call "glBufferData" [Num target; Num (Z.of_nat (length d)); Blob d; Num usage] st)
  | OP_BUFFER_SUBDATA target offset d =>
      Some (call "glBufferSubData"
        [Num target; Num offset; Num (Z.of_nat (length d)); Blob d] st)
  | OP_GEN_TEXTURE vid => Some (create MTexture "glGenTextures" [Num 1] vid st)
  | OP_ACTIVE_TEXTURE unit => Some (call "glActiveTexture" [Num unit] st)
  | OP_BIND_TEXTURE target vid =>
      Some (call "glBindTexture" [Num target; Obj (real_tex st vid)] st)
  | OP_TEX_PARAMETERI target pname param =>
      Some (call "glTexParameteri" [Num target; Num pname; Num param] st)
  | OP_TEX_IMAGE_2D target level ifmt w h fmt type d =>
      Some (call_all [Call "glPixelStorei" [Num 0x0CF5; Num 1];
        Call "glTexImage2D" [Num target; Num level; Num (s32 ifmt); Num w; Num h; Num 0;
          Num fmt; Num type; opt_blob d]] st)
  | OP_GENERATE_MIPMAP target => Some (call "glGenerateMipmap" [Num target] st)
  | OP_TEX_SUBIMAGE_2D target level xoff yoff w h fmt type d =>
      Some (call_all [Call "glPixelStorei" [Num 0x0CF5; Num 1];
        Call "glTexSubImage2D" [Num target; Num level; Num xoff; Num yoff; Num w; Num h;
          Num fmt; Num type; opt_blob d]] st)
  | OP_GEN_FRAMEBUFFER vid => Some (create MFramebuffer "glGenFramebuffers" [Num 1] vid st)
  | OP_BIND_FRAMEBUFFER target vid =>
      Some (call "glBindFramebuffer" [Num target; Obj (real_fb st vid)] st)
  | OP_FRAMEBUFFER_TEXTURE2D target attachment textarget vtex level =>
      Some (call "glFramebufferTexture2D"
        [Num target; Num attachment; Num textarget; Obj (real_tex st vtex); Num level] st)
  | OP_GEN_RENDERBUFFER vid => Some (create MRenderbuffer "glGenRenderbuffers" [Num 1] vid st)
  | OP_BIND_RENDERBUFFER target vid =>
      Some (call "glBindRenderbuffer" [Num target; Obj (real_rb st vid)] st)
  | OP_RENDERBUFFER_STORAGE target ifmt w h =>
      Some (call "glRenderbufferStorage" [Num target; Num ifmt; Num w; Num h] st)
  | OP_FRAMEBUFFER_RENDERBUFFER target attachment rbtarget vrb =>
      Some (call "glFramebufferRenderbuffer"
        [Num target; Num attachment; Num rbtarget; Obj (real_rb st vrb)] st)
  | OP_GEN_VERTEX_ARRAY vid => Some (create MVertexArray "glGenVertexArrays" [Num 1] vid st)
  | OP_BIND_VERTEX_ARRAY vid => Some (call "glBindVertexArray" [Obj (real_va st vid)] st)
  | OP_BIND_BUFFER_BASE target index vid =>
      Some (call "glBindBufferBase" [Num target; Num index; Obj (real_buf st vid)] st)
  | OP_BIND_BUFFER_RANGE target index vid offset size =>
      Some (call "glBindBufferRange"
        [Num target; Num index; Obj (real_buf st vid); Num offset; Num size] st)
  | OP_GEN_SAMPLER vid => Some (create MSampler "glGenSamplers" [Num 1] vid st)
  | OP_BIND_SAMPLER unit vid =>
      Some (call "glBindSampler" [Num unit; Obj (real_sampler st vid)] st)
  | OP_SAMPLER_PARAMETERI vid pname param =>
      Some (call "glSamplerParameteri" [Obj (real_sampler st vid); Num pname; Num param] st)
  | _ => None
  end.
End exec.

(** The cases that replay their fields one to one: clears, draws, raster state. *)
Definition exec_state (w : gop) : option glcall :=
  match w with
  | OP_VIEWPORT x y w h => Some (Call "glViewport" [Num x; Num y; Num w; Num h])
  | OP_CLEARCOLOR c => Some (Call "glClearColor" [Words c])
  | OP_CLEAR => Some (Call "glClear" [Num (Z.lor 0x4000 0x100)])
  | OP_ENABLE_SCISSOR => Some (Call "glEnable" [Num 0x0C11])
  | OP_SCISSOR x y w h => Some (Call "glScissor" [Num x; Num y; Num w; Num h])
  | OP_DISABLE_SCISSOR => Some (Call "glDisable" [Num 0x0C11])
  | OP_DRAW_ARRAYS mode first count =>
      Some (Call "glDrawArrays" [Num mode; Num first; Num count])
  | OP_ENABLE cap => Some (Call "glEnable" [Num cap])
  | OP_DISABLE cap => Some (Call "glDisable" [Num cap])
  | OP_DEPTH_FUNC func => Some (Call "glDepthFunc" [Num func])
  | OP_CULL_FACE mode => Some (Call "glCullFace" [Num mode])
  | OP_FRONT_FACE mode => Some (Call "glFrontFace" [Num mode])
  | OP_DRAW_ELEMENTS mode count type offset =>
      Some (Call "glDrawElements" [Num mode; Num count; Num type; Num offset])
  | OP_DRAW_ARRAYS_INSTANCED mode first count inst =>
      Some (Call "glDrawArraysInstanced" [Num mode; Num first; Num count; Num inst])
  | OP_DRAW_ELEMENTS_INSTANCED mode count type offset inst =>
      Some (Call "glDrawElementsInstanced"
        [Num mode; Num count; Num type; Num offset; Num inst])
  | OP_BLEND_FUNC s d => Some (Call "glBlendFunc" [Num s; Num d])
  | OP_BLEND_FUNC_SEPARATE sr dr sa da =>
      Some (Call "glBlendFuncSeparate" [Num sr; Num dr; Num sa; Num da])
  | OP_BLEND_EQUATION mode => Some (Call "glBlendEquation" [Num mode])
  | OP_BLEND_EQUATION_SEPARATE mr ma =>
      Some (Call "glBlendEquationSeparate" [Num mr; Num ma])
  | OP_BLEND_COLOR c => Some (Call "glBlendColor" [Words c])
  | OP_COLOR_MASK cr cg cb ca =>
      Some (Call "glColorMask" [gl_bool cr; gl_bool cg; gl_bool cb; gl_bool ca])
  | OP_DEPTH_MASK f => Some (Call "glDepthMask" [gl_bool f])
  | OP_DEPTH_RANGEF n fr => Some (Call "glDepthRangef" [Num n; Num fr])
  | OP_CLEAR_DEPTHF d => Some (Call "glClearDepthf" [Num d])
  | OP_CLEAR_STENCIL s => Some (Call "glClearStencil" [Num s])
  | OP_STENCIL_FUNC func ref mask =>
      Some (Call "glStencilFunc" [Num func; Num ref; Num mask])
  | OP_STENCIL_FUNC_SEPARATE face func ref mask =>
      Some (Call "glStencilFuncSeparate" [Num face; Num func; Num ref; Num mask])
  | OP_STENCIL_OP sf df dp => Some (Call "glStencilOp" [Num sf; Num df; Num dp])
  | OP_STENCIL_OP_SEPARATE face sf df dp =>
      Some (Call "glStencilOpSeparate" [Num face; Num sf; Num df; Num dp])
  | OP_STENCIL_MASK m => Some (Call "glStencilMask" [Num m])
  | OP_STENCIL_MASK_SEPARATE face m =>
      Some (Call "glStencilMaskSeparate" [Num face; Num m])
  | OP_POLYGON_OFFSET factor units =>
      Some (Call "glPolygonOffset" [Num factor; Num units])
  | OP_LINE_WIDTH w => Some (Call "glLineWidth" [Num w])
  | OP_SAMPLE_COVERAGE v inv => Some (Call "glSampleCoverage" [Num v; gl_bool inv])
  | OP_DRAW_BUFFERS n bufs =>
      Some (Call "glDrawBuffers" [Num (s32 n); match bufs with [] => Null | _ => Words bufs end])
  | OP_READ_BUFFER mode => Some (Call "glReadBuffer" [Num mode])
  | OP_INVALIDATE_FRAMEBUFFER target n att =>
      Some (Call "glInvalidateFramebuffer"
        [Num target; Num (s32 n); match att with [] => Null | _ => Words att end])
  | _ => None
  end.

(** The calls of the case of [w]. *)
Definition exec_op (G : GL) (w : gop) (st : HostState) : HostState :=
  match exec_state w with
  | Some c => call_all [c] st
  | None =>
      match exec_program G w st with
      | Some st' => st'
      | None => default st (exec_object G w st)
      end
  end.

(** [decode_batch]: the loop stops at the end of the buffer, at [OP_END] and at
    the first malformed operation; an operation consumes at least its opcode, so
    the buffer bounds the iterations. *)
Fixpoint decode_loop (G : GL) (fuel : nat) (s : bytes) (st : HostState) : HostState :=
  match fuel with
  | O => st
  | S fuel =>
      if negb (ok st) then st
      else match rd_u8 s with
           | None => st
           | Some (op, s') =>
               if op =? OP_END then st
               else match parse_op op s' with
                    | None => set_ok false st
                    | Some (w, s'') => decode_loop G fuel s'' (exec_op G w st)
                    end
           end
  end.
Definition decode_batch (G : GL) (data : bytes) (st : HostState) : HostState :=
  decode_loop G (S (length data)) data st.

(** ** The encoders *)

(** The fields behind the opcode, in wire order. *)
Definition fields (w : gop) : list wire :=
  match w with
  | OP_VIEWPORT a b c d | OP_SCISSOR a b c d => [WI32 a; WI32 b; WI32 c; WI32 d]
  | OP_CLEARCOLOR c | OP_BLEND_COLOR c => WF32 <$> c
  | OP_CLEAR | OP_ENABLE_SCISSOR | OP_DISABLE_SCISSOR => []
  | OP_CREATE_SHADER a b | OP_ATTACH_SHADER a b | OP_BIND_BUFFER a b | OP_BIND_TEXTURE a b
  | OP_BIND_FRAMEBUFFER a b | OP_BIND_RENDERBUFFER a b | OP_VERTEX_ATTRIB_DIVISOR a b
  | OP_BLEND_FUNC a b | OP_BLEND_EQUATION_SEPARATE a b | OP_STENCIL_MASK_SEPARATE a b
  | OP_BIND_SAMPLER a b => [WU32 a; WU32 b]
  | OP_SHADER_SOURCE v d | OP_ENABLE_VAA_NAMED v d => [WU32 v; WBlob d]
  | OP_COMPILE_SHADER a | OP_CREATE_PROGRAM a | OP_LINK_PROGRAM a | OP_USE_PROGRAM a
  | OP_GEN_BUFFER a | OP_ENABLE_VAA a | OP_GEN_TEXTURE a | OP_ACTIVE_TEXTURE a
  | OP_GENERATE_MIPMAP a | OP_ENABLE a | OP_DISABLE a | OP_DEPTH_FUNC a | OP_CULL_FACE a
  | OP_FRONT_FACE a | OP_GEN_FRAMEBUFFER a | OP_GEN_RENDERBUFFER a | OP_GEN_VERTEX_ARRAY a
  | OP_BIND_VERTEX_ARRAY a | OP_BLEND_EQUATION a | OP_STENCIL_MASK a | OP_GEN_SAMPLER a
  | OP_READ_BUFFER a => [WU32 a]
  | OP_BIND_ATTRIB_LOCATION vp index name => [WU32 vp; WU32 index; WBlob name]
  | OP_BUFFER_DATA target d usage => [WU32 target; WBlob d; WU32 usage]
  | OP_BUFFER_SUBDATA target offset d => [WU32 target; WU32 offset; WBlob d]
  | OP_VERTEX_ATTRIB_POINTER index size type norm stride offset =>
      [WU32 index; WI32 size; WU32 type; WU8 norm; WI32 stride; WU32 offset]
  | OP_DRAW_ARRAYS mode first count => [WU32 mode; WI32 first; WI32 count]
  | OP_UNIFORM_MATRIX4FV vp name m => WU32 vp :: WBlob name :: (WF32 <$> m)
  | OP_UNIFORM1I vp name val => [WU32 vp; WBlob name; WI32 val]
  | OP_UNIFORM_FV vp name cols count v | OP_UNIFORM_MATRIX_FV vp name cols count v =>
      WU32 vp :: WBlob name :: WU8 cols :: WU32 count :: (WF32 <$> v)
  | OP_UNIFORM_IV vp name cols count v =>
      WU32 vp :: WBlob name :: WU8 cols :: WU32 count :: (WI32 <$> v)
  | OP_TEX_PARAMETERI a b c | OP_SAMPLER_PARAMETERI a b c => [WU32 a; WU32 b; WI32 c]
  | OP_TEX_IMAGE_2D target level ifmt w h fmt type d =>
      [WU32 target; WI32 level; WU32 ifmt; WI32 w; WI32 h; WU32 fmt; WU32 type; WBlob d]
  | OP_TEX_SUBIMAGE_2D target level xoff yoff w h fmt type d =>
      [WU32 target; WI32 level; WI32 xoff; WI32 yoff; WI32 w; WI32 h; WU32 fmt; WU32 type;
       WBlob d]
  | OP_VERTEX_ATTRIB_POINTER_NAMED vp name size type norm stride offset =>
      [WU32 vp; WBlob name; WI32 size; WU32 type; WU8 norm; WI32 stride; WU32 offset]
  | OP_DRAW_ELEMENTS mode count type offset => [WU32 mode; WI32 count; WU32 type; WU32 offset]
  | OP_VERTEX_ATTRIB_F index ncomp v => WU32 index :: WU8 ncomp :: (WF32 <$> v)
  | OP_VERTEX_ATTRIB_F_NAMED vp name ncomp v =>
      WU32 vp :: WBlob name :: WU8 ncomp :: (WF32 <$> v)
  | OP_FRAMEBUFFER_TEXTURE2D a b c d e => [WU32 a; WU32 b; WU32 c; WU32 d; WI32 e]
  | OP_RENDERBUFFER_STORAGE target ifmt w h => [WU32 target; WU32 ifmt; WI32 w; WI32 h]
  | OP_FRAMEBUFFER_RENDERBUFFER a b c d | OP_BLEND_FUNC_SEPARATE a b c d
  | OP_STENCIL_OP_SEPARATE a b c d => [WU32 a; WU32 b; WU32 c; WU32 d]
  | OP_DRAW_ARRAYS_INSTANCED mode first count inst =>
      [WU32 mode; WI32 first; WI32 count; WI32 inst]
  | OP_DRAW_ELEMENTS_INSTANCED mode count type offset inst =>
      [WU32 mode; WI32 count; WU32 type; WU32 offset; WI32 inst]
  | OP_VERTEX_ATTRIB_DIVISOR_NAMED vp name d | OP_UNIFORM_BLOCK_BINDING vp name d =>
      [WU32 vp; WBlob name; WU32 d]
  | OP_COLOR_MASK a b c d => [WU8 a; WU8 b; WU8 c; WU8 d]
  | OP_DEPTH_MASK f => [WU8 f]
  | OP_DEPTH_RANGEF a b | OP_POLYGON_OFFSET a b => [WF32 a; WF32 b]
  | OP_CLEAR_DEPTHF a | OP_LINE_WIDTH a => [WF32 a]
  | OP_CLEAR_STENCIL s => [WI32 s]
  | OP_STENCIL_FUNC func ref mask => [WU32 func; WI32 ref; WU32 mask]
  | OP_STENCIL_FUNC_SEPARATE face func ref mask => [WU32 face; WU32 func; WI32 ref; WU32 mask]
  | OP_STENCIL_OP a b c | OP_BIND_BUFFER_BASE a b c => [WU32 a; WU32 b; WU32 c]
  | OP_SAMPLE_COVERAGE v inv => [WF32 v; WU8 inv]
  | OP_BIND_BUFFER_RANGE a b c d e => [WU32 a; WU32 b; WU32 c; WU32 d; WU32 e]
  | OP_DRAW_BUFFERS n bufs => WU32 n :: (WU32 <$> bufs)
  | OP_INVALIDATE_FRAMEBUFFER target n att => WU32 target :: WU32 n :: (WU32 <$> att)
  end.

Definition wires (w : gop) : list wire := WU8 (opcode w) :: fields w.
Definition encode_op (w : gop) : bytes := enc_onto (wires w) [].
Definition encode_ops (ws : list gop) : bytes := concat (encode_op <$> ws).

(** The counts the builders keep consistent. *)
Definition counts_ok (w : gop) : Prop :=
  match w with
  | OP_CLEARCOLOR c | OP_BLEND_COLOR c => length c = 4%nat
  | OP_UNIFORM_MATRIX4FV _ _ m => length m = 16%nat
  | OP_UNIFORM_FV _ _ cols count v | OP_UNIFORM_IV _ _ cols count v =>
      1 ≤ cols ≤ 4 ∧ Z.of_nat (length v) = cols * count
  | OP_UNIFORM_MATRIX_FV _ _ dim count v =>
      2 ≤ dim ≤ 3 ∧ Z.of_nat (length v) = dim * dim * count
  | OP_VERTEX_ATTRIB_F _ n v | OP_VERTEX_ATTRIB_F_NAMED _ _ n v =>
      1 ≤ n ≤ 4 ∧ Z.of_nat (length v) = n
  | OP_DRAW_BUFFERS n l | OP_INVALIDATE_FRAMEBUFFER _ n l => Z.of_nat (length l) = n
  | _ => True
  end.
Definition op_ok (w : gop) : Prop := Forall wire_ok (fields w) ∧ counts_ok w.

(** A builder run over a scratch buffer. *)
Definition alr_build (w : gop) (cap : Z) : AlrEncoder :=
  alr_enc_all (alr_enc_init cap) (wires w).

(** ** Reading back what was encoded *)

Lemma parse_encode w rest :
  op_ok w → parse_op (opcode w) (enc_onto (fields w) rest) = Some (w, rest).
Proof.
  intros [Hf Hc]. destruct w; cbn [fields counts_ok] in Hf, Hc;
    rewrite ?Forall_cons in Hf; destruct_and?;
    repeat match goal with H : wire_ok (_ _) |- _ => cbn [wire_ok] in H end;
    cbn [opcode fields enc_onto foldr];
    cbn [parse_op parse_raster parse_shader parse_buffer parse_uniform parse_texture
         parse_enable parse_named parse_framebuffer parse_instanced parse_state parse_gles3
         Z.leb Z.compare Pos.compare Pos.compare_cont].
  all: try (unfold rd4, rd3, rd2, rd1; repeat rd_field; reflexivity).
  all: try reflexivity.
  all: repeat rd_field; try (rewrite (proj2 (Z.ltb_ge _ _)), (proj2 (Z.ltb_ge _ _)) by lia;
         cbn [orb]; rd_field); reflexivity.
Qed.

(** ** Readers look only at what they consume *)

Lemma local_rd1 f a : local a → local (rd1 f a).
Proof. unfold rd1. auto with rd. Qed.
Lemma local_rd2 f a b : local a → local b → local (rd2 f a b).
Proof. unfold rd2. auto with rd. Qed.
Lemma local_rd3 f a b c : local a → local b → local c → local (rd3 f a b c).
Proof. unfold rd3. auto with rd. Qed.
Lemma local_rd4 f a b c d : local a → local b → local c → local d → local (rd4 f a b c d).
Proof. unfold rd4. auto 6 with rd. Qed.
#[export] Hint Resolve local_rd1 local_rd2 local_rd3 local_rd4 : rd.

(** Every case of the decoder is local. *)
Ltac local_cases := repeat case_match; eauto 12 with rd.

Lemma local_raster op : local (parse_raster op).
Proof. unfold parse_raster. local_cases. Qed.
Lemma local_shader op : local (parse_shader op).
Proof. unfold parse_shader. local_cases. Qed.
Lemma local_buffer op : local (parse_buffer op).
Proof. unfold parse_buffer. local_cases. Qed.
Lemma local_uniform op : local (parse_uniform op).
Proof. unfold parse_uniform. local_cases. Qed.
Lemma local_texture op : local (parse_texture op).
Proof. unfold parse_texture. local_cases. Qed.
Lemma local_enable op : local (parse_enable op).
Proof. unfold parse_enable. local_cases. Qed.
Lemma local_named op : local (parse_named op).
Proof. unfold parse_named. local_cases. Qed.
Lemma local_framebuffer op : local (parse_framebuffer op).
Proof. unfold parse_framebuffer. local_cases. Qed.
Lemma local_instanced op : local (parse_instanced op).
Proof. unfold parse_instanced. local_cases. Qed.
Lemma local_state op : local (parse_state op).
Proof. unfold parse_state. local_cases. Qed.
Lemma local_gles3 op : local (parse_gles3 op).
Proof. unfold parse_gles3. local_cases. Qed.
#[export] Hint Resolve local_raster local_shader local_buffer local_uniform local_texture
  local_enable local_named local_framebuffer local_instanced local_state local_gles3 : rd.
Lemma local_parse op : local (parse_op op).
Proof. unfold parse_op. eauto 15 with rd. Qed.

(** ** The decoder loop *)

(** One iteration on enough fuel, whatever the fuel. *)
Lemma decode_loop_fuel G f1 f2 s st :
  (length s < f1)%nat → (length s < f2)%nat → decode_loop G f1 s st = decode_loop G f2 s st.
Proof.
  revert f2 s st. induction f1 as [|f1 IH]; intros f2 s st H1 H2; [lia|].
  destruct f2 as [|f2]; [lia|]. cbn [decode_loop].
  destruct (negb (ok st)); [done|].
  destruct (rd_u8 s) as [[op s1]|] eqn:E1; [|done].
  destruct (op =? OP_END); [done|].
  destruct (parse_op op s1) as [[w s2]|] eqn:E2; [|done].
  apply local_u8 in E1 as Hl. destruct Hl as [[p1 Hp1] _].
  apply local_parse in E2 as Hl. destruct Hl as [[p2 Hp2] _].
  assert (p1 ≠ []) as Hne.
  { intros ->. unfold rd_u8, mbind, rd_bind, rd_take in E1. destruct (_ <? _) eqn:El; [done|].
    cbn [mret] in E1. injection E1 as _ E1. apply (f_equal length) in E1.
    cbn [app] in Hp1. subst s1. change (Z.to_nat 1) with 1%nat in E1.
    rewrite length_drop in E1. lia. }
  assert (length s2 < length s)%nat.
  { subst s s1. rewrite !length_app. destruct p1; [done|]. cbn [length]. lia. }
  apply IH; lia.
Qed.

Lemma decode_batch_step G s st :
  decode_batch G s st =
    if negb (ok st) then st
    else match rd_u8 s with
         | None => st
         | Some (op, s') =>
             if op =? OP_END then st
             else match parse_op op s' with
                  | None => set_ok false st
                  | Some (w, s'') => decode_batch G s'' (exec_op G w st)
                  end
         end.
Proof.
  unfold decode_batch at 1. cbn [decode_loop].
  destruct (negb (ok st)); [done|].
  destruct (rd_u8 s) as [[op s1]|] eqn:E1; [|done].
  destruct (op =? OP_END); [done|].
  destruct (parse_op op s1) as [[w s2]|] eqn:E2; [|done].
  apply local_parse in E2 as [[p2 ->] _].
  unfold decode_batch. apply decode_loop_fuel; [|lia].
  unfold rd_u8, mbind, rd_bind, rd_take in E1. destruct (_ <? _) eqn:El; [done|].
  injection E1 as _ E1. apply (f_equal length) in E1.
  change (Z.to_nat 1) with 1%nat in E1. rewrite length_drop, length_app in E1. lia.
Qed.

Lemma exec_op_ok G w st : ok (exec_op G w st) = ok st.
Proof. by destruct w. Qed.
Lemma exec_op_fbo G w st : default_fbo (exec_op G w st) = default_fbo st.
Proof. by destruct w. Qed.
Lemma exec_op_decoded G w st : decoded (exec_op G w st) = decoded st + 1.
Proof. by destruct w. Qed.

Definition exec_ops (G : GL) (ws : list gop) (st : HostState) : HostState :=
  foldl (λ st w, exec_op G w st) st ws.

Lemma exec_ops_ok G ws st : ok (exec_ops G ws st) = ok st.
Proof.
  revert st. induction ws as [|w ws IH]; intros st; [done|].
  change (ok (exec_ops G ws (exec_op G w st)) = ok st). by rewrite IH, exec_op_ok.
Qed.
Lemma exec_ops_decoded G ws st :
  decoded (exec_ops G ws st) = decoded st + Z.of_nat (length ws).
Proof.
  revert st. induction ws as [|w ws IH]; intros st; [cbn [exec_ops foldl length]; lia|].
  change (decoded (exec_ops G ws (exec_op G w st)) = decoded st + Z.of_nat (S (length ws))).
  rewrite IH, exec_op_decoded. lia.
Qed.

Lemma opcode_range w : 0 < opcode w < 2 ^ 8.
Proof. destruct w; cbn [opcode]; lia. Qed.

Lemma decode_one G w rest st :
  ok st = true → op_ok w →
  decode_batch G (encode_op w ++ rest) st = decode_batch G rest (exec_op G w st).
Proof.
  intros Hok Hw. rewrite decode_batch_step, Hok. cbn [negb].
  assert (encode_op w ++ rest =
          enc_wire (WU8 (opcode w)) ++ enc_onto (fields w) rest) as ->.
  { unfold encode_op, wires, enc_onto. cbn [foldr]. rewrite <- (assoc_L (++)). f_equal.
    induction (fields w) as [|x l IH]; [done|]. cbn [foldr].
    by rewrite <- IH, (assoc_L (++)). }
  pose proof (opcode_range w) as Hr.
  rewrite rd_u8_enc by lia. rewrite (proj2 (Z.eqb_neq _ _)) by (unfold OP_END; lia).
  by rewrite parse_encode.
Qed.

Lemma decode_encoded G ws rest st :
  ok st = true → Forall op_ok ws →
  decode_batch G (encode_ops ws ++ rest) st = decode_batch G rest (exec_ops G ws st).
Proof.
  intros Hok Hws. revert st Hok. induction Hws as [|w ws Hw Hws IH]; intros st Hok; [done|].
  change (encode_ops (w :: ws)) with (encode_op w ++ encode_ops ws).
  rewrite <- (assoc_L (++)), decode_one by done. apply IH. by rewrite exec_op_ok.
Qed.

Lemma decode_nil G st : decode_batch G [] st = st.
Proof. rewrite decode_batch_step. by destruct (ok st). Qed.

(** C10. Decoding a stream of encoded operations makes exactly the calls of those
    operations, in order, and goes on with what follows them. *)
Theorem decode_roundtrip G ws rest st :
  ok st = true → Forall op_ok ws →
  decode_batch G (encode_ops ws ++ rest) st = decode_batch G rest (exec_ops G ws st) ∧
  ok (exec_ops G ws st) = true ∧
  decoded (exec_ops G ws st) = decoded st + Z.of_nat (length ws).
Proof.
  intros Hok Hws. split; [by apply decode_encoded|].
  by rewrite exec_ops_ok, exec_ops_decoded.
Qed.

(** A stream cut anywhere inside an operation executes the complete operations before
    the cut and fails: no operation is executed on missing fields. *)
Theorem decode_truncated G ws w cut st :
  ok st = true → Forall op_ok ws → op_ok w →
  cut `prefix_of` encode_op w → cut ≠ [] → cut ≠ encode_op w →
  decode_batch G (encode_ops ws ++ cut) st = set_ok false (exec_ops G ws st).
Proof.
  intros Hok Hws Hw [lost Hlost] Hne Hcut. rewrite decode_encoded by done.
  rewrite decode_batch_step, exec_ops_ok, Hok. cbn [negb].
  pose proof (opcode_range w) as Hr.
  unfold encode_op, wires, enc_onto in Hlost. cbn [foldr enc_wire le_bytes app] in Hlost.
  destruct cut as [|b cut]; [done|]. cbn [app] in Hlost. injection Hlost as <- Hlost.
  change (byte_of (opcode w) :: cut) with (enc_wire (WU8 (opcode w)) ++ cut).
  rewrite rd_u8_enc by lia. rewrite (proj2 (Z.eqb_neq _ _)) by (unfold OP_END; lia).
  destruct (parse_op (opcode w) cut) as [[w' s']|] eqn:E; [|done]. exfalso.
  destruct (local_parse _ _ _ _ E) as [_ Hext]. specialize (Hext lost).
  pose proof (parse_encode w [] Hw) as Hp. unfold enc_onto in Hp.
  rewrite Hlost, Hext in Hp. injection Hp as _ Hp. apply app_nil in Hp as [_ ->].
  rewrite app_nil_r in Hlost. apply Hcut. unfold encode_op, wires, enc_onto.
  cbn [foldr enc_wire le_bytes app]. by rewrite Hlost.
Qed.

(** ** Isolation: a guest only reaches GL objects made for it *)

Definition new_names (cs : list glcall) : list Z :=
  concat ((λ c, concat ((λ a, match a with New z => [z] | _ => [] end) <$> gl_args c)) <$> cs).

(** An object argument is 0 ("none"), the executor's default framebuffer, or a
    name GL returned to an earlier call of the same guest. *)
Definition arg_isolated (fbo : Z) (names : list Z) (a : arg) : Prop :=
  match a with Obj z => z = 0 ∨ z = fbo ∨ z ∈ names | _ => True end.
Definition isolated (fbo : Z) (cs : list glcall) : Prop := ∀ l1 c l2,
  cs = l1 ++ c :: l2 → Forall (arg_isolated fbo (new_names l1)) (gl_args c).

Record iso (st : HostState) : Prop := {
  iso_calls : isolated (default_fbo st) (calls st);
  iso_maps : Forall (map_Forall (λ _ z, z ∈ new_names (calls st)))
    [shaders st; programs st; buffers st; textures st; framebuffers st; renderbuffers st;
     vertex_arrays st; samplers st];
}.

Lemma new_names_app l1 l2 : new_names (l1 ++ l2) = new_names l1 ++ new_names l2.
Proof. unfold new_names. by rewrite fmap_app, concat_app. Qed.

Lemma arg_isolated_mono fbo l1 l2 a :
  arg_isolated fbo (new_names l1) a → arg_isolated fbo (new_names (l1 ++ l2)) a.
Proof.
  destruct a; cbn [arg_isolated]; try done. rewrite new_names_app, elem_of_app. naive_solver.
Qed.

Lemma isolated_app fbo cs new :
  isolated fbo cs →
  Forall (λ c, Forall (arg_isolated fbo (new_names cs)) (gl_args c)) new →
  isolated fbo (cs ++ new).
Proof.
  intros Hcs Hnew l1 c l2 E.
  destruct (decide (length l1 < length cs)%nat) as [Hlt|Hge].
  - assert (∃ r, cs = l1 ++ c :: r) as [r Hr].
    { apply (f_equal (take (length cs))) in E as E1. rewrite take_app_length in E1.
      rewrite take_app_ge in E1 by lia.
      destruct (length cs - length l1)%nat as [|n] eqn:En; [lia|]. cbn [take] in E1.
      eauto. }
    by apply (Hcs l1 c r).
  - assert (∃ n1, l1 = cs ++ n1 ∧ new = n1 ++ c :: l2) as (n1 & -> & ->).
    { exists (drop (length cs) l1). apply (f_equal (take (length cs))) in E as E1.
      apply (f_equal (drop (length cs))) in E as E2.
      rewrite take_app_length, take_app_le in E1 by lia.
      rewrite drop_app_length, drop_app_le in E2 by lia.
      split; [|done]. rewrite E1 at 1. by rewrite take_drop. }
    apply Forall_app in Hnew as [_ Hnew]. apply Forall_cons in Hnew as [Hc _].
    eapply Forall_impl; [exact Hc|]. intros a. apply arg_isolated_mono.
Qed.

Lemma iso_call_all cs st :
  iso st →
  Forall (λ c, Forall (arg_isolated (default_fbo st) (new_names (calls st))) (gl_args c)) cs →
  iso (call_all cs st).
Proof.
  intros [Hc Hm] Hcs. split.
  - by apply isolated_app.
  - cbn [call_all shaders programs buffers textures framebuffers renderbuffers vertex_arrays
      samplers calls].
    eapply Forall_impl; [exact Hm|]. intros m Hmap k z Hz. apply Hmap in Hz.
    rewrite new_names_app, elem_of_app. by left.
Qed.

Lemma iso_create G m fn args vid st :
  iso st → Forall (λ a, match a with Num _ => True | _ => False end) args →
  iso (create G m fn args vid st).
Proof.
  intros [Hc Hm] Hargs. unfold create, call. split.
  - apply isolated_app; [exact Hc|].
    constructor; [|constructor]. cbn [gl_args]. apply Forall_app. split; [|by repeat constructor].
    eapply Forall_impl; [exact Hargs|]. by intros [].
  - set (name := gl_new G (calls st)).
    assert (∀ mp : gmap Z Z, map_Forall (λ _ z, z ∈ new_names (calls st)) mp → ∀ b : bool,
      map_Forall (λ _ z, z ∈ new_names (calls st ++ [Call fn (args ++ [New name])]))
        (if b then <[vid := name]> mp else mp)) as K.
    { intros mp Hmp b k z Hz. rewrite new_names_app, elem_of_app.
      destruct b.
      - apply lookup_insert_Some in Hz as [[_ <-]|[_ Hz]]; [right|left; by apply Hmp in Hz].
        unfold new_names. cbn [fmap list_fmap concat gl_args].
        rewrite fmap_app, concat_app, app_nil_r, elem_of_app. right.
        cbn [fmap list_fmap concat app]. by apply list_elem_of_here.
      - left. by apply Hmp in Hz. }
    rewrite !Forall_cons in Hm. destruct Hm as (M1 & M2 & M3 & M4 & M5 & M6 & M7 & M8 & _).
    unfold set_name. cbn [call_all shaders programs buffers textures framebuffers renderbuffers
      vertex_arrays samplers calls].
    repeat constructor; by apply K.
Qed.

Lemma lookup_isolated fbo names (m : gmap Z Z) v :
  map_Forall (λ _ z, z ∈ names) m → arg_isolated fbo names (Obj (lookup_name m v)).
Proof.
  intros Hm. unfold lookup_name. cbn [arg_isolated].
  destruct (m !! v) as [z|] eqn:E; cbn [default]; [|by left]. right. right. by apply Hm in E.
Qed.

Section iso_real.
Context (st : HostState) (H : iso st).
Let P z := arg_isolated (default_fbo st) (new_names (calls st)) (Obj z).
Lemma iso_shader v : P (real_shader st v).
Proof. apply lookup_isolated. pose proof (iso_maps st H) as M. rewrite !Forall_cons in M. tauto. Qed.
Lemma iso_prog v : P (real_prog st v).
Proof. apply lookup_isolated. pose proof (iso_maps st H) as M. rewrite !Forall_cons in M. tauto. Qed.
Lemma iso_buf v : P (real_buf st v).
Proof. apply lookup_isolated. pose proof (iso_maps st H) as M. rewrite !Forall_cons in M. tauto. Qed.
Lemma iso_tex v : P (real_tex st v).
Proof. apply lookup_isolated. pose proof (iso_maps st H) as M. rewrite !Forall_cons in M. tauto. Qed.
Lemma iso_rb v : P (real_rb st v).
Proof. apply lookup_isolated. pose proof (iso_maps st H) as M. rewrite !Forall_cons in M. tauto. Qed.
Lemma iso_fb v : P (real_fb st v).
Proof.
  unfold real_fb, P. destruct (v =? 0); [by right; left|].
  apply lookup_isolated. pose proof (iso_maps st H) as M. rewrite !Forall_cons in M. tauto.
Qed.
Lemma iso_va v : P (real_va st v).
Proof.
  unfold real_va, P. destruct (v =? 0); [by left|].
  apply lookup_isolated. pose proof (iso_maps st H) as M. rewrite !Forall_cons in M. tauto.
Qed.
Lemma iso_sampler v : P (real_sampler st v).
Proof.
  unfold real_sampler, P. destruct (v =? 0); [by left|].
  apply lookup_isolated. pose proof (iso_maps st H) as M. rewrite !Forall_cons in M. tauto.
Qed.
End iso_real.
Create HintDb iso.
#[export] Hint Resolve iso_shader iso_prog iso_buf iso_tex iso_rb iso_fb iso_va iso_sampler : iso.
#[export] Hint Constructors Forall : iso.

Lemma num_isolated fbo names z : arg_isolated fbo names (Num z).
Proof. done. Qed.
Lemma words_isolated fbo names l : arg_isolated fbo names (Words l).
Proof. done. Qed.
Lemma blob_isolated fbo names d : arg_isolated fbo names (Blob d).
Proof. done. Qed.
Lemma opt_isolated {A} fbo names (l : list A) d :
  arg_isolated fbo names d → arg_isolated fbo names (match l with [] => Null | _ => d end).
Proof. by destruct l. Qed.
#[export] Hint Resolve num_isolated words_isolated blob_isolated opt_isolated : iso.

Lemma iso_with (b : bool) l st (c0 : glcall) :
  iso st →
  Forall (arg_isolated (default_fbo st) (new_names (calls st))) (gl_args c0) →
  Forall (λ c, Forall (arg_isolated (default_fbo st) (new_names (calls st))) (gl_args c)) l →
  iso (call_all (c0 :: if b then l else []) st).
Proof. intros Hst H0 Hl. apply iso_call_all; [done|]. destruct b; eauto with iso. Qed.
Lemma iso_with_not (b : bool) l st (c0 : glcall) :
  iso st →
  Forall (arg_isolated (default_fbo st) (new_names (calls st))) (gl_args c0) →
  Forall (λ c, Forall (arg_isolated (default_fbo st) (new_names (calls st))) (gl_args c)) l →
  iso (call_all (c0 :: if b then [] else l) st).
Proof. intros Hst H0 Hl. apply iso_call_all; [done|]. destruct b; eauto with iso. Qed.

Lemma iso_set_cur p st : iso st → iso (set_cur_program p st).
Proof. intros [Hc Hm]. by split. Qed.

Lemma iso_exec G w st : iso st → iso (exec_op G w st).
Proof.
  intros Hst. destruct w;
    cbn [exec_op exec_state exec_program exec_object default];
    unfold with_uniform, with_attrib, call, gl_bool, opt_blob; cbv zeta;
    first
      [ apply iso_create; [exact Hst|eauto 6 with iso]
      | apply iso_with; [exact Hst|..]; cbn [gl_args]; eauto 12 with iso
      | apply iso_with_not; [exact Hst|..]; cbn [gl_args]; eauto 12 with iso
      | apply iso_call_all; [exact Hst|];
        repeat (apply Forall_cons; split); cbn [gl_args]; eauto 16 with iso
      | idtac ].
  apply iso_call_all; [by apply iso_set_cur|].
  constructor; [|constructor]. cbn [gl_args]. constructor; [|constructor].
  exact (iso_prog st Hst vp).
Qed.

Lemma iso_decode G data st : iso st → iso (decode_batch G data st).
Proof.
  unfold decode_batch. generalize (S (length data)) as fuel. intros fuel. revert data st.
  induction fuel as [|fuel IH]; intros data st Hst; cbn [decode_loop]; [done|].
  destruct (negb (ok st)); [done|].
  destruct (rd_u8 data) as [[op s1]|]; [|done].
  destruct (op =? OP_END); [done|].
  destruct (parse_op op s1) as [[w s2]|]; [by apply IH, iso_exec|].
  destruct Hst as [Hc Hm]. by split.
Qed.

(** The state [run_consume_loop] starts a session with. *)
Definition init_state (fbo : Z) : HostState := mk_st ∅ ∅ ∅ ∅ ∅ ∅ ∅ ∅ 0 fbo true 0 [].
(** The frames of a session, decoded with the persistent state. *)
Definition decode_session (G : GL) (fbo : Z) (frames : list bytes) : HostState :=
  foldl (λ st d, decode_batch G d st) (init_state fbo) frames.

Lemma decode_batch_fbo G data st : default_fbo (decode_batch G data st) = default_fbo st.
Proof.
  unfold decode_batch. generalize (S (length data)) as fuel. intros fuel. revert data st.
  induction fuel as [|fuel IH]; intros data st; cbn [decode_loop]; [done|].
  destruct (negb (ok st)); [done|].
  destruct (rd_u8 data) as [[op s1]|]; [|done].
  destruct (op =? OP_END); [done|].
  destruct (parse_op op s1) as [[w s2]|]; [|done]. by rewrite IH, exec_op_fbo.
Qed.


(** ** The guest's encoder *)

Lemma encoder_bytes w cap :
  0 ≤ cap →
  let e := alr_build w cap in
  Z.of_nat (length (enc_buf e)) ≤ cap ∧
  (if cap <? Z.of_nat (length (encode_op w))
   then enc_overflow e = true ∧ enc_buf e `prefix_of` encode_op w
   else e = mk_enc (encode_op w) cap false).
Proof. intros Hcap. apply (alr_all_bytes (wires w) cap Hcap). Qed.

(** The guest's encoder never writes past its buffer, reports overflow exactly when
    the operation does not fit, and otherwise holds exactly the encoded operation. *)
Theorem encoder_capacity w cap :
  0 ≤ cap →
  Z.of_nat (length (enc_buf (alr_build w cap))) ≤ cap ∧
  enc_overflow (alr_build w cap) = (cap <? Z.of_nat (length (encode_op w))) ∧
  (enc_overflow (alr_build w cap) = false → enc_buf (alr_build w cap) = encode_op w).
Proof.
  intros Hcap. pose proof (encoder_bytes w cap Hcap) as [H1 H2].
  split; [done|]. destruct (cap <? _) eqn:E.
  - destruct H2 as [-> _]. done.
  - by rewrite H2.
Qed.

(** ** What the decoder does not check *)

(** A texture upload whose blob is shorter than its dimensions reaches the driver
    with both, and the driver reads the dimensions. *)
Example tex_image_short_blob G :
  let d := encode_ops [OP_TEX_IMAGE_2D 0x0DE1 0 0x1908 4096 4096 0x1908 0x1401 "abcd"] in
  calls (decode_session G 7 [d]) =
    [Call "glPixelStorei" [Num 0x0CF5; Num 1];
     Call "glTexImage2D" [Num 0x0DE1; Num 0; Num 0x1908; Num 4096; Num 4096; Num 0;
       Num 0x1908; Num 0x1401; Blob "abcd"]].
Proof. vm_compute. reflexivity. Qed.

(** One malformed frame stops every later frame of the session. *)
Example malformed_frame_sticks G :
  let bad : bytes := [Byte.xff] in
  let good := encode_ops [OP_CLEAR] in
  calls (decode_session G 7 [bad; good; good]) = [].
Proof. vm_compute. reflexivity. Qed.

(** ** A concrete stream *)

(** A GL that numbers its objects. *)
Definition counting_gl : GL :=
  mk_gl (λ cs, 100 + Z.of_nat (length cs)) (λ _ _ _, 1) (λ _ _ _, 2) (λ _ _ _, 3).

Definition sample_ops : list gop :=
  [OP_CREATE_PROGRAM 1; OP_GEN_BUFFER 1; OP_BIND_BUFFER 0x8892 1;
   OP_UNIFORM_FV 1 "scale" 2 1 [0x3F800000; 0]; OP_DRAW_ARRAYS 4 0 (-1)].
Lemma sample_ops_ok : Forall op_ok sample_ops.
Proof.
  repeat (apply Forall_cons; split); [..|constructor];
    (split; [repeat (apply Forall_cons; split); [..|constructor]; cbn; lia|cbn; auto with lia]).
Qed.

Lemma decode_roundtrip_witness :
  decode_batch counting_gl (encode_ops sample_ops ++ []) (init_state 7) =
    exec_ops counting_gl sample_ops (init_state 7) ∧
  decoded (exec_ops counting_gl sample_ops (init_state 7)) = 5.
Proof.
  destruct (decode_roundtrip counting_gl sample_ops [] (init_state 7)) as (H & _ & H2);
    [reflexivity|exact sample_ops_ok|]. split; [|exact H2].
  rewrite H. vm_compute. reflexivity.
Defined.

Lemma decode_truncated_witness :
  decode_batch counting_gl
    (encode_ops sample_ops ++ take 9 (encode_op (OP_DRAW_ARRAYS 4 0 3))) (init_state 7) =
  set_ok false (exec_ops counting_gl sample_ops (init_state 7)).
Proof.
  apply (decode_truncated counting_gl sample_ops (OP_DRAW_ARRAYS 4 0 3));
    [reflexivity|exact sample_ops_ok| |apply prefix_take|vm_compute; discriminate
    |vm_compute; discriminate].
  split; [repeat (apply Forall_cons; split); [..|constructor]; cbn; lia|exact I].
Defined.


Lemma encoder_capacity_witness :
  enc_overflow (alr_build (OP_DRAW_ARRAYS 4 0 3) 12) = true ∧
  enc_overflow (alr_build (OP_DRAW_ARRAYS 4 0 3) 13) = false.
Proof.
  split.
  - destruct (encoder_capacity (OP_DRAW_ARRAYS 4 0 3) 12) as (_ & H & _); [lia|].
    rewrite H. reflexivity.
  - destruct (encoder_capacity (OP_DRAW_ARRAYS 4 0 3) 13) as (_ & H & _); [lia|].
    rewrite H. reflexivity.
Defined.
Close Scope Z_scope.
