(* ===== verification/GpuExecutor.v ===== *)
(** * The guest shim and the host executor around the ring

    [alr_shim_emit] and the flush of [alr_shim_runtime.c] on the guest side,
    [GpuExecutorService::run_consume_loop] of [alr_gpu_host_service.hpp] on the host
    side, as a step relation.  An append is one step
    ([GpuRing.Threads.append_is_producer_run] is its refinement to single
    accesses); loads of the cursors and of the sequence numbers are steps of their
    own, so every interleaving the loop has to survive is there.  GL
    housekeeping around a frame (binding the target, [glFinish], presenting) is not
    modelled. *)

From S2P Require Import Prelude Bytes Wire GpuRing GlesDecode.
Open Scope Z_scope.

(** ** The guest's emitter *)

Definition ALR_SHIM_SCRATCH_BYTES : Z := 8 * 1024 * 1024.

(** One attempt of [alr_shim_emit]: the region after the append, or what went
    wrong. *)
Inductive emit_result :=
| Emitted (r : Region)
| EmitOverflow      (* the operation exceeds the scratch buffer *)
| EmitFull.         (* it does not currently fit the ring *)

Definition emit_try (r : Region) (w : gop) : option emit_result :=
  let e := alr_build w ALR_SHIM_SCRATCH_BYTES in
  if enc_overflow e then Some EmitOverflow
  else
    match alr_ring_append r (enc_buf e) with
    | Some (fits, r') => Some (if fits then Emitted r' else EmitFull)
    | None => None
    end.

Definition GL_OUT_OF_MEMORY : Z := 0x0505.

(** ** The system *)

(** [GWait want p]: spinning in [alr_ring_flush_and_wait]; [p] is the operation
    [alr_shim_emit] retries afterwards. *)
Inductive guest_pc := GRun | GWait (want : Z) (p : option gop) | GRetry (w : gop).

(** Where the host is in [run_consume_loop]: the first drain, the load of
    [req_seq], the second drain with the request [req], the decode, the reply. *)
Inductive host_pc := HDrain | HCheck | HFrame (req : Z) | HDecode (req : Z) | HPost.

Record esys := mk_esys {
  er : Region;
  gpc : guest_pc; gl_error : Z;
  hpc : host_pc; frame_bytes : bytes; replied_seq : Z; hst : HostState;
  flushed : list gop;  (* history: operations emitted before the last flush *)
  cur : list gop;      (* history: operations emitted since *)
  nflush : Z;          (* history: flushes *)
}.

Definition after_wait (p : option gop) : guest_pc :=
  match p with None => GRun | Some w => GRetry w end.

Section executor.
Context (G : GL).
(** A patient guest spins until it sees its reply; an impatient one may run out of
    its [1 << 20] iterations and go on. *)
Context (patient : bool).

Inductive estep : esys → esys → Prop :=
| g_emit r r' ge h fb rs st fl c n w :
    op_ok w → emit_try r w = Some (Emitted r') →
    estep (mk_esys r GRun ge h fb rs st fl c n) (mk_esys r' GRun ge h fb rs st fl (c ++ [w]) n)
| g_overflow r ge h fb rs st fl c n w :
    emit_try r w = Some EmitOverflow →
    estep (mk_esys r GRun ge h fb rs st fl c n)
          (mk_esys r GRun GL_OUT_OF_MEMORY h fb rs st fl c n)
| g_full r ge h fb rs st fl c n w :
    op_ok w → emit_try r w = Some EmitFull →
    estep (mk_esys r GRun ge h fb rs st fl c n)
          (mk_esys (flush_request r).2 (GWait (flush_request r).1 (Some w)) ge h fb rs st
             (fl ++ c) [] (n + 1))
| g_flush r ge h fb rs st fl c n :
    estep (mk_esys r GRun ge h fb rs st fl c n)
          (mk_esys (flush_request r).2 (GWait (flush_request r).1 None) ge h fb rs st
             (fl ++ c) [] (n + 1))
| g_wake r want p ge h fb rs st fl c n :
    (want <=? reply_seq (hdr r)) = true →
    estep (mk_esys r (GWait want p) ge h fb rs st fl c n)
          (mk_esys r (after_wait p) ge h fb rs st fl c n)
| g_timeout r want p ge h fb rs st fl c n :
    patient = false →
    estep (mk_esys r (GWait want p) ge h fb rs st fl c n)
          (mk_esys r (after_wait p) ge h fb rs st fl c n)
| g_retry r r' w ge h fb rs st fl c n :
    op_ok w → emit_try r w = Some (Emitted r') →
    estep (mk_esys r (GRetry w) ge h fb rs st fl c n)
          (mk_esys r' GRun ge h fb rs st fl (c ++ [w]) n)
| g_drop r w ge h fb rs st fl c n :
    emit_try r w = Some EmitFull →
    estep (mk_esys r (GRetry w) ge h fb rs st fl c n)
          (mk_esys r GRun GL_OUT_OF_MEMORY h fb rs st fl c n)
| h_drain r g ge h fb rs st fl c n cap got :
    (match h with HDrain | HFrame _ => True | _ => False end) →
    0 < available r → 0 < cap < 2 ^ 32 → snapshot r cap = Some got →
    estep (mk_esys r g ge h fb rs st fl c n)
          (mk_esys (advance r (Z.of_nat (length got))) g ge h (fb ++ got) rs st fl c n)
| h_empty r g ge fb rs st fl c n :
    available r = 0 →
    estep (mk_esys r g ge HDrain fb rs st fl c n) (mk_esys r g ge HCheck fb rs st fl c n)
| h_idle r g ge fb rs st fl c n :
    req_seq (hdr r) = rs →
    estep (mk_esys r g ge HCheck fb rs st fl c n) (mk_esys r g ge HDrain fb rs st fl c n)
| h_request r g ge fb rs st fl c n :
    req_seq (hdr r) ≠ rs →
    estep (mk_esys r g ge HCheck fb rs st fl c n)
          (mk_esys r g ge (HFrame (req_seq (hdr r))) fb rs st fl c n)
| h_drained r g ge fb rs st fl c n req :
    available r = 0 →
    estep (mk_esys r g ge (HFrame req) fb rs st fl c n)
          (mk_esys r g ge (HDecode req) fb rs st fl c n)
| h_decode r g ge fb rs st fl c n req :
    estep (mk_esys r g ge (HDecode req) fb rs st fl c n)
          (mk_esys r g ge HPost [] req (decode_batch G fb st) fl c n)
| h_post r g ge fb rs st fl c n :
    estep (mk_esys r g ge HPost fb rs st fl c n)
          (mk_esys (post_reply r) g ge HDrain fb rs st fl c n).

Definition eboot (r : Region) (fbo : Z) : esys :=
  mk_esys r GRun 0 HDrain [] 0 (init_state fbo) [] [] 0.
End executor.

(** ** Encoded operations on the ring *)

Lemma encode_ops_app a b : encode_ops (a ++ b) = encode_ops a ++ encode_ops b.
Proof. unfold encode_ops. by rewrite fmap_app, concat_app. Qed.
Lemma encode_op_cons w : ∃ b s, encode_op w = b :: s.
Proof. unfold encode_op, wires, enc_onto. cbn [foldr enc_wire le_bytes app]. eauto. Qed.
Lemma encode_ops_nil ws : encode_ops ws = [] → ws = [].
Proof.
  destruct ws as [|w ws]; [done|]. unfold encode_ops. cbn [fmap list_fmap concat].
  destruct (encode_op_cons w) as (b & s & ->). done.
Qed.

(** What an attempt to emit does to the queue. *)
Lemma emit_try_ok r w T q :
  ring_ok r → holds r T q →
  let len := Z.of_nat (length (encode_op w)) in
  if ALR_SHIM_SCRATCH_BYTES <? len then emit_try r w = Some EmitOverflow
  else if len <=? ring_bytes (hdr r) - 1 - Z.of_nat (length q)
  then ∃ r', emit_try r w = Some (Emitted r') ∧ ring_ok r' ∧ holds r' T (q ++ encode_op w) ∧
         req_seq (hdr r') = req_seq (hdr r) ∧ reply_seq (hdr r') = reply_seq (hdr r) ∧
         ring_bytes (hdr r') = ring_bytes (hdr r)
  else emit_try r w = Some EmitFull.
Proof.
  intros Hok Hh. cbv zeta. unfold emit_try.
  pose proof (encoder_bytes w ALR_SHIM_SCRATCH_BYTES ltac:(done)) as [Hcap He].
  destruct (ALR_SHIM_SCRATCH_BYTES <? _) eqn:E.
  - destruct He as [-> _]. done.
  - rewrite He in *. cbn [enc_overflow enc_buf] in *.
    pose proof (ok_bytes r Hok) as Hb.
    rewrite c_append_append by (lia || (left; apply Hok)).
    pose proof (append_queue r T q (encode_op w) Hok Hh) as Ha.
    assert (ALR_SHIM_SCRATCH_BYTES < 2 ^ 32) by done.
    specialize (Ha ltac:(lia)). destruct (_ <=? _) eqn:E2.
    + rewrite decide_True in Ha by lia.
      destruct Ha as (r' & -> & H1 & H2 & d & [->| ->]); eexists; eauto 8.
    + rewrite decide_False in Ha by lia. by rewrite Ha.
Qed.
Lemma emit_emitted r r' w T q :
  ring_ok r → holds r T q → emit_try r w = Some (Emitted r') →
  ring_ok r' ∧ holds r' T (q ++ encode_op w) ∧
  req_seq (hdr r') = req_seq (hdr r) ∧ reply_seq (hdr r') = reply_seq (hdr r).
Proof.
  intros Hok Hh He. pose proof (emit_try_ok r w T q Hok Hh) as H. cbv zeta in H.
  destruct (_ <? _); [congruence|]. destruct (_ <=? _); [|congruence].
  destruct H as (r1 & E & H1 & H2 & H3 & H4 & _). rewrite He in E. injection E as <-. done.
Qed.

(** ** The invariant *)

Section invariant.
Context (G : GL) (patient : bool) (fbo : Z).

Definition is_wait (g : guest_pc) : Prop := match g with GWait _ _ => True | _ => False end.

(** [dn] are the operations executed, [rest] those emitted and not executed; their
    bytes are in the frame accumulator and the ring. *)
Record base (s : esys) (T : Z) (q : bytes) (dn rest : list gop) : Prop := {
  b_ok : ring_ok (er s);
  b_holds : holds (er s) T q;
  b_ops : Forall op_ok (flushed s ++ cur s);
  b_split : flushed s ++ cur s = dn ++ rest;
  b_st : hst s = exec_ops G dn (init_state fbo);
  b_bytes : frame_bytes s ++ q = encode_ops rest;
  b_req : req_seq (hdr (er s)) = u32 (nflush s);
  b_n : 0 ≤ nflush s;
  b_want : match gpc s with GWait want _ => want = u32 (nflush s) | _ => True end;
  b_host : match hpc s with
           | HDecode _ => ∃ f r, rest = f ++ r ∧ frame_bytes s = encode_ops f ∧ q = encode_ops r
           | HPost => frame_bytes s = []
           | _ => True
           end;
}.

(** The frame handshake with a patient guest: nothing pending; a frame requested
    and not executed; a frame executed and not replied to. *)
Definition phase (s : esys) (q : bytes) (dn : list gop) : Prop :=
  let n := nflush s in
  (reply_seq (hdr (er s)) = u32 n ∧ replied_seq s = u32 n ∧ dn = flushed s ∧
   (hpc s = HDrain ∨ hpc s = HCheck) ∧ (gpc s ≠ GRun → cur s = [])) ∨
  (1 ≤ n ∧ is_wait (gpc s) ∧ cur s = [] ∧
   reply_seq (hdr (er s)) = u32 (n - 1) ∧ replied_seq s = u32 (n - 1) ∧
   (hpc s = HDrain ∨ hpc s = HCheck ∨ hpc s = HFrame (u32 n) ∨
    (hpc s = HDecode (u32 n) ∧ q = []))) ∨
  (1 ≤ n ∧ is_wait (gpc s) ∧ cur s = [] ∧ dn = flushed s ∧ hpc s = HPost ∧
   reply_seq (hdr (er s)) = u32 (n - 1) ∧ replied_seq s = u32 n).

Definition einv (s : esys) : Prop := ∃ T q dn rest,
  base s T q dn rest ∧ (patient = true → nflush s < 2 ^ 32 → phase s q dn).

Ltac fields_ :=
  cbn [er gpc gl_error hpc frame_bytes replied_seq hst flushed cur nflush] in *.

(** The ring part survives a step that changes no data and no cursor. *)
Lemma holds_seqs r a b T q : ring_ok r → holds r T q →
  ring_ok (set_seqs a b r) ∧ holds (set_seqs a b r) T q.
Proof. intros [H1 H2 H3] [K1 K2 K3 K4]. split; split; done. Qed.

Lemma einv_append r r' g g' ge h fb rs st fl c n w :
  einv (mk_esys r g ge h fb rs st fl c n) → op_ok w →
  emit_try r w = Some (Emitted r') → ¬ is_wait g → (g' = GRun) →
  einv (mk_esys r' g' ge h fb rs st fl (c ++ [w]) n).
Proof.
  intros (T & q & dn & rest & HB & HP) Hw He Hg ->. pose proof HB as [B1 B2 B3 B4 B5 B6 B7 B8 B9 B10].
  fields_. destruct (emit_emitted r r' w T q B1 B2 He) as (R1 & R2 & R3 & R4).
  exists T, (q ++ encode_op w), dn, (rest ++ [w]). split.
  - split; fields_.
    + done.
    + done.
    + rewrite (assoc_L (++)). apply Forall_app. split; [done|by apply Forall_singleton].
    + by rewrite (assoc_L (++)), B4, (assoc_L (++)).
    + done.
    + rewrite (assoc_L (++)), B6, encode_ops_app. f_equal. unfold encode_ops.
      cbn [fmap list_fmap concat]. by rewrite app_nil_r.
    + congruence.
    + done.
    + done.
    + destruct h; try done. destruct B10 as (f & k & -> & -> & ->).
      exists f, (k ++ [w]). rewrite <- (assoc_L (++)), encode_ops_app.
      split; [done|]. split; [done|]. f_equal. unfold encode_ops.
      cbn [fmap list_fmap concat]. by rewrite app_nil_r.
  - intros Hpat Hn. specialize (HP Hpat Hn). unfold phase in *. fields_.
    destruct HP as [(P1 & P2 & P3 & P4 & P5)|[(P1 & P2 & P)|(P1 & P2 & P)]]; [|done|done].
    left. rewrite R4. done.
Qed.

Lemma einv_flush r p ge h fb rs st fl c n :
  einv (mk_esys r GRun ge h fb rs st fl c n) →
  einv (mk_esys (flush_request r).2 (GWait (flush_request r).1 p) ge h fb rs st
          (fl ++ c) [] (n + 1)).
Proof.
  intros (T & q & dn & rest & HB & HP). pose proof HB as [B1 B2 B3 B4 B5 B6 B7 B8 B9 B10].
  fields_. exists T, q, dn, rest. split.
  - destruct (holds_seqs r (reply_seq (hdr r)) (u32 (req_seq (hdr r) + 1)) T q B1 B2).
    assert (u32 (req_seq (hdr r) + 1) = u32 (n + 1)) as Hr.
    { rewrite B7. apply Z.add_mod_idemp_l. done. }
    split; fields_; unfold flush_request; cbn [fst snd]; rewrite ?app_nil_r; try done.
    lia.
  - intros Hpat Hn. fields_. specialize (HP Hpat ltac:(lia)). unfold phase in *. fields_.
    destruct HP as [(P1 & P2 & P3 & P4 & P5)|[(P1 & P2 & P)|(P1 & P2 & P)]]; [|done|done].
    right. left. replace (n + 1 - 1) with n by lia.
    split; [lia|]. split; [done|]. split; [done|]. split; [exact P1|]. split; [done|].
    destruct P4; auto.
Qed.

(** A guest leaves its wait only when its frame is executed. *)
Lemma einv_wake r want p ge h fb rs st fl c n :
  (patient = true → (want <=? reply_seq (hdr r)) = true) →
  einv (mk_esys r (GWait want p) ge h fb rs st fl c n) →
  einv (mk_esys r (after_wait p) ge h fb rs st fl c n).
Proof.
  intros Hle (T & q & dn & rest & HB & HP).
  pose proof HB as [B1 B2 B3 B4 B5 B6 B7 B8 B9 B10]. fields_.
  exists T, q, dn, rest. split.
  - split; fields_; try done. by destruct p.
  - intros Hpat Hn. fields_. specialize (HP Hpat Hn). specialize (Hle Hpat).
    unfold phase in *. fields_.
    assert (1 ≤ n → reply_seq (hdr r) = u32 (n - 1) → False) as Hno.
    { intros H1 H2. rewrite B9, H2, !u32_small in Hle by lia. lia. }
    destruct HP as [(P1 & P2 & P3 & P4 & P5)|[(P1 & _ & _ & P2 & _)|
      (P1 & _ & _ & _ & _ & P2 & _)]]; [|by destruct Hno|by destruct Hno].
    left. repeat (split; [done|]). intros _. by apply P5.
Qed.

Lemma einv_error r g g' ge ge' h fb rs st fl c n :
  ¬ is_wait g → g' = GRun →
  einv (mk_esys r g ge h fb rs st fl c n) → einv (mk_esys r g' ge' h fb rs st fl c n).
Proof.
  intros Hg -> (T & q & dn & rest & HB & HP).
  pose proof HB as [B1 B2 B3 B4 B5 B6 B7 B8 B9 B10]. fields_.
  exists T, q, dn, rest. split; [by split|].
  intros Hpat Hn. fields_. specialize (HP Hpat Hn). unfold phase in *. fields_.
  destruct HP as [(P1 & P2 & P3 & P4 & P5)|[(P1 & P2 & P)|(P1 & P2 & P)]]; [|done|done].
  by left.
Qed.

Lemma einv_drain r g ge h fb rs st fl c n cap got :
  (match h with HDrain | HFrame _ => True | _ => False end) →
  0 < cap < 2 ^ 32 → snapshot r cap = Some got →
  einv (mk_esys r g ge h fb rs st fl c n) →
  einv (mk_esys (advance r (Z.of_nat (length got))) g ge h (fb ++ got) rs st fl c n).
Proof.
  intros Hh Hcap Hs (T & q & dn & rest & HB & HP).
  pose proof HB as [B1 B2 B3 B4 B5 B6 B7 B8 B9 B10]. fields_.
  rewrite (snapshot_ok r T q cap) in Hs by (done || lia). apply Some_inj in Hs as <-.
  rewrite length_take.
  destruct (holds_advance r T q (Z.of_nat (Z.to_nat cap `min` length q)) B1 B2) as [R1 R2];
    [lia|].
  exists (T + Z.of_nat (Z.to_nat cap `min` length q)),
    (drop (Z.to_nat cap `min` length q) q), dn, rest.
  rewrite Nat2Z.id in R2. split.
  - split; fields_; try done.
    + rewrite <- (assoc_L (++)). rewrite <- B6. f_equal.
      destruct (decide (Z.to_nat cap ≤ length q)%nat).
      * rewrite Nat.min_l by lia. apply take_drop.
      * rewrite Nat.min_r, take_ge, drop_all by lia. apply app_nil_r.
    + by destruct h.
  - intros Hpat Hn. fields_. specialize (HP Hpat Hn). unfold phase in *. fields_.
    destruct HP as [HP|[(P1 & P2 & P3 & P4 & P5 & P6)|HP]]; [by left| |by right; right].
    right. left. repeat (split; [done|]).
    destruct P6 as [?|[?|[?|[-> _]]]]; auto. done.
Qed.

Lemma empty_queue r T q : ring_ok r → holds r T q → available r = 0 → q = [].
Proof.
  intros H1 H2 Ha. rewrite (available_ok r T q H1 H2) in Ha.
  destruct q; [done|cbn [length] in Ha; lia].
Qed.

Lemma einv_check r g ge fb rs st fl c n :
  einv (mk_esys r g ge HDrain fb rs st fl c n) → einv (mk_esys r g ge HCheck fb rs st fl c n).
Proof.
  intros (T & q & dn & rest & HB & HP). pose proof HB as [B1 B2 B3 B4 B5 B6 B7 B8 B9 B10].
  fields_. exists T, q, dn, rest. split; [by split|].
  intros Hpat Hn. specialize (HP Hpat Hn). unfold phase in *. fields_.
  destruct HP as [(P1 & P2 & P3 & P4 & P5)|[(P1 & P2 & P3 & P4 & P5 & P6)|HP]].
  - left. auto 10.
  - right. left. auto 10.
  - destruct HP as (_ & _ & _ & _ & [=] & _).
Qed.

Lemma einv_idle r g ge fb rs st fl c n :
  req_seq (hdr r) = rs →
  einv (mk_esys r g ge HCheck fb rs st fl c n) → einv (mk_esys r g ge HDrain fb rs st fl c n).
Proof.
  intros Hreq (T & q & dn & rest & HB & HP).
  pose proof HB as [B1 B2 B3 B4 B5 B6 B7 B8 B9 B10].
  fields_. exists T, q, dn, rest. split; [by split|].
  intros Hpat Hn. specialize (HP Hpat Hn). unfold phase in *. fields_.
  destruct HP as [(P1 & P2 & P3 & P4 & P5)|[(P1 & P2 & P3 & P4 & P5 & P6)|HP]].
  - left. auto 10.
  - rewrite B7, P5, !u32_small in Hreq by lia. lia.
  - destruct HP as (_ & _ & _ & _ & [=] & _).
Qed.

Lemma einv_request r g ge fb rs st fl c n :
  req_seq (hdr r) ≠ rs →
  einv (mk_esys r g ge HCheck fb rs st fl c n) →
  einv (mk_esys r g ge (HFrame (req_seq (hdr r))) fb rs st fl c n).
Proof.
  intros Hreq (T & q & dn & rest & HB & HP).
  pose proof HB as [B1 B2 B3 B4 B5 B6 B7 B8 B9 B10].
  fields_. exists T, q, dn, rest. split; [by split|].
  intros Hpat Hn. specialize (HP Hpat Hn). unfold phase in *. fields_.
  destruct HP as [(P1 & P2 & P3 & P4 & P5)|[(P1 & P2 & P3 & P4 & P5 & P6)|HP]].
  - congruence.
  - right. left. rewrite B7. auto 10.
  - destruct HP as (_ & _ & _ & _ & [=] & _).
Qed.

Lemma einv_drained r g ge fb rs st fl c n req :
  available r = 0 →
  einv (mk_esys r g ge (HFrame req) fb rs st fl c n) →
  einv (mk_esys r g ge (HDecode req) fb rs st fl c n).
Proof.
  intros Ha (T & q & dn & rest & HB & HP).
  pose proof HB as [B1 B2 B3 B4 B5 B6 B7 B8 B9 B10]. fields_.
  assert (q = []) as -> by (by eapply empty_queue).
  rewrite app_nil_r in B6. exists T, [], dn, rest. split.
  - split; fields_; try done; [by rewrite app_nil_r|].
    exists rest, []. by rewrite app_nil_r.
  - intros Hpat Hn. specialize (HP Hpat Hn). unfold phase in *. fields_.
    destruct HP as [(_ & _ & _ & [[=]|[=]] & _)|[(P1 & P2 & P3 & P4 & P5 & P6)|HP]].
    + right. left. repeat (split; [done|]). destruct P6 as [[=]|[[=]|[[= ->]|[[=] _]]]]. auto.
    + destruct HP as (_ & _ & _ & _ & [=] & _).
Qed.

Lemma init_ok : ok (init_state fbo) = true.
Proof. done. Qed.

Lemma exec_ops_app ws1 ws2 st :
  exec_ops G (ws1 ++ ws2) st = exec_ops G ws2 (exec_ops G ws1 st).
Proof. apply foldl_app. Qed.

Lemma einv_decode r g ge fb rs st fl c n req :
  einv (mk_esys r g ge (HDecode req) fb rs st fl c n) →
  einv (mk_esys r g ge HPost [] req (decode_batch G fb st) fl c n).
Proof.
  intros (T & q & dn & rest & HB & HP). pose proof HB as [B1 B2 B3 B4 B5 B6 B7 B8 B9 B10].
  fields_. destruct B10 as (f & k & -> & -> & ->).
  assert (Forall op_ok f) as Hf.
  { rewrite B4, !Forall_app in B3. tauto. }
  exists T, (encode_ops k), (dn ++ f), k. split.
  - split; fields_; try done.
    + by rewrite <- (assoc_L (++)).
    + rewrite B5, exec_ops_app.
      rewrite <- (app_nil_r (encode_ops f)), decode_encoded, decode_nil; [done| |done].
      by rewrite exec_ops_ok.
  - intros Hpat Hn. specialize (HP Hpat Hn). unfold phase in *. fields_.
    destruct HP as [(_ & _ & _ & [[=]|[=]] & _)|[(P1 & P2 & P3 & P4 & P5 & P6)|HP]].
    + right. right. destruct P6 as [[=]|[[=]|[[=]|[[= ->] Hk]]]].
      apply encode_ops_nil in Hk as ->. subst c. rewrite !app_nil_r in B4. by rewrite B4.
    + destruct HP as (_ & _ & _ & _ & [=] & _).
Qed.

Lemma einv_post r g ge fb rs st fl c n :
  einv (mk_esys r g ge HPost fb rs st fl c n) →
  einv (mk_esys (post_reply r) g ge HDrain fb rs st fl c n).
Proof.
  intros (T & q & dn & rest & HB & HP). pose proof HB as [B1 B2 B3 B4 B5 B6 B7 B8 B9 B10].
  fields_. exists T, q, dn, rest. split.
  - destruct (holds_seqs r (req_seq (hdr r)) (req_seq (hdr r)) T q B1 B2). by split.
  - intros Hpat Hn. specialize (HP Hpat Hn). unfold phase in *. fields_.
    destruct HP as [(_ & _ & _ & [[=]|[=]] & _)|[(_ & _ & _ & _ & _ & P6)|HP]].
    + by destruct P6 as [[=]|[[=]|[[=]|[[=] _]]]].
    + destruct HP as (P1 & P2 & P3 & P4 & _ & P5 & P6). left.
      split; [exact B7|]. auto.
Qed.

Lemma estep_inv s s' : estep G patient s s' → einv s → einv s'.
Proof.
  intros Hs Hi. destruct Hs.
  - eapply einv_append; [exact Hi|done|done|by intros []|done].
  - eapply einv_error; [..|exact Hi]; [by intros []|done].
  - by eapply einv_flush.
  - by eapply einv_flush.
  - by eapply einv_wake.
  - eapply einv_wake; [|exact Hi]. congruence.
  - eapply einv_append; [exact Hi|done|done|by intros []|done].
  - eapply einv_error; [..|exact Hi]; [by intros []|done].
  - by eapply einv_drain.
  - by eapply einv_check.
  - by eapply einv_idle.
  - by eapply einv_request.
  - by eapply einv_drained.
  - by eapply einv_decode.
  - by eapply einv_post.
Qed.

Lemma eboot_inv r0 size r :
  0 ≤ size < 2 ^ 32 → Z.of_nat (length (data r0)) = size →
  ring_init (Some r0) size = (true, Some r) → einv (eboot r fbo).
Proof.
  intros Hn Hd Hi. pose proof (Threads.boot_inv r0 size r Hn Hd Hi) as [I1 I2 _ _ _].
  assert (req_seq (hdr r) = 0 ∧ reply_seq (hdr r) = 0) as [Hreq Hrep].
  { unfold ring_init in Hi. destruct ((size =? 0) || _); [by injection Hi|].
    apply pair_equal_spec in Hi as [_ Hi]. by apply Some_inj in Hi as <-. }
  exists 0, [], [], []. split.
  - split; unfold eboot; fields_; try done.
  - intros _ _. left. unfold eboot; fields_. auto 10.
Qed.

Lemma ereachable_inv r0 size r s :
  0 ≤ size < 2 ^ 32 → Z.of_nat (length (data r0)) = size →
  ring_init (Some r0) size = (true, Some r) →
  rtc (estep G patient) (eboot r fbo) s → einv s.
Proof.
  intros Hn Hd Hi Hs. pose proof (eboot_inv r0 size r Hn Hd Hi) as Hb.
  induction Hs as [|s1 s2 s3 H12 _ IH]; [done|]. apply IH. by eapply estep_inv.
Qed.
(** *** The host answers every flush *)

(** One pass of the drain loop empties the ring when nobody appends. *)
Lemma drain_all r g ge h fb rs st fl c n :
  (match h with HDrain | HFrame _ => True | _ => False end) →
  einv (mk_esys r g ge h fb rs st fl c n) →
  ∃ r' fb', rtc (estep G patient) (mk_esys r g ge h fb rs st fl c n)
                                  (mk_esys r' g ge h fb' rs st fl c n) ∧
    available r' = 0 ∧ hdr r' = hdr (set_tail (tail (hdr r')) r).
Proof.
  intros Hh Hi. pose proof Hi as (T & q & dn & rest & HB & _).
  destruct HB as [B1 B2 _ _ _ _ _ _ _ _]. fields_.
  destruct q as [|b q].
  - exists r, fb. split; [apply rtc_refl|]. split; [by rewrite (available_ok r T [] B1 B2)|].
    by destruct r as [[] ?].
  - pose proof (available_ok r T _ B1 B2) as Ha. cbn [length] in Ha.
    pose proof (holds_fits r T _ B2) as Hf. pose proof (ok_bytes r B1) as Hb.
    cbn [length] in Hf.
    pose proof (snapshot_ok r T (b :: q) (available r) B1 B2 ltac:(lia)) as Hs.
    rewrite take_ge in Hs by (cbn [length]; lia).
    exists (advance r (Z.of_nat (length (b :: q)))), (fb ++ b :: q). split.
    + apply rtc_once. apply h_drain with (available r); [done|lia|lia|done].
    + destruct (holds_advance r T (b :: q) (Z.of_nat (length (b :: q))) B1 B2) as [R1 R2];
        [lia|].
      rewrite Nat2Z.id, drop_all in R2. split; [|done].
      by rewrite (available_ok _ _ [] R1 R2).
Qed.

Lemma rtc_einv s s' : rtc (estep G patient) s s' → einv s → einv s'.
Proof. induction 1; [done|]. intros. eauto using estep_inv. Qed.

(** From the load of the request to the guest's wake-up. *)
Lemma frame_run r want p ge req fb rs st fl c n :
  einv (mk_esys r (GWait want p) ge (HFrame req) fb rs st fl c n) →
  ∃ s', rtc (estep G patient) (mk_esys r (GWait want p) ge (HFrame req) fb rs st fl c n) s' ∧
    gpc s' = after_wait p.
Proof.
  intros Hi. destruct (drain_all r (GWait want p) ge (HFrame req) fb rs st fl c n I Hi) as (r' & fb' & Hrun & Ha & Hhdr).
  pose proof (rtc_einv _ _ Hrun Hi) as (T & q & dn & rest & HB & _).
  destruct HB as [_ _ _ _ _ _ B7 _ B9 _]. fields_.
  eexists. split.
  - etransitivity; [exact Hrun|].
    eapply rtc_l; [by apply h_drained|]. eapply rtc_l; [apply h_decode|].
    eapply rtc_l; [apply h_post|]. apply rtc_once, g_wake.
    change (reply_seq (hdr (post_reply r'))) with (req_seq (hdr r')). lia.
  - done.
Qed.

Lemma flush_wakes r want p ge h fb rs st fl c n :
  patient = true → n < 2 ^ 32 →
  einv (mk_esys r (GWait want p) ge h fb rs st fl c n) →
  ∃ s', rtc (estep G patient) (mk_esys r (GWait want p) ge h fb rs st fl c n) s' ∧
    gpc s' = after_wait p.
Proof.
  intros Hpat Hn Hi. pose proof Hi as (T & q & dn & rest & HB & HP).
  destruct HB as [_ _ _ _ _ _ B7 B8 B9 _]. specialize (HP Hpat Hn). unfold phase in HP.
  fields_.
  destruct HP as [(P1 & _)|[(P1 & _ & _ & P4 & P5 & P6)|(P1 & _ & _ & _ & -> & P5 & _)]].
  - eexists. split; [apply rtc_once, g_wake; lia|done].
  - assert (req_seq (hdr r) ≠ rs) as Hne.
    { rewrite B7, P5, !u32_small by lia. lia. }
    assert (∀ r' fb', req_seq (hdr r') ≠ rs →
      einv (mk_esys r' (GWait want p) ge HCheck fb' rs st fl c n) →
      ∃ s', rtc (estep G patient) (mk_esys r' (GWait want p) ge HCheck fb' rs st fl c n) s' ∧
        gpc s' = after_wait p) as Hcheck.
    { intros r' fb' Hne' Hi'. apply einv_request in Hi' as Hi2; [|done].
      destruct (frame_run _ _ _ _ _ _ _ _ _ _ _ Hi2) as (s' & Hrun & Hg).
      exists s'. split; [|done]. eapply rtc_l; [by apply h_request|exact Hrun]. }
    destruct P6 as [->|[->|[->|[-> _]]]].
    + destruct (drain_all r (GWait want p) ge HDrain fb rs st fl c n I Hi) as (r' & fb' & Hrun & Ha & Hhdr).
      pose proof (rtc_einv _ _ Hrun Hi) as Hi'. apply einv_check in Hi' as Hi2.
      destruct (Hcheck r' fb') as (s' & Hrun' & Hg); [by rewrite Hhdr|done|].
      exists s'. split; [|done]. etransitivity; [exact Hrun|].
      eapply rtc_l; [by apply h_empty|exact Hrun'].
    + by apply Hcheck.
    + by eapply frame_run.
    + eexists. split.
      * eapply rtc_l; [apply h_decode|]. eapply rtc_l; [apply h_post|].
        apply rtc_once, g_wake.
        change (reply_seq (hdr (post_reply r))) with (req_seq (hdr r)). lia.
      * done.
  - eexists. split.
    + eapply rtc_l; [apply h_post|]. apply rtc_once, g_wake.
      change (reply_seq (hdr (post_reply r))) with (req_seq (hdr r)). lia.
    + done.
Qed.
End invariant.

(** ** Properties *)

(** With any guest, patient or not, the host has executed a prefix of the operations
    the guest emitted, in order, and its decoder never fails. *)
Theorem executed_prefix G patient fbo r0 size r s :
  0 ≤ size < 2 ^ 32 → Z.of_nat (length (data r0)) = size →
  ring_init (Some r0) size = (true, Some r) →
  rtc (estep G patient) (eboot r fbo) s →
  ∃ dn, dn `prefix_of` flushed s ++ cur s ∧ hst s = exec_ops G dn (init_state fbo) ∧
    ok (hst s) = true.
Proof.
  intros Hn Hd Hi Hs.
  destruct (ereachable_inv G patient fbo r0 size r s Hn Hd Hi Hs) as (T & q & dn & rest & HB & _).
  destruct HB as [_ _ _ B4 B5 _ _ _ _ _]. exists dn. split; [by exists rest|].
  split; [done|]. by rewrite B5, exec_ops_ok.
Qed.

(** C5. A guest that waits for its replies finds, whenever a flush has returned, that the
    host has executed every operation emitted before the flush, and no other. *)
Theorem flush_synchronises G fbo r0 size r s :
  0 ≤ size < 2 ^ 32 → Z.of_nat (length (data r0)) = size →
  ring_init (Some r0) size = (true, Some r) →
  rtc (estep G true) (eboot r fbo) s → nflush s < 2 ^ 32 →
  ¬ is_wait (gpc s) →
  hst s = exec_ops G (flushed s) (init_state fbo).
Proof.
  intros Hn Hd Hi Hs Hfl Hg.
  destruct (ereachable_inv G true fbo r0 size r s Hn Hd Hi Hs) as (T & q & dn & rest & HB & HP).
  destruct HB as [_ _ _ _ B5 _ _ _ _ _]. rewrite B5.
  destruct (HP eq_refl Hfl) as [(_ & _ & -> & _)|[(_ & Hw & _)|(_ & Hw & _)]]; done.
Qed.

(** C16. The host answers every flush: from every reachable state with a waiting guest, the
    loop can run on to a state where the guest continues. *)
Theorem flush_answered G fbo r0 size r s want p :
  0 ≤ size < 2 ^ 32 → Z.of_nat (length (data r0)) = size →
  ring_init (Some r0) size = (true, Some r) →
  rtc (estep G true) (eboot r fbo) s → nflush s < 2 ^ 32 →
  gpc s = GWait want p →
  ∃ s', rtc (estep G true) s s' ∧ gpc s' = after_wait p.
Proof.
  intros Hn Hd Hi Hs Hfl Hg. pose proof (ereachable_inv G true fbo r0 size r s Hn Hd Hi Hs) as He.
  destruct s as [r1 g ge h fb rs st fl c n]. cbn [gpc nflush] in *. subst g.
  by apply (flush_wakes G true fbo).
Qed.

(** [alr_shim_emit] drops an operation on its retry only if no empty ring could hold
    it. *)
Theorem drop_only_oversized G fbo r0 size r s w :
  0 ≤ size < 2 ^ 32 → Z.of_nat (length (data r0)) = size →
  ring_init (Some r0) size = (true, Some r) →
  rtc (estep G true) (eboot r fbo) s → nflush s < 2 ^ 32 →
  gpc s = GRetry w → emit_try (er s) w = Some EmitFull →
  ring_bytes (hdr (er s)) - 1 < Z.of_nat (length (encode_op w)).
Proof.
  intros Hn Hd Hi Hs Hfl Hg He.
  destruct (ereachable_inv G true fbo r0 size r s Hn Hd Hi Hs) as (T & q & dn & rest & HB & HP).
  destruct HB as [B1 B2 _ B4 _ B6 _ _ _ _]. specialize (HP eq_refl Hfl). unfold phase in HP.
  rewrite Hg in HP.
  destruct HP as [(_ & _ & -> & _ & Hc)|[(_ & [] & _)|(_ & [] & _)]].
  rewrite Hc, app_nil_r in B4 by done.
  assert (rest = []) as ->.
  { apply (f_equal length) in B4. rewrite length_app in B4. destruct rest; [done|].
    cbn [length] in B4. lia. }
  apply app_nil in B6 as [_ ->].
  pose proof (emit_try_ok (er s) w T [] B1 B2) as K. cbv zeta in K. cbn [length] in K.
  destruct (_ <? _); [congruence|].
  destruct (_ <=? _) eqn:E; [destruct K as (r' & K & _); congruence|].
  apply Z.leb_gt in E. change (Z.of_nat 0) with 0 in E. lia.
Qed.

(** ** A concrete session *)

Definition zero_region (n : nat) : Region :=
  mk_region (mk_header 0 0 0 0 0 0 0 0 0 (replicate 64 nul) (replicate 64 nul)
    (replicate 64 nul)) (replicate n nul).
Definition ring64 : Region :=
  match ring_init (Some (zero_region 64)) 64 with (_, Some r) => r | _ => zero_region 64 end.

(** A guest that gives up waiting can be told that a frame is done before the host
    has executed it: the reply acknowledges the requests made when it is posted, not
    the one the host loaded before decoding. *)
Example early_reply :
  ∃ s, rtc (estep counting_gl false) (eboot ring64 7) s ∧ gpc s = GRun ∧
    nflush s = 2 ∧ reply_seq (hdr (er s)) = 2 ∧
    length (flushed s) = 2%nat ∧ decoded (hst s) = 1.
Proof.
  eexists. split.
  - eapply rtc_l; [eapply (g_emit _ _ _ _ _ _ _ _ _ _ _ _ OP_CLEAR);
      [by repeat constructor|vm_compute; reflexivity]|].
    eapply rtc_l; [apply g_flush|].
    eapply rtc_l; [eapply (h_drain _ _ _ _ _ _ _ _ _ _ _ _ 64); [done|done|done|];
      vm_compute; reflexivity|].
    eapply rtc_l; [by apply h_empty|].
    eapply rtc_l; [by apply h_request|].
    eapply rtc_l; [by apply h_drained|].
    eapply rtc_l; [by apply g_timeout|].
    eapply rtc_l; [eapply (g_emit _ _ _ _ _ _ _ _ _ _ _ _ OP_CLEAR);
      [by repeat constructor|vm_compute; reflexivity]|].
    eapply rtc_l; [apply g_flush|].
    eapply rtc_l; [apply h_decode|].
    eapply rtc_l; [apply h_post|].
    apply rtc_once, g_wake. vm_compute. reflexivity.
  - vm_compute. auto 10.
Qed.

(** A patient guest in the middle of its first flush. *)
Lemma waiting_run : ∃ s, rtc (estep counting_gl true) (eboot ring64 7) s ∧
  gpc s = GWait 1 None ∧ nflush s = 1 ∧ flushed s = [OP_CLEAR] ∧ hpc s = HFrame 1.
Proof.
  eexists. split.
  - eapply rtc_l; [eapply (g_emit _ _ _ _ _ _ _ _ _ _ _ _ OP_CLEAR);
      [by repeat constructor|vm_compute; reflexivity]|].
    eapply rtc_l; [apply g_flush|].
    eapply rtc_l; [eapply (h_drain _ _ _ _ _ _ _ _ _ _ _ _ 64); [done|done|done|];
      vm_compute; reflexivity|].
    eapply rtc_l; [by apply h_empty|].
    apply rtc_once. by apply h_request.
  - vm_compute. auto 10.
Qed.

Lemma executed_prefix_witness : ∃ s dn, rtc (estep counting_gl true) (eboot ring64 7) s ∧
  dn `prefix_of` flushed s ++ cur s ∧ hst s = exec_ops counting_gl dn (init_state 7).
Proof.
  destruct waiting_run as (s & Hs & _).
  destruct (executed_prefix counting_gl true 7 (zero_region 64) 64 ring64 s) as (dn & H1 & H2 & _);
    [lia|reflexivity|reflexivity|exact Hs|].
  exists s, dn. split; [exact Hs|]. split; [exact H1|exact H2].
Defined.

Lemma flush_answered_witness : ∃ s s', rtc (estep counting_gl true) (eboot ring64 7) s ∧
  gpc s = GWait 1 None ∧ rtc (estep counting_gl true) s s' ∧ gpc s' = GRun.
Proof.
  destruct waiting_run as (s & Hs & Hg & Hn & _).
  destruct (flush_answered counting_gl 7 (zero_region 64) 64 ring64 s 1 None)
    as (s' & H1 & H2); [lia|reflexivity|reflexivity|exact Hs|rewrite Hn; lia|exact Hg|].
  exists s, s'. split; [exact Hs|]. split; [exact Hg|]. split; [exact H1|exact H2].
Defined.

(** The same guest once its flush has returned. *)
Lemma answered_run : ∃ s, rtc (estep counting_gl true) (eboot ring64 7) s ∧
  gpc s = GRun ∧ nflush s = 1 ∧ flushed s = [OP_CLEAR].
Proof.
  eexists. split.
  - eapply rtc_l; [eapply (g_emit _ _ _ _ _ _ _ _ _ _ _ _ OP_CLEAR);
      [by repeat constructor|vm_compute; reflexivity]|].
    eapply rtc_l; [apply g_flush|].
    eapply rtc_l; [eapply (h_drain _ _ _ _ _ _ _ _ _ _ _ _ 64); [done|done|done|];
      vm_compute; reflexivity|].
    eapply rtc_l; [by apply h_empty|].
    eapply rtc_l; [by apply h_request|].
    eapply rtc_l; [by apply h_drained|].
    eapply rtc_l; [apply h_decode|].
    eapply rtc_l; [apply h_post|].
    apply rtc_once, g_wake. vm_compute. reflexivity.
  - vm_compute. auto 10.
Qed.

Lemma flush_synchronises_witness : ∃ s, rtc (estep counting_gl true) (eboot ring64 7) s ∧
  gpc s = GRun ∧ calls (hst s) = [Call "glClear" [Num 0x4100]].
Proof.
  destruct answered_run as (s & Hs & Hg & Hn & Hf). exists s. split; [exact Hs|].
  split; [exact Hg|].
  rewrite (flush_synchronises counting_gl 7 (zero_region 64) 64 ring64 s);
    [rewrite Hf; reflexivity|lia|reflexivity|reflexivity|exact Hs|rewrite Hn; lia|].
  rewrite Hg. intros [].
Defined.

(** An operation that no flush can make fit: 100 bytes of source, 64 of ring. *)
Definition long_source : gop := OP_SHADER_SOURCE 1 (replicate 100 nul).
Lemma retry_run : ∃ s, rtc (estep counting_gl true) (eboot ring64 7) s ∧
  gpc s = GRetry long_source ∧ nflush s = 1 ∧ emit_try (er s) long_source = Some EmitFull ∧
  ring_bytes (hdr (er s)) = 64.
Proof.
  eexists. split.
  - eapply rtc_l; [eapply (g_full _ _ _ _ _ _ _ _ _ _ _ long_source);
      [|vm_compute; reflexivity]|].
    { split; [|done]. repeat (apply Forall_cons; split); [cbn; lia|cbn; lia|constructor]. }
    eapply rtc_l; [by apply h_empty|].
    eapply rtc_l; [by apply h_request|].
    eapply rtc_l; [by apply h_drained|].
    eapply rtc_l; [apply h_decode|].
    eapply rtc_l; [apply h_post|].
    apply rtc_once, g_wake. vm_compute. reflexivity.
  - split; [reflexivity|]. split; [reflexivity|]. split; vm_compute; reflexivity.
Qed.

Lemma drop_only_oversized_witness : ∃ s, rtc (estep counting_gl true) (eboot ring64 7) s ∧
  gpc s = GRetry long_source ∧ 63 < Z.of_nat (length (encode_op long_source)).
Proof.
  destruct retry_run as (s & Hs & Hg & Hn & He & Hb). exists s. split; [exact Hs|].
  split; [exact Hg|].
  pose proof (drop_only_oversized counting_gl 7 (zero_region 64) 64 ring64 s long_source) as H.
  rewrite Hb in H. apply H; [lia|reflexivity|reflexivity|exact Hs|rewrite Hn; lia|exact Hg|].
  exact He.
Defined.
Close Scope Z_scope.
