(* ===== verification/ResolvBridge.v ===== *)
(** * The resolver bridge of the C runtime

    The guest's [getaddrinfo] of [preload/alr_preload.c] asks a thread of the tool,
    [cli/alr_resolvd.c], over a socket; the message format is
    [common/alr_resolv_proto.h].  The thread asks netd's DNS proxy or the C library of
    Android.  A peer of a stream is what it writes: the whole text a reader will see before
    the end of the stream, so that reading [n] bytes fails iff fewer are left.  Structures
    travel as their bytes, little-endian. *)

From S2P Require Import Prelude CppMap Bytes ExecPlan PreloadNss CliConfig CliTree CliEnv Wire.

Local Open Scope Z_scope.

(** ** The messages *)

Definition ALR_RESOLV_MAGIC : Z := 0x414C5231.
Definition ALR_RESOLV_MAXNAME : Z := 256.
Definition ALR_RESOLV_MAXSERV : Z := 64.
Definition ALR_RESOLV_MAXADDR : Z := 28.
Definition ALR_RESOLV_MAXRES : nat := 16.

Record alr_resolv_req := mk_req {
  q_magic : Z; q_family : Z; q_socktype : Z; q_protocol : Z; q_flags : Z;
  q_node_len : Z; q_serv_len : Z; q_has_node : Z; q_has_serv : Z;
}.
Definition enc_req (q : alr_resolv_req) : bytes :=
  enc_onto [WU32 (q_magic q); WI32 (q_family q); WI32 (q_socktype q); WI32 (q_protocol q); WI32 (q_flags q);
            WU32 (q_node_len q); WU32 (q_serv_len q); WU32 (q_has_node q); WU32 (q_has_serv q)] [].
Definition rd_req : rd alr_resolv_req :=
  m ← rd_u32; fa ← rd_i32; st ← rd_i32; pr ← rd_i32; fl ← rd_i32; nl ← rd_u32; sl ← rd_u32; hn ← rd_u32; hs ← rd_u32;
  mret (mk_req m fa st pr fl nl sl hn hs).

(** The address always fills its array. *)
Record alr_resolv_ent := mk_ent { e_family : Z; e_socktype : Z; e_protocol : Z; e_addrlen : Z; e_addr : bytes }.
Definition enc_ent (e : alr_resolv_ent) : bytes :=
  enc_onto [WI32 (e_family e); WI32 (e_socktype e); WI32 (e_protocol e); WU32 (e_addrlen e); WRaw (e_addr e)] [].
Definition rd_ent : rd alr_resolv_ent :=
  fa ← rd_i32; st ← rd_i32; pr ← rd_i32; al ← rd_u32; a ← rd_take ALR_RESOLV_MAXADDR; mret (mk_ent fa st pr al a).

Record alr_resolv_rsp := mk_rsp { r_magic : Z; r_rc : Z; r_count : Z }.
Definition enc_rsp (r : alr_resolv_rsp) : bytes := enc_onto [WU32 (r_magic r); WI32 (r_rc r); WU32 (r_count r)] [].
Definition rd_rsp : rd alr_resolv_rsp := m ← rd_u32; rc ← rd_i32; n ← rd_u32; mret (mk_rsp m rc n).

(** ** Addresses as the C libraries hold them *)

Record addrinfo := mk_ai {
  ai_flags : Z; ai_family : Z; ai_socktype : Z; ai_protocol : Z; ai_addr : option bytes; ai_canonname : option bytes;
}.
Record hints := mk_hints { hi_flags : Z; hi_family : Z; hi_socktype : Z; hi_protocol : Z }.
Definition AI_PASSIVE : Z := 1.
Definition AI_CANONNAME : Z := 2.
Definition AI_NUMERICHOST : Z := 4.
Definition AI_NUMERICSERV : Z := 0x400.
(** The entry of one address. *)
Definition ent_of (fa st pr : Z) (addr : bytes) : alr_resolv_ent :=
  mk_ent fa st pr (Z.of_nat (length addr)) (addr ++ replicate (Z.to_nat ALR_RESOLV_MAXADDR - length addr) nul).
Definition fits_ent (addr : bytes) : bool := Z.of_nat (length addr) <=? ALR_RESOLV_MAXADDR.

(** ** The thread of the tool *)

(** Error codes: bionic's, and glibc's. *)
Definition EAI_AGAIN : Z := 2.
Definition EAI_FAIL : Z := 4.
Definition EAI_NONAME : Z := 8.
Definition EAI_SERVICE : Z := 9.
Definition GLIBC_EAI_NONAME : Z := -2.
Definition GLIBC_EAI_AGAIN : Z := -3.
Definition GLIBC_EAI_FAIL : Z := -4.
Definition map_eai (rc : Z) : Z :=
  if rc =? 0 then 0 else if rc =? EAI_NONAME then GLIBC_EAI_NONAME
  else if rc =? EAI_AGAIN then GLIBC_EAI_AGAIN else GLIBC_EAI_FAIL.

Section daemon.
(** netd's proxy, if it can be reached: what it answers to a command; [inet_pton]; the C
    library's [getaddrinfo]. *)
Context (netd : option (bytes → bytes)) (pton4 pton6 : bytes → option bytes).
Context (libc : option bytes → option bytes → hints → Z + list addrinfo).

Definition DNSPROXY_RESULT_OK : Z := 222.
Definition space : byte := " "%byte.
Definition proxy_cmd (node : bytes) (serv : option bytes) (h : hints) : bytes :=
  str "getaddrinfo " ++ node ++ str " " ++ (match serv with Some ((_ :: _) as s) => s | _ => str "^" end) ++
  str " " ++ to_string (hi_flags h) ++ str " " ++ to_string (hi_family h) ++ str " " ++ to_string (hi_socktype h) ++
  str " " ++ to_string (hi_protocol h) ++ str " 0".
Definition CMD_SIZE : Z := 64 + ALR_RESOLV_MAXNAME + ALR_RESOLV_MAXSERV.
(** [read_be32] *)
Definition rd_be32 : rd Z := b ← rd_take 4; mret (s32 (be_num b)).
(** One address of the reply; [None] ends it. *)
Definition rd_answer : rd (option (Z * Z * Z * bytes)) :=
  more ← rd_be32;
  if more =? 0 then mret None
  else
    flags ← rd_be32; fa ← rd_be32; st ← rd_be32; pr ← rd_be32; alen ← rd_be32;
    if (alen <? 0) || (128 <? alen) then rd_fail
    else addr ← rd_take alen; nlen ← rd_be32;
         if nlen <? 0 then rd_fail else name ← rd_take nlen; mret (Some (fa, st, pr, addr)).
Definition add_ent (es : list alr_resolv_ent) (a : Z * Z * Z * bytes) : list alr_resolv_ent :=
  let '(fa, st, pr, addr) := a in
  if bool_decide (length es < ALR_RESOLV_MAXRES)%nat && fits_ent addr then es ++ [ent_of fa st pr addr] else es.
(** The loop over the reply; an address takes at least four bytes of it. *)
Fixpoint rd_answers (fuel : nat) (es : list alr_resolv_ent) : rd (list alr_resolv_ent) :=
  match fuel with
  | 0%nat => rd_fail
  | S fuel => a ← rd_answer; match a with None => mret es | Some a => rd_answers fuel (add_ent es a) end
  end.
(** [atoi] on three bytes. *)
Definition code_of (code : bytes) : Z := atoi (c_str (take 3 code)).
(** [proxy_getaddrinfo]: a code, -1 when the proxy could not be used, or the entries. *)
Definition proxy_getaddrinfo (node : bytes) (serv : option bytes) (h : hints) : Z + list alr_resolv_ent :=
  if has_byte space node then inl EAI_NONAME
  else if has_byte space (default [] serv) then inl EAI_SERVICE
  else match netd with
       | None => inl (-1)
       | Some ask =>
           let cmd := proxy_cmd node serv h in
           if CMD_SIZE <=? Z.of_nat (length cmd) then inl (-1)
           else match rd_take 4 (ask (cmd ++ [nul])) with
                | None => inl (-1)
                | Some (code, s) =>
                    if negb (code_of code =? DNSPROXY_RESULT_OK) then
                      match rd_i32 s with
                      | Some (e, _) => inl (if e =? 0 then EAI_FAIL else e)
                      | None => inl EAI_FAIL
                      end
                    else match rd_answers (S (length s)) [] s with Some (es, _) => inr es | None => inl (-1) end
                end
       end.

Definition needs_dns (node : bytes) (flags : Z) : bool :=
  negb (bool_decide (node = [])) && (Z.land flags AI_NUMERICHOST =? 0) &&
  bool_decide (pton4 node = None) && bool_decide (pton6 node = None).
Definition add_ai (es : list alr_resolv_ent) (a : addrinfo) : list alr_resolv_ent :=
  match ai_addr a with
  | Some addr => add_ent es (ai_family a, ai_socktype a, ai_protocol a, addr)
  | None => es
  end.
(** What the thread finds: the code and the entries. *)
Definition answer (node serv : option bytes) (h : hints) : Z * list alr_resolv_ent :=
  let p := match node with
           | Some nd => if needs_dns nd (hi_flags h) then proxy_getaddrinfo nd serv h else inl (-1)
           | None => inl (-1)
           end in
  match p with
  | inr es => (0, es)
  | inl rc => if rc <? 0 then match libc node serv h with inl e => (e, []) | inr ais => (0, foldl add_ai [] ais) end
              else (rc, [])
  end.
(** [serve_one]: what is written to a client that writes [s]; nothing when the connection
    is closed. *)
Definition serve_one (s : bytes) : bytes :=
  match rd_req s with
  | None => []
  | Some (q, s) =>
      if negb (q_magic q =? ALR_RESOLV_MAGIC) then []
      else if (ALR_RESOLV_MAXNAME <? q_node_len q) || (ALR_RESOLV_MAXSERV <? q_serv_len q) then []
      else match (n ← rd_take (q_node_len q); v ← rd_take (q_serv_len q); mret (n, v)) s with
           | None => []
           | Some ((n, v), _) =>
               let opt (has : Z) (t : bytes) := if has =? 0 then None else Some (c_str t) in
               let '(rc, es) := answer (opt (q_has_node q) n) (opt (q_has_serv q) v)
                                  (mk_hints (q_flags q) (q_family q) (q_socktype q) (q_protocol q)) in
               let rc := map_eai rc in
               let rc := if (rc =? 0) && bool_decide (es = []) then GLIBC_EAI_NONAME else rc in
               enc_rsp (mk_rsp ALR_RESOLV_MAGIC rc (Z.of_nat (length es))) ++ concat (enc_ent <$> es)
           end
  end.
End daemon.

(** [alr_resolvd_start]: the path of the socket; it is cut before its length is tested. *)
Definition SUN_PATH : nat := 108.
Definition sock_path (dir : bytes) (pid : Z) : option bytes :=
  let p := take (SUN_PATH - 1) (dir ++ str "/.alr-resolv-" ++ to_string pid ++ str ".sock") in
  if decide (SUN_PATH ≤ length p)%nat then None else Some p.

(** ** The guest's side *)

Section client.
(** The files of the guest, [inet_pton], libc's [getservbyname], libc's own resolver if there
    is one, and the peer of the socket if it can be connected: what it writes to a client
    that writes a text. *)
Context (hosts services : option bytes) (pton4 pton6 : bytes → option bytes) (byname : bytes → option bytes → option Z).
Context (real_gai : option (option bytes → option bytes → option hints → Z + list addrinfo)) (bridge : option (bytes → bytes)).

Definition hint_of (f : hints → Z) (h : option hints) : Z := match h with Some h => f h | None => 0 end.
(** [struct sockaddr_in] and [struct sockaddr_in6]. *)
Definition sockaddr (af port : Z) (addr : bytes) : bytes :=
  if af =? AF_INET then le_bytes 2 AF_INET ++ be_bytes 2 port ++ addr ++ replicate 8 nul
  else le_bytes 2 AF_INET6 ++ be_bytes 2 port ++ replicate 4 nul ++ addr ++ replicate 4 nul.
Definition hosts_addrinfo (af : Z) (addr cname : bytes) (service : option bytes) (h : option hints) : option (Z + list addrinfo) :=
  port ← serv_port services service (hint_of hi_socktype h) (negb (Z.land (hint_of hi_flags h) AI_NUMERICSERV =? 0)) byname;
  let st := hint_of hi_socktype h in
  let want := negb (Z.land (hint_of hi_flags h) AI_CANONNAME =? 0) in
  Some (inr [mk_ai 0 af (if st =? 0 then SOCK_STREAM else st) (hint_of hi_protocol h) (Some (sockaddr af port addr))
               (if want && negb (bool_decide (cname = [])) then Some cname else None)]).
(** An entry as an address; [None]: more bytes are copied than the entry has. *)
Definition ai_of_ent (e : alr_resolv_ent) : option addrinfo :=
  if e_addrlen e <=? ALR_RESOLV_MAXADDR
  then Some (mk_ai 0 (e_family e) (e_socktype e) (e_protocol e) (Some (take (Z.to_nat (e_addrlen e)) (e_addr e))) None)
  else None.
Definition request (node service : option bytes) (h : option hints) : alr_resolv_req :=
  mk_req ALR_RESOLV_MAGIC (hint_of hi_family h) (hint_of hi_socktype h) (hint_of hi_protocol h)
    (Z.land (hint_of hi_flags h) (Z.lor AI_PASSIVE AI_NUMERICHOST))
    (Z.of_nat (length (default [] node))) (Z.of_nat (length (default [] service)))
    (if bool_decide (is_Some node) then 1 else 0) (if bool_decide (is_Some service) then 1 else 0).
Definition ask_bridge (peer : bytes → bytes) (node service : option bytes) (h : option hints) : option (Z + list addrinfo) :=
  let q := request node service h in
  if (ALR_RESOLV_MAXNAME <? q_node_len q) || (ALR_RESOLV_MAXSERV <? q_serv_len q) then Some (inl GLIBC_EAI_FAIL)
  else
    match rd_rsp (peer (enc_req q ++ default [] node ++ default [] service)) with
    | None => Some (inl GLIBC_EAI_FAIL)
    | Some (r, s) =>
        if negb (r_magic r =? ALR_RESOLV_MAGIC) then Some (inl GLIBC_EAI_FAIL)
        else if negb (r_rc r =? 0) || (r_count r =? 0) then Some (inl (if r_rc r =? 0 then GLIBC_EAI_NONAME else r_rc r))
        else if Z.of_nat ALR_RESOLV_MAXRES <? r_count r then Some (inl GLIBC_EAI_FAIL)
        else match rd_words rd_ent (r_count r) s with
             | None => Some (inl GLIBC_EAI_FAIL)
             | Some (es, _) => inr <$> mapM ai_of_ent es
             end
    end.
(** [rb_connect]: the socket named by the launch, by the host's path. *)
Definition rb_connect (sock : option bytes) (connect : bytes → option (bytes → bytes)) : option (bytes → bytes) :=
  match sock with
  | None | Some [] => None
  | Some p => if decide (SUN_PATH ≤ length p)%nat then None else connect p
  end.
(** A node of [ai_clone]: an empty address is not copied. *)
Definition ai_copy (a : addrinfo) : addrinfo :=
  mk_ai (ai_flags a) (ai_family a) (ai_socktype a) (ai_protocol a) (match ai_addr a with Some [] => None | o => o end) (ai_canonname a).
(** [getaddrinfo]; [None]: the files are read for ever, or [ai_of_ent]. *)
Definition getaddrinfo (node service : option bytes) (h : option hints) : option (Z + list addrinfo) :=
  found ← match node with Some n => hosts_lookup pton4 pton6 hosts n (hint_of hi_family h) | None => Some None end;
  match found with
  | Some (af, addr, cname) => hosts_addrinfo af addr (take 255 cname) service h
  | None =>
      match bridge with
      | Some peer => ask_bridge peer node service h
      | None =>
          match real_gai with
          | None => Some (inl GLIBC_EAI_FAIL)
          | Some f =>
              Some (match f node service h with
                    | inl rc => inl rc
                    | inr [] => inl GLIBC_EAI_NONAME
                    | inr l => inr (ai_copy <$> l)
                    end)
          end
      end
  end.
End client.

(** The path of the thread is never refused: a long one is cut, so that other files share it,
    and the guest still connects to it. *)
Lemma sock_path_cut dir pid : sock_path dir pid = Some (take 107 (dir ++ str "/.alr-resolv-" ++ to_string pid ++ str ".sock")).
Proof. unfold sock_path, SUN_PATH. rewrite decide_False; [done|]. rewrite length_take. lia. Qed.
Lemma sock_path_shared dir pid pid' : (107 ≤ length dir)%nat → sock_path dir pid = sock_path dir pid' ∧ sock_path dir pid = Some (take 107 dir).
Proof. intros H. rewrite !sock_path_cut, !take_app_le by done. done. Qed.
Lemma sock_path_connects dir pid connect : dir ≠ [] → rb_connect (sock_path dir pid) connect = connect (take 107 (dir ++ str "/.alr-resolv-" ++ to_string pid ++ str ".sock")).
Proof.
  intros H. rewrite sock_path_cut. destruct dir as [|b dir]; [done|]. cbn [app take rb_connect]. rewrite decide_False; [done|].
  unfold SUN_PATH. cbn [length]. rewrite length_take. lia.
Qed.

(** * Messages are read as they were written *)

Definition i32 (z : Z) : Prop := - 2 ^ 31 ≤ z < 2 ^ 31.
Definition is_u32 (z : Z) : Prop := 0 ≤ z < 2 ^ 32.
Record req_ok (q : alr_resolv_req) : Prop := mk_req_ok {
  qo_magic : is_u32 (q_magic q); qo_family : i32 (q_family q); qo_socktype : i32 (q_socktype q);
  qo_protocol : i32 (q_protocol q); qo_flags : i32 (q_flags q); qo_node : is_u32 (q_node_len q); qo_serv : is_u32 (q_serv_len q);
  qo_has_node : is_u32 (q_has_node q); qo_has_serv : is_u32 (q_has_serv q);
}.
(** Reads one encoded field after the other. *)
Ltac rd_fields := repeat (erewrite rd_bind_eq by (first [apply rd_u32_enc; done|apply rd_i32_enc; done])).
Lemma rd_req_enc q s : req_ok q → rd_req (enc_req q ++ s) = Some (q, s).
Proof.
  intros [H1 H2 H3 H4 H5 H6 H7 H8 H9]. unfold enc_req, enc_onto. cbn [foldr]. rewrite <- !app_assoc. cbn [app]. unfold rd_req. rd_fields.
  by destruct q.
Qed.
Record rsp_ok (r : alr_resolv_rsp) : Prop := mk_rsp_ok { ro_magic : is_u32 (r_magic r); ro_rc : i32 (r_rc r); ro_count : is_u32 (r_count r) }.
Lemma rd_rsp_enc r s : rsp_ok r → rd_rsp (enc_rsp r ++ s) = Some (r, s).
Proof.
  intros [H1 H2 H3]. unfold enc_rsp, enc_onto. cbn [foldr]. rewrite <- !app_assoc. cbn [app]. unfold rd_rsp. rd_fields. by destruct r.
Qed.
Record ent_ok (e : alr_resolv_ent) : Prop := mk_ent_ok {
  eo_family : i32 (e_family e); eo_socktype : i32 (e_socktype e); eo_protocol : i32 (e_protocol e);
  eo_addrlen : 0 ≤ e_addrlen e ≤ ALR_RESOLV_MAXADDR; eo_addr : Z.of_nat (length (e_addr e)) = ALR_RESOLV_MAXADDR;
}.
Lemma rd_ent_enc e s : ent_ok e → rd_ent (enc_ent e ++ s) = Some (e, s).
Proof.
  intros [H1 H2 H3 H4 H5]. assert (is_u32 (e_addrlen e)) by (unfold is_u32, ALR_RESOLV_MAXADDR in *; lia).
  unfold enc_ent, enc_onto. cbn [foldr]. rewrite <- !app_assoc. cbn [app]. unfold rd_ent. rd_fields.
  cbn [enc_wire]. rewrite <- H5. erewrite rd_bind_eq by apply rd_take_app. by destruct e.
Qed.
Lemma rd_ents_enc es s : Forall ent_ok es → rd_words rd_ent (Z.of_nat (length es)) (concat (enc_ent <$> es) ++ s) = Some (es, s).
Proof.
  intros H. unfold rd_words. assert (Hf : (length es ≤ length (concat (enc_ent <$> es) ++ s))%nat).
  { rewrite length_app. clear H. induction es as [|e es IH]; [simpl; lia|]. cbn [fmap list_fmap concat length]. rewrite length_app.
    assert (0 < length (enc_ent e))%nat; [|lia]. unfold enc_ent, enc_onto. cbn [foldr enc_wire]. rewrite length_app, le_bytes_length. lia. }
  revert Hf. generalize (length (concat (enc_ent <$> es) ++ s)). intros n. revert n.
  induction H as [|e es He H IH]; intros n Hn; [by destruct n|]. destruct n as [|n]; [simpl in Hn; lia|].
  cbn [fmap list_fmap concat length rd_loop]. rewrite (proj2 (Z.leb_gt _ _)) by lia. rewrite <- app_assoc.
  erewrite rd_bind_eq by by apply rd_ent_enc. replace (Z.of_nat (S (length es)) - 1) with (Z.of_nat (length es)) by lia.
  erewrite rd_bind_eq by (apply IH; simpl in Hn; lia). done.
Qed.

(** * The bridge *)

(** The address of an entry, and what the guest gets of it. *)
Definition ent_addr (e : alr_resolv_ent) : bytes := take (Z.to_nat (e_addrlen e)) (e_addr e).
Definition ai_of (e : alr_resolv_ent) : addrinfo := mk_ai 0 (e_family e) (e_socktype e) (e_protocol e) (Some (ent_addr e)) None.
Lemma ais_of_ents es : Forall ent_ok es → mapM ai_of_ent es = Some (ai_of <$> es).
Proof.
  intros H. apply mapM_Some_2. apply Forall2_fmap_r. induction H as [|e es [H1 H2 H3 H4 H5] _ IH]; constructor; [|done].
  unfold ai_of_ent. by rewrite (proj2 (Z.leb_le _ _)) by lia.
Qed.
Lemma ent_of_ok fa st pr addr : i32 fa → i32 st → i32 pr → fits_ent addr = true → ent_ok (ent_of fa st pr addr) ∧ ent_addr (ent_of fa st pr addr) = addr.
Proof.
  unfold fits_ent. intros H1 H2 H3 H4. apply Z.leb_le in H4. split.
  - constructor; cbn; [done..|lia|]. rewrite length_app, length_replicate. unfold ALR_RESOLV_MAXADDR in *. lia.
  - unfold ent_addr. cbn. by rewrite Nat2Z.id, take_app_length.
Qed.

(** The entries kept of a list of addresses: the first sixteen that fit. *)
Definition address : Type := Z * Z * Z * bytes.
Definition entry (a : address) : alr_resolv_ent := let '(fa, st, pr, addr) := a in ent_of fa st pr addr.
Definition fitting (a : address) : Prop := fits_ent (snd a) = true.
Definition kept (l : list address) : list address := take ALR_RESOLV_MAXRES (filter fitting l).
Lemma add_entries l es : (length es ≤ ALR_RESOLV_MAXRES)%nat →
  foldl add_ent es l = es ++ (entry <$> take (ALR_RESOLV_MAXRES - length es) (filter fitting l)).
Proof.
  revert es. induction l as [|[[[fa st] pr] addr] l IH]; intros es He; cbn [foldl]; [cbn; by rewrite take_nil, app_nil_r|].
  rewrite filter_cons. unfold fitting at 1. cbn [snd add_ent].
  destruct (decide (fits_ent addr = true)) as [Hf|Hf].
  - rewrite Hf, andb_true_r. destruct (decide (length es < ALR_RESOLV_MAXRES)%nat) as [Hl|Hl].
    + rewrite bool_decide_true by done. rewrite IH by (rewrite length_app; simpl; lia). rewrite <- app_assoc. f_equal.
      rewrite length_app. cbn [length]. replace (ALR_RESOLV_MAXRES - length es)%nat with (S (ALR_RESOLV_MAXRES - (length es + 1)))%nat by lia. done.
    + rewrite bool_decide_false by done. rewrite IH by done. by replace (ALR_RESOLV_MAXRES - length es)%nat with 0%nat by lia.
  - apply not_true_is_false in Hf. rewrite Hf, andb_false_r. by apply IH.
Qed.
Definition address_ok (a : address) : Prop := let '(fa, st, pr, _) := a in i32 fa ∧ i32 st ∧ i32 pr.
Lemma kept_entries l : Forall address_ok l → Forall ent_ok (entry <$> kept l) ∧
  ai_of <$> (entry <$> kept l) = (λ a : address, let '(fa, st, pr, addr) := a in mk_ai 0 fa st pr (Some addr) None) <$> kept l.
Proof.
  intros H. assert (Hk : Forall (λ a, address_ok a ∧ fitting a) (kept l)).
  { apply Forall_take, Forall_forall. intros a [Hf Ha]%list_elem_of_filter. split; [|done]. by apply (proj1 (Forall_forall _ _) H). }
  clear H. induction Hk as [|[[[fa st] pr] addr] r [(H1 & H2 & H3) Hf] _ [IH1 IH2]]; [by split|].
  unfold fitting in Hf. cbn [snd] in Hf. destruct (ent_of_ok fa st pr addr H1 H2 H3 Hf) as [Hok Haddr]. cbn [fmap list_fmap entry]. split; [by constructor|].
  cbn [fmap list_fmap] in IH2. f_equal; [|exact IH2]. unfold ai_of. by rewrite Haddr.
Qed.

Definition no_nul (o : option bytes) : Prop := nul ∉ default [] o.
Record hints_ok (h : option hints) : Prop := mk_hints_ok {
  ho_family : i32 (hint_of hi_family h); ho_socktype : i32 (hint_of hi_socktype h); ho_protocol : i32 (hint_of hi_protocol h);
}.
(** The hints as the thread sees them. *)
Definition forwarded (h : option hints) : hints :=
  mk_hints (Z.land (hint_of hi_flags h) (Z.lor AI_PASSIVE AI_NUMERICHOST)) (hint_of hi_family h) (hint_of hi_socktype h) (hint_of hi_protocol h).
Lemma map_eai_i32 rc : i32 (map_eai rc).
Proof. unfold map_eai, i32, GLIBC_EAI_NONAME, GLIBC_EAI_AGAIN, GLIBC_EAI_FAIL. repeat case_match; lia. Qed.
Lemma flags_small f : Z.land f (Z.lor AI_PASSIVE AI_NUMERICHOST) ∈ [0; 1; 4; 5].
Proof.
  change (Z.lor AI_PASSIVE AI_NUMERICHOST) with (Z.land (Z.ones 3) 5). rewrite Z.land_assoc, Z.land_ones by lia.
  pose proof (Z.mod_pos_bound f (2 ^ 3) ltac:(lia)) as Hf. generalize dependent (f mod 2 ^ 3). intros z Hz.
  assert (z = 0 ∨ z = 1 ∨ z = 2 ∨ z = 3 ∨ z = 4 ∨ z = 5 ∨ z = 6 ∨ z = 7) by lia. destruct_or?; subst; by apply (bool_decide_unpack _).
Qed.
Lemma kept_flags f : i32 (Z.land f (Z.lor AI_PASSIVE AI_NUMERICHOST)).
Proof. pose proof (flags_small f) as H. rewrite !elem_of_cons, elem_of_nil in H. destruct_or?; unfold i32; try done; lia. Qed.
Lemma flags_digit f : (length (to_string (Z.land f (Z.lor AI_PASSIVE AI_NUMERICHOST))) ≤ 1)%nat.
Proof.
  pose proof (flags_small f) as H. rewrite !elem_of_cons, elem_of_nil in H.
  destruct_or?; try done; match goal with E : _ = _ |- _ => rewrite E end; by apply (Nat.leb_le _ _).
Qed.
Lemma request_ok node service h : hints_ok h → Z.of_nat (length (default [] node)) ≤ ALR_RESOLV_MAXNAME →
  Z.of_nat (length (default [] service)) ≤ ALR_RESOLV_MAXSERV → req_ok (request node service h).
Proof.
  intros [H1 H2 H3] Hn Hs. unfold ALR_RESOLV_MAXNAME, ALR_RESOLV_MAXSERV in *.
  constructor; cbn [request q_magic q_family q_socktype q_protocol q_flags q_node_len q_serv_len q_has_node q_has_serv]; try done.
  - apply kept_flags.
  - unfold is_u32. lia.
  - unfold is_u32. lia.
  - unfold is_u32. case_bool_decide; lia.
  - unfold is_u32. case_bool_decide; lia.
Qed.

(** What the guest is given for an address. *)
Definition delivered (a : address) : addrinfo := let '(fa, st, pr, addr) := a in mk_ai 0 fa st pr (Some addr) None.

(** A reply of netd: every address comes with flags and a canonical name that are not used. *)
Record item := mk_item { it_flags : Z; it_addr : address; it_name : bytes }.
Definition be32 (z : Z) : bytes := be_bytes 4 z.
Definition enc_item (i : item) : bytes :=
  let '(fa, st, pr, addr) := it_addr i in
  be32 1 ++ be32 (it_flags i) ++ be32 fa ++ be32 st ++ be32 pr ++ be32 (Z.of_nat (length addr)) ++ addr ++
  be32 (Z.of_nat (length (it_name i))) ++ it_name i.
Definition reply_ok (is_ : list item) : bytes := str "222" ++ [nul] ++ concat (enc_item <$> is_) ++ be32 0.
Record item_ok (i : item) : Prop := mk_item_ok {
  io_flags : i32 (it_flags i); io_addr : address_ok (it_addr i); io_len : (length (it_addr i).2 ≤ 128)%nat;
  io_name : Z.of_nat (length (it_name i)) < 2 ^ 31;
}.
Lemma rd_be32_enc z s : i32 z → rd_be32 (be32 z ++ s) = Some (z, s).
Proof.
  intros Hz. unfold rd_be32, be32. assert (E : rd_take 4 (be_bytes 4 z ++ s) = Some (be_bytes 4 z, s)).
  { change 4 with (Z.of_nat 4) at 1. rewrite <- (be_bytes_length 4 z) at 1. apply rd_take_app. }
  erewrite rd_bind_eq by exact E. cbn [mret rd_ret]. unfold be_num, be_bytes. rewrite reverse_involutive, le_val_bytes.
  change (256 ^ Z.of_nat 4) with (2 ^ 32). by rewrite s32_u32.
Qed.
(** Reads one encoded big-endian word. *)
Ltac rd_word := erewrite rd_bind_eq by (apply rd_be32_enc; first [eassumption|unfold i32; lia]).
Lemma rd_answer_enc i s : item_ok i → rd_answer (enc_item i ++ s) = Some (Some (it_addr i), s).
Proof.
  destruct i as [fl [[[fa st] pr] addr] nm]. intros [Hf (Hfa & Hst & Hpr) Hl Hn]. cbn [it_flags it_addr it_name snd] in *.
  unfold enc_item, rd_answer. cbn [it_flags it_addr it_name]. rewrite <- !app_assoc.
  assert (i32 1) by (unfold i32; lia). assert (i32 (Z.of_nat (length addr))) by (unfold i32; lia).
  assert (i32 (Z.of_nat (length nm))) by (unfold i32; lia).
  rd_word. cbn beta. change (1 =? 0) with false. cbn match.
  do 5 (rd_word; cbn beta).
  rewrite (proj2 (Z.ltb_ge _ _)), (proj2 (Z.ltb_ge _ _)) by lia. cbn [orb].
  rewrite (rd_bind_eq _ _ _ _ _ (rd_take_app _ _)). cbn beta. rd_word.
  rewrite (proj2 (Z.ltb_ge _ _)) by lia. by rewrite (rd_bind_eq _ _ _ _ _ (rd_take_app _ _)).
Qed.
Lemma rd_answers_enc is_ fuel es s : Forall item_ok is_ → (length is_ < fuel)%nat →
  rd_answers fuel es (concat (enc_item <$> is_) ++ be32 0 ++ s) = Some (foldl add_ent es (it_addr <$> is_), s).
Proof.
  intros H. revert fuel es. induction H as [|i is_ Hi _ IH]; intros [|fuel] es Hf; cbn [length] in Hf; try lia.
  - cbn. assert (E : rd_answer (be32 0 ++ s) = Some (None, s)); [|by erewrite rd_bind_eq by exact E].
    unfold rd_answer. by rd_word.
  - cbn [fmap list_fmap concat rd_answers]. rewrite <- app_assoc. rewrite (rd_bind_eq _ _ _ _ _ (rd_answer_enc _ _ Hi)).
    cbn match. rewrite IH by lia. done.
Qed.

Lemma items_fuel is_ s : (length is_ < S (length (concat (enc_item <$> is_) ++ s)))%nat.
Proof.
  rewrite length_app. induction is_ as [|[fl [[[fa st] pr] addr] nm] is_ IH]; [simpl; lia|]. cbn [fmap list_fmap concat length].
  unfold enc_item at 1. cbn [it_addr]. rewrite !length_app. unfold be32. rewrite be_bytes_length. lia.
Qed.
(** The command to netd always fits its buffer. *)
Lemma to_string_int z : i32 z → (length (to_string z) ≤ 11)%nat.
Proof.
  unfold i32. intros Hz. unfold to_string, print_nat. destruct (z <? 0) eqn:E.
  - rewrite length_app. change (length (str "-")) with 1%nat. pose proof (digits_le 10 (S (Z.to_nat (Z.log2 (- z)))) (- z) [] ltac:(lia) ltac:(cbn; lia)).
    cbn [length] in *. lia.
  - pose proof (digits_le 10 (S (Z.to_nat (Z.log2 z))) z [] ltac:(lia) ltac:(cbn; lia)). cbn [length] in *. lia.
Qed.
Lemma command_fits n service h : hints_ok h → Z.of_nat (length n) ≤ ALR_RESOLV_MAXNAME → Z.of_nat (length (default [] service)) ≤ ALR_RESOLV_MAXSERV →
  Z.of_nat (length (proxy_cmd n service (forwarded h))) < CMD_SIZE.
Proof.
  intros [H1 H2 H3] Hn Hs. unfold proxy_cmd, CMD_SIZE, ALR_RESOLV_MAXNAME, ALR_RESOLV_MAXSERV in *. rewrite !length_app.
  cbn [forwarded hi_flags hi_family hi_socktype hi_protocol].
  assert (Hfl : (length (to_string (Z.land (hint_of hi_flags h) (Z.lor AI_PASSIVE AI_NUMERICHOST))) ≤ 1)%nat) by apply flags_digit.
  apply to_string_int in H1, H2, H3. change (length (str "getaddrinfo ")) with 12%nat. change (length (str " ")) with 1%nat. change (length (str " 0")) with 2%nat.
  assert (length (match service with Some ((_ :: _) as s) => s | _ => str "^" end) ≤ 64)%nat by (destruct service as [[|b s]|]; cbn in Hs |- *; lia).
  lia.
Qed.

Section bridge.
Context (netd : option (bytes → bytes)) (pton4 pton6 : bytes → option bytes).
Context (libc : option bytes → option bytes → hints → Z + list addrinfo).

(** What [serve_one] reads is the question of the guest. *)
Lemma served node service h : no_nul node → no_nul service → hints_ok h →
  Z.of_nat (length (default [] node)) ≤ ALR_RESOLV_MAXNAME → Z.of_nat (length (default [] service)) ≤ ALR_RESOLV_MAXSERV →
  serve_one netd pton4 pton6 libc (enc_req (request node service h) ++ default [] node ++ default [] service) =
    (let '(rc, es) := answer netd pton4 pton6 libc node service (forwarded h) in
     let rc := map_eai rc in
     let rc := if (rc =? 0) && bool_decide (es = []) then GLIBC_EAI_NONAME else rc in
     enc_rsp (mk_rsp ALR_RESOLV_MAGIC rc (Z.of_nat (length es))) ++ concat (enc_ent <$> es)).
Proof.
  intros Hn Hv Hh Hnl Hsl. unfold serve_one. rewrite rd_req_enc by by apply request_ok. unfold request.
  cbn [q_magic q_node_len q_serv_len q_has_node q_has_serv q_flags q_family q_socktype q_protocol]. rewrite Z.eqb_refl. cbn [negb].
  rewrite (proj2 (Z.ltb_ge _ _)), (proj2 (Z.ltb_ge _ _)) by lia. cbn [orb].
  rewrite (rd_bind_eq _ _ _ _ _ (rd_take_app _ _)). rewrite <- (app_nil_r (default [] service)) at 2.
  rewrite (rd_bind_eq _ _ _ _ _ (rd_take_app _ _)). cbn [mret rd_ret]. unfold no_nul in *.
  destruct node as [n|], service as [v|]; cbn in Hn, Hv |- *; rewrite ?(c_str_clean n), ?(c_str_clean v) by done; done.
Qed.

(** Where the addresses of a name come from: netd, or the C library of Android when the name
    needs no DNS or netd cannot be asked. *)
Definition libc_addresses (r : Z + list addrinfo) : Z + list address :=
  match r with
  | inl e => inl e
  | inr l => inr (omap (λ a, (λ addr, (ai_family a, ai_socktype a, ai_protocol a, addr)) <$> ai_addr a) l)
  end.
Definition asks_netd (node : option bytes) (h : hints) : bool :=
  match node with Some n => needs_dns pton4 pton6 n (hi_flags h) | None => false end.
Inductive resolves (node service : option bytes) (h : hints) : Z + list address → Prop :=
| by_netd n ask is_ : node = Some n → asks_netd node h = true → space ∉ n → space ∉ default [] service → netd = Some ask →
    (ask (proxy_cmd n service h ++ [nul])) = reply_ok is_ → Forall item_ok is_ → resolves node service h (inr (it_addr <$> is_))
| refused_by_netd n ask code e : node = Some n → asks_netd node h = true → space ∉ n → space ∉ default [] service → netd = Some ask →
    (ask (proxy_cmd n service h ++ [nul])) = code ++ le_bytes 4 e → length code = 4%nat → code_of code ≠ DNSPROXY_RESULT_OK →
    0 ≤ e < 2 ^ 31 → resolves node service h (inl (if e =? 0 then EAI_FAIL else e))
| unsendable n : node = Some n → asks_netd node h = true → space ∈ n → resolves node service h (inl EAI_NONAME)
| by_libc : asks_netd node h = false ∨ (netd = None ∧ (space ∉ default [] node) ∧ (space ∉ default [] service)) →
    resolves node service h (libc_addresses (libc node service h)).
Lemma add_libc l es : foldl add_ai es l = foldl add_ent es (omap (λ a, (λ addr, (ai_family a, ai_socktype a, ai_protocol a, addr)) <$> ai_addr a) l).
Proof.
  revert es. induction l as [|a l IH]; intros es; [done|]. cbn [foldl omap list_omap]. unfold add_ai at 2. destruct (ai_addr a) as [addr|]; cbn [fmap option_fmap option_map]; apply IH.
Qed.
Lemma answer_libc node service h : (∀ n, node = Some n → asks_netd node h = true → ∃ rc, rc < 0 ∧ proxy_getaddrinfo netd n service h = inl rc) →
  answer netd pton4 pton6 libc node service h =
    match libc_addresses (libc node service h) with inl rc => (rc, []) | inr l => (0, entry <$> kept l) end.
Proof.
  intros H. unfold answer. assert (E : ∃ rc, rc < 0 ∧ match node with
    | Some nd => if needs_dns pton4 pton6 nd (hi_flags h) then proxy_getaddrinfo netd nd service h else inl (-1)
    | None => inl (-1) end = inl rc).
  { destruct node as [n|]; [|by exists (-1)]. unfold asks_netd in H. destruct (needs_dns pton4 pton6 n (hi_flags h)); [by apply H|by exists (-1)]. }
  destruct E as (rc & Hrc & ->). rewrite (proj2 (Z.ltb_lt _ _)) by done. destruct (libc node service h) as [e|l]; cbn [libc_addresses]; [done|].
  rewrite add_libc, add_entries by (cbn; lia). cbn [length app]. by rewrite Nat.sub_0_r.
Qed.
(** What the thread finds for the question of a guest. *)
Lemma answer_resolves node service h r : hints_ok h →
  Z.of_nat (length (default [] node)) ≤ ALR_RESOLV_MAXNAME → Z.of_nat (length (default [] service)) ≤ ALR_RESOLV_MAXSERV →
  resolves node service (forwarded h) r →
  answer netd pton4 pton6 libc node service (forwarded h) = match r with inl rc => (rc, []) | inr l => (0, entry <$> kept l) end.
Proof.
  intros Hh Hnl Hsl [n ask is_ -> Hd Hs1 Hs2 Hn Ha Hok|n ask code e -> Hd Hs1 Hs2 Hn Ha Hc Hco He|n -> Hd Hs|Hd].
  - unfold answer. unfold asks_netd in Hd. rewrite Hd. unfold proxy_getaddrinfo. rewrite !(proj2 (has_byte_false _ _)) by done. rewrite Hn.
    rewrite (proj2 (Z.leb_gt _ _)) by by apply command_fits. rewrite Ha. unfold reply_ok. rewrite app_assoc.
    change (rd_take 4) with (rd_take (Z.of_nat (length (str "222" ++ [nul])))). rewrite rd_take_app.
    cbv iota beta. change (code_of (str "222" ++ [nul]) =? DNSPROXY_RESULT_OK) with true. cbn [negb].
    rewrite <- (app_nil_r (be32 0)). rewrite rd_answers_enc; [|done|apply items_fuel].
    rewrite add_entries by (cbn; lia). cbn [length app]. by rewrite Nat.sub_0_r.
  - unfold answer. unfold asks_netd in Hd. rewrite Hd. unfold proxy_getaddrinfo. rewrite !(proj2 (has_byte_false _ _)) by done. rewrite Hn.
    rewrite (proj2 (Z.leb_gt _ _)) by by apply command_fits. rewrite Ha.
    assert (E : rd_take 4 (code ++ le_bytes 4 e) = Some (code, le_bytes 4 e)) by (replace 4 with (Z.of_nat (length code)) by lia; apply rd_take_app).
    rewrite E. clear E.
    cbv iota beta. rewrite (proj2 (Z.eqb_neq _ _)) by done. cbn [negb]. rewrite <- (app_nil_r (le_bytes 4 e)).
    change (le_bytes 4 e) with (enc_wire (WI32 e)). rewrite rd_i32_enc by (cbn; lia).
    cbv iota beta. destruct (e =? 0) eqn:E; [done|]. by rewrite (proj2 (Z.ltb_ge _ _)) by lia.
  - unfold answer. unfold asks_netd in Hd. rewrite Hd. unfold proxy_getaddrinfo. by rewrite (proj2 (has_byte_true _ _)) by done.
  - rewrite answer_libc; [done|]. intros n -> Hq. destruct Hd as [Hd|(Hd & Hs1 & Hs2)]; [congruence|]. cbn in Hs1.
    unfold proxy_getaddrinfo. rewrite !(proj2 (has_byte_false _ _)) by done. rewrite Hd. by exists (-1).
Qed.

(** What the guest is told. *)
Definition told (r : Z + list address) : Z + list addrinfo :=
  match r with
  | inl rc => inl (if rc =? 0 then GLIBC_EAI_NONAME else map_eai rc)
  | inr l => match kept l with [] => inl GLIBC_EAI_NONAME | ks => inr (delivered <$> ks) end
  end.
Lemma map_eai_zero rc : map_eai rc = 0 ↔ rc = 0.
Proof. unfold map_eai. destruct (rc =? 0) eqn:E; [lia|]. split; [|lia]. repeat case_match; done. Qed.
Lemma kept_few l : (length (kept l) ≤ ALR_RESOLV_MAXRES)%nat.
Proof. unfold kept. rewrite length_take. lia. Qed.
Lemma ask_resolves node service h r : no_nul node → no_nul service → hints_ok h →
  Z.of_nat (length (default [] node)) ≤ ALR_RESOLV_MAXNAME → Z.of_nat (length (default [] service)) ≤ ALR_RESOLV_MAXSERV →
  resolves node service (forwarded h) r → match r with inr l => Forall address_ok l | inl _ => True end →
  ask_bridge (serve_one netd pton4 pton6 libc) node service h = Some (told r).
Proof.
  intros Hn Hv Hh Hnl Hsl Hr Hl. unfold ask_bridge. cbv zeta. rewrite served by done.
  cbn [request q_node_len q_serv_len]. rewrite (proj2 (Z.ltb_ge _ _)), (proj2 (Z.ltb_ge _ _)) by lia. cbn [orb].
  rewrite (answer_resolves _ _ _ _ Hh Hnl Hsl Hr). clear Hr. destruct r as [rc|l]; cbn [told].
  - rewrite (bool_decide_true ([] = [])), andb_true_r by done.
    assert (Hz : (if map_eai rc =? 0 then GLIBC_EAI_NONAME else map_eai rc) ≠ 0) by (destruct (map_eai rc =? 0) eqn:E; [done|lia]).
    rewrite rd_rsp_enc; [|constructor; [done|case_match; [done|apply map_eai_i32]|done]]. cbn [r_magic r_rc r_count]. rewrite Z.eqb_refl. cbn [negb].
    rewrite (proj2 (Z.eqb_neq _ _)) by done. cbn [negb orb]. do 2 f_equal. destruct (rc =? 0) eqn:E.
    + apply Z.eqb_eq in E. by subst.
    + rewrite (proj2 (Z.eqb_neq _ _)); [done|]. rewrite map_eai_zero. lia.
  - change (map_eai 0) with 0. destruct (kept_entries l Hl) as [Hok Hai]. pose proof (kept_few l) as Hk. unfold ALR_RESOLV_MAXRES in Hk.
    rewrite length_fmap. destruct (kept l) as [|k ks] eqn:E; [done|]. rewrite <- E in *. rewrite bool_decide_false by (by rewrite E). cbn [andb Z.eqb].
    assert (Hc : (0 < length (kept l))%nat) by (rewrite E; simpl; lia).
    rewrite rd_rsp_enc; [|constructor; [done|done|unfold is_u32; cbn [r_count]; lia]]. cbn [r_magic r_rc r_count]. rewrite Z.eqb_refl. cbn [negb Z.eqb orb].
    rewrite (proj2 (Z.eqb_neq _ _)), (proj2 (Z.ltb_ge _ _)) by (unfold ALR_RESOLV_MAXRES; lia).
    rewrite <- (app_nil_r (concat _)), <- (length_fmap entry), rd_ents_enc by done. rewrite ais_of_ents by done. cbn [fmap option_fmap option_map]. by rewrite Hai.
Qed.

End bridge.

(** Netd answers with three addresses, one too long for an entry. *)
Definition some_items : list item :=
  [mk_item 0 (2, 1, 6, replicate 16 "a"%byte) (str "name"); mk_item 0 (2, 1, 6, replicate 40 "b"%byte) []; mk_item 4 (10, 1, 6, replicate 28 "c"%byte) []].
Definition some_hints : option hints := Some (mk_hints AI_CANONNAME 0 SOCK_STREAM 0).
Definition some_netd (cmd : bytes) : bytes :=
  if bool_decide (cmd = str "getaddrinfo example.org ^ 0 0 1 0 0" ++ [nul]) then reply_ok some_items else str "401".
