(* ===== verification/Hostent.v ===== *)
(** * The hostent family of the preload library

    [gethostbyname] and its relatives of [preload/alr_preload.c], which lay the answer of
    [getaddrinfo] out in a buffer of the caller, the reverse lookups from the hosts file,
    and [getnameinfo].  [base] is the address of the buffer, the buffer its bytes; offsets in
    it become pointers of eight bytes.  [None] where the code would leave a buffer or an
    address.  A null buffer is one of size 0. *)

From S2P Require Import Prelude CppMap Bytes ExecPlan PreloadNss CliConfig CliTree CliEnv Wire ResolvBridge.

Local Open Scope Z_scope.

Record hostent := mk_he { h_name : Z; h_aliases : Z; h_addrtype : Z; h_length : Z; h_addr_list : Z }.
Definition PTR : nat := 8.
Definition HOST_NOT_FOUND : Z := 1.
Definition NO_RECOVERY : Z := 3.
Definition NO_ADDRESS : Z := 4.
Definition NETDB_INTERNAL : Z := -1.
Definition ERANGE : Z := 34.
Definition poke (mem : bytes) (off : nat) (t : bytes) : option bytes :=
  if decide (off + length t ≤ length mem)%nat then Some (take off mem ++ t ++ drop (off + length t) mem) else None.
Definition ptr (base : Z) (off : nat) : bytes := le_bytes PTR (base + Z.of_nat off).
Definition NULL : bytes := le_bytes PTR 0.
Definition alen_of (af : Z) : nat := if af =? AF_INET then 4 else 16.
(** [sin_addr] or [sin6_addr]. *)
Definition sin_addr (af : Z) (a : addrinfo) : option bytes :=
  sa ← ai_addr a;
  let o := if af =? AF_INET then 4%nat else 8%nat in
  if decide (o + alen_of af ≤ length sa)%nat then Some (take (alen_of af) (drop o sa)) else None.
Fixpoint put_addrs (base af : Z) (l : list addrinfo) (mem : bytes) (alist cur n : nat) : option (bytes * nat * nat) :=
  match l with
  | [] => Some (mem, cur, n)
  | a :: l =>
      if ai_family a =? af then
        src ← sin_addr af a; mem ← poke mem cur src; mem ← poke mem (alist + n * PTR) (ptr base cur);
        put_addrs base af l mem alist (cur + alen_of af) (S n)
      else put_addrs base af l mem alist cur n
  end.
Definition align (base : Z) : nat := let pad := Z.to_nat (base mod 8) in if decide (pad = 0%nat) then 0 else PTR - pad.

Section lookups.
(** The files and resolvers of [getaddrinfo]. *)
Context (hosts services : option bytes) (pton4 pton6 : bytes → option bytes) (byname : bytes → option bytes → option Z).
Context (real_gai : option (option bytes → option bytes → option hints → Z + list addrinfo)) (bridge : option (bytes → bytes)).

Definition he_fill (name : bytes) (af base : Z) (buf : bytes) : option (Z * Z + hostent * bytes) :=
  if negb ((af =? AF_INET) || (af =? AF_INET6)) then Some (inl (-1, NO_RECOVERY))
  else
    r ← getaddrinfo hosts services pton4 pton6 byname real_gai bridge (Some name) None (Some (mk_hints 0 af SOCK_STREAM 0));
    match r with
    | inl _ | inr [] => Some (inl (-1, HOST_NOT_FOUND))
    | inr res =>
        let n := length (filter (λ a, ai_family a = af) res) in
        if decide (n = 0%nat) then Some (inl (-1, NO_ADDRESS))
        else
          let need := ((n + 2) * PTR + n * alen_of af + S (length name) + PTR)%nat in
          let alist := align base in
          if decide (length buf < need + alist)%nat then Some (inl (ERANGE, NETDB_INTERNAL))
          else
            let aliases := (alist + (n + 1) * PTR)%nat in
            mem ← poke buf aliases NULL;
            '(mem, cur, n) ← put_addrs base af res mem alist (aliases + PTR) 0;
            mem ← poke mem (alist + n * PTR) NULL;
            mem ← poke mem cur (name ++ [nul]);
            Some (inr (mk_he (base + Z.of_nat cur) (base + Z.of_nat aliases) af (Z.of_nat (alen_of af)) (base + Z.of_nat alist), mem))
    end.
(** What the [_r] functions return: their value, [*result] with the buffer behind it, and
    [*h_errnop] if it is written. *)
Definition reentrant (o : Z * Z + hostent * bytes) : Z * option (hostent * bytes) * option Z :=
  match o with
  | inl (rc, herr) => if rc =? ERANGE then (ERANGE, None, Some NETDB_INTERNAL) else (0, None, Some herr)
  | inr r => (0, Some r, None)
  end.
(** What the others return, with [h_errno]. *)
Definition plain (o : Z * Z + hostent * bytes) : (hostent * bytes) + Z :=
  match o with
  | inl (_, herr) => inr (if herr =? 0 then HOST_NOT_FOUND else herr)
  | inr r => inl r
  end.
Definition gethostbyname2_r (name : bytes) (af base : Z) (buf : bytes) := reentrant <$> he_fill name af base buf.
Definition gethostbyname_r (name : bytes) := gethostbyname2_r name AF_INET.
(** [g_hebuf] *)
Definition HEBUF : nat := 2048.
Definition gethostbyname2 (name : bytes) (af base : Z) (g_hebuf : bytes) := plain <$> he_fill name af base g_hebuf.
Definition gethostbyname (name : bytes) := gethostbyname2 name AF_INET.

(** [inet_ntop] *)
Context (ntop : Z → bytes → option bytes).
Definition reverse_name (af : Z) (addr : bytes) : option (option bytes) :=
  match ntop af addr with
  | Some want => fmap (M:=option) (fmap (M:=option) (take 255)) (hosts_reverse hosts want)
  | None => Some None
  end.
Definition he_fill_addr (addr : bytes) (af base : Z) (buf : bytes) : option (Z * Z + hostent * bytes) :=
  if negb ((af =? AF_INET) || (af =? AF_INET6)) then Some (inl (-1, NO_RECOVERY))
  else
    found ← reverse_name af addr;
    match found with
    | None => Some (inl (-1, HOST_NOT_FOUND))
    | Some nm =>
        let alist := align base in
        if decide (length buf < alist + 3 * PTR + alen_of af + S (length nm))%nat then Some (inl (ERANGE, NETDB_INTERNAL))
        else
          let aliases := (alist + 2 * PTR)%nat in
          let cur := (aliases + PTR)%nat in
          mem ← poke buf aliases NULL; mem ← poke mem cur addr; mem ← poke mem alist (ptr base cur);
          mem ← poke mem (alist + PTR) NULL; mem ← poke mem (cur + alen_of af) (nm ++ [nul]);
          Some (inr (mk_he (base + Z.of_nat (cur + alen_of af)) (base + Z.of_nat aliases) af (Z.of_nat (alen_of af)) (base + Z.of_nat alist), mem))
    end.
Definition gethostbyaddr_r (addr : bytes) (af base : Z) (buf : bytes) :=
  if decide (length addr = alen_of af) then reentrant <$> he_fill_addr addr af base buf else Some (0, None, Some NO_RECOVERY).
Definition gethostbyaddr (addr : bytes) (af base : Z) (g_hebuf : bytes) :=
  if decide (length addr = alen_of af) then plain <$> he_fill_addr addr af base g_hebuf else Some (inr NO_RECOVERY).
Definition EAI_FAMILY : Z := -6.
Definition EAI_OVERFLOW : Z := -12.
Definition NI_NUMERICHOST : Z := 1.
Definition NI_NAMEREQD : Z := 8.
(** [getnameinfo]: the code, or what is written to the two buffers, whose sizes are given. *)
Definition getnameinfo (sa : option bytes) (hostlen servlen : nat) (flags : Z) : option (Z + option bytes * option bytes) :=
  match sa with
  | None => Some (inl EAI_FAMILY)
  | Some sa =>
      let af := field 0 2 sa in
      let at_ := if (af =? AF_INET) && bool_decide (16 ≤ length sa)%nat then Some 4%nat
                 else if (af =? AF_INET6) && bool_decide (28 ≤ length sa)%nat then Some 8%nat else None in
      match at_ with
      | None => Some (inl EAI_FAMILY)
      | Some o =>
          let ap := take (alen_of af) (drop o sa) in
          host ← (if decide (hostlen = 0%nat) then Some (inr None)
                  else
                    found ← (if Z.land flags NI_NUMERICHOST =? 0 then reverse_name af ap else Some None);
                    match found with
                    | Some nm => Some (inr (Some (take (hostlen - 1) nm)))
                    | None =>
                        if negb (Z.land flags NI_NAMEREQD =? 0) then Some (inl GLIBC_EAI_NONAME)
                        else match ntop af ap with
                             | Some t => if decide (length t < hostlen)%nat then Some (inr (Some t)) else Some (inl EAI_OVERFLOW)
                             | None => Some (inl EAI_OVERFLOW)
                             end
                    end);
          Some (match host with
                | inl rc => inl rc
                | inr h => inr (h, if decide (servlen = 0%nat) then None
                                   else Some (take (servlen - 1) (to_string (be_num (take 2 (drop 2 sa))))))
                end)
      end
  end.
End lookups.

(** * The layout of a hostent *)

(** A hostent as its caller reads it: the name, the family, the aliases and the addresses. *)
Definition peek (mem : bytes) (off n : nat) : option bytes :=
  if decide (off + n ≤ length mem)%nat then Some (take n (drop off mem)) else None.
Definition cstr_at (mem : bytes) (off : nat) : option bytes := k ← find_from nul (drop off mem); Some (take k (drop off mem)).
Definition off_of (base p : Z) : nat := Z.to_nat (p - base).
Fixpoint ptr_list (base : Z) (fuel : nat) (mem : bytes) (off : nat) : option (list nat) :=
  match fuel with
  | 0%nat => None
  | S fuel =>
      w ← peek mem off PTR;
      if le_val w =? 0 then Some [] else l ← ptr_list base fuel mem (off + PTR); Some (off_of base (le_val w) :: l)
  end.
Definition view (base : Z) (mem : bytes) (h : hostent) : option (bytes * Z * list bytes * list bytes) :=
  name ← cstr_at mem (off_of base (h_name h));
  als ← ptr_list base (S (length mem)) mem (off_of base (h_aliases h));
  aliases ← mapM (cstr_at mem) als;
  ads ← ptr_list base (S (length mem)) mem (off_of base (h_addr_list h));
  addrs ← mapM (λ o, peek mem o (Z.to_nat (h_length h))) ads;
  Some (name, h_addrtype h, aliases, addrs).

(** The pointers to texts that follow each other from an offset on, and those offsets. *)
Fixpoint ptrs (base : Z) (l : list bytes) (off : nat) : bytes :=
  match l with [] => [] | a :: l => ptr base off ++ ptrs base l (off + length a) end.
Fixpoint offs (l : list bytes) (off : nat) : list nat :=
  match l with [] => [] | a :: l => off :: offs l (off + length a) end.

Lemma poke_app pre old post t : length old = length t → poke (pre ++ old ++ post) (length pre) t = Some (pre ++ t ++ post).
Proof.
  intros H. unfold poke. rewrite decide_True by (rewrite !length_app; lia). rewrite take_app_length, <- H.
  by rewrite <- drop_drop, !drop_app_length.
Qed.
Lemma peek_app pre t post : peek (pre ++ t ++ post) (length pre) (length t) = Some t.
Proof. unfold peek. rewrite decide_True by (rewrite !length_app; lia). by rewrite drop_app_length, take_app_length. Qed.
Lemma poke_at pre old post t mem off mem' : mem = pre ++ old ++ post → off = length pre → length old = length t → mem' = pre ++ t ++ post →
  poke mem off t = Some mem'.
Proof. intros -> -> H ->. by apply poke_app. Qed.
Lemma ptr_length base off : length (ptr base off) = PTR.
Proof. apply le_bytes_length. Qed.
Lemma ptrs_length base l off : length (ptrs base l off) = (length l * PTR)%nat.
Proof. revert off. induction l as [|a l IH]; intros off; [done|]. cbn [ptrs length]. rewrite length_app, ptr_length, IH. lia. Qed.
Lemma concat_length n (l : list bytes) : Forall (λ a, length a = n) l → length (concat l) = (length l * n)%nat.
Proof. induction 1 as [|a l H _ IH]; [done|]. cbn [concat length]. rewrite length_app. lia. Qed.
Lemma sin_addr_length af a t : sin_addr af a = Some t → length t = alen_of af.
Proof.
  unfold sin_addr. destruct (ai_addr a) as [sa|]; [|done]. cbn. case_decide as H; [|done]. intros [= <-]. rewrite length_take, length_drop. lia.
Qed.
Lemma ptr_list_ptrs base l off fuel pre post : (length l < fuel)%nat → 0 < base → base + Z.of_nat (off + length (concat l)) < 2 ^ 64 →
  ptr_list base fuel (pre ++ ptrs base l off ++ NULL ++ post) (length pre) = Some (offs l off).
Proof.
  revert off fuel pre. induction l as [|a l IH]; intros off [|fuel] pre Hf Hb Ht; cbn [length] in Hf; try lia; cbn [ptr_list ptrs app offs].
  - change PTR with (length NULL) at 1. rewrite peek_app. done.
  - cbn [concat] in Ht. rewrite length_app in Ht. rewrite <- app_assoc. rewrite <- (ptr_length base off) at 1. rewrite peek_app. cbn [mbind option_bind].
    assert (E : le_val (ptr base off) = base + Z.of_nat off) by (unfold ptr, PTR; apply le_val8; lia).
    rewrite E, (proj2 (Z.eqb_neq _ _)) by lia. rewrite app_assoc, <- (ptr_length base off), <- length_app.
    rewrite IH by lia. cbn [mbind option_bind]. do 2 f_equal. unfold off_of. lia.
Qed.
Lemma peek_offs l pre post n : Forall (λ a, length a = n) l →
  mapM (λ o, peek (pre ++ concat l ++ post) o n) (offs l (length pre)) = Some l.
Proof.
  intros H. revert pre. induction H as [|a l Ha _ IH]; intros pre; [done|]. cbn [concat offs mapM]. rewrite <- app_assoc, <- Ha, peek_app, Ha.
  cbn [mbind option_bind]. rewrite app_assoc, <- Ha, <- length_app, Ha, IH. done.
Qed.
Lemma cstr_at_app pre t post : nul ∉ t → cstr_at (pre ++ t ++ nul :: post) (length pre) = Some t.
Proof.
  intros H. unfold cstr_at. rewrite drop_app_length, find_from_app_sep by done. cbn [mbind option_bind]. by rewrite take_app_length.
Qed.

(** The memory [he_fill] and [he_fill_addr] leave: the pointers, the two null pointers, the
    addresses and the name. *)
Lemma view_laid base pre l name post af : nul ∉ name → 0 < base → Forall (λ a, length a = alen_of af) l →
  let aliases := (length pre + (length l + 1) * PTR)%nat in
  let start := (aliases + PTR)%nat in
  let mem := pre ++ ptrs base l start ++ NULL ++ NULL ++ concat l ++ name ++ nul :: post in
  base + Z.of_nat (length mem) < 2 ^ 64 →
  view base mem (mk_he (base + Z.of_nat (start + length (concat l))) (base + Z.of_nat aliases) af (Z.of_nat (alen_of af))
                   (base + Z.of_nat (length pre))) = Some (name, af, [], l).
Proof.
  intros Hn Hb Hl aliases start mem Hm.
  assert (Hoff : ∀ n, off_of base (base + Z.of_nat n) = n) by (intros n; unfold off_of; lia).
  assert (Hlen : length mem = (start + length (concat l) + length name + S (length post))%nat).
  { subst mem start aliases. rewrite !length_app, ptrs_length. unfold NULL, PTR. rewrite !le_bytes_length. cbn [length]. lia. }
  assert (E1 : mem = (pre ++ ptrs base l start ++ NULL ++ NULL ++ concat l) ++ name ++ nul :: post) by (subst mem; by rewrite <- !app_assoc).
  assert (E2 : mem = (pre ++ ptrs base l start ++ NULL) ++ NULL ++ concat l ++ name ++ nul :: post) by (subst mem; by rewrite <- !app_assoc).
  assert (E3 : mem = (pre ++ ptrs base l start ++ NULL ++ NULL) ++ concat l ++ name ++ nul :: post) by (subst mem; by rewrite <- !app_assoc).
  assert (L1 : (start + length (concat l))%nat = length (pre ++ ptrs base l start ++ NULL ++ NULL ++ concat l)).
  { subst start aliases. rewrite !length_app, ptrs_length. unfold NULL, PTR. rewrite !le_bytes_length. lia. }
  assert (L2 : aliases = length (pre ++ ptrs base l start ++ NULL)).
  { subst aliases. rewrite !length_app, ptrs_length. unfold NULL, PTR. rewrite !le_bytes_length. lia. }
  assert (L3 : start = length (pre ++ ptrs base l start ++ NULL ++ NULL)).
  { subst start aliases. rewrite !length_app, ptrs_length. unfold NULL, PTR. rewrite !le_bytes_length. lia. }
  unfold view. cbn [h_name h_aliases h_addr_list h_addrtype h_length]. rewrite !Hoff.
  replace (cstr_at mem _) with (Some name) by (rewrite E1, L1; by rewrite cstr_at_app).
  replace (ptr_list _ _ mem aliases) with (Some (@nil nat)).
  2: { rewrite E2 at 2. rewrite L2. symmetry. apply (ptr_list_ptrs base [] 0 (S (length mem)) (pre ++ ptrs base l start ++ NULL)); cbn; lia. }
  replace (ptr_list _ _ mem (length pre)) with (Some (offs l start)).
  2: { symmetry. apply ptr_list_ptrs; [|done|lia]. rewrite Hlen. subst start aliases. unfold PTR. lia. }
  cbn [mbind option_bind mapM]. rewrite Nat2Z.id. pose proof (peek_offs l _ (name ++ nul :: post) (alen_of af) Hl : mapM _ (offs l (length (pre ++ ptrs base l start ++ NULL ++ NULL))) = _) as Hp.
  rewrite <- L3, <- E3 in Hp. cbn [mret option_ret mbind option_bind]. by rewrite Hp.
Qed.

Lemma put_addrs_spec base af l as_ : mapM (sin_addr af) (filter (λ a, ai_family a = af) l) = Some as_ →
  ∀ pre g1 mid g2 post n alist, (alist + n * PTR)%nat = length pre → length g1 = (length as_ * PTR)%nat → length g2 = length (concat as_) →
  put_addrs base af l (pre ++ g1 ++ mid ++ g2 ++ post) alist (length (pre ++ g1 ++ mid)) n =
    Some (pre ++ ptrs base as_ (length (pre ++ g1 ++ mid)) ++ mid ++ concat as_ ++ post,
          (length (pre ++ g1 ++ mid) + length (concat as_))%nat, (n + length as_)%nat).
Proof.
  revert as_. induction l as [|a l IH]; intros as_ Has pre g1 mid g2 post n alist Hp H1 H2; cbn [put_addrs].
  - cbn in Has. injection Has as <-. cbn in H1, H2. destruct g1, g2; try done. cbn. by rewrite !Nat.add_0_r.
  - rewrite filter_cons in Has. destruct (decide (ai_family a = af)) as [Hf|Hf].
    + rewrite (proj2 (Z.eqb_eq _ _)) by done. cbn [mapM] in Has. destruct (sin_addr af a) as [t|] eqn:Et; [|done].
      cbn [mbind option_bind] in Has |- *. destruct (mapM _ _) as [r|] eqn:Er; [|done]. injection Has as <-.
      cbn [length concat] in H1, H2. rewrite length_app in H2. pose proof (sin_addr_length _ _ _ Et) as Ht.
      rewrite <- (take_drop (length t) g2). assert (Hg2 : length (take (length t) g2) = length t) by (rewrite length_take; lia).
      rewrite <- (take_drop PTR g1). assert (Hg1 : length (take PTR g1) = PTR) by (rewrite length_take; lia).
      set (o := take (length t) g2) in *. set (g2' := drop (length t) g2) in *. set (o8 := take PTR g1) in *. set (g1' := drop PTR g1) in *.
      set (cur := length (pre ++ (o8 ++ g1') ++ mid)).
      rewrite (poke_at (pre ++ (o8 ++ g1') ++ mid) o (g2' ++ post) t _ cur ((pre ++ (o8 ++ g1') ++ mid) ++ t ++ g2' ++ post)) by (first [done|by rewrite <- !app_assoc]).
      cbn [mbind option_bind].
      rewrite (poke_at pre o8 (g1' ++ (mid ++ t) ++ g2' ++ post) (ptr base cur) _ _ (pre ++ ptr base cur ++ g1' ++ (mid ++ t) ++ g2' ++ post))
        by (first [done|by rewrite ptr_length|by rewrite <- !app_assoc]).
      cbn [mbind option_bind ptrs concat length].
      assert (Hc : (cur + length t)%nat = length ((pre ++ ptr base cur) ++ g1' ++ mid ++ t)).
      { subst cur. rewrite !length_app, ptr_length, Hg1. lia. }
      rewrite <- Ht. rewrite Hc, (app_assoc pre).
      rewrite (IH r eq_refl (pre ++ ptr base cur) g1' (mid ++ t) g2' post (S n) alist);
        [|rewrite length_app, ptr_length; lia|subst g1'; rewrite length_drop; lia|subst g2'; rewrite length_drop; lia].
      rewrite <- Hc, length_app, <- !app_assoc. by rewrite Nat.add_assoc, Nat.add_succ_r.
    + rewrite (proj2 (Z.eqb_neq _ _)) by done. by apply IH.
Qed.

Lemma cut_at (k : nat) (s : bytes) : (k ≤ length s)%nat → ∃ a b, s = a ++ b ∧ length a = k.
Proof. intros H. exists (take k s), (drop k s). by rewrite take_drop, length_take_le. Qed.
Lemma align_aligned base : 0 < base → (base + Z.of_nat (align base)) mod 8 = 0 ∧ (align base < 8)%nat.
Proof.
  intros H. unfold align. pose proof (Z.mod_pos_bound base 8 ltac:(lia)) as Hb. cbv zeta. case_decide as E; [split; [|lia]|].
  - rewrite Z.add_0_r. lia.
  - unfold PTR. split; [|lia]. replace (base + _) with ((base / 8 + 1) * 8); [by rewrite Z.mod_mul|]. pose proof (Z.div_mod base 8 ltac:(lia)). lia.
Qed.

Section hostent.
Context (hosts services : option bytes) (pton4 pton6 : bytes → option bytes) (byname : bytes → option bytes → option Z).
Context (real_gai : option (option bytes → option bytes → option hints → Z + list addrinfo)) (bridge : option (bytes → bytes)).

(** C30. The legacy lookup.  Given the addresses [getaddrinfo] finds for a name, the reentrant
    functions answer ERANGE exactly when the caller's buffer is smaller than the padding to
    a pointer boundary, the pointers, the addresses and the name, plus the spare word the
    code asks for.  Otherwise every write stays in the buffer, the pointers are
    aligned, and the caller reads back the name, the family, no alias, and the
    addresses of the family asked for, in their order. *)
Theorem hostent_in_buffer name af base buf res as_ :
  af = AF_INET ∨ af = AF_INET6 → nul ∉ name → 0 < base → base + Z.of_nat (length buf) < 2 ^ 64 →
  getaddrinfo hosts services pton4 pton6 byname real_gai bridge (Some name) None (Some (mk_hints 0 af SOCK_STREAM 0)) = Some (inr res) →
  mapM (sin_addr af) (filter (λ a, ai_family a = af) res) = Some as_ → as_ ≠ [] →
  let room := (align base + (length as_ + 3) * PTR + length as_ * alen_of af + S (length name))%nat in
  match gethostbyname2_r hosts services pton4 pton6 byname real_gai bridge name af base buf with
  | Some (rc, None, herr) => (length buf < room)%nat ∧ rc = ERANGE ∧ herr = Some NETDB_INTERNAL
  | Some (rc, Some (h, mem), herr) =>
      (room ≤ length buf)%nat ∧ rc = 0 ∧ herr = None ∧ length mem = length buf ∧
      h_addr_list h mod 8 = 0 ∧ h_aliases h mod 8 = 0 ∧ view base mem h = Some (name, af, [], as_)
  | None => False
  end.
Proof.
  intros Haf Hn Hb Ht Hg Has Hne room. unfold gethostbyname2_r, he_fill.
  replace ((af =? AF_INET) || (af =? AF_INET6)) with true by (destruct Haf; by subst). cbn [negb]. rewrite Hg. cbn [mbind option_bind].
  pose proof (length_mapM _ _ _ Has) as Hlen. assert (Hlas : (0 < length as_)%nat) by (destruct as_; simpl; [done|lia]).
  destruct res as [|a0 res0]; [by destruct as_|]. set (res := a0 :: res0) in *. cbv zeta. rewrite Hlen.
  assert (Hall : Forall (λ a, length a = alen_of af) as_).
  { apply mapM_Some_1 in Has. clear -Has. induction Has as [|x y l k H _ IH]; constructor; [by eapply sin_addr_length|done]. }
  pose proof (concat_length _ _ Hall) as Hcl.
  rewrite decide_False by lia. case_decide as Hroom; [cbn; split_and!; try done; subst room; lia|].
  assert (Hr : (room ≤ length buf)%nat) by (subst room; lia).
  destruct (cut_at (align base) buf) as (pre & b1 & Eb & Hpre); [lia|]. rewrite Eb, !length_app in Hroom.
  destruct (cut_at (length as_ * PTR) b1) as (g1 & b2 & E1 & Hg1); [lia|]. rewrite E1, !length_app in Hroom.
  destruct (cut_at PTR b2) as (o1 & b3 & E2 & Ho1); [lia|]. rewrite E2, !length_app in Hroom.
  destruct (cut_at PTR b3) as (o2 & b4 & E3 & Ho2); [lia|]. rewrite E3, !length_app in Hroom.
  destruct (cut_at (length (concat as_)) b4) as (g2 & b5 & E4 & Hg2); [lia|]. rewrite E4, !length_app in Hroom.
  destruct (cut_at (S (length name)) b5) as (nm & post & E5 & Hnm); [lia|].
  subst b1 b2 b3 b4 b5. assert (Hnull : length NULL = PTR) by apply le_bytes_length.
  set (start := (align base + (length as_ + 1) * PTR + PTR)%nat).
  assert (Hs : start = length (pre ++ g1 ++ o1 ++ NULL)) by (subst start; rewrite !length_app; lia).
  rewrite (poke_at (pre ++ g1 ++ o1) o2 (g2 ++ nm ++ post) NULL buf _ (pre ++ g1 ++ (o1 ++ NULL) ++ g2 ++ nm ++ post))
    by (first [by rewrite Eb, <- !app_assoc|by rewrite <- !app_assoc|rewrite ?length_app; lia]).
  cbn [mbind option_bind]. rewrite Hs, (put_addrs_spec base af res as_ Has pre g1 (o1 ++ NULL) g2) by lia. rewrite <- Hs.
  cbn [mbind option_bind]. rewrite Nat.add_0_l.
  rewrite (poke_at (pre ++ ptrs base as_ start) o1 (NULL ++ concat as_ ++ nm ++ post) NULL _ _ (pre ++ ptrs base as_ start ++ NULL ++ NULL ++ concat as_ ++ nm ++ post))
    by (first [by rewrite <- !app_assoc|rewrite ?length_app, ?ptrs_length; lia]).
  cbn [mbind option_bind].
  rewrite (poke_at (pre ++ ptrs base as_ start ++ NULL ++ NULL ++ concat as_) nm post (name ++ [nul]) _ _ (pre ++ ptrs base as_ start ++ NULL ++ NULL ++ concat as_ ++ name ++ nul :: post))
    by (first [by rewrite <- !app_assoc|rewrite ?length_app, ?ptrs_length; cbn [length]; lia]).
  cbn [mbind option_bind fmap option_fmap option_map reentrant h_addr_list h_aliases].
  assert (Hm : length (pre ++ ptrs base as_ start ++ NULL ++ NULL ++ concat as_ ++ name ++ nul :: post) = length buf).
  { rewrite Eb, !length_app, ptrs_length. cbn [length]. lia. }
  destruct (align_aligned base Hb) as [Hal _]. split_and!; try done.
  - unfold PTR. replace (base + _) with (base + Z.of_nat (align base) + Z.of_nat (length as_ + 1) * 8) by lia. by rewrite Z.mod_add.
  - pose proof (view_laid base pre as_ name post af Hn Hb Hall) as Hv. cbv zeta in Hv. rewrite Hpre in Hv. fold start in Hv.
    rewrite Hv; [done|]. by rewrite Hm.
Qed.
End hostent.

(** The side conditions of a write between known parts. *)
Ltac at_ := first [by rewrite <- ?app_assoc|rewrite ?length_app, ?ptr_length; cbn [length]; lia].
(** The reverse lookup lays its one address out the same way, without the spare word. *)
Lemma hostaddr_in_buffer hosts ntop addr af base buf nm :
  af = AF_INET ∨ af = AF_INET6 → length addr = alen_of af → nul ∉ nm → 0 < base → base + Z.of_nat (length buf) < 2 ^ 64 →
  reverse_name hosts ntop af addr = Some (Some nm) →
  let room := (align base + 3 * PTR + alen_of af + S (length nm))%nat in
  match gethostbyaddr_r hosts ntop addr af base buf with
  | Some (rc, None, herr) => (length buf < room)%nat ∧ rc = ERANGE ∧ herr = Some NETDB_INTERNAL
  | Some (rc, Some (h, mem), herr) =>
      (room ≤ length buf)%nat ∧ rc = 0 ∧ herr = None ∧ length mem = length buf ∧ view base mem h = Some (nm, af, [], [addr])
  | None => False
  end.
Proof.
  intros Haf Ha Hn Hb Ht Hr room. unfold gethostbyaddr_r, he_fill_addr. rewrite decide_True by done.
  replace ((af =? AF_INET) || (af =? AF_INET6)) with true by (destruct Haf; by subst). cbn [negb]. rewrite Hr. cbn [mbind option_bind]. cbv zeta.
  case_decide as Hroom; [cbn; split_and!; try done; subst room; lia|].
  assert (Hfit : (room ≤ length buf)%nat) by (subst room; lia).
  destruct (cut_at (align base) buf) as (pre & b1 & Eb & Hpre); [lia|]. rewrite Eb, !length_app in Hroom.
  destruct (cut_at PTR b1) as (o0 & b2 & E1 & Ho0); [lia|]. rewrite E1, !length_app in Hroom.
  destruct (cut_at PTR b2) as (o1 & b3 & E2 & Ho1); [lia|]. rewrite E2, !length_app in Hroom.
  destruct (cut_at PTR b3) as (o2 & b4 & E3 & Ho2); [lia|]. rewrite E3, !length_app in Hroom.
  destruct (cut_at (length addr) b4) as (g2 & b5 & E4 & Hg2); [lia|]. rewrite E4, !length_app in Hroom.
  destruct (cut_at (S (length nm)) b5) as (o5 & post & E5 & Ho5); [lia|].
  subst b1 b2 b3 b4 b5. assert (Hnull : length NULL = PTR) by apply le_bytes_length. clear Hroom.
  set (start := (align base + 2 * PTR + PTR)%nat).
  rewrite (poke_at (pre ++ o0 ++ o1) o2 (g2 ++ o5 ++ post) NULL buf _ (pre ++ o0 ++ o1 ++ NULL ++ g2 ++ o5 ++ post)) by (first [by rewrite Eb, <- !app_assoc|at_]).
  cbn [mbind option_bind].
  rewrite (poke_at (pre ++ o0 ++ o1 ++ NULL) g2 (o5 ++ post) addr _ _ (pre ++ o0 ++ o1 ++ NULL ++ addr ++ o5 ++ post)) by at_. cbn [mbind option_bind].
  rewrite (poke_at pre o0 (o1 ++ NULL ++ addr ++ o5 ++ post) (ptr base start) _ _ (pre ++ ptr base start ++ o1 ++ NULL ++ addr ++ o5 ++ post)) by at_. cbn [mbind option_bind].
  rewrite (poke_at (pre ++ ptr base start) o1 (NULL ++ addr ++ o5 ++ post) NULL _ _ (pre ++ ptr base start ++ NULL ++ NULL ++ addr ++ o5 ++ post)) by at_. cbn [mbind option_bind].
  rewrite (poke_at (pre ++ ptr base start ++ NULL ++ NULL ++ addr) o5 post (nm ++ [nul]) _ _ (pre ++ ptr base start ++ NULL ++ NULL ++ addr ++ nm ++ nul :: post)) by at_.
  cbn [mbind option_bind fmap option_fmap option_map reentrant].
  assert (Hm : length (pre ++ ptr base start ++ NULL ++ NULL ++ addr ++ nm ++ nul :: post) = length buf).
  { rewrite Eb, !length_app, ptr_length. cbn [length]. lia. }
  split_and!; try done. pose proof (view_laid base pre [addr] nm post af Hn Hb ltac:(by repeat constructor)) as Hv. cbv zeta in Hv.
  cbn [ptrs concat length] in Hv. rewrite !app_nil_r, Hpre, Ha in Hv. change (align base + (1 + 1) * PTR + PTR)%nat with start in Hv.
  apply Hv. by rewrite Hm.
Qed.

(** A buffer that starts three bytes past a boundary. *)
Definition some_ai (af : Z) (c : byte) : addrinfo := mk_ai 0 af 1 0 (Some (replicate 28 c)) None.
Definition some_gai (node service : option bytes) (h : option hints) : Z + list addrinfo :=
  inr [some_ai AF_INET "a"; some_ai AF_INET6 "b"; some_ai AF_INET "c"].
Definition some_byname2 : bytes → option (Z * option (hostent * bytes) * option Z) :=
  gethostbyname2_r None None (λ _, None) (λ _, None) (λ _ _, None) (Some some_gai) None (str "host") AF_INET 4099.
Lemma hostent_in_buffer_witness :
  some_byname2 (replicate 57 nul) = Some (ERANGE, None, Some NETDB_INTERNAL) ∧
  ∃ h mem, some_byname2 (replicate 58 nul) = Some (0, Some (h, mem), None) ∧
    view 4099 mem h = Some (str "host", AF_INET, [], [replicate 4 "a"%byte; replicate 4 "c"%byte]).
Proof.
  split; [by vm_compute|].
  pose proof (hostent_in_buffer None None (λ _, None) (λ _, None) (λ _ _, None) (Some some_gai) None (str "host") AF_INET 4099 (replicate 58 nul)
    [some_ai AF_INET "a"; some_ai AF_INET6 "b"; some_ai AF_INET "c"] [replicate 4 "a"%byte; replicate 4 "c"%byte] (or_introl eq_refl)
    ltac:(by apply (bool_decide_unpack _); vm_compute) eq_refl eq_refl ltac:(by vm_compute) ltac:(by vm_compute) ltac:(done)) as H.
  cbv zeta in H. fold (some_byname2 (replicate 58 nul)) in H. destruct (some_byname2 (replicate 58 nul)) as [[[rc [[h mem]|]] herr]|]; [|exfalso; vm_compute in H; lia|done].
  exists h, mem. destruct H as (_ & -> & -> & _ & _ & _ & Hv). done.
Defined.
