(* ===== verification/AppFilter.v ===== *)
(** * The filter of the app's interposer, and its scan for system calls

    From [alr_interpose/libalr_interpose.c]: the program the constructor installs in the
    kernel so that only its own trampoline may make a path system call untraced
    ([alr_install_pcgated_filter]), and the scan of the executable mappings for system
    call instructions ([alr_svcscan_report]).  The machine of the filter is the one the
    kernel documents: an accumulator, loads of 32-bit words of the call's data, forward
    jumps relative to the next instruction, and a verdict. *)

From S2P Require Import Prelude CppMap Bytes.

Local Open Scope Z_scope.

(** ** The filter *)

(** [struct seccomp_data]; the arguments of the call are not read. *)
Record seccomp_data := mk_data { d_nr : Z; d_arch : Z; d_ip : Z }.
(** [struct sock_filter] by the macros BPF_STMT and BPF_JUMP. *)
Inductive sock_filter :=
| BPF_LD (off : Z)
| BPF_JEQ (k : Z) (jt jf : nat)
| BPF_JGT (k : Z) (jt jf : nat)
| BPF_JGE (k : Z) (jt jf : nat)
| BPF_RET (k : Z).

Definition OFF_NR : Z := 0.
Definition OFF_ARCH : Z := 4.
Definition OFF_IP_LO : Z := 8.
Definition OFF_IP_HI : Z := 12.
Definition load (d : seccomp_data) (off : Z) : option Z :=
  if off =? OFF_NR then Some (d_nr d) else if off =? OFF_ARCH then Some (d_arch d)
  else if off =? OFF_IP_LO then Some (Z.land (d_ip d) 0xffffffff)
  else if off =? OFF_IP_HI then Some (Z.shiftr (d_ip d) 32) else None.
(** The verdict, and the number of instructions executed. *)
Fixpoint run (fuel : nat) (f : list sock_filter) (d : seccomp_data) (pc : nat) (a : Z) : option (Z * nat) :=
  match fuel with
  | 0%nat => None
  | S fuel =>
      let go pc a := r ← run fuel f d pc a; Some (fst r, S (snd r)) in
      i ← f !! pc;
      match i with
      | BPF_LD off => v ← load d off; go (S pc) v
      | BPF_JEQ k jt jf => go (S pc + (if (a =? k)%Z then jt else jf))%nat a
      | BPF_JGT k jt jf => go (S pc + (if (k <? a)%Z then jt else jf))%nat a
      | BPF_JGE k jt jf => go (S pc + (if (k <=? a)%Z then jt else jf))%nat a
      | BPF_RET k => Some (k, 1%nat)
      end
  end.

Definition AUDIT_ARCH_AARCH64 : Z := 0xC00000B7.
Definition SECCOMP_RET_ALLOW : Z := 0x7fff0000.
Definition SECCOMP_RET_TRACE : Z := 0x7ff00000.
Definition NR_mkdirat : Z := 34.
Definition NR_unlinkat : Z := 35.
Definition NR_faccessat : Z := 48.
Definition NR_openat : Z := 56.
Definition NR_readlinkat : Z := 78.
Definition NR_newfstatat : Z := 79.
Definition NR_statx : Z := 291.
Definition NR_openat2 : Z := 437.
Definition NR_faccessat2 : Z := 439.

(** The program of [alr_install_pcgated_filter]. *)
Definition pcgated_filter (tramp_lo tramp_hi : Z) : list sock_filter :=
  let lo_hi := Z.shiftr tramp_lo 32 in
  let lo_lo := Z.land tramp_lo 0xffffffff in
  let hi_hi := Z.shiftr tramp_hi 32 in
  let hi_lo := Z.land tramp_hi 0xffffffff in
  [ BPF_LD OFF_ARCH;
    BPF_JEQ AUDIT_ARCH_AARCH64 1 0;
    BPF_RET SECCOMP_RET_ALLOW;
    BPF_LD OFF_NR;
    BPF_JGT 79 7 0;
    BPF_JGT 77 0 1;
    BPF_JGE 78 10 20;
    BPF_JGT 56 19 0;
    BPF_JEQ NR_openat 8 0;
    BPF_JEQ NR_faccessat 7 0;
    BPF_JEQ NR_unlinkat 6 0;
    BPF_JEQ NR_mkdirat 5 15;
    BPF_JGT 291 1 0;
    BPF_JEQ NR_statx 3 13;
    BPF_JGT 439 12 0;
    BPF_JEQ NR_faccessat2 1 0;
    BPF_JEQ NR_openat2 0 10;
    BPF_LD OFF_IP_HI;
    BPF_JGT lo_hi 3 0;
    BPF_JEQ lo_hi 0 8;
    BPF_LD OFF_IP_LO;
    BPF_JGE lo_lo 0 6;
    BPF_LD OFF_IP_HI;
    BPF_JGT hi_hi 4 0;
    BPF_JEQ hi_hi 0 2;
    BPF_LD OFF_IP_LO;
    BPF_JGE hi_lo 1 0;
    BPF_RET SECCOMP_RET_ALLOW;
    BPF_RET SECCOMP_RET_TRACE ].
Definition verdict (lo hi : Z) (d : seccomp_data) : option (Z * nat) := run (length (pcgated_filter lo hi)) (pcgated_filter lo hi) d 0 0.

(** [alr_install_pcgated_filter]: the calls it makes, by the answers of the kernel to the
    filter for all threads and to the filter for one. *)
Inductive install_call := NoNewPrivs | SeccompTsync | SeccompFilter | PrctlFilter.
Definition alr_install_pcgated_filter (tsync_ok filter_ok : bool) : list install_call :=
  NoNewPrivs :: SeccompTsync :: (if tsync_ok then [] else SeccompFilter :: (if filter_ok then [] else [PrctlFilter])).

(** ** The scan for system calls *)

Definition ALR_SVC_BASE : Z := 0xD4000001.
Definition ALR_SVC_IMM_MASK : Z := 0xFFE0001F.
Definition ALR_MOV_GROUP_MASK : Z := 0x9F800000.
Definition ALR_MOV_GROUP_VAL : Z := 0x92800000.
Definition ALR_MOV_OPC_SHIFT : Z := 29.
Definition ALR_MOV_OPC_MASK : Z := 3.
Definition ALR_MOVZ_OPC : Z := 2.
Definition ALR_MOVK_OPC : Z := 3.
Definition ALR_MOV_RD_MASK : Z := 0x1F.
Definition alr_is_svc (w : Z) : bool := Z.land w ALR_SVC_IMM_MASK =? ALR_SVC_BASE.
Definition alr_is_x8_load (w : Z) : bool :=
  if negb (Z.land w ALR_MOV_GROUP_MASK =? ALR_MOV_GROUP_VAL) then false
  else
    let opc := Z.land (Z.shiftr w ALR_MOV_OPC_SHIFT) ALR_MOV_OPC_MASK in
    if negb (opc =? ALR_MOVZ_OPC) && negb (opc =? ALR_MOVK_OPC) then false else Z.land w ALR_MOV_RD_MASK =? 8.

(** [alr_put_str] and [alr_put_u64]: a text is cut where the buffer ends. *)
Definition alr_put_str (buflen : nat) (buf s : bytes) : bytes := buf ++ take (buflen - 1 - length buf) s.
Definition alr_put_u64 (buflen : nat) (buf : bytes) (v : Z) : bytes := alr_put_str buflen buf (to_string v).
(** [alr_parse_hex]: the number and the rest. *)
Definition hex_digit (c : byte) : option Z :=
  let v := byte_val c in
  if (48 <=? v) && (v <=? 57) then Some (v - 48)
  else if (97 <=? v) && (v <=? 102) then Some (v - 97 + 10)
  else if (65 <=? v) && (v <=? 70) then Some (v - 65 + 10) else None.
Fixpoint parse_hex_loop (v : Z) (s : bytes) : Z * bytes :=
  match s with
  | c :: r => match hex_digit c with Some d => parse_hex_loop (Z.lor (u64 (Z.shiftl v 4)) d) r | None => (v, s) end
  | [] => (v, [])
  end.
Definition alr_parse_hex (s : bytes) : Z * bytes := parse_hex_loop 0 s.

(** A line of the maps: the range of a readable and executable mapping.  A line of that file
    always has four permissions. *)
Definition maps_range (line : bytes) : option (Z * Z) :=
  let '(lo, p) := alr_parse_hex (c_str line) in
  if negb (bool_decide (head p = Some "-"%byte)) then None
  else
    let '(hi, p) := alr_parse_hex (drop 1 p) in
    let p := if bool_decide (head p = Some " "%byte) then drop 1 p else p in
    if bool_decide (head p = Some "r"%byte) && bool_decide (p !! 2%nat = Some "x"%byte) && (lo <? hi) then Some (lo, hi) else None.

Section scan.
(** The words of the process's memory. *)
Context (mem : Z → Z).

(** [alr_svcscan_region]: one word after the other, with the word before. *)
Fixpoint region_loop (n : nat) (base i : Z) (sites rewr : Z) : Z * Z :=
  match n with
  | 0%nat => (sites, rewr)
  | S n =>
      let w := mem (base + 4 * i) in
      if negb (alr_is_svc w) then region_loop n base (i + 1) sites rewr
      else region_loop n base (i + 1) (u64 (sites + 1))
             (if (0 <? i) && alr_is_x8_load (mem (base + 4 * (i - 1))) then u64 (rewr + 1) else rewr)
  end.
Definition alr_svcscan_region (lo hi sites rewr : Z) : Z * Z :=
  if hi <=? lo then (sites, rewr)
  else
    let lo := Z.land (u64 (lo + 3)) (Z.lxor (Z.ones 64) 3) in
    if hi <=? lo then (sites, rewr) else region_loop (Z.to_nat ((hi - lo) / 4)) lo 0 sites rewr.

Record tally := mk_tally { t_sites : Z; t_rewr : Z; t_regions : Z; t_bytes : Z }.
(** What is scanned for a line. *)
Definition maps_line (t : tally) (line : bytes) : tally :=
  match maps_range line with
  | Some (lo, hi) =>
      let '(s, r) := alr_svcscan_region lo hi (t_sites t) (t_rewr t) in
      mk_tally s r (u64 (t_regions t + 1)) (u64 (t_bytes t + (hi - lo)))
  | None => t
  end.
Definition LINE : nat := 256.
(** The loop over what is read, byte by byte; a line that does not end is not counted. *)
Fixpoint maps_loop (t : tally) (line s : bytes) : tally :=
  match s with
  | [] => t
  | c :: s =>
      if bool_decide (c = newline) then maps_loop (maps_line t line) [] s
      else maps_loop t (if decide (length line + 1 < LINE)%nat then line ++ [c] else line) s
  end.
(** [alr_svcscan_report] on the text of [/proc/self/maps], if it can be opened: the text in
    the buffer, before its NUL. *)
Definition alr_svcscan_report (maps : option bytes) (buflen : nat) : option bytes :=
  if decide (buflen = 0%nat) then None
  else
    let put := alr_put_str buflen in
    let num := alr_put_u64 buflen in
    match maps with
    | None => Some (put [] (str "ALR-SVCSCAN svc_sites=0 rewritable=0/0 exec_regions=0 scanned_kb=0 err=maps_open"))
    | Some s =>
        let t := maps_loop (mk_tally 0 0 0 0) [] s in
        Some (num (put (num (put (num (put (num (put (num (put [] (str "ALR-SVCSCAN svc_sites=")) (t_sites t))
          (str " rewritable=")) (t_rewr t)) (str "/")) (t_sites t)) (str " exec_regions=")) (t_regions t)) (str " scanned_kb=")) (t_bytes t / 1024))
    end.
End scan.
(** [alr_emit_svcscan_if_gated]: what is written to standard error. *)
Definition alr_emit_svcscan_if_gated (mem : Z → Z) (getenv : option bytes) (maps : option bytes) : bytes :=
  match getenv with
  | None | Some [] => []
  | Some (c :: _) =>
      if bool_decide (c = "0"%byte) then []
      else
        let report := default [] (alr_svcscan_report mem maps LINE) in
        if decide (0 < length report)%nat then (if decide (length report < LINE)%nat then report ++ [newline] else report) else []
  end.

(** ** The filter decides what its contract says *)

Definition path_syscalls : list Z :=
  [NR_mkdirat; NR_unlinkat; NR_faccessat; NR_openat; NR_readlinkat; NR_newfstatat; NR_statx; NR_openat2; NR_faccessat2].
Record data_ok (d : seccomp_data) : Prop := mk_data_ok { do_nr : 0 ≤ d_nr d < 2 ^ 32; do_arch : 0 ≤ d_arch d < 2 ^ 32; do_ip : 0 ≤ d_ip d < 2 ^ 64 }.

(** A 64-bit number by its two words. *)
Lemma words_of z : 0 ≤ z < 2 ^ 64 → ∃ h l, z = 2 ^ 32 * h + l ∧ 0 ≤ l < 2 ^ 32 ∧ Z.shiftr z 32 = h ∧ Z.land z 0xffffffff = l.
Proof.
  intros Hz. exists (z / 2 ^ 32), (z mod 2 ^ 32). change 0xffffffff with (Z.ones 32). rewrite Z.shiftr_div_pow2, Z.land_ones by lia.
  pose proof (Z.div_mod z (2 ^ 32) ltac:(lia)). pose proof (Z.mod_pos_bound z (2 ^ 32) ltac:(lia)). done.
Qed.
(** The program ends within so many instructions with a verdict. *)
Inductive ends (f : list sock_filter) (d : seccomp_data) (v : Z) : nat → nat → Z → Prop :=
| E_ret n pc a : f !! pc = Some (BPF_RET v) → ends f d v (S n) pc a
| E_ld n pc a off x : f !! pc = Some (BPF_LD off) → load d off = Some x → ends f d v n (S pc) x → ends f d v (S n) pc a
| E_jeq n pc a k jt jf : f !! pc = Some (BPF_JEQ k jt jf) → ends f d v n (S pc + (if (a =? k)%Z then jt else jf)) a → ends f d v (S n) pc a
| E_jgt n pc a k jt jf : f !! pc = Some (BPF_JGT k jt jf) → ends f d v n (S pc + (if (k <? a)%Z then jt else jf)) a → ends f d v (S n) pc a
| E_jge n pc a k jt jf : f !! pc = Some (BPF_JGE k jt jf) → ends f d v n (S pc + (if (k <=? a)%Z then jt else jf)) a → ends f d v (S n) pc a.
Lemma ends_run f d v n pc a fuel : ends f d v n pc a → (n ≤ fuel)%nat → ∃ m, run fuel f d pc a = Some (v, m) ∧ (m ≤ n)%nat.
Proof.
  intros H. revert fuel. induction H as [n pc a E|n pc a off x E El _ IH|n pc a k jt jf E _ IH|n pc a k jt jf E _ IH|n pc a k jt jf E _ IH];
    intros [|fuel] Hf; try lia; cbn [run]; rewrite E; cbn [mbind option_bind].
  - exists 1%nat. split; [done|lia].
  - rewrite El. cbn [mbind option_bind]. destruct (IH fuel ltac:(lia)) as (m & -> & Hm). exists (S m). split; [done|lia].
  - destruct (IH fuel ltac:(lia)) as (m & -> & Hm). exists (S m). split; [done|lia].
  - destruct (IH fuel ltac:(lia)) as (m & -> & Hm). exists (S m). split; [done|lia].
  - destruct (IH fuel ltac:(lia)) as (m & -> & Hm). exists (S m). split; [done|lia].
Qed.
(** Executes the instruction at a known place; a comparison that the context does not decide
    splits the proof. *)
Ltac jump :=
  cbv [NR_mkdirat NR_unlinkat NR_faccessat NR_openat NR_statx NR_faccessat2 NR_openat2];
  match goal with |- context [if ?b then _ else _] => first [replace b with true by lia|replace b with false by lia|destruct b eqn:?] end; cbn [Nat.add].
Ltac exec :=
  first [eapply E_ret; reflexivity|eapply E_ld; [reflexivity|eassumption|]
        |eapply E_jeq; [reflexivity|jump]|eapply E_jgt; [reflexivity|jump]|eapply E_jge; [reflexivity|jump]].
Definition decision (lo hi : Z) (d : seccomp_data) : Z :=
  if bool_decide (d_arch d = AUDIT_ARCH_AARCH64) && bool_decide (d_nr d ∈ path_syscalls) && negb ((lo <=? d_ip d) && (d_ip d <? hi))
  then SECCOMP_RET_TRACE else SECCOMP_RET_ALLOW.
(** The program counter is tested from instruction 17 on. *)
Lemma gate_ends lo hi d a : 0 ≤ lo < 2 ^ 64 → 0 ≤ hi < 2 ^ 64 → data_ok d →
  ends (pcgated_filter lo hi) d (if (lo <=? d_ip d) && (d_ip d <? hi) then SECCOMP_RET_ALLOW else SECCOMP_RET_TRACE) 11 17 a.
Proof.
  intros Hlo Hhi [_ _ Hip]. unfold pcgated_filter.
  destruct (words_of lo Hlo) as (lh & ll & El & Hll & -> & ->). destruct (words_of hi Hhi) as (hh & hl & Eh & Hhl & -> & ->).
  destruct (words_of (d_ip d) Hip) as (ih & il & Ei & Hil & Esh & Eland).
  assert (Hh : load d OFF_IP_HI = Some ih) by (unfold load; cbn; by rewrite Esh).
  assert (Hl : load d OFF_IP_LO = Some il) by (unfold load; cbn; by rewrite Eland).
  destruct ((lo <=? d_ip d) && (d_ip d <? hi)) eqn:E.
  - apply andb_prop in E as [E1 E2]. apply Z.leb_le in E1. apply Z.ltb_lt in E2.
    do 11 (try exec); try lia.
  - apply andb_false_iff in E. rewrite Z.leb_gt, Z.ltb_ge in E.
    do 11 (try exec); try lia.
Qed.
Lemma ends_more f d v n m pc a : ends f d v n pc a → (n ≤ m)%nat → ends f d v m pc a.
Proof.
  intros H. revert m. induction H; intros [|m] Hm; try lia; [by eapply E_ret|eapply E_ld|eapply E_jeq|eapply E_jgt|eapply E_jge]; eauto with lia.
Qed.
Lemma path_syscalls_eq nr : nr ∈ path_syscalls ↔ nr = 34 ∨ nr = 35 ∨ nr = 48 ∨ nr = 56 ∨ nr = 78 ∨ nr = 79 ∨ nr = 291 ∨ nr = 437 ∨ nr = 439.
Proof. unfold path_syscalls. rewrite !elem_of_cons, elem_of_nil. unfold NR_mkdirat, NR_unlinkat, NR_faccessat, NR_openat, NR_readlinkat, NR_newfstatat, NR_statx, NR_openat2, NR_faccessat2. tauto. Qed.
(** The number of the call decides whether the program counter is tested. *)
Lemma filter_ends lo hi d : 0 ≤ lo < 2 ^ 64 → 0 ≤ hi < 2 ^ 64 → data_ok d →
  ends (pcgated_filter lo hi) d (decision lo hi d)
    (if bool_decide (d_arch d = AUDIT_ARCH_AARCH64) then if bool_decide (d_nr d ∈ path_syscalls) then 21 else 11 else 3) 0 0.
Proof.
  intros Hlo Hhi Hd. unfold decision.
  assert (Harch : load d OFF_ARCH = Some (d_arch d)) by done. assert (Hnr : load d OFF_NR = Some (d_nr d)) by done.
  pose proof (gate_ends lo hi d (d_nr d) Hlo Hhi Hd) as Hgate.
  case_bool_decide as Ha; cbn [andb].
  2: { exec. eapply E_jeq; [reflexivity|]. rewrite (proj2 (Z.eqb_neq _ _)) by done. cbn [Nat.add]. exec. }
  case_bool_decide as Hp; cbn [andb]; rewrite path_syscalls_eq in Hp; exec; (eapply E_jeq; [reflexivity|]); rewrite Ha, Z.eqb_refl; cbn [Nat.add].
  - assert (Hg : ∀ m, (11 ≤ m)%nat → ends (pcgated_filter lo hi) d (if negb ((lo <=? d_ip d) && (d_ip d <? hi)) then SECCOMP_RET_TRACE else SECCOMP_RET_ALLOW) m 17 (d_nr d)).
    { intros m Hm. eapply ends_more; [|exact Hm]. destruct ((lo <=? d_ip d) && (d_ip d <? hi)); exact Hgate. }
    clear Hgate. unfold NR_openat, NR_faccessat, NR_unlinkat, NR_mkdirat, NR_statx, NR_faccessat2, NR_openat2 in *.
    generalize dependent (if negb ((lo <=? d_ip d) && (d_ip d <? hi)) then SECCOMP_RET_TRACE else SECCOMP_RET_ALLOW). intros v Hg.
    destruct Hp as [E|[E|[E|[E|[E|[E|[E|[E|E]]]]]]]]; rewrite E in *; do 12 (try first [apply Hg; lia|exec]).
  - clear Hgate. do 12 (try exec); try lia.
Qed.

(** C34. The filter the constructor installs decides what its contract says, for every call the
    kernel can ask about: it always ends with a verdict, which is to trace exactly the nine
    path system calls of this architecture that are not made from the trampoline; every other call is allowed, and a call that is not one of the nine
    after at most eleven instructions. *)
Theorem filter_exact lo hi d : 0 ≤ lo < 2 ^ 64 → 0 ≤ hi < 2 ^ 64 → data_ok d →
  ∃ n, verdict lo hi d = Some (decision lo hi d, n) ∧ (n ≤ 21)%nat ∧ (d_nr d ∉ path_syscalls → (n ≤ 11)%nat) ∧
    (decision lo hi d = SECCOMP_RET_TRACE ↔ d_arch d = AUDIT_ARCH_AARCH64 ∧ d_nr d ∈ path_syscalls ∧ ¬ (lo ≤ d_ip d < hi)).
Proof.
  intros Hlo Hhi Hd. destruct (ends_run _ _ _ _ _ _ (length (pcgated_filter lo hi)) (filter_ends lo hi d Hlo Hhi Hd)) as (n & Hn & Hm).
  { case_bool_decide; [case_bool_decide|]; apply (Nat.leb_le _ _); reflexivity. }
  exists n. split; [exact Hn|]. clear Hn.
  split; [case_bool_decide; [case_bool_decide|]; lia|]. split; [intros Hp; rewrite (bool_decide_false _ Hp) in Hm; case_bool_decide; lia|].
  unfold decision. repeat case_bool_decide; cbn [andb]; [|naive_solver..].
  split.
  - intros E. split_and!; [done|done|]. intros Hip. by rewrite (proj2 (Z.leb_le _ _)), (proj2 (Z.ltb_lt _ _)) in E by lia.
  - intros (_ & _ & Hip). destruct (lo <=? d_ip d) eqn:E1, (d_ip d <? hi) eqn:E2; cbn [negb andb]; try done. lia.
Qed.

(** * The scan counts what is there *)

Definition word (w : Z) : Prop := 0 ≤ w < 2 ^ 32.
(** Bits [k] to [k+n-1] of a number. *)
Lemma land_bits w n k : 0 ≤ n → 0 ≤ k → Z.land w (Z.shiftl (Z.ones n) k) = (w / 2 ^ k) mod 2 ^ n * 2 ^ k.
Proof.
  intros Hn Hk. rewrite <- Z.land_ones, <- Z.shiftr_div_pow2, <- Z.shiftl_mul_pow2 by done. apply Z.bits_inj'. intros i Hi.
  rewrite Z.land_spec, !Z.shiftl_spec, Z.land_spec by done. destruct (decide (i < k)) as [H|H].
  - rewrite !(Z.testbit_neg_r _ (i - k)) by lia. by rewrite !andb_false_r.
  - rewrite Z.shiftr_spec by lia. by replace (i - k + k) with i by lia.
Qed.
Lemma land_two w n1 k1 n2 k2 : 0 ≤ n1 → 0 ≤ k1 → 0 ≤ n2 → k1 + n1 ≤ k2 →
  Z.land w (Z.lor (Z.shiftl (Z.ones n1) k1) (Z.shiftl (Z.ones n2) k2)) = (w / 2 ^ k1) mod 2 ^ n1 * 2 ^ k1 + (w / 2 ^ k2) mod 2 ^ n2 * 2 ^ k2.
Proof.
  intros H1 H2 H3 H4. rewrite Z.land_lor_distr_r, <- Z.add_nocarry_lor; [by rewrite !land_bits by lia|].
  apply Z.bits_inj'. intros i Hi. rewrite !Z.land_spec, Z.bits_0, !Z.shiftl_spec by done.
  destruct (decide (i < k2)); [by rewrite (Z.testbit_neg_r _ (i - k2)), !andb_false_r by lia|].
  by rewrite (Z.ones_spec_high n1), andb_false_r by lia.
Qed.
(** [svc #imm] of the architecture. *)
Lemma is_svc_exact w : word w → alr_is_svc w = true ↔ ∃ imm, 0 ≤ imm < 2 ^ 16 ∧ w = 0xD4000001 + imm * 2 ^ 5.
Proof.
  intros Hw. unfold alr_is_svc, word in *. change ALR_SVC_IMM_MASK with (Z.lor (Z.shiftl (Z.ones 5) 0) (Z.shiftl (Z.ones 11) 21)).
  rewrite land_two, Z.eqb_eq by lia. unfold ALR_SVC_BASE. rewrite Z.pow_0_r, Z.div_1_r, Z.mul_1_r.
  pose proof (Z.mod_pos_bound w (2 ^ 5) ltac:(lia)). pose proof (Z.mod_pos_bound (w / 2 ^ 21) (2 ^ 11) ltac:(lia)).
  split.
  - intros E. exists (w / 2 ^ 5 mod 2 ^ 16). split; [apply Z.mod_pos_bound; lia|].
    pose proof (Z.div_mod w (2 ^ 5) ltac:(lia)). pose proof (Z.div_mod (w / 2 ^ 5) (2 ^ 16) ltac:(lia)) as Hd.
    rewrite Z.div_div in Hd by lia. change (2 ^ 5 * 2 ^ 16) with (2 ^ 21) in Hd.
    rewrite (Z.mod_small (w / 2 ^ 21)) in E; [lia|]. split; [apply Z.div_pos; lia|apply Z.div_lt_upper_bound; lia].
  - intros (imm & Hi & ->). rewrite <- (Z.mod_unique (0xD4000001 + imm * 2 ^ 5) (2 ^ 5) (111149056 + imm) 1) by lia.
    rewrite <- (Z.div_unique (0xD4000001 + imm * 2 ^ 5) (2 ^ 21) 1696 (imm * 2 ^ 5 + 1)) by lia. done.
Qed.
(** [movz x8, #imm, lsl #(16 * hw)] and [movk] of the architecture. *)
Lemma is_x8_exact w : word w → alr_is_x8_load w = true ↔
  ∃ opc hw imm, (opc = 2 ∨ opc = 3) ∧ 0 ≤ hw < 4 ∧ 0 ≤ imm < 2 ^ 16 ∧ w = 2 ^ 31 + (opc - 2) * 2 ^ 29 + 2 ^ 30 + 37 * 2 ^ 23 + hw * 2 ^ 21 + imm * 2 ^ 5 + 8.
Proof.
  intros Hw. unfold alr_is_x8_load, word in *.
  change ALR_MOV_GROUP_MASK with (Z.lor (Z.shiftl (Z.ones 6) 23) (Z.shiftl (Z.ones 1) 31)).
  change ALR_MOV_OPC_MASK with (Z.ones 2). change ALR_MOV_RD_MASK with (Z.ones 5).
  rewrite land_two, !Z.land_ones, Z.shiftr_div_pow2 by (unfold ALR_MOV_OPC_SHIFT; lia). unfold ALR_MOV_GROUP_VAL, ALR_MOV_OPC_SHIFT, ALR_MOVZ_OPC, ALR_MOVK_OPC.
  pose proof (Z.div_mod w (2 ^ 5) ltac:(lia)) as D1. pose proof (Z.div_mod (w / 2 ^ 5) (2 ^ 16) ltac:(lia)) as D2.
  pose proof (Z.div_mod (w / 2 ^ 21) (2 ^ 2) ltac:(lia)) as D3. pose proof (Z.div_mod (w / 2 ^ 23) (2 ^ 6) ltac:(lia)) as D4.
  pose proof (Z.div_mod (w / 2 ^ 29) (2 ^ 2) ltac:(lia)) as D5.
  rewrite Z.div_div in D2, D3, D4, D5 by lia. rewrite <- !Z.pow_add_r in D2, D3, D4, D5 by lia. change (5 + 16) with 21 in D2. change (21 + 2) with 23 in D3. change (23 + 6) with 29 in D4. change (29 + 2) with 31 in D5.
  assert (H31 : 0 ≤ w / 2 ^ 31 < 2) by (split; [apply Z.div_pos; lia|apply Z.div_lt_upper_bound; lia]). rewrite (Z.mod_small (w / 2 ^ 31)) by lia.
  pose proof (Z.mod_pos_bound w (2 ^ 5) ltac:(lia)). pose proof (Z.mod_pos_bound (w / 2 ^ 5) (2 ^ 16) ltac:(lia)).
  pose proof (Z.mod_pos_bound (w / 2 ^ 21) (2 ^ 2) ltac:(lia)). pose proof (Z.mod_pos_bound (w / 2 ^ 23) (2 ^ 6) ltac:(lia)).
  pose proof (Z.mod_pos_bound (w / 2 ^ 29) (2 ^ 2) ltac:(lia)).
  split.
  - destruct (_ =? 0x92800000) eqn:E1; cbn [negb]; [|done]. apply Z.eqb_eq in E1.
    destruct (w / 2 ^ 29 mod 2 ^ 2 =? 2) eqn:E2, (w / 2 ^ 29 mod 2 ^ 2 =? 3) eqn:E3; cbn [negb andb]; try done; intros E4; apply Z.eqb_eq in E4;
      exists (w / 2 ^ 29 mod 2 ^ 2), (w / 2 ^ 21 mod 2 ^ 2), (w / 2 ^ 5 mod 2 ^ 16); lia.
  - intros (opc & hw & imm & Ho & Hh & Hi & E).
    assert (w mod 2 ^ 5 = 8) as -> by lia.
    assert (w / 2 ^ 23 mod 2 ^ 6 = 37 ∧ w / 2 ^ 31 = 1 ∧ w / 2 ^ 29 mod 2 ^ 2 = opc) as (-> & -> & ->) by lia.
    destruct Ho as [-> | ->]; done.
Qed.

(** The words of a range, by their index: those that are system calls, and those of them
    whose predecessor in the range loads the number. *)
Definition range_base (lo : Z) : Z := Z.land (u64 (lo + 3)) (Z.lxor (Z.ones 64) 3).
Definition range_words (lo hi : Z) : Z := if hi <=? range_base lo then 0 else (hi - range_base lo) / 4.
Section counts.
Context (mem : Z → Z).
Definition svc_at (lo i : Z) : bool := alr_is_svc (mem (range_base lo + 4 * i)).
Definition x8_at (lo i : Z) : bool := alr_is_x8_load (mem (range_base lo + 4 * i)).
Definition svcs (lo : Z) (l : list Z) : Z := Z.of_nat (length (filter (λ i, svc_at lo i = true) l)).
Definition loaded (lo : Z) (l : list Z) : Z := Z.of_nat (length (filter (λ i, svc_at lo i = true ∧ 0 < i ∧ x8_at lo (i - 1) = true) l)).
Definition count_svcs (r : Z * Z) : Z := svcs (fst r) (seqZ 0 (range_words (fst r) (snd r))).
Definition count_loaded (r : Z * Z) : Z := loaded (fst r) (seqZ 0 (range_words (fst r) (snd r))).
Definition total (f : Z * Z → Z) (rs : list (Z * Z)) : Z := foldr (λ r n, f r + n) 0 rs.

Lemma u64_add a b : u64 (u64 a + b) = u64 (a + b).
Proof. unfold u64. by rewrite Z.add_mod_idemp_l. Qed.
Lemma loop_counts lo n i s r :
  region_loop mem n (range_base lo) i (u64 s) (u64 r) =
    (u64 (s + svcs lo (seqZ i (Z.of_nat n))), u64 (r + loaded lo (seqZ i (Z.of_nat n)))).
Proof.
  revert i s r. induction n as [|n IH]; intros i s r; cbn [region_loop]; [by rewrite !Z.add_0_r|].
  rewrite Nat2Z.inj_succ, seqZ_cons, Z.pred_succ, <- Z.add_1_r by lia. unfold svcs, loaded. rewrite !filter_cons.
  fold (svc_at lo i). fold (x8_at lo (i - 1)). destruct (svc_at lo i) eqn:E; cbn [negb].
  - rewrite (decide_True (P:=true = true)) by done. rewrite u64_add.
    destruct (decide (true = true ∧ 0 < i ∧ x8_at lo (i - 1) = true)) as [(_ & H1 & H2)|H].
    + rewrite (proj2 (Z.ltb_lt 0 i) H1), H2. cbn [andb]. rewrite u64_add, IH. unfold svcs, loaded. cbn [length]. f_equal; f_equal; lia.
    + assert ((0 <? i) && x8_at lo (i - 1) = false) as ->.
      { destruct (0 <? i) eqn:E1; [|done]. apply Z.ltb_lt in E1. destruct (x8_at lo (i - 1)); [naive_solver|done]. }
      rewrite IH. unfold svcs, loaded. cbn [length]. f_equal; f_equal; lia.
  - rewrite (decide_False (P:=false = true)) by done. rewrite decide_False by (intros [? _]; done). apply IH.
Qed.
Lemma region_counts lo hi s r : lo < hi →
  alr_svcscan_region mem lo hi (u64 s) (u64 r) = (u64 (s + count_svcs (lo, hi)), u64 (r + count_loaded (lo, hi))).
Proof.
  intros H. unfold alr_svcscan_region, count_svcs, count_loaded, range_words. cbn [fst snd]. rewrite (proj2 (Z.leb_gt _ _)) by done.
  fold (range_base lo). destruct (hi <=? range_base lo) eqn:E; [unfold svcs, loaded; cbn; by rewrite !Z.add_0_r|]. apply Z.leb_gt in E.
  rewrite loop_counts, Z2Nat.id; [done|]. apply Z.div_pos; lia.
Qed.
Lemma range_lt line lo hi : maps_range line = Some (lo, hi) → lo < hi.
Proof.
  unfold maps_range. destruct (alr_parse_hex (c_str line)) as [l p]. destruct (negb _); [done|]. destruct (alr_parse_hex (drop 1 p)) as [h q].
  cbv zeta. destruct (l <? h) eqn:E; [|by rewrite andb_false_r]. destruct (_ && true); [|done]. intros [= <- <-]. by apply Z.ltb_lt.
Qed.
(** The tally of a list of lines. *)
Definition tally_of (rs : list (Z * Z)) (a b c d : Z) : tally :=
  mk_tally (u64 (a + total count_svcs rs)) (u64 (b + total count_loaded rs)) (u64 (c + Z.of_nat (length rs)))
    (u64 (d + total (λ r, snd r - fst r) rs)).
Lemma lines_counts ls a b c d :
  foldl (maps_line mem) (mk_tally (u64 a) (u64 b) (u64 c) (u64 d)) ls = tally_of (omap maps_range ls) a b c d.
Proof.
  revert a b c d. induction ls as [|l ls IH]; intros a b c d; cbn [foldl omap list_omap]; [unfold tally_of; cbn; by rewrite !Z.add_0_r|].
  unfold maps_line at 2. destruct (maps_range l) as [[lo hi]|] eqn:E; [|apply IH]. cbn [t_sites t_rewr t_regions t_bytes].
  rewrite region_counts by by eapply range_lt. rewrite !u64_add, IH. unfold tally_of. cbn [total foldr length fst snd]. fold (total count_svcs). fold (total count_loaded).
  f_equal; f_equal; unfold total; lia.
Qed.
Definition kept_line (l : bytes) : Prop := (newline ∉ l) ∧ (length l < LINE)%nat.
Lemma loop_line t l s pre : newline ∉ l → (length (pre ++ l) < LINE)%nat → maps_loop mem t pre (l ++ newline :: s) = maps_loop mem (maps_line mem t (pre ++ l)) [] s.
Proof.
  revert pre. induction l as [|c l IH]; intros pre Hl Hn; cbn [app maps_loop]; [by rewrite bool_decide_true, app_nil_r by done|].
  rewrite not_elem_of_cons in Hl. destruct Hl as [Hc Hl]. rewrite length_app in Hn. cbn [length] in Hn.
  rewrite bool_decide_false, decide_True by (done || lia). rewrite IH, <- app_assoc; [done|done|]. rewrite !length_app. cbn [length]. lia.
Qed.
Lemma loop_lines t ls : Forall kept_line ls → maps_loop mem t [] (unlines ls) = foldl (maps_line mem) t ls.
Proof.
  intros H. revert t. induction H as [|l ls [Hl Hn] _ IH]; intros t; [done|]. unfold unlines. cbn [fmap list_fmap concat foldl].
  rewrite <- app_assoc. cbn [app]. rewrite loop_line by done. apply IH.
Qed.
End counts.

Lemma u64_text z : (length (to_string (u64 z)) ≤ 20)%nat.
Proof.
  pose proof (u64_range z) as Hz. unfold to_string. rewrite (proj2 (Z.ltb_ge _ _)) by lia. unfold print_nat.
  pose proof (digits_le 20 (S (Z.to_nat (Z.log2 (u64 z)))) (u64 z) []) as H. cbn [length] in H. rewrite Nat.add_0_r in H. apply H; lia.
Qed.
Lemma put_within n buf s : (length buf + length s < n)%nat → alr_put_str n buf s = buf ++ s.
Proof. intros H. unfold alr_put_str. by rewrite take_ge by lia. Qed.
(** A report, by its four numbers. *)
Definition report (a b c d : Z) : bytes :=
  str "ALR-SVCSCAN svc_sites=" ++ to_string a ++ str " rewritable=" ++ to_string b ++ str "/" ++ to_string a ++ str " exec_regions=" ++
  to_string c ++ str " scanned_kb=" ++ to_string d.
Lemma report_fits t n : (161 < n)%nat → (∃ z, t_sites t = u64 z) → (∃ z, t_rewr t = u64 z) → (∃ z, t_regions t = u64 z) → (∃ z, t_bytes t = u64 z) →
  let put := alr_put_str n in
  let num := alr_put_u64 n in
  num (put (num (put (num (put (num (put (num (put [] (str "ALR-SVCSCAN svc_sites=")) (t_sites t))
    (str " rewritable=")) (t_rewr t)) (str "/")) (t_sites t)) (str " exec_regions=")) (t_regions t)) (str " scanned_kb=")) (t_bytes t / 1024) =
  report (t_sites t) (t_rewr t) (t_regions t) (t_bytes t / 1024) ∧
  (length (report (t_sites t) (t_rewr t) (t_regions t) (t_bytes t / 1024)) ≤ 161)%nat.
Proof.
  intros Hn [a ->] [b ->] [c ->] [d ->] put num. subst put num. unfold alr_put_u64, report.
  pose proof (u64_text a) as Ha. pose proof (u64_text b) as Hb. pose proof (u64_text c) as Hc.
  assert (Hd : (length (to_string (u64 d / 1024)) ≤ 20)%nat).
  { replace (u64 d / 1024) with (u64 (u64 d / 1024)); [apply u64_text|]. pose proof (u64_range d). apply u64_small.
    split; [apply Z.div_pos; lia|apply Z.div_lt_upper_bound; lia]. }
  generalize dependent (to_string (u64 a)). generalize dependent (to_string (u64 b)). generalize dependent (to_string (u64 c)).
  generalize dependent (to_string (u64 d / 1024)). intros td Hd tc Hc tb Hb ta Ha.
  generalize (eq_refl : length (str "ALR-SVCSCAN svc_sites=") = 22%nat), (eq_refl : length (str " rewritable=") = 12%nat),
    (eq_refl : length (str "/") = 1%nat), (eq_refl : length (str " exec_regions=") = 14%nat), (eq_refl : length (str " scanned_kb=") = 12%nat).
  generalize (str "ALR-SVCSCAN svc_sites=") (str " rewritable=") (str "/") (str " exec_regions=") (str " scanned_kb=").
  intros s1 s2 s3 s4 s5 L1 L2 L3 L4 L5.
  repeat match goal with |- context [alr_put_str n ?b ?x] =>
    lazymatch b with context [alr_put_str] => fail | _ => rewrite (put_within n b x) by (rewrite ?length_app; cbn [length]; lia) end end.
  rewrite <- !app_assoc, !length_app. split; [done|]. lia.
Qed.

(** The scan counts what is mapped.  For a maps file of lines shorter than its buffer, what
    is written to standard error is the whole report and a line end: the number of words that
    are system call instructions in the readable and executable ranges, the number of those
    whose predecessor moves a number into x8, the number of ranges and their kilobytes, all
    modulo 2^64; and a word is counted exactly if it encodes [svc] with any immediate, or
    [movz] or [movk] of x8. *)
Theorem svcscan_exact mem ls c r : Forall kept_line ls → c ≠ "0"%byte →
  let rs := omap maps_range ls in
  alr_emit_svcscan_if_gated mem (Some (c :: r)) (Some (unlines ls)) =
    report (u64 (total (count_svcs mem) rs)) (u64 (total (count_loaded mem) rs)) (u64 (Z.of_nat (length rs)))
      (u64 (total (λ r, snd r - fst r) rs) / 1024) ++ [newline] ∧
  (∀ w, word w → (alr_is_svc w = true ↔ ∃ imm, 0 ≤ imm < 2 ^ 16 ∧ w = 0xD4000001 + imm * 2 ^ 5) ∧
    (alr_is_x8_load w = true ↔ ∃ opc hw imm, (opc = 2 ∨ opc = 3) ∧ 0 ≤ hw < 4 ∧ 0 ≤ imm < 2 ^ 16 ∧
       w = 2 ^ 31 + (opc - 2) * 2 ^ 29 + 2 ^ 30 + 37 * 2 ^ 23 + hw * 2 ^ 21 + imm * 2 ^ 5 + 8)).
Proof.
  intros Hls Hc rs. split; [|intros w Hw; split; [by apply is_svc_exact|by apply is_x8_exact]].
  unfold alr_emit_svcscan_if_gated, alr_svcscan_report. rewrite (bool_decide_false (c = _)) by done.
  rewrite (decide_False (P:=LINE = 0%nat)) by done. cbv zeta. rewrite loop_lines by done.
  change (mk_tally 0 0 0 0) with (mk_tally (u64 0) (u64 0) (u64 0) (u64 0)). rewrite lines_counts. fold rs.
  destruct (report_fits (tally_of mem rs 0 0 0 0) LINE) as [E Hlen]; [unfold LINE; lia|by eexists..|]. cbv zeta in E. rewrite E. clear E.
  unfold tally_of in *. cbn [t_sites t_rewr t_regions t_bytes default] in *. rewrite !Z.add_0_l in *.
  unfold id.
  rewrite (decide_True (P:=(0 < length (report _ _ _ _))%nat)) by (unfold report; rewrite length_app; cbn [length str]; cbn; lia).
  by rewrite decide_True by (unfold LINE; lia).
Qed.

(** ** Witnesses *)

Definition some_call (nr ip : Z) : seccomp_data := mk_data nr AUDIT_ARCH_AARCH64 ip.
Lemma filter_exact_witness : ∃ n, verdict 0x7f0000001000 0x7f0000001040 (some_call NR_openat 0x7f0000001040) = Some (SECCOMP_RET_TRACE, n) ∧
  verdict 0x7f0000001000 0x7f0000001040 (some_call NR_openat 0x7f000000103c) = Some (SECCOMP_RET_ALLOW, 18%nat).
Proof.
  destruct (filter_exact 0x7f0000001000 0x7f0000001040 (some_call NR_openat 0x7f0000001040)) as (n & Hn & _); [done|done|by constructor|].
  exists n. split; [|by vm_compute]. rewrite Hn. by vm_compute.
Defined.
(** A call of the hot ranges takes seven instructions, but [ioctl] eleven. *)
Example seven_instructions : verdict 0 0 (some_call 172 0) = Some (SECCOMP_RET_ALLOW, 7%nat) ∧ verdict 0 0 (some_call 29 0) = Some (SECCOMP_RET_ALLOW, 11%nat).
Proof. by vm_compute. Qed.
(** Memory with [mov x8, #56] and [svc #0] at 4096 and another [svc] at 4108. *)
Definition some_mem (a : Z) : Z := if a =? 4096 then 0xD2800708 else if (a =? 4100) || (a =? 4108) then 0xD4000001 else 0.
Lemma svcscan_exact_witness :
  alr_emit_svcscan_if_gated some_mem (Some (str "1")) (Some (unlines [str "1000-1010 r-xp 00000000"; str "2000-3000 rw-p 00000000"])) =
    str "ALR-SVCSCAN svc_sites=2 rewritable=1/2 exec_regions=1 scanned_kb=0" ++ [newline].
Proof.
  etrans; [apply (svcscan_exact some_mem [str "1000-1010 r-xp 00000000"; str "2000-3000 rw-p 00000000"] "1"%byte [])|by vm_compute].
  - repeat constructor; first [by apply (bool_decide_unpack _); vm_compute|by apply (Nat.ltb_lt _ _)].
  - done.
Defined.
