(* ===== verification/AppPty.v ===== *)
(** * The terminals of the app's interposer

    A guest in the app has no [/dev/pts]: [alr_interpose/alr_pts.c] emulates the requests of a
    terminal on a pair of sockets, and [alr_interpose/libalr_interpose.c] keeps the table of
    the pairs and stands for the calls of libc.  Structures cross the boundary as their
    bytes.  An operation takes the answers of the kernel it asks; [None] where the code would
    leave the buffer of its caller.  The operations on the table hold its lock and are
    taken as single steps. *)

From S2P Require Import Prelude CppMap Bytes Wire.

Local Open Scope Z_scope.

(** ** The emulated terminal *)

Definition ALR_KNCCS : nat := 19.
(** [struct alr_ktermios2] and [struct winsize]. *)
Record ktermios2 := mk_tio {
  c_iflag : Z; c_oflag : Z; c_cflag : Z; c_lflag : Z; c_line : Z; c_cc : bytes; c_ispeed : Z; c_ospeed : Z;
}.
Record winsize := mk_win { ws_row : Z; ws_col : Z; ws_xpixel : Z; ws_ypixel : Z }.
Definition enc_k (t : ktermios2) : bytes :=
  enc_onto [WU32 (c_iflag t); WU32 (c_oflag t); WU32 (c_cflag t); WU32 (c_lflag t); WU8 (c_line t); WRaw (c_cc t)] [].
Definition enc_k2 (t : ktermios2) : bytes := enc_k t ++ enc_onto [WU32 (c_ispeed t); WU32 (c_ospeed t)] [].
(** [struct alr_ktermios] has no speeds: those given are kept. *)
Definition rd_k (isp osp : Z) : rd ktermios2 :=
  i ← rd_u32; o ← rd_u32; c ← rd_u32; l ← rd_u32; ln ← rd_u8; cc ← rd_take (Z.of_nat ALR_KNCCS); mret (mk_tio i o c l ln cc isp osp).
Definition rd_k2 : rd ktermios2 :=
  t ← rd_k 0 0; i ← rd_u32; o ← rd_u32; mret (mk_tio (c_iflag t) (c_oflag t) (c_cflag t) (c_lflag t) (c_line t) (c_cc t) i o).
Definition enc_win (w : winsize) : bytes := enc_onto [WU16 (ws_row w); WU16 (ws_col w); WU16 (ws_xpixel w); WU16 (ws_ypixel w)] [].
Definition rd_win : rd winsize := r ← rd_u16; c ← rd_u16; x ← rd_u16; y ← rd_u16; mret (mk_win r c x y).

(** [struct alr_pty] *)
Record alr_pty := mk_pty {
  used : bool; ptn : Z; master_fd : Z; slave_fd : Z; locked : bool; slave_opened : bool; pgrp : Z; sid : Z;
  tio : ktermios2; win : winsize;
}.
Definition with_locked (b : bool) (p : alr_pty) := mk_pty (used p) (ptn p) (master_fd p) (slave_fd p) b (slave_opened p) (pgrp p) (sid p) (tio p) (win p).
Definition with_opened (p : alr_pty) := mk_pty (used p) (ptn p) (master_fd p) (slave_fd p) (locked p) true (pgrp p) (sid p) (tio p) (win p).
Definition with_pgrp (g : Z) (p : alr_pty) := mk_pty (used p) (ptn p) (master_fd p) (slave_fd p) (locked p) (slave_opened p) g (sid p) (tio p) (win p).
Definition with_tio (t : ktermios2) (p : alr_pty) := mk_pty (used p) (ptn p) (master_fd p) (slave_fd p) (locked p) (slave_opened p) (pgrp p) (sid p) t (win p).
Definition with_win (w : winsize) (p : alr_pty) := mk_pty (used p) (ptn p) (master_fd p) (slave_fd p) (locked p) (slave_opened p) (pgrp p) (sid p) (tio p) w.
Definition freed (p : alr_pty) := mk_pty false (ptn p) (master_fd p) (slave_fd p) (locked p) (slave_opened p) (pgrp p) (sid p) (tio p) (win p).

(** [alr_pty_init_termios] and [alr_pty_init_winsize] *)
Definition CTRL (c : byte) : byte := byte_of (Z.land (byte_val c) 0x1f).
Definition set_cc (l : list (nat * byte)) : bytes := foldl (λ cc '(i, b), <[i := b]> cc) (replicate ALR_KNCCS nul) l.
Definition init_termios : ktermios2 :=
  mk_tio (0x100 + 0x400 + 0x2 + 0x2000) (0x1 + 0x4) (0x30 + 0x80 + 0x400 + 0xf) (0x1 + 0x2 + 0x8 + 0x10 + 0x20 + 0x200 + 0x8000) 0
    (set_cc [(0%nat, CTRL "C"); (1%nat, CTRL "\"); (2%nat, byte_of 127); (3%nat, CTRL "U"); (4%nat, CTRL "D"); (5%nat, nul);
             (6%nat, byte_of 1); (8%nat, CTRL "Q"); (9%nat, CTRL "S"); (10%nat, CTRL "Z"); (11%nat, nul); (12%nat, CTRL "R");
             (14%nat, CTRL "W"); (15%nat, CTRL "V"); (16%nat, nul)])
    38400 38400.
Definition init_winsize : winsize := mk_win 24 80 0 0.
Definition no_pty : alr_pty := mk_pty false 0 0 0 false false 0 0 (mk_tio 0 0 0 0 0 (replicate ALR_KNCCS nul) 0 0) (mk_win 0 0 0 0).

(** *** Paths *)

Definition alr_pts_is_ptmx_path (path : bytes) : bool := bool_decide (path = str "/dev/ptmx") || bool_decide (path = str "/dev/pts/ptmx").
Definition alr_pts_is_ptsdir_path (path : bytes) : bool := bool_decide (path = str "/dev/pts") || bool_decide (path = str "/dev/pts/").
Definition alr_pts_is_tty_path (path : bytes) : bool := bool_decide (path = str "/dev/tty").
Definition is_digit (b : byte) : bool := (48 <=? byte_val b) && (byte_val b <=? 57).
(** The digits of a slave or a descriptor, up to a million. *)
Fixpoint bounded_number (n : Z) (s : bytes) : option Z :=
  match s with
  | [] => Some n
  | b :: s => if negb (is_digit b) then None
              else let n := n * 10 + (byte_val b - 48) in if 1000000 <? n then None else bounded_number n s
  end.
Definition PTS : bytes := str "/dev/pts/".
Definition alr_pts_parse_slave_path (path : bytes) : option Z :=
  if negb (bool_decide (take (length PTS) path = PTS)) then None
  else match drop (length PTS) path with
       | [] => None
       | b :: s => if negb (is_digit b) then None else bounded_number 0 (b :: s)
       end.
(** [alr_pts_slave_env_name]; [None]: it does not fit. *)
Definition alr_pts_slave_env_name (ptn : Z) (buflen : nat) : option bytes :=
  if ptn <? 0 then None
  else let n := str "ALR_PTY_SLAVE_" ++ to_string ptn in if decide (buflen < length n + 1)%nat then None else Some n.

(** *** Requests *)

Definition EINVAL : Z := 22.
Definition ALR_PTS_IOCTL_PASS : Z := 0x7fffffff.
Definition ALR_PTS_IOCTL_GPTPEER : Z := 0x7ffffffe.
Definition TCGETS : Z := 0x5401.
Definition TCSETS : Z := 0x5402.
Definition TCSETSW : Z := 0x5403.
Definition TCSETSF : Z := 0x5404.
Definition TIOCSCTTY : Z := 0x540E.
Definition TIOCGPGRP : Z := 0x540F.
Definition TIOCSPGRP : Z := 0x5410.
Definition TIOCGWINSZ : Z := 0x5413.
Definition TIOCSWINSZ : Z := 0x5414.
Definition TIOCNOTTY : Z := 0x5422.
Definition TIOCGSID : Z := 0x5429.
Definition TIOCGPTN : Z := 0x80045430.
Definition TIOCSPTLCK : Z := 0x40045431.
Definition TIOCGPTPEER : Z := 0x5441.
Definition ALR_TCGETS2 : Z := 0x802c542a.
Definition ALR_TCSETS2 : Z := 0x402c542b.
Definition ALR_TCSETSW2 : Z := 0x402c542c.
Definition ALR_TCSETSF2 : Z := 0x402c542d.

(** [memcpy] to and from the argument. *)
Definition put (arg t : bytes) : option bytes := if decide (length t ≤ length arg)%nat then Some (t ++ drop (length t) arg) else None.
Definition get {A} (r : rd A) (arg : bytes) : option A := fst <$> r arg.
(** The value, the terminal and the argument after the request. *)
Definition reply : Type := Z * alr_pty * option bytes.
Definition answers (p : alr_pty) (t arg : bytes) : option reply := a ← put arg t; Some (0, p, Some a).
Definition stores {A} (p : alr_pty) (r : rd A) (set : A → alr_pty → alr_pty) (arg : bytes) : option reply := v ← get r arg; Some (0, set v p, Some arg).
Definition alr_pts_emulate_ioctl (p : alr_pty) (is_master : bool) (request : Z) (arg : option bytes) : option reply :=
  let fails := Some (- EINVAL, p, arg) in
  let data (f : bytes → option reply) := match arg with None => fails | Some a => f a end in
  if negb (used p) then Some (ALR_PTS_IOCTL_PASS, p, arg)
  else if request =? TIOCGPTN then if negb is_master then fails else data (answers p (le_bytes 4 (ptn p)))
  else if request =? TIOCSPTLCK then
    if negb is_master then fails else data (stores p rd_i32 (λ lock, with_locked (negb (lock =? 0))))
  else if request =? TIOCGPTPEER then if negb is_master then fails else Some (ALR_PTS_IOCTL_GPTPEER, p, arg)
  else if request =? TIOCGWINSZ then data (answers p (enc_win (win p)))
  else if request =? TIOCSWINSZ then data (stores p rd_win with_win)
  else if request =? TCGETS then data (answers p (enc_k (tio p)))
  else if (request =? TCSETS) || (request =? TCSETSW) || (request =? TCSETSF) then
    data (stores p (rd_k (c_ispeed (tio p)) (c_ospeed (tio p))) with_tio)
  else if request =? ALR_TCGETS2 then data (answers p (enc_k2 (tio p)))
  else if (request =? ALR_TCSETS2) || (request =? ALR_TCSETSW2) || (request =? ALR_TCSETSF2) then data (stores p rd_k2 with_tio)
  else if request =? TIOCSCTTY then Some (0, p, arg)
  else if request =? TIOCSPGRP then data (stores p rd_i32 with_pgrp)
  else if request =? TIOCGPGRP then data (answers p (le_bytes 4 (pgrp p)))
  else if request =? TIOCGSID then data (answers p (le_bytes 4 (sid p)))
  else if request =? TIOCNOTTY then Some (0, p, arg)
  else Some (ALR_PTS_IOCTL_PASS, p, arg).

(** ** The table *)

Definition ALR_PTS_MAX : nat := 64.
Definition EIO : Z := 5.
Definition ENXIO : Z := 6.
Definition ENOTTY : Z := 25.
Definition ENOSPC : Z := 28.
Definition ERANGE : Z := 34.
(** [g_pts], [g_pty_active], [g_pty_minted] and the environment. *)
Record process := mk_process { tab : list alr_pty; active : bool; minted : bool; env : gmap bytes bytes }.
(** [alr_ctor] on an environment. *)
Definition started (e : gmap bytes bytes) : process :=
  mk_process (replicate ALR_PTS_MAX no_pty)
    (match e !! str "ALR_PTY_ACTIVE" with Some (c :: _) => negb (bool_decide (c = "0"%byte)) | _ => false end) false e.
Definition with_tab (s : process) (t : list alr_pty) : process := mk_process t (active s) (minted s) (env s).
Definition update (s : process) (i : nat) (f : alr_pty → alr_pty) : process := with_tab s (alter f i (tab s)).
(** What else happens: descriptors marked or closed, and what is written to standard error. *)
Inductive effect := SetCloexec (fd : Z) | Closed (fd : Z) | Written (t : bytes).
(** The kernel's answers: a pair of sockets, a duplicate of a descriptor, whether a descriptor
    is a stream socket of the local kind; a failure is its error number. *)
Record kernel := mk_kernel { k_socketpair : Z + Z * Z; k_dup : Z → bool → Z + Z; k_unix : Z → bool }.

Definition find_index (f : alr_pty → bool) (t : list alr_pty) : option nat := fst <$> list_find (λ p, f p = true) t.
(** The first free slot. *)
Definition free_slot (t : list alr_pty) : option nat := find_index (λ p, negb (used p)) t.
(** [alr_pts_by_fd]: the slot, and whether it is the master's end. *)
Definition holds_fd (fd : Z) (p : alr_pty) : bool := used p && ((master_fd p =? fd) || (slave_fd p =? fd)).
Definition alr_pts_by_fd (t : list alr_pty) (fd : Z) : option (nat * bool) :=
  if fd <? 0 then None
  else i ← find_index (holds_fd fd) t; p ← t !! i; Some (i, master_fd p =? fd).
Definition alr_pts_by_ptn (t : list alr_pty) (n : Z) : option nat :=
  if n <? 0 then None else find_index (λ p, used p && (ptn p =? n)) t.

(** [alr_pts_append_long] in a buffer of so many bytes. *)
Definition append_long (cap : nat) (m : bytes) (v : Z) : bytes := m ++ take (cap - 1 - length m) (to_string v).
(** [alr_pts_emit_mint_marker]: with the descriptor, or the error. *)
Definition mint_marker (ptn master err : Z) : bytes :=
  let ok := 0 <=? master in
  let m := append_long 96 (str "ALR-PTY ptmx-served ptn=") (if ok then ptn else -1) in
  let m := m ++ take (95 - length m) (if ok then str " master=" else str " master=-1 errno=") in
  let m := append_long 96 m (if ok then master else err) in
  if decide (length m < 96)%nat then m ++ [newline] else m.
(** [alr_pts_publish_slave_env] *)
Definition publish_slave (e : gmap bytes bytes) (ptn slave : Z) : gmap bytes bytes :=
  if (ptn <? 0) || (slave <? 0) then e
  else match alr_pts_slave_env_name ptn 32 with
       | None => e
       | Some name => let v := append_long 24 [] slave in if decide (length v < 24)%nat then <[name := v]> e else e
       end.
Definition new_pty (n m s : Z) (lock opened : bool) (w : winsize) : alr_pty := mk_pty true n m s lock opened 0 0 init_termios w.
(** [alr_pts_mint]: the error, or the master and its number. *)
Definition alr_pts_mint (k : kernel) (cloexec : bool) (s : process) : process * (Z + Z * Z) * list effect :=
  match k_socketpair k with
  | inl e => (s, inl e, [Written (mint_marker (-1) (-1) e)])
  | inr (m, sl) =>
      let mark := if cloexec then [SetCloexec m] else [] in
      match free_slot (tab s) with
      | None => (s, inl ENOSPC, mark ++ [Closed m; Closed sl; Written (mint_marker (-1) (-1) ENOSPC)])
      | Some i =>
          let n := Z.of_nat i in
          let t := <[i := new_pty n m sl true false init_winsize]> (tab s) in
          let e := publish_slave (<[str "ALR_PTY_ACTIVE" := str "1"]> (env s)) n sl in
          (mk_process t (active s) true e, inr (m, n), mark ++ [Written (mint_marker n m 0)])
      end
  end.
(** [alr_pts_apply_env_winsize]; the numbers wrap. *)
Fixpoint wrapped_number (n : Z) (s : bytes) : Z * bytes :=
  match s with
  | b :: r => if is_digit b then wrapped_number (u32 (n * 10 + (byte_val b - 48))) r else (n, s)
  | [] => (n, [])
  end.
Definition apply_env_winsize (e : gmap bytes bytes) (w : winsize) : winsize :=
  match e !! str "ALR_PTY_WINSZ" with
  | None | Some [] => w
  | Some ws =>
      let '(cols, q) := wrapped_number 0 ws in
      let rows := match q with b :: r => if bool_decide (b = "x"%byte) || bool_decide (b = "X"%byte) then fst (wrapped_number 0 r) else 0 | [] => 0 end in
      if (0 <? cols) && (cols <? 10000) && (0 <? rows) && (rows <? 10000) then mk_win rows cols (ws_xpixel w) (ws_ypixel w) else w
  end.
(** [alr_pts_resolve] *)
Definition alr_pts_resolve (k : kernel) (s : process) (fd : Z) : process * option (nat * bool) :=
  match alr_pts_by_fd (tab s) fd with
  | Some r => (s, Some r)
  | None =>
      if negb (active s) || minted s then (s, None)
      else if 2 <? fd then (s, None)
      else if (fd <? 0) || negb (k_unix k fd) then (s, None)
      else match free_slot (tab s) with
           | None => (s, None)
           | Some i => (with_tab s (<[i := new_pty (Z.of_nat i) (-1) fd false true (apply_env_winsize (env s) init_winsize)]> (tab s)), Some (i, false))
           end
  end.
(** [alr_pts_dup_slave] *)
Definition alr_pts_dup_slave (k : kernel) (s : process) (i : nat) (cloexec : bool) : process * (Z + Z) :=
  match tab s !! i with
  | None => (s, inl EINVAL)
  | Some p => match k_dup k (slave_fd p) cloexec with inl e => (s, inl e) | inr fd => (update s i with_opened, inr fd) end
  end.
(** [alr_pts_adopt_inherited_slave]: the new descriptor, and what is written. *)
Definition adopt_marker (n dfd : Z) : bytes :=
  let m := append_long 80 (str "ALR-PTY slave-dup-from-env ptn=") n in
  let m := m ++ take (79 - length m) (str " slave=") in
  let m := append_long 80 m dfd in
  if decide (length m < 80)%nat then m ++ [newline] else m.
Definition alr_pts_adopt_inherited_slave (k : kernel) (s : process) (n : Z) (cloexec : bool) : process * option Z * list effect :=
  match (name ← alr_pts_slave_env_name n 32; env s !! name) with
  | Some ((b :: _) as v) =>
      match (if is_digit b then bounded_number 0 v else None) with
      | None => (s, None, [])
      | Some inh =>
          match k_dup k inh cloexec with
          | inl _ => (s, None, [])
          | inr dfd =>
              let s := match free_slot (tab s) with
                       | Some i => with_tab s (<[i := new_pty n (-1) dfd false true (apply_env_winsize (env s) init_winsize)]> (tab s))
                       | None => s
                       end in
              (s, Some dfd, [Written (adopt_marker n dfd)])
          end
      end
  | _ => (s, None, [])
  end.
(** [alr_pts_try_open]: nothing when the path is not one of a terminal. *)
Definition O_CLOEXEC : Z := 0x80000.
Definition last_opened (t : list alr_pty) : option nat :=
  i ← find_index (λ p, used p && slave_opened p) (reverse t); Some (length t - 1 - i)%nat.
Definition alr_pts_try_open (k : kernel) (s : process) (path : bytes) (flags : Z) : process * option (Z + Z) * list effect :=
  let cloexec := negb (Z.land flags O_CLOEXEC =? 0) in
  let dup s i := let '(s, r) := alr_pts_dup_slave k s i cloexec in (s, Some r, []) in
  if negb (bool_decide (head path = Some "/"%byte)) then (s, None, [])
  else if alr_pts_is_ptmx_path path then
    let '(s, r, es) := alr_pts_mint k cloexec s in (s, Some (match r with inl e => inl e | inr (m, _) => inr m end), es)
  else match alr_pts_parse_slave_path path with
       | Some n =>
           match alr_pts_by_ptn (tab s) n with
           | Some i => dup s i
           | None => let '(s, r, es) := alr_pts_adopt_inherited_slave k s n cloexec in
                     (s, Some (match r with Some fd => inr fd | None => inl ENXIO end), es)
           end
       | None =>
           if alr_pts_is_tty_path path then match last_opened (tab s) with Some i => dup s i | None => (s, None, []) end
           else (s, None, [])
       end.

(** ** The calls of libc *)

(** A call is done here, fails here, or goes to libc and the kernel. *)
Inductive outcome := Done (r : Z) | Fails (e : Z) | Real.
(** The requests for which a descriptor that is not in the table may be taken in. *)
Definition tty_request (request : Z) : bool :=
  bool_decide (request ∈ [TCGETS; TCSETS; TCSETSW; TCSETSF; ALR_TCGETS2; ALR_TCSETS2; ALR_TCSETSW2; ALR_TCSETSF2; TIOCGWINSZ; TIOCSWINSZ;
                          TIOCSCTTY; TIOCNOTTY; TIOCGPGRP; TIOCSPGRP; TIOCGSID]).
(** COLSxROWS *)
Definition winsize_text (w : winsize) : bytes := to_string (ws_col w) ++ str "x" ++ to_string (ws_row w).
(** [ioctl]; [flags] are the argument of TIOCGPTPEER. *)
Definition ioctl (k : kernel) (s : process) (fd request flags : Z) (arg : option bytes) : option (process * outcome * option bytes) :=
  let '(s, p) := match alr_pts_by_fd (tab s) fd with
                 | Some r => (s, Some r)
                 | None => if active s && tty_request request then alr_pts_resolve k s fd else (s, None)
                 end in
  match p with
  | None => Some (s, Real, arg)
  | Some (i, is_master) =>
      p ← tab s !! i;
      '(r, p, arg) ← alr_pts_emulate_ioctl p is_master request arg;
      if r =? ALR_PTS_IOCTL_GPTPEER then
        let '(s, r) := alr_pts_dup_slave k s i (negb (Z.land flags O_CLOEXEC =? 0)) in
        Some (s, match r with inl e => Fails e | inr fd => Done fd end, arg)
      else if r =? ALR_PTS_IOCTL_PASS then Some (s, Real, arg)
      else
        let s := update s i (λ _, p) in
        if r <? 0 then Some (s, Fails (- r), arg)
        else
          let s := if (request =? TIOCSWINSZ) && is_master
                   then mk_process (tab s) (active s) (minted s) (<[str "ALR_PTY_WINSZ" := take 23 (winsize_text (win p))]> (env s)) else s in
          Some (s, Done r, arg)
  end.
(** [isatty], [tcflush], [tcflow], [tcdrain] and [tcsendbreak]: whether the call is for the table. *)
Definition answered_here (k : kernel) (s : process) (fd : Z) : process * bool :=
  let '(s, p) := alr_pts_resolve k s fd in (s, bool_decide (is_Some p)).

Section libc.
(** libc's [cfsetispeed] and [cfsetospeed], and the caller's process group. *)
Context (cfsetispeed cfsetospeed : ktermios2 → Z → ktermios2) (getpgrp : Z).
Definition NCCS : nat := 32.
Definition B38400 : Z := 15.
(** [struct termios] of libc has more control characters. *)
Definition tcgetattr (k : kernel) (s : process) (fd : Z) (t : bool) : process * (outcome + ktermios2) :=
  let '(s, p) := alr_pts_resolve k s fd in
  (s, match p with
      | None => inl Real
      | Some (i, _) =>
          if negb t then inl (Fails EINVAL)
          else match tab s !! i with
               | None => inl Real
               | Some p =>
                   let k := tio p in
                   let g := mk_tio (c_iflag k) (c_oflag k) (c_cflag k) (c_lflag k) (c_line k) (c_cc k ++ replicate (NCCS - ALR_KNCCS) nul) 0 0 in
                   inr (cfsetospeed (cfsetispeed g B38400) B38400)
               end
      end).
Definition tcsetattr (k : kernel) (s : process) (fd : Z) (t : option ktermios2) : process * outcome :=
  let '(s, p) := alr_pts_resolve k s fd in
  match p with
  | None => (s, Real)
  | Some (i, _) =>
      match t with
      | None => (s, Fails EINVAL)
      | Some t => (update s i (with_tio (mk_tio (c_iflag t) (c_oflag t) (c_cflag t) (c_lflag t) (c_line t) (take ALR_KNCCS (c_cc t)) 38400 38400)), Done 0)
      end
  end.
Definition tcgetpgrp (k : kernel) (s : process) (fd : Z) : process * outcome :=
  let '(s, p) := alr_pts_resolve k s fd in
  (s, match p with
      | None => Real
      | Some (i, _) => match tab s !! i with Some p => Done (if 0 <? pgrp p then pgrp p else getpgrp) | None => Real end
      end).
Definition tcsetpgrp (k : kernel) (s : process) (fd g : Z) : process * outcome :=
  let '(s, p) := alr_pts_resolve k s fd in
  match p with None => (s, Real) | Some (i, _) => (update s i (with_pgrp g), Done 0) end.
End libc.

(** The name of a terminal in a buffer of so many bytes, if there is one. *)
Definition pts_name (p : alr_pty) (buf : option nat) : Z + bytes :=
  match buf with
  | None => inl EINVAL
  | Some buflen => let t := PTS ++ to_string (ptn p) in if decide (buflen < length t + 1)%nat then inl ERANGE else inr t
  end.
(** [ptsname_r]: [None] when it is libc's. *)
Definition ptsname_r (s : process) (fd : Z) (buf : option nat) : option (Z + bytes) :=
  '(i, is_master) ← alr_pts_by_fd (tab s) fd; p ← tab s !! i;
  Some (if negb is_master then inl ENOTTY else pts_name p buf).
Definition ttyname_r (k : kernel) (s : process) (fd : Z) (buf : option nat) : process * option (Z + bytes) :=
  let '(s, r) := alr_pts_resolve k s fd in
  (s, '(i, is_master) ← r; p ← tab s !! i; Some (if is_master : bool then inl ENOTTY else pts_name p buf)).
Definition grantpt (s : process) (fd : Z) : outcome := if bool_decide (is_Some (alr_pts_by_fd (tab s) fd)) then Done 0 else Real.
Definition unlockpt (s : process) (fd : Z) : process * outcome :=
  match alr_pts_by_fd (tab s) fd with
  | None => (s, Real)
  | Some (i, is_master) => if negb is_master then (s, Fails EINVAL) else (update s i (with_locked false), Done 0)
  end.
Definition posix_openpt (k : kernel) (s : process) (oflags : Z) : process * (Z + Z) * list effect :=
  let '(s, r, es) := alr_pts_mint k (negb (Z.land oflags O_CLOEXEC =? 0)) s in
  (s, match r with inl e => inl e | inr (m, _) => inr m end, es).
(** [openpty]: the error, or the master, the slave and the name.  The settings go through
    [tcsetattr] and [ioctl] on the new slave, their results are ignored. *)
Definition openpty (k : kernel) (s : process) (termp : option ktermios2) (winp : option winsize) (name : bool) :
    option (process * (Z + Z * Z * option bytes) * list effect) :=
  let '(s, r, es) := alr_pts_mint k false s in
  match r with
  | inl e => Some (s, inl e, es)
  | inr (m, _) =>
      match alr_pts_by_fd (tab s) m with
      | None => Some (s, inl EIO, es ++ [Closed m])
      | Some (i, _) =>
          let '(s, d) := alr_pts_dup_slave k (update s i (with_locked false)) i false in
          match d with
          | inl e => Some (s, inl e, es ++ [Closed m])
          | inr sl =>
              let s := match termp with Some t => fst (tcsetattr k s sl (Some t)) | None => s end in
              '(s, _, _) ← match winp with Some w => ioctl k s sl TIOCSWINSZ 0 (Some (enc_win w)) | None => Some (s, Real, None) end;
              let n := if name then match ptsname_r s m (Some 64%nat) with Some (inr t) => Some t | _ => None end else None in
              Some (s, inr (m, sl, n), es)
          end
      end
  end.
(** [close]: the slot of a master is freed; the descriptor is closed by libc. *)
Definition close (s : process) (fd : Z) : process :=
  match alr_pts_by_fd (tab s) fd with
  | Some (i, true) => update s i freed
  | _ => s
  end.

(** * Requests *)

(** What a request needs: the master's end, and so many bytes behind its argument. *)
Definition shape (request : Z) : option (bool * nat) :=
  if request =? TIOCGPTN then Some (true, 4%nat)
  else if request =? TIOCSPTLCK then Some (true, 4%nat)
  else if request =? TIOCGPTPEER then Some (true, 0%nat)
  else if request =? TIOCGWINSZ then Some (false, 8%nat)
  else if request =? TIOCSWINSZ then Some (false, 8%nat)
  else if request =? TCGETS then Some (false, 36%nat)
  else if (request =? TCSETS) || (request =? TCSETSW) || (request =? TCSETSF) then Some (false, 36%nat)
  else if request =? ALR_TCGETS2 then Some (false, 44%nat)
  else if (request =? ALR_TCSETS2) || (request =? ALR_TCSETSW2) || (request =? ALR_TCSETSF2) then Some (false, 44%nat)
  else if request =? TIOCSCTTY then Some (false, 0%nat)
  else if request =? TIOCSPGRP then Some (false, 4%nat)
  else if request =? TIOCGPGRP then Some (false, 4%nat)
  else if request =? TIOCGSID then Some (false, 4%nat)
  else if request =? TIOCNOTTY then Some (false, 0%nat)
  else None.

(** Reading takes a fixed number of bytes, and what was read is written back the same. *)
Lemma rd_take_spec n s : rd_take (Z.of_nat n) s = if decide (length s < n)%nat then None else Some (take n s, drop n s).
Proof. unfold rd_take. rewrite Nat2Z.id. destruct (Z.of_nat (length s) <? Z.of_nat n) eqn:E; case_decide; (done || lia). Qed.
Definition reads {A} (r : rd A) (n : nat) (enc : A → bytes) : Prop :=
  ∀ s, match r s with None => (length s < n)%nat | Some (v, s') => (n ≤ length s)%nat ∧ enc v = take n s ∧ s' = drop n s end.
Lemma le_bytes_mod n z : le_bytes n (z mod 256 ^ Z.of_nat n) = le_bytes n z.
Proof. pose proof (le_bytes_val (le_bytes n z)) as H. by rewrite le_bytes_length, le_val_bytes in H. Qed.
Lemma reads_take n : reads (rd_take (Z.of_nat n)) n id.
Proof. intros s. rewrite rd_take_spec. case_decide; [done|]. split_and!; [lia|done|done]. Qed.
Lemma reads_le n (f : bytes → Z) : (∀ b, length b = n → le_bytes n (f b) = b) → reads (b ← rd_take (Z.of_nat n); mret (f b)) n (le_bytes n).
Proof.
  intros Hf s. unfold mbind, rd_bind. rewrite rd_take_spec. case_decide; [done|]. unfold mret, rd_ret. split_and!; [lia| |done].
  apply Hf. rewrite length_take. lia.
Qed.
Lemma le_val_back n b : length b = n → le_bytes n (le_val b) = b.
Proof. intros <-. apply le_bytes_val. Qed.
Lemma reads_u8 : reads rd_u8 1 (λ z, enc_wire (WU8 z)).
Proof. apply (reads_le 1), le_val_back. Qed.
Lemma reads_u16 : reads rd_u16 2 (λ z, enc_wire (WU16 z)).
Proof. apply (reads_le 2), le_val_back. Qed.
Lemma reads_u32 : reads rd_u32 4 (λ z, enc_wire (WU32 z)).
Proof. apply (reads_le 4), le_val_back. Qed.
Lemma reads_i32 : reads rd_i32 4 (le_bytes 4).
Proof.
  apply (reads_le 4 (λ b, s32 (le_val b))). intros b Hb. transitivity (le_bytes 4 (le_val b)); [|by apply le_val_back].
  rewrite <- (le_bytes_mod 4 (s32 _)), <- (le_bytes_mod 4 (le_val b)). f_equal. change (256 ^ Z.of_nat 4) with (2 ^ 32).
  unfold s32, u32. case_match; [by rewrite Z.mod_mod|]. rewrite <- Zminus_mod_idemp_r, Z.mod_same, Z.sub_0_r, Z.mod_mod by lia. done.
Qed.
(** A reader after others, which have read the fields encoded before. *)
Definition reads_after {A} (r : rd A) (n : nat) (pre : bytes) (enc : A → bytes) : Prop :=
  ∀ s, match r s with None => (length s < n)%nat | Some (v, s') => (n ≤ length s)%nat ∧ enc v = pre ++ take n s ∧ s' = drop n s end.
Lemma reads_ret {A} (v : A) pre enc : enc v = pre → reads_after (mret v) 0 pre enc.
Proof. intros H s. cbn. rewrite app_nil_r. split_and!; [lia|done|done]. Qed.
Lemma reads_bind {A B} (r : rd A) (f : A → rd B) n m enc1 pre (enc : B → bytes) :
  reads r n enc1 → (∀ a, reads_after (f a) m (pre ++ enc1 a) enc) → reads_after (r ≫= f) (n + m) pre enc.
Proof.
  intros Hr Hf s. unfold mbind, rd_bind. specialize (Hr s). destruct (r s) as [[a s1]|]; [|lia]. destruct Hr as (Hn & E1 & ->).
  specialize (Hf a (drop n s)). destruct (f a (drop n s)) as [[b s2]|]; rewrite length_drop in Hf; [|lia].
  destruct Hf as (Hm & E2 & ->). split_and!; [lia| |by rewrite drop_drop].
  rewrite E2, E1, <- app_assoc. f_equal. by rewrite <- take_take_drop.
Qed.
Lemma reads_nil {A} (r : rd A) n enc : reads_after r n [] enc → reads r n enc.
Proof. done. Qed.
Lemma reads_win : reads rd_win 8 enc_win.
Proof.
  apply reads_nil. do 4 (refine (reads_bind _ _ 2 _ _ _ _ reads_u16 (λ _, _))). apply reads_ret. cbn [app]. unfold enc_win, enc_onto. cbn [foldr].
  cbn [ws_row ws_col ws_xpixel ws_ypixel]. by rewrite app_nil_r, <- !app_assoc.
Qed.
Lemma reads_k isp osp : reads (rd_k isp osp) 36 enc_k.
Proof.
  apply reads_nil. do 4 (refine (reads_bind _ _ 4 _ _ _ _ reads_u32 (λ _, _))). refine (reads_bind _ _ 1 _ _ _ _ reads_u8 (λ _, _)).
  refine (reads_bind _ _ 19 0 _ _ _ (reads_take 19) (λ _, _)). apply reads_ret. unfold enc_k, enc_onto. cbn [foldr app c_iflag c_oflag c_cflag c_lflag c_line c_cc].
  by rewrite app_nil_r, <- !app_assoc.
Qed.
Lemma rd_k_fields isp osp s v s' : rd_k isp osp s = Some (v, s') → c_ispeed v = isp ∧ c_ospeed v = osp.
Proof. unfold rd_k, mbind, rd_bind, mret, rd_ret. intros H. repeat case_match; simplify_eq; done. Qed.
Lemma reads_k2 : reads rd_k2 44 enc_k2.
Proof.
  apply reads_nil. refine (reads_bind _ _ 36 8 _ _ _ (reads_k 0 0) (λ _, _)). do 2 (refine (reads_bind _ _ 4 _ _ _ _ reads_u32 (λ _, _))). apply reads_ret.
  unfold enc_k2, enc_onto. cbn [foldr app]. by rewrite app_nil_r, <- !app_assoc.
Qed.

Definition tio_ok (t : ktermios2) : Prop := length (c_cc t) = ALR_KNCCS.
Lemma enc_k_length t : tio_ok t → length (enc_k t) = 36%nat.
Proof. unfold tio_ok, ALR_KNCCS. intros H. unfold enc_k, enc_onto. cbn [foldr enc_wire]. rewrite !length_app, !le_bytes_length, H. done. Qed.
Lemma enc_k2_length t : tio_ok t → length (enc_k2 t) = 44%nat.
Proof. intros H. unfold enc_k2. by rewrite length_app, enc_k_length. Qed.
Lemma read_ok isp osp s v s' : rd_k isp osp s = Some (v, s') → tio_ok v.
Proof.
  intros H. pose proof (reads_k isp osp s) as R. rewrite H in R. destruct R as (Hn & E & _). apply (f_equal length) in E.
  unfold tio_ok. unfold enc_k, enc_onto in E. cbn [foldr enc_wire] in E. rewrite !length_app, !le_bytes_length, length_take in E. unfold ALR_KNCCS. cbn [length] in E. lia.
Qed.
Lemma read_ok2 s v s' : rd_k2 s = Some (v, s') → tio_ok v.
Proof.
  unfold rd_k2. unfold mbind at 1, rd_bind at 1. destruct (rd_k 0 0 s) as [[t s1]|] eqn:E; [|done]. apply read_ok in E.
  unfold mbind, rd_bind, mret, rd_ret. intros H. repeat case_match; simplify_eq; done.
Qed.

(** The three ways a request with data ends: the argument is missing, too short, or used. *)
Definition unchanged (p : alr_pty) (arg : option bytes) (o : reply) : Prop := snd (fst o) = p ∧ snd o = arg.
Lemma put_spec arg t : put arg t = if decide (length arg < length t)%nat then None else Some (t ++ drop (length t) arg).
Proof. unfold put. repeat case_decide; (done || lia). Qed.
Lemma get_spec {A} (r : rd A) n enc arg : reads r n enc →
  match get r arg with None => (length arg < n)%nat | Some v => (n ≤ length arg)%nat ∧ enc v = take n arg end.
Proof. intros H. specialize (H arg). unfold get. destruct (r arg) as [[v s]|]; cbn; [|done]. destruct H as (H1 & H2 & _). done. Qed.
(** What is promised of the answer to a request that needs [n] bytes. *)
Definition answered (n : nat) (p : alr_pty) (arg : option bytes) (o : option reply) : Prop :=
  match arg, o with
  | None, Some (r, p', arg') => r = - EINVAL ∧ p' = p ∧ arg' = None
  | Some a, None => (length a < n)%nat
  | Some a, Some (r, p', arg') => (n ≤ length a)%nat ∧ r = 0 ∧ ∃ a', arg' = Some a' ∧ length a' = length a ∧ drop n a' = drop n a
  | None, None => False
  end.
Lemma answers_answered n p t arg : length t = n → answered n p arg (match arg with None => Some (- EINVAL, p, arg) | Some a => answers p t a end).
Proof.
  intros Hn. destruct arg as [a|]; cbn; [|done]. unfold answers. rewrite put_spec, Hn. case_decide; cbn; [done|]. split_and!; [lia|done|].
  eexists. split; [done|]. rewrite length_app, length_drop. split; [lia|]. by rewrite <- Hn, drop_app_length.
Qed.
Lemma stores_answered {A} n p (r : rd A) enc set arg : reads r n enc →
  answered n p arg (match arg with None => Some (- EINVAL, p, arg) | Some a => stores p r set a end).
Proof.
  intros Hr. destruct arg as [a|]; cbn; [|done]. unfold stores. pose proof (get_spec r n enc a Hr) as H.
  destruct (get r a) as [v|]; cbn; [|done]. split_and!; [lia|done|]. by exists a.
Qed.


(** * The table *)

(** Every slot's terminal has the number of the slot, and settings that can be encoded. *)
Record wf (t : list alr_pty) : Prop := mk_wf {
  wf_length : length t = ALR_PTS_MAX;
  wf_slot : ∀ i p, t !! i = Some p → tio_ok (tio p) ∧ (used p = true → ptn p = Z.of_nat i);
}.
Lemma find_index_Some f t i : find_index f t = Some i ↔ ∃ p, t !! i = Some p ∧ f p = true ∧ ∀ j q, t !! j = Some q → (j < i)%nat → f q = false.
Proof.
  unfold find_index. split.
  - destruct (list_find _ t) as [[i' p]|] eqn:E; [|done]. intros [= <-]. apply list_find_Some in E as (H1 & H2 & H3).
    exists p. split_and!; [done|done|]. intros j q Hj Hlt. apply not_true_is_false. by eapply H3.
  - intros (p & H1 & H2 & H3). assert (list_find (λ p, f p = true) t = Some (i, p)) as ->; [|done].
    apply list_find_Some. split_and!; [done|done|]. intros j q Hj Hlt. by rewrite (H3 j q).
Qed.
Lemma wf_insert t i p : wf t → tio_ok (tio p) → (used p = true → ptn p = Z.of_nat i) → wf (<[i := p]> t).
Proof.
  intros [Hl Hs] Ht Hn. constructor; [by rewrite length_insert|]. intros j q. destruct (decide (i = j)) as [->|Hne].
  - rewrite list_lookup_insert_Some. intros [(_ & <- & _)|(? & _)]; [done|done].
  - rewrite list_lookup_insert_ne by done. apply Hs.
Qed.
Lemma wf_alter t i f : wf t → (∀ p, used (f p) = true → used p = true ∧ ptn (f p) = ptn p) → (∀ p, t !! i = Some p → tio_ok (tio p) → tio_ok (tio (f p))) → wf (alter f i t).
Proof.
  intros [Hl Hs] Hu Ht. constructor; [by rewrite length_alter|]. intros j q.
  destruct (decide (i = j)) as [->|Hne].
  - rewrite list_lookup_alter, decide_True by done. destruct (t !! j) as [p|] eqn:E; cbn; [|done]. intros [= <-]. destruct (Hs j p E) as [H1 H2]. split; [by eapply Ht|].
    intros H. destruct (Hu p H) as [Hp ->]. by apply H2.
  - rewrite list_lookup_alter_ne by done. apply Hs.
Qed.
Lemma init_tio_ok : tio_ok init_termios.
Proof. by vm_compute. Qed.
Lemma wf_started e : wf (tab (started e)).
Proof.
  constructor; [apply length_replicate|]. intros i p. unfold started. cbn [tab]. rewrite lookup_replicate. intros [-> _]. done.
Qed.
Definition pw (s : process) : Prop := wf (tab s).
Lemma mint_wf k c s : pw s → pw (fst (fst (alr_pts_mint k c s))).
Proof.
  unfold alr_pts_mint, pw. intros H. destruct (k_socketpair k) as [e|[m sl]]; [done|]. destruct (free_slot (tab s)) as [i|] eqn:E; [|done].
  cbn. apply wf_insert; [done|apply init_tio_ok|done].
Qed.
Lemma resolve_wf k s fd : pw s → pw (fst (alr_pts_resolve k s fd)).
Proof.
  unfold alr_pts_resolve, pw. intros H. repeat case_match; try done. cbn. apply wf_insert; [done|apply init_tio_ok|done].
Qed.
Lemma update_wf s i f : pw s → (∀ p, used (f p) = true → used p = true ∧ ptn (f p) = ptn p) → (∀ p, tab s !! i = Some p → tio_ok (tio p) → tio_ok (tio (f p))) → pw (update s i f).
Proof. unfold pw, update. intros. by apply wf_alter. Qed.
Lemma dup_wf k s i c : pw s → pw (fst (alr_pts_dup_slave k s i c)).
Proof. intros H. unfold alr_pts_dup_slave. repeat case_match; cbn; try done. apply update_wf; [done|by intros [] |by intros []]. Qed.
Lemma open_wf k s path flags : pw s → (∀ n, alr_pts_parse_slave_path path = Some n → is_Some (alr_pts_by_ptn (tab s) n)) → pw (fst (fst (alr_pts_try_open k s path flags))).
Proof.
  intros H Hn. unfold alr_pts_try_open. destruct (negb _); [done|]. destruct (alr_pts_is_ptmx_path path).
  - pose proof (mint_wf k (negb (Z.land flags O_CLOEXEC =? 0)) s H) as Hm. by destruct (alr_pts_mint _ _ s) as [[s' r] es].
  - assert (Hd : ∀ i, pw (fst (fst (let '(s0, r) := alr_pts_dup_slave k s i (negb (Z.land flags O_CLOEXEC =? 0)) in (s0, Some r, [] : list effect))))).
    { intros i. pose proof (dup_wf k s i (negb (Z.land flags O_CLOEXEC =? 0)) H) as Hd. by destruct (alr_pts_dup_slave _ s i _). }
    destruct (alr_pts_parse_slave_path path) as [n|].
    + destruct (Hn n eq_refl) as [i ->]. apply Hd.
    + destruct (alr_pts_is_tty_path path); [|done]. destruct (last_opened (tab s)) as [i|]; [apply Hd|done].
Qed.
(** A request keeps the number and the ends of a terminal, and its settings can be encoded
    after it. *)
Definition keeps (p p' : alr_pty) : Prop :=
  used p' = used p ∧ ptn p' = ptn p ∧ master_fd p' = master_fd p ∧ slave_fd p' = slave_fd p ∧ (tio_ok (tio p) → tio_ok (tio p')).
Lemma answers_keeps p t a o : answers p t a = Some o → keeps p (snd (fst o)).
Proof. unfold answers. destruct (put a t); cbn; [|done]. by intros [= <-]. Qed.
Lemma stores_keeps {A} p (r : rd A) set a o : (∀ v s s', r s = Some (v, s') → keeps p (set v p)) → stores p r set a = Some o → keeps p (snd (fst o)).
Proof.
  intros H. unfold stores, get. destruct (r a) as [[v s']|] eqn:E; cbn; [|done]. intros [= <-]. cbn. by eapply H.
Qed.
Lemma emulate_keeps p m request arg o : alr_pts_emulate_ioctl p m request arg = Some o → keeps p (snd (fst o)).
Proof.
  assert (Hd : ∀ f, (∀ a o, f a = Some o → keeps p (snd (fst o))) → match arg with Some a => f a | None => Some (- EINVAL, p, arg) end = Some o → keeps p (snd (fst o))).
  { intros f Hf. destruct arg as [a|]; [apply Hf|by intros [= <-]]. }
  unfold alr_pts_emulate_ioctl. cbv zeta.
  repeat match goal with |- (if ?b then _ else _) = _ → _ => destruct b end; try (by intros [= <-]); apply Hd; intros a o';
    first [apply answers_keeps|apply stores_keeps; intros v s s' E; destruct p; split_and!; try done; intros _; first [by eapply read_ok|by eapply read_ok2]].
Qed.
Lemma ioctl_wf k s fd request flags arg s' o a : pw s → ioctl k s fd request flags arg = Some (s', o, a) → pw s'.
Proof.
  intros H. unfold ioctl.
  assert (Hr : pw (fst (match alr_pts_by_fd (tab s) fd with Some r => (s, Some r) | None => if active s && tty_request request then alr_pts_resolve k s fd else (s, None) end))).
  { destruct (alr_pts_by_fd _ _); [done|]. destruct (_ && _); [by apply resolve_wf|done]. }
  destruct (match alr_pts_by_fd (tab s) fd with Some r => _ | None => _ end) as [s1 [[i m]|]]; cbn in Hr; [|by intros [= <- _ _]].
  destruct (tab s1 !! i) as [p|] eqn:Ep; [|done]. cbn. destruct (alr_pts_emulate_ioctl p m request arg) as [[[r p'] arg']|] eqn:Ee; [|done]. cbn.
  apply emulate_keeps in Ee. cbn in Ee. destruct (r =? ALR_PTS_IOCTL_GPTPEER).
  - pose proof (dup_wf k s1 i (negb (Z.land flags O_CLOEXEC =? 0)) Hr) as Hd. destruct (alr_pts_dup_slave k s1 i _) as [s2 q]. by intros [= <- _ _].
  - destruct (r =? ALR_PTS_IOCTL_PASS); [by intros [= <- _ _]|]. assert (Hu : pw (update s1 i (λ _, p'))).
    { destruct Hr as [Hl Hs]. destruct Ee as (E1 & E2 & _ & _ & E5). destruct (Hs i p Ep) as [T1 T2]. unfold pw, update. cbn [with_tab tab].
      constructor; [by rewrite length_alter|]. intros j q. destruct (decide (i = j)) as [->|Hne].
      - rewrite list_lookup_alter, decide_True, Ep by done. cbn. intros [= <-]. split; [by apply E5|]. rewrite E1, E2. exact T2.
      - rewrite list_lookup_alter_ne by done. apply Hs. }
    destruct (r <? 0); [by intros [= <- _ _]|]. destruct (_ && _); by intros [= <- _ _].
Qed.
Lemma tcsetattr_wf k s fd t : pw s → (∀ g, t = Some g → (ALR_KNCCS ≤ length (c_cc g))%nat) → pw (fst (tcsetattr k s fd t)).
Proof.
  intros H Ht. unfold tcsetattr. pose proof (resolve_wf k s fd H) as Hr. destruct (alr_pts_resolve k s fd) as [s' [[i m]|]]; [|done].
  destruct t as [g|]; [|done]. cbn in *. apply update_wf; [done|by intros []|]. intros p _ _. unfold tio_ok. cbn. rewrite length_take.
  specialize (Ht g eq_refl). unfold ALR_KNCCS in *. lia.
Qed.

(** What a process that opens only terminals it knows may do. *)
Inductive step (k : kernel) : process → process → Prop :=
| S_mint c s : step k s (fst (fst (alr_pts_mint k c s)))
| S_open s path flags : (∀ n, alr_pts_parse_slave_path path = Some n → is_Some (alr_pts_by_ptn (tab s) n)) →
    step k s (fst (fst (alr_pts_try_open k s path flags)))
| S_resolve s fd : step k s (fst (alr_pts_resolve k s fd))
| S_dup s i c : step k s (fst (alr_pts_dup_slave k s i c))
| S_ioctl s fd request flags arg s' o a : ioctl k s fd request flags arg = Some (s', o, a) → step k s s'
| S_tcsetattr s fd t : (∀ g, t = Some g → (ALR_KNCCS ≤ length (c_cc g))%nat) → step k s (fst (tcsetattr k s fd t))
| S_tcsetpgrp s fd g : step k s (fst (tcsetpgrp k s fd g))
| S_unlockpt s fd : step k s (fst (unlockpt s fd))
| S_close s fd : step k s (close s fd).
(** From the start of a process, with whatever the kernel answers each time. *)
Inductive reach : process → Prop :=
| R_start e : reach (started e)
| R_step k s s' : reach s → step k s s' → reach s'.
Lemma reach_wf s : reach s → pw s.
Proof.
  induction 1 as [e|k s s' _ IH Hs]; [apply wf_started|].
  destruct Hs as [c s|s path flags Hn|s fd|s i c|s fd request flags arg s' o a Hi|s fd t Ht|s fd g|s fd|s fd].
  - by apply mint_wf.
  - by apply open_wf.
  - by apply resolve_wf.
  - by apply dup_wf.
  - by eapply ioctl_wf.
  - by apply tcsetattr_wf.
  - unfold tcsetpgrp. pose proof (resolve_wf k s fd IH) as Hr. destruct (alr_pts_resolve k s fd) as [s' [[i m]|]]; [|done].
    apply update_wf; [done|by intros []|by intros []].
  - unfold unlockpt. destruct (alr_pts_by_fd (tab s) fd) as [[i m]|]; [|done]. destruct m; [|done]. apply update_wf; [done|by intros []|by intros []].
  - unfold close. destruct (alr_pts_by_fd (tab s) fd) as [[i []]|]; [|done..]. apply update_wf; [done|by intros []|by intros []].
Qed.

Lemma by_fd_Some t fd i m : alr_pts_by_fd t fd = Some (i, m) ↔ 0 ≤ fd ∧ find_index (holds_fd fd) t = Some i ∧ ∃ p, t !! i = Some p ∧ m = (master_fd p =? fd).
Proof.
  unfold alr_pts_by_fd. destruct (fd <? 0) eqn:E; [split; [done|lia]|]. destruct (find_index _ t) as [j|] eqn:Ej; cbn; [|naive_solver].
  apply find_index_Some in Ej as (p & Hp & _). rewrite Hp. cbn. split; [intros [= <- <-]; split_and!; [lia|done|by exists p]|].
  intros (_ & [= <-] & q & Hq & ->). by rewrite Hp in Hq; injection Hq as ->.
Qed.
Lemma by_fd_slot t fd i m : alr_pts_by_fd t fd = Some (i, m) → ∃ p, t !! i = Some p ∧ used p = true ∧ m = (master_fd p =? fd).
Proof.
  intros (_ & Hi & p & Hp & Hm)%by_fd_Some. exists p. apply find_index_Some in Hi as (q & Hq & Hh & _). rewrite Hp in Hq. injection Hq as <-.
  unfold holds_fd in Hh. destruct (used p); [done|done].
Qed.
Lemma find_alter f t i p p' : t !! i = Some p → f p' = f p → find_index f (alter (λ _, p') i t) = find_index f t.
Proof.
  intros Hp Hf. apply option_eq. intros j. rewrite !find_index_Some.
  assert (E : ∀ k q, alter (λ _, p') i t !! k = Some q → ∃ q', t !! k = Some q' ∧ f q' = f q).
  { intros k q. destruct (decide (i = k)) as [<-|Hne].
    - rewrite list_lookup_alter, decide_True, Hp by done. cbn. intros [= <-]. by exists p.
    - rewrite list_lookup_alter_ne by done. intros H. by exists q. }
  assert (E' : ∀ k q, t !! k = Some q → ∃ q', alter (λ _, p') i t !! k = Some q' ∧ f q' = f q).
  { intros k q Hq. destruct (decide (i = k)) as [<-|Hne].
    - exists p'. rewrite list_lookup_alter, decide_True, Hp by done. rewrite Hp in Hq. by injection Hq as <-.
    - exists q. by rewrite list_lookup_alter_ne by done. }
  split.
  - intros (q & Hq & Hfq & Hb). destruct (E _ _ Hq) as (q' & Hq' & Ef). exists q'. split_and!; [done|congruence|].
    intros k r Hr Hk. destruct (E' _ _ Hr) as (r' & Hr' & <-). by eapply Hb.
  - intros (q & Hq & Hfq & Hb). destruct (E' _ _ Hq) as (q' & Hq' & Ef). exists q'. split_and!; [done|congruence|].
    intros k r Hr Hk. destruct (E _ _ Hr) as (r' & Hr' & <-). by eapply Hb.
Qed.
Lemma by_fd_alter t i p p' fd : t !! i = Some p → keeps p p' → alr_pts_by_fd (alter (λ _, p') i t) fd = alr_pts_by_fd t fd.
Proof.
  intros Hp (H1 & H2 & H3 & H4 & _). unfold alr_pts_by_fd. destruct (fd <? 0); [done|].
  rewrite (find_alter (holds_fd fd) t i p p') by (done || unfold holds_fd; by rewrite H1, H3, H4).
  destruct (find_index _ t) as [j|]; [|done]. cbn. destruct (decide (i = j)) as [<-|Hne].
  - rewrite list_lookup_alter, decide_True, Hp by done. cbn. by rewrite H3.
  - by rewrite list_lookup_alter_ne by done.
Qed.

(** The number of a terminal survives its name. *)
Lemma name_number i : (i < ALR_PTS_MAX)%nat → let name := PTS ++ to_string (Z.of_nat i) in
  alr_pts_parse_slave_path name = Some (Z.of_nat i) ∧ alr_pts_is_ptmx_path name = false ∧ head name = Some "/"%byte ∧ (length name < 32)%nat.
Proof.
  intros Hi. assert (H : Forall (λ i, alr_pts_parse_slave_path (PTS ++ to_string (Z.of_nat i)) = Some (Z.of_nat i) ∧
    alr_pts_is_ptmx_path (PTS ++ to_string (Z.of_nat i)) = false ∧ head (PTS ++ to_string (Z.of_nat i)) = Some "/"%byte ∧
    (length (PTS ++ to_string (Z.of_nat i)) < 32)%nat) (seq 0 ALR_PTS_MAX)).
  { apply (bool_decide_unpack _). by vm_compute. }
  rewrite Forall_forall in H. apply H. apply elem_of_seq. lia.
Qed.
(** A terminal is opened by its name.  In every state a process reaches that opens only
    terminals it knows, with whatever the kernel answered, the name [ptsname_r] gives for a
    master fits 32 bytes, and opening it duplicates the other end of exactly that
    terminal, with the close-on-exec flag asked for, or fails with the error of the kernel. *)
Theorem opened_by_name s m i p k flags :
  reach s → alr_pts_by_fd (tab s) m = Some (i, true) → tab s !! i = Some p →
  ∃ name, ptsname_r s m (Some 32%nat) = Some (inr name) ∧
    alr_pts_try_open k s name flags =
      match k_dup k (slave_fd p) (negb (Z.land flags O_CLOEXEC =? 0)) with
      | inl e => (s, Some (inl e), [])
      | inr fd => (update s i with_opened, Some (inr fd), [])
      end.
Proof.
  intros Hs Hm Hp. destruct (reach_wf s Hs) as [Hl Hw]. destruct (by_fd_slot _ _ _ _ Hm) as (q & Hq & Hu & _). rewrite Hp in Hq. injection Hq as <-.
  destruct (Hw i p Hp) as [_ Hn]. specialize (Hn Hu). assert (Hi : (i < ALR_PTS_MAX)%nat) by (rewrite <- Hl; by eapply lookup_lt_Some).
  destruct (name_number i Hi) as (N1 & N2 & N3 & N4). exists (PTS ++ to_string (Z.of_nat i)). unfold ptsname_r. rewrite Hm. cbn [mbind option_bind]. rewrite Hp. cbn [mbind option_bind negb]. unfold pts_name. rewrite Hn. cbv zeta in *.
  rewrite decide_False by lia. split; [done|]. unfold alr_pts_try_open. rewrite (bool_decide_true _ N3), N2, N1. cbn [negb].
  assert (alr_pts_by_ptn (tab s) (Z.of_nat i) = Some i) as ->.
  { unfold alr_pts_by_ptn. rewrite (proj2 (Z.ltb_ge _ _)) by lia. apply find_index_Some. exists p. rewrite Hu, Hn, Z.eqb_refl. split_and!; [done|done|].
    intros j q Hj Hlt. destruct (used q) eqn:Eu; [|done]. destruct (Hw j q Hj) as [_ Hnq]. rewrite (Hnq Eu). cbn. apply Z.eqb_neq. lia. }
  unfold alr_pts_dup_slave. rewrite Hp. by destruct (k_dup k (slave_fd p) _).
Qed.

(** A request that sets, the request that reads it back, and the bytes they move. *)
Definition setting (set_ get_ : Z) (n : nat) : Prop :=
  (set_, get_, n) ∈ [(TCSETS, TCGETS, 36%nat); (TCSETSW, TCGETS, 36%nat); (TCSETSF, TCGETS, 36%nat); (ALR_TCSETS2, ALR_TCGETS2, 44%nat);
    (ALR_TCSETSW2, ALR_TCGETS2, 44%nat); (ALR_TCSETSF2, ALR_TCGETS2, 44%nat); (TIOCSWINSZ, TIOCGWINSZ, 8%nat); (TIOCSPGRP, TIOCGPGRP, 4%nat)].
Ltac known_request :=
  repeat match goal with |- context [?a =? ?b] => let v := eval vm_compute in (a =? b) in change (a =? b) with v end; cbn [negb orb]; cbv iota.
(** What is set is what is read back. *)
Lemma stores_back {A} p (r : rd A) set enc n t buf (show : alr_pty → bytes) :
  reads r n enc → (∀ v, show (set v p) = enc v) → (n ≤ length t)%nat → (n ≤ length buf)%nat →
  (∀ v s s', r s = Some (v, s') → keeps p (set v p)) →
  ∃ p', stores p r set t = Some (0, p', Some t) ∧ answers p' (show p') buf = Some (0, p', Some (take n t ++ drop n buf)) ∧ keeps p p'.
Proof.
  intros Hr Hs Ht Hb Hk. pose proof (Hr t) as H. unfold stores, get. destruct (r t) as [[v s']|] eqn:E; [|lia]. destruct H as (_ & Ev & _).
  exists (set v p). split; [done|]. split; [|by eapply Hk]. unfold answers. rewrite Hs, Ev, put_spec.
  rewrite length_take_le by done. rewrite decide_False by lia. done.
Qed.
Lemma emulate_back p m1 m2 set_ get_ n t buf : used p = true → setting set_ get_ n → (n ≤ length t)%nat → (n ≤ length buf)%nat →
  ∃ p', alr_pts_emulate_ioctl p m1 set_ (Some t) = Some (0, p', Some t) ∧
    alr_pts_emulate_ioctl p' m2 get_ (Some buf) = Some (0, p', Some (take n t ++ drop n buf)) ∧ keeps p p'.
Proof.
  intros Hu Hs Ht Hb.
  unfold setting in Hs. rewrite !elem_of_cons, elem_of_nil in Hs.
  assert (Hk : ∀ isp osp v s s', rd_k isp osp s = Some (v, s') → keeps p (with_tio v p)) by (intros isp osp v s s' E; destruct p; split_and!; try done; intros _; by eapply read_ok).
  assert (Hk2 : ∀ v s s', rd_k2 s = Some (v, s') → keeps p (with_tio v p)) by (intros v s s' E; destruct p; split_and!; try done; intros _; by eapply read_ok2).
  assert (Hw : ∀ v, keeps p (with_win v p)) by (intros v; by destruct p). assert (Hg : ∀ v, keeps p (with_pgrp v p)) by (intros v; by destruct p).
  destruct_or? Hs; simplify_eq;
    (first [destruct (stores_back p (rd_k (c_ispeed (tio p)) (c_ospeed (tio p))) with_tio enc_k 36 t buf (λ q, enc_k (tio q)) (reads_k _ _) ltac:(done) Ht Hb (Hk _ _)) as (p' & E1 & E2 & E3)
           |destruct (stores_back p rd_k2 with_tio enc_k2 44 t buf (λ q, enc_k2 (tio q)) reads_k2 ltac:(done) Ht Hb Hk2) as (p' & E1 & E2 & E3)
           |destruct (stores_back p rd_win with_win enc_win 8 t buf (λ q, enc_win (win q)) reads_win ltac:(done) Ht Hb (λ v _ _ _, Hw v)) as (p' & E1 & E2 & E3)
           |destruct (stores_back p rd_i32 with_pgrp (le_bytes 4) 4 t buf (λ q, le_bytes 4 (pgrp q)) reads_i32 ltac:(done) Ht Hb (λ v _ _ _, Hg v)) as (p' & E1 & E2 & E3)]);
    exists p'; (split_and!; [| |exact E3]); destruct E3 as (Hu' & _); unfold alr_pts_emulate_ioctl; cbv zeta; rewrite ?Hu', Hu; known_request; assumption.
Qed.
(** The two ends of a terminal share its settings.  Termios in either form, the window
    size and the foreground group, set through one descriptor of a terminal, are what a
    request through any descriptor of it reads back, byte for byte; the rest of the
    reader's buffer, the other terminals and which descriptor belongs to which stay as they were. *)
Theorem settings_shared k s a b i ma mb set_ get_ n t buf :
  reach s → alr_pts_by_fd (tab s) a = Some (i, ma) → alr_pts_by_fd (tab s) b = Some (i, mb) → setting set_ get_ n →
  (n ≤ length t)%nat → (n ≤ length buf)%nat →
  ∃ s', ioctl k s a set_ 0 (Some t) = Some (s', Done 0, Some t) ∧ ioctl k s' b get_ 0 (Some buf) = Some (s', Done 0, Some (take n t ++ drop n buf)) ∧
    (∀ j, j ≠ i → tab s' !! j = tab s !! j) ∧ (∀ fd, alr_pts_by_fd (tab s') fd = alr_pts_by_fd (tab s) fd).
Proof.
  intros Hr Ha Hb Hset Ht Hbuf. destruct (by_fd_slot _ _ _ _ Ha) as (p & Hp & Hu & _).
  destruct (emulate_back p ma mb set_ get_ n t buf Hu Hset Ht Hbuf) as (p' & E1 & E2 & Hk).
  set (e := if (set_ =? TIOCSWINSZ) && ma then <[str "ALR_PTY_WINSZ" := take 23 (winsize_text (win p'))]> (env s) else env s).
  set (s' := mk_process (alter (λ _, p') i (tab s)) (active s) (minted s) e). exists s'.
  assert (Hfd : ∀ fd, alr_pts_by_fd (tab s') fd = alr_pts_by_fd (tab s) fd) by (intros fd; by apply (by_fd_alter _ _ p)).
  assert (Hn : (0 =? ALR_PTS_IOCTL_GPTPEER) = false ∧ (0 =? ALR_PTS_IOCTL_PASS) = false ∧ (0 <? 0) = false) by done. destruct Hn as (N1 & N2 & N3).
  split_and!; [| |intros j Hj; cbn; by rewrite list_lookup_alter_ne by done|done].
  - unfold ioctl. rewrite Ha, Hp. cbn [mbind option_bind]. rewrite E1. cbn [mbind option_bind]. rewrite N1, N2, N3. subst s' e. unfold update, with_tab. cbn [tab active minted env].
    by destruct ((set_ =? TIOCSWINSZ) && ma).
  - assert (Hp' : tab s' !! i = Some p') by (cbn; by rewrite list_lookup_alter, decide_True, Hp by done).
    assert (Eg : (get_ =? TIOCSWINSZ) = false).
    { unfold setting in Hset. rewrite !elem_of_cons, elem_of_nil in Hset. destruct_or? Hset; simplify_eq; done. }
    unfold ioctl. rewrite Hfd, Hb, Hp'. cbn [mbind option_bind]. rewrite E2. cbn [mbind option_bind]. rewrite N1, N2, N3, Eg. cbn [andb].
    assert (update s' i (λ _, p') = s') as ->; [|done]. unfold update, with_tab. subst s'. cbn [tab active minted env]. f_equal.
    apply list_eq. intros j. destruct (decide (i = j)) as [<-|Hne]; [by rewrite !list_lookup_alter, !decide_True, Hp by done|by rewrite !list_lookup_alter_ne].
Qed.

(** * Concrete runs *)

Definition fds (m sl d : Z) : kernel := mk_kernel (inr (m, sl)) (λ _ _, inr d) (λ _, true).
Definition minted_once : process := fst (fst (alr_pts_mint (fds 3 4 5) false (started ∅))).
Lemma opened_by_name_witness : alr_pts_by_fd (tab minted_once) 3 = Some (0%nat, true) ∧
  ∃ name, ptsname_r minted_once 3 (Some 32%nat) = Some (inr name) ∧
    alr_pts_try_open (fds 3 4 5) minted_once name 0 = (update minted_once 0 with_opened, Some (inr 5), []).
Proof.
  split; [by vm_compute|]. apply (opened_by_name minted_once 3 0 (new_pty 0 3 4 true false init_winsize) (fds 3 4 5) 0).
  - apply (R_step (fds 3 4 5) (started ∅)); [apply R_start|apply (S_mint (fds 3 4 5) false (started ∅))].
  - by vm_compute.
  - by vm_compute.
Defined.
Lemma settings_shared_witness : ∃ s',
  ioctl (fds 3 4 5) minted_once 3 TIOCSWINSZ 0 (Some (enc_win (mk_win 50 132 0 0))) = Some (s', Done 0, Some (enc_win (mk_win 50 132 0 0))) ∧
  ioctl (fds 3 4 5) s' 4 TIOCGWINSZ 0 (Some (replicate 9 nul)) = Some (s', Done 0, Some (enc_win (mk_win 50 132 0 0) ++ [nul])).
Proof.
  destruct (settings_shared (fds 3 4 5) minted_once 3 4 0 true false TIOCSWINSZ TIOCGWINSZ 8 (enc_win (mk_win 50 132 0 0)) (replicate 9 nul)) as (s' & H1 & H2 & _).
  - apply (R_step (fds 3 4 5) (started ∅)); [apply R_start|apply (S_mint (fds 3 4 5) false (started ∅))].
  - by vm_compute.
  - by vm_compute.
  - unfold setting. by do 6 right; left.
  - by apply (Nat.leb_le _ _).
  - by apply (Nat.leb_le _ _).
  - exists s'. split; [exact H1|exact H2].
Defined.

(** [openpty] sets the termios and the size on the new slave, which is not in the table: both
    are lost, as is every later request on that slave in the process that made it. *)
Example openpty_loses_settings :
  ∃ s, openpty (fds 3 4 5) (started ∅) (Some (mk_tio 0 0 0 0 0 (replicate 32 nul) 0 0)) (Some (mk_win 50 132 0 0)) true =
      Some (s, inr (3, 5, Some (str "/dev/pts/0")), [Written (mint_marker 0 3 0)]) ∧
    tio <$> tab s !! 0%nat = Some init_termios ∧ win <$> tab s !! 0%nat = Some init_winsize ∧ snd (answered_here (fds 3 4 5) s 5) = false.
Proof. eexists. split; [vm_compute; reflexivity|]. by vm_compute. Qed.
(** A child opens its terminal by name and closes it again: the next file with that number is
    still taken for a terminal. *)
Definition child : process := started (<[str "ALR_PTY_ACTIVE" := str "1"]> {[str "ALR_PTY_SLAVE_0" := str "4"]}).
Example closed_slave_stays :
  let '(s, r, _) := alr_pts_try_open (fds 3 4 5) child (str "/dev/pts/0") 0 in
  r = Some (inr 5) ∧ snd (answered_here (fds 3 4 5) (close s 5) 5) = true.
Proof. by vm_compute. Qed.
(** Two terminals are made and closed, the second is opened once more by its name, and then a
    new one is made: it gets the same number, and its name opens the old one. *)
Example number_given_twice :
  let s := minted_once in
  let s := fst (fst (alr_pts_mint (fds 6 7 8) false s)) in
  let s := close (close s 3) 6 in
  let s := fst (fst (alr_pts_try_open (fds 3 4 5) s (str "/dev/pts/1") 0)) in
  let '(s, r, _) := alr_pts_mint (fds 10 11 12) false s in
  r = inr (10, 1) ∧ alr_pts_by_ptn (tab s) 1 = Some 0%nat ∧ alr_pts_by_fd (tab s) 10 = Some (1%nat, true).
Proof. by vm_compute. Qed.
