(* ===== verification/AppPath.v ===== *)
(** * The path wrappers of the app's interposer

    From [alr_interpose/libalr_interpose.c]: the state the constructor computes from the
    environment, the rewriting of a path ([rw], [guest_canon]), the wrappers of libc that
    take a path, those of [bind], [connect] and [dlopen], and the answers of the credential
    calls.  A wrapper is a computation over the calls it has made: a call goes out through
    the trampoline, with its raw answer, or to the next definition in libc.  Both are
    arguments and see all calls made before.  The terminals are those of [AppPty]. *)

From S2P Require Import Prelude CppMap Bytes Wire AppFilter AppPty.

Local Open Scope Z_scope.

(** ** Paths and the state *)

(** [a_under] *)
Fixpoint a_under (p d : bytes) : bool :=
  match d, p with
  | [], [] => true
  | [], c :: _ => bool_decide (c = slash)
  | _ :: _, [] => false
  | b :: d', c :: p' => bool_decide (c = b) && a_under p' d'
  end.

(** What the constructor leaves: [g_rootfs], its alias, [g_guest_exe] with their lengths,
    and the switches. *)
Record interposer := mk_interposer {
  rootfs : bytes; rootfs_canon : bytes; guest_exe : bytes; pcgate : bool; diag : bool;
  rootfs_fd : Z; openat2_ok : bool; faccessat2_ok : bool }.

(** [alr_init]: the first [cap - 1] bytes of the path without its final slashes. *)
Definition NAME_CAP : nat := 1024.
Definition init_rootfs (r : option bytes) : bytes :=
  match r with
  | Some (c :: t) =>
      if negb (bool_decide (c = slash)) then []
      else let n := take (NAME_CAP - 1) (c :: trim_end (λ b, bool_decide (b = slash)) t) in
           if bool_decide (n = [slash]) then [] else n
  | _ => []
  end.
Definition kPerUser : bytes := str "/data/user/0/".
Definition kCanon : bytes := str "/data/data/".
Definition init_canon (root : bytes) : bytes :=
  if bool_decide (length kPerUser < length root)%nat && is_prefix kPerUser root then
    let rest := drop (length kPerUser) root in
    if bool_decide (length kCanon + length rest < NAME_CAP)%nat then kCanon ++ rest else []
  else [].
Definition init_exe (e : option bytes) : bytes :=
  match e with Some (c :: t) => if bool_decide (c = slash) then take (NAME_CAP - 1) (c :: t) else [] | _ => [] end.

(** [alr_probe_guarded]: whether the handler is in place, and the answer unless the call trapped. *)
Definition ENOSYS : Z := 38.
Definition alr_probe_guarded (handler : Z) (answer : option Z) : Z :=
  if negb (handler =? 0) then - ENOSYS else default (- ENOSYS) answer.
(** [alr_open_rootfs_fd]: the anchor, and whether openat2 works on it. *)
Definition alr_open_rootfs_fd (fd probe : Z) : Z * bool := if 0 <=? fd then (fd, 0 <=? probe) else (-1, false).
(** [alr_ctor]: the state, and the calls that install the filter; the answers are those to the
    opening of the anchor, to the two probes and to the installation. *)
Definition set_flag (v : option bytes) : bool := match v with Some (c :: _) => negb (bool_decide (c = "0"%byte)) | _ => false end.
Definition alr_ctor (env : gmap bytes bytes) (lo hi fd : Z) (probe_open probe_access : Z * option Z) (tsync_ok filter_ok : bool) :
    interposer * list install_call :=
  let root := init_rootfs (env !! str "ALR_ROOTFS") in
  let gate := negb (bool_decide (head <$> (env !! str "ALR_PCGATE") = Some (Some "0"%byte))) in
  let guarded p := alr_probe_guarded (fst p) (snd p) in
  let '(anchor, o2) := if bool_decide (root = []) then (-1, false) else alr_open_rootfs_fd fd (guarded probe_open) in
  (mk_interposer root (init_canon root) (init_exe (env !! str "ALR_GUEST_EXE")) gate (set_flag (env !! str "ALR_INTERPOSE_DIAG"))
     anchor o2 (negb (guarded probe_access =? - ENOSYS)),
   if gate && negb (hi <=? lo) then alr_install_pcgated_filter tsync_ok filter_ok else []).

Definition kernel_fs (p : bytes) : bool := a_under p (str "/proc") || a_under p (str "/sys") || a_under p (str "/dev").
Definition already_host (s : interposer) (p : bytes) : bool :=
  a_under p (rootfs s) || (negb (bool_decide (rootfs_canon s = [])) && a_under p (rootfs_canon s)).
(** [rw], into a buffer of so many bytes; inside [realpath] it is switched off. *)
Definition ALR_PBUF : nat := 2304.
Definition rw_path (s : interposer) (suppress : Z) (cap : nat) (p : bytes) : bytes :=
  if negb (starts_slash p) then p
  else if negb (suppress =? 0) then p
  else if bool_decide (rootfs s = []) then p
  else if kernel_fs p then p
  else if already_host s p then p
  else if (cap <? length (rootfs s) + length p + 1)%nat then p
  else rootfs s ++ p.
Definition rw (s : interposer) (p : option bytes) : option bytes := rw_path s 0 ALR_PBUF <$> p.
(** [(path && path[0] == '/') ? rw(path, b, sizeof b) : path] *)
Definition rw_abs (s : interposer) (p : option bytes) : option bytes :=
  match p with Some q => if starts_slash q then rw s (Some q) else Some q | None => None end.
(** [guest_canon] *)
Definition strip (n : nat) (p : bytes) : bytes := match drop n p with [] => [slash] | r => r end.
Definition guest_canon (s : interposer) (p : bytes) : bytes :=
  if negb (starts_slash p) then p
  else if negb (bool_decide (rootfs s = [])) && a_under p (rootfs s) then strip (length (rootfs s)) p
  else if negb (bool_decide (rootfs_canon s = [])) && a_under p (rootfs_canon s) then strip (length (rootfs_canon s)) p
  else p.

(** ** Calls *)

Inductive arg :=
| N (z : Z)                      (** a number *)
| P (p : option bytes)           (** a path to resolve, or a null pointer *)
| T (t : bytes)                  (** text *)
| A (family : Z) (raw : bytes).  (** a socket address *)
Inductive call := Tramp (nr : Z) (a : list arg) | Libc (name : bytes) (a : list arg).

(** The calls made, the process that holds the terminals, and what else it did. *)
Record world := mk_world { trace : list call; ptys : process; others : list effect }.
Definition io (A : Type) : Type := world → A * world.
#[export] Instance io_ret : MRet io := λ A a w, (a, w).
#[export] Instance io_bind : MBind io := λ A B f m w, let '(a, w) := m w in f a w.

(** A result: the error number, or the value. *)
Definition result : Type := Z + Z.
(** [alr_ret] *)
Definition alr_ret (r : Z) : result := if (r <? 0) && (-4095 <=? r) then inl (- r) else inr r.

Definition AT_FDCWD : Z := -100.
Definition AT_SYMLINK_NOFOLLOW : Z := 0x100.
Definition AT_REMOVEDIR : Z := 0x200.
Definition AT_EACCESS : Z := 0x200.
Definition O_WRONLY : Z := 1.
Definition O_RDWR : Z := 2.
Definition O_CREAT : Z := 0x40.
Definition O_EXCL : Z := 0x80.
Definition O_TRUNC : Z := 0x200.
Definition O_APPEND : Z := 0x400.
Definition O_NONBLOCK : Z := 0x800.
Definition O_DIRECTORY : Z := 0x4000.
Definition O_TMPFILE : Z := 0x404000.
Definition RESOLVE_IN_ROOT : Z := 0x10.
Definition NR_close : Z := 57.
Definition NR_write : Z := 64.
Definition EPERM : Z := 1.
Definition EACCES : Z := 13.
Definition EISDIR : Z := 21.

Section Wrappers.
Context (s : interposer) (pk : kernel).
Context (kern : list call → call → Z) (libc : list call → call → result) (libc_text : list call → call → Z + bytes).

Definition tramp (nr : Z) (a : list arg) : io Z := λ w,
  (kern (trace w) (Tramp nr a), mk_world (trace w ++ [Tramp nr a]) (ptys w) (others w)).
Definition next (name : bytes) (a : list arg) : io result := λ w,
  (libc (trace w) (Libc name a), mk_world (trace w ++ [Libc name a]) (ptys w) (others w)).
Definition next_text (name : bytes) (a : list arg) : io (Z + bytes) := λ w,
  (libc_text (trace w) (Libc name a), mk_world (trace w ++ [Libc name a]) (ptys w) (others w)).
Definition emit (nr : Z) (a : list arg) : io result := r ← tramp nr a; mret (alr_ret r).

(** [alr_emit_fd2], [alr_diag] *)
Definition alr_emit_fd2 (t : bytes) : io unit := _ ← tramp NR_write [N 2; T t; N (Z.of_nat (length t))]; mret tt.
Definition LINE_CAP : nat := 1280.
Definition put (cap : nat) (line t : bytes) : bytes := line ++ take (cap - length line) t.
Definition spaced (line : bytes) (t : option bytes) : bytes :=
  match t with Some t => put (LINE_CAP - 1) (put (LINE_CAP - 1) line (str " ")) t | None => line end.
Definition diag_line (tag : bytes) (a b : option bytes) (r : Z) : bytes :=
  let l := put (LINE_CAP - 1) (put (LINE_CAP - 1) [] (str "ALR-IDIAG ")) tag in
  let l := spaced (spaced l a) b in
  let l := if (length l <? LINE_CAP - 3)%nat then l ++ str " =" else l in
  let l := put (LINE_CAP - 1) l (to_string r) in
  if (length l <? LINE_CAP)%nat then l ++ [newline] else l.
Definition alr_diag (tag : bytes) (a b : option bytes) (r : Z) : io unit :=
  if diag s then alr_emit_fd2 (diag_line tag a b r) else mret tt.
(** The result of a call as the line shows it. *)
Definition shown (r : result) : Z := match r with inl e => - e | inr _ => 0 end.
Definition rewritten (path p : option bytes) : option bytes := if bool_decide (p = path) then Some (str "(norw)") else p.

(** ** The open family *)

(** [alr_va_mode]: the mode in the third argument. *)
Definition alr_va_mode (flags mode : Z) : Z := if Z.land flags (Z.lor O_CREAT O_TMPFILE) =? 0 then 0 else u32 mode.
(** The terminals first. *)
Definition try_pty (path : option bytes) (flags : Z) : io (option result) := λ w,
  match path with
  | None => (None, w)
  | Some p => let '(q, r, es) := alr_pts_try_open pk (ptys w) p flags in (r, mk_world (trace w) q (others w ++ es))
  end.
Definition anchored (path : bytes) : bool :=
  openat2_ok s && (0 <=? rootfs_fd s) && starts_slash path && negb (kernel_fs path) && negb (already_host s path).
Definition below_anchor (path : bytes) : bytes := match path with _ :: ((_ :: _) as r) => r | _ => str "." end.
Definition alr_open_emit (dirfd : Z) (path : option bytes) (flags mode : Z) : io result :=
  t ← try_pty path flags;
  match t with
  | Some r => mret r
  | None =>
      match (if anchored (default [] path) then path else None) with
      | Some p =>
          let m := if Z.land flags (Z.lor O_CREAT O_TMPFILE) =? 0 then 0 else mode in
          r ← tramp NR_openat2 [N (rootfs_fd s); P (Some (below_anchor p)); N (u32 flags); N m; N RESOLVE_IN_ROOT];
          _ ← (if Z.land flags O_CREAT =? 0 then mret tt
               else alr_diag (str "abscreat-o2") path (Some (below_anchor p)) (if (r <? 0) && (-4095 <=? r) then r else 0));
          mret (alr_ret r)
      | None =>
          r ← tramp NR_openat [N dirfd; P (rw_abs s path); N flags; N mode];
          _ ← (if negb (bool_decide (path = None)) && negb (starts_slash (default [] path)) && (dirfd =? AT_FDCWD) && negb (Z.land flags O_CREAT =? 0)
               then alr_diag (str "relcreat") path (Some (str "AT_FDCWD")) (if (r <? 0) && (-4095 <=? r) then r else 0) else mret tt);
          mret (alr_ret r)
      end
  end.
(** In the ungated mode the terminals come first too, then libc. *)
Definition pty_or (path : option bytes) (flags : Z) (k : io result) : io result :=
  t ← try_pty path flags; match t with Some r => mret r | None => k end.
(** [open], [open64] *)
Definition open (name : bytes) (path : option bytes) (flags mode : Z) : io result :=
  let m := alr_va_mode flags mode in
  if pcgate s then alr_open_emit AT_FDCWD path flags m
  else pty_or path flags (next name [P (rw s path); N flags; N m]).
(** [__open_2], [__open64_2] *)
Definition open_2 (name : bytes) (path : option bytes) (flags : Z) : io result :=
  if pcgate s then alr_open_emit AT_FDCWD path flags 0 else next name [P (rw s path); N flags].
(** [openat], [openat64], with [alr_openat] *)
Definition openat (name : bytes) (dirfd : Z) (path : option bytes) (flags mode : Z) : io result :=
  let m := alr_va_mode flags mode in
  if pcgate s then alr_open_emit dirfd path flags m
  else pty_or path flags (next name [N dirfd; P (rw_abs s path); N flags; N m]).
(** [__openat_2], [__openat64_2] *)
Definition openat_2 (name : bytes) (dirfd : Z) (path : option bytes) (flags : Z) : io result :=
  if pcgate s then alr_open_emit dirfd path flags 0 else next name [N dirfd; P (rw_abs s path); N flags].
(** [creat], [creat64] *)
Definition creat (name : bytes) (path : option bytes) (mode : Z) : io result :=
  if pcgate s then alr_open_emit AT_FDCWD path (Z.lor (Z.lor O_CREAT O_WRONLY) O_TRUNC) mode else next name [P (rw s path); N mode].

(** ** Status, access and links *)

Definition alr_stat_emit (dirfd : Z) (path : option bytes) (flags : Z) : io result := emit NR_newfstatat [N dirfd; P (rw_abs s path); N flags].
Definition alr_statx_emit (dirfd : Z) (path : option bytes) (flags mask : Z) : io result :=
  emit NR_statx [N dirfd; P (rw_abs s path); N flags; N mask].
(** [ALR_WRAP_STAT] *)
Definition stat (name : bytes) (nofollow : Z) (path : option bytes) : io result :=
  if pcgate s then alr_stat_emit AT_FDCWD path nofollow else next name [P (rw s path)].
(** [__xstat] and its kin *)
Definition xstat (name : bytes) (nofollow ver : Z) (path : option bytes) : io result :=
  if pcgate s then alr_stat_emit AT_FDCWD path nofollow else next name [N ver; P (rw s path)].
(** [fstatat], [fstatat64], [newfstatat] *)
Definition fstatat (name : bytes) (dirfd : Z) (path : option bytes) (flags : Z) : io result :=
  if pcgate s then alr_stat_emit dirfd path flags else next name [N dirfd; P (rw_abs s path); N flags].
(** [__fxstatat], [__fxstatat64] *)
Definition fxstatat (name : bytes) (ver dirfd : Z) (path : option bytes) (flags : Z) : io result :=
  if pcgate s then alr_stat_emit dirfd path flags else next name [N ver; N dirfd; P (rw_abs s path); N flags].
Definition statx (dirfd : Z) (path : option bytes) (flags mask : Z) : io result :=
  if pcgate s then alr_statx_emit dirfd path flags mask else next (str "statx") [N dirfd; P (rw_abs s path); N flags; N mask].
(** [statvfs], [statvfs64], [statfs], [statfs64] *)
Definition statfs (name : bytes) (path : option bytes) : io result := next name [P (rw_abs s path)].

Definition alr_access_emit (dirfd : Z) (path : option bytes) (mode flags : Z) : io result :=
  if negb (flags =? 0) && faccessat2_ok s then emit NR_faccessat2 [N dirfd; P (rw_abs s path); N mode; N flags]
  else emit NR_faccessat [N dirfd; P (rw_abs s path); N mode; N 0].
Definition access (path : option bytes) (mode : Z) : io result :=
  if pcgate s then alr_access_emit AT_FDCWD path mode 0 else next (str "access") [P (rw s path); N mode].
(** [euidaccess], [eaccess] *)
Definition eaccess (name : bytes) (path : option bytes) (mode : Z) : io result :=
  if pcgate s then alr_access_emit AT_FDCWD path mode (if faccessat2_ok s then AT_EACCESS else 0) else next name [P (rw s path); N mode].
Definition faccessat (dirfd : Z) (path : option bytes) (mode flags : Z) : io result :=
  if pcgate s then alr_access_emit dirfd path mode flags else next (str "faccessat") [N dirfd; P (rw_abs s path); N mode; N flags].
Definition faccessat2 (dirfd : Z) (path : option bytes) (mode flags : Z) : io result :=
  if pcgate s then emit NR_faccessat2 [N dirfd; P (rw_abs s path); N mode; N flags]
  else next (str "faccessat2") [N dirfd; P (rw_abs s path); N mode; N flags].

(** A link's text, when it is answered here: the bytes placed in the buffer. *)
Definition alr_readlink_emit (dirfd : Z) (path : option bytes) (bufsiz : nat) : io (result * option bytes) :=
  if negb (bool_decide (guest_exe s = [])) && (bool_decide (path = Some (str "/proc/self/exe")) || bool_decide (path = Some (str "/proc/self/exe/"))) then
    let t := take bufsiz (guest_exe s) in mret (inr (Z.of_nat (length t)), Some t)
  else r ← emit NR_readlinkat [N dirfd; P (rw_abs s path); N (Z.of_nat bufsiz)]; mret (r, None).
Definition kernel_text (m : io result) : io (result * option bytes) := r ← m; mret (r, None).
Definition readlink (path : option bytes) (bufsiz : nat) : io (result * option bytes) :=
  if pcgate s then alr_readlink_emit AT_FDCWD path bufsiz else kernel_text (next (str "readlink") [P (rw s path); N (Z.of_nat bufsiz)]).
Definition readlinkat (dirfd : Z) (path : option bytes) (bufsiz : nat) : io (result * option bytes) :=
  if pcgate s then alr_readlink_emit dirfd path bufsiz else kernel_text (next (str "readlinkat") [N dirfd; P (rw_abs s path); N (Z.of_nat bufsiz)]).
(** [__readlink_chk], [__readlinkat_chk] *)
Definition readlink_chk (path : option bytes) (bufsiz buflen : nat) : io (result * option bytes) :=
  if (buflen <? bufsiz)%nat then mret (inl EINVAL, None)
  else if pcgate s then alr_readlink_emit AT_FDCWD path bufsiz
  else kernel_text (next (str "__readlink_chk") [P (rw s path); N (Z.of_nat bufsiz); N (Z.of_nat buflen)]).
Definition readlinkat_chk (dirfd : Z) (path : option bytes) (bufsiz buflen : nat) : io (result * option bytes) :=
  if (buflen <? bufsiz)%nat then mret (inl EINVAL, None)
  else if pcgate s then alr_readlink_emit dirfd path bufsiz
  else kernel_text (next (str "__readlinkat_chk") [N dirfd; P (rw_abs s path); N (Z.of_nat bufsiz); N (Z.of_nat buflen)]).

(** ** Directories and streams *)

(** A descriptor that libc takes over, or that is closed with libc's error. *)
Definition take_over (name : bytes) (a : list arg) (fd : Z) : io result :=
  r ← next name (N fd :: a);
  match r with
  | inr v => mret (inr v)
  | inl e => _ ← tramp NR_close [N fd]; mret (inl e)
  end.
Definition opendir (path : option bytes) : io result :=
  if pcgate s then
    r ← alr_open_emit AT_FDCWD path (Z.lor (Z.lor O_NONBLOCK O_DIRECTORY) O_CLOEXEC) 0;
    match r with inl e => mret (inl e) | inr fd => take_over (str "fdopendir") [] fd end
  else next (str "opendir") [P (rw s path)].
(** [scandir], [scandir64] *)
Definition scandir (name : bytes) (path : option bytes) : io result := next name [P (rw s path)].

(** [alr_fopen_flags] *)
Fixpoint fopen_modifiers (flags : Z) (m : bytes) : option Z :=
  match m with
  | [] => Some flags
  | c :: m =>
      if bool_decide (c = "+"%byte) then fopen_modifiers (Z.lor (Z.ldiff flags O_WRONLY) O_RDWR) m
      else if bool_decide (c = "e"%byte) then fopen_modifiers (Z.lor flags O_CLOEXEC) m
      else if bool_decide (c = "x"%byte) then fopen_modifiers (Z.lor flags O_EXCL) m
      else if bool_decide (c ∈ str "bmct") then fopen_modifiers flags m
      else None
  end.
Definition fopen_base (c : byte) : option Z :=
  if bool_decide (c = "r"%byte) then Some 0
  else if bool_decide (c = "w"%byte) then Some (Z.lor (Z.lor O_WRONLY O_CREAT) O_TRUNC)
  else if bool_decide (c = "a"%byte) then Some (Z.lor (Z.lor O_WRONLY O_CREAT) O_APPEND)
  else None.
Definition alr_fopen_flags (mode : bytes) : option Z :=
  match mode with c :: m => flags ← fopen_base c; fopen_modifiers flags m | [] => None end.
(** [alr_fopen_emit]: nothing when libc is to do it. *)
Definition alr_fopen_emit (path : option bytes) (mode : bytes) : io (option result) :=
  match alr_fopen_flags mode with
  | Some flags =>
      if starts_slash (default [] path) then
        r ← alr_open_emit AT_FDCWD path flags (if Z.land flags O_CREAT =? 0 then 0 else 0x1b6);
        match r with inl e => mret (Some (inl e)) | inr fd => f ← take_over (str "fdopen") [T mode] fd; mret (Some f) end
      else mret None
  | None => mret None
  end.
(** [fopen], [fopen64] *)
Definition fopen (name : bytes) (path : option bytes) (mode : bytes) : io result :=
  f ← (if pcgate s then alr_fopen_emit path mode else mret None);
  match f with Some r => mret r | None => next name [P (rw s path); T mode] end.
(** [freopen], [freopen64] *)
Definition freopen (name : bytes) (path : option bytes) (mode : bytes) : io result := next name [P (rw_abs s path); T mode].

(** ** Changes of one path *)

Definition alr_mkdir_emit (dirfd : Z) (path : option bytes) (mode : Z) : io result := emit NR_mkdirat [N dirfd; P (rw_abs s path); N mode].
Definition mkdir (path : option bytes) (mode : Z) : io result :=
  if pcgate s then alr_mkdir_emit AT_FDCWD path mode else next (str "mkdir") [P (rw s path); N mode].
Definition mkdirat (dirfd : Z) (path : option bytes) (mode : Z) : io result :=
  if pcgate s then alr_mkdir_emit dirfd path mode else next (str "mkdirat") [N dirfd; P (rw_abs s path); N mode].
Definition alr_unlink_emit (dirfd : Z) (path : option bytes) (flags : Z) : io result := emit NR_unlinkat [N dirfd; P (rw_abs s path); N flags].
Definition rmdir (path : option bytes) : io result :=
  if pcgate s then alr_unlink_emit AT_FDCWD path AT_REMOVEDIR else next (str "rmdir") [P (rw s path)].
Definition unlink (path : option bytes) : io result :=
  if pcgate s then alr_unlink_emit AT_FDCWD path 0 else next (str "unlink") [P (rw s path)].
Definition unlinkat (dirfd : Z) (path : option bytes) (flags : Z) : io result :=
  if pcgate s then alr_unlink_emit dirfd path flags else next (str "unlinkat") [N dirfd; P (rw_abs s path); N flags].
Definition remove (path : option bytes) : io result :=
  if pcgate s then
    r ← alr_unlink_emit AT_FDCWD path 0;
    if bool_decide (r = inl EISDIR) then alr_unlink_emit AT_FDCWD path AT_REMOVEDIR else mret r
  else next (str "remove") [P (rw s path)].
Definition reported (tag : bytes) (path p : option bytes) (m : io result) : io result :=
  r ← m; _ ← alr_diag tag path (rewritten path p) (shown r); mret r.
Definition chdir (path : option bytes) : io result := reported (str "chdir") path (rw s path) (next (str "chdir") [P (rw s path)]).
Definition chmod (path : option bytes) (mode : Z) : io result := next (str "chmod") [P (rw s path); N mode].
Definition fchmodat (dirfd : Z) (path : option bytes) (mode flags : Z) : io result := next (str "fchmodat") [N dirfd; P (rw_abs s path); N mode; N flags].
Definition utime (path : option bytes) : io result := next (str "utime") [P (rw s path)].
Definition utimensat (dirfd : Z) (path : option bytes) (flags : Z) : io result :=
  reported (str "utimensat") path (rw_abs s path) (next (str "utimensat") [N dirfd; P (rw_abs s path); N flags]).
(** [utimes], [lutimes] *)
Definition utimes (name : bytes) (path : option bytes) : io result := reported name path (rw_abs s path) (next name [P (rw_abs s path)]).

(** ** Two paths, links and nodes *)

Definition rename (o n : option bytes) : io result := next (str "rename") [P (rw s o); P (rw s n)].
Definition renameat (ofd : Z) (o : option bytes) (nfd : Z) (n : option bytes) : io result :=
  next (str "renameat") [N ofd; P (rw_abs s o); N nfd; P (rw_abs s n)].
Definition renameat2 (ofd : Z) (o : option bytes) (nfd : Z) (n : option bytes) (flags : Z) : io result :=
  next (str "renameat2") [N ofd; P (rw_abs s o); N nfd; P (rw_abs s n); N flags].
(** Where hard links are refused, the file is renamed. *)
Definition refused (e : Z) : bool := (e =? EPERM) || (e =? EACCES).
Definition or_rename (e : Z) (tag : bytes) (o n : option bytes) (m : io result) : io result :=
  r ← m; match r with inr _ => _ ← alr_diag tag o n 0; mret (inr 0) | inl _ => mret (inl e) end.
Definition alr_link_emit (o n : option bytes) : io result :=
  r ← next (str "link") [P o; P n];
  match r with
  | inr _ => mret (inr 0)
  | inl e => if refused e then or_rename e (str "link->rename(EPERM)") o n (next (str "rename") [P o; P n]) else mret (inl e)
  end.
Definition link (o n : option bytes) : io result := alr_link_emit (rw s o) (rw s n).
Definition linkat (ofd : Z) (o : option bytes) (nfd : Z) (n : option bytes) (flags : Z) : io result :=
  let o := rw_abs s o in let n := rw_abs s n in
  r ← next (str "linkat") [N ofd; P o; N nfd; P n; N flags];
  match r with
  | inr _ => mret (inr 0)
  | inl e =>
      if refused e && (ofd =? AT_FDCWD) && (nfd =? AT_FDCWD)
      then or_rename e (str "linkat->renameat(EPERM)") o n (next (str "renameat") [N AT_FDCWD; P o; N AT_FDCWD; P n]) else mret (inl e)
  end.
Definition symlink (target : bytes) (path : option bytes) : io result := next (str "symlink") [T target; P (rw s path)].
Definition symlinkat (target : bytes) (nfd : Z) (path : option bytes) : io result := next (str "symlinkat") [T target; N nfd; P (rw_abs s path)].
(** [mknod], [mkfifo] *)
Definition mknod (path : option bytes) (mode dev : Z) : io result := next (str "mknod") [P (rw s path); N mode; N dev].
Definition mknodat (dirfd : Z) (path : option bytes) (mode dev : Z) : io result := next (str "mknodat") [N dirfd; P (rw_abs s path); N mode; N dev].
Definition mkfifo (path : option bytes) (mode : Z) : io result := next (str "mkfifo") [P (rw s path); N mode].
Definition mkfifoat (dirfd : Z) (path : option bytes) (mode : Z) : io result := next (str "mkfifoat") [N dirfd; P (rw_abs s path); N mode].
Definition name_to_handle_at (dirfd : Z) (path : option bytes) (flags : Z) : io result :=
  next (str "name_to_handle_at") [N dirfd; P (rw_abs s path); N flags].

(** [realpath], [canonicalize_file_name], [__realpath_chk] *)
Definition realpath (name : bytes) (path : option bytes) : io (Z + bytes) :=
  r ← next_text name [P (rw s path)];
  mret (match r with inr t => inr (guest_canon s t) | inl e => inl e end).

(** ** Libraries, sockets and credentials *)

(** [alr_basename_is] *)
Definition alr_basename_is (path want : bytes) : bool := bool_decide (List.last (split_on slash path) [] = want).
Definition kRel : bytes := str "/usr/lib/androlinux/libvulkan.so.1".
Definition dlopen (filename : option bytes) (flag : Z) : io result :=
  let plain := next (str "dlopen") [match filename with Some f => T f | None => N 0 end; N flag] in
  match filename with
  | Some f =>
      if negb (has_byte slash f) && negb (bool_decide (rootfs s = [])) && (alr_basename_is f (str "libvulkan.so.1") || alr_basename_is f (str "libvulkan.so"))
         && (length (rootfs s) + length kRel + 1 <=? ALR_PBUF)%nat then
        a ← next (str "faccessat") [N AT_FDCWD; P (Some (rootfs s ++ kRel)); N 0; N 0];
        if bool_decide (a = inr 0) then
          h ← next (str "dlopen") [P (Some (rootfs s ++ kRel)); N flag];
          _ ← alr_diag (str "dlopen vulkan->loader") filename (Some (rootfs s ++ kRel)) (match h with inr _ => 0 | inl _ => -1 end);
          match h with inr v => mret (inr v) | inl _ => plain end
        else plain
      else plain
  | None => plain
  end.

(** A socket address: the family and the bytes behind it. *)
Definition AF_UNIX : Z := 1.
Definition AF_NETLINK : Z := 16.
Definition SUN_PATH : nat := 108.
Definition sun_path (raw : bytes) : bytes := c_str (take SUN_PATH raw).
Definition SINGLETON : bytes := nul :: str "alr-chromium-process-singleton".
Definition alr_cr_singleton_xform (addr : option (Z * bytes)) : option (Z * bytes) :=
  '(family, raw) ← addr;
  if negb (family =? AF_UNIX) || bool_decide (rootfs s = []) || bool_decide (raw = []) || bool_decide (head raw = Some nul) then None
  else let p := sun_path raw in let suffix := str "/SingletonSocket" in
       if (length p <? length suffix)%nat || negb (bool_decide (drop (length p - length suffix) p = suffix)) then None
       else Some (AF_UNIX, SINGLETON).
Definition X11 : bytes := str "/tmp/.X11-unix/".
Definition alr_x11_sock_xform (addr : option (Z * bytes)) : option (Z * bytes) :=
  '(family, raw) ← addr;
  if negb (family =? AF_UNIX) || bool_decide (rootfs s = []) || bool_decide (raw = []) || bool_decide (head raw = Some nul) then None
  else let p := sun_path raw in
       if (length p <=? length X11)%nat || negb (is_prefix X11 p) then None
       else if (SUN_PATH <? length (rootfs s) + length p + 1)%nat then None
       else Some (AF_UNIX, rootfs s ++ p ++ [nul]).
Definition addr_arg (addr : option (Z * bytes)) : arg := match addr with Some (f, raw) => A f raw | None => N 0 end.
(** The transformed address first; a success is reported. *)
Definition first_bind (fd : Z) (addr : option (Z * bytes)) (tag note : bytes) : io bool :=
  match addr with
  | None => mret false
  | Some _ =>
      r ← next (str "bind") [N fd; addr_arg addr];
      if bool_decide (r = inr 0) then _ ← alr_diag tag (Some note) None 0; mret true else mret false
  end.
Definition bind (fd : Z) (addr : option (Z * bytes)) : io result :=
  c ← first_bind fd (alr_cr_singleton_xform addr) (str "cr-singleton bind->abstract") (str "SingletonSocket");
  if (c : bool) then mret (inr 0) else
  x ← first_bind fd (alr_x11_sock_xform addr) (str "x11 bind->rootfs") (str "/tmp/.X11-unix");
  if (x : bool) then mret (inr 0) else
  r ← next (str "bind") [N fd; addr_arg addr];
  match r with
  | inl e => if refused e && bool_decide (fst <$> addr = Some AF_NETLINK) then mret (inr 0) else mret (inl e)
  | inr v => mret (inr v)
  end.
Definition connect (fd : Z) (addr : option (Z * bytes)) : io result :=
  let target := match alr_cr_singleton_xform addr with
                | Some a => Some a
                | None => match alr_x11_sock_xform addr with Some a => Some a | None => addr end
                end in
  next (str "connect") [N fd; addr_arg target].
Definition accept (fd : Z) : io result := next (str "accept4") [N fd; N 0].
Definition SOL_SOCKET : Z := 1.
Definition SO_PRIORITY : Z := 12.
Definition SO_BINDTODEVICE : Z := 25.
Definition SO_MARK : Z := 36.
Definition setsockopt (fd level optname : Z) (optval : bytes) : io result :=
  r ← next (str "setsockopt") [N fd; N level; N optname; T optval];
  match r with
  | inl e =>
      if refused e && (level =? SOL_SOCKET) && ((optname =? SO_MARK) || (optname =? SO_BINDTODEVICE) || (optname =? SO_PRIORITY))
      then mret (inr 0) else mret (inl e)
  | inr v => mret (inr v)
  end.

(** [alr_cached_id]: the answer and the slot. *)
Definition ALR_ID_UNSET : Z := 2 ^ 32 - 1.
Definition alr_cached_id (slot nr : Z) : io (Z * Z) :=
  if negb (slot =? ALR_ID_UNSET) then mret (slot, slot)
  else r ← tramp nr []; mret (u32 r, u32 r).
(** [getuid], [geteuid], [getgid], [getegid] *)
Definition getid (name : bytes) (nr slot : Z) : io (result * Z) :=
  if pcgate s then '(v, slot) ← alr_cached_id slot nr; mret (inr v, slot)
  else r ← next name []; mret (r, slot).
End Wrappers.

(** ** All wrappers of paths

    [open64] and the like are [open] under another name, the first argument. *)
Inductive op :=
| Open (name : bytes) (path : option bytes) (flags mode : Z)
| Open2 (name : bytes) (path : option bytes) (flags : Z)
| Openat (name : bytes) (dirfd : Z) (path : option bytes) (flags mode : Z)
| Openat2 (name : bytes) (dirfd : Z) (path : option bytes) (flags : Z)
| Creat (name : bytes) (path : option bytes) (mode : Z)
| Stat (name : bytes) (nofollow : Z) (path : option bytes)
| Xstat (name : bytes) (nofollow ver : Z) (path : option bytes)
| Fstatat (name : bytes) (dirfd : Z) (path : option bytes) (flags : Z)
| Fxstatat (name : bytes) (ver dirfd : Z) (path : option bytes) (flags : Z)
| Statx (dirfd : Z) (path : option bytes) (flags mask : Z)
| Statfs (name : bytes) (path : option bytes)
| Access (path : option bytes) (mode : Z)
| Eaccess (name : bytes) (path : option bytes) (mode : Z)
| Faccessat (dirfd : Z) (path : option bytes) (mode flags : Z)
| Faccessat2 (dirfd : Z) (path : option bytes) (mode flags : Z)
| Readlink (path : option bytes) (size : nat)
| Readlinkat (dirfd : Z) (path : option bytes) (size : nat)
| ReadlinkChk (path : option bytes) (size buflen : nat)
| ReadlinkatChk (dirfd : Z) (path : option bytes) (size buflen : nat)
| Opendir (path : option bytes)
| Scandir (name : bytes) (path : option bytes)
| Fopen (name : bytes) (path : option bytes) (mode : bytes)
| Freopen (name : bytes) (path : option bytes) (mode : bytes)
| Mkdir (path : option bytes) (mode : Z)
| Mkdirat (dirfd : Z) (path : option bytes) (mode : Z)
| Rmdir (path : option bytes)
| Unlink (path : option bytes)
| Unlinkat (dirfd : Z) (path : option bytes) (flags : Z)
| Remove (path : option bytes)
| Chdir (path : option bytes)
| Chmod (path : option bytes) (mode : Z)
| Fchmodat (dirfd : Z) (path : option bytes) (mode flags : Z)
| Utime (path : option bytes)
| Utimensat (dirfd : Z) (path : option bytes) (flags : Z)
| Utimes (name : bytes) (path : option bytes)
| Rename (o n : option bytes)
| Renameat (ofd : Z) (o : option bytes) (nfd : Z) (n : option bytes)
| Renameat2 (ofd : Z) (o : option bytes) (nfd : Z) (n : option bytes) (flags : Z)
| Link (o n : option bytes)
| Linkat (ofd : Z) (o : option bytes) (nfd : Z) (n : option bytes) (flags : Z)
| Symlink (target : bytes) (path : option bytes)
| Symlinkat (target : bytes) (nfd : Z) (path : option bytes)
| Mknod (path : option bytes) (mode dev : Z)
| Mknodat (dirfd : Z) (path : option bytes) (mode dev : Z)
| Mkfifo (path : option bytes) (mode : Z)
| Mkfifoat (dirfd : Z) (path : option bytes) (mode : Z)
| NameToHandleAt (dirfd : Z) (path : option bytes) (flags : Z)
| Realpath (name : bytes) (path : option bytes)
| Dlopen (filename : option bytes) (flag : Z).

Section Perform.
Context (s : interposer) (pk : kernel).
Context (kern : list call → call → Z) (libc : list call → call → result) (libc_text : list call → call → Z + bytes).

Definition quiet {A} (m : io A) : io unit := _ ← m; mret tt.
Definition perform (o : op) : io unit :=
  match o with
  | Open n p f m => quiet (open s pk kern libc n p f m)
  | Open2 n p f => quiet (open_2 s pk kern libc n p f)
  | Openat n d p f m => quiet (openat s pk kern libc n d p f m)
  | Openat2 n d p f => quiet (openat_2 s pk kern libc n d p f)
  | Creat n p m => quiet (creat s pk kern libc n p m)
  | Stat n nf p => quiet (stat s kern libc n nf p)
  | Xstat n nf v p => quiet (xstat s kern libc n nf v p)
  | Fstatat n d p f => quiet (fstatat s kern libc n d p f)
  | Fxstatat n v d p f => quiet (fxstatat s kern libc n v d p f)
  | Statx d p f m => quiet (statx s kern libc d p f m)
  | Statfs n p => quiet (statfs s libc n p)
  | Access p m => quiet (access s kern libc p m)
  | Eaccess n p m => quiet (eaccess s kern libc n p m)
  | Faccessat d p m f => quiet (faccessat s kern libc d p m f)
  | Faccessat2 d p m f => quiet (faccessat2 s kern libc d p m f)
  | Readlink p n => quiet (readlink s kern libc p n)
  | Readlinkat d p n => quiet (readlinkat s kern libc d p n)
  | ReadlinkChk p n b => quiet (readlink_chk s kern libc p n b)
  | ReadlinkatChk d p n b => quiet (readlinkat_chk s kern libc d p n b)
  | Opendir p => quiet (opendir s pk kern libc p)
  | Scandir n p => quiet (scandir s libc n p)
  | Fopen n p m => quiet (fopen s pk kern libc n p m)
  | Freopen n p m => quiet (freopen s libc n p m)
  | Mkdir p m => quiet (mkdir s kern libc p m)
  | Mkdirat d p m => quiet (mkdirat s kern libc d p m)
  | Rmdir p => quiet (rmdir s kern libc p)
  | Unlink p => quiet (unlink s kern libc p)
  | Unlinkat d p f => quiet (unlinkat s kern libc d p f)
  | Remove p => quiet (remove s kern libc p)
  | Chdir p => quiet (chdir s kern libc p)
  | Chmod p m => quiet (chmod s libc p m)
  | Fchmodat d p m f => quiet (fchmodat s libc d p m f)
  | Utime p => quiet (utime s libc p)
  | Utimensat d p f => quiet (utimensat s kern libc d p f)
  | Utimes n p => quiet (utimes s kern libc n p)
  | Rename o n => quiet (rename s libc o n)
  | Renameat d o e n => quiet (renameat s libc d o e n)
  | Renameat2 d o e n f => quiet (renameat2 s libc d o e n f)
  | Link o n => quiet (link s kern libc o n)
  | Linkat d o e n f => quiet (linkat s kern libc d o e n f)
  | Symlink t p => quiet (symlink s libc t p)
  | Symlinkat t d p => quiet (symlinkat s libc t d p)
  | Mknod p m d => quiet (mknod s libc p m d)
  | Mknodat d p m v => quiet (mknodat s libc d p m v)
  | Mkfifo p m => quiet (mkfifo s libc p m)
  | Mkfifoat d p m => quiet (mkfifoat s libc d p m)
  | NameToHandleAt d p f => quiet (name_to_handle_at s libc d p f)
  | Realpath n p => quiet (realpath s libc_text n p)
  | Dlopen f g => quiet (dlopen s kern libc f g)
  end.
End Perform.

(** The paths a wrapper is asked for, and the path the kernel is to be given for one. *)
Definition paths (o : op) : list (option bytes) :=
  match o with
  | Open _ p _ _ | Open2 _ p _ | Openat _ _ p _ _ | Openat2 _ _ p _ | Creat _ p _ | Stat _ _ p | Xstat _ _ _ p | Fstatat _ _ p _
  | Fxstatat _ _ _ p _ | Statx _ p _ _ | Statfs _ p | Access p _ | Eaccess _ p _ | Faccessat _ p _ _ | Faccessat2 _ p _ _
  | Readlink p _ | Readlinkat _ p _ | ReadlinkChk p _ _ | ReadlinkatChk _ p _ _ | Opendir p | Scandir _ p | Fopen _ p _ | Freopen _ p _
  | Mkdir p _ | Mkdirat _ p _ | Rmdir p | Unlink p | Unlinkat _ p _ | Remove p | Chdir p | Chmod p _ | Fchmodat _ p _ _ | Utime p
  | Utimensat _ p _ | Utimes _ p | Symlink _ p | Symlinkat _ _ p | Mknod p _ _ | Mknodat _ p _ _ | Mkfifo p _ | Mkfifoat _ p _
  | NameToHandleAt _ p _ | Realpath _ p => [p]
  | Rename o n | Renameat _ o _ n | Renameat2 _ o _ n _ | Link o n | Linkat _ o _ n _ => [o; n]
  | Dlopen _ _ => [Some kRel]
  end.
Inductive placed (s : interposer) (p : bytes) : bytes → Prop :=
| in_rootfs : starts_slash p = true → placed s p (rootfs s ++ p)
| relative : starts_slash p = false → placed s p p
| disabled : rootfs s = [] → placed s p p
| of_kernel d r : (d = str "/proc" ∨ d = str "/sys" ∨ d = str "/dev") → p = d ++ r → r = [] ∨ starts_slash r = true → placed s p p
| of_host d r : d = rootfs s ∨ d = rootfs_canon s → p = d ++ r → r = [] ∨ starts_slash r = true → placed s p p
| too_long : (ALR_PBUF < length (rootfs s) + length p + 1)%nat → placed s p p.
(** What a call does with its paths: each is one of those asked for, placed, or it is resolved
    below the anchor. *)
Definition path_ok (s : interposer) (ps : list (option bytes)) (c : call) (q : option bytes) : Prop :=
  match q with
  | None => None ∈ ps
  | Some q => ∃ p, (Some p ∈ ps) ∧ (placed s p q ∨
      starts_slash p = true ∧ (p = slash :: q ∨ p = [slash] ∧ q = str ".") ∧
      ∃ flags mode, c = Tramp NR_openat2 [N (rootfs_fd s); P (Some q); N flags; N mode; N RESOLVE_IN_ROOT])
  end.
Definition args_of (c : call) : list arg := match c with Tramp _ a => a | Libc _ a => a end.
Definition call_ok (s : interposer) (ps : list (option bytes)) (c : call) : Prop := ∀ q, P q ∈ args_of c → path_ok s ps c q.

(** *** Lemmas *)

Lemma a_under_spec p d : a_under p d = true ↔ ∃ r, p = d ++ r ∧ (r = [] ∨ starts_slash r = true).
Proof.
  revert p. induction d as [|b d IH]; intros [|c p]; cbn [a_under].
  - split; [intros _; exists []; auto|done].
  - rewrite bool_decide_eq_true. split; [intros ->; exists (slash :: p); auto|].
    intros (r & E & [->|Hs]); simplify_eq/=. by apply bool_decide_eq_true in Hs.
  - split; [done|]. intros (r & ? & _). done.
  - rewrite andb_true_iff, bool_decide_eq_true, IH. naive_solver.
Qed.
Lemma rw_placed s p : placed s p (rw_path s 0 ALR_PBUF p).
Proof.
  unfold rw_path. destruct (starts_slash p) eqn:Hs; cbn [negb Z.eqb]; [|by apply relative].
  case_bool_decide as Hr; [by apply disabled|].
  destruct (kernel_fs p) eqn:Hk.
  { unfold kernel_fs in Hk. rewrite !orb_true_iff, !a_under_spec in Hk.
    destruct Hk as [[(r & E & H)|(r & E & H)]|(r & E & H)]; (eapply of_kernel; [|exact E|exact H]; auto). }
  destruct (already_host s p) eqn:Ha.
  { unfold already_host in Ha. rewrite orb_true_iff, andb_true_iff, !a_under_spec in Ha.
    destruct Ha as [(r & E & H)|[_ (r & E & H)]]; (eapply of_host; [|exact E|exact H]; auto). }
  destruct (_ <? _)%nat eqn:Hl; [apply too_long; by apply Nat.ltb_lt|by apply in_rootfs].
Qed.
Lemma rw_abs_rw s p : rw_abs s p = rw s p.
Proof. destruct p as [p|]; [|done]. unfold rw_abs, rw, rw_path. cbn. destruct (starts_slash p); done. Qed.
Lemma rw_ok s ps c p : (p ∈ ps) → path_ok s ps c (rw s p).
Proof. intros H. destruct p as [p|]; [|done]. exists p. split; [done|]. left. apply rw_placed. Qed.

(** Every call a computation makes. *)
Definition calls {A} (Q : call → Prop) (m : io A) : Prop := ∀ w, ∃ cs, trace (snd (m w)) = trace w ++ cs ∧ Forall Q cs.
Lemma calls_ret {A} Q (a : A) : calls Q (mret a).
Proof. intros w. exists []. by rewrite app_nil_r. Qed.
Lemma calls_bind {A B} Q (m : io A) (f : A → io B) : calls Q m → (∀ a, calls Q (f a)) → calls Q (m ≫= f).
Proof.
  intros Hm Hf w. destruct (Hm w) as (c1 & E1 & H1). unfold mbind, io_bind. destruct (m w) as [a w1]. cbn in E1.
  destruct (Hf a w1) as (c2 & E2 & H2). exists (c1 ++ c2). rewrite E2, E1, app_assoc. split; [done|]. by apply Forall_app.
Qed.
Lemma calls_tramp Q kern nr a : Q (Tramp nr a) → calls Q (tramp kern nr a).
Proof. intros H w. exists [Tramp nr a]. split; [done|]. by constructor. Qed.
Lemma calls_next Q libc n a : Q (Libc n a) → calls Q (next libc n a).
Proof. intros H w. exists [Libc n a]. split; [done|]. by constructor. Qed.
Lemma calls_next_text Q libc n a : Q (Libc n a) → calls Q (next_text libc n a).
Proof. intros H w. exists [Libc n a]. split; [done|]. by constructor. Qed.
Lemma calls_pty Q pk p f : calls Q (try_pty pk p f).
Proof.
  intros w. exists []. rewrite app_nil_r. split; [|done]. unfold try_pty. destruct p as [p|]; [|done].
  by destruct (alr_pts_try_open pk (ptys w) p f) as [[q r] es].
Qed.

(** The paths among the arguments of a call. *)
Ltac path_args :=
  let H := fresh "Hx" in intros ? H; cbn [args_of] in H;
  repeat first [by apply elem_of_nil in H|apply elem_of_cons in H as [H|H]; [simplify_eq|]].
Ltac is_path := path_args; rewrite ?rw_abs_rw; apply rw_ok; repeat first [left|right].
Section Placed.
Context (s : interposer) (pk : kernel).
Context (kern : list call → call → Z) (libc : list call → call → result) (libc_text : list call → call → Z + bytes).

Lemma diag_ok ps tag a b r : calls (call_ok s ps) (alr_diag s kern tag a b r).
Proof. unfold alr_diag, alr_emit_fd2. destruct (diag s); [|apply calls_ret]. apply calls_bind; [apply calls_tramp; path_args|intros; apply calls_ret]. Qed.
Lemma below_anchor_spec p : starts_slash p = true → p = slash :: below_anchor p ∨ p = [slash] ∧ below_anchor p = str ".".
Proof. destruct p as [|c [|d r]]; [done| |]; intros H; apply bool_decide_eq_true in H as ->; [by right|by left]. Qed.
Lemma open_emit_ok d p f m : calls (call_ok s [p]) (alr_open_emit s pk kern d p f m).
Proof.
  unfold alr_open_emit. apply calls_bind; [apply calls_pty|]. intros [r|]; [apply calls_ret|].
  destruct (if anchored s (default [] p) then p else None) as [q|] eqn:E.
  - destruct (anchored s (default [] p)) eqn:Ha; [|done]. subst p. cbn [default] in Ha. unfold anchored in Ha. rewrite !andb_true_iff in Ha.
    apply calls_bind; [apply calls_tramp|].
    + path_args.
      exists q. split; [left|]. right. split; [tauto|]. split; [apply below_anchor_spec; tauto|eauto].
    + intros a. apply calls_bind; [|intros; apply calls_ret]. destruct (_ =? _); [apply calls_ret|apply diag_ok].
  - clear E. apply calls_bind; [apply calls_tramp|].
    + is_path.
    + intros a. apply calls_bind; [|intros; apply calls_ret]. destruct (_ && _); [apply diag_ok|apply calls_ret].
Qed.

Lemma take_over_ok ps name a fd : (∀ q, P q ∉ a) → calls (call_ok s ps) (take_over kern libc name a fd).
Proof.
  intros Ha. unfold take_over. apply calls_bind; [apply calls_next; intros q Hq; cbn [args_of] in Hq; apply elem_of_cons in Hq as [?|Hq]; [done|by apply Ha in Hq]|].
  intros [e|v]; [|apply calls_ret]. apply calls_bind; [apply calls_tramp; path_args|intros; apply calls_ret].
Qed.
Lemma readlink_emit_ok d p n : calls (call_ok s [p]) (alr_readlink_emit s kern d p n).
Proof.
  unfold alr_readlink_emit. destruct (_ && _); [apply calls_ret|]. apply calls_bind; [|intros; apply calls_ret].
  apply calls_bind; [|intros; apply calls_ret]. apply calls_tramp. is_path.
Qed.
(** The shapes of the wrappers. *)
Ltac wrapper :=
  repeat first
    [apply calls_ret|apply open_emit_ok|apply readlink_emit_ok|apply diag_ok|apply calls_pty
    |apply take_over_ok; path_args
    |apply calls_tramp; is_path|apply calls_next; is_path|apply calls_next_text; is_path
    |apply calls_bind; [|intros ?]
    |case_match].
Lemma dlopen_ok f g : calls (call_ok s [Some kRel]) (dlopen s kern libc f g).
Proof.
  assert (Hin : ∀ c, path_ok s [Some kRel] c (Some (rootfs s ++ kRel))) by (intros c; exists kRel; split; [left|left; by apply in_rootfs]).
  assert (Hp : calls (call_ok s [Some kRel]) (next libc (str "dlopen") [match f with Some f => T f | None => N 0 end; N g])).
  { apply calls_next. destruct f; path_args. }
  unfold dlopen. destruct f as [f|]; [|exact Hp]. destruct (_ && _); [|exact Hp].
  apply calls_bind; [apply calls_next; path_args; apply Hin|]. intros a. case_bool_decide; [|exact Hp].
  apply calls_bind; [apply calls_next; path_args; apply Hin|]. intros h. apply calls_bind; [apply diag_ok|]. intros _.
  destruct h; [exact Hp|apply calls_ret].
Qed.
End Placed.

(** *** What is never traced *)

(** The wrappers that make their call themselves when the filter is in place. *)
Definition gated (o : op) : bool :=
  match o with
  | Open _ _ _ _ | Open2 _ _ _ | Openat _ _ _ _ _ | Openat2 _ _ _ _ | Creat _ _ _ | Stat _ _ _ | Xstat _ _ _ _ | Fstatat _ _ _ _
  | Fxstatat _ _ _ _ _ | Statx _ _ _ _ | Access _ _ | Eaccess _ _ _ | Faccessat _ _ _ _ | Faccessat2 _ _ _ _ | Readlink _ _
  | Readlinkat _ _ _ | ReadlinkChk _ _ _ | ReadlinkatChk _ _ _ _ | Opendir _ | Mkdir _ _ | Mkdirat _ _ _ | Rmdir _ | Unlink _
  | Unlinkat _ _ _ | Remove _ => true
  | Fopen _ p m => bool_decide (is_Some (alr_fopen_flags m)) && starts_slash (default [] p)
  | _ => false
  end.
Definition allowed (lo hi : Z) (c : call) : Prop :=
  match c with
  | Tramp nr _ => ∀ ip, lo ≤ ip < hi → ∃ n, verdict lo hi (mk_data nr AUDIT_ARCH_AARCH64 ip) = Some (SECCOMP_RET_ALLOW, n)
  | Libc _ a => ∀ q, P q ∉ a
  end.
Lemma tramp_allowed lo hi nr a : 0 ≤ lo → hi ≤ 2 ^ 64 - 1 → 0 ≤ nr < 2 ^ 32 → allowed lo hi (Tramp nr a).
Proof.
  intros Hlo Hhi Hnr ip Hip.
  destruct (ends_run _ _ _ _ _ _ (length (pcgated_filter lo hi)) (filter_ends lo hi (mk_data nr AUDIT_ARCH_AARCH64 ip) ltac:(lia) ltac:(lia)
    ltac:(split; cbn; unfold AUDIT_ARCH_AARCH64; lia))) as (n & Hn & _).
  { repeat case_match; apply (Nat.leb_le _ _); reflexivity. }
  exists n. unfold verdict. rewrite Hn. unfold decision. cbn [d_ip]. rewrite (proj2 (Z.leb_le _ _)), (proj2 (Z.ltb_lt _ _)) by lia. by rewrite andb_false_r.
Qed.
Section Gated.
Context (s : interposer) (pk : kernel).
Context (kern : list call → call → Z) (libc : list call → call → result) (libc_text : list call → call → Z + bytes).
Context (lo hi : Z) (Hlo : 0 ≤ lo) (Hhi : hi ≤ 2 ^ 64 - 1).

Lemma allowed_tramp nr a : 0 ≤ nr < 2 ^ 32 → calls (allowed lo hi) (tramp kern nr a).
Proof. intros H. apply calls_tramp. by apply tramp_allowed. Qed.
Lemma diag_allowed tag a b r : calls (allowed lo hi) (alr_diag s kern tag a b r).
Proof. unfold alr_diag, alr_emit_fd2. destruct (diag s); [|apply calls_ret]. apply calls_bind; [by apply allowed_tramp|intros; apply calls_ret]. Qed.
Ltac own :=
  repeat first
    [apply calls_ret|apply diag_allowed|apply calls_pty|apply allowed_tramp; done
    |apply calls_next; intros ? ?; set_solver|apply calls_bind; [|intros ?]|case_match].
Lemma open_emit_allowed d p f m : calls (allowed lo hi) (alr_open_emit s pk kern d p f m).
Proof. unfold alr_open_emit. own. Qed.
Lemma take_over_allowed name a fd : (∀ q, P q ∉ a) → calls (allowed lo hi) (take_over kern libc name a fd).
Proof. intros Ha. unfold take_over. own. Qed.
End Gated.

(** *** The way back *)

Lemma init_rootfs_slash r : init_rootfs r = [] ∨ starts_slash (init_rootfs r) = true.
Proof.
  destruct r as [[|c t]|]; cbn [init_rootfs]; [by left| |by left]. case_bool_decide; cbn [negb]; [|by left].
  case_bool_decide; [by left|]. right. subst c. by apply bool_decide_eq_true.
Qed.
Lemma a_under_app d r : r = [] ∨ starts_slash r = true → a_under (d ++ r) d = true.
Proof. intros H. apply a_under_spec. eauto. Qed.
Lemma starts_app a b : starts_slash a = true → starts_slash (a ++ b) = true.
Proof. by destruct a. Qed.
(** The alias is never below the root itself. *)
Lemma canon_apart root r : init_canon root ≠ [] → a_under (init_canon root ++ r) root = false.
Proof.
  unfold init_canon. case_bool_decide; [|done]. destruct (is_prefix kPerUser root) eqn:E; [|done]. cbn [andb]. case_bool_decide; [|done]. intros _.
  apply is_prefix_spec in E as [t ->]. apply not_true_iff_false. rewrite a_under_spec. intros (q & Eq & _). discriminate Eq.
Qed.
Lemma strip_app d r : r = [] ∨ starts_slash r = true → strip (length d) (d ++ r) = if bool_decide (r = []) then [slash] else r.
Proof. intros H. unfold strip. rewrite drop_app_length. by destruct r. Qed.
(** A state of the constructor. *)
Definition constructed (s : interposer) : Prop := (starts_slash (rootfs s) = true ∨ rootfs s = []) ∧ rootfs_canon s = init_canon (rootfs s).
Lemma ctor_constructed env lo hi fd po pa t f : constructed (fst (alr_ctor env lo hi fd po pa t f)).
Proof.
  unfold alr_ctor. destruct (if bool_decide _ then _ else _) as [a o2]. split; [|done]. cbn. destruct (init_rootfs_slash (env !! str "ALR_ROOTFS")); auto.
Qed.
Lemma canon_slash root : init_canon root ≠ [] → starts_slash (init_canon root) = true.
Proof. unfold init_canon. case_bool_decide; [|done]. destruct (is_prefix kPerUser root); [|done]. cbn [andb]. by case_bool_decide. Qed.
(** A path of the host below the root or its alias, and its guest path. *)
Lemma canon_of_host s h : constructed s → rootfs s ≠ [] → already_host s h = true →
  ∃ r, (h = rootfs s ++ r ∨ h = rootfs_canon s ++ r) ∧ guest_canon s h = if bool_decide (r = []) then [slash] else r.
Proof.
  intros [[Hs|Hs] Hc] Hr H; [|done]. unfold already_host in H. unfold guest_canon. rewrite (bool_decide_false _ Hr). cbn [negb andb].
  destruct (a_under h (rootfs s)) eqn:E.
  - apply a_under_spec in E as (r & -> & E). exists r. split; [auto|]. rewrite starts_app by done. by apply strip_app.
  - cbn [orb] in H. rewrite H. apply andb_prop in H as [Hn H]. apply a_under_spec in H as (r & -> & H). exists r. split; [auto|].
    rewrite starts_app; [by apply strip_app|]. rewrite Hc. apply canon_slash. rewrite <- Hc. apply negb_true_iff in Hn. by apply bool_decide_eq_false in Hn.
Qed.
Lemma rw_either s cap p : rw_path s 0 cap p = p ∨ (rootfs s ≠ []) ∧ rw_path s 0 cap p = rootfs s ++ p.
Proof.
  unfold rw_path. destruct (starts_slash p); [|by left]. cbn [negb Z.eqb]. case_bool_decide; [by left|].
  destruct (kernel_fs p); [by left|]. destruct (already_host s p); [by left|]. destruct (_ <? _)%nat; [by left|by right].
Qed.
Lemma rw_idem s cap p : rw_path s 0 cap (rw_path s 0 cap p) = rw_path s 0 cap p.
Proof.
  destruct (rw_either s cap p) as [E|[Hr E]]; rewrite !E; [done|].
  destruct (starts_slash p) eqn:Hs; [|unfold rw_path in E; rewrite Hs in E; cbn in E; rewrite <- E; unfold rw_path; by rewrite Hs].
  unfold rw_path. destruct (negb (starts_slash _)); [done|]. cbn [negb Z.eqb]. rewrite (bool_decide_false _ Hr). destruct (kernel_fs _); [done|].
  assert (Ea : already_host s (rootfs s ++ p) = true) by (unfold already_host; rewrite a_under_app by auto; done). by rewrite Ea.
Qed.

(** *** Other wrappers *)

(** The line fits the buffer, and what is cut is cut at its end. *)
Lemma put_length cap l t : (length l ≤ cap)%nat → (length (put cap l t) ≤ cap)%nat.
Proof. intros H. unfold put. rewrite length_app, length_take. lia. Qed.
Lemma diag_line_fits tag a b r : (length (diag_line tag a b r) ≤ LINE_CAP)%nat.
Proof.
  unfold diag_line.
  assert (H0 : (length (put (LINE_CAP - 1) (put (LINE_CAP - 1) [] (str "ALR-IDIAG ")) tag) ≤ LINE_CAP - 1)%nat) by (do 2 apply put_length; apply Nat.le_0_l).
  assert (Hs : ∀ l t, (length l ≤ LINE_CAP - 1)%nat → (length (spaced l t) ≤ LINE_CAP - 1)%nat).
  { intros l [t|] Hl; [|done]. by do 2 apply put_length. }
  pose proof (Hs _ b (Hs _ a H0)) as H1. cbv zeta. revert H1. generalize (spaced (spaced (put (LINE_CAP - 1) (put (LINE_CAP - 1) [] (str "ALR-IDIAG ")) tag) a) b).
  intros l Hl. clear H0 Hs.
  assert (H2 : (length (if (length l <? LINE_CAP - 3)%nat then l ++ str " =" else l) ≤ LINE_CAP - 1)%nat).
  { destruct (Nat.ltb_spec (length l) (LINE_CAP - 3)); [|done]. rewrite length_app. change (length (str " =")) with 2%nat. lia. }
  pose proof (put_length _ _ (to_string r) H2) as H3. destruct (Nat.ltb_spec (length (put (LINE_CAP - 1) (if (length l <? LINE_CAP - 3)%nat then l ++ str " =" else l) (to_string r))) LINE_CAP); rewrite ?length_app; cbn [length]; lia.
Qed.
(** The server and its clients meet at one address, which fits, ends in a NUL and names the
    socket below the root. *)
Lemma x11_address s family raw : rootfs s ≠ [] → ∀ a, alr_x11_sock_xform s (Some (family, raw)) = Some a →
  ∃ n, a = (AF_UNIX, rootfs s ++ X11 ++ n ++ [nul]) ∧ sun_path raw = X11 ++ n ∧ (n ≠ []) ∧ (length (snd a) ≤ SUN_PATH)%nat.
Proof.
  intros Hr a. unfold alr_x11_sock_xform. cbn [mbind option_bind]. destruct (_ || _); [done|].
  destruct (Nat.leb_spec (length (sun_path raw)) (length X11)) as [|Hl]; [done|]. cbn [orb].
  destruct (is_prefix X11 (sun_path raw)) eqn:E; [|done]. cbn [negb]. destruct (Nat.ltb_spec SUN_PATH (length (rootfs s) + length (sun_path raw) + 1)) as [|Hf]; [done|].
  intros [= <-]. apply is_prefix_spec in E as [n E]. exists n. rewrite E in *. rewrite <- app_assoc. split_and!; [done|done|intros ->; rewrite app_nil_r in Hl; lia|].
  cbn [snd]. rewrite !length_app in *. cbn [length]. lia.
Qed.
(** The credentials are asked for once. *)
Lemma cached_id_once kern slot nr w : slot ≠ ALR_ID_UNSET → alr_cached_id kern slot nr w = ((slot, slot), w).
Proof. intros H. unfold alr_cached_id. by rewrite (proj2 (Z.eqb_neq _ _)). Qed.

(** ** Instances and boundary cases *)

Definition some_env : gmap bytes bytes :=
  {[str "ALR_ROOTFS" := str "/data/user/0/a/r/"; str "ALR_GUEST_EXE" := str "/usr/bin/x"]}.
Definition some_state : interposer := fst (alr_ctor some_env 4096 4132 9 (0, Some 10) (0, Some 0) true true).
Example some_state_eq : some_state = mk_interposer (str "/data/user/0/a/r") (str "/data/data/a/r") (str "/usr/bin/x") true false 9 true true.
Proof. vm_compute. reflexivity. Qed.
Example some_filter : snd (alr_ctor some_env 4096 4132 9 (0, Some 10) (0, Some 0) true true) ≠ [].
Proof. vm_compute. discriminate. Qed.
Definition at_start : world := mk_world [] (started ∅) [].
Definition no_fds : kernel := fds 3 4 5.
(** Everything succeeds. *)
Definition yes (t : list call) (c : call) : Z := 0.
Definition done_ (t : list call) (c : call) : result := inr 0.
Definition found (t : list call) (c : call) : Z + bytes := inr (str "/data/data/a/r/tmp/k").
Definition made (s : interposer) (libc : list call → call → result) (o : op) : list call := trace (snd (perform s no_fds yes libc found o at_start)).

Example fopen_ex : alr_fopen_flags (str "r+e") = Some (Z.lor O_RDWR O_CLOEXEC) ∧ alr_fopen_flags (str "wbx") = Some 0x2c1 ∧ alr_fopen_flags (str "a+") = Some 0x442 ∧
  alr_fopen_flags (str "r,ccs=UTF-8") = None ∧ alr_fopen_flags [] = None.
Proof. vm_compute. done. Qed.
Example open_ex : made some_state done_ (Open (str "open") (Some (str "/etc/hosts")) 0 0) = [Tramp 437 [N 9; P (Some (str "etc/hosts")); N 0; N 0; N 16]] ∧
  made some_state done_ (Stat (str "stat") 0 (Some (str "/etc/hosts"))) = [Tramp 79 [N (-100); P (Some (str "/data/user/0/a/r/etc/hosts")); N 0]] ∧
  made some_state done_ (Readlink (Some (str "/proc/self/exe")) 4096) = [] ∧
  made some_state done_ (Stat (str "stat") 0 (Some (str "/data/data/a/r/x"))) = [Tramp 79 [N (-100); P (Some (str "/data/data/a/r/x")); N 0]].
Proof. vm_compute. done. Qed.


(** Only openat2 keeps a path with dot-dot below the root: the same path given to stat leaves
    it, by a call that the filter does not trace, and a file system of the kernel is a way out
    for open as well. *)
Example dotdot_untraced :
  made some_state done_ (Open (str "open") (Some (str "/../x")) 0 0) = [Tramp 437 [N 9; P (Some (str "../x")); N 0; N 0; N 16]] ∧
  made some_state done_ (Stat (str "stat") 0 (Some (str "/../x"))) = [Tramp 79 [N (-100); P (Some (str "/data/user/0/a/r/../x")); N 0]] ∧
  made some_state done_ (Open (str "open") (Some (str "/proc/../data/f")) 0 0) = [Tramp 56 [N (-100); P (Some (str "/proc/../data/f")); N 0; N 0]] ∧
  fst <$> verdict 4096 4132 (mk_data 56 AUDIT_ARCH_AARCH64 4124) = Some SECCOMP_RET_ALLOW.
Proof. vm_compute. done. Qed.
(** Opening a directory takes a mode that the caller did not give, and openat2 gets it. *)
Example directory_mode :
  made some_state done_ (Open (str "open") (Some (str "/etc")) O_DIRECTORY 12345) = [Tramp 437 [N 9; P (Some (str "etc")); N O_DIRECTORY; N 12345; N 16]].
Proof. vm_compute. done. Qed.
(** Where the kernel refuses to link a directory, it is moved. *)
Definition no_links (t : list call) (c : call) : result := match c with Libc n _ => if bool_decide (n = str "link") then inl EPERM else inr 0 | _ => inr 0 end.
Example directory_moved :
  fst (link some_state yes no_links (Some (str "/d")) (Some (str "/e")) at_start) = inr 0 ∧
  made some_state no_links (Link (Some (str "/d")) (Some (str "/e"))) =
    [Libc (str "link") [P (Some (str "/data/user/0/a/r/d")); P (Some (str "/data/user/0/a/r/e"))];
     Libc (str "rename") [P (Some (str "/data/user/0/a/r/d")); P (Some (str "/data/user/0/a/r/e"))]].
Proof. vm_compute. done. Qed.
(** An X server on a display in use is told that the directory of the socket does not exist. *)
Definition in_use (t : list call) (c : call) : result := if (length t =? 0)%nat then inl 98 else inl 2.
Example display_in_use : fst (bind some_state yes in_use 3 (Some (AF_UNIX, str "/tmp/.X11-unix/X0")) at_start) = inl 2.
Proof. vm_compute. done. Qed.
(** A path whose host path is too long for the buffer is the host's. *)
Example long_path_untouched : let p := slash :: replicate 2290 "a"%byte in
  made some_state done_ (Unlink (Some p)) = [Tramp 35 [N (-100); P (Some p); N 0]].
Proof. vm_compute. done. Qed.
